(* ===== verification/_CoqProject ===== *)
-Q . S2P
Prelude.v
Riscv.v
RiscvSpec.v
Memory.v
MemorySpec.v
Cpu.v
Isa.v
CpuSpec.v
CpuProps.v
Accumulator.v
AccumulatorSpec.v
ClientCommands.v
ClientCommandsSpec.v
Evict.v
EvictSpec.v
Aes.v
AesSpec.v
Auth.v
History.v
Concrete.v
ClientMemory.v
ClientMemorySpec.v
OutsourcedMem.v
OutsourcedSpec.v
OutsourcedRefine.v
VanadiumClient.v
Accesses.v
Honest.v
HonestRun.v
Ux.v
UxSpec.v
Manifest.v
ManifestSpec.v
Ecall.v
GuestSpec.v
EcallSpec.v
Lockstep.v
GuardedMem.v
VappSpec.v
StartVapp.v
ConcreteSys.v
VappRefine.v
EcallFrame.v
Handlers.v
ClientApp.v
CommandsSpec.v
PreloadSpec.v
Framing.v
FramingSpec.v
Text.v
Bip388.v
Bip388Spec.v
Bip388Print.v
Bip388RoundTrip.v
WalletPolicy.v
WalletPolicySpec.v
UtcTime.v
Psbt.v
PsbtSpec.v
PsbtLookup.v
Musig.v
MusigSpec.v
Script.v
ScriptSpec.v
Account.v
PsbtAccount.v
AccountSpec.v
MusigSession.v
Executor.v
ExecutorSpec.v
SignPsbt.v
MusigSessionSpec.v
SignDemo.v
SignPsbtSpec.v
BitcoinHandlers.v
BitcoinHandlersSpec.v
Review.v
ReviewSpec.v
Makers.v
MakersSpec.v
