(* ===== verification/Prelude.v ===== *)
(** * Vanadium: a verification library for the VM and its client

    Vanadium runs RISC-V applications (V-Apps) in a secure element whose memory is too
    small for them. The VM of the device keeps a few pages of code, data and stack in
    caches; every other page is with an untrusted client on the host, encrypted and
    authenticated by a Merkle root that the VM keeps. This library models the VM, the
    client, and the protocol between them, and proves that together they are a RISC-V
    machine with a private memory: what a V-App computes does not depend on what the
    client answers, up to the provisos below, and with the answers of the client of the
    repository it does compute.

    ** The parts, and the files that model them

    From the bottom to the top; a file [XSpec] has the specification and the theorems of
    the file [X].

    - The instruction set ([common/src/riscv]): [Riscv] has the instruction type and the
      decoder. [RiscvSpec] relates it to an assembler and to the table of the compressed
      quadrants.
    - Memory ([common/src/vm.rs], [constants.rs]): [Memory] has the trait [PagedMemory] as
      a class whose laws are [LawfulPaged], and segments over any instance of it.
      [MemorySpec]: a segment is a map from addresses to bytes.
    - The processor ([Cpu] of [common/src/vm.rs]): [Cpu]. [Isa] is an abstract RV32IMAC
      machine without pages, caches or wrap-around; [CpuSpec] and [CpuProps] prove the
      simulation and what follows from it.
    - The Merkle accumulator ([common/src/accumulator.rs]): [Accumulator]. [History] states
      soundness relative to the messages that were really hashed, so that no theorem
      assumes that a hash function has no collisions.
    - Messages ([common/src/client_commands.rs]): [ClientCommands].
    - Eviction ([vm/src/handlers/lib/evict.rs]): [Evict], with LRU and 2Q as instances of
      one class; [EvictSpec] proves the laws that the cache relies on.
    - Encryption and keys ([vm/src/aes.rs], [auth.rs]): [Aes] and [Auth].
    - The outsourced memory ([vm/src/handlers/lib/outsourced_mem.rs]): [OutsourcedMem].
      [OutsourcedRefine] has its invariant, [OutsourcedSpec] the refinement of a map of
      pages, [Accesses] what this means for a whole program of page accesses.
    - The client's side of it ([client-sdk/src/memory.rs], [vanadium_client.rs]):
      [ClientMemory] and [VanadiumClient]. [Honest] and [HonestRun] run the engine of the
      client against the outsourced memory of the VM.
    - The UX codec ([common/src/ux], [macros]): [Ux]. [Makers] has the wrapped serialization
      of the build script of the V-App SDK ([app-sdk/build.rs], [build_utils]) and the
      functions that it generates.
    - The V-App SDK ([app-sdk/src]): [Executor] has the background tasks ([executor.rs] and
      the tasks of [app.rs]), [Review] the screens, reviews and the dashboard ([ux.rs],
      [app.rs]).
    - The manifest and the store ([common/src/manifest.rs], [vm/src/vapp.rs], [nvm.rs]):
      [Manifest].
    - The ECALLs ([vm/src/handlers/lib/ecall.rs]): [Ecall], over the class [Guest] of what
      a handler uses of the processor and the class [Sys] of the operating system.
      [GuestSpec] and [EcallSpec] simulate them over the abstract machine, [EcallFrame]
      bounds what they change of the store.
    - A run ([vm/src/handlers/start_vapp.rs]): [StartVapp]. [VappSpec] has a V-App over a
      lawful memory; [Lockstep] and [GuardedMem] carry the result to outsourced memories,
      which are lawful until a collision is hashed; [VappRefine] concludes.
    - The commands ([vm/src/main.rs], [vm/src/handlers]) and the client's side of them:
      [Handlers] and [ClientApp]; [CommandsSpec] on the store and the files, [PreloadSpec]
      on the preload protocol.
    - Messages of a V-App and its client ([common/src/comm.rs] and those of the two SDKs):
      [Framing].
    - Of the Bitcoin application ([apps/bitcoin]), its reading of wallet policies and of the
      time locks in them ([bip388/src/lib.rs], [time.rs]): [Text] has the strings of Rust,
      [Bip388] the templates, their iterators and their parser, [WalletPolicy] keys,
      descriptors and the serialization of policies, [UtcTime] dates and durations.
      [Bip388Spec] has the rules of the parser, [Bip388Print] and [Bip388RoundTrip] invert it.
    - Its PSBTs ([common/src/fastpsbt.rs]): [Psbt], with the grammar in [PsbtSpec] and the
      lookups, the lock time and the sighashes in [PsbtLookup].
    - Its scripts and keys ([common/src/script.rs], [taproot.rs], [musig]): [Script] and
      [Musig]; [ScriptSpec] has the table of BIP-379 and the places in which the BIPs of
      the descriptors allow each fragment, [MusigSpec] the equation that a signature
      satisfies.
    - Its accounts and identities ([common/src/account.rs], [identity.rs], [por.rs],
      [psbt]): [Account], and [PsbtAccount] for the fields of a PSBT that carry them.
    - Its handlers ([app/src]): [MusigSession] has the sessions of MuSig2 and the resident
      keys, [SignPsbt] the signing of a PSBT, [BitcoinHandlers] the other requests and
      their dispatch. [MusigSessionSpec] follows a session through a signing pass,
      [SignDemo] is a concrete application, [SignPsbtSpec] and [BitcoinHandlersSpec] have
      the theorems.
    - [Concrete] and [ConcreteSys] have concrete hashers, ciphers and systems, with which
      the theorems are applied to examples.

    ** State and effects

    A computation that can fail is an [outcome] (below): a value, an error of the source's
    error type, an abort ([Panic]), or a wait that nobody ends ([Diverge]). A computation
    over a state is a function from a state to an outcome and the state left behind, also
    where it fails: what an error leaves in the caches is part of the claims.

    The other side of a channel is a list of answers, the next one first, and a record of
    what was sent; a request with no answer left waits for ever. A theorem for all lists is
    a theorem for every client, also one that adapts its answers to what it sees. The three
    memories of a V-App and its ECALL handler have a view of the channel each, the requests
    that it makes and their answers: the requests of one are answered before another makes
    its own, so the order between the views is that of the program. The key and the nonces
    of AES are common to the three memories behind a reference cell, as in the source; the
    function [share] passes the cell from one memory to the other.

    Integers are [Z] with the wrap-around of the release build written out. Bytes are [Z]
    below 256, strings the list of their UTF-8 bytes. The checks of debug builds
    ([debug_assert!]) are not there; [assert!], [unwrap] and indexing are.

    ** What the theorems show

    - A V-App over outsourced memories runs as over the abstract machine
      ([VappRefine.start_vapp_refines], [VappRefine.vapp_run_refines]): the same exchanges,
      the same system calls, the same changes of the store, or it stops with an error. There
      are three provisos: the client holds no HMAC of a wrong page of the code; no two
      different messages that were hashed for the memories have the same hash; and no ECALL
      writes to the code (the abstract machine loses the code there and stops, [EcallSpec]).
    - The layers of the argument are theorems of their own: on programs of page accesses
      ([Accesses.outsourced_refines], with either eviction strategy and the provisos of a
      segment), on the processor ([CpuProps]), on the proofs of the accumulator
      ([AccumulatorSpec]) and on the eviction strategies ([EvictSpec]).
    - The client makes no memory panic ([Accesses.outsourced_no_panic]), and with the client
      of the repository a program does run to its end ([HonestRun.honest_run]), its code
      pages coming with Merkle proofs or with HMACs. Both are for the accesses that the
      eviction strategy affords: any number with LRU, 2^32 - 1 with 2Q, whose counter wraps.
    - What is stored on the device is only changed by those who may: [EcallFrame] (a V-App
      reaches its own entry only), [CommandsSpec.only_approved] (an entry is of a V-App
      that the user approved), [ManifestSpec].
    - A preload gives its key only for the right code, ends, and succeeds with the client
      of the repository ([PreloadSpec]).
    - What is written can be read back, and has one reading: instructions ([RiscvSpec];
      the compressed decoder also takes reserved halfwords of two kinds, [rvc_lenient]),
      messages ([ClientCommandsSpec]), pages and steps ([UxSpec]), files ([CommandsSpec]),
      framed messages ([FramingSpec]), encrypted pages ([AesSpec]), templates of wallet
      policies ([Bip388RoundTrip]), policies ([WalletPolicySpec]), dates ([UtcTime]).
    - Pages and steps that are made by the generated functions are serialized as the codec
      does ([MakersSpec]); a review shows all of its pairs before it is approved, and waits
      for nothing but events ([ReviewSpec]); a background task is polled in every round
      ([ExecutorSpec.poll_once_fair]), runs to its end, and is gone when the handle that
      cancels it is dropped ([ExecutorSpec.task_runs]).
    - A transaction is signed only after the user approved screens that tell what it does
      ([SignPsbtSpec.sign_authorized]), accounts, identities and addresses likewise
      ([BitcoinHandlersSpec.responses_approved]); the randomness of MuSig2 is used once
      ([SignPsbtSpec.musig_nonces_once]), the verification in the background gives what it
      gives in order ([SignPsbtSpec.verification_in_background]), and MuSig2 signatures with
      the nonces of [nonce_gen] verify unless the nonces cancel each other
      ([MusigSpec.musig_correct]). An identifier of an account or of an identity has one
      meaning, for policies and names of any size ([AccountSpec.registration_id_identifies]).
    - PSBTs are parsed by their grammar ([PsbtLookup.parse_exact]) and looked up as
      association lists ([PsbtLookup.lookups_exact]); scripts are those of the table of
      BIP-379, but for the order of the arguments of andor and for sh(wsh(X)), which is
      refused, if every fragment is in a place where the BIPs allow it
      ([ScriptSpec.script_of_table]).
    - The descriptor of a wallet is its template with the keys in the places of the
      placeholders ([WalletPolicySpec.to_descriptor_renders]), the iterator misses none
      ([Bip388RoundTrip.placeholders_in_order]), and the parser panics on no ASCII string.

    A theorem on authenticity does not say "or a collision exists", which is true of every
    hash function: the two messages are among those that the run hashed, or are computed
    from the proofs ([AccumulatorSpec.find_collision]). Likewise, code is authentic as long
    as the client holds no HMAC of a wrong page; [PreloadSpec.preload_sound] is where such
    HMACs come from.

    ** Fuel

    Loops over lists and ranges are structural. Loops that the other side drives consume an
    answer per turn, and have the number of answers as fuel. [send_fuel] counts the chunks of
    the buffer that is sent; the framing loops have the number of bytes that are
    left. The preload runs for the number of pages rounded up to a proof chunk, plus two,
    and [PreloadSpec.preload_terminates] proves that this never cuts it. The main loop of
    the VM may run for ever: its fuel is a number of instructions, and its theorems hold
    for every number. The parser of templates counts levels as the source does, up to
    [MAX_PARSE_DEPTH], and is structural on those that are left; the iterators over a
    template have the number of its nodes. The loops of the PSBT parser have the bytes that
    are left, bisections the length of the list, the search for accounts the number of
    entries. The loops of reviews have the number of events and one more, and
    [ReviewSpec.review_waits] proves that they end only for want of an event. A round of
    the executor takes a turn per task; what waits for a task may be given any fuel, and
    [ExecutorSpec.task_runs] proves that some is enough. The draws of a seed that give no
    key are bounded by [seed_attempts]. The futures of the model end after finitely many
    polls: a future that never does is not one of them.

    ** Parameters

    What is not in the repository is a parameter: SHA-256 (a hasher that satisfies the laws
    [HasherLaws] of the traits), the block cipher, the HMAC and the stored secret of the
    device ([Device]), the functions of the operating system ([Sys]), the decoder and the
    encoder of the manifest (postcard), the review screen, the random generator. For the
    Bitcoin application these are the [hex] crate ([HexCrate], [HexLaws]), the [bitcoin]
    crate ([BitcoinCrate], [BitcoinLaws]; its transactions, keys, scripts and addresses are
    [SighashCrate], [XpubCrate], [ScriptCrate], [AccountCrate], [TaprootCrate] and
    [SigningCrate]), the curve and the tagged hashes ([Curve], [TaggedHash] and their laws),
    the storage, randomness and keys that the SDK gives ([SigningSdk]), and the codec of the
    messages with the texts in prose ([HandlerCrate]).

    ** Not modelled

    The [metrics] feature (counters that nothing reads, off by default); the drawing of
    pages and steps, calls of the device's graphics library; the worker threads, the
    transports and the reader of ELF files of the client; the bindings of the V-App SDK
    and their emulation on the host; the main loop of a V-App, and polls that themselves
    drive the executor; the libraries that the applications link and the other
    applications. Of the Bitcoin application, the codec of its messages, its client, and
    what only the client runs on PSBTs (the conversion of version 0, the filling in of an
    account's fields) are left out. Of
    [bip388], the iterator that gives mutable references and the texts of policies in prose
    ([cleartext], whose tables the build generates) are left out. *)

From stdpp Require Export base tactics option list numbers gmap strings.
From Stdlib Require Export Lia.

#[global] Open Scope Z_scope.

(** ** Outcomes

    A Rust computation returns a value ([Ok]), returns an error ([Err]), aborts
    ([Panic]: [assert!], [unwrap], [unreachable!] and out-of-range indexing), or
    was cut because the bound on a host-driven loop was reached ([Diverge]). *)

Inductive outcome (E A : Type) : Type :=
| Ok (a : A)
| Err (e : E)
| Panic
| Diverge.
Arguments Ok {E A} a.
Arguments Err {E A} e.
Arguments Panic {E A}.
Arguments Diverge {E A}.

Definition outcome_bind {E A B} (f : A -> outcome E B) (o : outcome E A) : outcome E B :=
  match o with
  | Ok a => f a
  | Err e => Err e
  | Panic => Panic
  | Diverge => Diverge
  end.

Definition outcome_map_err {E F A} (f : E -> F) (o : outcome E A) : outcome F A :=
  match o with
  | Ok a => Ok a
  | Err e => Err (f e)
  | Panic => Panic
  | Diverge => Diverge
  end.

#[global] Instance outcome_mret {E} : MRet (outcome E) := fun A a => Ok a.
#[global] Instance outcome_mbind {E} : MBind (outcome E) := fun A B f o => outcome_bind f o.
#[global] Instance outcome_fmap {E} : FMap (outcome E) :=
  fun A B f o => outcome_bind (fun a => Ok (f a)) o.

(** [ok_or o e] is Rust's [Option::ok_or]; [unwrap o] panics on [None]. *)
Definition ok_or {E A} (o : option A) (e : E) : outcome E A :=
  match o with Some a => Ok a | None => Err e end.
Definition unwrap {E A} (o : option A) : outcome E A :=
  match o with Some a => Ok a | None => Panic end.

(** The test of an early return, [if b { return Err(e) }]. *)
Definition guard_err {E} (b : bool) (e : E) : outcome E unit := if b then Err e else Ok tt.
(** [assert!(b)]. *)
Definition assert_or_panic {E} (b : bool) : outcome E unit := if b then Ok tt else Panic.

(** ** Stateful computations

    A method taking [&mut self] is a function of the state that returns its
    outcome and the state it leaves, on the error paths too. *)

Definition ST (S E A : Type) : Type := S -> outcome E A * S.

Definition st_ret {S E A} (a : A) : ST S E A := fun s => (Ok a, s).
Definition st_bind {S E A B} (f : A -> ST S E B) (m : ST S E A) : ST S E B :=
  fun s =>
    match m s with
    | (Ok a, s') => f a s'
    | (Err e, s') => (Err e, s')
    | (Panic, s') => (Panic, s')
    | (Diverge, s') => (Diverge, s')
    end.
#[global] Instance st_mret {S E} : MRet (ST S E) := fun A a => st_ret a.
#[global] Instance st_mbind {S E} : MBind (ST S E) := fun A B f m => st_bind f m.

Definition fail {S E A} (e : E) : ST S E A := fun s => (Err e, s).
Definition panic {S E A} : ST S E A := fun s => (Panic, s).
Definition diverge {S E A} : ST S E A := fun s => (Diverge, s).
Definition get {S E} : ST S E S := fun s => (Ok s, s).
Definition put {S E} (s' : S) : ST S E unit := fun _ => (Ok tt, s').
Definition gets {S E A} (f : S -> A) : ST S E A := fun s => (Ok (f s), s).
Definition modify {S E} (f : S -> S) : ST S E unit := fun s => (Ok tt, f s).
(** A pure fallible computation ([?] on a value that does not touch the state). *)
Definition lift {S E A} (o : outcome E A) : ST S E A := fun s => (o, s).
(** [.map_err(f)]. *)
Definition map_err {S E F A} (f : E -> F) (m : ST S E A) : ST S F A :=
  fun s => let '(o, s') := m s in (outcome_map_err f o, s').
(** Runs a method of a field of the state. *)
Definition zoom {S T E A} (view : S -> T) (set : T -> S -> S) (m : ST T E A) : ST S E A :=
  fun s => let '(o, t) := m (view s) in (o, set t s).

(** ** Machine integers

    Unsigned integers are [Z] in range; the wrap-around of the arithmetic of the
    release build (the profile the device runs: no overflow checks) is written
    out with [wrap]. *)

Definition wrap (w : Z) (z : Z) : Z := z mod 2 ^ w.
Abbreviation w8 := (wrap 8).
Abbreviation w16 := (wrap 16).
Abbreviation w32 := (wrap 32).
Abbreviation w64 := (wrap 64).

(** [x as i32] for [x : u32], and the signed reading of a [w]-bit pattern. *)
Definition as_signed (w : Z) (z : Z) : Z := if z <? 2 ^ (w - 1) then z else z - 2 ^ w.
Abbreviation as_i8 := (as_signed 8).
Abbreviation as_i16 := (as_signed 16).
Abbreviation as_i32 := (as_signed 32).

Definition u32_add (a b : Z) : Z := w32 (a + b).
Definition u32_sub (a b : Z) : Z := w32 (a - b).
Definition u32_mul (a b : Z) : Z := w32 (a * b).
Definition u32_not (a : Z) : Z := w32 (Z.lnot a).
Definition u32_shl (a n : Z) : Z := w32 (Z.shiftl a n).
(** [u32::checked_add]. *)
Definition u32_checked_add (a b : Z) : option Z := if a + b <? 2 ^ 32 then Some (a + b) else None.
(** [saturating_sub] on unsigned integers. *)
Definition sat_sub (a b : Z) : Z := Z.max 0 (a - b).
Definition u32_max : Z := 2 ^ 32 - 1.

Definition is_u (w : Z) (z : Z) : Prop := 0 <= z < 2 ^ w.
Abbreviation is_u8 := (is_u 8).
Abbreviation is_u16 := (is_u 16).
Abbreviation is_u32 := (is_u 32).
Definition is_i32 (z : Z) : Prop := - 2 ^ 31 <= z < 2 ^ 31.

Lemma wrap_range w z : 0 <= w -> is_u w (wrap w z).
Proof. intros Hw. apply Z.mod_pos_bound, Z.pow_pos_nonneg; lia. Qed.

Lemma wrap_small w z : is_u w z -> wrap w z = z.
Proof. apply Z.mod_small. Qed.

Lemma wrap_wrap w z : 0 <= w -> wrap w (wrap w z) = wrap w z.
Proof. intros Hw. apply wrap_small, wrap_range, Hw. Qed.

Lemma w32_range z : 0 <= w32 z < 4294967296.
Proof. exact (wrap_range 32 z ltac:(lia)). Qed.
Lemma w16_range z : 0 <= w16 z < 65536.
Proof. exact (wrap_range 16 z ltac:(lia)). Qed.
Lemma w8_range z : 0 <= w8 z < 256.
Proof. exact (wrap_range 8 z ltac:(lia)). Qed.

Lemma w32_small z : 0 <= z < 4294967296 -> w32 z = z.
Proof. apply (wrap_small 32). Qed.

Lemma as_signed_range w z : 0 < w -> is_u w z -> - 2 ^ (w - 1) <= as_signed w z < 2 ^ (w - 1).
Proof.
  intros Hw [Hl Hu]. unfold as_signed.
  assert (2 ^ w = 2 * 2 ^ (w - 1)) as E by (rewrite <- Z.pow_succ_r by lia; f_equal; lia).
  destruct (Z.ltb_spec z (2 ^ (w - 1))); lia.
Qed.

Lemma wrap_as_signed w z : 0 < w -> is_u w z -> wrap w (as_signed w z) = z.
Proof.
  intros Hw Hz. unfold as_signed. destruct (Z.ltb_spec z (2 ^ (w - 1))).
  - by apply wrap_small.
  - unfold wrap. replace (z - 2 ^ w) with (z + (-1) * 2 ^ w) by lia.
    rewrite Z.mod_add by (apply Z.pow_nonzero; lia). by apply Z.mod_small.
Qed.

Lemma as_signed_wrap w z :
  0 < w -> - 2 ^ (w - 1) <= z < 2 ^ (w - 1) -> as_signed w (wrap w z) = z.
Proof.
  intros Hw Hz. unfold as_signed, wrap.
  assert (2 ^ w = 2 * 2 ^ (w - 1)) as E by (rewrite <- Z.pow_succ_r by lia; f_equal; lia).
  destruct (Z_lt_le_dec z 0) as [Hneg|Hpos].
  - replace (z mod 2 ^ w) with (z + 2 ^ w).
    + destruct (Z.ltb_spec (z + 2 ^ w) (2 ^ (w - 1))); lia.
    + symmetry. rewrite <- (Z.mod_small (z + 2 ^ w) (2 ^ w)) by lia.
      rewrite <- (Z.mod_add z 1) by lia. f_equal; lia.
  - rewrite Z.mod_small by lia. destruct (Z.ltb_spec z (2 ^ (w - 1))); lia.
Qed.

(** Linear arithmetic with division and remainder by constants. *)
Ltac dlia := Z.to_euclidean_division_equations; lia.

Create HintDb vnd.
#[export] Hint Resolve wrap_range w32_range w16_range w8_range : vnd.

(** ** Bytes *)

Abbreviation bytes_ok := (Forall is_u8).

(** [bytes_ok] of a concrete list. *)
Ltac solve_bytes :=
  repeat (apply Forall_cons; split; [split; vm_compute; done|]); apply Forall_nil; done.

Fixpoint le_bytes (n : nat) (z : Z) : list Z :=
  match n with
  | O => []
  | S n => w8 z :: le_bytes n (z / 256)
  end.
Fixpoint le_value (l : list Z) : Z :=
  match l with
  | [] => 0
  | b :: l => b + 256 * le_value l
  end.
(** [to_be_bytes] and [from_be_bytes]. *)
Definition be_bytes (n : nat) (z : Z) : list Z := rev (le_bytes n z).
Definition be_value (l : list Z) : Z := le_value (rev l).

Lemma length_le_bytes n z : length (le_bytes n z) = n.
Proof. revert z; induction n; intros; simpl; auto. Qed.
Lemma length_be_bytes n z : length (be_bytes n z) = n.
Proof. unfold be_bytes. by rewrite length_rev, length_le_bytes. Qed.

Lemma le_bytes_ok n z : bytes_ok (le_bytes n z).
Proof. revert z; induction n; intros; simpl; constructor; auto. apply wrap_range; lia. Qed.
Lemma be_bytes_ok n z : bytes_ok (be_bytes n z).
Proof. unfold be_bytes. apply Forall_rev, le_bytes_ok. Qed.

Lemma le_value_bytes n z : 0 <= z < 256 ^ Z.of_nat n -> le_value (le_bytes n z) = z.
Proof.
  revert z; induction n as [|n IH]; intros z Hz; simpl.
  - lia.
  - rewrite Nat2Z.inj_succ, Z.pow_succ_r in Hz by lia.
    rewrite IH by (split; [apply Z.div_pos|apply Z.div_lt_upper_bound]; lia).
    unfold wrap. change (2 ^ 8) with 256. pose proof (Z.div_mod z 256). lia.
Qed.
Lemma be_value_bytes n z : 0 <= z < 256 ^ Z.of_nat n -> be_value (be_bytes n z) = z.
Proof. intros. unfold be_value, be_bytes. rewrite rev_involutive. by apply le_value_bytes. Qed.

Lemma le_value_range l : bytes_ok l -> 0 <= le_value l < 256 ^ Z.of_nat (length l).
Proof.
  induction 1 as [|b l Hb Hl IH]; simpl; [lia|].
  rewrite Nat2Z.inj_succ, Z.pow_succ_r by lia. unfold is_u in Hb. lia.
Qed.
Lemma le_bytes_value l : bytes_ok l -> le_bytes (length l) (le_value l) = l.
Proof.
  induction 1 as [|b l Hb Hl IH]; simpl; [done|].
  unfold is_u in Hb. change (2 ^ 8) with 256 in Hb. f_equal.
  - unfold wrap. change (2 ^ 8) with 256. rewrite Z.mul_comm, Z.mod_add by lia.
    by apply Z.mod_small.
  - rewrite Z.mul_comm, Z.div_add, Z.div_small by lia. exact IH.
Qed.
Lemma be_bytes_value l : bytes_ok l -> be_bytes (length l) (be_value l) = l.
Proof.
  intros. unfold be_bytes, be_value. rewrite <- length_rev, le_bytes_value by by apply Forall_rev.
  apply rev_involutive.
Qed.
Lemma be_value_range l : bytes_ok l -> 0 <= be_value l < 256 ^ Z.of_nat (length l).
Proof. intros. unfold be_value. rewrite <- length_rev. by apply le_value_range, Forall_rev. Qed.

(** [data[from..from + len]] on a list, when in range. *)
Definition slice {A} (from len : nat) (l : list A) : list A := take len (drop from l).
(** [data[from..from + len].copy_from_slice(new)]. *)
Definition splice {A} (from : nat) (new l : list A) : list A :=
  take from l ++ new ++ drop (from + length new) l.

Lemma length_slice {A} from len (l : list A) :
  (from + len <= length l)%nat -> length (slice from len l) = len.
Proof. intros. unfold slice. rewrite length_take, length_drop. lia. Qed.
Lemma length_splice {A} from (new l : list A) :
  (from + length new <= length l)%nat -> length (splice from new l) = length l.
Proof. intros. unfold splice. rewrite !length_app, length_take, length_drop. lia. Qed.
Lemma lookup_slice {A} from len (l : list A) i :
  slice from len l !! i = (if decide (i < len)%nat then l !! (from + i)%nat else None).
Proof.
  unfold slice. case_decide.
  - by rewrite lookup_take_lt, lookup_drop by done.
  - rewrite lookup_take_ge by lia. done.
Qed.
Lemma lookup_splice {A} from (new l : list A) i :
  (from <= length l)%nat ->
  splice from new l !! i =
    (if decide (from <= i < from + length new)%nat then new !! (i - from)%nat else l !! i).
Proof.
  intros Hlen. unfold splice. case_decide.
  - rewrite lookup_app_r by (rewrite length_take; lia).
    rewrite length_take, Nat.min_l by lia. apply lookup_app_l. lia.
  - destruct (decide (i < from)%nat).
    + rewrite lookup_app_l by (rewrite length_take; lia). by apply lookup_take_lt.
    + rewrite lookup_app_r by (rewrite length_take; lia).
      rewrite length_take, Nat.min_l by lia.
      rewrite lookup_app_r by lia. rewrite lookup_drop. f_equal. lia.
Qed.

(** ** Bit fields

    Masks and shifts of a word given by its fields. *)

Lemma land_split k a b m1 m2 :
  0 <= k -> 0 <= a < 2 ^ k -> 0 <= m1 < 2 ^ k ->
  Z.land (a + 2 ^ k * b) (m1 + 2 ^ k * m2) = Z.land a m1 + 2 ^ k * Z.land b m2.
Proof.
  intros Hk Ha Hm.
  assert (forall x y, 0 <= x < 2 ^ k -> x + 2 ^ k * y = Z.lor x (Z.shiftl y k)) as E.
  { intros x y Hx. rewrite Z.shiftl_mul_pow2, (Z.mul_comm y) by lia.
    rewrite <- Z.lxor_lor, Z.add_nocarry_lxor; try done.
    all: apply Z.bits_inj'; intros i Hi; rewrite Z.land_spec, Z.bits_0.
    all: destruct (Z.lt_ge_cases i k).
    all: try (rewrite Z.mul_comm, Z.mul_pow2_bits_low, andb_false_r by lia; done).
    all: replace (Z.testbit x i) with false; [done|].
    all: rewrite <- (Z.mod_small x (2 ^ k)) by lia; by rewrite Z.mod_pow2_bits_high by lia. }
  assert (0 <= Z.land a m1 < 2 ^ k) as Hland.
  { split; [apply Z.land_nonneg; lia|].
    destruct (Z.eq_dec (Z.land a m1) 0) as [->|Hnz]; [lia|].
    apply Z.log2_lt_pow2; [pose proof (proj2 (Z.land_nonneg a m1)); lia|].
    eapply Z.le_lt_trans; [apply Z.log2_land; lia|].
    destruct (Z.eq_dec a 0) as [->|]; [by rewrite Z.land_0_l in Hnz|].
    apply Z.min_lt_iff. left. by apply Z.log2_lt_pow2; lia. }
  rewrite !E by done. apply Z.bits_inj'. intros i Hi.
  rewrite Z.land_spec, !Z.lor_spec, !Z.shiftl_spec, !Z.land_spec by lia.
  destruct (Z.lt_ge_cases i k) as [Hlt|Hge].
  - rewrite !(Z.testbit_neg_r _ (i - k)) by lia. by rewrite !orb_false_r.
  - assert (forall x, 0 <= x < 2 ^ k -> Z.testbit x i = false) as Hh.
    { intros x Hx. rewrite <- (Z.mod_small x (2 ^ k)) by lia. by rewrite Z.mod_pow2_bits_high by lia. }
    rewrite !Hh by done. done.
Qed.

Lemma lor_add k a b : 0 <= k -> 0 <= a < 2 ^ k -> Z.lor (2 ^ k * b) a = a + 2 ^ k * b.
Proof.
  intros Hk Ha. rewrite Z.add_comm, <- Z.lxor_lor, Z.add_nocarry_lxor; try done.
  all: apply Z.bits_inj'; intros i Hi; rewrite Z.land_spec, Z.bits_0.
  all: destruct (Z.lt_ge_cases i k).
  all: try (rewrite Z.mul_comm, Z.mul_pow2_bits_low by lia; done).
  all: replace (Z.testbit a i) with false; [by rewrite andb_false_r|].
  all: rewrite <- (Z.mod_small a (2 ^ k)) by lia; by rewrite Z.mod_pow2_bits_high by lia.
Qed.

Lemma land_mask k a : 0 <= k -> Z.land a (2 ^ k - 1) = a mod 2 ^ k.
Proof. intros. rewrite <- Z.land_ones by done. f_equal. rewrite Z.ones_equiv. lia. Qed.

(** ** Specifications of stateful computations

    [wp t m s Q]: if [m], run from [s], returns a value then the value and the
    state satisfy [Q]. The mode says what else is allowed: nothing ([Total]), an
    error value but no panic and no wait for ever ([Safe]), an error or a wait for
    ever but no panic ([Blocking]), anything ([Partial]). *)

Inductive mode : Type := Total | Safe | Blocking | Partial.
#[export] Instance mode_eq_dec : EqDecision mode.
Proof. solve_decision. Defined.
Definition may_err (t : mode) : bool := match t with Total => false | _ => true end.
Definition may_panic (t : mode) : bool := match t with Partial => true | _ => false end.
Definition may_diverge (t : mode) : bool :=
  match t with Blocking | Partial => true | _ => false end.

Definition wp {S E A} (t : mode) (m : ST S E A) (s : S) (Q : A -> S -> Prop) : Prop :=
  match m s with
  | (Ok a, s') => Q a s'
  | (Err _, _) => may_err t = true
  | (Panic, _) => may_panic t = true
  | (Diverge, _) => may_diverge t = true
  end.

Lemma outcome_bind_Ok {E A B} (o : outcome E A) (f : A -> outcome E B) b :
  (x ← o; f x) = Ok b -> exists a, o = Ok a /\ f a = Ok b.
Proof. destruct o; cbn; [eauto|done..]. Qed.
Lemma outcome_map_err_Ok {E F A} (f : E -> F) (o : outcome E A) a : outcome_map_err f o = Ok a -> o = Ok a.
Proof. by destruct o; intros [= ->]. Qed.

Lemma ok_or_Ok {E A} (o : option A) (e : E) a : ok_or o e = Ok a <-> o = Some a.
Proof. destruct o; cbn; split; congruence. Qed.
Lemma unwrap_Ok {E A} (o : option A) a : (unwrap o : outcome E A) = Ok a <-> o = Some a.
Proof. destruct o; cbn; split; congruence. Qed.
Lemma guard_Ok {E} (b : bool) (e : E) u : guard_err b e = Ok u <-> b = false.
Proof. destruct b, u; cbn; split; congruence. Qed.
(** The parts of a computation that succeeds. *)
Ltac parts H :=
  repeat match type of H with
  | (_ ≫= _) = Ok _ =>
      let a := fresh "v" in let E := fresh "E" in
      apply outcome_bind_Ok in H as (a & E & H);
      first [apply guard_Ok in E | apply ok_or_Ok in E | apply unwrap_Ok in E | apply outcome_map_err_Ok in E | idtac]
  | (let '(_, _) := ?x in _) = Ok _ => destruct x
  end.

Section wp.
Context {S E : Type}.
Implicit Types (t : mode) (s : S).

Lemma wp_bind {A B} t (m : ST S E A) (f : A -> ST S E B) s Q :
  wp t m s (fun a s' => wp t (f a) s' Q) -> wp t (x ← m; f x) s Q.
Proof. unfold wp, mbind, st_mbind, st_bind. destruct (m s) as [[] ?]; auto. Qed.
Lemma wp_bind_assoc {A B C} t (m : ST S E A) (f : A -> ST S E B) (k : B -> ST S E C) s Q :
  wp t (x ← m; y ← f x; k y) s Q -> wp t (y ← (x ← m; f x); k y) s Q.
Proof. unfold wp, mbind, st_mbind, st_bind. by destruct (m s) as [[] ?]. Qed.
Lemma wp_ret {A} t (a : A) s (Q : A -> S -> Prop) : Q a s -> wp t (mret a : ST S E A) s Q.
Proof. done. Qed.
Lemma wp_get t s (Q : S -> S -> Prop) : Q s s -> wp t (get : ST S E S) s Q.
Proof. done. Qed.
Lemma wp_gets {A} t (f : S -> A) s (Q : A -> S -> Prop) : Q (f s) s -> wp t (gets f : ST S E A) s Q.
Proof. done. Qed.
Lemma wp_modify t (f : S -> S) s (Q : unit -> S -> Prop) :
  Q tt (f s) -> wp t (modify f : ST S E unit) s Q.
Proof. done. Qed.
Lemma wp_put t (s1 : S) s (Q : unit -> S -> Prop) : Q tt s1 -> wp t (put s1 : ST S E unit) s Q.
Proof. done. Qed.
Lemma wp_fail {A} t (e : E) s (Q : A -> S -> Prop) : may_err t = true -> wp t (fail e) s Q.
Proof. done. Qed.
Lemma wp_panic {A} t s (Q : A -> S -> Prop) : may_panic t = true -> wp t (panic : ST S E A) s Q.
Proof. done. Qed.
Lemma wp_diverge {A} t s (Q : A -> S -> Prop) :
  may_diverge t = true -> wp t (diverge : ST S E A) s Q.
Proof. done. Qed.
Lemma wp_lift {A} t (a : A) s (Q : A -> S -> Prop) : Q a s -> wp t (lift (Ok a) : ST S E A) s Q.
Proof. done. Qed.
Lemma wp_lift_err {A} t (e : E) s (Q : A -> S -> Prop) :
  may_err t = true -> wp t (lift (Err e) : ST S E A) s Q.
Proof. done. Qed.
Lemma wp_mono {A} t (m : ST S E A) s (Q R : A -> S -> Prop) :
  wp t m s Q -> (forall a s', Q a s' -> R a s') -> wp t m s R.
Proof. unfold wp. destruct (m s) as [[] ?]; auto. Qed.
Lemma wp_and {A} t (m : ST S E A) s (Q R : A -> S -> Prop) :
  wp t m s Q -> wp Partial m s R -> wp t m s (fun a s' => Q a s' /\ R a s').
Proof. unfold wp. destruct (m s) as [[] ?]; auto. Qed.
Lemma wp_ok {A} t (m : ST S E A) s (Q : A -> S -> Prop) a s' :
  wp t m s Q -> m s = (Ok a, s') -> Q a s'.
Proof. unfold wp. intros H Hm. by rewrite Hm in H. Qed.
Lemma wp_total {A} (m : ST S E A) s (Q : A -> S -> Prop) :
  wp Total m s Q -> exists a s', m s = (Ok a, s') /\ Q a s'.
Proof. unfold wp. destruct (m s) as [[] ?]; [eauto|done..]. Qed.
Lemma wp_safe {A} (m : ST S E A) s (Q : A -> S -> Prop) :
  wp Safe m s Q ->
  (exists a s', m s = (Ok a, s') /\ Q a s') \/ (exists e s', m s = (Err e, s')).
Proof. unfold wp. destruct (m s) as [[] ?]; [eauto|eauto|done..]. Qed.
Lemma wp_partial {A} (m : ST S E A) s (Q : A -> S -> Prop) :
  (forall a s', m s = (Ok a, s') -> Q a s') -> wp Partial m s Q.
Proof. unfold wp. destruct (m s) as [[] ?]; auto. Qed.
Lemma wp_true {A} (m : ST S E A) s : wp Partial m s (fun _ _ => True).
Proof. by apply wp_partial. Qed.
Lemma wp_zoom {T A} t (view : S -> T) (set : T -> S -> S) (m : ST T E A) s (Q : A -> S -> Prop) :
  wp t m (view s) (fun a y => Q a (set y s)) -> wp t (zoom view set m) s Q.
Proof. unfold wp, zoom. by destruct (m (view s)) as [[] ?]. Qed.
Lemma wp_map_err {F A} t (f : E -> F) (m : ST S E A) s (Q : A -> S -> Prop) :
  wp t m s Q -> wp t (map_err f m) s Q.
Proof. unfold wp, map_err. by destruct (m s) as [[] ?]. Qed.
End wp.
