(* ===== verification/Riscv.v ===== *)
(** * The RISC-V instruction set of the VM ([common/src/riscv])

    [Op] is the instruction type of [op.rs]; [decode] is the decoder of
    [decode.rs], with the 16-bit instructions expanded in [Rv32c]. The
    specification side is an assembler ([encode]) and a table of the compressed
    quadrants written from the ISA's field diagrams ([rvc_expand]). *)

From S2P Require Import Prelude.

(** ** op.rs *)

Inductive Op : Type :=
| Unknown
| Add (rd rs1 rs2 : Z)
| Sub (rd rs1 rs2 : Z)
| Sll (rd rs1 rs2 : Z)
| Slt (rd rs1 rs2 : Z)
| Sltu (rd rs1 rs2 : Z)
| Xor (rd rs1 rs2 : Z)
| Srl (rd rs1 rs2 : Z)
| Sra (rd rs1 rs2 : Z)
| Or (rd rs1 rs2 : Z)
| And (rd rs1 rs2 : Z)
| Mul (rd rs1 rs2 : Z)
| Mulh (rd rs1 rs2 : Z)
| Mulhsu (rd rs1 rs2 : Z)
| Mulhu (rd rs1 rs2 : Z)
| Div (rd rs1 rs2 : Z)
| Divu (rd rs1 rs2 : Z)
| Rem (rd rs1 rs2 : Z)
| Remu (rd rs1 rs2 : Z)
| Addi (rd rs1 imm : Z)
| Andi (rd rs1 imm : Z)
| Auipc (rd imm : Z)
| Beq (rs1 rs2 imm : Z)
| Bne (rs1 rs2 imm : Z)
| Blt (rs1 rs2 imm : Z)
| Bge (rs1 rs2 imm : Z)
| Bltu (rs1 rs2 imm : Z)
| Bgeu (rs1 rs2 imm : Z)
| Jal (rd imm : Z)
| Jalr (rd rs1 imm : Z)
| Lb (rd rs1 imm : Z)
| Lh (rd rs1 imm : Z)
| Lw (rd rs1 imm : Z)
| Lbu (rd rs1 imm : Z)
| Lhu (rd rs1 imm : Z)
| Lui (rd imm : Z)
| Ori (rd rs1 imm : Z)
| Sb (rs1 rs2 imm : Z)
| Sh (rs1 rs2 imm : Z)
| Sw (rs1 rs2 imm : Z)
| Slli (rd rs1 imm : Z)
| Slti (rd rs1 imm : Z)
| Sltiu (rd rs1 imm : Z)
| Srli (rd rs1 imm : Z)
| Srai (rd rs1 imm : Z)
| Xori (rd rs1 imm : Z)
| LrW (rd rs1 : Z)
| ScW (rd rs1 rs2 : Z)
| AmoswapW (rd rs1 rs2 : Z)
| AmoaddW (rd rs1 rs2 : Z)
| AmoxorW (rd rs1 rs2 : Z)
| AmoandW (rd rs1 rs2 : Z)
| AmoorW (rd rs1 rs2 : Z)
| AmominW (rd rs1 rs2 : Z)
| AmomaxW (rd rs1 rs2 : Z)
| AmominuW (rd rs1 rs2 : Z)
| AmomaxuW (rd rs1 rs2 : Z)
| Fence
| Ecall
| Break.

#[global] Instance Op_eq_dec : EqDecision Op.
Proof. solve_decision. Defined.

(** ** decode.rs

    An instruction word is a [u32] as a [Z]; immediates are [i32] as signed [Z]. *)

(** [x << n] and [x >> n] on [i32]. *)
Definition i32_shl (x n : Z) : Z := as_i32 (w32 (Z.shiftl x n)).
Definition i32_shr (x n : Z) : Z := Z.shiftr x n.

Definition rd (inst : Z) : Z := Z.land (Z.shiftr inst 7) 0x1f.
Definition rs1 (inst : Z) : Z := Z.land (Z.shiftr inst 15) 0x1f.
Definition rs2 (inst : Z) : Z := Z.land (Z.shiftr inst 20) 0x1f.

Definition b_imm (inst : Z) : Z :=
  Z.lor (Z.lor (Z.lor
    (i32_shr (as_i32 (Z.land inst 0x80000000)) 19)
    (i32_shl (as_i32 (Z.land inst 0x00000080)) 4))
    (i32_shr (as_i32 (Z.land inst 0x7e000000)) 20))
    (i32_shr (as_i32 (Z.land inst 0x00000f00)) 7).

Definition i_imm (inst : Z) : Z := i32_shr (as_i32 inst) 20.

Definition j_imm (inst : Z) : Z :=
  Z.lor (Z.lor (Z.lor
    (i32_shr (as_i32 (Z.land inst 0x80000000)) 11)
    (i32_shr (as_i32 (Z.land inst 0x000ff000)) 0))
    (i32_shr (as_i32 (Z.land inst 0x00100000)) 9))
    (i32_shr (as_i32 (Z.land inst 0x7fe00000)) 20).

Definition s_imm (inst : Z) : Z :=
  Z.lor
    (i32_shr (as_i32 (Z.land inst 0xfe000000)) 20)
    (i32_shr (as_i32 (Z.land inst 0x00000f80)) 7).

Definition u_imm (inst : Z) : Z := as_i32 (Z.land inst 0xfffff000).

Module Rv32c.

Definition c_rd (inst : Z) : Z := Z.land (Z.shiftr inst 7) 0x1f.
Definition c_rds (inst : Z) : Z := 8 + Z.land (Z.shiftr inst 2) 7.
Definition c_rs1 (inst : Z) : Z := Z.land (Z.shiftr inst 7) 0x1f.
Definition c_rs2 (inst : Z) : Z := Z.land (Z.shiftr inst 2) 0x1f.
Definition c_rs1s (inst : Z) : Z := 8 + Z.land (Z.shiftr inst 7) 7.
Definition c_rs2s (inst : Z) : Z := 8 + Z.land (Z.shiftr inst 2) 7.
Definition c_funct3 (inst : Z) : Z := Z.land (Z.shiftr inst 13) 7.

Definition ci_imm (inst : Z) : Z :=
  Z.lor (i32_shr (i32_shl (Z.land inst 0x1000) 19) 26)
        (i32_shr (Z.land inst 0x007c) 2).

Definition ci_addi16sp_imm (inst : Z) : Z :=
  Z.lor (Z.lor (Z.lor (Z.lor
    (i32_shr (i32_shl (Z.land inst 0x1000) 19) 22)
    (i32_shl (Z.land inst 0x0018) 4))
    (i32_shl (Z.land inst 0x0020) 1))
    (i32_shl (Z.land inst 0x0004) 3))
    (i32_shr (Z.land inst 0x0040) 2).

Definition ci_lwsp_imm (inst : Z) : Z :=
  Z.lor (Z.lor
    (i32_shl (Z.land inst 0x000c) 4)
    (i32_shr (Z.land inst 0x1000) 7))
    (i32_shr (Z.land inst 0x0070) 2).

Definition css_swsp_imm (inst : Z) : Z :=
  Z.lor (i32_shr (Z.land inst 0x0180) 1) (i32_shr (Z.land inst 0x1e00) 7).

Definition ciw_addi4spn_imm (inst : Z) : Z :=
  Z.lor (Z.lor (Z.lor
    (Z.shiftr (Z.land inst 0x1800) 7)
    (Z.shiftr (Z.land inst 0x0780) 1))
    (Z.shiftr (Z.land inst 0x0040) 4))
    (Z.shiftr (Z.land inst 0x0020) 2).

Definition cl_lw_offset (inst : Z) : Z :=
  Z.lor (Z.lor
    (i32_shl (Z.land inst 0x0020) 1)
    (i32_shr (Z.land inst 0x1c00) 7))
    (i32_shr (Z.land inst 0x0040) 4).

Definition cs_sw_offset (inst : Z) : Z := cl_lw_offset inst.

Definition cb_imm (inst : Z) : Z :=
  Z.lor (Z.lor (Z.lor (Z.lor
    (i32_shr (i32_shl (Z.land inst 0x1000) 19) 23)
    (i32_shl (Z.land inst 0x0060) 1))
    (i32_shl (Z.land inst 0x0004) 3))
    (i32_shr (Z.land inst 0x0c00) 7))
    (i32_shr (Z.land inst 0x0018) 2).

Definition cj_imm (inst : Z) : Z :=
  Z.lor (Z.lor (Z.lor (Z.lor (Z.lor (Z.lor (Z.lor
    (i32_shr (i32_shl (Z.land inst 0x1000) 19) 20)
    (i32_shl (Z.land inst 0x0100) 2))
    (i32_shr (Z.land inst 0x0600) 1))
    (i32_shl (Z.land inst 0x0040) 1))
    (i32_shr (Z.land inst 0x0080) 1))
    (i32_shl (Z.land inst 0x0004) 3))
    (i32_shr (Z.land inst 0x0800) 7))
    (i32_shr (Z.land inst 0x0038) 2).

Definition decode_quadrant0 (inst : Z) : Op :=
  let f3 := c_funct3 inst in
  if f3 =? 0 then
    let imm := ciw_addi4spn_imm inst in
    if imm =? 0 then Unknown else Addi (c_rds inst) 2 imm
  else if f3 =? 2 then Lw (c_rds inst) (c_rs1s inst) (cl_lw_offset inst)
  else if f3 =? 6 then Sw (c_rs1s inst) (c_rs2s inst) (cs_sw_offset inst)
  else Unknown.

Definition decode_quadrant1 (inst : Z) : Op :=
  let f3 := c_funct3 inst in
  if f3 =? 0 then Addi (c_rd inst) (c_rd inst) (ci_imm inst)
  else if f3 =? 1 then Jal 1 (cj_imm inst)
  else if f3 =? 2 then Addi (c_rd inst) 0 (ci_imm inst)
  else if f3 =? 3 then
    if c_rd inst =? 2 then
      let imm := ci_addi16sp_imm inst in
      if imm =? 0 then Unknown else Addi 2 2 imm
    else Lui (c_rd inst) (i32_shl (ci_imm inst) 12)
  else if f3 =? 4 then
    let f2 := Z.land (Z.shiftr inst 10) 3 in
    if f2 =? 0 then Srli (c_rs1s inst) (c_rs1s inst) (Z.land (ci_imm inst) 31)
    else if f2 =? 1 then Srai (c_rs1s inst) (c_rs1s inst) (Z.land (ci_imm inst) 31)
    else if f2 =? 2 then Andi (c_rs1s inst) (c_rs1s inst) (ci_imm inst)
    else if Z.land inst 0x1000 =? 0 then
      let f2' := Z.land (Z.shiftr inst 5) 3 in
      if f2' =? 0 then Sub (c_rs1s inst) (c_rs1s inst) (c_rs2s inst)
      else if f2' =? 1 then Xor (c_rs1s inst) (c_rs1s inst) (c_rs2s inst)
      else if f2' =? 2 then Or (c_rs1s inst) (c_rs1s inst) (c_rs2s inst)
      else And (c_rs1s inst) (c_rs1s inst) (c_rs2s inst)
    else Unknown
  else if f3 =? 5 then Jal 0 (cj_imm inst)
  else if f3 =? 6 then Beq (c_rs1s inst) 0 (cb_imm inst)
  else if f3 =? 7 then Bne (c_rs1s inst) 0 (cb_imm inst)
  else Unknown.

Definition decode_quadrant2 (inst : Z) : Op :=
  let f3 := c_funct3 inst in
  if f3 =? 0 then
    if c_rd inst =? 0 then Unknown
    else Slli (c_rd inst) (c_rd inst) (Z.land (ci_imm inst) 31)
  else if f3 =? 2 then
    if c_rd inst =? 0 then Unknown
    else Lw (c_rd inst) 2 (ci_lwsp_imm inst)
  else if f3 =? 4 then
    if Z.land (Z.shiftr inst 12) 1 =? 0 then
      if c_rs2 inst =? 0 then
        if c_rs1 inst =? 0 then Unknown else Jalr 0 (c_rs1 inst) 0
      else Add (c_rd inst) 0 (c_rs2 inst)
    else
      if c_rs2 inst =? 0 then
        if c_rs1 inst =? 0 then Break else Jalr 1 (c_rs1 inst) 0
      else Add (c_rd inst) (c_rd inst) (c_rs2 inst)
  else if f3 =? 6 then Sw 2 (c_rs2 inst) (css_swsp_imm inst)
  else Unknown.

Definition decode_compressed (inst : Z) : Op :=
  let q := Z.land inst 3 in
  if q =? 0 then decode_quadrant0 inst
  else if q =? 1 then decode_quadrant1 inst
  else if q =? 2 then decode_quadrant2 inst
  else Unknown.

End Rv32c.

(** The arms of [decode_uncompressed], by the opcode they match. *)

Definition decode_jalr (inst : Z) : Op :=
  if Z.land inst 0x0000707f =? 0x00000067 then Jalr (rd inst) (rs1 inst) (i_imm inst)
  else Unknown.

Definition decode_branch (inst : Z) : Op :=
  let w := Z.land inst 0x0000707f in
  if w =? 0x00000063 then Beq (rs1 inst) (rs2 inst) (b_imm inst)
  else if w =? 0x00001063 then Bne (rs1 inst) (rs2 inst) (b_imm inst)
  else if w =? 0x00004063 then Blt (rs1 inst) (rs2 inst) (b_imm inst)
  else if w =? 0x00005063 then Bge (rs1 inst) (rs2 inst) (b_imm inst)
  else if w =? 0x00006063 then Bltu (rs1 inst) (rs2 inst) (b_imm inst)
  else if w =? 0x00007063 then Bgeu (rs1 inst) (rs2 inst) (b_imm inst)
  else Unknown.

Definition decode_load (inst : Z) : Op :=
  let w := Z.land inst 0x0000707f in
  if w =? 0x00000003 then Lb (rd inst) (rs1 inst) (i_imm inst)
  else if w =? 0x00001003 then Lh (rd inst) (rs1 inst) (i_imm inst)
  else if w =? 0x00002003 then Lw (rd inst) (rs1 inst) (i_imm inst)
  else if w =? 0x00004003 then Lbu (rd inst) (rs1 inst) (i_imm inst)
  else if w =? 0x00005003 then Lhu (rd inst) (rs1 inst) (i_imm inst)
  else Unknown.

Definition decode_store (inst : Z) : Op :=
  let w := Z.land inst 0x0000707f in
  if w =? 0x00000023 then Sb (rs1 inst) (rs2 inst) (s_imm inst)
  else if w =? 0x00001023 then Sh (rs1 inst) (rs2 inst) (s_imm inst)
  else if w =? 0x00002023 then Sw (rs1 inst) (rs2 inst) (s_imm inst)
  else Unknown.

Definition decode_op_imm (inst : Z) : Op :=
  let w := Z.land inst 0x0000707f in
  if w =? 0x00000013 then Addi (rd inst) (rs1 inst) (i_imm inst)
  else if w =? 0x00002013 then Slti (rd inst) (rs1 inst) (i_imm inst)
  else if w =? 0x00003013 then Sltiu (rd inst) (rs1 inst) (i_imm inst)
  else if w =? 0x00004013 then Xori (rd inst) (rs1 inst) (i_imm inst)
  else if w =? 0x00006013 then Ori (rd inst) (rs1 inst) (i_imm inst)
  else if w =? 0x00007013 then Andi (rd inst) (rs1 inst) (i_imm inst)
  else if w =? 0x00001013 then
    if Z.land inst 0xfe00707f =? 0x00001013 then Slli (rd inst) (rs1 inst) (i_imm inst)
    else Unknown
  else if w =? 0x00005013 then
    let v := Z.land inst 0xfe00707f in
    if v =? 0x00005013 then Srli (rd inst) (rs1 inst) (i_imm inst)
    else if v =? 0x40005013 then Srai (rd inst) (rs1 inst) (i_imm inst)
    else Unknown
  else Unknown.

Definition decode_op (inst : Z) : Op :=
  let w := Z.land inst 0xfe00707f in
  if w =? 0x00000033 then Add (rd inst) (rs1 inst) (rs2 inst)
  else if w =? 0x40000033 then Sub (rd inst) (rs1 inst) (rs2 inst)
  else if w =? 0x00001033 then Sll (rd inst) (rs1 inst) (rs2 inst)
  else if w =? 0x00002033 then Slt (rd inst) (rs1 inst) (rs2 inst)
  else if w =? 0x00003033 then Sltu (rd inst) (rs1 inst) (rs2 inst)
  else if w =? 0x00004033 then Xor (rd inst) (rs1 inst) (rs2 inst)
  else if w =? 0x00005033 then Srl (rd inst) (rs1 inst) (rs2 inst)
  else if w =? 0x40005033 then Sra (rd inst) (rs1 inst) (rs2 inst)
  else if w =? 0x00006033 then Or (rd inst) (rs1 inst) (rs2 inst)
  else if w =? 0x00007033 then And (rd inst) (rs1 inst) (rs2 inst)
  else if w =? 0x02000033 then Mul (rd inst) (rs1 inst) (rs2 inst)
  else if w =? 0x02001033 then Mulh (rd inst) (rs1 inst) (rs2 inst)
  else if w =? 0x02002033 then Mulhsu (rd inst) (rs1 inst) (rs2 inst)
  else if w =? 0x02003033 then Mulhu (rd inst) (rs1 inst) (rs2 inst)
  else if w =? 0x02004033 then Div (rd inst) (rs1 inst) (rs2 inst)
  else if w =? 0x02005033 then Divu (rd inst) (rs1 inst) (rs2 inst)
  else if w =? 0x02006033 then Rem (rd inst) (rs1 inst) (rs2 inst)
  else if w =? 0x02007033 then Remu (rd inst) (rs1 inst) (rs2 inst)
  else Unknown.

Definition decode_amo (inst : Z) : Op :=
  if Z.land inst 0x0000707f =? 0x0000202f then
    let w := Z.land inst 0xf800707f in
    if w =? 0x1000202f then
      if rs2 inst =? 0 then LrW (rd inst) (rs1 inst) else Unknown
    else if w =? 0x1800202f then ScW (rd inst) (rs1 inst) (rs2 inst)
    else if w =? 0x0800202f then AmoswapW (rd inst) (rs1 inst) (rs2 inst)
    else if w =? 0x0000202f then AmoaddW (rd inst) (rs1 inst) (rs2 inst)
    else if w =? 0x2000202f then AmoxorW (rd inst) (rs1 inst) (rs2 inst)
    else if w =? 0x6000202f then AmoandW (rd inst) (rs1 inst) (rs2 inst)
    else if w =? 0x4000202f then AmoorW (rd inst) (rs1 inst) (rs2 inst)
    else if w =? 0x8000202f then AmominW (rd inst) (rs1 inst) (rs2 inst)
    else if w =? 0xa000202f then AmomaxW (rd inst) (rs1 inst) (rs2 inst)
    else if w =? 0xc000202f then AmominuW (rd inst) (rs1 inst) (rs2 inst)
    else if w =? 0xe000202f then AmomaxuW (rd inst) (rs1 inst) (rs2 inst)
    else Unknown
  else Unknown.

Definition decode_fence (inst : Z) : Op :=
  if Z.land inst 0x0000707f =? 0x0000000f then Fence else Unknown.

Definition decode_system (inst : Z) : Op :=
  let w := Z.land inst 0xffffffff in
  if w =? 0x00000073 then Ecall
  else if w =? 0x00100073 then Break
  else Unknown.

Definition decode_uncompressed (inst : Z) : Op :=
  let opcode := Z.land inst 0x0000007f in
  if opcode =? 0x37 then Lui (rd inst) (u_imm inst)
  else if opcode =? 0x17 then Auipc (rd inst) (u_imm inst)
  else if opcode =? 0x6f then Jal (rd inst) (j_imm inst)
  else if opcode =? 0x67 then decode_jalr inst
  else if opcode =? 0x63 then decode_branch inst
  else if opcode =? 0x03 then decode_load inst
  else if opcode =? 0x23 then decode_store inst
  else if opcode =? 0x13 then decode_op_imm inst
  else if opcode =? 0x33 then decode_op inst
  else if opcode =? 0x2f then decode_amo inst
  else if opcode =? 0x0f then decode_fence inst
  else if opcode =? 0x73 then decode_system inst
  else Unknown.

Definition decode (inst : Z) : Op * Z :=
  if negb (Z.land inst 3 =? 3) then (Rv32c.decode_compressed (w16 inst), 2)
  else (decode_uncompressed inst, 4).
