(* ===== verification/RiscvSpec.v ===== *)
(** * The decoder against the instruction set's encodings

    An assembler over the instruction formats, the range invariant of decoded
    instructions, and the table of the compressed instructions, with the
    theorems that relate [decode] to them. *)

From S2P Require Import Prelude Riscv.

(** ** The instruction formats *)

(** A 32-bit word from its fields, in the order of the ISA's R-type diagram. *)
Definition word (opc rd f3 rs1 rs2 f7 : Z) : Z :=
  opc + 2 ^ 7 * (rd + 2 ^ 5 * (f3 + 2 ^ 3 * (rs1 + 2 ^ 5 * (rs2 + 2 ^ 5 * f7)))).

Definition enc_r (opc f3 f7 rd rs1 rs2 : Z) : Z := word opc rd f3 rs1 rs2 f7.
Definition enc_i (opc f3 rd rs1 imm : Z) : Z :=
  let u := imm mod 2 ^ 12 in word opc rd f3 rs1 (u mod 32) (u / 32).
Definition enc_s (opc f3 rs1 rs2 imm : Z) : Z :=
  let u := imm mod 2 ^ 12 in word opc (u mod 32) f3 rs1 rs2 (u / 32).
Definition enc_b (opc f3 rs1 rs2 imm : Z) : Z :=
  let u := imm mod 2 ^ 13 in
  word opc (2 * ((u / 2) mod 16) + (u / 2 ^ 11) mod 2) f3 rs1 rs2
       (64 * (u / 2 ^ 12) + (u / 32) mod 64).
Definition enc_u (opc rd imm : Z) : Z :=
  let u := (imm mod 2 ^ 32) / 2 ^ 12 in
  word opc rd (u mod 8) ((u / 8) mod 32) ((u / 2 ^ 8) mod 32) (u / 2 ^ 13).
Definition enc_j (opc rd imm : Z) : Z :=
  let u := imm mod 2 ^ 21 in
  word opc rd ((u / 2 ^ 12) mod 8) ((u / 2 ^ 15) mod 32)
       ((u / 2 ^ 11) mod 2 + 2 * ((u / 2) mod 16)) ((u / 32) mod 64 + 64 * (u / 2 ^ 20)).

(** The standard encoding of an instruction; [Unknown] has none. *)
Definition encode (op : Op) : option Z :=
  match op with
  | Unknown => None
  | Add d a b => Some (enc_r 0x33 0 0 d a b)
  | Sub d a b => Some (enc_r 0x33 0 32 d a b)
  | Sll d a b => Some (enc_r 0x33 1 0 d a b)
  | Slt d a b => Some (enc_r 0x33 2 0 d a b)
  | Sltu d a b => Some (enc_r 0x33 3 0 d a b)
  | Xor d a b => Some (enc_r 0x33 4 0 d a b)
  | Srl d a b => Some (enc_r 0x33 5 0 d a b)
  | Sra d a b => Some (enc_r 0x33 5 32 d a b)
  | Or d a b => Some (enc_r 0x33 6 0 d a b)
  | And d a b => Some (enc_r 0x33 7 0 d a b)
  | Mul d a b => Some (enc_r 0x33 0 1 d a b)
  | Mulh d a b => Some (enc_r 0x33 1 1 d a b)
  | Mulhsu d a b => Some (enc_r 0x33 2 1 d a b)
  | Mulhu d a b => Some (enc_r 0x33 3 1 d a b)
  | Div d a b => Some (enc_r 0x33 4 1 d a b)
  | Divu d a b => Some (enc_r 0x33 5 1 d a b)
  | Rem d a b => Some (enc_r 0x33 6 1 d a b)
  | Remu d a b => Some (enc_r 0x33 7 1 d a b)
  | Addi d a i => Some (enc_i 0x13 0 d a i)
  | Slti d a i => Some (enc_i 0x13 2 d a i)
  | Sltiu d a i => Some (enc_i 0x13 3 d a i)
  | Xori d a i => Some (enc_i 0x13 4 d a i)
  | Ori d a i => Some (enc_i 0x13 6 d a i)
  | Andi d a i => Some (enc_i 0x13 7 d a i)
  | Slli d a i => Some (enc_i 0x13 1 d a i)
  | Srli d a i => Some (enc_i 0x13 5 d a i)
  | Srai d a i => Some (enc_i 0x13 5 d a i)
  | Auipc d i => Some (enc_u 0x17 d i)
  | Lui d i => Some (enc_u 0x37 d i)
  | Beq a b i => Some (enc_b 0x63 0 a b i)
  | Bne a b i => Some (enc_b 0x63 1 a b i)
  | Blt a b i => Some (enc_b 0x63 4 a b i)
  | Bge a b i => Some (enc_b 0x63 5 a b i)
  | Bltu a b i => Some (enc_b 0x63 6 a b i)
  | Bgeu a b i => Some (enc_b 0x63 7 a b i)
  | Jal d i => Some (enc_j 0x6f d i)
  | Jalr d a i => Some (enc_i 0x67 0 d a i)
  | Lb d a i => Some (enc_i 0x03 0 d a i)
  | Lh d a i => Some (enc_i 0x03 1 d a i)
  | Lw d a i => Some (enc_i 0x03 2 d a i)
  | Lbu d a i => Some (enc_i 0x03 4 d a i)
  | Lhu d a i => Some (enc_i 0x03 5 d a i)
  | Sb a b i => Some (enc_s 0x23 0 a b i)
  | Sh a b i => Some (enc_s 0x23 1 a b i)
  | Sw a b i => Some (enc_s 0x23 2 a b i)
  | LrW d a => Some (enc_r 0x2f 2 8 d a 0)
  | ScW d a b => Some (enc_r 0x2f 2 12 d a b)
  | AmoswapW d a b => Some (enc_r 0x2f 2 4 d a b)
  | AmoaddW d a b => Some (enc_r 0x2f 2 0 d a b)
  | AmoxorW d a b => Some (enc_r 0x2f 2 16 d a b)
  | AmoandW d a b => Some (enc_r 0x2f 2 48 d a b)
  | AmoorW d a b => Some (enc_r 0x2f 2 32 d a b)
  | AmominW d a b => Some (enc_r 0x2f 2 64 d a b)
  | AmomaxW d a b => Some (enc_r 0x2f 2 80 d a b)
  | AmominuW d a b => Some (enc_r 0x2f 2 96 d a b)
  | AmomaxuW d a b => Some (enc_r 0x2f 2 112 d a b)
  | Fence => Some 0x0f
  | Ecall => Some 0x73
  | Break => Some 0x100073
  end.

(** ** The range invariant of instructions *)

Definition regb (r : Z) : bool := (0 <=? r) && (r <? 32).
Definition rangeb (lo hi step i : Z) : bool := (lo <=? i) && (i <? hi) && (i mod step =? 0).

(** Register numbers below 32, and immediates the instruction's format can hold.
    A 32-bit [Srai] keeps the funct7 bit in its immediate, which the execution
    masks away. *)
Definition op_wf (op : Op) : bool :=
  match op with
  | Unknown | Fence | Ecall | Break => true
  | Add d a b | Sub d a b | Sll d a b | Slt d a b | Sltu d a b | Xor d a b | Srl d a b
  | Sra d a b | Or d a b | And d a b | Mul d a b | Mulh d a b | Mulhsu d a b
  | Mulhu d a b | Div d a b | Divu d a b | Rem d a b | Remu d a b
  | ScW d a b | AmoswapW d a b | AmoaddW d a b | AmoxorW d a b | AmoandW d a b
  | AmoorW d a b | AmominW d a b | AmomaxW d a b | AmominuW d a b | AmomaxuW d a b =>
      regb d && regb a && regb b
  | LrW d a => regb d && regb a
  | Addi d a i | Andi d a i | Ori d a i | Xori d a i | Slti d a i | Sltiu d a i
  | Jalr d a i | Lb d a i | Lh d a i | Lw d a i | Lbu d a i | Lhu d a i =>
      regb d && regb a && rangeb (-2048) 2048 1 i
  | Slli d a i | Srli d a i => regb d && regb a && rangeb 0 32 1 i
  | Srai d a i => regb d && regb a && (rangeb 0 32 1 i || rangeb 1024 1056 1 i)
  | Sb a b i | Sh a b i | Sw a b i => regb a && regb b && rangeb (-2048) 2048 1 i
  | Beq a b i | Bne a b i | Blt a b i | Bge a b i | Bltu a b i | Bgeu a b i =>
      regb a && regb b && rangeb (-4096) 4096 2 i
  | Jal d i => regb d && rangeb (-(2 ^ 20)) (2 ^ 20) 2 i
  | Lui d i | Auipc d i => regb d && rangeb (-(2 ^ 31)) (2 ^ 31) (2 ^ 12) i
  end.

(** The instructions an assembler emits with the 32-bit formats. *)
Definition op_canonical (op : Op) : bool :=
  op_wf op && match op with Unknown => false | Srai _ _ i => 1024 <=? i | _ => true end.

(** ** Fields of a word *)

Record word_ok (opc rd f3 rs1 rs2 f7 : Z) : Prop := {
  wk_opc : 0 <= opc < 128;
  wk_rd : 0 <= rd < 32;
  wk_f3 : 0 <= f3 < 8;
  wk_rs1 : 0 <= rs1 < 32;
  wk_rs2 : 0 <= rs2 < 32;
  wk_f7 : 0 <= f7 < 128;
}.

Lemma div_field k a b : 0 <= k -> 0 <= a < 2 ^ k -> (a + 2 ^ k * b) / 2 ^ k = b.
Proof.
  intros. rewrite Z.mul_comm, Z.div_add, Z.div_small by lia. lia.
Qed.

Lemma mod_field k a b : 0 <= k -> 0 <= a < 2 ^ k -> (a + 2 ^ k * b) mod 2 ^ k = a.
Proof. intros. rewrite Z.mul_comm, Z.mod_add, Z.mod_small by lia. lia. Qed.

Lemma land_full k a : 0 <= k -> 0 <= a < 2 ^ k -> Z.land a (2 ^ k - 1) = a.
Proof. intros. rewrite land_mask by done. by apply Z.mod_small. Qed.

Section fields.
Context (opc rd f3 rs1 rs2 f7 : Z) (H : word_ok opc rd f3 rs1 rs2 f7).
Let w := word opc rd f3 rs1 rs2 f7.

Lemma word_land m0 m1 m2 m3 m4 m5 :
  0 <= m0 < 128 -> 0 <= m1 < 32 -> 0 <= m2 < 8 -> 0 <= m3 < 32 -> 0 <= m4 < 32 ->
  Z.land w (word m0 m1 m2 m3 m4 m5) =
    word (Z.land opc m0) (Z.land rd m1) (Z.land f3 m2) (Z.land rs1 m3) (Z.land rs2 m4)
         (Z.land f7 m5).
Proof. destruct H. intros. unfold w, word. rewrite !land_split by lia. done. Qed.

Lemma word_range : 0 <= w < 2 ^ 32.
Proof. destruct H. unfold w, word. lia. Qed.

Lemma word_rd : Riscv.rd w = rd.
Proof.
  destruct H. unfold Riscv.rd, w, word. rewrite Z.shiftr_div_pow2, div_field by lia.
  change 0x1f with (2 ^ 5 - 1). by rewrite land_mask, mod_field by lia.
Qed.
Lemma word_rs1 : Riscv.rs1 w = rs1.
Proof.
  destruct H. unfold Riscv.rs1, w, word. change 15 with (7 + 5 + 3).
  rewrite <- !Z.shiftr_shiftr, !Z.shiftr_div_pow2, !div_field by lia.
  change 0x1f with (2 ^ 5 - 1). by rewrite land_mask, mod_field by lia.
Qed.
Lemma word_rs2 : Riscv.rs2 w = rs2.
Proof.
  destruct H. unfold Riscv.rs2, w, word. change 20 with (7 + 5 + 3 + 5).
  rewrite <- !Z.shiftr_shiftr, !Z.shiftr_div_pow2, !div_field by lia.
  change 0x1f with (2 ^ 5 - 1). by rewrite land_mask, mod_field by lia.
Qed.

Lemma word_opcode : Z.land w 0x7f = opc.
Proof.
  change 0x7f with (word (2 ^ 7 - 1) 0 0 0 0 0). rewrite word_land by lia.
  destruct H. rewrite land_full, !Z.land_0_r by lia. unfold word. lia.
Qed.
Lemma word_low2 : Z.land w 3 = opc mod 4.
Proof.
  change 3 with (word (2 ^ 2 - 1) 0 0 0 0 0). rewrite word_land by lia.
  rewrite land_mask, !Z.land_0_r by lia. unfold word. change (2 ^ 2) with 4. lia.
Qed.
Lemma word_funct3 : Z.land w 0x707f = opc + 2 ^ 12 * f3.
Proof.
  change 0x707f with (word (2 ^ 7 - 1) 0 (2 ^ 3 - 1) 0 0 0). rewrite word_land by lia.
  destruct H. rewrite !land_full, !Z.land_0_r by lia. unfold word. lia.
Qed.
Lemma word_funct7 : Z.land w 0xfe00707f = opc + 2 ^ 12 * f3 + 2 ^ 25 * f7.
Proof.
  change 0xfe00707f with (word (2 ^ 7 - 1) 0 (2 ^ 3 - 1) 0 0 (2 ^ 7 - 1)).
  rewrite word_land by lia.
  destruct H. rewrite !land_full, !Z.land_0_r by lia. unfold word. lia.
Qed.
Lemma word_funct5 : Z.land w 0xf800707f = opc + 2 ^ 12 * f3 + 2 ^ 25 * Z.land f7 124.
Proof.
  change 0xf800707f with (word (2 ^ 7 - 1) 0 (2 ^ 3 - 1) 0 0 124).
  rewrite word_land by lia.
  destruct H. rewrite !land_full, !Z.land_0_r by lia. unfold word. lia.
Qed.

Lemma land_top : Z.land f7 64 = 64 * (f7 / 64) /\ Z.land f7 63 = f7 mod 64.
Proof.
  destruct H. split; [|by apply (land_mask 6)].
  pose proof (Z.div_mod f7 64). pose proof (Z.mod_pos_bound f7 64).
  replace f7 with (f7 mod 64 + 2 ^ 6 * (f7 / 64)) at 1 by dlia.
  change 64 with (0 + 2 ^ 6 * 1) at 3. rewrite land_split by dlia.
  rewrite Z.land_0_r. assert (f7 / 64 = 0 \/ f7 / 64 = 1) as [-> | ->] by dlia; done.
Qed.

Lemma as_i32_word lo hi :
  0 <= lo < 2 ^ 20 -> 0 <= hi < 4096 ->
  as_i32 (lo + 2 ^ 20 * hi) = lo + 2 ^ 20 * (hi - 4096 * (hi / 2048)).
Proof.
  intros. unfold as_signed. change (2 ^ (32 - 1)) with (2 ^ 31).
  destruct (Z.ltb_spec (lo + 2 ^ 20 * hi) (2 ^ 31)).
  - replace (hi / 2048) with 0 by dlia. dlia.
  - replace (hi / 2048) with 1 by dlia. dlia.
Qed.

Lemma word_i_imm : i_imm w = rs2 + 32 * f7 - 4096 * (f7 / 64).
Proof.
  destruct H. unfold i_imm, i32_shr, w, word.
  replace (opc + 2 ^ 7 * (rd + 2 ^ 5 * (f3 + 2 ^ 3 * (rs1 + 2 ^ 5 * (rs2 + 2 ^ 5 * f7)))))
    with ((opc + 2 ^ 7 * (rd + 2 ^ 5 * (f3 + 2 ^ 3 * rs1))) + 2 ^ 20 * (rs2 + 32 * f7)) by dlia.
  rewrite as_i32_word, Z.shiftr_div_pow2, div_field by dlia. dlia.
Qed.

Lemma word_s_imm : s_imm w = rd + 32 * f7 - 4096 * (f7 / 64).
Proof.
  unfold s_imm.
  change 0xfe000000 with (word 0 0 0 0 0 (2 ^ 7 - 1)).
  change 0xf80 with (word 0 (2 ^ 5 - 1) 0 0 0 0).
  rewrite !word_land by dlia. destruct H. rewrite !land_full, !Z.land_0_r by dlia.
  unfold word, i32_shr.
  replace (as_i32 (0 + 2 ^ 7 * (rd + 2 ^ 5 * _))) with (2 ^ 7 * rd)
    by (unfold as_signed; destruct (Z.ltb_spec (0 + 2 ^ 7 * (rd + 2 ^ 5 * (0 + 2 ^ 3 * (0 + 2 ^ 5 * (0 + 2 ^ 5 * 0))))) (2 ^ (32 - 1))); lia).
  replace (as_i32 _) with (2 ^ 20 * (2 ^ 5 * (f7 - 128 * (f7 / 64)))).
  2: { replace (0 + 2 ^ 7 * _) with (0 + 2 ^ 20 * (32 * f7)) by dlia.
       rewrite as_i32_word by dlia. dlia. }
  rewrite !Z.shiftr_div_pow2 by dlia.
  rewrite (Z.mul_comm (2 ^ 20)), (Z.mul_comm (2 ^ 7)), !Z.div_mul by dlia.
  rewrite lor_add by dlia. dlia.
Qed.

Lemma word_u_imm :
  u_imm w = 2 ^ 12 * (f3 + 8 * rs1 + 2 ^ 8 * rs2 + 2 ^ 13 * f7) - 2 ^ 32 * (f7 / 64).
Proof.
  unfold u_imm.
  change 0xfffff000 with (word 0 0 (2 ^ 3 - 1) (2 ^ 5 - 1) (2 ^ 5 - 1) (2 ^ 7 - 1)).
  rewrite word_land by dlia. destruct H. rewrite !land_full, !Z.land_0_r by dlia.
  unfold word.
  replace (0 + 2 ^ 7 * _) with (2 ^ 12 * (f3 + 8 * rs1) + 2 ^ 20 * (rs2 + 32 * f7)) by dlia.
  rewrite as_i32_word by dlia. dlia.
Qed.

Lemma as_i32_small z : 0 <= z < 2 ^ 31 -> as_i32 z = z.
Proof. intros. unfold as_signed. by rewrite (proj2 (Z.ltb_lt _ _)) by dlia. Qed.

Lemma shr_mul k q : 0 <= k -> i32_shr (2 ^ k * q) k = q.
Proof. intros. unfold i32_shr. rewrite Z.shiftr_div_pow2, Z.mul_comm, Z.div_mul; dlia. Qed.

Lemma sign_bit k : 0 <= k <= 31 ->
  i32_shr (as_i32 (word 0 0 0 0 0 (64 * (f7 / 64)))) k = 2 ^ (31 - k) * - (f7 / 64).
Proof.
  intros Hk. destruct H. unfold word.
  replace (0 + 2 ^ 7 * _) with (0 + 2 ^ 20 * (2048 * (f7 / 64))) by dlia.
  rewrite as_i32_word by dlia.
  replace (0 + 2 ^ 20 * _) with (2 ^ k * (2 ^ (31 - k) * - (f7 / 64))).
  - by rewrite shr_mul by dlia.
  - rewrite Z.mul_assoc, <- Z.pow_add_r by dlia. replace (k + (31 - k)) with 31 by dlia. dlia.
Qed.

Lemma word_b_imm :
  b_imm w = 2 * (rd / 2) + 32 * (f7 mod 64) + 2 ^ 11 * (rd mod 2) - 2 ^ 12 * (f7 / 64).
Proof.
  unfold b_imm.
  change 0x80000000 with (word 0 0 0 0 0 64). change 0x80 with (word 0 (2 ^ 1 - 1) 0 0 0 0).
  change 0x7e000000 with (word 0 0 0 0 0 63). change 0xf00 with (word 0 30 0 0 0 0).
  rewrite !word_land by dlia. destruct land_top as [-> ->]. rewrite !Z.land_0_r.
  rewrite sign_bit, (land_mask 1) by dlia. destruct H.
  assert (Z.land rd 30 = 2 * (rd / 2)) as ->.
  { pose proof (Z.div_mod rd 2). replace rd with (rd mod 2 + 2 ^ 1 * (rd / 2)) at 1 by dlia.
    change 30 with (0 + 2 ^ 1 * (2 ^ 4 - 1)). rewrite land_split by dlia.
    rewrite Z.land_0_r, land_full by dlia. dlia. }
  unfold word. rewrite !as_i32_small by dlia.
  replace (0 + 2 ^ 7 * (0 + 2 ^ 5 * (0 + _))) with (2 ^ 20 * (32 * (f7 mod 64))) by dlia.
  replace (0 + 2 ^ 7 * (2 * (rd / 2) + _)) with (2 ^ 7 * (2 * (rd / 2))) by dlia.
  rewrite !shr_mul by dlia.
  unfold i32_shl. rewrite Z.shiftl_mul_pow2 by dlia.
  rewrite w32_small, as_i32_small by dlia.
  change (2 ^ (31 - 19)) with (2 ^ 12). change (2 ^ 1) with 2.
  rewrite (lor_add 12) by dlia.
  replace (_ + 2 ^ 12 * - (f7 / 64)) with (2 ^ 11 * (rd mod 2 - 2 * (f7 / 64))) by dlia.
  rewrite (lor_add 11) by dlia.
  replace (_ + 2 ^ 11 * _) with (2 ^ 5 * (f7 mod 64 + 64 * (rd mod 2 - 2 * (f7 / 64)))) by dlia.
  rewrite (lor_add 5) by dlia. dlia.
Qed.

Lemma word_j_imm :
  j_imm w = 2 * (rs2 / 2) + 32 * (f7 mod 64) + 2 ^ 11 * (rs2 mod 2) + 2 ^ 12 * f3
            + 2 ^ 15 * rs1 - 2 ^ 20 * (f7 / 64).
Proof.
  unfold j_imm.
  change 0x80000000 with (word 0 0 0 0 0 64).
  change 0xff000 with (word 0 0 (2 ^ 3 - 1) (2 ^ 5 - 1) 0 0).
  change 0x100000 with (word 0 0 0 0 (2 ^ 1 - 1) 0).
  change 0x7fe00000 with (word 0 0 0 0 30 63).
  rewrite !word_land by dlia. destruct land_top as [-> ->]. rewrite !Z.land_0_r.
  rewrite sign_bit, (land_mask 1) by dlia. destruct H. rewrite !land_full by dlia.
  assert (Z.land rs2 30 = 2 * (rs2 / 2)) as ->.
  { pose proof (Z.div_mod rs2 2). replace rs2 with (rs2 mod 2 + 2 ^ 1 * (rs2 / 2)) at 1 by dlia.
    change 30 with (0 + 2 ^ 1 * (2 ^ 4 - 1)). rewrite land_split by dlia.
    rewrite Z.land_0_r, land_full by dlia. dlia. }
  change (2 ^ 1) with 2 in *.
  unfold word. rewrite !as_i32_small by dlia.
  replace (0 + 2 ^ 7 * (0 + 2 ^ 5 * (f3 + _))) with (2 ^ 0 * (2 ^ 12 * (f3 + 8 * rs1))) by dlia.
  replace (0 + 2 ^ 7 * (0 + 2 ^ 5 * (0 + 2 ^ 3 * (0 + 2 ^ 5 * (rs2 mod 2 + _)))))
    with (2 ^ 9 * (2 ^ 11 * (rs2 mod 2))) by dlia.
  replace (0 + 2 ^ 7 * (0 + 2 ^ 5 * (0 + 2 ^ 3 * (0 + 2 ^ 5 * (2 * (rs2 / 2) + _)))))
    with (2 ^ 20 * (2 * (rs2 / 2) + 32 * (f7 mod 64))) by dlia.
  rewrite !shr_mul by dlia. change (2 ^ (31 - 11)) with (2 ^ 20).
  rewrite (lor_add 20) by dlia.
  replace (_ + 2 ^ 20 * - (f7 / 64)) with (2 ^ 12 * (f3 + 8 * rs1 - 2 ^ 8 * (f7 / 64))) by dlia.
  rewrite (lor_add 12) by dlia.
  replace (_ + 2 ^ 12 * _)
    with (2 ^ 11 * (rs2 mod 2 + 2 * (f3 + 8 * rs1 - 2 ^ 8 * (f7 / 64)))) by dlia.
  rewrite (lor_add 11) by dlia. dlia.
Qed.

End fields.

(** ** The assembler and the decoder *)

Ltac consts :=
  change (2 ^ 32) with 4294967296 in *; change (2 ^ 31) with 2147483648 in *;
  change (2 ^ 21) with 2097152 in *; change (2 ^ 20) with 1048576 in *;
  change (2 ^ 15) with 32768 in *; change (2 ^ 13) with 8192 in *;
  change (2 ^ 12) with 4096 in *; change (2 ^ 11) with 2048 in *; change (2 ^ 8) with 256 in *.
Ltac fields_tac := constructor; dlia.
Ltac read_tac W :=
  first [ exact (word_low2 _ _ _ _ _ _ W) | exact (word_opcode _ _ _ _ _ _ W)
        | exact (word_funct3 _ _ _ _ _ _ W) | exact (word_funct7 _ _ _ _ _ _ W)
        | exact (word_funct5 _ _ _ _ _ _ W) | exact (word_rd _ _ _ _ _ _ W)
        | exact (word_rs1 _ _ _ _ _ _ W) | exact (word_rs2 _ _ _ _ _ _ W) | idtac ].

(** What the decoder reads from a word assembled in each format. *)
Section formats.
Context (opc rd f3 rs1 rs2 imm : Z).
Hypothesis opc_ok : 0 <= opc < 128.
Hypothesis rd_ok : 0 <= rd < 32.
Hypothesis f3_ok : 0 <= f3 < 8.
Hypothesis rs1_ok : 0 <= rs1 < 32.
Hypothesis rs2_ok : 0 <= rs2 < 32.

Record reads (w : Z) : Prop := {
  rd_low2 : Z.land w 3 = opc mod 4;
  rd_opcode : Z.land w 0x7f = opc;
  rd_funct3 : Z.land w 0x707f = opc + 2 ^ 12 * f3;
}.

Lemma word_reads d a b f7 : word_ok opc d f3 a b f7 -> reads (word opc d f3 a b f7).
Proof. intros W. split; read_tac W. Qed.

Lemma enc_r_reads f7 : 0 <= f7 < 128 ->
  let w := enc_r opc f3 f7 rd rs1 rs2 in
  reads w /\ Z.land w 0xfe00707f = opc + 2 ^ 12 * f3 + 2 ^ 25 * f7 /\
  Z.land w 0xf800707f = opc + 2 ^ 12 * f3 + 2 ^ 25 * Z.land f7 124 /\
  Riscv.rd w = rd /\ Riscv.rs1 w = rs1 /\ Riscv.rs2 w = rs2.
Proof.
  intros Hf w. assert (word_ok opc rd f3 rs1 rs2 f7) as W by fields_tac.
  repeat split; read_tac W.
Qed.

Lemma enc_i_reads : -2048 <= imm < 2048 ->
  let w := enc_i opc f3 rd rs1 imm in
  reads w /\ Z.land w 0xfe00707f = opc + 2 ^ 12 * f3 + 2 ^ 25 * (imm mod 4096 / 32) /\
  Riscv.rd w = rd /\ Riscv.rs1 w = rs1 /\ i_imm w = imm.
Proof.
  intros Hi w. subst w. unfold enc_i. cbv zeta. consts.
  assert (word_ok opc rd f3 rs1 (imm mod 4096 mod 32) (imm mod 4096 / 32)) as W by fields_tac.
  split; [exact (word_reads _ _ _ _ W)|].
  repeat split; read_tac W.
  rewrite word_i_imm by exact W. dlia.
Qed.

Lemma enc_s_reads : -2048 <= imm < 2048 ->
  let w := enc_s opc f3 rs1 rs2 imm in
  reads w /\ Riscv.rs1 w = rs1 /\ Riscv.rs2 w = rs2 /\ s_imm w = imm.
Proof.
  intros Hi w. subst w. unfold enc_s. cbv zeta. consts.
  assert (word_ok opc (imm mod 4096 mod 32) f3 rs1 rs2 (imm mod 4096 / 32)) as W by fields_tac.
  split; [exact (word_reads _ _ _ _ W)|].
  repeat split; read_tac W.
  rewrite word_s_imm by exact W. dlia.
Qed.

Lemma enc_b_reads : -4096 <= imm < 4096 -> imm mod 2 = 0 ->
  let w := enc_b opc f3 rs1 rs2 imm in
  reads w /\ Riscv.rs1 w = rs1 /\ Riscv.rs2 w = rs2 /\ b_imm w = imm.
Proof.
  intros Hi He w. subst w. unfold enc_b. cbv zeta. consts.
  match goal with |- context [word opc ?d f3 rs1 rs2 ?g] =>
    assert (word_ok opc d f3 rs1 rs2 g) as W by fields_tac end.
  split; [exact (word_reads _ _ _ _ W)|].
  repeat split; read_tac W.
  rewrite word_b_imm by exact W. consts. dlia.
Qed.

End formats.

Lemma enc_u_reads opc rd imm :
  0 <= opc < 128 -> 0 <= rd < 32 -> -(2 ^ 31) <= imm < 2 ^ 31 -> imm mod 2 ^ 12 = 0 ->
  let w := enc_u opc rd imm in
  Z.land w 3 = opc mod 4 /\ Z.land w 0x7f = opc /\ Riscv.rd w = rd /\ u_imm w = imm.
Proof.
  intros Ho Hd Hi He w. subst w. unfold enc_u. cbv zeta. consts.
  match goal with |- context [word opc rd ?f ?a ?b ?g] =>
    assert (word_ok opc rd f a b g) as W by fields_tac end.
  repeat split; read_tac W.
  rewrite word_u_imm by exact W. consts. dlia.
Qed.

Lemma enc_j_reads opc rd imm :
  0 <= opc < 128 -> 0 <= rd < 32 -> -(2 ^ 20) <= imm < 2 ^ 20 -> imm mod 2 = 0 ->
  let w := enc_j opc rd imm in
  Z.land w 3 = opc mod 4 /\ Z.land w 0x7f = opc /\ Riscv.rd w = rd /\ j_imm w = imm.
Proof.
  intros Ho Hd Hi He w. subst w. unfold enc_j. cbv zeta. consts.
  match goal with |- context [word opc rd ?f ?a ?b ?g] =>
    assert (word_ok opc rd f a b g) as W by fields_tac end.
  repeat split; read_tac W.
  rewrite word_j_imm by exact W. consts. dlia.
Qed.

(** Decides the comparisons of closed words that select a decoder arm. *)
Ltac select_arm :=
  repeat match goal with
  | |- context [?a =? ?b] =>
      let r := eval vm_compute in (a =? b) in
      lazymatch r with
      | true => change (a =? b) with true
      | false => change (a =? b) with false
      end; cbv beta iota zeta delta [negb]
  end.

(** Turns the boolean range tests of [op_wf] into inequalities. *)
Ltac range_tests :=
  unfold op_canonical, op_wf, regb, rangeb in *;
  repeat match goal with
  | H : _ && _ = true |- _ => apply andb_true_iff in H; destruct H
  | H : _ || _ = true |- _ => apply orb_true_iff in H; destruct H
  | H : (_ <=? _) = true |- _ => apply Z.leb_le in H
  | H : (_ <? _) = true |- _ => apply Z.ltb_lt in H
  | H : (_ =? _) = true |- _ => apply Z.eqb_eq in H
  end.

Ltac rewrite_reads :=
  repeat match goal with
  | H : ?f ?w = _ |- context [?f ?w] => rewrite H
  end.
(** Runs the decoder on a word whose reads are in the context. *)
Ltac run_decode :=
  match goal with R : _ /\ _ |- decode ?e = _ =>
    generalize dependent e; intros w R end;
  repeat match goal with
  | H : reads _ _ _ |- _ => destruct H
  | H : _ /\ _ |- _ => destruct H
  end;
  unfold decode; rewrite_reads; select_arm;
  unfold decode_uncompressed; rewrite_reads; select_arm;
  unfold decode_jalr, decode_branch, decode_load, decode_store, decode_op_imm, decode_op, decode_amo;
  rewrite_reads; select_arm; reflexivity.

Ltac decode_r := match goal with |- decode (enc_r ?o ?f ?g ?d ?a ?b) = _ =>
  pose proof (enc_r_reads o d f a b ltac:(lia) ltac:(lia) ltac:(lia) ltac:(lia) ltac:(lia) g ltac:(lia)) as R; cbv zeta in R end.
Ltac decode_i := match goal with |- decode (enc_i ?o ?f ?d ?a ?i) = _ =>
  pose proof (enc_i_reads o d f a 0 i ltac:(lia) ltac:(lia) ltac:(lia) ltac:(lia) ltac:(lia) ltac:(lia)) as R; cbv zeta in R end.
Ltac decode_s := match goal with |- decode (enc_s ?o ?f ?a ?b ?i) = _ =>
  pose proof (enc_s_reads o 0 f a b i ltac:(lia) ltac:(lia) ltac:(lia) ltac:(lia) ltac:(lia) ltac:(lia)) as R; cbv zeta in R end.
Ltac decode_b := match goal with |- decode (enc_b ?o ?f ?a ?b ?i) = _ =>
  pose proof (enc_b_reads o 0 f a b i ltac:(lia) ltac:(lia) ltac:(lia) ltac:(lia) ltac:(lia) ltac:(lia) ltac:(lia)) as R; cbv zeta in R end.
Ltac decode_u := match goal with |- decode (enc_u ?o ?d ?i) = _ =>
  pose proof (enc_u_reads o d i ltac:(lia) ltac:(lia) ltac:(lia) ltac:(lia)) as R; cbv zeta in R end.
Ltac decode_j := match goal with |- decode (enc_j ?o ?d ?i) = _ =>
  pose proof (enc_j_reads o d i ltac:(lia) ltac:(lia) ltac:(lia) ltac:(lia)) as R; cbv zeta in R end.

(** C21. The decoder inverts the instruction set's standard encodings: for every
    instruction whose registers and immediate fit its 32-bit format, decoding the
    assembled word gives the instruction back, and the size 4. *)
Theorem decode_encode op w :
  op_canonical op = true -> encode op = Some w -> decode w = (op, 4).
Proof.
  intros Hop [= E].
  destruct op; simpl in E; simplify_eq; range_tests; try discriminate; try lia.
  all: try reflexivity.
  all: try (decode_r; run_decode).
  all: try (decode_s; run_decode).
  all: try (decode_b; run_decode).
  all: try (decode_u; run_decode).
  all: try (decode_j; run_decode).
  all: decode_i; try run_decode.
  - replace (imm mod 4096 / 32) with 0 in * by dlia. run_decode.
  - replace (imm mod 4096 / 32) with 0 in * by dlia. run_decode.
  - replace (imm mod 4096 / 32) with 32 in * by dlia. run_decode.
Qed.

Lemma decode_encode_witness :
  encode (Bltu 5 6 (-2048)) = Some 0x8062e0e3 /\ decode 0x8062e0e3 = (Bltu 5 6 (-2048), 4).
Proof.
  split; [reflexivity|].
  apply (decode_encode (Bltu 5 6 (-2048)) 0x8062e0e3); reflexivity.
Defined.

(** ** The compressed instructions *)

(** Bits [hi..lo] of a halfword, and sign extension, as the ISA's diagrams name them. *)
Definition bits (h hi lo : Z) : Z := Z.land (Z.shiftr h lo) (Z.ones (hi - lo + 1)).
Definition bit (h i : Z) : Z := bits h i i.
Definition sext (w z : Z) : Z := as_signed w z.

Definition nzuimm_ciw h := bits h 10 7 * 64 + bits h 12 11 * 16 + bit h 5 * 8 + bit h 6 * 4.
Definition uimm_cl h := bit h 5 * 64 + bits h 12 10 * 8 + bit h 6 * 4.
Definition uimm_lwsp h := bits h 3 2 * 64 + bit h 12 * 32 + bits h 6 4 * 4.
Definition uimm_swsp h := bits h 8 7 * 64 + bits h 12 9 * 4.
Definition imm_ci h := sext 6 (bit h 12 * 32 + bits h 6 2).
Definition nzimm_16sp h :=
  sext 10 (bit h 12 * 512 + bits h 4 3 * 128 + bit h 5 * 64 + bit h 2 * 32 + bit h 6 * 16).
Definition imm_cb h :=
  sext 9 (bit h 12 * 256 + bits h 6 5 * 64 + bit h 2 * 32 + bits h 11 10 * 8 + bits h 4 3 * 2).
Definition imm_cj h :=
  sext 12 (bit h 12 * 2048 + bit h 8 * 1024 + bits h 10 9 * 256 + bit h 6 * 128 + bit h 7 * 64
           + bit h 2 * 32 + bit h 11 * 16 + bits h 5 3 * 2).

(** The expansion of an RV32IMAC compressed instruction; [None] where the code
    point is illegal, reserved, or left to custom extensions. *)
Definition rvc_expand (h : Z) : option Op :=
  let rd' := 8 + bits h 4 2 in
  let rs2' := 8 + bits h 4 2 in
  let rs1' := 8 + bits h 9 7 in
  let rd := bits h 11 7 in
  let rs2 := bits h 6 2 in
  match bits h 1 0, bits h 15 13 with
  | 0, 0 => if nzuimm_ciw h =? 0 then None else Some (Addi rd' 2 (nzuimm_ciw h))
  | 0, 2 => Some (Lw rd' rs1' (uimm_cl h))
  | 0, 6 => Some (Sw rs1' rs2' (uimm_cl h))
  | 1, 0 => Some (Addi rd rd (imm_ci h))
  | 1, 1 => Some (Jal 1 (imm_cj h))
  | 1, 2 => Some (Addi rd 0 (imm_ci h))
  | 1, 3 => if rd =? 2 then if nzimm_16sp h =? 0 then None else Some (Addi 2 2 (nzimm_16sp h))
            else if imm_ci h =? 0 then None else Some (Lui rd (4096 * imm_ci h))
  | 1, 4 =>
      match bits h 11 10, bit h 12, bits h 6 5 with
      | 0, 0, _ => Some (Srli rs1' rs1' rs2)
      | 1, 0, _ => Some (Srai rs1' rs1' rs2)
      | 2, _, _ => Some (Andi rs1' rs1' (imm_ci h))
      | 3, 0, 0 => Some (Sub rs1' rs1' rs2')
      | 3, 0, 1 => Some (Xor rs1' rs1' rs2')
      | 3, 0, 2 => Some (Or rs1' rs1' rs2')
      | 3, 0, 3 => Some (And rs1' rs1' rs2')
      | _, _, _ => None
      end
  | 1, 5 => Some (Jal 0 (imm_cj h))
  | 1, 6 => Some (Beq rs1' 0 (imm_cb h))
  | 1, 7 => Some (Bne rs1' 0 (imm_cb h))
  | 2, 0 => if (rd =? 0) || (bit h 12 =? 1) then None else Some (Slli rd rd rs2)
  | 2, 2 => if rd =? 0 then None else Some (Lw rd 2 (uimm_lwsp h))
  | 2, 4 =>
      if bit h 12 =? 0 then
        if rs2 =? 0 then if rd =? 0 then None else Some (Jalr 0 rd 0) else Some (Add rd 0 rs2)
      else
        if rs2 =? 0 then if rd =? 0 then Some Break else Some (Jalr 1 rd 0)
        else Some (Add rd rd rs2)
  | 2, 6 => Some (Sw 2 rs2 (uimm_swsp h))
  | _, _ => None
  end.

(** The two kinds of reserved code points that the decoder accepts, and what it takes them
    for: [C.LUI] with a zero immediate loads 0, and the RV32 shifts by a 6-bit amount shift
    by its lowest 5 bits. *)
Definition rvc_lenient (h : Z) : option Op :=
  let rd := bits h 11 7 in let rs1' := 8 + bits h 9 7 in let shamt := bits h 6 2 in
  match bits h 1 0, bits h 15 13 with
  | 1, 3 => if negb (rd =? 2) && (imm_ci h =? 0) then Some (Lui rd 0) else None
  | 1, 4 =>
      match bits h 11 10, bit h 12 with
      | 0, 1 => Some (Srli rs1' rs1' shamt)
      | 1, 1 => Some (Srai rs1' rs1' shamt)
      | _, _ => None
      end
  | 2, 0 => if negb (rd =? 0) && (bit h 12 =? 1) then Some (Slli rd rd shamt) else None
  | _, _ => None
  end.

(** The immediates only read bits 12 to 2, so their agreement with the diagrams
    and their ranges are 2048 evaluations each. *)
Definition bits_12_2 (h : Z) : Z := Z.land h 0x1ffc.
Definition reads_12_2 (f : Z -> Z) : Prop := forall h, f h = f (bits_12_2 h).
Definition imm_check (lo hi step : Z) (f g : Z -> Z) : bool :=
  forallb (fun i => (f (4 * i) =? g (4 * i)) && rangeb lo hi step (f (4 * i))) (seqZ 0 2048).

Lemma bits_12_2_small h : 0 <= h -> exists i, bits_12_2 h = 4 * i /\ 0 <= i < 2048.
Proof.
  intros Hh. exists ((h / 4) mod 2048). split; [|apply Z.mod_pos_bound; lia].
  unfold bits_12_2. pose proof (Z.div_mod h 4 ltac:(lia)). pose proof (Z.mod_pos_bound h 4 ltac:(lia)).
  replace h with (h mod 4 + 2 ^ 2 * (h / 4)) at 1 by lia.
  change 0x1ffc with (0 + 2 ^ 2 * (2 ^ 11 - 1)). rewrite land_split by lia.
  rewrite Z.land_0_r, land_mask by lia. change (2 ^ 2) with 4. change (2 ^ 11) with 2048. lia.
Qed.

Lemma imm_agree lo hi step f g :
  reads_12_2 f -> reads_12_2 g -> imm_check lo hi step f g = true ->
  forall h, 0 <= h -> f h = g h /\ rangeb lo hi step (f h) = true.
Proof.
  intros Hf Hg Hc h Hh. destruct (bits_12_2_small h Hh) as (i & Hi & Hr).
  rewrite Hf, Hg, Hi. unfold imm_check in Hc. rewrite forallb_forall in Hc.
  specialize (Hc i). rewrite <- list_elem_of_In, elem_of_seqZ in Hc.
  specialize (Hc ltac:(lia)). apply andb_true_iff in Hc as [H1 H2].
  by apply Z.eqb_eq in H1.
Qed.

Lemma land_sub h m : Z.land 0x1ffc m = m -> Z.land (bits_12_2 h) m = Z.land h m.
Proof. intros E. unfold bits_12_2. by rewrite <- Z.land_assoc, E. Qed.

Lemma bits_sub h hi lo :
  Z.land (Z.shiftr 0x1ffc lo) (Z.ones (hi - lo + 1)) = Z.ones (hi - lo + 1) ->
  bits (bits_12_2 h) hi lo = bits h hi lo.
Proof. intros E. unfold bits, bits_12_2. by rewrite Z.shiftr_land, <- Z.land_assoc, E. Qed.

Ltac reads_12_2_tac :=
  intros h; unfold Rv32c.ci_imm, Rv32c.ci_addi16sp_imm, Rv32c.ci_lwsp_imm, Rv32c.css_swsp_imm,
    Rv32c.ciw_addi4spn_imm, Rv32c.cl_lw_offset, Rv32c.cb_imm, Rv32c.cj_imm,
    nzuimm_ciw, uimm_cl, uimm_lwsp, uimm_swsp, imm_ci, nzimm_16sp, imm_cb, imm_cj, bit;
  rewrite ?land_sub, ?bits_sub by reflexivity; reflexivity.
Ltac imm_agree_tac := apply imm_agree; [reads_12_2_tac|reads_12_2_tac|vm_compute; reflexivity].

Lemma ciw_addi4spn_imm_eq : forall h, 0 <= h ->
  Rv32c.ciw_addi4spn_imm h = nzuimm_ciw h /\ rangeb (-2048) 2048 1 (Rv32c.ciw_addi4spn_imm h) = true.
Proof. imm_agree_tac. Qed.
Lemma cl_lw_offset_eq : forall h, 0 <= h ->
  Rv32c.cl_lw_offset h = uimm_cl h /\ rangeb (-2048) 2048 1 (Rv32c.cl_lw_offset h) = true.
Proof. imm_agree_tac. Qed.
Lemma ci_lwsp_imm_eq : forall h, 0 <= h ->
  Rv32c.ci_lwsp_imm h = uimm_lwsp h /\ rangeb (-2048) 2048 1 (Rv32c.ci_lwsp_imm h) = true.
Proof. imm_agree_tac. Qed.
Lemma css_swsp_imm_eq : forall h, 0 <= h ->
  Rv32c.css_swsp_imm h = uimm_swsp h /\ rangeb (-2048) 2048 1 (Rv32c.css_swsp_imm h) = true.
Proof. imm_agree_tac. Qed.
Lemma ci_imm_eq : forall h, 0 <= h ->
  Rv32c.ci_imm h = imm_ci h /\ rangeb (-32) 32 1 (Rv32c.ci_imm h) = true.
Proof. imm_agree_tac. Qed.
Lemma ci_addi16sp_imm_eq : forall h, 0 <= h ->
  Rv32c.ci_addi16sp_imm h = nzimm_16sp h /\ rangeb (-2048) 2048 1 (Rv32c.ci_addi16sp_imm h) = true.
Proof. imm_agree_tac. Qed.
Lemma cb_imm_eq : forall h, 0 <= h ->
  Rv32c.cb_imm h = imm_cb h /\ rangeb (-4096) 4096 2 (Rv32c.cb_imm h) = true.
Proof. imm_agree_tac. Qed.
Lemma cj_imm_eq : forall h, 0 <= h ->
  Rv32c.cj_imm h = imm_cj h /\ rangeb (-(2 ^ 20)) (2 ^ 20) 2 (Rv32c.cj_imm h) = true.
Proof. imm_agree_tac. Qed.

Lemma bits_range h hi lo : lo <= hi -> 0 <= bits h hi lo < 2 ^ (hi - lo + 1).
Proof.
  intros. unfold bits. rewrite Z.land_ones by lia. apply Z.mod_pos_bound, Z.pow_pos_nonneg; lia.
Qed.

Lemma ci_shamt h : 0 <= h -> Z.land (Rv32c.ci_imm h) 31 = bits h 6 2.
Proof.
  intros Hh. assert (forallb (fun i => Z.land (Rv32c.ci_imm (4 * i)) 31 =? bits (4 * i) 6 2) (seqZ 0 2048) = true)
    as Hc by (vm_compute; reflexivity).
  destruct (bits_12_2_small h Hh) as (i & Hi & Hr).
  rewrite forallb_forall in Hc. specialize (Hc i).
  rewrite <- list_elem_of_In, elem_of_seqZ, Z.eqb_eq in Hc. specialize (Hc ltac:(lia)).
  rewrite <- Hi in Hc. rewrite bits_sub in Hc by reflexivity. rewrite <- Hc.
  f_equal. unfold Rv32c.ci_imm. by rewrite !land_sub by reflexivity.
Qed.

Lemma c_lui_imm i : -32 <= i < 32 -> i32_shl i 12 = 4096 * i.
Proof.
  intros. unfold i32_shl. rewrite Z.shiftl_mul_pow2 by lia.
  rewrite as_signed_wrap; lia.
Qed.

(** The 3-bit and 2-bit fields that select a row of the table. *)
Lemma bits3_cases h hi lo : hi = lo + 2 -> let f := bits h hi lo in
  f = 0 \/ f = 1 \/ f = 2 \/ f = 3 \/ f = 4 \/ f = 5 \/ f = 6 \/ f = 7.
Proof.
  intros ->. pose proof (bits_range h (lo + 2) lo ltac:(lia)) as Hr.
  replace (lo + 2 - lo + 1) with 3 in Hr by lia. simpl. lia.
Qed.
Lemma bits2_cases h hi lo : hi = lo + 1 -> let f := bits h hi lo in
  f = 0 \/ f = 1 \/ f = 2 \/ f = 3.
Proof.
  intros ->. pose proof (bits_range h (lo + 1) lo ltac:(lia)) as Hr.
  replace (lo + 1 - lo + 1) with 2 in Hr by lia. simpl. lia.
Qed.
Lemma bit_cases h i : bit h i = 0 \/ bit h i = 1.
Proof.
  pose proof (bits_range h i i ltac:(lia)) as Hr. replace (i - i + 1) with 1 in Hr by lia.
  unfold bit. lia.
Qed.

(** What the compressed decoder promises for one code point. *)
Definition rvc_agrees (h : Z) : Prop :=
  let op := Rv32c.decode_compressed h in
  op_wf op = true /\
  match rvc_expand h with
  | Some op' => op = op'
  | None => op = default Unknown (rvc_lenient h)
  end.

Lemma land_bit12 h : (Z.land h 0x1000 =? 0) = (bit h 12 =? 0).
Proof.
  unfold bit, bits. change (Z.ones (12 - 12 + 1)) with 1.
  assert (Z.land h 0x1000 = 2 ^ 12 * Z.land (Z.shiftr h 12) 1) as ->.
  { rewrite Z.mul_comm, <- Z.shiftl_mul_pow2, Z.shiftl_land by lia.
    change (Z.shiftl 1 12) with 0x1000. rewrite <- Z.ldiff_ones_r by lia.
    rewrite Z.ldiff_land, <- Z.land_assoc. f_equal. }
  destruct (Z.eqb_spec (Z.land (Z.shiftr h 12) 1) 0) as [->|Hn]; [done|].
  apply Z.eqb_neq. lia.
Qed.

Lemma decode_compressed_fields h :
  Rv32c.decode_compressed h =
    (if bits h 1 0 =? 0 then Rv32c.decode_quadrant0 h
     else if bits h 1 0 =? 1 then Rv32c.decode_quadrant1 h
     else if bits h 1 0 =? 2 then Rv32c.decode_quadrant2 h else Unknown).
Proof. unfold Rv32c.decode_compressed, bits. by rewrite Z.shiftr_0_r. Qed.

(** The decoder's register fields are the diagrams'. *)
Lemma c_funct3_bits h : Rv32c.c_funct3 h = bits h 15 13. Proof. reflexivity. Qed.
Lemma c_rd_bits h : Rv32c.c_rd h = bits h 11 7. Proof. reflexivity. Qed.
Lemma c_rs1_bits h : Rv32c.c_rs1 h = bits h 11 7. Proof. reflexivity. Qed.
Lemma c_rs2_bits h : Rv32c.c_rs2 h = bits h 6 2. Proof. reflexivity. Qed.
Lemma c_rds_bits h : Rv32c.c_rds h = 8 + bits h 4 2. Proof. reflexivity. Qed.
Lemma c_rs1s_bits h : Rv32c.c_rs1s h = 8 + bits h 9 7. Proof. reflexivity. Qed.
Lemma c_rs2s_bits h : Rv32c.c_rs2s h = 8 + bits h 4 2. Proof. reflexivity. Qed.
Lemma c_funct2_bits h : Z.land (Z.shiftr h 10) 3 = bits h 11 10. Proof. reflexivity. Qed.
Lemma c_funct2'_bits h : Z.land (Z.shiftr h 5) 3 = bits h 6 5. Proof. reflexivity. Qed.
Lemma c_bit12 h : Z.land (Z.shiftr h 12) 1 = bit h 12. Proof. reflexivity. Qed.

Create Rewrite HintDb rvc.
#[export] Hint Rewrite c_funct3_bits c_rd_bits c_rs1_bits c_rs2_bits c_rds_bits c_rs1s_bits
  c_rs2s_bits c_funct2_bits c_funct2'_bits c_bit12 land_bit12 : rvc.

Lemma regb_bits5 h hi lo : hi = lo + 4 -> regb (bits h hi lo) = true.
Proof.
  intros ->. pose proof (bits_range h (lo + 4) lo ltac:(lia)) as Hr.
  replace (lo + 4 - lo + 1) with 5 in Hr by lia. unfold regb. lia.
Qed.
Lemma regb_bits3 h hi lo : hi = lo + 2 -> regb (8 + bits h hi lo) = true.
Proof.
  intros ->. pose proof (bits_range h (lo + 2) lo ltac:(lia)) as Hr.
  replace (lo + 2 - lo + 1) with 3 in Hr by lia. unfold regb. lia.
Qed.
Lemma shamt_ok h : rangeb 0 32 1 (bits h 6 2) = true.
Proof.
  pose proof (bits_range h 6 2 ltac:(lia)) as Hr. change (6 - 2 + 1) with 5 in Hr.
  unfold rangeb. rewrite Z.mod_1_r. lia.
Qed.
Lemma rangeb_widen lo hi lo' hi' i :
  rangeb lo hi 1 i = true -> lo' <= lo -> hi <= hi' -> rangeb lo' hi' 1 i = true.
Proof. unfold rangeb. lia. Qed.

Ltac closed_test t :=
  let r := eval vm_compute in t in
  lazymatch r with
  | true => change t with true
  | false => change t with false
  end.
(** Decides the closed comparisons and takes the selected branches. *)
Ltac select_row :=
  repeat match goal with
  | |- context [Z0 =? ?b] => closed_test (Z0 =? b)
  | |- context [Zpos ?a =? ?b] => closed_test (Zpos a =? b)
  | |- context [Z0 <=? ?b] => closed_test (Z0 <=? b)
  | |- context [Zpos ?a <=? ?b] => closed_test (Zpos a <=? b)
  end; cbv beta iota zeta delta [negb andb orb].

(** Splits on the value of a selector field and simplifies both sides with it. *)
Ltac pick cases :=
  let E := fresh "E" in
  pose proof cases as E; cbv zeta in E;
  repeat (match type of E with _ \/ _ => destruct E as [E|E] end);
  try rewrite E in *; select_row.

Ltac rvc_done :=
  repeat case_match; simplify_eq; split; cbn [op_wf];
  rewrite ?regb_bits5, ?regb_bits3 by reflexivity;
  repeat match goal with H : ?b = true |- context [?b] => rewrite H end;
  repeat match goal with H : ?b = false |- context [?b] => rewrite H end;
  first [assumption | reflexivity
    | match goal with H : (imm_ci _ =? 0) = true |- _ => apply Z.eqb_eq in H; rewrite H; reflexivity end].

Lemma rvc_quadrant0 h : 0 <= h -> bits h 1 0 = 0 -> rvc_agrees h.
Proof.
  intros Hh Hq. unfold rvc_agrees. rewrite decode_compressed_fields.
  unfold rvc_expand, rvc_lenient, Rv32c.decode_quadrant0, Rv32c.cs_sw_offset. rewrite Hq. select_row.
  autorewrite with rvc.
  destruct (ciw_addi4spn_imm_eq h Hh) as [-> R1]; destruct (cl_lw_offset_eq h Hh) as [-> R2].
  pick (bits3_cases h 15 13 eq_refl); rvc_done.
Qed.

Lemma rvc_quadrant1 h : 0 <= h -> bits h 1 0 = 1 -> rvc_agrees h.
Proof.
  intros Hh Hq. unfold rvc_agrees. rewrite decode_compressed_fields.
  unfold rvc_expand, rvc_lenient, Rv32c.decode_quadrant1. rewrite Hq. select_row.
  autorewrite with rvc. rewrite ci_shamt by exact Hh.
  destruct (ci_imm_eq h Hh) as [-> R1]; destruct (ci_addi16sp_imm_eq h Hh) as [-> R2];
    destruct (cj_imm_eq h Hh) as [-> R3]; destruct (cb_imm_eq h Hh) as [-> R4].
  rewrite c_lui_imm by (unfold rangeb in R1; lia).
  pose proof (shamt_ok h) as R5. pose proof (rangeb_widen _ _ (-2048) 2048 _ R1 ltac:(lia) ltac:(lia)) as R6.
  assert (rangeb (-(2 ^ 31)) (2 ^ 31) (2 ^ 12) (4096 * imm_ci h) = true) as R7.
  { unfold rangeb in *. rewrite (Z.mul_comm 4096), (Z.mod_mul _ (2 ^ 12)) by lia. lia. }
  pick (bits3_cases h 15 13 eq_refl). all: try rvc_done.
  pick (bits2_cases h 11 10 eq_refl); pick (bit_cases h 12); try rvc_done.
  pick (bits2_cases h 6 5 eq_refl); rvc_done.
Qed.

Lemma rvc_quadrant2 h : 0 <= h -> bits h 1 0 = 2 -> rvc_agrees h.
Proof.
  intros Hh Hq. unfold rvc_agrees. rewrite decode_compressed_fields.
  unfold rvc_expand, rvc_lenient, Rv32c.decode_quadrant2. rewrite Hq. select_row.
  autorewrite with rvc. rewrite ci_shamt by exact Hh.
  destruct (ci_lwsp_imm_eq h Hh) as [-> R1]; destruct (css_swsp_imm_eq h Hh) as [-> R2].
  pose proof (shamt_ok h) as R5.
  pick (bits3_cases h 15 13 eq_refl). all: try rvc_done.
  all: pick (bit_cases h 12); rvc_done.
Qed.

Lemma rvc_agrees_all h : 0 <= h -> rvc_agrees h.
Proof.
  intros Hh. destruct (bits2_cases h 1 0 eq_refl) as [E|[E|[E|E]]].
  - by apply rvc_quadrant0.
  - by apply rvc_quadrant1.
  - by apply rvc_quadrant2.
  - unfold rvc_agrees. rewrite decode_compressed_fields. unfold rvc_expand, rvc_lenient.
    rewrite E. by select_row.
Qed.

(** C22. The decoder of the compressed instructions, on every halfword: where the expansion
    table of the RVC quadrants gives an instruction the decoder gives the same one; on the
    reserved halfwords of two kinds ([rvc_lenient]) it gives a [Lui] of 0 and a shift by the
    lowest five bits of the amount; on all others it gives [Unknown]; and what it gives
    always has register numbers and immediates in range. *)
Theorem decode_compressed_table h : 0 <= h -> rvc_agrees h.
Proof. apply rvc_agrees_all. Qed.

Lemma decode_compressed_table_witness :
  (0 <= 0x8082 /\ rvc_agrees 0x8082 /\ Rv32c.decode_compressed 0x8082 = Jalr 0 1 0) /\
  (rvc_agrees 0x6501 /\ rvc_expand 0x6501 = None /\ Rv32c.decode_compressed 0x6501 = Lui 10 0).
Proof.
  split.
  - split; [lia|]. split; [|reflexivity]. apply (decode_compressed_table 0x8082). lia.
  - split; [|split; reflexivity]. apply (decode_compressed_table 0x6501). lia.
Defined.

(** ** Every decoded instruction is well formed *)

Lemma word_of_fields inst :
  0 <= inst < 2 ^ 32 ->
  exists opc d f3 a b f7, word_ok opc d f3 a b f7 /\ inst = word opc d f3 a b f7.
Proof.
  intros H.
  exists (inst mod 128), ((inst / 2 ^ 7) mod 32), ((inst / 2 ^ 12) mod 8), ((inst / 2 ^ 15) mod 32),
    ((inst / 2 ^ 20) mod 32), (inst / 2 ^ 25).
  change (2 ^ 32) with 4294967296 in H.
  change (2 ^ 7) with 128. change (2 ^ 12) with 4096. change (2 ^ 15) with 32768.
  change (2 ^ 20) with 1048576. change (2 ^ 25) with 33554432.
  split; [constructor; dlia|].
  unfold word. change (2 ^ 7) with 128. change (2 ^ 5) with 32. change (2 ^ 3) with 8. dlia.
Qed.

(** The operands of any word are in the range of its format. *)
Section operands.
Context (opc d f3 a b f7 : Z) (W : word_ok opc d f3 a b f7).
Let w := word opc d f3 a b f7.

Lemma regb_rd : regb (rd w) = true.
Proof. unfold w. rewrite (word_rd _ _ _ _ _ _ W). destruct W. unfold regb. lia. Qed.
Lemma regb_rs1 : regb (rs1 w) = true.
Proof. unfold w. rewrite (word_rs1 _ _ _ _ _ _ W). destruct W. unfold regb. lia. Qed.
Lemma regb_rs2 : regb (rs2 w) = true.
Proof. unfold w. rewrite (word_rs2 _ _ _ _ _ _ W). destruct W. unfold regb. lia. Qed.
Lemma i_imm_range : rangeb (-2048) 2048 1 (i_imm w) = true.
Proof.
  unfold w. rewrite (word_i_imm _ _ _ _ _ _ W). destruct W. unfold rangeb. rewrite Z.mod_1_r. dlia.
Qed.
Lemma s_imm_range : rangeb (-2048) 2048 1 (s_imm w) = true.
Proof.
  unfold w. rewrite (word_s_imm _ _ _ _ _ _ W). destruct W. unfold rangeb. rewrite Z.mod_1_r. dlia.
Qed.
Lemma b_imm_range : rangeb (-4096) 4096 2 (b_imm w) = true.
Proof.
  unfold w. rewrite (word_b_imm _ _ _ _ _ _ W). destruct W. unfold rangeb. consts.
  apply andb_true_iff; split; [dlia|]. apply Z.eqb_eq. dlia.
Qed.
Lemma j_imm_range : rangeb (-(2 ^ 20)) (2 ^ 20) 2 (j_imm w) = true.
Proof.
  unfold w. rewrite (word_j_imm _ _ _ _ _ _ W). destruct W. unfold rangeb. consts.
  apply andb_true_iff; split; [dlia|]. apply Z.eqb_eq. dlia.
Qed.
Lemma u_imm_range : rangeb (-(2 ^ 31)) (2 ^ 31) (2 ^ 12) (u_imm w) = true.
Proof.
  unfold w. rewrite (word_u_imm _ _ _ _ _ _ W). destruct W. unfold rangeb. consts.
  apply andb_true_iff; split; [dlia|]. apply Z.eqb_eq.
  replace (4096 * (f3 + 8 * a + 256 * b + 8192 * f7) - 4294967296 * (f7 / 64))
    with ((f3 + 8 * a + 256 * b + 8192 * f7 - 1048576 * (f7 / 64)) * 4096) by lia.
  by apply Z.mod_mul.
Qed.
(** An immediate shift whose upper bits matched keeps a 5-bit amount. *)
Lemma shamt_range c : Z.land w 0xfe00707f = 0x1013 + 0x4000 * c -> 0 <= c <= 1 ->
  rangeb 0 32 1 (i_imm w) = true.
Proof.
  unfold w. rewrite (word_funct7 _ _ _ _ _ _ W), (word_i_imm _ _ _ _ _ _ W). destruct W. consts.
  change (2 ^ 25) with 33554432. intros E Hc. assert (f7 = 0) as -> by lia.
  unfold rangeb. rewrite Z.mod_1_r. dlia.
Qed.
Lemma srai_range : Z.land w 0xfe00707f = 0x40005013 -> rangeb 1024 1056 1 (i_imm w) = true.
Proof.
  unfold w. rewrite (word_funct7 _ _ _ _ _ _ W), (word_i_imm _ _ _ _ _ _ W). destruct W. consts.
  change (2 ^ 25) with 33554432. intros E. assert (f7 = 32) as -> by lia.
  unfold rangeb. rewrite Z.mod_1_r. dlia.
Qed.

Lemma decode_uncompressed_wf : op_wf (decode_uncompressed w) = true.
Proof.
  pose proof regb_rd as Rd. pose proof regb_rs1 as Ra. pose proof regb_rs2 as Rb.
  pose proof i_imm_range as Ri. pose proof s_imm_range as Rs. pose proof b_imm_range as Rbi.
  pose proof j_imm_range as Rj. pose proof u_imm_range as Ru.
  unfold decode_uncompressed, decode_jalr, decode_branch, decode_load, decode_store,
    decode_op_imm, decode_op, decode_amo, decode_fence, decode_system.
  repeat match goal with |- context [if ?t then _ else _] => destruct t eqn:? end;
    cbn [op_wf]; rewrite ?Rd, ?Ra, ?Rb, ?Ri, ?Rs, ?Rbi, ?Rj, ?Ru; try reflexivity.
  all: repeat match goal with H : (_ =? _) = true |- _ => apply Z.eqb_eq in H end.
  - rewrite (shamt_range 0) by lia. done.
  - rewrite (shamt_range 1) by lia. done.
  - rewrite srai_range by lia. by rewrite orb_true_r.
Qed.
End operands.

Lemma decode_word_wf inst :
  0 <= inst < 2 ^ 32 ->
  op_wf (fst (decode inst)) = true /\
  snd (decode inst) = (if inst mod 4 =? 3 then 4 else 2).
Proof.
  intros H. unfold decode. change (Z.land inst 3) with (Z.land inst (2 ^ 2 - 1)). rewrite land_mask by lia.
  change (2 ^ 2) with 4.
  destruct (Z.eqb_spec (inst mod 4) 3); simpl; split; try reflexivity.
  - destruct (word_of_fields inst H) as (opc & d & f3 & a & b & f7 & W & ->).
    by apply decode_uncompressed_wf.
  - apply rvc_agrees_all. apply w16_range.
Qed.

(** Decoding any 32-bit word gives an instruction whose register numbers are
    below 32 (the indexing of the register file cannot go out of bounds) and whose
    immediate is in its format's range, with size 2 exactly when the low bits of the
    word mark a compressed instruction and size 4 otherwise. *)
Theorem decode_wf inst :
  0 <= inst < 2 ^ 32 ->
  op_wf (fst (decode inst)) = true /\
  snd (decode inst) = (if inst mod 4 =? 3 then 4 else 2).
Proof. apply decode_word_wf. Qed.

Lemma decode_wf_witness :
  (0 <= 0x00c5a533 < 2 ^ 32) /\ op_wf (fst (decode 0x00c5a533)) = true /\ snd (decode 0x00c5a533) = 4.
Proof.
  split; [lia|]. split; [|reflexivity].
  apply (decode_wf 0x00c5a533). lia.
Defined.
