(* ===== verification/Memory.v ===== *)
(** * Paged memory and memory segments ([common/src/vm.rs], [common/src/constants.rs])

    [PagedMemory] is the trait; a page reference is a handle that is read with
    [deref] and written with [deref_mut] ([Deref]/[DerefMut] of the associated
    type [PageRef]). [VecMemory] is the in-memory instance. [MemorySegment] is a
    contiguous range of addresses over a paged memory. The address arithmetic
    wraps like the release build's. *)

From S2P Require Import Prelude.

(** ** constants.rs *)

Definition PAGE_SIZE : Z := 256.

Definition page_start (address : Z) : Z := Z.land address (u32_not (PAGE_SIZE - 1)).

(** ** Errors, pages and the trait *)

Inductive MemoryError : Type :=
| PageNotFound
| AddressOutOfBounds
| UnalignedAddress
| ZeroSize
| StartAddressNotAligned
| Overflow
| GenericError (msg : string).

(** [Page::data], an array of [PAGE_SIZE] bytes. *)
Abbreviation Page := (list Z).
Definition page_ok (p : Page) : Prop := length p = 256%nat /\ bytes_ok p.

Class PagedMemory (M : Type) := {
  PageRef : Type;
  get_page : Z -> ST M MemoryError PageRef;
  deref : M -> PageRef -> Page;
  deref_mut : M -> PageRef -> (Page -> Page) -> M;
  (* the second memory, with what it has in common with the first one *)
  share : M -> M -> M;
}.

(** What a paged memory promises to the segments: the pages it represents (a
    relation, since an outsourced memory holds only a commitment to them), and that
    a page it returns is the represented one and is updated in place. The flag says
    whether the memory may be written: an outsourced memory of code may not, since it
    does not keep the changes. *)
Class PagedMemoryLaws (M : Type) `{PM : PagedMemory M} := {
  represents : bool -> M -> gmap Z Page -> Prop;
  represents_ok : forall b m v i p, represents b m v -> v !! i = Some p -> page_ok p;
  get_page_ok : forall b m v i p h m',
    represents b m v -> 0 <= i -> v !! i = Some p -> get_page i m = (Ok h, m') ->
    represents b m' v /\ deref m' h = p /\
      forall f, b = true -> page_ok (f p) -> represents b (deref_mut m' h f) (<[i := f p]> v);
  share_ok : forall b m v b' m' v',
    represents b m v -> represents b' m' v' -> represents b (share m' m) v;
}.

(** What else a request for a page may do: a memory served in mode [Total] returns
    every page it represents, one in mode [Safe] returns a page or an error. *)
Class PagedMemoryServes (M : Type) `{PL : PagedMemoryLaws M} (t : mode) :=
  get_page_serves : forall b m v i,
    represents b m v -> 0 <= i -> is_Some (v !! i) ->
    wp t (get_page i) m (fun _ _ => True).
#[export] Instance serves_partial M `{PL : PagedMemoryLaws M} : PagedMemoryServes M Partial.
Proof. intros b m v i _ _ _. apply wp_true. Qed.

(** ** VecMemory *)

Record VecMemory : Type := mkVecMemory { pages : list Page }.

Definition vec_new (n_pages : nat) : VecMemory :=
  mkVecMemory (replicate n_pages (replicate 256 0)).

Definition vec_get_page (page_index : Z) : ST VecMemory MemoryError nat :=
  fun m =>
    match pages m !! Z.to_nat page_index with
    | Some _ => (Ok (Z.to_nat page_index), m)
    | None => (Err PageNotFound, m)
    end.

#[export] Instance VecMemory_paged : PagedMemory VecMemory := {
  PageRef := nat;
  get_page := vec_get_page;
  deref := fun m h => default [] (pages m !! h);
  deref_mut := fun m h f => mkVecMemory (alter f h (pages m));
  share := fun _ m => m;
}.

(** ** MemorySegment *)

Record MemorySegment (M : Type) : Type := mkMemorySegment {
  start_address : Z;
  size : Z;
  paged_memory : M;
}.
Arguments mkMemorySegment {M} start_address size paged_memory.
Arguments start_address {M} m.
Arguments size {M} m.
Arguments paged_memory {M} m.

Section segment.
Context {M : Type} `{PM : PagedMemory M}.

Definition segment_new (start_address size : Z) (paged_memory : M)
    : outcome MemoryError (MemorySegment M) :=
  if size =? 0 then Err ZeroSize
  else if negb (start_address mod 2 =? 0) then Err StartAddressNotAligned
  else
    match u32_checked_add start_address (size - 1) with
    | None => Err Overflow
    | Some _ => Ok (mkMemorySegment start_address size paged_memory)
    end.

Definition contains (seg : MemorySegment M) (address : Z) : bool :=
  (start_address seg <=? address) && (address <? u32_add (start_address seg) (size seg)).

(** [address < start || address > start + size - k], the bounds check of the
    accesses of [k] bytes. *)
Definition out_of_bounds (seg : MemorySegment M) (address k : Z) : bool :=
  (address <? start_address seg)
  || (u32_sub (u32_add (start_address seg) (size seg)) k <? address).

(** The page index and the offset in the page of an address. *)
Definition locate (seg : MemorySegment M) (address : Z) : Z * Z :=
  let relative_address := u32_sub address (page_start (start_address seg)) in
  (relative_address / PAGE_SIZE, relative_address mod PAGE_SIZE).

Definition seg_get_page (page_index : Z) : ST (MemorySegment M) MemoryError PageRef :=
  zoom paged_memory (fun m s => mkMemorySegment (start_address s) (size s) m) (get_page page_index).
Definition seg_deref (page : PageRef) : ST (MemorySegment M) MemoryError Page :=
  gets (fun s => deref (paged_memory s) page).
(** Writes through the page reference; an out-of-range index panics. *)
Definition seg_write_page (page : PageRef) (f : Page -> option Page)
    : ST (MemorySegment M) MemoryError unit :=
  p ← seg_deref page;
  match f p with
  | None => panic
  | Some p' =>
      modify (fun s => mkMemorySegment (start_address s) (size s)
                         (deref_mut (paged_memory s) page (fun _ => p')))
  end.

(** [page.data[i]] and [page.data[i] = b]. *)
Definition byte_at (p : Page) (i : Z) : outcome MemoryError Z := unwrap (p !! Z.to_nat i).
Definition set_byte (i b : Z) (p : Page) : option Page :=
  if i <? Z.of_nat (length p) then Some (<[Z.to_nat i := b]> p) else None.

Definition read_u8 (address : Z) : ST (MemorySegment M) MemoryError Z :=
  seg ← get;
  if out_of_bounds seg address 1 then fail AddressOutOfBounds
  else
    let '(page_index, offset) := locate seg address in
    page ← seg_get_page page_index;
    p ← seg_deref page;
    lift (byte_at p offset).

Definition read_u16 (address : Z) : ST (MemorySegment M) MemoryError Z :=
  seg ← get;
  if out_of_bounds seg address 2 then fail AddressOutOfBounds
  else if negb (address mod 2 =? 0) then fail UnalignedAddress
  else
    let '(page_index, offset) := locate seg address in
    page ← seg_get_page page_index;
    p ← seg_deref page;
    lift (b0 ← byte_at p offset;
          b1 ← byte_at p (offset + 1);
          mret (le_value [b0; b1])).

Definition read_u32 (address : Z) : ST (MemorySegment M) MemoryError Z :=
  seg ← get;
  if out_of_bounds seg address 4 then fail AddressOutOfBounds
  else if negb (address mod 4 =? 0) then fail UnalignedAddress
  else
    let '(page_index, offset) := locate seg address in
    page ← seg_get_page page_index;
    p ← seg_deref page;
    lift (b0 ← byte_at p offset;
          b1 ← byte_at p (offset + 1);
          b2 ← byte_at p (offset + 2);
          b3 ← byte_at p (offset + 3);
          mret (le_value [b0; b1; b2; b3])).

Definition write_u8 (address value : Z) : ST (MemorySegment M) MemoryError unit :=
  seg ← get;
  if out_of_bounds seg address 1 then fail AddressOutOfBounds
  else
    let '(page_index, offset) := locate seg address in
    page ← seg_get_page page_index;
    seg_write_page page (set_byte offset value).

Definition write_u16 (address value : Z) : ST (MemorySegment M) MemoryError unit :=
  seg ← get;
  if out_of_bounds seg address 2 then fail AddressOutOfBounds
  else if negb (address mod 2 =? 0) then fail UnalignedAddress
  else
    let '(page_index, offset) := locate seg address in
    page ← seg_get_page page_index;
    seg_write_page page (fun p =>
      p ← set_byte offset (w8 value) p;
      set_byte (offset + 1) (w8 (Z.shiftr value 8)) p).

Definition write_u32 (address value : Z) : ST (MemorySegment M) MemoryError unit :=
  seg ← get;
  if out_of_bounds seg address 4 then fail AddressOutOfBounds
  else if negb (address mod 4 =? 0) then fail UnalignedAddress
  else
    let '(page_index, offset) := locate seg address in
    page ← seg_get_page page_index;
    seg_write_page page (fun p =>
      p ← set_byte offset (w8 value) p;
      p ← set_byte (offset + 1) (w8 (Z.shiftr value 8)) p;
      p ← set_byte (offset + 2) (w8 (Z.shiftr value 16)) p;
      set_byte (offset + 3) (w8 (Z.shiftr value 24)) p).

(** The checks of [read_buffer] and [write_buffer] on the whole range. *)
Definition buffer_bounds (address len : Z) : ST (MemorySegment M) MemoryError unit :=
  seg ← get;
  end_address ← lift (ok_or (u32_checked_add address (w32 len)) Overflow);
  if (address <? start_address seg)
     || (u32_add (start_address seg) (size seg) <? end_address)
  then fail AddressOutOfBounds
  else mret tt.

(** The loops run at most once per byte: [fuel] is the length of the buffer plus one. *)
Fixpoint read_buffer_loop (fuel : nat) (current_address bytes_read : Z) (buffer : list Z)
    : ST (MemorySegment M) MemoryError (list Z) :=
  match fuel with
  | O => diverge
  | S fuel =>
      if bytes_read <? Z.of_nat (length buffer) then
        seg ← get;
        let '(page_index, offset) := locate seg current_address in
        let remaining_in_page := PAGE_SIZE - offset in
        let bytes_to_read := Z.min remaining_in_page (Z.of_nat (length buffer) - bytes_read) in
        page ← seg_get_page page_index;
        p ← seg_deref page;
        let buffer :=
          splice (Z.to_nat bytes_read) (slice (Z.to_nat offset) (Z.to_nat bytes_to_read) p) buffer in
        read_buffer_loop fuel (u32_add current_address bytes_to_read) (bytes_read + bytes_to_read)
          buffer
      else mret buffer
  end.

(** Returns the buffer filled from memory. *)
Definition read_buffer (address : Z) (buffer : list Z)
    : ST (MemorySegment M) MemoryError (list Z) :=
  buffer_bounds address (Z.of_nat (length buffer));;
  read_buffer_loop (S (length buffer)) address 0 buffer.

Fixpoint write_buffer_loop (fuel : nat) (current_address bytes_written : Z) (buffer : list Z)
    : ST (MemorySegment M) MemoryError unit :=
  match fuel with
  | O => diverge
  | S fuel =>
      if bytes_written <? Z.of_nat (length buffer) then
        seg ← get;
        let '(page_index, offset) := locate seg current_address in
        let remaining_in_page := PAGE_SIZE - offset in
        let bytes_to_write :=
          Z.min remaining_in_page (Z.of_nat (length buffer) - bytes_written) in
        page ← seg_get_page page_index;
        seg_write_page page (fun p =>
          Some (splice (Z.to_nat offset)
                  (slice (Z.to_nat bytes_written) (Z.to_nat bytes_to_write) buffer) p));;
        write_buffer_loop fuel (u32_add current_address bytes_to_write)
          (bytes_written + bytes_to_write) buffer
      else mret tt
  end.

Definition write_buffer (address : Z) (buffer : list Z)
    : ST (MemorySegment M) MemoryError unit :=
  buffer_bounds address (Z.of_nat (length buffer));;
  write_buffer_loop (S (length buffer)) address 0 buffer.

End segment.
