(* ===== verification/MemorySpec.v ===== *)
(** * Memory segments refine a flat memory

    The contents of a segment, whatever the paged memory under it, is a map from
    addresses to bytes ([flat]); the accesses of [Memory] read and update that
    map, and nothing else. *)

From S2P Require Import Prelude Memory.

(** ** The flat contents *)

(** The byte at an address, given the pages of a segment that starts at [start]. *)
Definition flat (start : Z) (v : gmap Z Page) (a : Z) : option Z :=
  p ← v !! ((a - page_start start) / 256);
  p !! Z.to_nat ((a - page_start start) mod 256).

(** The [n] bytes from an address on. *)
Fixpoint flat_read (start : Z) (v : gmap Z Page) (a : Z) (n : nat) : option (list Z) :=
  match n with
  | O => Some []
  | S n => b ← flat start v a; bs ← flat_read start v (a + 1) n; Some (b :: bs)
  end.

(** [v'] is [v] with the bytes [bs] stored at [a], and no other change. *)
Definition flat_updated (start : Z) (v v' : gmap Z Page) (a : Z) (bs : list Z) : Prop :=
  forall x, flat start v' x =
    if decide (a <= x < a + Z.of_nat (length bs)) then bs !! Z.to_nat (x - a)
    else flat start v x.

(** The segments whose end is below the top of the address space: the address
    arithmetic of the accesses does not wrap on them. *)
Record seg_ok {M} (seg : MemorySegment M) : Prop := {
  sok_start : 0 <= start_address seg;
  sok_even : start_address seg mod 2 = 0;
  sok_size : 0 < size seg;
  sok_end : start_address seg + size seg < 2 ^ 32;
  sok_low : 4 <= start_address seg + size seg;
}.

(** [k] bytes at [a] are inside the segment. *)
Definition in_seg {M} (seg : MemorySegment M) (a k : Z) : Prop :=
  start_address seg <= a /\ a + k <= start_address seg + size seg.
(** The paged memory has the pages of the segment's addresses. *)
Definition seg_covered {M} (seg : MemorySegment M) (v : gmap Z Page) : Prop :=
  forall a, in_seg seg a 1 -> is_Some (v !! ((a - page_start (start_address seg)) / 256)).
Definition same_range {M N} (seg : MemorySegment M) (seg' : MemorySegment N) : Prop :=
  start_address seg = start_address seg' /\ size seg = size seg'.

Lemma page_start_eq a : 0 <= a < 2 ^ 32 -> page_start a = 256 * (a / 256).
Proof.
  intros Ha. unfold page_start, u32_not. change (w32 (Z.lnot (PAGE_SIZE - 1))) with (0 + 2 ^ 8 * (2 ^ 24 - 1)).
  pose proof (Z.div_mod a 256 ltac:(lia)). pose proof (Z.mod_pos_bound a 256 ltac:(lia)).
  replace a with (a mod 256 + 2 ^ 8 * (a / 256)) at 1 by lia.
  rewrite land_split by lia. rewrite Z.land_0_r, land_mask by lia.
  rewrite Z.mod_small by dlia. lia.
Qed.

Lemma page_start_mod a x : 0 <= a < 2 ^ 32 -> (x - page_start a) mod 256 = x mod 256.
Proof.
  intros Ha. rewrite page_start_eq by done.
  rewrite <- (Z.mod_add (x - 256 * (a / 256)) (a / 256)) by lia. f_equal. lia.
Qed.

Lemma page_start_le a : 0 <= a < 2 ^ 32 -> 0 <= page_start a <= a.
Proof. intros. rewrite page_start_eq by done. dlia. Qed.

Lemma flat_in_page start v a p n :
  v !! ((a - page_start start) / 256) = Some p ->
  (a - page_start start) mod 256 + Z.of_nat n <= 256 -> page_ok p ->
  flat_read start v a n = Some (slice (Z.to_nat ((a - page_start start) mod 256)) n p).
Proof.
  intros Hp Hn Hok. revert a Hp Hn.
  induction n as [|n IH]; intros a Hp Hn; simpl; [done|].
  set (o := (a - page_start start) mod 256) in *.
  pose proof (Z.mod_pos_bound (a - page_start start) 256 ltac:(lia)) as Ho. fold o in Ho.
  assert (is_Some (p !! Z.to_nat o)) as [b Hb] by (apply lookup_lt_is_Some; destruct Hok; lia).
  assert (flat start v a = Some b) as ->.
  { unfold flat. rewrite Hp. simpl. exact Hb. }
  simpl. destruct n as [|n].
  - simpl. unfold slice. erewrite drop_S by exact Hb. done.
  - assert (o + 1 < 256) as Hlt by lia.
    assert ((a + 1 - page_start start) / 256 = (a - page_start start) / 256
            /\ (a + 1 - page_start start) mod 256 = o + 1) as [Hq Hr] by (subst o; dlia).
    rewrite IH; [|by rewrite Hq|rewrite Hr; lia].
    simpl. rewrite Hr. unfold slice. erewrite (drop_S _ _ (Z.to_nat o)) by exact Hb.
    replace (Z.to_nat (o + 1)) with (S (Z.to_nat o)) by lia. done.
Qed.

Lemma flat_read_app start v a n1 n2 :
  flat_read start v a (n1 + n2) =
    (x ← flat_read start v a n1; y ← flat_read start v (a + Z.of_nat n1) n2; Some (x ++ y)).
Proof.
  revert a; induction n1 as [|n1 IH]; intros a; simpl.
  - rewrite Z.add_0_r. by destruct (flat_read start v a n2).
  - destruct (flat start v a); simpl; [|done]. rewrite IH.
    destruct (flat_read start v (a + 1) n1); simpl; [|done].
    replace (a + 1 + Z.of_nat n1) with (a + Z.of_nat (S n1)) by lia.
    by destruct (flat_read start v (a + Z.of_nat (S n1)) n2).
Qed.

Lemma flat_read_length start v a n l : flat_read start v a n = Some l -> length l = n.
Proof.
  revert a l; induction n as [|n IH]; intros a l; simpl; [by intros [= <-]|].
  destruct (flat start v a); simpl; [|done].
  destruct (flat_read start v (a + 1) n) eqn:E; simpl; [|done].
  intros [= <-]. simpl. f_equal. eauto.
Qed.

(** Reading back an updated range, and reading elsewhere. *)
Lemma flat_read_lookup start v a n l i :
  flat_read start v a n = Some l -> (i < n)%nat -> flat start v (a + Z.of_nat i) = l !! i.
Proof.
  revert a l i; induction n as [|n IH]; intros a l i; simpl; [lia|].
  destruct (flat start v a) eqn:E; simpl; [|done].
  destruct (flat_read start v (a + 1) n) eqn:E'; simpl; [|done].
  intros [= <-] Hi. destruct i as [|i]; simpl; [by rewrite Z.add_0_r|].
  rewrite <- (IH _ _ i E') by lia. f_equal. lia.
Qed.

Lemma flat_read_intro start v a l :
  (forall i, (i < length l)%nat -> flat start v (a + Z.of_nat i) = l !! i) ->
  flat_read start v a (length l) = Some l.
Proof.
  revert a; induction l as [|b l IH]; intros a H; simpl; [done|].
  pose proof (H 0%nat ltac:(simpl; lia)) as H0.
  replace (a + Z.of_nat 0) with a in H0 by lia. rewrite H0. simpl.
  rewrite IH; [done|]. intros i Hi.
  replace (a + 1 + Z.of_nat i) with (a + Z.of_nat (S i)) by lia.
  rewrite H by (simpl; lia). done.
Qed.

Lemma flat_updated_read start v v' a bs :
  flat_updated start v v' a bs -> flat_read start v' a (length bs) = Some bs.
Proof.
  intros H. apply flat_read_intro. intros i Hi. rewrite H.
  rewrite decide_True by lia. f_equal. lia.
Qed.

Lemma flat_read_ext start v v' a n :
  (forall x, a <= x < a + Z.of_nat n -> flat start v' x = flat start v x) ->
  flat_read start v' a n = flat_read start v a n.
Proof.
  revert a; induction n as [|n IH]; intros a H; simpl; [done|].
  rewrite H by lia. rewrite IH; [done|]. intros x Hx. apply H. lia.
Qed.

(** Storing bytes in one page updates the flat contents there. *)
Lemma flat_store start v a p bs :
  v !! ((a - page_start start) / 256) = Some p ->
  (a - page_start start) mod 256 + Z.of_nat (length bs) <= 256 -> page_ok p ->
  flat_updated start v
    (<[(a - page_start start) / 256 :=
         splice (Z.to_nat ((a - page_start start) mod 256)) bs p]> v) a bs.
Proof.
  intros Hp Hn [Hlen _] x. unfold flat.
  set (r := a - page_start start) in *. set (rx := x - page_start start).
  assert (x - a = rx - r) as Hd by lia.
  pose proof (Z.div_mod r 256 ltac:(lia)). pose proof (Z.mod_pos_bound r 256 ltac:(lia)).
  pose proof (Z.div_mod rx 256 ltac:(lia)). pose proof (Z.mod_pos_bound rx 256 ltac:(lia)).
  destruct (decide (r / 256 = rx / 256)) as [E|E].
  - rewrite <- E, lookup_insert_eq, Hp. simpl. rewrite lookup_splice by lia.
    destruct (decide (a <= x < a + Z.of_nat (length bs))).
    + rewrite decide_True by lia. f_equal. lia.
    + by rewrite decide_False by lia.
  - rewrite lookup_insert_ne by done. rewrite decide_False; [done|]. intros Hx.
    apply E. assert (0 <= rx - r < 256 - r mod 256) by lia. nia.
Qed.

(** ** Bytes of a page *)

Lemma set_byte_splice o (bs p : list Z) b :
  (o + length bs < length p)%nat ->
  set_byte (Z.of_nat (o + length bs)) b (splice o bs p) = Some (splice o (bs ++ [b]) p).
Proof.
  intros H. unfold set_byte. rewrite length_splice by lia.
  rewrite (proj2 (Z.ltb_lt _ _)) by lia. f_equal. rewrite Nat2Z.id.
  apply list_eq. intros i.
  rewrite lookup_splice by lia. rewrite length_app. simpl.
  destruct (decide (i = o + length bs)%nat) as [->|Hne].
  - rewrite list_lookup_insert_eq by (rewrite length_splice; lia).
    rewrite decide_True by lia. rewrite lookup_app_r by lia.
    by replace (o + length bs - o - length bs)%nat with 0%nat by lia.
  - rewrite list_lookup_insert_ne by done. rewrite lookup_splice by lia.
    destruct (decide (o <= i < o + length bs)%nat).
    + rewrite decide_True by lia. by rewrite lookup_app_l by lia.
    + by rewrite decide_False by lia.
Qed.

Lemma splice_nil {A} o (p : list A) : splice o [] p = p.
Proof. unfold splice. simpl. by rewrite Nat.add_0_r, take_drop. Qed.

Lemma splice_page_ok o bs p :
  page_ok p -> bytes_ok bs -> (o + length bs <= 256)%nat -> page_ok (splice o bs p).
Proof.
  intros [Hl Hb] Hbs Ho. split; [by rewrite length_splice by lia|].
  unfold splice. rewrite !Forall_app. eauto using Forall_take, Forall_drop.
Qed.

(** The stores of [write_u8], [write_u16] and [write_u32], byte by byte. *)
Lemma shiftr_le v n : Z.shiftr v (8 * Z.of_nat (S n)) = Z.shiftr (v / 256) (8 * Z.of_nat n).
Proof.
  rewrite !Z.shiftr_div_pow2 by lia. change 256 with (2 ^ 8).
  rewrite Z.div_div by lia. rewrite <- Z.pow_add_r by lia. do 2 f_equal. lia.
Qed.

Lemma le_bytes_snoc n v : le_bytes (S n) v = le_bytes n v ++ [w8 (Z.shiftr v (8 * Z.of_nat n))].
Proof.
  revert v; induction n as [|n IH]; intros v; [by rewrite Z.shiftr_0_r|].
  rewrite shiftr_le. change (le_bytes (S (S n)) v) with (w8 v :: le_bytes (S n) (v / 256)).
  rewrite IH. done.
Qed.

Lemma set_bytes_snoc n o v p : 0 <= o -> o + Z.of_nat n < Z.of_nat (length p) ->
  set_byte (o + Z.of_nat n) (w8 (Z.shiftr v (8 * Z.of_nat n))) (splice (Z.to_nat o) (le_bytes n v) p)
  = Some (splice (Z.to_nat o) (le_bytes (S n) v) p).
Proof.
  intros Ho Hp. rewrite le_bytes_snoc, <- set_byte_splice by (rewrite length_le_bytes; lia).
  rewrite length_le_bytes. do 2 f_equal. lia.
Qed.

Lemma set_byte_first o v p : 0 <= o -> o < Z.of_nat (length p) ->
  set_byte o (w8 v) p = Some (splice (Z.to_nat o) (le_bytes 1 v) p).
Proof.
  intros Ho Hp. pose proof (set_bytes_snoc 0 o v p Ho ltac:(lia)) as E.
  change (le_bytes 0 v) with (@nil Z) in E. change (8 * Z.of_nat 0) with 0 in E.
  by rewrite Z.add_0_r, splice_nil, Z.shiftr_0_r in E.
Qed.

Lemma set_bytes_2 o v p : 0 <= o -> o + 2 <= Z.of_nat (length p) ->
  (q ← set_byte o (w8 v) p; set_byte (o + 1) (w8 (Z.shiftr v 8)) q)
  = Some (splice (Z.to_nat o) (le_bytes 2 v) p).
Proof.
  intros Ho Hp. rewrite set_byte_first by lia. cbn [mbind option_bind].
  exact (set_bytes_snoc 1 o v p Ho ltac:(lia)).
Qed.

Lemma set_bytes_4 o v p : 0 <= o -> o + 4 <= Z.of_nat (length p) ->
  (q ← set_byte o (w8 v) p;
   q ← set_byte (o + 1) (w8 (Z.shiftr v 8)) q;
   q ← set_byte (o + 2) (w8 (Z.shiftr v 16)) q;
   set_byte (o + 3) (w8 (Z.shiftr v 24)) q)
  = Some (splice (Z.to_nat o) (le_bytes 4 v) p).
Proof.
  intros Ho Hp. rewrite set_byte_first by lia. cbn [mbind option_bind].
  pose proof (set_bytes_snoc 1 o v p Ho ltac:(lia)) as E1.
  change (8 * Z.of_nat 1) with 8 in E1. change (Z.of_nat 1) with 1 in E1. rewrite E1. cbn [mbind option_bind].
  pose proof (set_bytes_snoc 2 o v p Ho ltac:(lia)) as E2.
  change (8 * Z.of_nat 2) with 16 in E2. change (Z.of_nat 2) with 2 in E2. rewrite E2. cbn [mbind option_bind].
  exact (set_bytes_snoc 3 o v p Ho ltac:(lia)).
Qed.

Lemma byte_at_slice p o n i :
  0 <= o -> 0 <= i < Z.of_nat n -> o + Z.of_nat n <= Z.of_nat (length p) ->
  exists b, byte_at p (o + i) = Ok b /\ slice (Z.to_nat o) n p !! Z.to_nat i = Some b.
Proof.
  intros Ho Hi Hp.
  assert (is_Some (p !! Z.to_nat (o + i))) as [b Hb] by (apply lookup_lt_is_Some; lia).
  exists b. unfold byte_at. rewrite Hb. split; [done|].
  rewrite lookup_slice, decide_True by lia. rewrite <- Hb. f_equal. lia.
Qed.

Lemma list_of_lookups_2 (l : list Z) a b :
  length l = 2%nat -> l !! 0%nat = Some a -> l !! 1%nat = Some b -> l = [a; b].
Proof. destruct l as [|x [|y []]]; simpl; congruence. Qed.
Lemma list_of_lookups_4 (l : list Z) a b c d :
  length l = 4%nat -> l !! 0%nat = Some a -> l !! 1%nat = Some b -> l !! 2%nat = Some c ->
  l !! 3%nat = Some d -> l = [a; b; c; d].
Proof. destruct l as [|x [|y [|z [|w []]]]]; simpl; congruence. Qed.

(** ** The accesses *)

Inductive width : Type := W8 | W16 | W32.
Definition width_bytes (w : width) : Z := match w with W8 => 1 | W16 => 2 | W32 => 4 end.

Section access.
Context {M : Type} `{PL : PagedMemoryLaws M} {t : mode} `{Serves : !PagedMemoryServes M t}.

Implicit Types (seg : MemorySegment M) (v : gmap Z Page) (b : bool).

Definition seg_rep b (seg : MemorySegment M) (v : gmap Z Page) : Prop :=
  represents b (paged_memory seg) v.
Definition seg_with (seg : MemorySegment M) (m : M) : MemorySegment M :=
  mkMemorySegment (start_address seg) (size seg) m.

(** What holds of the segment right after a page was obtained. *)
Record page_at b (seg seg' : MemorySegment M) (v : gmap Z Page) (i : Z) (h : PageRef) (p : Page)
    : Prop := {
  pa_range : same_range seg seg';
  pa_rep : seg_rep b seg' v;
  pa_page : v !! i = Some p;
  pa_ok : page_ok p;
  pa_deref : deref (paged_memory seg') h = p;
  pa_update : forall p', b = true -> page_ok p' ->
    seg_rep b (seg_with seg' (deref_mut (paged_memory seg') h (fun _ => p'))) (<[i := p']> v);
}.

Lemma same_range_refl (seg : MemorySegment M) : same_range seg seg.
Proof. done. Qed.

Lemma wp_seg_get_page {b} seg v i Q :
  seg_rep b seg v -> 0 <= i -> is_Some (v !! i) ->
  (forall h seg' p, page_at b seg seg' v i h p -> Q h seg') ->
  wp t (seg_get_page i) seg Q.
Proof.
  intros Hr Hi Hc HQ. unfold seg_get_page. apply wp_zoom.
  pose proof (get_page_serves _ _ _ i Hr Hi Hc) as Hs. unfold wp in *.
  destruct (get_page i (paged_memory seg)) as [[h| | |] m'] eqn:E; try done.
  destruct Hc as [p Hp]. destruct (get_page_ok _ _ _ _ _ _ _ Hr Hi Hp E) as (Hr' & Hd & Hu).
  apply (HQ _ _ p). split; try done; [by apply (represents_ok _ _ _ _ _ Hr Hp)|].
  intros p' Hb Hp'. by apply (Hu (fun _ => p')).
Qed.

Lemma locate_in_seg seg a :
  seg_ok seg -> in_seg seg a 1 ->
  locate seg a = ((a - page_start (start_address seg)) / 256,
                  (a - page_start (start_address seg)) mod 256).
Proof.
  intros [] [H1 H2]. unfold locate, u32_sub, PAGE_SIZE.
  pose proof (page_start_le (start_address seg) ltac:(lia)).
  by rewrite w32_small by lia.
Qed.

Lemma page_index_pos seg a :
  seg_ok seg -> in_seg seg a 1 -> 0 <= (a - page_start (start_address seg)) / 256.
Proof.
  intros [] [H1 H2]. pose proof (page_start_le (start_address seg) ltac:(lia)).
  apply Z.div_pos; lia.
Qed.

Lemma out_of_bounds_false seg a k :
  seg_ok seg -> 0 <= a -> 1 <= k <= 4 -> out_of_bounds seg a k = false -> in_seg seg a k.
Proof.
  intros [] Ha Hk. unfold out_of_bounds, in_seg, u32_sub, u32_add.
  rewrite (w32_small (start_address seg + size seg)) by lia. rewrite w32_small by lia. lia.
Qed.
Lemma in_seg_not_out seg a k :
  seg_ok seg -> 1 <= k <= 4 -> in_seg seg a k -> out_of_bounds seg a k = false.
Proof.
  intros [] Hk []. unfold out_of_bounds, u32_sub, u32_add.
  rewrite (w32_small (start_address seg + size seg)) by lia. rewrite w32_small by lia. lia.
Qed.

Definition checked_access {A} (a k : Z) (K : Z -> PageRef -> ST (MemorySegment M) MemoryError A)
    : ST (MemorySegment M) MemoryError A :=
  seg ← get;
  if out_of_bounds seg a k then fail AddressOutOfBounds
  else if negb (a mod k =? 0) then fail UnalignedAddress
  else
    let '(page_index, offset) := locate seg a in
    page ← seg_get_page page_index;
    K offset page.

Definition access_ok (seg : MemorySegment M) (a k : Z) : Prop :=
  in_seg seg a k /\ a mod k = 0.

Lemma wp_checked_access {A} {b} seg v a k
    (K : Z -> PageRef -> ST (MemorySegment M) MemoryError A) Q :
  seg_ok seg -> seg_rep b seg v -> seg_covered seg v -> 0 <= a -> k = 1 \/ k = 2 \/ k = 4 ->
  (t = Total -> access_ok seg a k) ->
  (forall h seg' p off,
     in_seg seg a k -> a mod k = 0 ->
     off = (a - page_start (start_address seg)) mod 256 -> 0 <= off -> off + k <= 256 ->
     page_at b seg seg' v ((a - page_start (start_address seg)) / 256) h p ->
     wp t (K off h) seg' Q) ->
  wp t (checked_access a k K) seg Q.
Proof.
  intros Hok Hr Hcv Ha Hk Ht HK. unfold checked_access. apply wp_bind, wp_get.
  destruct (out_of_bounds seg a k) eqn:Eo.
  { apply wp_fail. destruct t; [|done..]. destruct (Ht eq_refl) as (Hi & _).
    rewrite in_seg_not_out in Eo by (done || lia). done. }
  apply out_of_bounds_false in Eo; [|done|lia|lia].
  destruct (Z.eqb_spec (a mod k) 0) as [Em|Em]; cbn [negb].
  2: { apply wp_fail. destruct t; [|done..]. by destruct (Ht eq_refl). }
  assert (in_seg seg a 1) as Hi1 by (destruct Eo; split; lia).
  rewrite locate_in_seg by done. apply wp_bind, (wp_seg_get_page (b:=b) _ v); [done|by apply page_index_pos|by apply Hcv|].
  intros h seg' p Hp. eapply (HK h seg' p); try done.
  - dlia.
  - rewrite page_start_mod by (destruct Hok; lia). destruct Hk as [->|[->| ->]]; dlia.
Qed.

Lemma read_u8_access a : read_u8 a = checked_access a 1 (fun o h => p ← seg_deref h; lift (byte_at p o)).
Proof. unfold read_u8, checked_access. by rewrite Z.mod_1_r. Qed.
Lemma write_u8_access a x : write_u8 a x = checked_access a 1 (fun o h => seg_write_page h (set_byte o x)).
Proof. unfold write_u8, checked_access. by rewrite Z.mod_1_r. Qed.

(** What a read of [k] bytes gives. *)
Definition read_post b (seg : MemorySegment M) (v : gmap Z Page) (a : Z) (k : nat)
    (x : Z) (seg' : MemorySegment M) : Prop :=
  in_seg seg a (Z.of_nat k) /\ a mod Z.of_nat k = 0 /\ same_range seg seg' /\ seg_rep b seg' v /\
  exists bs, flat_read (start_address seg) v a k = Some bs /\ bytes_ok bs /\ x = le_value bs.

Lemma page_at_read {b} seg seg' v a h p k :
  page_at b seg seg' v ((a - page_start (start_address seg)) / 256) h p ->
  (a - page_start (start_address seg)) mod 256 + Z.of_nat k <= 256 ->
  let bs := slice (Z.to_nat ((a - page_start (start_address seg)) mod 256)) k p in
  flat_read (start_address seg) v a k = Some bs /\ bytes_ok bs /\ length bs = k.
Proof.
  intros [] Hk bs. split; [by apply flat_in_page|]. destruct pa_ok0 as [Hl Hb].
  split; [by apply Forall_take, Forall_drop|]. apply length_slice.
  pose proof (Z.mod_pos_bound (a - page_start (start_address seg)) 256 ltac:(lia)). lia.
Qed.

Lemma read_u8_spec {b} seg v a :
  seg_ok seg -> seg_rep b seg v -> seg_covered seg v -> 0 <= a -> (t = Total -> access_ok seg a 1) ->
  wp t (read_u8 a) seg (read_post b seg v a 1).
Proof.
  intros Hok Hr Hcv Ha Ht. rewrite read_u8_access. apply (wp_checked_access (b:=b) _ v); eauto.
  intros h seg' p off Hin Hal -> Ho Hoff Hp. apply wp_bind, wp_gets.
  destruct (page_at_read _ _ _ _ _ _ 1 Hp ltac:(lia)) as (Hf & Hb & Hl).
  destruct Hp as [? ? ? [Hpl _] -> _].
  destruct (byte_at_slice p _ 1 0 Ho ltac:(lia) ltac:(lia)) as (b0 & Eb & Es).
  rewrite Z.add_0_r in Eb. rewrite Eb. apply wp_lift.
  do 4 (split; [done|]). eexists. split; [exact Hf|]. split; [exact Hb|].
  destruct (slice _ 1 p) as [|x [|y l]]; simpl in *; [lia| |lia].
  injection Es as ->. lia.
Qed.

Lemma read_u16_spec {b} seg v a :
  seg_ok seg -> seg_rep b seg v -> seg_covered seg v -> 0 <= a -> (t = Total -> access_ok seg a 2) ->
  wp t (read_u16 a) seg (read_post b seg v a 2).
Proof.
  intros Hok Hr Hcv Ha Ht. apply (wp_checked_access (b:=b) _ v); eauto.
  intros h seg' p off Hin Hal -> Ho Hoff Hp. apply wp_bind, wp_gets.
  destruct (page_at_read _ _ _ _ _ _ 2 Hp ltac:(lia)) as (Hf & Hb & Hl).
  destruct Hp as [? ? ? [Hpl _] -> _].
  destruct (byte_at_slice p _ 2 0 Ho ltac:(lia) ltac:(lia)) as (b0 & E0 & S0).
  destruct (byte_at_slice p _ 2 1 Ho ltac:(lia) ltac:(lia)) as (b1 & E1 & S1).
  rewrite Z.add_0_r in E0. rewrite E0. simpl. rewrite E1. simpl. apply wp_lift.
  do 4 (split; [done|]). eexists. split; [exact Hf|]. split; [exact Hb|].
  by rewrite (list_of_lookups_2 _ b0 b1 Hl S0 S1).
Qed.

Lemma read_u32_spec {b} seg v a :
  seg_ok seg -> seg_rep b seg v -> seg_covered seg v -> 0 <= a -> (t = Total -> access_ok seg a 4) ->
  wp t (read_u32 a) seg (read_post b seg v a 4).
Proof.
  intros Hok Hr Hcv Ha Ht. apply (wp_checked_access (b:=b) _ v); eauto.
  intros h seg' p off Hin Hal -> Ho Hoff Hp. apply wp_bind, wp_gets.
  destruct (page_at_read _ _ _ _ _ _ 4 Hp ltac:(lia)) as (Hf & Hb & Hl).
  destruct Hp as [? ? ? [Hpl _] -> _].
  destruct (byte_at_slice p _ 4 0 Ho ltac:(lia) ltac:(lia)) as (b0 & E0 & S0).
  destruct (byte_at_slice p _ 4 1 Ho ltac:(lia) ltac:(lia)) as (b1 & E1 & S1).
  destruct (byte_at_slice p _ 4 2 Ho ltac:(lia) ltac:(lia)) as (b2 & E2 & S2).
  destruct (byte_at_slice p _ 4 3 Ho ltac:(lia) ltac:(lia)) as (b3 & E3 & S3).
  rewrite Z.add_0_r in E0. rewrite E0. simpl. rewrite E1. simpl. rewrite E2. simpl.
  rewrite E3. simpl. apply wp_lift.
  do 4 (split; [done|]). eexists. split; [exact Hf|]. split; [exact Hb|].
  by rewrite (list_of_lookups_4 _ b0 b1 b2 b3 Hl S0 S1 S2 S3).
Qed.

(** What a write of the bytes [bs] does. *)
Definition write_post (seg : MemorySegment M) (v : gmap Z Page) (a : Z) (bs : list Z)
    (_ : unit) (seg' : MemorySegment M) : Prop :=
  in_seg seg a (Z.of_nat (length bs)) /\ same_range seg seg' /\
  exists v', seg_rep true seg' v' /\ dom v' = dom v /\ flat_updated (start_address seg) v v' a bs.

Lemma wp_seg_write_page seg seg' v a h p bs (f : Page -> option Page) :
  page_at true seg seg' v ((a - page_start (start_address seg)) / 256) h p ->
  in_seg seg a (Z.of_nat (length bs)) -> bytes_ok bs ->
  (a - page_start (start_address seg)) mod 256 + Z.of_nat (length bs) <= 256 ->
  f p = Some (splice (Z.to_nat ((a - page_start (start_address seg)) mod 256)) bs p) ->
  wp t (seg_write_page h f) seg' (write_post seg v a bs).
Proof.
  intros [] Hin Hbs Hk Hf. unfold seg_write_page. apply wp_bind, wp_gets.
  rewrite pa_deref0, Hf. apply wp_modify. split; [done|]. split; [done|].
  pose proof (Z.mod_pos_bound (a - page_start (start_address seg)) 256 ltac:(lia)).
  eexists. split; [apply pa_update0; [done|apply splice_page_ok; [done..|lia]]|].
  split; [|by apply flat_store].
  rewrite dom_insert_lookup_L; [done|by eexists].
Qed.

Lemma write_u8_spec seg v a x :
  seg_ok seg -> seg_rep true seg v -> seg_covered seg v -> 0 <= a -> is_u8 x -> (t = Total -> access_ok seg a 1) ->
  wp t (write_u8 a x) seg (write_post seg v a (le_bytes 1 x)).
Proof.
  intros Hok Hr Hcv Ha Hx Ht. rewrite write_u8_access. apply (wp_checked_access (b:=true) _ v); eauto.
  intros h seg' p off Hin Hal -> Ho Hoff Hp.
  eapply wp_seg_write_page; rewrite ?length_le_bytes; eauto using le_bytes_ok.
  destruct Hp as [? ? ? [? _] _ _]. rewrite <- (wrap_small 8 x Hx) at 1. apply set_byte_first; lia.
Qed.
Lemma write_u16_spec seg v a x :
  seg_ok seg -> seg_rep true seg v -> seg_covered seg v -> 0 <= a -> (t = Total -> access_ok seg a 2) ->
  wp t (write_u16 a x) seg (write_post seg v a (le_bytes 2 x)).
Proof.
  intros Hok Hr Hcv Ha Ht. apply (wp_checked_access (b:=true) _ v); eauto.
  intros h seg' p off Hin Hal -> Ho Hoff Hp.
  eapply wp_seg_write_page; rewrite ?length_le_bytes; eauto using le_bytes_ok.
  destruct Hp as [? ? ? [? _] _ _]. apply set_bytes_2; [done|lia].
Qed.
Lemma write_u32_spec seg v a x :
  seg_ok seg -> seg_rep true seg v -> seg_covered seg v -> 0 <= a -> (t = Total -> access_ok seg a 4) ->
  wp t (write_u32 a x) seg (write_post seg v a (le_bytes 4 x)).
Proof.
  intros Hok Hr Hcv Ha Ht. apply (wp_checked_access (b:=true) _ v); eauto.
  intros h seg' p off Hin Hal -> Ho Hoff Hp.
  eapply wp_seg_write_page; rewrite ?length_le_bytes; eauto using le_bytes_ok.
  destruct Hp as [? ? ? [? _] _ _]. apply set_bytes_4; [done|lia].
Qed.

(** *** The three widths together *)

Definition read_width (w : width) (a : Z) : ST (MemorySegment M) MemoryError Z :=
  match w with W8 => read_u8 a | W16 => read_u16 a | W32 => read_u32 a end.
Definition write_width (w : width) (a x : Z) : ST (MemorySegment M) MemoryError unit :=
  match w with W8 => write_u8 a x | W16 => write_u16 a x | W32 => write_u32 a x end.

Lemma read_width_spec {b} w seg v a :
  seg_ok seg -> seg_rep b seg v -> seg_covered seg v -> 0 <= a -> (t = Total -> access_ok seg a (width_bytes w)) ->
  wp t (read_width w a) seg (read_post b seg v a (Z.to_nat (width_bytes w))).
Proof. destruct w; [apply read_u8_spec|apply read_u16_spec|apply read_u32_spec]. Qed.
Lemma write_width_spec w seg v a x :
  seg_ok seg -> seg_rep true seg v -> seg_covered seg v -> 0 <= a -> is_u (8 * width_bytes w) x ->
  (t = Total -> access_ok seg a (width_bytes w)) ->
  wp t (write_width w a x) seg (write_post seg v a (le_bytes (Z.to_nat (width_bytes w)) x)).
Proof.
  destruct w; intros; [by apply write_u8_spec|by apply write_u16_spec|by apply write_u32_spec].
Qed.

Lemma checked_access_errors {A} seg a k
    (K : Z -> PageRef -> ST (MemorySegment M) MemoryError A) :
  seg_ok seg -> 0 <= a -> 1 <= k <= 4 ->
  (~ in_seg seg a k -> checked_access a k K seg = (Err AddressOutOfBounds, seg)) /\
  (in_seg seg a k -> a mod k <> 0 -> checked_access a k K seg = (Err UnalignedAddress, seg)).
Proof.
  intros Hok Ha Hk. unfold checked_access, mbind, st_mbind, st_bind, get. split.
  - intros Hn. destruct (out_of_bounds seg a k) eqn:Eo; [done|].
    apply out_of_bounds_false in Eo; done || lia.
  - intros Hi Hm. rewrite in_seg_not_out by done. by rewrite (proj2 (Z.eqb_neq _ _) Hm).
Qed.

Lemma access_errors w seg a x :
  seg_ok seg -> 0 <= a ->
  (~ in_seg seg a (width_bytes w) ->
     read_width w a seg = (Err AddressOutOfBounds, seg) /\
     write_width w a x seg = (Err AddressOutOfBounds, seg)) /\
  (in_seg seg a (width_bytes w) -> a mod width_bytes w <> 0 ->
     read_width w a seg = (Err UnalignedAddress, seg) /\
     write_width w a x seg = (Err UnalignedAddress, seg)).
Proof.
  intros Hok Ha. destruct w; cbn [read_width write_width width_bytes];
    rewrite ?read_u8_access, ?write_u8_access; split; intros; split;
    by apply checked_access_errors.
Qed.

(** *** Buffers *)

Lemma seg_ok_range seg seg' : same_range seg seg' -> seg_ok seg -> seg_ok seg'.
Proof. intros [E1 E2] []. split; by rewrite <- ?E1, <- ?E2. Qed.
Lemma in_seg_range seg seg' a k : same_range seg seg' -> in_seg seg a k -> in_seg seg' a k.
Proof. unfold in_seg. by intros [<- <-]. Qed.
Lemma same_range_trans seg1 seg2 seg3 :
  same_range seg1 seg2 -> same_range seg2 seg3 -> same_range seg1 seg3.
Proof. unfold same_range. intros [-> ->]. done. Qed.
Lemma covered_range seg seg' v v' :
  same_range seg seg' -> dom v' = dom v -> seg_covered seg v -> seg_covered seg' v'.
Proof.
  intros [E1 E2] Hd Hc a Ha. rewrite <- E1. apply elem_of_dom. rewrite Hd. apply elem_of_dom, Hc.
  unfold in_seg. by rewrite E1, E2.
Qed.

Lemma flat_updated_trans start v v1 v2 a bs1 bs2 :
  flat_updated start v v1 a bs1 ->
  flat_updated start v1 v2 (a + Z.of_nat (length bs1)) bs2 ->
  flat_updated start v v2 a (bs1 ++ bs2).
Proof.
  intros H1 H2 x. rewrite H2, length_app. case_decide.
  - rewrite decide_True by lia. rewrite lookup_app_r by lia. f_equal. lia.
  - rewrite H1. case_decide.
    + rewrite decide_True by lia. by rewrite lookup_app_l by lia.
    + by rewrite decide_False by lia.
Qed.

(** The chunk that the loops move at an address. *)
Definition chunk (start a rest : Z) : Z := Z.min (PAGE_SIZE - (a - page_start start) mod 256) rest.

Lemma wp_chunk {A} {b} seg v a rest (K : Z -> PageRef -> ST (MemorySegment M) MemoryError A) Q :
  seg_ok seg -> seg_rep b seg v -> seg_covered seg v -> 0 < rest -> in_seg seg a rest ->
  (forall h seg' p, let off := (a - page_start (start_address seg)) mod 256 in
     0 <= off -> off + chunk (start_address seg) a rest <= 256 ->
     0 < chunk (start_address seg) a rest <= rest ->
     page_at b seg seg' v ((a - page_start (start_address seg)) / 256) h p ->
     wp t (K off h) seg' Q) ->
  wp t (seg ← get; let '(page_index, offset) := locate seg a in
        page ← seg_get_page page_index; K offset page) seg Q.
Proof.
  intros Hok Hr Hcv Hrest Hin HK. apply wp_bind, wp_get.
  assert (in_seg seg a 1) as Hin1 by (destruct Hin; split; lia).
  rewrite locate_in_seg by done. apply wp_bind, (wp_seg_get_page (b:=b) _ v);
    [done|by apply page_index_pos|by apply Hcv|].
  pose proof (Z.mod_pos_bound (a - page_start (start_address seg)) 256 ltac:(lia)).
  intros h seg' p Hp. apply (HK h seg' p); unfold chunk, PAGE_SIZE in *; (done || lia).
Qed.

Lemma read_buffer_loop_spec {b} fuel seg v a k buffer :
  seg_ok seg -> seg_rep b seg v -> seg_covered seg v -> (k <= length buffer)%nat -> (length buffer - k < fuel)%nat ->
  in_seg seg a (Z.of_nat (length buffer - k)) ->
  wp t (read_buffer_loop fuel a (Z.of_nat k) buffer) seg (fun out seg' =>
    same_range seg seg' /\ seg_rep b seg' v /\ exists bs,
      flat_read (start_address seg) v a (length buffer - k) = Some bs /\ bytes_ok bs /\
      out = take k buffer ++ bs).
Proof.
  revert seg a k buffer. induction fuel as [|fuel IH]; intros seg a k buffer Hok Hr Hcv Hk Hf Hin;
    [lia|]. cbn [read_buffer_loop].
  destruct (Z.ltb_spec (Z.of_nat k) (Z.of_nat (length buffer))) as [Hlt|Hge].
  2: { apply wp_ret. do 2 (split; [done|]). exists []. replace (length buffer - k)%nat with 0%nat by lia.
       rewrite take_ge by lia. by rewrite app_nil_r. }
  replace (Z.of_nat (length buffer) - Z.of_nat k) with (Z.of_nat (length buffer - k)) by lia.
  apply (wp_chunk (b:=b) _ v _ (Z.of_nat (length buffer - k))); try done; [lia|].
  intros h seg' p off Ho Hoff Hch Hp.
  change (Z.min (PAGE_SIZE - off) _) with (chunk (start_address seg) a (Z.of_nat (length buffer - k))).
  set (c := chunk _ _ _) in *. apply wp_bind, wp_gets.
  destruct (page_at_read _ _ _ _ _ _ (Z.to_nat c) Hp ltac:(fold off; lia)) as (Hfr & Hb & Hl).
  destruct Hp as [Hrg Hr' _ _ -> _]. fold off in Hfr, Hb, Hl.
  rewrite Nat2Z.id. set (bs := slice _ _ p) in *. set (b' := splice k bs buffer).
  assert (length b' = length buffer) as Hlb by (apply length_splice; lia).
  assert (u32_add a c = a + c) as ->.
  { apply w32_small. destruct Hok, Hin. lia. }
  replace (Z.of_nat k + c) with (Z.of_nat (k + Z.to_nat c)) by lia.
  eapply wp_mono; [apply IH|].
  - by eapply seg_ok_range.
  - done.
  - by eapply covered_range.
  - lia.
  - lia.
  - eapply in_seg_range; [done|]. destruct Hin. split; lia.
  - intros out seg'' (Hrg' & Hr'' & bs' & Hfr' & Hb' & ->).
    split; [by eapply same_range_trans|]. split; [done|]. exists (bs ++ bs').
    destruct Hrg as [Hst _]. rewrite <- Hst in Hfr'.
    split; [|split].
    + replace (length buffer - k)%nat with (Z.to_nat c + (length b' - (k + Z.to_nat c)))%nat by lia.
      rewrite flat_read_app, Hfr. simpl. rewrite Z2Nat.id by lia. by rewrite Hfr'.
    + by apply Forall_app.
    + rewrite app_assoc. f_equal. unfold b', splice.
      rewrite app_assoc, take_app_le by (rewrite length_app, length_take; lia).
      apply take_ge. rewrite length_app, length_take. lia.
Qed.

Lemma write_buffer_loop_spec fuel seg v a k buffer :
  seg_ok seg -> seg_rep true seg v -> seg_covered seg v -> bytes_ok buffer ->
  (k <= length buffer)%nat -> (length buffer - k < fuel)%nat ->
  in_seg seg a (Z.of_nat (length buffer - k)) ->
  wp t (write_buffer_loop fuel a (Z.of_nat k) buffer) seg (fun _ seg' =>
    same_range seg seg' /\ exists v', seg_rep true seg' v' /\ dom v' = dom v /\
      flat_updated (start_address seg) v v' a (drop k buffer)).
Proof.
  revert seg v a k. induction fuel as [|fuel IH]; intros seg v a k Hok Hr Hcv Hbs Hk Hf Hin; [lia|].
  cbn [write_buffer_loop].
  destruct (Z.ltb_spec (Z.of_nat k) (Z.of_nat (length buffer))) as [Hlt|Hge].
  2: { apply wp_ret. split; [done|]. exists v. do 2 (split; [done|]). rewrite drop_ge by lia.
       intros x. simpl. by rewrite decide_False by lia. }
  replace (Z.of_nat (length buffer) - Z.of_nat k) with (Z.of_nat (length buffer - k)) by lia.
  apply (wp_chunk (b:=true) _ v _ (Z.of_nat (length buffer - k))); try done; [lia|].
  intros h seg' p off Ho Hoff Hch Hp.
  change (Z.min (PAGE_SIZE - off) _) with (chunk (start_address seg) a (Z.of_nat (length buffer - k))).
  set (c := chunk _ _ _) in *. rewrite Nat2Z.id.
  set (bs := slice k (Z.to_nat c) buffer).
  assert (length bs = Z.to_nat c) as Hl by (apply length_slice; lia).
  apply wp_bind. eapply wp_mono.
  { eapply (wp_seg_write_page _ _ _ _ _ _ bs); [exact Hp|..|done]; rewrite ?Hl.
    - destruct Hin; split; lia.
    - by apply Forall_take, Forall_drop.
    - fold off. lia. }
  intros _ s1 (_ & Hrg & v1 & Hr1 & Hd1 & Hu1).
  assert (u32_add a c = a + c) as ->.
  { apply w32_small. destruct Hok, Hin. lia. }
  replace (Z.of_nat k + c) with (Z.of_nat (k + Z.to_nat c)) by lia.
  eapply wp_mono; [apply (IH s1 v1)|].
  - by eapply seg_ok_range.
  - done.
  - by eapply covered_range.
  - done.
  - lia.
  - lia.
  - eapply in_seg_range; [done|]. destruct Hin. split; lia.
  - intros _ s2 (Hrg' & v2 & Hr2 & Hd2 & Hu2).
    split; [by eapply same_range_trans|]. exists v2. split; [done|].
    split; [congruence|]. destruct Hrg as [Hst _]. rewrite <- Hst in Hu2.
    rewrite <- (take_drop (Z.to_nat c) (drop k buffer)), drop_drop.
    eapply flat_updated_trans; [exact Hu1|]. fold bs.
    change (take (Z.to_nat c) (drop k buffer)) with bs. rewrite Hl, Z2Nat.id by lia. done.
Qed.

(** The check on the whole range passes exactly for the ranges inside the segment. *)
Lemma wp_buffer_bounds seg a len Q :
  seg_ok seg -> 0 <= a -> 0 <= len < 2 ^ 32 ->
  (t = Total -> in_seg seg a len) -> (in_seg seg a len -> Q tt seg) ->
  wp t (buffer_bounds a len) seg Q.
Proof.
  intros Hok Ha Hlen Ht HQ. unfold buffer_bounds. apply wp_bind, wp_get. apply wp_bind.
  rewrite (w32_small len) by lia. unfold u32_checked_add.
  destruct (Z.ltb_spec (a + len) (2 ^ 32)) as [Hlt|Hge]; cbn [ok_or].
  - apply wp_lift. unfold u32_add. destruct Hok.
    rewrite (w32_small (start_address seg + size seg)) by lia.
    destruct (Z.ltb_spec a (start_address seg)); cbn [orb];
      [|destruct (Z.ltb_spec (start_address seg + size seg) (a + len))].
    3: { apply wp_ret, HQ. split; lia. }
    all: apply wp_fail; destruct t; [|done..]; destruct (Ht eq_refl); lia.
  - apply wp_lift_err. destruct t; [|done..]. destruct (Ht eq_refl), Hok; lia.
Qed.

Lemma read_buffer_spec {b} seg v a buffer :
  seg_ok seg -> seg_rep b seg v -> seg_covered seg v -> 0 <= a -> Z.of_nat (length buffer) < 2 ^ 32 ->
  (t = Total -> in_seg seg a (Z.of_nat (length buffer))) ->
  wp t (read_buffer a buffer) seg (fun bs seg' =>
    in_seg seg a (Z.of_nat (length buffer)) /\ same_range seg seg' /\ seg_rep b seg' v /\
    flat_read (start_address seg) v a (length buffer) = Some bs /\ bytes_ok bs).
Proof.
  intros Hok Hr Hcv Ha Hlen Ht. unfold read_buffer. apply wp_bind, wp_buffer_bounds; [done..|lia| |].
  { exact Ht. }
  intros Hin. eapply wp_mono.
  - apply (read_buffer_loop_spec (b:=b) _ _ v a 0); [done|done|done|lia|lia|by rewrite Nat.sub_0_r].
  - intros out seg' (Hrg & Hr' & bs & Hf & Hb & ->). rewrite Nat.sub_0_r in Hf. done.
Qed.

Lemma write_buffer_spec seg v a buffer :
  seg_ok seg -> seg_rep true seg v -> seg_covered seg v -> 0 <= a -> Z.of_nat (length buffer) < 2 ^ 32 -> bytes_ok buffer ->
  (t = Total -> in_seg seg a (Z.of_nat (length buffer))) ->
  wp t (write_buffer a buffer) seg (write_post seg v a buffer).
Proof.
  intros Hok Hr Hcv Ha Hlen Hb Ht. unfold write_buffer.
  apply wp_bind, wp_buffer_bounds; [done..|lia| |].
  { exact Ht. }
  intros Hin. eapply wp_mono.
  - apply (write_buffer_loop_spec _ _ v a 0); [done|done|done|done|lia|lia|by rewrite Nat.sub_0_r].
  - intros [] seg' H. done.
Qed.

End access.

Lemma range_eqs {M N} (seg : MemorySegment M) (seg' : MemorySegment N) v a k :
  same_range seg seg' ->
  start_address seg' = start_address seg /\ (in_seg seg' a k <-> in_seg seg a k) /\
  (seg_covered seg' v <-> seg_covered seg v).
Proof. intros [E1 E2]. unfold in_seg, seg_covered, in_seg. by rewrite E1, E2. Qed.

(** ** VecMemory keeps the promises *)

Definition vec_represents (m : VecMemory) (v : gmap Z Page) : Prop :=
  Forall page_ok (pages m) /\
  forall i, v !! i = if decide (0 <= i) then pages m !! Z.to_nat i else None.

#[export, refine] Instance VecMemory_laws : PagedMemoryLaws VecMemory := {
  represents := fun _ => vec_represents
}.
Proof.
  - intros _ m v i p [Hok Hv] Hp. rewrite Hv in Hp. case_decide; [|done].
    by eapply (Forall_lookup_1 _ _ _ _ Hok).
  - intros b m v i p h m' [Hok Hv] Hi Hp. cbn. unfold vec_get_page. rewrite Hv, decide_True in Hp by done.
    rewrite Hp. intros [= <- <-]. split; [done|]. split; [by rewrite Hp|].
    intros f _ Hf. split.
    + simpl. apply Forall_alter; [done|]. intros q Hq _. simplify_eq. done.
    + intros j. simpl. destruct (decide (i = j)) as [<-|Hij].
      * by rewrite lookup_insert_eq, decide_True, list_lookup_alter_eq, Hp.
      * rewrite lookup_insert_ne, Hv by done. case_decide; [|done].
        rewrite list_lookup_alter_ne; [done|lia].
  - by intros b m v b' m' v' Hm _.
Defined.

#[export] Instance VecMemory_serves t : PagedMemoryServes VecMemory t.
Proof.
  intros b m v i [Hok Hv] Hi [p Hp]. cbn. unfold wp, vec_get_page. rewrite Hv, decide_True in Hp by done.
  by rewrite Hp.
Qed.

(** The map of pages of a [VecMemory]. *)
Fixpoint pages_from (i : Z) (l : list Page) : gmap Z Page :=
  match l with [] => ∅ | p :: l => <[i := p]> (pages_from (i + 1) l) end.
Definition vec_view (m : VecMemory) : gmap Z Page := pages_from 0 (pages m).

Lemma lookup_pages_from l i j :
  pages_from i l !! j = if decide (i <= j) then l !! Z.to_nat (j - i) else None.
Proof.
  revert i; induction l as [|p l IH]; intros i; simpl.
  - rewrite lookup_empty. by case_decide.
  - destruct (decide (i = j)) as [->|Hne].
    + rewrite lookup_insert_eq, decide_True by lia. by rewrite Z.sub_diag.
    + rewrite lookup_insert_ne, IH by done. destruct (decide (i <= j)).
      * rewrite decide_True by lia. replace (Z.to_nat (j - i)) with (S (Z.to_nat (j - (i + 1)))) by lia.
        done.
      * by rewrite decide_False by lia.
Qed.

Lemma vec_view_represents b m : Forall page_ok (pages m) -> represents b m (vec_view m).
Proof.
  intros H. split; [done|]. intros i. unfold vec_view. rewrite lookup_pages_from.
  by rewrite Z.sub_0_r.
Qed.

Lemma vec_new_ok n : Forall page_ok (pages (vec_new n)).
Proof.
  apply Forall_replicate. split; [apply length_replicate|]. apply Forall_replicate. done.
Qed.

(** ** The properties of the segments *)

Section properties.
Context {M : Type} `{PL : PagedMemoryLaws M}.
Implicit Types (seg : MemorySegment M) (v : gmap Z Page).

Lemma le_value_width w x :
  is_u (8 * width_bytes w) x -> le_value (le_bytes (Z.to_nat (width_bytes w)) x) = x.
Proof.
  intros Hx. apply le_value_bytes. unfold is_u in Hx.
  rewrite Z2Nat.id by by destruct w. rewrite Z.pow_mul_r in Hx by (destruct w; done). exact Hx.
Qed.

(** The bytes of a range after an update of a disjoint range. *)
Lemma flat_read_frame start v v' a bs b n :
  flat_updated start v v' a bs ->
  b + Z.of_nat n <= a \/ a + Z.of_nat (length bs) <= b ->
  flat_read start v' b n = flat_read start v b n.
Proof.
  intros Hu Hd. apply flat_read_ext. intros x Hx. rewrite Hu. by rewrite decide_False by lia.
Qed.

(** A read of one, two or four bytes at an aligned address of a segment, over any
    paged memory that serves its pages, returns the little-endian value of the bytes
    the memory holds there, and changes neither the segment nor its contents. *)
Theorem segment_read `{!PagedMemoryServes M Total} w seg v a b :
  seg_ok seg -> represents b (paged_memory seg) v -> in_seg seg a (width_bytes w) ->
  a mod width_bytes w = 0 -> seg_covered seg v ->
  exists bs seg',
    read_width w a seg = (Ok (le_value bs), seg') /\
    flat_read (start_address seg) v a (Z.to_nat (width_bytes w)) = Some bs /\
    same_range seg seg' /\ represents b (paged_memory seg') v.
Proof.
  intros Hok Hr Hin Hm Hc.
  destruct (wp_total _ _ _ (read_width_spec (t:=Total) (b:=b) w seg v a Hok Hr Hc ltac:(destruct Hok, Hin; lia)
              (fun _ => conj Hin Hm)))
    as (x & seg' & Hx & _ & _ & Hrg & Hr' & bs & Hf & _ & ->). eauto 10.
Qed.

(** What a write stores is what the next read of that address returns, and a write
    changes no byte outside its range: for every width, over any lawful paged memory. *)
Theorem segment_write_read w w' seg v a b x y seg1 seg2 :
  seg_ok seg -> represents true (paged_memory seg) v -> seg_covered seg v -> 0 <= a -> 0 <= b ->
  is_u (8 * width_bytes w) x ->
  write_width w a x seg = (Ok tt, seg1) -> read_width w' b seg1 = (Ok y, seg2) ->
  (b = a -> w' = w -> y = x) /\
  (b + width_bytes w' <= a \/ a + width_bytes w <= b ->
     forall y0 seg0, read_width w' b seg = (Ok y0, seg0) -> y = y0).
Proof.
  intros Hok Hr Hc Ha Hb Hx Hw Hrd.
  pose proof (fun s v => read_width_spec (t:=Partial) (b:=true) w' s v b) as Hrs.
  destruct (wp_ok _ _ _ _ _ _ (write_width_spec (t:=Partial) w seg v a x Hok Hr Hc Ha Hx ltac:(done)) Hw)
    as (_ & Hrg & v1 & Hr1 & Hd1 & Hu).
  destruct (wp_ok _ _ _ _ _ _ (Hrs seg1 v1 ltac:(by eapply seg_ok_range) Hr1 ltac:(by eapply covered_range) Hb ltac:(done)) Hrd)
    as (_ & _ & _ & _ & bs & Hf & _ & ->).
  destruct Hrg as [Hst _]. rewrite <- Hst in Hf. split.
  - intros -> ->. pose proof (flat_updated_read _ _ _ _ _ Hu) as Hf'.
    rewrite length_le_bytes in Hf'. rewrite Hf in Hf'. injection Hf' as ->.
    by apply le_value_width.
  - intros Hd y0 seg0 Hrd0.
    destruct (wp_ok _ _ _ _ _ _ (Hrs seg v Hok Hr Hc Hb ltac:(done)) Hrd0)
      as (_ & _ & _ & _ & bs0 & Hf0 & _ & ->).
    rewrite (flat_read_frame _ _ _ _ _ _ _ Hu) in Hf; [congruence|].
    rewrite length_le_bytes, !Z2Nat.id by (destruct w, w'; done). exact Hd.
Qed.

(** An access outside the segment is refused with [AddressOutOfBounds], a misaligned
    one inside it with [UnalignedAddress]; reads and writes of each width alike, and the
    segment is left as it was. *)
Theorem segment_access_errors w seg a x :
  seg_ok seg -> 0 <= a ->
  (~ in_seg seg a (width_bytes w) ->
     read_width w a seg = (Err AddressOutOfBounds, seg) /\
     write_width w a x seg = (Err AddressOutOfBounds, seg)) /\
  (in_seg seg a (width_bytes w) -> a mod width_bytes w <> 0 ->
     read_width w a seg = (Err UnalignedAddress, seg) /\
     write_width w a x seg = (Err UnalignedAddress, seg)).
Proof. apply access_errors. Qed.

(** Buffers cross pages: [write_buffer] of a range inside the segment terminates with
    the whole buffer stored and nothing else changed, [read_buffer] of the same range then
    returns it, and [read_buffer] of a disjoint range returns what it returned before. *)
Theorem segment_buffer_round_trip `{!PagedMemoryServes M Total} seg v a bs b buf :
  seg_ok seg -> represents true (paged_memory seg) v -> seg_covered seg v -> bytes_ok bs ->
  in_seg seg a (Z.of_nat (length bs)) -> in_seg seg b (Z.of_nat (length buf)) ->
  exists seg1 out out1 seg0' seg1',
    write_buffer a bs seg = (Ok tt, seg1) /\
    read_buffer b buf seg = (Ok out, seg0') /\ read_buffer b buf seg1 = (Ok out1, seg1') /\
    length out1 = length buf /\
    (b = a -> length buf = length bs -> out1 = bs) /\
    (b + Z.of_nat (length buf) <= a \/ a + Z.of_nat (length bs) <= b -> out1 = out).
Proof.
  intros Hok Hr Hc Hbs Ha Hb.
  assert (0 <= a /\ 0 <= b /\ Z.of_nat (length bs) < 2 ^ 32 /\ Z.of_nat (length buf) < 2 ^ 32)
    as (? & ? & ? & ?) by (destruct Hok, Ha, Hb; lia).
  destruct (wp_total _ _ _ (write_buffer_spec (t:=Total) seg v a bs Hok Hr Hc ltac:(done) ltac:(done) Hbs
      ltac:(done))) as ([] & seg1 & Hw & _ & Hrg & v1 & Hr1 & Hd & Hu).
  destruct (range_eqs _ _ v1 b (Z.of_nat (length buf)) Hrg) as (Est & Hin1 & Hc1).
  destruct (wp_total _ _ _ (read_buffer_spec (t:=Total) seg v b buf Hok Hr Hc ltac:(done) ltac:(done)
      ltac:(done))) as (out & seg0' & Hrd & _ & _ & _ & Hf & _).
  destruct (wp_total _ _ _ (read_buffer_spec (t:=Total) seg1 v1 b buf
      ltac:(by eapply seg_ok_range) Hr1 ltac:(by eapply covered_range) ltac:(done) ltac:(done)
      ltac:(intros _; by apply Hin1)))
    as (out1 & seg1' & Hrd1 & _ & _ & _ & Hf1 & _).
  exists seg1, out, out1, seg0', seg1'. do 3 (split; [done|]). rewrite Est in Hf1.
  split; [by eapply flat_read_length|]. split.
  - intros -> El. rewrite El, (flat_updated_read _ _ _ _ _ Hu) in Hf1. congruence.
  - intros Hdis. rewrite (flat_read_frame _ _ _ _ _ _ _ Hu Hdis) in Hf1. congruence.
Qed.

End properties.

(** C40. [MemorySegment::new] accepts exactly the nonempty ranges that start at an even
    address and whose last byte is below [2 ^ 32]; but the segment that ends at the top of
    the address space, which it accepts, contains no address, and no buffer that reaches
    its last byte can be read or written. *)
Theorem segment_new_spec {M} `{PagedMemory M} start sz (m : M) :
  is_u32 start -> is_u32 sz ->
  (forall seg, segment_new start sz m = Ok seg <->
     sz <> 0 /\ start mod 2 = 0 /\ start + sz <= 2 ^ 32 /\ seg = mkMemorySegment start sz m) /\
  (start + sz = 2 ^ 32 -> forall seg, segment_new start sz m = Ok seg ->
     (forall a, contains seg a = false) /\
     forall a buf, a + Z.of_nat (length buf) = 2 ^ 32 -> Z.of_nat (length buf) < 2 ^ 32 ->
       read_buffer a buf seg = (Err Overflow, seg) /\ write_buffer a buf seg = (Err Overflow, seg)).
Proof.
  intros [Hs0 Hs] [Hz0 Hz].
  assert (forall seg, segment_new start sz m = Ok seg <->
     sz <> 0 /\ start mod 2 = 0 /\ start + sz <= 2 ^ 32 /\ seg = mkMemorySegment start sz m) as Hnew.
  { intros seg. unfold segment_new, u32_checked_add.
    destruct (Z.eqb_spec sz 0); [naive_solver|].
    destruct (Z.eqb_spec (start mod 2) 0); cbn [negb]; [|naive_solver].
    destruct (Z.ltb_spec (start + (sz - 1)) (2 ^ 32)); [|split; [done|lia]].
    split; [intros [= <-]; split; [done|]; split; [done|]; split; [lia|done]|naive_solver]. }
  split; [exact Hnew|]. intros Htop seg (_ & _ & _ & ->)%Hnew. split.
  - intros a. unfold contains, u32_add. cbn [start_address size]. rewrite Htop.
    change (w32 (2 ^ 32)) with 0. lia.
  - intros a buf Ha Hl. unfold read_buffer, write_buffer, buffer_bounds, mbind, st_mbind, st_bind, get.
    rewrite (w32_small (Z.of_nat (length buf))) by lia. unfold u32_checked_add.
    rewrite (proj2 (Z.ltb_ge _ _)) by lia. done.
Qed.

(** *** Concrete instances *)

Definition demo_segment : MemorySegment VecMemory := mkMemorySegment 510 300 (vec_new 3).

Lemma demo_segment_ok : seg_ok demo_segment.
Proof. split; vm_compute; done. Qed.
Lemma demo_represents b : represents b (paged_memory demo_segment) (vec_view (vec_new 3)).
Proof. apply vec_view_represents, vec_new_ok. Qed.
Lemma demo_covered : seg_covered demo_segment (vec_view (vec_new 3)).
Proof.
  intros a [H1 H2]. cbn in H1, H2. change (page_start (start_address demo_segment)) with 256.
  unfold vec_view. rewrite lookup_pages_from, decide_True by dlia.
  apply lookup_lt_is_Some. change (length (pages (vec_new 3))) with 3%nat. dlia.
Qed.
Lemma demo_in a k : 510 <= a -> a + k <= 810 -> in_seg demo_segment a k.
Proof. intros. split; cbn; lia. Qed.

Lemma segment_read_witness : exists bs seg',
  read_width W32 512 demo_segment = (Ok (le_value bs), seg') /\
  flat_read (start_address demo_segment) (vec_view (vec_new 3)) 512 4 = Some bs /\
  same_range demo_segment seg' /\ represents true (paged_memory seg') (vec_view (vec_new 3)).
Proof.
  apply (segment_read W32 demo_segment _ 512 true demo_segment_ok (demo_represents true)
           (demo_in 512 4 ltac:(lia) ltac:(lia)) eq_refl demo_covered).
Defined.

Definition demo_written : MemorySegment VecMemory := snd (write_width W32 512 3735928559 demo_segment).
Lemma segment_write_read_witness : exists y seg2,
  read_width W32 512 demo_written = (Ok y, seg2) /\ y = 3735928559.
Proof.
  eexists _, _. split; [vm_compute; reflexivity|].
  refine (proj1 (segment_write_read W32 W32 demo_segment _ 512 512 3735928559 _ _ _ demo_segment_ok
           (demo_represents true) demo_covered _ _ _ _ _) eq_refl eq_refl).
  - lia.
  - lia.
  - split; vm_compute; done.
  - vm_compute. reflexivity.
  - vm_compute. reflexivity.
Defined.

Lemma segment_access_errors_witness :
  read_width W32 808 demo_segment = (Err AddressOutOfBounds, demo_segment) /\
  write_width W32 514 7 demo_segment = (Err UnalignedAddress, demo_segment).
Proof.
  split.
  - refine (proj1 (proj1 (segment_access_errors W32 demo_segment 808 0 demo_segment_ok _) _)); [lia|].
    intros [_ H]. cbn in H. lia.
  - refine (proj2 (proj2 (segment_access_errors W32 demo_segment 514 7 demo_segment_ok _) _ _));
      [lia|by apply demo_in|done].
Defined.

Lemma segment_buffer_round_trip_witness : exists seg1 out out1 seg0' seg1',
  write_buffer 510 [1; 2; 3] demo_segment = (Ok tt, seg1) /\
  read_buffer 510 [0; 0; 0] demo_segment = (Ok out, seg0') /\
  read_buffer 510 [0; 0; 0] seg1 = (Ok out1, seg1') /\ length out1 = 3%nat /\
  (510 = 510 -> 3%nat = 3%nat -> out1 = [1; 2; 3]) /\ (510 + 3 <= 510 \/ 510 + 3 <= 510 -> out1 = out).
Proof.
  apply (segment_buffer_round_trip demo_segment _ 510 [1; 2; 3] 510 [0; 0; 0] demo_segment_ok
           (demo_represents true) demo_covered).
  - solve_bytes.
  - apply demo_in; cbn; lia.
  - apply demo_in; cbn; lia.
Defined.

Lemma segment_new_spec_witness :
  exists seg, segment_new 4294967040 256 (vec_new 1) = Ok seg /\ contains seg 4294967295 = false /\
    read_buffer 4294967292 [0; 0; 0; 0] seg = (Err Overflow, seg).
Proof.
  destruct (segment_new_spec 4294967040 256 (vec_new 1) ltac:(split; vm_compute; done)
              ltac:(split; vm_compute; done)) as [_ H].
  eexists. split; [reflexivity|]. destruct (H eq_refl _ eq_refl) as [H1 H2].
  split; [apply H1|]. apply (H2 4294967292 [0; 0; 0; 0]); done.
Defined.
