(* ===== verification/Cpu.v ===== *)
(** * The RV32IMAC processor ([Cpu] of [common/src/vm.rs])

    The registers, the three memory segments, the load reservation; the accesses
    that pick a segment, the instruction fetch and [execute]. The ECALL handler is
    a parameter: a method of a handler state that also gets the whole processor. *)

From S2P Require Import Prelude Riscv Memory.

Record Cpu (M : Type) : Type := mkCpu {
  pc : Z;
  regs : list Z;
  code_seg : MemorySegment M;
  data_seg : MemorySegment M;
  stack_seg : MemorySegment M;
  reservation_addr : option Z;
}.
Arguments mkCpu {M} pc regs code_seg data_seg stack_seg reservation_addr.
Arguments pc {M} c.
Arguments regs {M} c.
Arguments code_seg {M} c.
Arguments data_seg {M} c.
Arguments stack_seg {M} c.
Arguments reservation_addr {M} c.

Inductive CpuError (E : Type) : Type :=
| EcallError (e : E)
| CpuMemoryError (e : MemoryError)
| CpuGenericError (msg : string).
Arguments EcallError {E} e.
Arguments CpuMemoryError {E} e.
Arguments CpuGenericError {E} msg.

(** Which segment a reference returned by [get_segment] points to. *)
Inductive seg_id : Type := StackSeg | DataSeg | CodeSeg.
#[export] Instance seg_id_eq_dec : EqDecision seg_id.
Proof. solve_decision. Defined.

Section cpu.
Context {M : Type} `{PM : PagedMemory M} {E : Type}.

Definition cpu_new (entrypoint : Z) (code_seg data_seg stack_seg : MemorySegment M) : Cpu M :=
  mkCpu entrypoint (replicate 32 0) code_seg data_seg stack_seg None.

Definition set_pc (x : Z) (c : Cpu M) : Cpu M :=
  mkCpu x (regs c) (code_seg c) (data_seg c) (stack_seg c) (reservation_addr c).
Definition set_regs (x : list Z) (c : Cpu M) : Cpu M :=
  mkCpu (pc c) x (code_seg c) (data_seg c) (stack_seg c) (reservation_addr c).
Definition set_reservation (x : option Z) (c : Cpu M) : Cpu M :=
  mkCpu (pc c) (regs c) (code_seg c) (data_seg c) (stack_seg c) x.
Definition seg_of (id : seg_id) (c : Cpu M) : MemorySegment M :=
  match id with StackSeg => stack_seg c | DataSeg => data_seg c | CodeSeg => code_seg c end.
(** The memories have a part in common, behind reference cells: when one is updated, the
    others see its part. *)
Definition shares (x s : MemorySegment M) : MemorySegment M :=
  mkMemorySegment (start_address s) (size s) (share (paged_memory x) (paged_memory s)).
Definition set_seg (id : seg_id) (x : MemorySegment M) (c : Cpu M) : Cpu M :=
  match id with
  | StackSeg => mkCpu (pc c) (regs c) (shares x (code_seg c)) (shares x (data_seg c)) x (reservation_addr c)
  | DataSeg => mkCpu (pc c) (regs c) (shares x (code_seg c)) x (shares x (stack_seg c)) (reservation_addr c)
  | CodeSeg => mkCpu (pc c) (regs c) x (shares x (data_seg c)) (shares x (stack_seg c)) (reservation_addr c)
  end.

(** A method of a segment of the processor, its error converted by [?]. *)
Definition with_seg {A} (id : seg_id) (m : ST (MemorySegment M) MemoryError A)
    : ST (Cpu M) (CpuError E) A :=
  zoom (seg_of id) (set_seg id) (map_err CpuMemoryError m).

(** ** Memory accesses *)

(** The chain of tests that [read_u8], [read_u16] and [read_u32] share. *)
Definition cpu_read (access : Z -> ST (MemorySegment M) MemoryError Z) (address : Z)
    : ST (Cpu M) (CpuError E) Z :=
  c ← get;
  if contains (stack_seg c) address then with_seg StackSeg (access address)
  else if contains (data_seg c) address then with_seg DataSeg (access address)
  else if contains (code_seg c) address then with_seg CodeSeg (access address)
  else fail (CpuMemoryError AddressOutOfBounds).
Definition cpu_read_u8 (address : Z) : ST (Cpu M) (CpuError E) Z := cpu_read read_u8 address.
Definition cpu_read_u16 (address : Z) : ST (Cpu M) (CpuError E) Z := cpu_read read_u16 address.
Definition cpu_read_u32 (address : Z) : ST (Cpu M) (CpuError E) Z := cpu_read read_u32 address.

(** A store of [len] bytes invalidates the reservation of a word it touches. *)
Definition invalidate_reservation (address len : Z) (c : Cpu M) : Cpu M :=
  match reservation_addr c with
  | Some res =>
      if (sat_sub address res <? 4) && (sat_sub res address <? len)
      then set_reservation None c else c
  | None => c
  end.
Definition cpu_write (access : Z -> Z -> ST (MemorySegment M) MemoryError unit)
    (len address value : Z) : ST (Cpu M) (CpuError E) unit :=
  c ← get;
  (if contains (stack_seg c) address then with_seg StackSeg (access address value)
   else if contains (data_seg c) address then with_seg DataSeg (access address value)
   else fail (CpuMemoryError AddressOutOfBounds));;
  modify (invalidate_reservation address len).
Definition cpu_write_u8 (address value : Z) : ST (Cpu M) (CpuError E) unit :=
  cpu_write write_u8 1 address value.
Definition cpu_write_u16 (address value : Z) : ST (Cpu M) (CpuError E) unit :=
  cpu_write write_u16 2 address value.
Definition cpu_write_u32 (address value : Z) : ST (Cpu M) (CpuError E) unit :=
  cpu_write write_u32 4 address value.

Definition get_segment (address : Z) : ST (Cpu M) (CpuError E) seg_id :=
  c ← get;
  if contains (stack_seg c) address then mret StackSeg
  else if contains (data_seg c) address then mret DataSeg
  else if contains (code_seg c) address then mret CodeSeg
  else fail (CpuMemoryError AddressOutOfBounds).

Definition fetch_instruction : ST (Cpu M) (CpuError E) Z :=
  c ← get;
  if (pc c mod 4 =? 0) && contains (code_seg c) (u32_add (pc c) 3) then
    with_seg CodeSeg (read_u32 (pc c))
  else
    inst_lo ← with_seg CodeSeg (read_u16 (pc c));
    inst_hi ← (if negb (Z.land inst_lo 3 =? 3) then mret 0
               else with_seg CodeSeg (read_u16 (u32_add (pc c) 2)));
    mret (Z.lor (Z.shiftl inst_hi 16) inst_lo).

(** ** Registers *)

(** [self.regs[i as usize]]. *)
Definition reg (i : Z) : ST (Cpu M) (CpuError E) Z :=
  c ← get; lift (unwrap (regs c !! Z.to_nat i)).
Definition set_reg (i x : Z) : ST (Cpu M) (CpuError E) unit :=
  c ← get;
  if i <? Z.of_nat (length (regs c)) then put (set_regs (<[Z.to_nat i := x]> (regs c)) c)
  else panic.

(** ** Arithmetic of the M extension *)

Definition mulh (x y : Z) : Z := w32 (Z.shiftr (as_i32 x * as_i32 y) 32).
Definition mulhsu (x y : Z) : Z := w32 (Z.shiftr (as_i32 x * y) 32).
Definition mulhu (x y : Z) : Z := w32 (Z.shiftr (w64 (x * y)) 32).
(** [i32::wrapping_div] and [i32::wrapping_rem] with a nonzero divisor. *)
Definition i32_wrapping_div (x y : Z) : Z := as_i32 (w32 (Z.quot x y)).
Definition i32_wrapping_rem (x y : Z) : Z := Z.rem x y.
Definition div (x y : Z) : Z :=
  if y =? 0 then u32_max else w32 (i32_wrapping_div (as_i32 x) (as_i32 y)).
Definition divu (x y : Z) : Z := if y =? 0 then u32_max else x / y.
Definition rem (x y : Z) : Z :=
  if y =? 0 then x else w32 (i32_wrapping_rem (as_i32 x) (as_i32 y)).
Definition remu (x y : Z) : Z := if y =? 0 then x else x mod y.

(** ** execute *)

Definition binop (rd rs1 rs2 : Z) (f : Z -> Z -> Z) : ST (Cpu M) (CpuError E) unit :=
  x ← reg rs1; y ← reg rs2; set_reg rd (f x y).
Definition immop (rd rs1 : Z) (f : Z -> Z) : ST (Cpu M) (CpuError E) unit :=
  x ← reg rs1; set_reg rd (f x).
Definition branch (rs1 rs2 imm inst_size : Z) (taken : Z -> Z -> bool) : ST (Cpu M) (CpuError E) Z :=
  x ← reg rs1; y ← reg rs2; mret (if taken x y then w32 imm else inst_size).
(** [addr & mask != 0 => return Err(msg)]. *)
Definition aligned (addr mask : Z) (msg : string) : ST (Cpu M) (CpuError E) unit :=
  lift (guard_err (negb (Z.land addr mask =? 0)) (CpuGenericError msg)).
Definition load_addr (rs1 imm : Z) : ST (Cpu M) (CpuError E) Z :=
  x ← reg rs1; mret (u32_add x (w32 imm)).

(** The read-modify-write of the AMO instructions. *)
Definition amo (msg : string) (rd rs1 rs2 : Z) (f : Z -> Z -> Z) : ST (Cpu M) (CpuError E) unit :=
  addr ← reg rs1;
  aligned addr 3 msg;;
  old ← cpu_read_u32 addr;
  y ← reg rs2;
  cpu_write_u32 addr (f old y);;
  set_reg rd old.

Definition lr_w (rd rs1 : Z) : ST (Cpu M) (CpuError E) unit :=
  addr ← reg rs1;
  aligned addr 3 "Unaligned LR.W address";;
  value ← cpu_read_u32 addr;
  set_reg rd value;;
  modify (set_reservation (Some addr)).

Definition sc_w (rd rs1 rs2 : Z) : ST (Cpu M) (CpuError E) unit :=
  addr ← reg rs1;
  aligned addr 3 "Unaligned SC.W address";;
  c ← get;
  (if decide (reservation_addr c = Some addr) then
     y ← reg rs2; cpu_write_u32 addr y;; set_reg rd 0
   else set_reg rd 1);;
  modify (set_reservation None).

Definition b2z (b : bool) : Z := if b then 1 else 0.

(** The memory and atomic instructions; all of them advance by the instruction's size. *)
Definition execute_mem (op : Op) : ST (Cpu M) (CpuError E) unit :=
  match op with
  | Lb rd rs1 imm =>
      addr ← load_addr rs1 imm; value ← cpu_read_u8 addr; set_reg rd (w32 (as_i8 value))
  | Lh rd rs1 imm =>
      addr ← load_addr rs1 imm;
      aligned addr 1 "Unaligned 16-bit read";;
      value ← cpu_read_u16 addr; set_reg rd (w32 (as_i16 value))
  | Lw rd rs1 imm =>
      addr ← load_addr rs1 imm;
      aligned addr 3 "Unaligned 32-bit read";;
      value ← cpu_read_u32 addr; set_reg rd value
  | Lbu rd rs1 imm =>
      addr ← load_addr rs1 imm; value ← cpu_read_u8 addr; set_reg rd value
  | Lhu rd rs1 imm =>
      addr ← load_addr rs1 imm;
      aligned addr 1 "Unaligned 16-bit read";;
      value ← cpu_read_u16 addr; set_reg rd value
  | Sb rs1 rs2 imm =>
      addr ← load_addr rs1 imm; y ← reg rs2; cpu_write_u8 addr (w8 y)
  | Sh rs1 rs2 imm =>
      addr ← load_addr rs1 imm;
      aligned addr 1 "Unaligned 16-bit write";;
      y ← reg rs2; cpu_write_u16 addr (w16 y)
  | Sw rs1 rs2 imm =>
      addr ← load_addr rs1 imm;
      aligned addr 3 "Unaligned 32-bit write";;
      y ← reg rs2; cpu_write_u32 addr y
  | LrW rd rs1 => lr_w rd rs1
  | ScW rd rs1 rs2 => sc_w rd rs1 rs2
  | AmoswapW rd rs1 rs2 => amo "Unaligned AMOSWAP.W address" rd rs1 rs2 (fun _ y => y)
  | AmoaddW rd rs1 rs2 => amo "Unaligned AMOADD.W address" rd rs1 rs2 u32_add
  | AmoxorW rd rs1 rs2 => amo "Unaligned AMOXOR.W address" rd rs1 rs2 Z.lxor
  | AmoandW rd rs1 rs2 => amo "Unaligned AMOAND.W address" rd rs1 rs2 Z.land
  | AmoorW rd rs1 rs2 => amo "Unaligned AMOOR.W address" rd rs1 rs2 Z.lor
  | AmominW rd rs1 rs2 =>
      amo "Unaligned AMOMIN.W address" rd rs1 rs2 (fun x y => w32 (Z.min (as_i32 x) (as_i32 y)))
  | AmomaxW rd rs1 rs2 =>
      amo "Unaligned AMOMAX.W address" rd rs1 rs2 (fun x y => w32 (Z.max (as_i32 x) (as_i32 y)))
  | AmominuW rd rs1 rs2 => amo "Unaligned AMOMINU.W address" rd rs1 rs2 Z.min
  | AmomaxuW rd rs1 rs2 => amo "Unaligned AMOMAXU.W address" rd rs1 rs2 Z.max
  | _ => mret tt
  end.

(** The body of the [match] of [execute] for every instruction but ECALL: returns [pc_inc]. *)
Definition execute_op (op : Op) (inst_size : Z) : ST (Cpu M) (CpuError E) Z :=
  match op with
  | Add rd rs1 rs2 => binop rd rs1 rs2 u32_add;; mret inst_size
  | Sub rd rs1 rs2 => binop rd rs1 rs2 u32_sub;; mret inst_size
  | Sll rd rs1 rs2 => binop rd rs1 rs2 (fun x y => u32_shl x (Z.land y 0x1f));; mret inst_size
  | Slt rd rs1 rs2 => binop rd rs1 rs2 (fun x y => b2z (as_i32 x <? as_i32 y));; mret inst_size
  | Sltu rd rs1 rs2 => binop rd rs1 rs2 (fun x y => b2z (x <? y));; mret inst_size
  | Xor rd rs1 rs2 => binop rd rs1 rs2 Z.lxor;; mret inst_size
  | Srl rd rs1 rs2 => binop rd rs1 rs2 (fun x y => Z.shiftr x (Z.land y 0x1f));; mret inst_size
  | Sra rd rs1 rs2 =>
      binop rd rs1 rs2 (fun x y => w32 (Z.shiftr (as_i32 x) (Z.land y 0x1f)));; mret inst_size
  | Or rd rs1 rs2 => binop rd rs1 rs2 Z.lor;; mret inst_size
  | And rd rs1 rs2 => binop rd rs1 rs2 Z.land;; mret inst_size
  | Mul rd rs1 rs2 => binop rd rs1 rs2 u32_mul;; mret inst_size
  | Mulh rd rs1 rs2 => binop rd rs1 rs2 mulh;; mret inst_size
  | Mulhsu rd rs1 rs2 => binop rd rs1 rs2 mulhsu;; mret inst_size
  | Mulhu rd rs1 rs2 => binop rd rs1 rs2 mulhu;; mret inst_size
  | Div rd rs1 rs2 => binop rd rs1 rs2 div;; mret inst_size
  | Divu rd rs1 rs2 => binop rd rs1 rs2 divu;; mret inst_size
  | Rem rd rs1 rs2 => binop rd rs1 rs2 rem;; mret inst_size
  | Remu rd rs1 rs2 => binop rd rs1 rs2 remu;; mret inst_size
  | Addi rd rs1 imm => immop rd rs1 (fun x => u32_add x (w32 imm));; mret inst_size
  | Andi rd rs1 imm => immop rd rs1 (fun x => Z.land x (w32 imm));; mret inst_size
  | Auipc rd imm => c ← get; set_reg rd (u32_add (pc c) (w32 imm));; mret inst_size
  | Beq rs1 rs2 imm => branch rs1 rs2 imm inst_size Z.eqb
  | Bne rs1 rs2 imm => branch rs1 rs2 imm inst_size (fun x y => negb (x =? y))
  | Blt rs1 rs2 imm => branch rs1 rs2 imm inst_size (fun x y => as_i32 x <? as_i32 y)
  | Bge rs1 rs2 imm => branch rs1 rs2 imm inst_size (fun x y => as_i32 y <=? as_i32 x)
  | Bltu rs1 rs2 imm => branch rs1 rs2 imm inst_size Z.ltb
  | Bgeu rs1 rs2 imm => branch rs1 rs2 imm inst_size (fun x y => y <=? x)
  | Jal rd imm => c ← get; set_reg rd (u32_add (pc c) inst_size);; mret (w32 imm)
  | Jalr rd rs1 imm =>
      x ← reg rs1;
      let new_pc := Z.land (u32_add x (w32 imm)) (u32_not 1) in
      c ← get;
      set_reg rd (u32_add (pc c) inst_size);;
      modify (set_pc new_pc);;
      mret 0
  | Lui rd imm => set_reg rd (w32 imm);; mret inst_size
  | Ori rd rs1 imm => immop rd rs1 (fun x => Z.lor x (w32 imm));; mret inst_size
  | Slli rd rs1 imm => immop rd rs1 (fun x => u32_shl x (Z.land imm 0x1f));; mret inst_size
  | Slti rd rs1 imm => immop rd rs1 (fun x => b2z (as_i32 x <? imm));; mret inst_size
  | Sltiu rd rs1 imm => immop rd rs1 (fun x => b2z (x <? w32 imm));; mret inst_size
  | Srli rd rs1 imm => immop rd rs1 (fun x => Z.shiftr x (Z.land imm 0x1f));; mret inst_size
  | Srai rd rs1 imm =>
      immop rd rs1 (fun x => w32 (Z.shiftr (as_i32 x) (Z.land imm 0x1f)));; mret inst_size
  | Xori rd rs1 imm => immop rd rs1 (fun x => Z.lxor x (w32 imm));; mret inst_size
  | Fence => mret inst_size
  | Ecall => fail (CpuGenericError "No ECALL handler")
  | Break => fail (CpuGenericError "BREAK instruction is not supported")
  | Unknown => fail (CpuGenericError "Unknown instruction")
  | _ => execute_mem op;; mret inst_size
  end.

(** The tail of [execute]. *)
Definition finish (pc_inc : Z) : ST (Cpu M) (CpuError E) unit :=
  modify (fun c => set_pc (u32_add (pc c) pc_inc) c);;
  set_reg 0 0.

(** A handler with state [H]: [handle_ecall(&mut self, cpu)]. *)
Definition EcallHandler (H : Type) : Type := ST (H * Cpu M) E unit.

Definition execute {H : Type} (inst : Z) (ecall_handler : option (EcallHandler H))
    : ST (H * Cpu M) (CpuError E) unit :=
  let '(op, inst_size) := decode inst in
  let on_cpu {A} (m : ST (Cpu M) (CpuError E) A) : ST (H * Cpu M) (CpuError E) A :=
    zoom snd (fun c s => (fst s, c)) m in
  pc_inc ← (match op, ecall_handler with
            | Ecall, Some handle_ecall => map_err EcallError handle_ecall;; mret inst_size
            | _, _ => on_cpu (execute_op op inst_size)
            end);
  on_cpu (finish pc_inc).

End cpu.

(** ** The main loop's body ([handler_start_vapp]): fetch, then execute *)

Section step.
Context {M : Type} `{PM : PagedMemory M} {E H : Type}.

Definition cpu_step (ecall_handler : option (EcallHandler (M:=M) (E:=E) H))
    : ST (H * Cpu M) (CpuError E) unit :=
  instr ← zoom snd (fun c hc => (fst hc, c)) fetch_instruction;
  execute instr ecall_handler.

(** [n] rounds of the loop. *)
Fixpoint cpu_run (ecall_handler : option (EcallHandler (M:=M) (E:=E) H)) (n : nat)
    : ST (H * Cpu M) (CpuError E) unit :=
  match n with
  | O => mret tt
  | S n => cpu_step ecall_handler;; cpu_run ecall_handler n
  end.

End step.
