(* ===== verification/Isa.v ===== *)
(** * An abstract RV32IMAC machine

    The specification the processor is proved against: registers and memory as
    functions, arithmetic as in the ISA manual (products, quotients and powers of
    two, no bit tricks), a trap as [None]. Memory is three regions of bytes of which
    one is not writable; there are no pages, no wrap-around of addresses and no host. *)

From S2P Require Import Prelude Riscv Cpu.

Record region : Type := mkRegion { r_start : Z; r_size : Z; r_byte : Z -> option Z }.

Record arch : Type := mkArch {
  a_pc : Z;
  a_reg : Z -> Z;
  a_seg : seg_id -> region;
  a_res : option Z;
}.

(** ** Memory *)

Definition in_region (g : region) (a : Z) : bool := (r_start g <=? a) && (a <? r_start g + r_size g).
(** The first of the regions that holds an address. *)
Fixpoint find_seg (s : arch) (a : Z) (ids : list seg_id) : option seg_id :=
  match ids with
  | [] => None
  | id :: ids => if in_region (a_seg s id) a then Some id else find_seg s a ids
  end.
Definition readable : list seg_id := [StackSeg; DataSeg; CodeSeg].
Definition writable : list seg_id := [StackSeg; DataSeg].

Fixpoint region_bytes (g : region) (a : Z) (n : nat) : option (list Z) :=
  match n with
  | O => Some []
  | S n => b ← r_byte g a; bs ← region_bytes g (a + 1) n; Some (b :: bs)
  end.

(** [n] bytes at [a] that lie in one region, at an address that is a multiple of [n]. *)
Definition access_in (g : region) (a : Z) (n : nat) : bool :=
  (r_start g <=? a) && (a + Z.of_nat n <=? r_start g + r_size g) && (a mod Z.of_nat n =? 0).

Definition region_load (g : region) (a : Z) (n : nat) : option Z :=
  if access_in g a n then le_value <$> region_bytes g a n else None.
Definition region_store (g : region) (a : Z) (bs : list Z) : option region :=
  if access_in g a (length bs) then
    Some (mkRegion (r_start g) (r_size g) (fun x =>
      if decide (a <= x < a + Z.of_nat (length bs)) then bs !! Z.to_nat (x - a) else r_byte g x))
  else None.

Definition isa_load (n : nat) (a : Z) (s : arch) : option Z :=
  id ← find_seg s a readable; region_load (a_seg s id) a n.

(** A store to a byte of the reserved word ends the reservation. *)
Definition store_reservation (a n : Z) (res : option Z) : option Z :=
  match res with
  | Some r => if (a <? r + 4) && (r <? a + n) then None else Some r
  | None => None
  end.
Definition isa_store (n : nat) (a x : Z) (s : arch) : option arch :=
  id ← find_seg s a writable;
  g ← region_store (a_seg s id) a (le_bytes n x);
  Some (mkArch (a_pc s) (a_reg s) (fun i => if decide (i = id) then g else a_seg s i)
          (store_reservation a (Z.of_nat n) (a_res s))).

(** ** Registers: writes to [x0] are ignored *)

Definition wr (rd x : Z) (s : arch) : arch :=
  if rd =? 0 then s
  else mkArch (a_pc s) (fun r => if r =? rd then x else a_reg s r) (a_seg s) (a_res s).
Definition jump (target : Z) (s : arch) : arch := mkArch target (a_reg s) (a_seg s) (a_res s).
Definition reserve (r : option Z) (s : arch) : arch := mkArch (a_pc s) (a_reg s) (a_seg s) r.

(** ** Computations *)

Definition signed (x : Z) : Z := if x <? 2 ^ 31 then x else x - 2 ^ 32.
Definition bool_value (b : bool) : Z := if b then 1 else 0.

(** The division table of the M extension. *)
Definition isa_div (x y : Z) : Z :=
  if y =? 0 then 2 ^ 32 - 1
  else if (signed x =? - 2 ^ 31) && (signed y =? -1) then 2 ^ 31
  else (Z.quot (signed x) (signed y)) mod 2 ^ 32.
Definition isa_rem (x y : Z) : Z :=
  if y =? 0 then x
  else if (signed x =? - 2 ^ 31) && (signed y =? -1) then 0
  else (Z.rem (signed x) (signed y)) mod 2 ^ 32.

(** The destination and value of the instructions that only compute. *)
Definition isa_compute (op : Op) (pc : Z) (R : Z -> Z) : option (Z * Z) :=
  match op with
  | Add rd a b => Some (rd, (R a + R b) mod 2 ^ 32)
  | Sub rd a b => Some (rd, (R a - R b) mod 2 ^ 32)
  | Sll rd a b => Some (rd, (R a * 2 ^ (R b mod 32)) mod 2 ^ 32)
  | Slt rd a b => Some (rd, bool_value (signed (R a) <? signed (R b)))
  | Sltu rd a b => Some (rd, bool_value (R a <? R b))
  | Xor rd a b => Some (rd, Z.lxor (R a) (R b))
  | Srl rd a b => Some (rd, R a / 2 ^ (R b mod 32))
  | Sra rd a b => Some (rd, (signed (R a) / 2 ^ (R b mod 32)) mod 2 ^ 32)
  | Or rd a b => Some (rd, Z.lor (R a) (R b))
  | And rd a b => Some (rd, Z.land (R a) (R b))
  | Mul rd a b => Some (rd, (R a * R b) mod 2 ^ 32)
  | Mulh rd a b => Some (rd, (signed (R a) * signed (R b) / 2 ^ 32) mod 2 ^ 32)
  | Mulhsu rd a b => Some (rd, (signed (R a) * R b / 2 ^ 32) mod 2 ^ 32)
  | Mulhu rd a b => Some (rd, R a * R b / 2 ^ 32)
  | Div rd a b => Some (rd, isa_div (R a) (R b))
  | Divu rd a b => Some (rd, if R b =? 0 then 2 ^ 32 - 1 else R a / R b)
  | Rem rd a b => Some (rd, isa_rem (R a) (R b))
  | Remu rd a b => Some (rd, if R b =? 0 then R a else R a mod R b)
  | Addi rd a i => Some (rd, (R a + i) mod 2 ^ 32)
  | Andi rd a i => Some (rd, Z.land (R a) (i mod 2 ^ 32))
  | Ori rd a i => Some (rd, Z.lor (R a) (i mod 2 ^ 32))
  | Xori rd a i => Some (rd, Z.lxor (R a) (i mod 2 ^ 32))
  | Slli rd a i => Some (rd, (R a * 2 ^ (i mod 32)) mod 2 ^ 32)
  | Srli rd a i => Some (rd, R a / 2 ^ (i mod 32))
  | Srai rd a i => Some (rd, (signed (R a) / 2 ^ (i mod 32)) mod 2 ^ 32)
  | Slti rd a i => Some (rd, bool_value (signed (R a) <? i))
  | Sltiu rd a i => Some (rd, bool_value (R a <? i mod 2 ^ 32))
  | Lui rd i => Some (rd, i mod 2 ^ 32)
  | Auipc rd i => Some (rd, (pc + i) mod 2 ^ 32)
  | _ => None
  end.

(** Whether a conditional branch is taken, with its offset. *)
Definition isa_branch (op : Op) (R : Z -> Z) : option (bool * Z) :=
  match op with
  | Beq a b i => Some (R a =? R b, i)
  | Bne a b i => Some (negb (R a =? R b), i)
  | Blt a b i => Some (signed (R a) <? signed (R b), i)
  | Bge a b i => Some (signed (R b) <=? signed (R a), i)
  | Bltu a b i => Some (R a <? R b, i)
  | Bgeu a b i => Some (R b <=? R a, i)
  | _ => None
  end.

(** Loads: width, extension, destination, base, offset. *)
Definition isa_load_op (op : Op) : option (nat * (Z -> Z) * Z * Z * Z) :=
  match op with
  | Lb rd a i => Some (1%nat, fun x => if x <? 128 then x else x + (2 ^ 32 - 256), rd, a, i)
  | Lh rd a i => Some (2%nat, fun x => if x <? 32768 then x else x + (2 ^ 32 - 65536), rd, a, i)
  | Lw rd a i => Some (4%nat, id, rd, a, i)
  | Lbu rd a i => Some (1%nat, id, rd, a, i)
  | Lhu rd a i => Some (2%nat, id, rd, a, i)
  | _ => None
  end.
(** Stores: width, base, source, offset. *)
Definition isa_store_op (op : Op) : option (nat * Z * Z * Z) :=
  match op with
  | Sb a b i => Some (1%nat, a, b, i)
  | Sh a b i => Some (2%nat, a, b, i)
  | Sw a b i => Some (4%nat, a, b, i)
  | _ => None
  end.
(** Atomic read-modify-writes. *)
Definition isa_amo_op (op : Op) : option ((Z -> Z -> Z) * Z * Z * Z) :=
  match op with
  | AmoswapW rd a b => Some (fun _ y => y, rd, a, b)
  | AmoaddW rd a b => Some (fun x y => (x + y) mod 2 ^ 32, rd, a, b)
  | AmoxorW rd a b => Some (Z.lxor, rd, a, b)
  | AmoandW rd a b => Some (Z.land, rd, a, b)
  | AmoorW rd a b => Some (Z.lor, rd, a, b)
  | AmominW rd a b => Some (fun x y => if signed x <=? signed y then x else y, rd, a, b)
  | AmomaxW rd a b => Some (fun x y => if signed y <=? signed x then x else y, rd, a, b)
  | AmominuW rd a b => Some (Z.min, rd, a, b)
  | AmomaxuW rd a b => Some (Z.max, rd, a, b)
  | _ => None
  end.

(** ** One instruction: the state after it, [None] for a trap *)

Definition isa_exec (op : Op) (size : Z) (s : arch) : option arch :=
  let R := a_reg s in
  let next s' := jump ((a_pc s + size) mod 2 ^ 32) s' in
  match isa_compute op (a_pc s) R, isa_branch op R, isa_load_op op, isa_store_op op, isa_amo_op op with
  | Some (rd, x), _, _, _, _ => Some (next (wr rd x s))
  | _, Some (taken, i), _, _, _ => Some (if taken then jump ((a_pc s + i) mod 2 ^ 32) s else next s)
  | _, _, Some (n, ext, rd, a, i), _, _ =>
      x ← isa_load n ((R a + i) mod 2 ^ 32) s; Some (next (wr rd (ext x) s))
  | _, _, _, Some (n, a, b, i), _ => next <$> isa_store n ((R a + i) mod 2 ^ 32) (R b) s
  | _, _, _, _, Some (f, rd, a, b) =>
      x ← isa_load 4 (R a) s; s' ← isa_store 4 (R a) (f x (R b)) s; Some (next (wr rd x s'))
  | _, _, _, _, _ =>
      match op with
      | Jal rd i => Some (jump ((a_pc s + i) mod 2 ^ 32) (wr rd ((a_pc s + size) mod 2 ^ 32) s))
      | Jalr rd a i =>
          Some (jump (2 * (((R a + i) mod 2 ^ 32) / 2)) (wr rd ((a_pc s + size) mod 2 ^ 32) s))
      | LrW rd a => x ← isa_load 4 (R a) s; Some (next (reserve (Some (R a)) (wr rd x s)))
      | ScW rd a b =>
          if negb (R a mod 4 =? 0) then None
          else if decide (a_res s = Some (R a)) then
            s' ← isa_store 4 (R a) (R b) s; Some (next (reserve None (wr rd 0 s')))
          else Some (next (reserve None (wr rd 1 s)))
      | Fence => Some (next s)
      | _ => None
      end
  end.

(** The instruction at the program counter: one halfword, or two when the low bits of
    the first say so. *)
Definition isa_fetch (s : arch) : option Z :=
  lo ← region_load (a_seg s CodeSeg) (a_pc s) 2;
  if lo mod 4 =? 3 then
    hi ← region_load (a_seg s CodeSeg) (a_pc s + 2) 2; Some (lo + 2 ^ 16 * hi)
  else Some lo.

Definition isa_step (s : arch) : option arch :=
  w ← isa_fetch s; let '(op, size) := decode w in isa_exec op size s.

Fixpoint isa_run (n : nat) (s : arch) : option arch :=
  match n with O => Some s | S n => s' ← isa_step s; isa_run n s' end.

#[global] Arguments isa_load : simpl never.
#[global] Arguments isa_store : simpl never.
