(* ===== verification/CpuSpec.v ===== *)
(** * The processor refines the abstract machine

    [sim c s]: the processor [c], over any lawful paged memory, is in the state [s]
    of the machine of [Isa]. [execute] and [fetch_instruction] keep the relation, in
    every mode: over a memory that serves its pages they compute what the abstract
    machine computes, over any other they do so or stop with an error. *)

From S2P Require Import Prelude Riscv RiscvSpec Memory MemorySpec Cpu Isa.

(** ** The arithmetic of the manual *)

Lemma u32_bitop f x y :
  (forall a b i, 0 <= i -> Z.testbit (f a b) i = false \/ Z.testbit a i = true \/ Z.testbit b i = true) ->
  (0 <= x -> 0 <= y -> 0 <= f x y) -> is_u32 x -> is_u32 y -> is_u32 (f x y).
Proof.
  intros Hf Hp [Hx0 Hx] [Hy0 Hy]. specialize (Hp Hx0 Hy0). split; [done|].
  destruct (Z.lt_ge_cases (f x y) (2 ^ 32)) as [|Hge]; [done|exfalso].
  assert (32 <= Z.log2 (f x y)) as Hl by (apply Z.log2_le_pow2; lia).
  pose proof (Z.bit_log2 (f x y) ltac:(lia)) as Hb.
  assert (forall z, 0 <= z < 2 ^ 32 -> Z.testbit z (Z.log2 (f x y)) = false) as Hz.
  { intros z Hz. rewrite <- (Z.mod_small z (2 ^ 32)) by lia. by apply Z.mod_pow2_bits_high. }
  destruct (Hf x y (Z.log2 (f x y)) ltac:(lia)) as [H|[H|H]]; [congruence|rewrite Hz in H by lia; done..].
Qed.
Lemma u32_land x y : is_u32 x -> is_u32 y -> is_u32 (Z.land x y).
Proof.
  apply u32_bitop; [|intros; apply Z.land_nonneg; lia]. intros a b i _. rewrite Z.land_spec.
  destruct (Z.testbit a i), (Z.testbit b i); auto.
Qed.
Lemma u32_lor x y : is_u32 x -> is_u32 y -> is_u32 (Z.lor x y).
Proof.
  apply u32_bitop; [|intros; apply Z.lor_nonneg; lia]. intros a b i _. rewrite Z.lor_spec.
  destruct (Z.testbit a i), (Z.testbit b i); auto.
Qed.
Lemma u32_lxor x y : is_u32 x -> is_u32 y -> is_u32 (Z.lxor x y).
Proof.
  apply u32_bitop; [|intros; apply Z.lxor_nonneg; lia]. intros a b i _. rewrite Z.lxor_spec.
  destruct (Z.testbit a i), (Z.testbit b i); auto.
Qed.
Lemma u32_mod x : is_u32 (x mod 2 ^ 32).
Proof. apply (wrap_range 32). lia. Qed.
Lemma u32_bool b : is_u32 (bool_value b).
Proof. destruct b; split; vm_compute; done. Qed.
Lemma u32_div x y : is_u32 x -> 0 < y -> is_u32 (x / y).
Proof.
  intros [H1 H2] Hy. split; [by apply Z.div_pos|]. apply Z.div_lt_upper_bound; [done|]. nia.
Qed.
Lemma u32_max_ok : is_u32 (2 ^ 32 - 1).
Proof. split; lia. Qed.
Lemma pow_mod32_pos y : 0 < 2 ^ (y mod 32).
Proof. apply Z.pow_pos_nonneg; [lia|]. apply Z.mod_pos_bound. lia. Qed.
#[export] Hint Resolve u32_land u32_lor u32_lxor u32_mod u32_bool u32_div u32_max_ok
  pow_mod32_pos : vnd.

Lemma as_i32_signed x : as_i32 x = signed x.
Proof. done. Qed.
Lemma add_imm x i : u32_add x (w32 i) = (x + i) mod 2 ^ 32.
Proof. unfold u32_add, wrap. apply Zplus_mod_idemp_r. Qed.
Lemma land_31 y : Z.land y 0x1f = y mod 32.
Proof. exact (land_mask 5 y ltac:(lia)). Qed.
Lemma land_3 y : Z.land y 3 = y mod 4.
Proof. exact (land_mask 2 y ltac:(lia)). Qed.
Lemma land_1 y : Z.land y 1 = y mod 2.
Proof. exact (land_mask 1 y ltac:(lia)). Qed.
Lemma mod32_pos y : 0 <= y mod 32.
Proof. apply Z.mod_pos_bound. lia. Qed.
Lemma shl_spec x y : u32_shl x (Z.land y 0x1f) = (x * 2 ^ (y mod 32)) mod 2 ^ 32.
Proof. unfold u32_shl. rewrite land_31, Z.shiftl_mul_pow2 by apply mod32_pos. done. Qed.
Lemma shr_spec x y : Z.shiftr x (Z.land y 0x1f) = x / 2 ^ (y mod 32).
Proof. rewrite land_31. apply Z.shiftr_div_pow2, mod32_pos. Qed.
Lemma mulh_spec x y : mulh x y = (signed x * signed y / 2 ^ 32) mod 2 ^ 32.
Proof. unfold mulh. by rewrite Z.shiftr_div_pow2 by lia. Qed.
Lemma mulhsu_spec x y : mulhsu x y = (signed x * y / 2 ^ 32) mod 2 ^ 32.
Proof. unfold mulhsu. by rewrite Z.shiftr_div_pow2 by lia. Qed.
Lemma mulhu_range x y : is_u32 x -> is_u32 y -> is_u32 (x * y / 2 ^ 32).
Proof.
  intros [] []. split; [apply Z.div_pos; nia|]. apply Z.div_lt_upper_bound; [lia|]. nia.
Qed.
Lemma mulhu_spec x y : is_u32 x -> is_u32 y -> mulhu x y = x * y / 2 ^ 32.
Proof.
  intros Hx Hy. unfold mulhu. rewrite (wrap_small 64) by (destruct Hx, Hy; split; nia).
  rewrite Z.shiftr_div_pow2 by lia. by apply wrap_small, mulhu_range.
Qed.
#[export] Hint Resolve mulhu_range : vnd.

Lemma signed_zero y : is_u32 y -> signed y = 0 -> y = 0.
Proof. unfold signed, is_u. intros ? E. destruct (Z.ltb_spec y (2 ^ 31)); lia. Qed.
Lemma div_spec x y : is_u32 x -> is_u32 y -> div x y = isa_div x y.
Proof.
  intros Hx Hy. unfold div, isa_div. destruct (Z.eqb_spec y 0); [done|].
  unfold i32_wrapping_div. rewrite wrap_as_signed by (lia || (apply wrap_range; lia)).
  change (as_i32 x) with (signed x). change (as_i32 y) with (signed y).
  destruct (Z.eqb_spec (signed x) (- 2 ^ 31)) as [->|], (Z.eqb_spec (signed y) (-1)) as [->|];
    cbn [andb]; done.
Qed.
Lemma rem_spec x y : is_u32 x -> is_u32 y -> rem x y = isa_rem x y.
Proof.
  intros Hx Hy. unfold rem, isa_rem. destruct (Z.eqb_spec y 0); [done|].
  unfold i32_wrapping_rem.
  change (as_i32 x) with (signed x). change (as_i32 y) with (signed y).
  destruct (Z.eqb_spec (signed x) (- 2 ^ 31)) as [->|], (Z.eqb_spec (signed y) (-1)) as [->|];
    cbn [andb]; done.
Qed.
Lemma isa_div_range x y : is_u32 (isa_div x y).
Proof. unfold isa_div. repeat case_match; auto with vnd; split; lia. Qed.
Lemma isa_rem_range x y : is_u32 x -> is_u32 (isa_rem x y).
Proof. intros. unfold isa_rem. repeat case_match; auto with vnd; split; lia. Qed.
Lemma divu_range x y : is_u32 x -> is_u32 y -> is_u32 (if y =? 0 then 2 ^ 32 - 1 else x / y).
Proof. intros Hx [Hy _]. destruct (Z.eqb_spec y 0); auto with vnd. apply u32_div; [done|lia]. Qed.
Lemma remu_range x y : is_u32 x -> is_u32 y -> is_u32 (if y =? 0 then x else x mod y).
Proof.
  intros Hx [Hy Hy']. destruct (Z.eqb_spec y 0); [done|].
  pose proof (Z.mod_pos_bound x y ltac:(lia)). split; lia.
Qed.
#[export] Hint Resolve isa_div_range isa_rem_range divu_range remu_range : vnd.

Lemma jalr_target x : is_u32 x -> Z.land x (u32_not 1) = 2 * (x / 2).
Proof.
  intros Hx. change (u32_not 1) with (0 + 2 ^ 1 * (2 ^ 31 - 1)).
  pose proof (Z.div_mod x 2 ltac:(lia)). pose proof (Z.mod_pos_bound x 2 ltac:(lia)).
  replace x with (x mod 2 + 2 ^ 1 * (x / 2)) at 1 by lia.
  rewrite land_split by lia. rewrite Z.land_0_r, land_mask by lia.
  rewrite Z.mod_small; [lia|]. destruct Hx. dlia.
Qed.
Lemma min_signed x y : is_u32 x -> is_u32 y ->
  w32 (Z.min (as_i32 x) (as_i32 y)) = if signed x <=? signed y then x else y.
Proof.
  intros. change (as_i32 x) with (signed x). change (as_i32 y) with (signed y).
  destruct (Z.leb_spec (signed x) (signed y)).
  - rewrite Z.min_l by lia. by apply (wrap_as_signed 32).
  - rewrite Z.min_r by lia. by apply (wrap_as_signed 32).
Qed.
Lemma max_signed x y : is_u32 x -> is_u32 y ->
  w32 (Z.max (as_i32 x) (as_i32 y)) = if signed y <=? signed x then x else y.
Proof.
  intros. change (as_i32 x) with (signed x). change (as_i32 y) with (signed y).
  destruct (Z.leb_spec (signed y) (signed x)).
  - rewrite Z.max_l by lia. by apply (wrap_as_signed 32).
  - rewrite Z.max_r by lia. by apply (wrap_as_signed 32).
Qed.
Lemma sext8 x : 0 <= x < 256 -> w32 (as_i8 x) = if x <? 128 then x else x + (2 ^ 32 - 256).
Proof.
  intros Hx. unfold as_signed. change (2 ^ (8 - 1)) with 128. change (2 ^ 8) with 256.
  destruct (Z.ltb_spec x 128); [by apply w32_small; lia|].
  unfold wrap. rewrite <- (Z.mod_add _ 1) by lia. rewrite Z.mod_small; lia.
Qed.
Lemma sext16 x : 0 <= x < 65536 -> w32 (as_i16 x) = if x <? 32768 then x else x + (2 ^ 32 - 65536).
Proof.
  intros Hx. unfold as_signed. change (2 ^ (16 - 1)) with 32768. change (2 ^ 16) with 65536.
  destruct (Z.ltb_spec x 32768); [by apply w32_small; lia|].
  unfold wrap. rewrite <- (Z.mod_add _ 1) by lia. rewrite Z.mod_small; lia.
Qed.

(** ** Segments and regions *)

Section sim.
Context {M : Type} `{PL : PagedMemoryLaws M}.
Implicit Types (seg : MemorySegment M) (g : region) (c : Cpu M) (s : arch).

(** The flag says whether the segment is written. *)
Record seg_sim (b : bool) (seg : MemorySegment M) (g : region) : Prop := {
  ss_ok : seg_ok seg;
  ss_start : r_start g = start_address seg;
  ss_size : r_size g = size seg;
  ss_view : exists v, represents b (paged_memory seg) v /\ seg_covered seg v /\
    forall a, in_seg seg a 1 -> r_byte g a = flat (start_address seg) v a;
}.

(** Stores never reach the code. *)
Definition seg_writable (id : seg_id) : bool := match id with CodeSeg => false | _ => true end.
(** The relation while an instruction executes: [x0] may hold anything. *)
Record sim_mid (c : Cpu M) (s : arch) : Prop := {
  sm_pc : a_pc s = pc c;
  sm_pc_range : is_u32 (pc c);
  sm_len : length (regs c) = 32%nat;
  sm_range : Forall is_u32 (regs c);
  sm_x0 : a_reg s 0 = 0;
  sm_regs : forall r, 0 < r < 32 -> regs c !! Z.to_nat r = Some (a_reg s r);
  sm_res : reservation_addr c = a_res s;
  sm_res_ok : forall r, a_res s = Some r -> is_u32 r;
  sm_seg : forall id, seg_sim (seg_writable id) (seg_of id c) (a_seg s id);
}.
Definition sim (c : Cpu M) (s : arch) : Prop := sim_mid c s /\ regs c !! 0%nat = Some 0.

Lemma in_region_contains {b} seg g a :
  seg_sim b seg g -> contains seg a = in_region g a.
Proof.
  intros [[] E1 E2 _]. unfold contains, in_region, u32_add.
  rewrite E1, E2, w32_small by lia. done.
Qed.

Lemma access_in_iff {b} seg g a n :
  seg_sim b seg g -> access_in g a n = true <-> in_seg seg a (Z.of_nat n) /\ a mod Z.of_nat n = 0.
Proof. intros [[] E1 E2 _]. unfold access_in, in_seg. rewrite E1, E2. lia. Qed.

Lemma region_bytes_flat seg g v a n :
  (forall a, in_seg seg a 1 -> r_byte g a = flat (start_address seg) v a) ->
  in_seg seg a (Z.of_nat n) -> region_bytes g a n = flat_read (start_address seg) v a n.
Proof.
  intros Hb. revert a; induction n as [|n IH]; intros a Hin; [done|].
  cbn [region_bytes flat_read]. rewrite Hb, IH; [done|..]; destruct Hin; split; lia.
Qed.

(** *** Loads and stores of one segment *)

Context {t : mode} `{Serves : !PagedMemoryServes M t}.

Lemma width_of_nat w : Z.of_nat (Z.to_nat (width_bytes w)) = width_bytes w.
Proof. by destruct w. Qed.

Lemma wp_region_load {b} w seg g a :
  seg_sim b seg g -> 0 <= a ->
  (t = Total -> is_Some (region_load g a (Z.to_nat (width_bytes w)))) ->
  wp t (read_width w a) seg (fun x seg' =>
    region_load g a (Z.to_nat (width_bytes w)) = Some x /\ 0 <= x < 256 ^ width_bytes w /\
    seg_sim b seg' g).
Proof.
  intros Hs Ha Ht. destruct Hs as [Hok E1 E2 (v & Hr & Hc & Hb)] eqn:Hs'.
  eapply wp_mono; [apply (read_width_spec (t:=t) w seg v a Hok Hr Hc Ha)|].
  - intros Et. destruct (Ht Et) as [x Hx]. unfold region_load in Hx.
    destruct (access_in g a _) eqn:Ea; [|done].
    apply (access_in_iff _ _ _ _ Hs) in Ea. rewrite width_of_nat in Ea. by destruct Ea.
  - intros x seg' (Hin & Hm & Hrg & Hr' & bs & Hf & Hbs & ->).
    unfold region_load. rewrite (proj2 (access_in_iff _ _ _ _ Hs) (conj Hin Hm)).
    rewrite (region_bytes_flat seg g v) by done. rewrite Hf. cbn. split; [done|]. split.
    + pose proof (le_value_range bs Hbs) as H. apply flat_read_length in Hf.
      by rewrite Hf, width_of_nat in H.
    + destruct Hrg as [F1 F2]. split; [by eapply seg_ok_range|congruence..|].
      exists v. split; [done|]. unfold seg_covered, in_seg in *. by rewrite <- F1, <- F2.
Qed.

Lemma wp_region_store w seg g a x :
  seg_sim true seg g -> 0 <= a -> is_u (8 * width_bytes w) x ->
  (t = Total -> is_Some (region_store g a (le_bytes (Z.to_nat (width_bytes w)) x))) ->
  wp t (write_width w a x) seg (fun _ seg' => exists g',
    region_store g a (le_bytes (Z.to_nat (width_bytes w)) x) = Some g' /\ seg_sim true seg' g').
Proof.
  intros Hs Ha Hx Ht. destruct Hs as [Hok E1 E2 (v & Hr & Hc & Hb)] eqn:Hs'.
  unfold region_store in *. rewrite length_le_bytes in *.
  assert (t = Total -> access_ok seg a (width_bytes w)) as Ht'.
  { intros Et. destruct (Ht Et) as [y Hy]. destruct (access_in g a _) eqn:Ea; [|done].
    apply (access_in_iff _ _ _ _ Hs) in Ea. rewrite width_of_nat in Ea. by destruct Ea. }
  destruct (decide (a mod width_bytes w = 0)) as [Hm|Hm].
  2: { assert (seg_ok seg /\ 0 <= a) as [Hok' Ha'] by done.
       destruct (access_errors w seg a x Hok' Ha') as [H1 H2].
       assert (may_err t = true) as Hte by (destruct t; [destruct (Ht' eq_refl)|..]; done).
       unfold wp. destruct (decide (in_seg seg a (width_bytes w))) as [Hi|Hi].
       - by rewrite (proj2 (H2 Hi Hm)).
       - by rewrite (proj2 (H1 Hi)). }
  eapply wp_mono; [apply (write_width_spec (t:=t) w seg v a x Hok Hr Hc Ha Hx Ht')|].
  intros [] seg' (Hin & Hrg & v' & Hr' & Hd & Hu). rewrite length_le_bytes in Hin.
  rewrite (proj2 (access_in_iff _ _ _ _ Hs)) by by rewrite width_of_nat in *.
  eexists. split; [done|]. pose proof (covered_range _ _ _ _ Hrg Hd Hc) as Hc'.
  destruct Hrg as [F1 F2]. split; cbn; [by eapply seg_ok_range|congruence..|].
  exists v'. split; [done|]. split; [done|]. intros b Hib.
  rewrite <- F1, Hu, length_le_bytes. case_decide; [done|].
  apply Hb. unfold in_seg in *. by rewrite F1, F2.
Qed.

(** *** Registers *)

Context {E : Type}.
Abbreviation ok_mode b := (t = Total -> b).

Lemma sim_reg_lookup c s r : sim c s -> 0 <= r < 32 -> regs c !! Z.to_nat r = Some (a_reg s r).
Proof.
  intros [H H0] Hr. destruct (decide (r = 0)) as [->|].
  - by rewrite (sm_x0 _ _ H).
  - apply (sm_regs _ _ H). lia.
Qed.
Lemma sim_reg_range c s r : sim c s -> 0 <= r < 32 -> is_u32 (a_reg s r).
Proof.
  intros H Hr. eapply (Forall_lookup_1 _ _ _ _ (sm_range _ _ (proj1 H))).
  by apply sim_reg_lookup.
Qed.

Lemma wp_reg c s r (Q : Z -> Cpu M -> Prop) :
  sim c s -> 0 <= r < 32 -> (is_u32 (a_reg s r) -> Q (a_reg s r) c) ->
  wp t (reg (E:=E) r) c Q.
Proof.
  intros H Hr HQ. unfold reg. apply wp_bind, wp_get.
  rewrite (sim_reg_lookup _ _ _ H Hr). apply wp_lift, HQ. by apply (sim_reg_range _ _ _ H).
Qed.

Lemma sim_mid_wr c s rd x :
  sim_mid c s -> 0 <= rd < 32 -> is_u32 x ->
  sim_mid (set_regs (<[Z.to_nat rd := x]> (regs c)) c) (wr rd x s).
Proof.
  intros [] Hr Hx.
  assert (Forall is_u32 (<[Z.to_nat rd := x]> (regs c))) by by apply Forall_insert.
  unfold wr. destruct (Z.eqb_spec rd 0) as [->|Hne]; split; cbn [a_pc a_reg a_seg a_res set_regs pc regs
    reservation_addr]; rewrite ?length_insert; try done.
  - intros r Hr0. rewrite list_lookup_insert_ne by lia. by apply sm_regs0.
  - destruct (Z.eqb_spec 0 rd); [lia|done].
  - intros r Hr0. destruct (Z.eqb_spec r rd) as [->|].
    + apply list_lookup_insert_eq. lia.
    + rewrite list_lookup_insert_ne by lia. by apply sm_regs0.
Qed.

Lemma wp_set_reg c s rd x (Q : unit -> Cpu M -> Prop) :
  sim_mid c s -> 0 <= rd < 32 -> is_u32 x ->
  (forall c', sim_mid c' (wr rd x s) -> reservation_addr c' = reservation_addr c -> Q tt c') ->
  wp t (set_reg (E:=E) rd x) c Q.
Proof.
  intros H Hr Hx HQ. unfold set_reg. apply wp_bind, wp_get.
  rewrite (proj2 (Z.ltb_lt _ _)) by (rewrite (sm_len _ _ H); lia).
  apply wp_put, HQ; [by apply sim_mid_wr|done].
Qed.

Lemma sim_shares {b b'} x g' seg g : seg_sim b seg g -> seg_sim b' x g' -> seg_sim b (shares x seg) g.
Proof.
  intros [Hok E1 E2 (v & Hr & Hc & Hb)] [_ _ _ (v' & Hr' & _)]. split; [by destruct Hok; split|done..|].
  exists v. split; [by eapply share_ok|done].
Qed.
Lemma seg_of_set_other c id x i : i <> id -> seg_of i (set_seg id x c) = shares x (seg_of i c).
Proof. intros Hi. by destruct i, id. Qed.
Lemma sim_set_seg c s id seg' g :
  sim c s -> seg_sim (seg_writable id) seg' g ->
  sim (set_seg id seg' c)
      (mkArch (a_pc s) (a_reg s) (fun i => if decide (i = id) then g else a_seg s i) (a_res s)).
Proof.
  intros [[] H0] Hs. split; [|by destruct id].
  split; try (destruct id; cbn; done).
  intros i. cbn. destruct (decide (i = id)) as [->|Hne]; [by destruct id|].
  rewrite seg_of_set_other by done. by eapply sim_shares.
Qed.
(** Replacing a segment by one that represents the same contents. *)
Lemma sim_same_seg c s id seg' :
  sim c s -> seg_sim (seg_writable id) seg' (a_seg s id) -> sim (set_seg id seg' c) s.
Proof.
  intros [[] H0] Hs. split; [|by destruct id].
  split; try (destruct id; cbn; done).
  intros i. destruct (decide (i = id)) as [->|Hne]; [by destruct id|].
  rewrite seg_of_set_other by done. by eapply sim_shares.
Qed.

Lemma wp_with_seg {A} id (m : ST (MemorySegment M) MemoryError A) c (Q : A -> Cpu M -> Prop) :
  wp t m (seg_of id c) (fun a seg' => Q a (set_seg id seg' c)) ->
  wp t (with_seg (E:=E) id m) c Q.
Proof. intros H. apply wp_zoom, wp_map_err, H. Qed.

(** *** Loads and stores of the processor *)

Lemma contains_sim c s id a : sim c s -> contains (seg_of id c) a = in_region (a_seg s id) a.
Proof. intros [[] _]. by eapply in_region_contains. Qed.

Lemma wp_cpu_read w a c s (Q : Z -> Cpu M -> Prop) :
  sim c s -> 0 <= a -> ok_mode (is_Some (isa_load (Z.to_nat (width_bytes w)) a s)) ->
  (forall x c', isa_load (Z.to_nat (width_bytes w)) a s = Some x ->
     0 <= x < 256 ^ width_bytes w -> sim c' s -> Q x c') ->
  wp t (cpu_read (E:=E) (read_width w) a) c Q.
Proof.
  intros Hs Ha Ht HQ. unfold cpu_read. apply wp_bind, wp_get.
  pose proof (contains_sim c s StackSeg a Hs) as E1.
  pose proof (contains_sim c s DataSeg a Hs) as E2.
  pose proof (contains_sim c s CodeSeg a Hs) as E3. cbn [seg_of] in *. rewrite E1, E2, E3.
  unfold isa_load in *. cbn [find_seg readable] in *.
  repeat case_match; cbn [mbind option_bind] in *.
  4: { apply wp_fail. destruct t; [|done..]. by destruct (Ht eq_refl). }
  all: apply wp_with_seg; eapply wp_mono; [eapply wp_region_load; [apply Hs|done|exact Ht]|];
    intros x seg' (Hx & Hr & Hs'); apply HQ; [done|done|by apply sim_same_seg].
Qed.

Lemma invalidate_reservation_spec c s a n :
  0 <= a -> 0 < n -> (forall r, a_res s = Some r -> 0 <= r) -> reservation_addr c = a_res s ->
  invalidate_reservation a n c = set_reservation (store_reservation a n (a_res s)) c.
Proof.
  intros Ha Hn Hr Er. unfold invalidate_reservation, store_reservation. rewrite Er.
  destruct (a_res s) as [r|] eqn:E0.
  - specialize (Hr r eq_refl).
    replace ((sat_sub a r <? 4) && (sat_sub r a <? n)) with ((a <? r + 4) && (r <? a + n))
      by (unfold sat_sub; lia).
    destruct (_ && _); [done|]. rewrite <- Er. by destruct c.
  - rewrite <- Er. by destruct c.
Qed.

Lemma sim_mid_set_reservation c s r :
  sim_mid c s -> (forall x, r = Some x -> is_u32 x) ->
  sim_mid (set_reservation r c) (reserve r s).
Proof.
  intros [] Hr. split; cbn [a_pc a_reg a_seg a_res reserve set_reservation pc regs
    reservation_addr]; done.
Qed.
Lemma sim_set_reservation c s r :
  sim c s -> (forall x, r = Some x -> is_u32 x) -> sim (set_reservation r c) (reserve r s).
Proof. intros [H ?] Hr. split; [by apply sim_mid_set_reservation|done]. Qed.

Lemma wp_cpu_write w a x c s (Q : unit -> Cpu M -> Prop) :
  sim c s -> 0 <= a -> is_u (8 * width_bytes w) x ->
  ok_mode (is_Some (isa_store (Z.to_nat (width_bytes w)) a x s)) ->
  (forall c' s', isa_store (Z.to_nat (width_bytes w)) a x s = Some s' -> sim c' s' -> Q tt c') ->
  wp t (cpu_write (E:=E) (write_width w) (width_bytes w) a x) c Q.
Proof.
  intros Hs Ha Hx Ht HQ. unfold cpu_write. apply wp_bind, wp_get. apply wp_bind.
  pose proof (contains_sim c s StackSeg a Hs) as E1.
  pose proof (contains_sim c s DataSeg a Hs) as E2. cbn [seg_of] in *. rewrite E1, E2.
  unfold isa_store in *. cbn [find_seg writable] in *.
  assert (forall id, seg_writable id = true ->
    (t = Total -> is_Some (region_store (a_seg s id) a (le_bytes (Z.to_nat (width_bytes w)) x))) ->
    (forall c' g, region_store (a_seg s id) a (le_bytes (Z.to_nat (width_bytes w)) x) = Some g ->
       sim c' (mkArch (a_pc s) (a_reg s) (fun i => if decide (i = id) then g else a_seg s i)
                 (store_reservation a (Z.of_nat (Z.to_nat (width_bytes w))) (a_res s))) -> Q tt c') ->
    wp t (with_seg (E:=E) id (write_width w a x)) c (fun _ c' =>
      wp t (modify (invalidate_reservation a (width_bytes w)) : ST (Cpu M) (CpuError E) unit) c' Q)) as Hid.
  { clear HQ Ht. intros id Hid Ht HQ. pose proof (sm_seg _ _ (proj1 Hs) id) as Hsi. rewrite Hid in Hsi.
    apply wp_with_seg. eapply wp_mono.
    { eapply wp_region_store; [exact Hsi|done|exact Hx|exact Ht]. }
    intros [] seg' (g & Hg & Hs'). apply wp_modify.
    rewrite <- Hid in Hs'. pose proof (sim_set_seg _ _ id _ _ Hs Hs') as Hsim.
    erewrite invalidate_reservation_spec; [|done|by destruct w| |apply Hsim];
      [|intros r Hr; by apply (sm_res_ok _ _ (proj1 Hsim))].
    eapply HQ; [done|]. rewrite width_of_nat.
    eapply (sim_set_reservation _ _ _ Hsim). cbn. intros r. unfold store_reservation.
    destruct (a_res s) as [r'|] eqn:Er; [case_match; [done|]; intros [= <-]|done].
    by apply (sm_res_ok _ _ (proj1 Hs)). }
  repeat case_match; cbn [mbind option_bind] in *.
  3: { apply wp_fail. destruct t; [|done..]. by destruct (Ht eq_refl). }
  all: apply Hid; [done|intros Et; destruct (Ht Et) as [y Hy]; by destruct (region_store _ _ _)|].
  all: intros c' g Hg; rewrite Hg in HQ; by apply HQ.
Qed.

(** *** Instructions *)

(** What holds after the body of an instruction, before [finish]. *)
Definition exec_post (op : Op) (size : Z) (s : arch) (inc : Z) (c' : Cpu M) : Prop :=
  exists s1, sim_mid c' s1 /\ isa_exec op size s = Some (jump (u32_add (a_pc s1) inc) s1).

Lemma a_pc_wr rd x s : a_pc (wr rd x s) = a_pc s.
Proof. unfold wr. by destruct (rd =? 0). Qed.

Lemma regb_range r : regb r = true -> 0 <= r < 32.
Proof. unfold regb. lia. Qed.

Lemma wp_write_result op size c s rd x :
  sim_mid c s -> 0 <= rd < 32 -> is_u32 x ->
  forall s0, isa_exec op size s0 = Some (jump ((a_pc s + size) mod 2 ^ 32) (wr rd x s)) ->
  wp t (set_reg (E:=E) rd x;; mret size) c (exec_post op size s0).
Proof.
  intros Hs Hrd Hx s0 He. apply wp_bind. eapply wp_set_reg; [done..|]. intros c' Hs' _.
  apply wp_ret. eexists. split; [done|]. by rewrite a_pc_wr.
Qed.

Lemma wp_binop op size c s rd a b f x :
  sim c s -> regb rd && regb a && regb b = true ->
  isa_exec op size s = Some (jump ((a_pc s + size) mod 2 ^ 32) (wr rd x s)) ->
  (is_u32 (a_reg s a) -> is_u32 (a_reg s b) -> f (a_reg s a) (a_reg s b) = x /\ is_u32 x) ->
  wp t (binop (E:=E) rd a b f;; mret size) c (exec_post op size s).
Proof.
  intros Hs [[Hrd%regb_range Ha%regb_range]%andb_true_iff Hb%regb_range]%andb_true_iff He Hf. unfold binop, immop.
  apply wp_bind_assoc, wp_bind, (wp_reg _ _ _ _ Hs Ha). intros Hx.
  apply wp_bind_assoc, wp_bind, (wp_reg _ _ _ _ Hs Hb). intros Hy.
  destruct (Hf Hx Hy) as [-> Hv]. by eapply wp_write_result; [apply Hs|..].
Qed.
Lemma wp_immop op size c s rd a f x :
  sim c s -> regb rd && regb a = true ->
  isa_exec op size s = Some (jump ((a_pc s + size) mod 2 ^ 32) (wr rd x s)) ->
  (is_u32 (a_reg s a) -> f (a_reg s a) = x /\ is_u32 x) ->
  wp t (immop (E:=E) rd a f;; mret size) c (exec_post op size s).
Proof.
  intros Hs [Hrd%regb_range Ha%regb_range]%andb_true_iff He Hf. unfold binop, immop.
  apply wp_bind_assoc, wp_bind, (wp_reg _ _ _ _ Hs Ha). intros Hx.
  destruct (Hf Hx) as [-> Hv]. by eapply wp_write_result; [apply Hs|..].
Qed.
Lemma wp_branch op size c s a b i (f : Z -> Z -> bool) :
  sim c s -> regb a && regb b = true ->
  isa_exec op size s = Some (if f (a_reg s a) (a_reg s b) then jump ((a_pc s + i) mod 2 ^ 32) s
                             else jump ((a_pc s + size) mod 2 ^ 32) s) ->
  wp t (branch (E:=E) a b i size f) c (exec_post op size s).
Proof.
  intros Hs [Ha%regb_range Hb%regb_range]%andb_true_iff He. unfold branch.
  apply wp_bind, (wp_reg _ _ _ _ Hs Ha). intros Hx.
  apply wp_bind, (wp_reg _ _ _ _ Hs Hb). intros Hy.
  apply wp_ret. exists s. split; [apply Hs|]. rewrite He. by destruct f; rewrite ?add_imm.
Qed.

Lemma wp_load_addr a i c s (Q : Z -> Cpu M -> Prop) :
  sim c s -> regb a = true -> Q ((a_reg s a + i) mod 2 ^ 32) c ->
  wp t (load_addr (E:=E) a i) c Q.
Proof.
  intros Hs Ha%regb_range HQ. unfold load_addr. apply wp_bind, (wp_reg _ _ _ _ Hs Ha).
  intros _. apply wp_ret. by rewrite add_imm.
Qed.

Lemma wp_aligned addr mask n msg c (Q : unit -> Cpu M -> Prop) :
  (Z.land addr mask = addr mod n) -> ok_mode (addr mod n = 0) -> (addr mod n = 0 -> Q tt c) ->
  wp t (aligned (E:=E) addr mask msg) c Q.
Proof.
  intros E0 Ht HQ. unfold aligned. rewrite E0. destruct (Z.eqb_spec (addr mod n) 0); cbn [negb guard_err].
  - by apply wp_lift, HQ.
  - apply wp_lift_err. destruct t; [|done..]. by destruct n0; apply Ht.
Qed.

Lemma region_load_aligned g a n x : region_load g a n = Some x -> a mod Z.of_nat n = 0.
Proof. unfold region_load, access_in. intros. case_match; [lia|done]. Qed.
Lemma isa_load_aligned n a s x : isa_load n a s = Some x -> a mod Z.of_nat n = 0.
Proof.
  unfold isa_load. destruct (find_seg s a readable); cbn; [apply region_load_aligned|done].
Qed.
Lemma isa_store_aligned n a x s s' : isa_store n a x s = Some s' -> a mod Z.of_nat n = 0.
Proof.
  unfold isa_store. destruct (find_seg s a writable); cbn; [|done].
  unfold region_store, access_in. rewrite length_le_bytes. intros. case_match; [lia|done].
Qed.

Lemma le_bytes_wrap n k x : le_bytes n (x mod 256 ^ Z.of_nat (n + k)) = le_bytes n x.
Proof.
  revert x; induction n as [|n IH]; intros x; cbn [le_bytes]; [done|].
  assert (0 < 256 ^ Z.of_nat (n + k)) by (apply Z.pow_pos_nonneg; lia).
  replace (256 ^ Z.of_nat (S n + k)) with (256 * 256 ^ Z.of_nat (n + k))
    by (rewrite <- Z.pow_succ_r by lia; f_equal; lia).
  rewrite Z.rem_mul_r by lia. f_equal.
  - unfold wrap. change (2 ^ 8) with 256. rewrite Z.mul_comm, Z.mod_add by lia. apply Z.mod_mod. lia.
  - rewrite Z.mul_comm, Z.div_add by lia. rewrite (Z.div_small (x mod 256)) by (apply Z.mod_pos_bound; lia).
    apply IH.
Qed.
Lemma isa_store_wrap w a x s :
  isa_store (Z.to_nat (width_bytes w)) a (wrap (8 * width_bytes w) x) s
  = isa_store (Z.to_nat (width_bytes w)) a x s.
Proof.
  unfold isa_store, wrap. rewrite Z.pow_mul_r by by destruct w. change (2 ^ 8) with 256.
  pose proof (le_bytes_wrap (Z.to_nat (width_bytes w)) 0 x) as Hw.
  rewrite Nat.add_0_r, width_of_nat in Hw. by rewrite Hw.
Qed.

(** The memory instructions all advance by their size. *)
Definition mem_post (op : Op) (size : Z) (s : arch) (_ : unit) (c' : Cpu M) : Prop :=
  exists s1, sim_mid c' s1 /\ a_pc s1 = a_pc s /\
    isa_exec op size s = Some (jump ((a_pc s + size) mod 2 ^ 32) s1).

Lemma wp_load op size c s w rd addr f ext :
  sim c s -> 0 <= rd < 32 -> 0 <= addr ->
  isa_exec op size s = (x ← isa_load (Z.to_nat (width_bytes w)) addr s;
                        Some (jump ((a_pc s + size) mod 2 ^ 32) (wr rd (ext x) s))) ->
  ok_mode (is_Some (isa_exec op size s)) ->
  (forall x, 0 <= x < 256 ^ width_bytes w -> f x = ext x /\ is_u32 (ext x)) ->
  wp t (value ← cpu_read (E:=E) (read_width w) addr; set_reg rd (f value)) c (mem_post op size s).
Proof.
  intros Hs Hrd Ha He Ht Hf. apply wp_bind. eapply (wp_cpu_read w); [done..|intros Et|].
  - destruct (Ht Et) as [y Hy]. rewrite He in Hy. by destruct (isa_load _ _ _).
  - intros x c' Hx Hr Hs'. destruct (Hf x Hr) as [-> Hv].
    eapply wp_set_reg; [apply Hs'|done..|]. intros c'' Hs'' _.
    exists (wr rd (ext x) s). split; [done|]. split; [apply a_pc_wr|]. by rewrite He, Hx.
Qed.

Lemma isa_store_pc n a x s s' : isa_store n a x s = Some s' -> a_pc s' = a_pc s.
Proof.
  unfold isa_store. destruct (find_seg s a writable); cbn; [|done].
  destruct (region_store _ _ _); cbn; [|done]. by intros [= <-].
Qed.

Lemma wp_store op size c s w addr x :
  sim c s -> 0 <= addr ->
  isa_exec op size s = (jump ((a_pc s + size) mod 2 ^ 32)) <$> isa_store (Z.to_nat (width_bytes w)) addr x s ->
  ok_mode (is_Some (isa_exec op size s)) ->
  wp t (cpu_write (E:=E) (write_width w) (width_bytes w) addr (wrap (8 * width_bytes w) x)) c
    (mem_post op size s).
Proof.
  intros Hs Ha He Ht. rewrite <- isa_store_wrap in He. eapply (wp_cpu_write w); [done..| |intros Et|].
  - apply wrap_range. by destruct w.
  - destruct (Ht Et) as [y Hy]. rewrite He in Hy. by destruct (isa_store _ _ _ _).
  - intros c' s' Hst Hs'. exists s'. split; [apply Hs'|]. split; [by eapply isa_store_pc|].
    by rewrite He, Hst.
Qed.

(** A store that is allowed where a load succeeded on the abstract side. *)
Lemma wp_amo op size c s msg rd a b (f g : Z -> Z -> Z) :
  sim c s -> regb rd && regb a && regb b = true ->
  (forall x y, is_u32 x -> is_u32 y -> f x y = g x y /\ is_u32 (g x y)) ->
  isa_exec op size s =
    (x ← isa_load 4 (a_reg s a) s; s' ← isa_store 4 (a_reg s a) (g x (a_reg s b)) s;
     Some (jump ((a_pc s + size) mod 2 ^ 32) (wr rd x s'))) ->
  ok_mode (is_Some (isa_exec op size s)) ->
  wp t (amo (E:=E) msg rd a b f) c (mem_post op size s).
Proof.
  intros Hs [[Hrd%regb_range Ha%regb_range]%andb_true_iff Hb%regb_range]%andb_true_iff Hfg He Ht.
  unfold amo. apply wp_bind, (wp_reg _ _ _ _ Hs Ha). intros Hax.
  assert (0 <= a_reg s a) as Hpos by apply Hax.
  assert (ok_mode (exists x s', isa_load 4 (a_reg s a) s = Some x /\
            isa_store 4 (a_reg s a) (g x (a_reg s b)) s = Some s')) as Hok.
  { intros Et. destruct (Ht Et) as [y Hy]. rewrite He in Hy.
    destruct (isa_load _ _ _) as [x|]; cbn in Hy; [|done].
    destruct (isa_store _ _ _ _) as [s'|] eqn:Est; cbn in Hy; [|done]. eauto. }
  apply wp_bind. apply (wp_aligned _ _ 4); [apply land_3| |intros _].
  { intros Et. destruct (Hok Et) as (x & _ & Hx & _). by apply isa_load_aligned in Hx. }
  apply wp_bind. eapply (wp_cpu_read W32); [done..| |].
  { intros Et. destruct (Hok Et) as (x & _ & Hx & _). by eexists. }
  intros x c1 Hx Hr Hs1. apply wp_bind, (wp_reg _ _ _ _ Hs1 Hb). intros Hy.
  change (Z.to_nat (width_bytes W32)) with 4%nat in Hx.
  destruct (Hfg x (a_reg s b)) as [-> Hv]; [done..|].
  apply wp_bind. eapply (wp_cpu_write W32); [done|done|done| |].
  { intros Et. destruct (Hok Et) as (x' & s' & Hx' & Hs'). simplify_eq. by eexists. }
  intros c2 s2 Hst Hs2. change (Z.to_nat (width_bytes W32)) with 4%nat in Hst.
  eapply wp_set_reg; [apply Hs2|done|done|].
  intros c3 Hs3 _. eexists. split; [done|].
  split; [rewrite a_pc_wr; by eapply isa_store_pc|]. by rewrite He, Hx; cbn; rewrite Hst.
Qed.

Lemma wp_lr size c s rd a :
  sim c s -> regb rd && regb a = true -> ok_mode (is_Some (isa_exec (LrW rd a) size s)) ->
  wp t (lr_w (E:=E) rd a) c (mem_post (LrW rd a) size s).
Proof.
  intros Hs [Hrd%regb_range Ha%regb_range]%andb_true_iff Ht. unfold lr_w.
  apply wp_bind, (wp_reg _ _ _ _ Hs Ha). intros Hax. assert (0 <= a_reg s a) as Hpos by apply Hax.
  assert (ok_mode (is_Some (isa_load 4 (a_reg s a) s))) as Hok.
  { intros Et. destruct (Ht Et) as [y Hy]. cbn in Hy. by destruct (isa_load _ _ _). }
  apply wp_bind. apply (wp_aligned _ _ 4); [apply land_3| |intros _].
  { intros Et. destruct (Hok Et) as [x Hx]. by apply isa_load_aligned in Hx. }
  apply wp_bind. eapply (wp_cpu_read W32); [done..|]. intros x c1 Hx Hr Hs1.
  apply wp_bind. eapply wp_set_reg; [apply Hs1|done|done|]. intros c2 Hs2 _.
  apply wp_modify. exists (reserve (Some (a_reg s a)) (wr rd x s)). split.
  - apply sim_mid_set_reservation; [done|]. by intros ? [= <-].
  - split; [apply a_pc_wr|]. cbn. change 4%nat with (Z.to_nat (width_bytes W32)). by rewrite Hx.
Qed.

Lemma wp_sc size c s rd a b :
  sim c s -> regb rd && regb a && regb b = true -> ok_mode (is_Some (isa_exec (ScW rd a b) size s)) ->
  wp t (sc_w (E:=E) rd a b) c (mem_post (ScW rd a b) size s).
Proof.
  intros Hs [[Hrd%regb_range Ha%regb_range]%andb_true_iff Hb%regb_range]%andb_true_iff Ht.
  unfold sc_w. apply wp_bind, (wp_reg _ _ _ _ Hs Ha). intros Hax.
  assert (0 <= a_reg s a) as Hpos by apply Hax.
  cbn in Ht. unfold mem_post. cbn [isa_exec isa_compute isa_branch isa_load_op isa_store_op isa_amo_op].
  apply wp_bind. apply (wp_aligned _ _ 4); [apply land_3| |].
  { intros Et. destruct (Ht Et) as [y Hy]. by destruct (Z.eqb_spec (a_reg s a mod 4) 0). }
  intros Hal. rewrite Hal in *. cbn [negb Z.eqb] in *. apply wp_bind, wp_get.
  rewrite (sm_res _ _ (proj1 Hs)). destruct (decide (a_res s = Some (a_reg s a))) as [Er|Er].
  - apply wp_bind_assoc, wp_bind, (wp_reg _ _ _ _ Hs Hb). intros Hbx. apply wp_bind_assoc, wp_bind.
    eapply (wp_cpu_write W32); [done..| |].
    { intros Et. destruct (Ht Et) as [y Hy]. change (Z.to_nat (width_bytes W32)) with 4%nat.
      by destruct (isa_store _ _ _ _). }
    intros c1 s1 Hst Hs1. change (Z.to_nat (width_bytes W32)) with 4%nat in Hst.
    apply wp_bind. eapply wp_set_reg; [apply Hs1|done|by split|].
    intros c2 Hs2 _. apply wp_modify. eexists. split; [by apply sim_mid_set_reservation|].
    split; [cbn; rewrite a_pc_wr; by eapply isa_store_pc|]. by rewrite Hst.
  - apply wp_bind. eapply wp_set_reg; [apply Hs|done|by split|].
    intros c2 Hs2 _. apply wp_modify. eexists. split; [by apply sim_mid_set_reservation|].
    split; [apply a_pc_wr|done].
Qed.

Lemma sra_spec x y : w32 (Z.shiftr (as_i32 x) (Z.land y 0x1f)) = (signed x / 2 ^ (y mod 32)) mod 2 ^ 32.
Proof. by rewrite shr_spec. Qed.

Ltac solve_alu :=
  intros; cbv beta; split;
  [ lazymatch goal with
    | |- u32_shl _ _ = _ => apply shl_spec
    | |- wrap 32 (Z.shiftr (as_signed 32 _) _) = _ => apply sra_spec
    | |- Z.shiftr _ _ = _ => apply shr_spec
    | |- mulh _ _ = _ => apply mulh_spec
    | |- mulhsu _ _ = _ => apply mulhsu_spec
    | |- mulhu _ _ = _ => by apply mulhu_spec
    | |- div _ _ = _ => by apply div_spec
    | |- rem _ _ = _ => by apply rem_spec
    | |- u32_add _ (wrap 32 _) = _ => apply add_imm
    | |- wrap 32 (Z.min _ _) = _ => by apply min_signed
    | |- wrap 32 (Z.max _ _) = _ => by apply max_signed
    | |- _ => reflexivity
    end
  | first [ by auto with vnd | repeat case_match; auto with vnd ] ].

Lemma u32_min x y : is_u32 x -> is_u32 y -> is_u32 (Z.min x y).
Proof. intros [] []. split; lia. Qed.
Lemma u32_max' x y : is_u32 x -> is_u32 y -> is_u32 (Z.max x y).
Proof. intros [] []. split; lia. Qed.
#[local] Hint Resolve u32_min u32_max' : vnd.

Lemma wp_aligned_mem op size c s addr mask n msg (Q : unit -> Cpu M -> Prop) :
  Z.land addr mask = addr mod n -> (forall y, isa_exec op size s = Some y -> addr mod n = 0) ->
  ok_mode (is_Some (isa_exec op size s)) -> Q tt c ->
  wp t (aligned (E:=E) addr mask msg) c Q.
Proof.
  intros E0 Hy Ht HQ. apply (wp_aligned _ _ n); [done| |done].
  intros Et. destruct (Ht Et) as [y Hy']. by eapply Hy.
Qed.
Ltac aligned_load n l :=
  apply wp_bind; eapply (wp_aligned_mem _ _ _ _ _ _ n _ _ (l _)); [|eassumption|];
  [ cbn; intros ?; destruct (isa_load _ _ _) eqn:Hl; [|done]; intros _; by apply isa_load_aligned in Hl
  | ].
Ltac aligned_store n l :=
  apply wp_bind; eapply (wp_aligned_mem _ _ _ _ _ _ n _ _ (l _)); [|eassumption|];
  [ cbn; intros ?; destruct (isa_store _ _ _ _) eqn:Hl; [|done]; intros _;
    by apply isa_store_aligned in Hl
  | ].

Lemma wp_execute_mem op size c s :
  sim c s -> op_wf op = true -> isa_compute op (a_pc s) (a_reg s) = None ->
  isa_branch op (a_reg s) = None ->
  match op with Jal _ _ | Jalr _ _ _ | Fence | Ecall | Break | Unknown => False | _ => True end ->
  ok_mode (is_Some (isa_exec op size s)) ->
  wp t (execute_mem (E:=E) op) c (mem_post op size s).
Proof.
  intros Hs Hwf Hc Hb Hop Ht.
  assert (forall r i, 0 <= (a_reg s r + i) mod 2 ^ 32) as Hpos by (intros; apply Z.mod_pos_bound; lia).
  assert (forall r, 0 <= r < 32 -> is_u32 (a_reg s r)) as Hu by (intros; by apply (sim_reg_range _ _ _ Hs)).
  destruct op; try done; clear Hop Hc Hb; cbn [execute_mem op_wf] in *.
  1-5: apply andb_true_iff in Hwf as [[Hd%regb_range Ha]%andb_true_iff _];
    apply wp_bind, (wp_load_addr _ _ _ _ _ Hs Ha).
  all: try (apply andb_true_iff in Hwf as [[Ha Hb]%andb_true_iff _];
    apply wp_bind, (wp_load_addr _ _ _ _ _ Hs Ha); apply regb_range in Hb).
  all: try (eapply wp_amo; [done..| |reflexivity|done]; solve_alu).
  all: try by apply wp_lr.
  all: try by apply wp_sc.
  - eapply (wp_load _ _ _ _ W8); [done..|apply Hpos|reflexivity|done|].
    intros x Hx. cbn in Hx. rewrite sext8 by lia. split; [done|].
    destruct (Z.ltb_spec x 128); split; lia.
  - aligned_load 2 land_1. eapply (wp_load _ _ _ _ W16); [done..|apply Hpos|reflexivity|done|].
    intros x Hx. cbn in Hx. rewrite sext16 by lia. split; [done|].
    destruct (Z.ltb_spec x 32768); split; lia.
  - aligned_load 4 land_3. by eapply (wp_load _ _ _ _ W32 _ _ id); [done..|apply Hpos|reflexivity|done|].
  - eapply (wp_load _ _ _ _ W8 _ _ id); [done..|apply Hpos|reflexivity|done|].
    intros x Hx. cbn in Hx. split; [done|]. split; unfold id; lia.
  - aligned_load 2 land_1. eapply (wp_load _ _ _ _ W16 _ _ id); [done..|apply Hpos|reflexivity|done|].
    intros x Hx. cbn in Hx. split; [done|]. split; unfold id; lia.
  - apply wp_bind, (wp_reg _ _ _ _ Hs Hb). intros _.
    by eapply (wp_store _ _ _ _ W8); [done|apply Hpos|reflexivity|].
  - aligned_store 2 land_1. apply wp_bind, (wp_reg _ _ _ _ Hs Hb). intros _.
    by eapply (wp_store _ _ _ _ W16); [done|apply Hpos|reflexivity|].
  - aligned_store 4 land_3. apply wp_bind, (wp_reg _ _ _ _ Hs Hb). intros Hy.
    pose proof (wp_store (Sw rs1 rs2 imm) size c s W32 _ (a_reg s rs2) Hs (Hpos rs1 imm) eq_refl Ht)
      as Hw.
    rewrite (wrap_small (8 * width_bytes W32) _ Hy) in Hw. exact Hw.
Qed.

Lemma sim_mid_set_pc c s x : sim_mid c s -> is_u32 x -> sim_mid (set_pc x c) (jump x s).
Proof.
  intros [] Hx. split; cbn [a_pc a_reg a_seg a_res jump set_pc pc regs reservation_addr]; done.
Qed.

Lemma wp_execute_op op size c s :
  sim c s -> op_wf op = true -> is_u32 size -> ok_mode (is_Some (isa_exec op size s)) ->
  wp t (execute_op (E:=E) op size) c (exec_post op size s).
Proof.
  intros Hs Hwf Hsz Ht.
  assert (is_u32 (a_pc s)) as Hpc by (rewrite (sm_pc _ _ (proj1 Hs)); apply Hs).
  assert (may_err t = true \/ is_Some (isa_exec op size s)) as Hfail
    by (destruct t; [right; by apply Ht|by left..]).
  assert (forall op', op = op' -> isa_compute op (a_pc s) (a_reg s) = None ->
    isa_branch op (a_reg s) = None ->
    match op with Jal _ _ | Jalr _ _ _ | Fence | Ecall | Break | Unknown => False | _ => True end ->
    wp t (execute_mem (E:=E) op';; mret size) c (exec_post op size s)) as Hmem.
  { intros op' <- H1 H2 H3. apply wp_bind. eapply wp_mono; [by apply (wp_execute_mem op size c s)|].
    intros _ c' (s1 & Hs1 & Hpc1 & He). apply wp_ret. exists s1. split; [done|]. by rewrite Hpc1. }
  destruct op; cbn [execute_op]; try by apply Hmem.
  all: clear Hmem; cbn [op_wf] in Hwf.
  all: lazymatch goal with
       | |- wp _ (binop _ _ _ _;; _) _ _ => eapply wp_binop; [exact Hs|exact Hwf|reflexivity|solve_alu]
       | |- wp _ (immop _ _ _;; _) _ _ =>
           apply andb_true_iff in Hwf as [Hwf _]; eapply wp_immop; [exact Hs|exact Hwf|reflexivity|solve_alu]
       | |- wp _ (branch _ _ _ _ _) _ _ =>
           apply andb_true_iff in Hwf as [Hwf _]; apply wp_branch; [exact Hs|exact Hwf|reflexivity]
       | |- wp _ (fail _) _ _ => apply wp_fail; destruct Hfail as [?|[? ?]]; done
       | _ => idtac
       end.
  - apply wp_bind, wp_get. apply andb_true_iff in Hwf as [Hrd%regb_range _].
    rewrite add_imm, <- (sm_pc _ _ (proj1 Hs)).
    eapply wp_write_result; [apply Hs|done|apply u32_mod|reflexivity].
  - apply wp_bind, wp_get. apply andb_true_iff in Hwf as [Hrd%regb_range _]. apply wp_bind.
    rewrite <- (sm_pc _ _ (proj1 Hs)).
    eapply wp_set_reg; [apply Hs|done|apply u32_mod|]. intros c' Hs' _. apply wp_ret.
    eexists. split; [exact Hs'|]. by rewrite a_pc_wr, add_imm.
  - apply andb_true_iff in Hwf as [[Hrd%regb_range Ha%regb_range]%andb_true_iff _].
    apply wp_bind, (wp_reg _ _ _ _ Hs Ha). intros Hx. apply wp_bind, wp_get. apply wp_bind.
    rewrite <- (sm_pc _ _ (proj1 Hs)), add_imm, jalr_target by apply u32_mod.
    set (target := 2 * _). assert (is_u32 target) as Htg.
    { destruct (u32_mod (a_reg s rs1 + imm)). unfold target. split; dlia. }
    eapply wp_set_reg; [apply Hs|done|apply u32_mod|]. intros c' Hs' _.
    apply wp_bind, wp_modify, wp_ret. eexists. split; [by apply sim_mid_set_pc|].
    cbn. unfold u32_add. by rewrite Z.add_0_r, (wrap_small 32) by done.
  - apply andb_true_iff in Hwf as [Hrd%regb_range _].
    eapply wp_write_result; [apply Hs|done|apply u32_mod|reflexivity].
  - apply wp_ret. exists s. split; [apply Hs|reflexivity].
Qed.

Lemma wp_finish c s1 inc :
  sim_mid c s1 -> wp t (finish (E:=E) inc) c (fun _ c' => sim c' (jump (u32_add (a_pc s1) inc) s1)).
Proof.
  intros Hs. unfold finish. rewrite (sm_pc _ _ Hs). apply wp_bind, wp_modify.
  pose proof (sim_mid_set_pc c s1 (u32_add (pc c) inc) Hs (w32_range _)) as Hs'.
  unfold set_reg. apply wp_bind, wp_get.
  rewrite (proj2 (Z.ltb_lt _ _)) by (rewrite (sm_len _ _ Hs'); lia). apply wp_put. split.
  - by apply (sim_mid_wr _ _ 0 0 Hs').
  - apply list_lookup_insert_eq. cbn. rewrite (sm_len _ _ Hs). lia.
Qed.

Lemma wp_execute {H} inst (handler : option (EcallHandler (M:=M) (E:=E) H)) (h : H) c s :
  let '(op, size) := decode inst in
  sim c s -> is_u32 inst -> op <> Ecall -> ok_mode (is_Some (isa_exec op size s)) ->
  wp t (execute inst handler) (h, c) (fun _ hc =>
    fst hc = h /\ exists s', isa_exec op size s = Some s' /\ sim (snd hc) s').
Proof.
  destruct (decode inst) as [op size] eqn:Ed. intros Hs Hi Hop Ht.
  destruct (decode_word_wf inst Hi) as [Hwf Hsz]. rewrite Ed in Hwf, Hsz. cbn in Hwf, Hsz.
  assert (is_u32 size) as Hsz' by (rewrite Hsz; case_match; split; lia).
  unfold execute. rewrite Ed. apply wp_bind.
  replace (match op, handler with Ecall, Some handle_ecall => _ | _, _ => _ end)
    with (zoom (S:=H * Cpu M) snd (fun x hc => (fst hc, x)) (execute_op (E:=E) op size))
    by (destruct op, handler; done).
  apply wp_zoom. eapply wp_mono; [by apply (wp_execute_op op size c s)|].
  intros inc c' (s1 & Hs1 & He). apply wp_zoom.
  eapply wp_mono; [by apply wp_finish|]. intros [] c'' Hs''. split; [done|]. by eexists.
Qed.

End sim.
