(* ===== verification/CpuProps.v ===== *)
(** * Properties of the processor

    Fetching, running, and the theorems that [CpuSpec]'s lemmas give: refinement of
    the abstract machine, independence of the kind of memory, write protection of
    the code, absence of panics, precise faults, reservations, arithmetic. *)

From S2P Require Import Prelude Riscv RiscvSpec Memory MemorySpec Cpu Isa CpuSpec.

Section props.
Context {M : Type} `{PL : PagedMemoryLaws M} {t : mode} `{Serves : !PagedMemoryServes M t}.
Context {E : Type}.
Implicit Types (seg : MemorySegment M) (c : Cpu M).

(** ** Instruction fetch *)

Lemma flat_byte {b} seg v a :
  seg_ok seg -> seg_covered seg v -> represents b (paged_memory seg) v -> in_seg seg a 1 ->
  exists x, flat (start_address seg) v a = Some x /\ is_u8 x.
Proof.
  intros Hok Hc Hr Hin. destruct (Hc a Hin) as [p Hp].
  pose proof (represents_ok _ _ _ _ _ Hr Hp) as [Hl Hb]. unfold flat. rewrite Hp. cbn.
  pose proof (Z.mod_pos_bound (a - page_start (start_address seg)) 256 ltac:(lia)).
  assert (is_Some (p !! Z.to_nat ((a - page_start (start_address seg)) mod 256))) as [x Eb]
    by (apply lookup_lt_is_Some; lia).
  exists x. split; [done|]. by eapply (Forall_lookup_1 _ _ _ _ Hb).
Qed.

Lemma region_bytes_ok {w} seg g a n :
  seg_sim w seg g -> in_seg seg a (Z.of_nat n) ->
  exists bs, region_bytes g a n = Some bs /\ length bs = n /\ bytes_ok bs.
Proof.
  intros [Hok _ _ (v & Hr & Hc & Hb)]. revert a; induction n as [|n IH]; intros a Hin.
  - by exists [].
  - cbn. rewrite Hb by (destruct Hin; split; lia).
    destruct (flat_byte (b:=w) seg v a) as (b & -> & Hbb); [done..|destruct Hin; split; lia|].
    destruct (IH (a + 1)) as (bs & -> & <- & Hbs); [destruct Hin; split; lia|].
    exists (b :: bs). split; [done|]. split; [done|]. by constructor.
Qed.

Lemma region_bytes_app g a n k :
  region_bytes g a (n + k) =
    (x ← region_bytes g a n; y ← region_bytes g (a + Z.of_nat n) k; Some (x ++ y)).
Proof.
  revert a; induction n as [|n IH]; intros a; cbn [region_bytes Nat.add].
  - rewrite Z.add_0_r. cbn. by destruct (region_bytes g a k).
  - destruct (r_byte g a); cbn; [|done]. rewrite IH.
    destruct (region_bytes g (a + 1) n); cbn; [|done].
    replace (a + 1 + Z.of_nat n) with (a + Z.of_nat (S n)) by lia.
    by destruct (region_bytes g (a + Z.of_nat (S n)) k).
Qed.

Lemma le_value_app l1 l2 :
  le_value (l1 ++ l2) = le_value l1 + 256 ^ Z.of_nat (length l1) * le_value l2.
Proof.
  induction l1 as [|b l IH]; [cbn; lia|]. cbn [app le_value length].
  rewrite IH, Nat2Z.inj_succ, Z.pow_succ_r by lia. lia.
Qed.

(** A word is its two halves. *)
Lemma region_load_halves {w} seg g a x :
  seg_sim w seg g -> region_load g a 4 = Some x ->
  exists lo hi, region_load g a 2 = Some lo /\ region_load g (a + 2) 2 = Some hi /\
    x = lo + 2 ^ 16 * hi /\ 0 <= lo < 2 ^ 16.
Proof.
  intros Hs Hx. unfold region_load in *. destruct (access_in g a 4) eqn:E4; [|done].
  pose proof (access_in_iff _ _ a 2 Hs) as A2. pose proof (access_in_iff _ _ (a + 2) 2 Hs) as A3.
  apply (access_in_iff _ _ _ _ Hs) in E4 as [Hin Hm]. change (Z.of_nat 4) with 4 in *.
  change (Z.of_nat 2) with 2 in *.
  rewrite (proj2 A2), (proj2 A3) by (destruct Hin; split; [split; lia|dlia]).
  change 4%nat with (2 + 2)%nat in Hx. rewrite region_bytes_app in Hx.
  destruct (region_bytes_ok seg g a 2 Hs) as (b1 & E1 & L1 & O1); [destruct Hin; split; lia|].
  destruct (region_bytes_ok seg g (a + 2) 2 Hs) as (b2 & E2 & L2 & O2); [destruct Hin; split; lia|].
  change (Z.of_nat 2) with 2 in *. rewrite E1, E2 in *. cbn in Hx. injection Hx as <-.
  exists (le_value b1), (le_value b2). split; [done|]. split; [done|].
  rewrite le_value_app, L1. split; [done|].
  pose proof (le_value_range _ O1) as Hr. by rewrite L1 in Hr.
Qed.

Lemma decode_low w w' :
  w mod 2 ^ 16 = w' mod 2 ^ 16 -> (w mod 4 <> 3) -> decode w = decode w'.
Proof.
  intros Hw Hc. assert (w mod 4 = w' mod 4) as E4.
  { rewrite <- (Z.mod_mod_divide w (2 ^ 16) 4), <- (Z.mod_mod_divide w' (2 ^ 16) 4), Hw;
      [done|by exists 16384..]. }
  unfold decode. rewrite !land_3. rewrite <- E4.
  destruct (Z.eqb_spec (w mod 4) 3); [done|]. cbn [negb]. by unfold wrap; rewrite Hw.
Qed.

(** What a fetch gives: the word decodes like the abstract machine's. *)
Definition fetch_post (s : arch) (w : Z) (c' : Cpu M) : Prop :=
  sim c' s /\ is_u32 w /\ exists w', isa_fetch s = Some w' /\ decode w = decode w'.

Lemma wp_code_read w c s (Q : Z -> Cpu M -> Prop) a :
  sim c s -> 0 <= a ->
  (t = Total -> is_Some (region_load (a_seg s CodeSeg) a (Z.to_nat (width_bytes w)))) ->
  (forall x c', region_load (a_seg s CodeSeg) a (Z.to_nat (width_bytes w)) = Some x ->
     0 <= x < 256 ^ width_bytes w -> sim c' s -> Q x c') ->
  wp t (with_seg (E:=E) CodeSeg (read_width w a)) c Q.
Proof.
  intros Hs Ha Ht HQ. apply wp_with_seg.
  eapply wp_mono; [eapply wp_region_load; [apply Hs|done|exact Ht]|].
  intros x seg' (Hx & Hr & Hs'). apply HQ; [done|done|by apply sim_same_seg].
Qed.

Lemma wp_fetch c s :
  sim c s -> (t = Total -> is_Some (isa_fetch s)) ->
  wp t (fetch_instruction (E:=E)) c (fetch_post s).
Proof.
  intros Hs Ht. pose proof (sm_pc _ _ (proj1 Hs)) as Epc.
  destruct (sm_pc_range _ _ (proj1 Hs)) as [Hp0 Hp1].
  unfold fetch_instruction. apply wp_bind, wp_get. rewrite <- Epc in *.
  assert (t = Total -> is_Some (region_load (a_seg s CodeSeg) (a_pc s) 2)) as Ht2.
  { intros Et. destruct (Ht Et) as [y Hy]. unfold isa_fetch in Hy.
    by destruct (region_load (a_seg s CodeSeg) (a_pc s) 2). }
  pose proof (sm_seg _ _ (proj1 Hs) CodeSeg) as Hseg. destruct (ss_ok _ _ _ Hseg).
  destruct ((a_pc s mod 4 =? 0) && contains (code_seg c) (u32_add (a_pc s) 3)) eqn:Efast.
  - apply andb_true_iff in Efast as [Hm%Z.eqb_eq Hcon].
    change (code_seg c) with (seg_of CodeSeg c) in Hcon.
    rewrite (contains_sim c s CodeSeg _ Hs) in Hcon. unfold in_region in Hcon.
    unfold u32_add in Hcon. rewrite w32_small in Hcon by (split; [lia|]; dlia).
    eapply (wp_code_read W32); [done|done| |].
    + intros Et. destruct (Ht2 Et) as [lo Hlo]. unfold region_load in *. change (Z.to_nat (width_bytes W32)) with 4%nat.
      pose proof (access_in_iff _ _ (a_pc s) 4 Hseg) as A4.
      destruct (access_in _ (a_pc s) 2) eqn:E2; [|done].
      apply (access_in_iff _ _ _ _ Hseg) in E2 as [Hin _].
      assert (in_seg (seg_of CodeSeg c) (a_pc s) 4) as Hin4.
      { destruct Hin. destruct Hseg as [_ E1 E2 _]. split; lia. }
      rewrite (proj2 A4) by done.
      destruct (region_bytes_ok _ _ (a_pc s) 4 Hseg Hin4) as (bs & -> & _). by eexists.
    + intros x c' Hx Hr Hs'. change (Z.to_nat (width_bytes W32)) with 4%nat in Hx.
      destruct (region_load_halves _ _ _ _ Hseg Hx) as (lo & hi & Hlo & Hhi & Hxe & Hlr).
      split; [done|]. split; [done|]. unfold isa_fetch. rewrite Hlo. cbn.
      destruct (Z.eqb_spec (lo mod 4) 3) as [E3|E3].
      * rewrite Hhi. cbn. eexists. split; [done|]. by rewrite Hxe.
      * exists lo. split; [done|]. apply decode_low; rewrite Hxe.
        -- rewrite Z.mul_comm, Z.mod_add by lia. done.
        -- change (2 ^ 16) with (16384 * 4). rewrite <- Z.mul_assoc, (Z.mul_comm 4), Z.mul_assoc, Z.mod_add by lia.
           done.
  - apply wp_bind. eapply (wp_code_read W16); [done|done|exact Ht2|].
    intros lo c1 Hlo Hr Hs1. change (Z.to_nat (width_bytes W16)) with 2%nat in Hlo.
    change (256 ^ width_bytes W16) with (2 ^ 16) in Hr. rewrite land_3.
    unfold fetch_post, isa_fetch in *. rewrite Hlo in *. cbn [mbind option_bind] in *.
    destruct (Z.eqb_spec (lo mod 4) 3) as [E3|E3]; cbn [negb].
    + apply wp_bind. assert (u32_add (a_pc s) 2 = a_pc s + 2) as ->.
      { apply w32_small. unfold region_load in Hlo. destruct (access_in _ (a_pc s) 2) eqn:E2; [|done].
        apply (access_in_iff _ _ _ _ Hseg) in E2 as [[] _]. lia. }
      eapply (wp_code_read W16); [done|lia| |].
      * intros Et. destruct (Ht Et) as [y Hy]. change (Z.to_nat (width_bytes W16)) with 2%nat.
        by destruct (region_load _ (a_pc s + 2) 2).
      * intros hi c2 Hhi Hr2 Hs2. change (Z.to_nat (width_bytes W16)) with 2%nat in Hhi.
        change (256 ^ width_bytes W16) with (2 ^ 16) in Hr2.
        apply wp_ret. rewrite Hhi. cbn. rewrite Z.shiftl_mul_pow2, Z.mul_comm, lor_add by lia.
        split; [done|]. split; [split; lia|]. by eexists.
    + apply wp_bind, wp_ret, wp_ret. rewrite Z.shiftl_0_l, Z.lor_0_l.
      split; [done|]. split; [split; lia|]. by eexists.
Qed.

Lemma wp_cpu_step {H} (h : H) c s :
  sim c s -> (t = Total -> is_Some (isa_step s)) ->
  wp t (cpu_step (None : option (EcallHandler (M:=M) (E:=E) H))) (h, c) (fun _ hc =>
    fst hc = h /\ exists s', isa_step s = Some s' /\ sim (snd hc) s').
Proof.
  intros Hs Ht. unfold cpu_step. apply wp_bind, wp_zoom.
  eapply wp_mono; [apply (wp_fetch c s Hs)|].
  { intros Et. destruct (Ht Et) as [y Hy]. unfold isa_step in Hy. by destruct (isa_fetch s). }
  intros w c' (Hs' & Hw & w' & Hf & Hd). cbn [fst snd]. unfold isa_step in *. rewrite Hf in *.
  cbn [mbind option_bind] in *. rewrite <- Hd in *.
  pose proof (wp_execute (t:=t) (E:=E) w (None : option (EcallHandler H)) h c' s) as Hx.
  destruct (decode w) as [op size] eqn:Edw. destruct (decide (op = Ecall)) as [->|Hne].
  - unfold execute. rewrite Edw. apply wp_bind, wp_zoom, wp_fail.
    destruct t; [|done..]. by destruct (Ht eq_refl).
  - by apply Hx.
Qed.

Lemma wp_cpu_run {H} n (h : H) c s :
  sim c s -> (t = Total -> is_Some (isa_run n s)) ->
  wp t (cpu_run (None : option (EcallHandler (M:=M) (E:=E) H)) n) (h, c) (fun _ hc =>
    fst hc = h /\ exists s', isa_run n s = Some s' /\ sim (snd hc) s').
Proof.
  revert c s; induction n as [|n IH]; intros c s Hs Ht; cbn [cpu_run isa_run] in *.
  - apply wp_ret. split; [done|]. by eexists.
  - apply wp_bind. eapply wp_mono; [apply (wp_cpu_step h c s Hs)|].
    { intros Et. destruct (Ht Et) as [y Hy]. by destruct (isa_step s). }
    intros _ [h' c'] (Hh & s' & Hst & Hs'). cbn in Hh, Hs'. subst h'. rewrite Hst in *.
    cbn [mbind option_bind] in *. by apply IH.
Qed.

End props.

(** ** Write protection on the abstract side *)

Lemma wr_seg rd x s : a_seg (wr rd x s) = a_seg s.
Proof. unfold wr. by destruct (rd =? 0). Qed.

Lemma find_seg_elem s a ids id : find_seg s a ids = Some id -> id ∈ ids.
Proof.
  induction ids as [|i ids IH]; cbn; [done|].
  destruct (in_region (a_seg s i) a); [intros [= <-]|intros H%IH]; set_solver.
Qed.

Lemma isa_store_code n a x s s' :
  isa_store n a x s = Some s' -> a_seg s' CodeSeg = a_seg s CodeSeg.
Proof.
  unfold isa_store. destruct (find_seg s a writable) as [id|] eqn:Ef; cbn; [|done].
  apply find_seg_elem in Ef. destruct (region_store _ _ _); cbn; [|done]. intros [= <-]. cbn.
  rewrite decide_False; [done|]. intros <-. unfold writable in Ef. set_solver.
Qed.

Lemma isa_exec_code op size s s' :
  isa_exec op size s = Some s' -> a_seg s' CodeSeg = a_seg s CodeSeg.
Proof.
  unfold isa_exec.
  destruct (isa_compute op (a_pc s) (a_reg s)) as [[rd x]|].
  { intros [= <-]. cbn. by rewrite wr_seg. }
  destruct (isa_branch op (a_reg s)) as [[[] i]|]; [by intros [= <-]..|].
  destruct (isa_load_op op) as [[[[[n ext] rd] a] i]|].
  { destruct (isa_load _ _ s); cbn; [|done]. intros [= <-]. cbn. by rewrite wr_seg. }
  destruct (isa_store_op op) as [[[[n a] b] i]|].
  { destruct (isa_store _ _ _ s) eqn:E0; cbn; [|done]. intros [= <-]. cbn. by eapply isa_store_code. }
  destruct (isa_amo_op op) as [[[[f rd] a] b]|].
  { destruct (isa_load _ _ s); cbn; [|done]. destruct (isa_store _ _ _ s) eqn:E0; cbn; [|done].
    intros [= <-]. cbn. rewrite wr_seg. by eapply isa_store_code. }
  destruct op; try done; cbn.
  - intros [= <-]. cbn. by rewrite wr_seg.
  - intros [= <-]. cbn. by rewrite wr_seg.
  - destruct (isa_load _ _ s); cbn; [|done]. intros [= <-]. cbn. by rewrite wr_seg.
  - destruct (negb _); [done|]. case_decide.
    + destruct (isa_store _ _ _ s) eqn:E0; cbn; [|done].
      intros [= <-]. cbn. rewrite wr_seg. by eapply isa_store_code.
    + intros [= <-]. cbn. by rewrite wr_seg.
  - by intros [= <-].
Qed.

Lemma isa_run_code n s s' : isa_run n s = Some s' -> a_seg s' CodeSeg = a_seg s CodeSeg.
Proof.
  revert s; induction n as [|n IH]; intros s; cbn; [by intros [= <-]|].
  destruct (isa_step s) as [s1|] eqn:Es; cbn; [|done]. intros ->%IH.
  unfold isa_step in Es. destruct (isa_fetch s) as [w|]; cbn in Es; [|done].
  destruct (decode w) as [op size]. by eapply isa_exec_code.
Qed.

(** ** The state of a processor over a [VecMemory] *)

Definition region_of (seg : MemorySegment VecMemory) : region :=
  mkRegion (start_address seg) (size seg)
    (flat (start_address seg) (vec_view (paged_memory seg))).
Definition arch_of (c : Cpu VecMemory) : arch :=
  mkArch (pc c) (fun r => default 0 (regs c !! Z.to_nat r)) (fun id => region_of (seg_of id c))
    (reservation_addr c).

(** A segment that fits in the pages of its memory. *)
Definition vec_seg_ok (seg : MemorySegment VecMemory) : Prop :=
  seg_ok seg /\ Forall page_ok (pages (paged_memory seg)) /\
  (start_address seg + size seg - 1 - page_start (start_address seg)) / 256
    < Z.of_nat (length (pages (paged_memory seg))).

Lemma vec_seg_sim b seg : vec_seg_ok seg -> seg_sim b seg (region_of seg).
Proof.
  intros (Hok & Hp & Hl). split; [done..|]. exists (vec_view (paged_memory seg)).
  split; [by apply vec_view_represents|]. split; [|done].
  intros a [H1 H2]. unfold vec_view. rewrite lookup_pages_from.
  pose proof (page_index_pos seg a Hok (conj H1 H2)). rewrite decide_True by done.
  apply lookup_lt_is_Some.
  assert ((a - page_start (start_address seg)) / 256 <=
    (start_address seg + size seg - 1 - page_start (start_address seg)) / 256)
    by (apply Z.div_le_mono; lia). lia.
Qed.

Definition vec_cpu_ok (c : Cpu VecMemory) : Prop :=
  is_u32 (pc c) /\ length (regs c) = 32%nat /\ Forall is_u32 (regs c) /\ regs c !! 0%nat = Some 0 /\
  reservation_addr c = None /\ forall id, vec_seg_ok (seg_of id c).

Lemma vec_cpu_sim c : vec_cpu_ok c -> sim c (arch_of c).
Proof.
  intros (Hpc & Hl & Hr & H0 & Hres & Hs). split; [|done]. split; try done.
  - unfold arch_of, a_reg. change (Z.to_nat 0) with 0%nat. by rewrite H0.
  - intros r Hr0. cbn.
    destruct (lookup_lt_is_Some_2 (regs c) (Z.to_nat r)) as [x ->]; [lia|done].
  - cbn. by rewrite Hres.
  - intros id. apply vec_seg_sim, Hs.
Qed.

Lemma sim_regs_eq {M1 M2} `{PL1 : PagedMemoryLaws M1} `{PL2 : PagedMemoryLaws M2}
    (c1 : Cpu M1) (c2 : Cpu M2) s :
  sim c1 s -> sim c2 s -> pc c1 = pc c2 /\ regs c1 = regs c2.
Proof.
  intros H1 H2. split.
  - by rewrite <- (sm_pc _ _ (proj1 H1)), <- (sm_pc _ _ (proj1 H2)).
  - apply list_eq. intros i. destruct (decide (i < 32)%nat) as [Hi|Hi].
    + pose proof (sim_reg_lookup c1 s (Z.of_nat i) H1 ltac:(lia)) as E1.
      pose proof (sim_reg_lookup c2 s (Z.of_nat i) H2 ltac:(lia)) as E2.
      rewrite Nat2Z.id in E1, E2. congruence.
    + pose proof (sm_len _ _ (proj1 H1)). pose proof (sm_len _ _ (proj1 H2)).
      rewrite !lookup_ge_None_2 by lia. done.
Qed.

(** ** Faults *)

(** [m] returns an error only with the registers, the program counter and the
    reservation of its initial state, and when [quiet] is set so does its success. *)
Definition same_core {M} (c c' : Cpu M) : Prop :=
  pc c' = pc c /\ regs c' = regs c /\ reservation_addr c' = reservation_addr c.
Definition precise {M E A} (quiet : bool) (m : ST (Cpu M) (CpuError E) A) : Prop :=
  forall c, match m c with
            | (Err _, c') => same_core c c'
            | (Ok _, c') => if quiet then same_core c c' else True
            | _ => True
            end.
Definition never_err {S E A} (m : ST S E A) : Prop :=
  forall s, match m s with (Err _, _) => False | _ => True end.

Section faults.
Context {M : Type} `{PM : PagedMemory M} {E : Type}.
Implicit Types (c : Cpu M).

Lemma same_core_refl c : same_core c c.
Proof. done. Qed.
Lemma same_core_trans c1 c2 c3 : same_core c1 c2 -> same_core c2 c3 -> same_core c1 c3.
Proof. unfold same_core. naive_solver congruence. Qed.

Lemma precise_bind {A B} q (m : ST (Cpu M) (CpuError E) A) (f : A -> ST (Cpu M) (CpuError E) B) :
  precise true m -> (forall a, precise q (f a)) -> precise q (x ← m; f x).
Proof.
  intros Hm Hf c. specialize (Hm c). unfold mbind, st_mbind, st_bind.
  destruct (m c) as [[a|e| |] c1]; try done. specialize (Hf a c1).
  destruct (f a c1) as [[b|e| |] c2]; try done; [destruct q; [|done]|]; by eapply same_core_trans.
Qed.
Lemma precise_seq {A B} (m : ST (Cpu M) (CpuError E) A) (f : A -> ST (Cpu M) (CpuError E) B) :
  precise false m -> (forall a, never_err (f a)) -> precise false (x ← m; f x).
Proof.
  intros Hm Hf c. specialize (Hm c). unfold mbind, st_mbind, st_bind.
  destruct (m c) as [[a|e| |] c1]; try done. specialize (Hf a c1).
  by destruct (f a c1) as [[b|e| |] c2].
Qed.
Lemma precise_weaken {A} q (m : ST (Cpu M) (CpuError E) A) : precise true m -> precise q m.
Proof. intros H c. specialize (H c). destruct (m c) as [[] ?]; destruct q; done. Qed.
Lemma never_precise {A} (m : ST (Cpu M) (CpuError E) A) : never_err m -> precise false m.
Proof. intros H c. specialize (H c). by destruct (m c) as [[] ?]. Qed.

Lemma never_bind {A B} (m : ST (Cpu M) (CpuError E) A) (f : A -> ST (Cpu M) (CpuError E) B) :
  never_err m -> (forall a, never_err (f a)) -> never_err (x ← m; f x).
Proof.
  intros Hm Hf c. specialize (Hm c). unfold mbind, st_mbind, st_bind.
  destruct (m c) as [[a|e| |] c1]; try done. apply Hf.
Qed.
Lemma never_ret {A} (a : A) : never_err (mret a : ST (Cpu M) (CpuError E) A).
Proof. done. Qed.
Lemma never_modify f : never_err (modify f : ST (Cpu M) (CpuError E) unit).
Proof. done. Qed.
Lemma never_set_reg i x : never_err (set_reg i x : ST (Cpu M) (CpuError E) unit).
Proof.
  intros c. unfold set_reg, mbind, st_mbind, st_bind, get, put, panic. by destruct (_ <? _).
Qed.

Lemma never_finish inc : never_err (finish inc : ST (Cpu M) (CpuError E) unit).
Proof. apply never_bind; [apply never_modify|intros _; apply never_set_reg]. Qed.

Lemma precise_ret {A} (a : A) : precise true (mret a : ST (Cpu M) (CpuError E) A).
Proof. done. Qed.
Lemma precise_get : precise true (get : ST (Cpu M) (CpuError E) (Cpu M)).
Proof. done. Qed.
Lemma precise_fail {A} e : precise true (fail e : ST (Cpu M) (CpuError E) A).
Proof. done. Qed.
Lemma precise_lift {A} (o : outcome (CpuError E) A) :
  precise true (lift o : ST (Cpu M) (CpuError E) A).
Proof. intros c. unfold lift. by destruct o. Qed.
Lemma precise_with_seg {A} id (m : ST (MemorySegment M) MemoryError A) :
  precise true (with_seg (E:=E) id m).
Proof.
  intros c. unfold with_seg, zoom, map_err. destruct (m (seg_of id c)) as [o s'].
  destruct o; cbn; try done; by destruct id.
Qed.
Lemma precise_reg i : precise true (reg (E:=E) (M:=M) i).
Proof. apply precise_bind; [apply precise_get|]. intros; apply precise_lift. Qed.
Lemma precise_aligned a m msg : precise true (aligned (E:=E) (M:=M) a m msg).
Proof. apply precise_lift. Qed.
Lemma precise_load_addr a i : precise true (load_addr (E:=E) (M:=M) a i).
Proof. apply precise_bind; [apply precise_reg|]. intros; apply precise_ret. Qed.
Lemma precise_read (r : Z -> ST (MemorySegment M) MemoryError Z) a : precise true (cpu_read (E:=E) r a).
Proof.
  apply precise_bind; [apply precise_get|]. intros c. repeat case_match;
    (apply precise_with_seg || apply precise_fail).
Qed.
Lemma precise_write (w : Z -> Z -> ST (MemorySegment M) MemoryError unit) n a x : precise false (cpu_write (E:=E) w n a x).
Proof.
  apply precise_bind; [apply precise_get|]. intros c. apply precise_seq; [|intros; apply never_modify].
  repeat case_match; apply precise_weaken; (apply precise_with_seg || apply precise_fail).
Qed.

End faults.

Ltac precise_step :=
  lazymatch goal with
  | |- precise _ (match ?x with _ => _ end) => destruct x
  | |- precise _ (if ?x then _ else _) => destruct x
  | |- precise _ (mret _) => apply precise_weaken, precise_ret
  | |- precise _ (fail _) => apply precise_weaken, precise_fail
  | |- precise _ (set_reg _ _) => apply never_precise, never_set_reg
  | |- precise _ (reg _) => apply precise_weaken, precise_reg
  | |- precise _ (cpu_write_u8 _ _) => apply precise_write
  | |- precise _ (cpu_write_u16 _ _) => apply precise_write
  | |- precise _ (cpu_write_u32 _ _) => apply precise_write
  | |- precise _ (get ≫= _) => apply precise_bind; [apply precise_get|intros ?]
  | |- precise _ (reg _ ≫= _) => apply precise_bind; [apply precise_reg|intros ?]
  | |- precise _ (aligned _ _ _ ≫= _) => apply precise_bind; [apply precise_aligned|intros ?]
  | |- precise _ (load_addr _ _ ≫= _) => apply precise_bind; [apply precise_load_addr|intros ?]
  | |- precise _ (cpu_read_u8 _ ≫= _) => apply precise_bind; [apply precise_read|intros ?]
  | |- precise _ (cpu_read_u16 _ ≫= _) => apply precise_bind; [apply precise_read|intros ?]
  | |- precise _ (cpu_read_u32 _ ≫= _) => apply precise_bind; [apply precise_read|intros ?]
  | |- precise _ (_ ≫= _) => apply precise_seq; [|intros ?]
  | |- never_err (_ ≫= _) => apply never_bind; [|intros ?]
  | |- never_err (set_reg _ _) => apply never_set_reg
  | |- never_err (modify _) => apply never_modify
  | |- never_err (mret _) => apply never_ret
  end.

Lemma precise_execute_op {M} `{PM : PagedMemory M} {E} op sz :
  precise false (execute_op (M:=M) (E:=E) op sz).
Proof.
  destruct op; cbn [execute_op execute_mem];
    unfold binop, immop, branch, amo, lr_w, sc_w; repeat precise_step.
Qed.

(** ** The properties of the processor *)

Section properties.
Context {M : Type} `{PL : PagedMemoryLaws M} {E H : Type}.
Implicit Types (c : Cpu M).

(** C19. [execute] refines the abstract machine, for every instruction word but ECALL and
    over any lawful paged memory: when it returns, the registers, the program counter,
    the reservation and the contents of the three segments are those the abstract
    instruction gives (and where the abstract machine traps it does not return); and over
    a memory that serves its pages it does return whenever the abstract machine does. *)
Theorem execute_refines inst (handler : option (EcallHandler (M:=M) (E:=E) H)) h c s :
  sim c s -> is_u32 inst -> fst (decode inst) <> Ecall ->
  let next := isa_exec (fst (decode inst)) (snd (decode inst)) s in
  (forall h' c', execute inst handler (h, c) = (Ok tt, (h', c')) ->
     h' = h /\ exists s', next = Some s' /\ sim c' s') /\
  (PagedMemoryServes M Total -> is_Some next ->
     exists c', execute inst handler (h, c) = (Ok tt, (h, c'))).
Proof.
  intros Hs Hi Hop next. pose proof (wp_execute (M:=M) (t:=Partial) inst handler h c s) as HP.
  pose proof (fun S => wp_execute (M:=M) (t:=Total) (Serves:=S) inst handler h c s) as HT.
  subst next. destruct (decode inst) as [op size]. cbn [fst snd] in *. split.
  - intros h' c' He. by apply (wp_ok _ _ _ _ _ _ (HP Hs Hi Hop ltac:(done)) He).
  - intros HS Hn. destruct (wp_total _ _ _ (HT HS Hs Hi Hop (fun _ => Hn))) as ([] & [h' c'] & He & Hh & _).
    cbn in Hh. subst h'. by exists c'.
Qed.

(** Running [n] instructions over an outsourced memory, or any other lawful one,
    computes exactly what running them over plain vectors of pages that hold the same
    contents computes: same registers, same program counter, same contents. *)
Theorem run_memory_independent n h c (c2 : Cpu VecMemory) s h' c' :
  sim c s -> sim c2 s ->
  cpu_run (None : option (EcallHandler (M:=M) (E:=E) H)) n (h, c) = (Ok tt, (h', c')) ->
  exists (c2' : Cpu VecMemory) (s' : arch),
    cpu_run (None : option (EcallHandler (M:=VecMemory) (E:=E) H)) n (h, c2) = (Ok tt, (h, c2')) /\
    isa_run n s = Some s' /\ sim c' s' /\ sim c2' s' /\ pc c' = pc c2' /\ regs c' = regs c2'.
Proof.
  intros H1 H2 Hr.
  destruct (wp_ok _ _ _ _ _ _ (wp_cpu_run (t:=Partial) n h c s H1 ltac:(done)) Hr)
    as (_ & s' & Hs' & Hc').
  destruct (wp_total _ _ _ (wp_cpu_run (M:=VecMemory) (E:=E) (t:=Total) n h c2 s H2 ltac:(by eexists)))
    as ([] & [h2 c2'] & Hr2 & Hh & s2 & Hs2 & Hc2). cbn in Hh. subst h2.
  rewrite Hs' in Hs2. injection Hs2 as <-. exists c2', s'.
  destruct (sim_regs_eq c' c2' s' Hc' Hc2). done.
Qed.

(** W^X: however many instructions run, the contents of the code segment are those
    it started with. *)
Theorem run_code_unchanged n h c s h' c' :
  sim c s ->
  cpu_run (None : option (EcallHandler (M:=M) (E:=E) H)) n (h, c) = (Ok tt, (h', c')) ->
  exists s', sim c' s' /\ a_seg s' CodeSeg = a_seg s CodeSeg.
Proof.
  intros Hs Hr. destruct (wp_ok _ _ _ _ _ _ (wp_cpu_run (t:=Partial) n h c s Hs ltac:(done)) Hr)
    as (_ & s' & Hs' & Hc'). exists s'. split; [done|]. by eapply isa_run_code.
Qed.

(** Whatever the program does, an instruction is executed or refused with an error
    value, and the next instructions too: no fetch, decode or execution panics (no
    register index, page index or slice is out of range) over a memory whose pages may
    be refused. *)
Theorem run_never_panics `{!PagedMemoryServes M Safe} n h c s :
  sim c s ->
  match cpu_run (None : option (EcallHandler (M:=M) (E:=E) H)) n (h, c) with
  | (Ok _, _) | (Err _, _) => True
  | _ => False
  end.
Proof.
  intros Hs. pose proof (wp_cpu_run (t:=Safe) (E:=E) n h c s Hs ltac:(done)) as Hw. unfold wp in Hw.
  by destruct (cpu_run _ _ _) as [[] ?].
Qed.

(** C39. Faults are precise: an instruction that stops with an error leaves the
    registers, the program counter and the reservation as they were, over any paged
    memory at all. *)
Theorem execute_error_precise inst h c e h' c' :
  execute inst (None : option (EcallHandler (M:=M) (E:=E) H)) (h, c) = (Err e, (h', c')) ->
  h' = h /\ pc c' = pc c /\ regs c' = regs c /\ reservation_addr c' = reservation_addr c.
Proof.
  unfold execute. destruct (decode inst) as [op size].
  assert ((match op with
           | Ecall => zoom (S:=H * Cpu M) snd (fun x hc => (fst hc, x)) (execute_op (E:=E) op size)
           | _ => zoom (S:=H * Cpu M) snd (fun x hc => (fst hc, x)) (execute_op (E:=E) op size)
           end) = zoom snd (fun x hc => (fst hc, x)) (execute_op op size)) as -> by by destruct op.
  unfold mbind, st_mbind, st_bind, zoom. pose proof (precise_execute_op (E:=E) op size c) as Hp. cbn [snd fst].
  destruct (execute_op op size c) as [[inc|e'| |] c1] eqn:E1; try done.
  - pose proof (never_finish (E:=E) inc c1) as Hn. cbn [snd fst].
    by destruct (finish (E:=E) inc c1) as [[] ?].
  - by intros [= <- <- <-].
Qed.

(** A store ends a reservation exactly when its bytes meet the four reserved ones;
    otherwise it keeps it. *)
Theorem store_reservation_overlap c a len res :
  is_u32 a -> 0 < len -> reservation_addr c = Some res -> is_u32 res ->
  let c' := invalidate_reservation a len c in
  (reservation_addr c' = None <-> exists x, a <= x < a + len /\ res <= x < res + 4) /\
  (reservation_addr c' = None \/ c' = c).
Proof.
  intros [Ha _] Hl Hr [Hr0 _] c'. unfold c', invalidate_reservation. rewrite Hr. unfold sat_sub.
  destruct (_ && _) eqn:Eb; cbn [reservation_addr set_reservation].
  - split; [|by left]. split; [|done]. intros _. exists (Z.max a res). lia.
  - split; [|by right]. rewrite Hr. split; [done|]. intros (x & Hx1 & Hx2). lia.
Qed.

End properties.

(** The multiplication pairs give the full products, and division and remainder are
    the truncated ones: they satisfy Euclid's identity modulo [2 ^ 32], with a remainder
    smaller than the divisor and of the sign of the dividend; division by zero and the
    overflowing division give the values of the ISA, without a panic. *)
Theorem mul_div_correct x y :
  is_u32 x -> is_u32 y ->
  signed x * signed y = signed (mulh x y) * 2 ^ 32 + u32_mul x y /\
  signed x * y = signed (mulhsu x y) * 2 ^ 32 + u32_mul x y /\
  x * y = mulhu x y * 2 ^ 32 + u32_mul x y /\
  (y = 0 -> div x y = 2 ^ 32 - 1 /\ divu x y = 2 ^ 32 - 1 /\ rem x y = x /\ remu x y = x) /\
  (y <> 0 -> x = divu x y * y + remu x y /\ 0 <= remu x y < y /\
     (signed (div x y) * signed y + signed (rem x y)) mod 2 ^ 32 = x /\
     Z.abs (signed (rem x y)) < Z.abs (signed y) /\ 0 <= signed x * signed (rem x y)).
Proof.
  intros Hx Hy.
  assert (forall z, is_u32 z -> - 2 ^ 31 <= signed z < 2 ^ 31 /\ (signed z) mod 2 ^ 32 = z) as Hsg.
  { intros z Hz. split; [by apply (as_signed_range 32)|by apply (wrap_as_signed 32)]. }
  destruct (Hsg x Hx) as [Rx Ex], (Hsg y Hy) as [Ry Ey].
  assert (forall z, - 2 ^ 31 <= z < 2 ^ 31 -> signed (z mod 2 ^ 32) = z) as Hin
    by (intros; by apply (as_signed_wrap 32)).
  assert (forall p, p mod 2 ^ 32 = u32_mul x y -> - 2 ^ 63 <= p < 2 ^ 63 ->
    p = signed ((p / 2 ^ 32) mod 2 ^ 32) * 2 ^ 32 + u32_mul x y) as Hsplit.
  { intros p Hp Hb. rewrite Hin, <- Hp by (split; [apply Z.div_le_lower_bound|apply Z.div_lt_upper_bound]; lia).
    rewrite Z.mul_comm. apply Z.div_mod. lia. }
  rewrite mulh_spec, mulhsu_spec, mulhu_spec by done. destruct Hx as [Hx0 Hx1], Hy as [Hy0 Hy1].
  split; [|split; [|split; [|split]]].
  - apply Hsplit; [|nia]. unfold u32_mul, wrap. by rewrite Z.mul_mod, Ex, Ey by lia.
  - apply Hsplit; [|nia]. unfold u32_mul, wrap. by rewrite Z.mul_mod, Ex, Zmult_mod_idemp_r by lia.
  - unfold u32_mul, wrap. rewrite (Z.mul_comm (_ / _)). apply Z.div_mod. lia.
  - intros ->. done.
  - intros Hne. unfold divu, remu. rewrite (proj2 (Z.eqb_neq _ _) Hne).
    split; [rewrite Z.mul_comm; by apply Z.div_mod|]. split; [apply Z.mod_pos_bound; lia|].
    assert (signed y <> 0) as Hsy by (intros E0; rewrite E0, Z.mod_0_l in Ey; lia).
    pose proof (Z.quot_rem (signed x) (signed y) Hsy) as Eq.
    pose proof (Z.rem_bound_abs (signed x) (signed y) Hsy) as Hb.
    pose proof (Z.rem_sign_mul (signed x) (signed y) Hsy) as Hsn.
    assert (rem x y = (Z.rem (signed x) (signed y)) mod 2 ^ 32) as ->
      by (unfold rem; by rewrite (proj2 (Z.eqb_neq _ _) Hne)).
    assert ((signed (div x y)) mod 2 ^ 32 = (Z.quot (signed x) (signed y)) mod 2 ^ 32) as Ed.
    { unfold div. rewrite (proj2 (Z.eqb_neq _ _) Hne). unfold i32_wrapping_div.
      rewrite wrap_as_signed by (lia || (apply wrap_range; lia)).
      apply (wrap_as_signed 32); [lia|]. apply wrap_range. lia. }
    rewrite Hin by lia. split; [|split; [done|lia]].
    rewrite Z.add_mod, Z.mul_mod, Ed, <- Z.mul_mod, <- Z.add_mod, Z.mul_comm by lia.
    by rewrite <- Eq.
Qed.

(** ** Concrete instances *)

(** [addi x5, x0, 7; sw x5, 0(x2); lw x6, 0(x2); c.jr x1] at address 256. *)
Definition demo_program : list Z :=
  le_bytes 4 0x00700293 ++ le_bytes 4 0x00512023 ++ le_bytes 4 0x00012303 ++ le_bytes 2 0x8082.
Definition demo_page : Page := splice 0 demo_program (replicate 256 0).
Definition demo_cpu : Cpu VecMemory :=
  set_regs (<[2%nat := 2048]> (replicate 32 0))
    (cpu_new 256 (mkMemorySegment 256 256 (mkVecMemory [demo_page]))
       (mkMemorySegment 1024 256 (vec_new 1)) (mkMemorySegment 2048 256 (vec_new 1))).

Lemma demo_page_ok : page_ok demo_page.
Proof.
  apply splice_page_ok.
  - split; [done|]. apply Forall_replicate. by split.
  - repeat apply Forall_app_2; apply le_bytes_ok.
  - vm_compute. lia.
Qed.
Lemma demo_cpu_ok : vec_cpu_ok demo_cpu.
Proof.
  split; [by split|]. split; [done|]. split.
  { apply Forall_insert; [|by split]. apply Forall_replicate. by split. }
  split; [done|]. split; [done|]. intros id. split; [|split].
  - destruct id; split; vm_compute; done.
  - destruct id; [apply vec_new_ok..|]. by apply Forall_singleton, demo_page_ok.
  - destruct id; vm_compute; done.
Qed.
Lemma demo_cpu_sim : sim demo_cpu (arch_of demo_cpu).
Proof. apply vec_cpu_sim, demo_cpu_ok. Qed.

Definition no_handler : option (EcallHandler (M:=VecMemory) (E:=unit) unit) := None.

Lemma execute_refines_witness : exists c',
  execute 0x00700293 no_handler (tt, demo_cpu) = (Ok tt, (tt, c')).
Proof.
  destruct (execute_refines 0x00700293 no_handler tt demo_cpu _ demo_cpu_sim ltac:(by split)
              ltac:(vm_compute; done)) as [_ HR].
  assert (decode 0x00700293 = (Addi 5 0 7, 4)) as Ed by (vm_compute; reflexivity). rewrite Ed in HR.
  apply HR; [apply _|by eexists].
Defined.

Definition demo_run : unit * Cpu VecMemory := snd (cpu_run no_handler 3 (tt, demo_cpu)).
Lemma demo_run_eq : cpu_run no_handler 3 (tt, demo_cpu) = (Ok tt, (tt, snd demo_run)).
Proof. vm_compute. reflexivity. Qed.

Lemma run_memory_independent_witness : exists (c2' : Cpu VecMemory) (s' : arch),
  cpu_run no_handler 3 (tt, demo_cpu) = (Ok tt, (tt, c2')) /\
  isa_run 3 (arch_of demo_cpu) = Some s' /\ sim (snd demo_run) s' /\ sim c2' s' /\
  pc (snd demo_run) = pc c2' /\ regs (snd demo_run) = regs c2'.
Proof.
  apply (run_memory_independent 3 tt demo_cpu demo_cpu (arch_of demo_cpu) tt (snd demo_run)
           demo_cpu_sim demo_cpu_sim demo_run_eq).
Defined.

Lemma run_code_unchanged_witness : exists s',
  sim (snd demo_run) s' /\ a_seg s' CodeSeg = a_seg (arch_of demo_cpu) CodeSeg.
Proof.
  apply (run_code_unchanged 3 tt demo_cpu (arch_of demo_cpu) tt (snd demo_run) demo_cpu_sim demo_run_eq).
Defined.

Lemma run_never_panics_witness :
  match cpu_run no_handler 9 (tt, demo_cpu) with (Ok _, _) | (Err _, _) => True | _ => False end.
Proof. apply (run_never_panics 9 tt demo_cpu (arch_of demo_cpu) demo_cpu_sim). Defined.

(** A store to the code segment: [sw x5, 256(x0)]. *)
Lemma execute_error_precise_witness : exists c',
  execute 0x10502023 no_handler (tt, demo_cpu) = (Err (CpuMemoryError AddressOutOfBounds), (tt, c')) /\
  pc c' = pc demo_cpu /\ regs c' = regs demo_cpu.
Proof.
  eexists. split; [vm_compute; reflexivity|].
  edestruct (execute_error_precise (E:=unit) 0x10502023 tt demo_cpu) as (_ & H1 & H2 & _);
    [vm_compute; reflexivity|]. by split.
Defined.

Lemma store_reservation_overlap_witness :
  let c := set_reservation (Some 2048) demo_cpu in
  reservation_addr (invalidate_reservation 2050 1 c) = None.
Proof.
  intros c.
  apply (proj1 (store_reservation_overlap c 2050 1 2048 ltac:(by split) ltac:(lia) eq_refl ltac:(by split))).
  exists 2050. lia.
Defined.

Lemma mul_div_correct_witness :
  signed 0x80000000 * signed 0xffffffff
    = signed (mulh 0x80000000 0xffffffff) * 2 ^ 32 + u32_mul 0x80000000 0xffffffff.
Proof.
  apply (proj1 (mul_div_correct 0x80000000 0xffffffff ltac:(by split) ltac:(by split))).
Defined.
