(* ===== verification/Accumulator.v ===== *)
(** * The Merkle vector accumulator ([common/src/accumulator.rs])

    The owner of the vector keeps the whole tree ([MerkleAccumulator]), the verifier
    a root and a proof read one element at a time ([MerkleInclusionProofVerifier]),
    and [MerkleAccumulatorRootComputer] computes a root from a stream of leaf hashes.
    The hash function is the parameter that the traits [Hasher] and
    [ResettableHasher] describe. *)

From S2P Require Import Prelude.

(** [HashOutput<N>], an array of [N] bytes. *)
Abbreviation HashOutput := (list Z).

Inductive AccumulatorError : Type := IndexOutOfBounds.

(** ** The hasher traits *)

Class Hasher (H : Type) := {
  hasher_new : H;
  hasher_update : H -> list Z -> H;
  hasher_digest : H -> HashOutput;
}.
Class ResettableHasher (H : Type) `{Hasher H} := {
  hasher_reset : H -> H;
  digest_inplace : H -> HashOutput * H;
}.

(** What the documentation of the traits promises: the digest is a function of the
    concatenation of the data since the creation or the last reset. *)
Class HasherLaws (H : Type) `{RH : ResettableHasher H} (OUTPUT_SIZE : nat) := {
  hash : list Z -> HashOutput;
  absorbed : H -> list Z -> Prop;
  hash_length : forall d, length (hash d) = OUTPUT_SIZE;
  absorbed_new : absorbed hasher_new [];
  absorbed_update : forall h d x, absorbed h d -> absorbed (hasher_update h x) (d ++ x);
  absorbed_digest : forall h d, absorbed h d -> hasher_digest h = hash d;
  absorbed_reset : forall h, absorbed (hasher_reset h) [];
  digest_inplace_spec : forall h d, absorbed h d -> fst (digest_inplace h) = hash d;
}.

Section accumulator.
Context {H : Type} `{RH : ResettableHasher H}.

(** [Hasher::hash], the convenience method. *)
Definition hasher_hash (data : list Z) : HashOutput := hasher_digest (hasher_update hasher_new data).

(** ** Streaming verification *)

Record MerkleInclusionProofVerifier : Type := mkInclusionVerifier {
  current_hash : HashOutput;
  pos : Z;
  root_hash : HashOutput;
  verified : bool;
}.

Definition inclusion_feed (v : MerkleInclusionProofVerifier) (hasher : H) (sibling_hash : HashOutput)
    : MerkleInclusionProofVerifier * H :=
  if pos v =? 0 then
    (mkInclusionVerifier (current_hash v) (pos v) (root_hash v) false, hasher)
  else
    let '(lhs, rhs) :=
      if pos v mod 2 =? 0 then (sibling_hash, current_hash v) else (current_hash v, sibling_hash) in
    let hasher := hasher_reset hasher in
    let hasher := hasher_update hasher [1] in
    let hasher := hasher_update hasher lhs in
    let hasher := hasher_update hasher rhs in
    let '(current, hasher) := digest_inplace hasher in
    let pos' := (pos v - 1) / 2 in
    (mkInclusionVerifier current pos' (root_hash v)
       (if pos' =? 0 then bool_decide (current = root_hash v) else verified v), hasher).

Record MerkleUpdateProofVerifier : Type := mkUpdateVerifier {
  old_verifier : MerkleInclusionProofVerifier;
  new_verifier : MerkleInclusionProofVerifier;
}.

Definition update_feed (v : MerkleUpdateProofVerifier) (hasher : H) (sibling_hash : HashOutput)
    : MerkleUpdateProofVerifier * H :=
  let '(old, hasher) := inclusion_feed (old_verifier v) hasher sibling_hash in
  let '(new, hasher) := inclusion_feed (new_verifier v) hasher sibling_hash in
  (mkUpdateVerifier old new, hasher).
Definition update_verified (v : MerkleUpdateProofVerifier) : bool :=
  verified (new_verifier v) && verified (old_verifier v).

(** [usize] is 32 bits wide on the device. *)
Definition begin_inclusion_proof (root value_hash : HashOutput) (index size : Z)
    : MerkleInclusionProofVerifier :=
  mkInclusionVerifier value_hash (u32_add (u32_sub size 1) index) root
    ((size =? 1) && bool_decide (value_hash = root)).
Definition begin_update_proof (old_root new_root old_value_hash new_value_hash : HashOutput)
    (index size : Z) : MerkleUpdateProofVerifier :=
  mkUpdateVerifier (begin_inclusion_proof old_root old_value_hash index size)
    (begin_inclusion_proof new_root new_value_hash index size).

Fixpoint inclusion_feed_all (v : MerkleInclusionProofVerifier) (hasher : H)
    (proof : list HashOutput) : MerkleInclusionProofVerifier * H :=
  match proof with
  | [] => (v, hasher)
  | el :: proof =>
      let '(v, hasher) := inclusion_feed v hasher el in inclusion_feed_all v hasher proof
  end.
Fixpoint update_feed_all (v : MerkleUpdateProofVerifier) (hasher : H)
    (proof : list HashOutput) : MerkleUpdateProofVerifier * H :=
  match proof with
  | [] => (v, hasher)
  | el :: proof =>
      let '(v, hasher) := update_feed v hasher el in update_feed_all v hasher proof
  end.

Definition verify_inclusion_proof (root : HashOutput) (proof : list HashOutput)
    (value_hash : HashOutput) (index size : Z) : bool :=
  verified (fst (inclusion_feed_all (begin_inclusion_proof root value_hash index size)
                   hasher_new proof)).
Definition verify_update_proof (old_root new_root : HashOutput) (update_proof : list HashOutput)
    (old_value_hash new_value_hash : HashOutput) (index size : Z) : bool :=
  update_verified
    (fst (update_feed_all
            (begin_update_proof old_root new_root old_value_hash new_value_hash index size)
            hasher_new update_proof)).

(** ** MerkleAccumulator

    Positions in the tree are array indices, natural numbers. *)

Record MerkleAccumulator : Type := mkMerkleAccumulator {
  data : list (list Z);
  tree : list HashOutput;
}.

Definition is_power_of_two (size : nat) : bool := Nat.eqb (2 ^ Nat.log2 size) size.
Definition has_valid_leaf_count (size : nat) : bool := (0 <? size)%nat && is_power_of_two size.

Definition hash_leaf (data : list Z) : HashOutput :=
  hasher_digest (hasher_update (hasher_update hasher_new [0]) data).
Definition hash_internal_node (lhs rhs : HashOutput) : HashOutput :=
  hasher_digest (hasher_update (hasher_update (hasher_update hasher_new [1]) lhs) rhs).
Definition hash_element (element : list Z) : HashOutput := hash_leaf element.

(** [self.tree[i]]. *)
Definition tree_at (tree : list HashOutput) (i : nat) : outcome AccumulatorError HashOutput :=
  unwrap (tree !! i).

(** [for i in (0..k).rev()]: the assignments of [build_tree]. *)
Fixpoint build_loop (k : nat) (tree : list HashOutput) : outcome AccumulatorError (list HashOutput) :=
  match k with
  | O => Ok tree
  | S i =>
      lhs ← tree_at tree (2 * i + 1);
      rhs ← tree_at tree (2 * i + 2);
      build_loop i (<[i := hash_internal_node lhs rhs]> tree)
  end.
Definition build_tree (OUTPUT_SIZE : nat) (data : list (list Z))
    : outcome AccumulatorError (list HashOutput) :=
  let n := length data in
  let leaves := hash_leaf <$> data in
  let tree := replicate (2 * n - 1) (replicate OUTPUT_SIZE 0) in
  build_loop (n - 1) (splice (n - 1) leaves tree).

Definition merkle_new (OUTPUT_SIZE : nat) (data : list (list Z))
    : outcome AccumulatorError MerkleAccumulator :=
  assert_or_panic (has_valid_leaf_count (length data));;
  tree ← build_tree OUTPUT_SIZE data;
  Ok (mkMerkleAccumulator data tree).

Definition merkle_get (m : MerkleAccumulator) (index : nat) : option (list Z) := data m !! index.
Definition merkle_size (m : MerkleAccumulator) : nat := length (data m).
Definition merkle_root (m : MerkleAccumulator) : outcome AccumulatorError HashOutput :=
  tree_at (tree m) 0.

(** The loops climb to the root; [pos] iterations are enough. *)
Fixpoint prove_loop (fuel : nat) (tree : list HashOutput) (pos : nat) (proof : list HashOutput)
    : outcome AccumulatorError (list HashOutput) :=
  if (0 <? pos)%nat then
    match fuel with
    | O => Diverge
    | S fuel =>
        el ← tree_at tree (if Nat.even pos then pos - 1 else pos + 1)%nat;
        prove_loop fuel tree ((pos - 1) / 2)%nat (proof ++ [el])
    end
  else Ok proof.
Definition prove (m : MerkleAccumulator) (index : nat)
    : outcome AccumulatorError (list HashOutput) :=
  guard_err (length (data m) <=? index)%nat IndexOutOfBounds;;
  let pos := (length (data m) - 1 + index)%nat in
  prove_loop pos (tree m) pos [].

Fixpoint update_loop (fuel : nat) (tree : list HashOutput) (pos : nat)
    : outcome AccumulatorError (list HashOutput) :=
  if (0 <? pos)%nat then
    match fuel with
    | O => Diverge
    | S fuel =>
        let pos := ((pos - 1) / 2)%nat in
        lhs ← tree_at tree (2 * pos + 1);
        rhs ← tree_at tree (2 * pos + 2);
        if (pos <? length tree)%nat then
          update_loop fuel (<[pos := hash_internal_node lhs rhs]> tree) pos
        else Panic
    end
  else Ok tree.
Definition merkle_update (m : MerkleAccumulator) (index : nat) (value : list Z)
    : outcome AccumulatorError (list HashOutput * HashOutput * MerkleAccumulator) :=
  guard_err (length (data m) <=? index)%nat IndexOutOfBounds;;
  merkle_proof ← prove m index;
  let data' := <[index := value]> (data m) in
  let pos := (length (data m) - 1 + index)%nat in
  assert_or_panic (pos <? length (tree m))%nat;;
  tree' ← update_loop pos (<[pos := hash_leaf value]> (tree m)) pos;
  let m' := mkMerkleAccumulator data' tree' in
  new_root ← merkle_root m';
  Ok (merkle_proof, new_root, m').

(** ** MerkleAccumulatorRootComputer *)

Record RootComputer : Type := mkRootComputer {
  rc_n : nat;
  cur_size : nat;
  (** the stack, its top at the end like the [Vec] *)
  hashes : list HashOutput;
}.

Fixpoint trailing_zeros_pos (p : positive) : nat :=
  match p with xO p => S (trailing_zeros_pos p) | _ => O end.
(** [usize::trailing_zeros] of a nonzero number. *)
Definition trailing_zeros (n : nat) : nat :=
  match N.of_nat n with N0 => 64%nat | Npos p => trailing_zeros_pos p end.

Definition root_computer_new (n : nat) : outcome AccumulatorError RootComputer :=
  assert_or_panic (has_valid_leaf_count n);;
  Ok (mkRootComputer n 0 []).

(** [Vec::pop]. *)
Definition vec_pop {A} (l : list A) : option (A * list A) :=
  match rev l with [] => None | x :: r => Some (x, rev r) end.

Fixpoint combine_loop (d : nat) (hashes : list HashOutput)
    : outcome AccumulatorError (list HashOutput) :=
  match d with
  | O => Ok hashes
  | S d =>
      '(rhs, hashes) ← unwrap (vec_pop hashes);
      '(lhs, hashes) ← unwrap (vec_pop hashes);
      combine_loop d (hashes ++ [hash_internal_node lhs rhs])
  end.
Definition root_computer_feed (rc : RootComputer) (leaf_hash : HashOutput)
    : outcome AccumulatorError RootComputer :=
  assert_or_panic (cur_size rc <? rc_n rc)%nat;;
  let hashes := hashes rc ++ [leaf_hash] in
  let cur_size := S (cur_size rc) in
  hashes ← combine_loop (trailing_zeros cur_size) hashes;
  Ok (mkRootComputer (rc_n rc) cur_size hashes).
Definition root_computer_root (rc : RootComputer) : outcome AccumulatorError HashOutput :=
  assert_or_panic (Nat.eqb (cur_size rc) (rc_n rc));;
  unwrap (hashes rc !! 0%nat).

(** Feeding every leaf hash in order. *)
Fixpoint root_computer_feed_all (rc : RootComputer) (leaves : list HashOutput)
    : outcome AccumulatorError RootComputer :=
  match leaves with
  | [] => Ok rc
  | l :: leaves => rc ← root_computer_feed rc l; root_computer_feed_all rc leaves
  end.

End accumulator.
