(* ===== verification/AccumulatorSpec.v ===== *)
(** * Correctness and soundness of the Merkle accumulator

    The tree invariant and its preservation, completeness of the proofs, the root
    computer; and soundness: a proof that the verifier accepts is the genuine one of
    the genuine leaf, or an explicit collision of the hash function is computed from
    it ([find_collision]). *)

From S2P Require Import Prelude Accumulator.

(** Lookup with a default, for positions known to be in range. *)
Abbreviation at_ t i := (default [] (t !! (i)%nat)).

Lemma lookup_at (t : list HashOutput) i : (i < length t)%nat -> t !! i = Some (at_ t i).
Proof. intros Hi. by destruct (lookup_lt_is_Some_2 t i Hi) as [x ->]. Qed.

Lemma valid_count n : has_valid_leaf_count n = true <-> exists e, n = (2 ^ e)%nat.
Proof.
  unfold has_valid_leaf_count, is_power_of_two. rewrite andb_true_iff, Nat.ltb_lt, Nat.eqb_eq. split.
  - intros [_ E]. by exists (Nat.log2 n).
  - intros [e ->]. rewrite Nat.log2_pow2 by lia. split; [|done].
    pose proof (Nat.pow_nonzero 2 e ltac:(lia)). lia.
Qed.

Section spec.
Context {H : Type} `{HL : HasherLaws H OUTPUT_SIZE}.

Definition node (l r : HashOutput) : HashOutput := hash (1 :: l ++ r).
Definition leaf (d : list Z) : HashOutput := hash (0 :: d).

Lemma hash_leaf_eq d : hash_leaf (H:=H) d = leaf d.
Proof.
  apply absorbed_digest. apply (absorbed_update _ [0] d), (absorbed_update _ [] [0]), absorbed_new.
Qed.
Lemma hash_internal_node_eq l r : hash_internal_node (H:=H) l r = node l r.
Proof.
  apply absorbed_digest. change (1 :: l ++ r) with (([1] ++ l) ++ r).
  apply absorbed_update, absorbed_update, (absorbed_update _ [] [1]), absorbed_new.
Qed.
Lemma hasher_hash_eq d : hasher_hash (H:=H) d = hash d.
Proof. apply absorbed_digest. apply (absorbed_update _ [] d), absorbed_new. Qed.

(** ** The tree invariant *)

Record tree_ok (leaves t : list HashOutput) : Prop := {
  tk_pos : (0 < length leaves)%nat;
  tk_len : length t = (2 * length leaves - 1)%nat;
  tk_leaves : forall i, (i < length leaves)%nat -> at_ t (length leaves - 1 + i) = at_ leaves i;
  tk_nodes : forall i, (i < length leaves - 1)%nat ->
    at_ t i = node (at_ t (2 * i + 1)) (at_ t (2 * i + 2));
}.
Definition acc_ok (m : MerkleAccumulator) : Prop :=
  has_valid_leaf_count (length (data m)) = true /\ tree_ok (leaf <$> data m) (tree m).

Lemma at_insert_eq (t : list HashOutput) i x : (i < length t)%nat -> at_ (<[i := x]> t) i = x.
Proof. intros. by rewrite list_lookup_insert_eq. Qed.
Lemma at_insert_ne (t : list HashOutput) i j x : i <> j -> at_ (<[i := x]> t) j = at_ t j.
Proof. intros. by rewrite list_lookup_insert_ne. Qed.

Lemma tree_at_ok (t : list HashOutput) i : (i < length t)%nat -> tree_at t i = Ok (at_ t i).
Proof. intros Hi. unfold tree_at. by rewrite (lookup_at t i Hi). Qed.

Lemma build_loop_spec n k t :
  length t = (2 * n - 1)%nat -> (k <= n - 1)%nat ->
  exists t', build_loop (H:=H) k t = Ok t' /\ length t' = length t /\
    (forall i, (k <= i)%nat -> at_ t' i = at_ t i) /\
    (forall i, (i < k)%nat -> at_ t' i = node (at_ t' (2 * i + 1)) (at_ t' (2 * i + 2))).
Proof.
  revert t; induction k as [|k IH]; intros t Hl Hk.
  - exists t. cbn. repeat split; auto; intros; lia.
  - cbn [build_loop]. rewrite !tree_at_ok by lia. cbn [mbind outcome_mbind outcome_bind].
    rewrite hash_internal_node_eq.
    destruct (IH (<[k := node (at_ t (2 * k + 1)) (at_ t (2 * k + 2))]> t)) as (t' & -> & Hl' & Hge & Hn);
      [rewrite length_insert; lia|lia|].
    exists t'. rewrite length_insert in Hl'. split; [done|]. split; [done|]. split.
    + intros i Hi. rewrite Hge by lia. apply at_insert_ne. lia.
    + intros i Hi. destruct (decide (i = k)) as [->|]; [|apply Hn; lia].
      rewrite !Hge by lia. rewrite at_insert_eq, !at_insert_ne by lia. done.
Qed.

Lemma merkle_new_spec d :
  has_valid_leaf_count (length d) = true ->
  exists t, merkle_new (H:=H) OUTPUT_SIZE d = Ok (mkMerkleAccumulator d t) /\
    acc_ok (mkMerkleAccumulator d t).
Proof.
  intros Hv. unfold merkle_new. rewrite Hv. cbn [assert_or_panic mbind outcome_mbind outcome_bind].
  unfold build_tree. pose proof Hv as [e He]%valid_count.
  assert (0 < length d)%nat by (pose proof (Nat.pow_nonzero 2 e ltac:(lia)); lia).
  set (t0 := splice _ _ _).
  assert (length t0 = (2 * length d - 1)%nat) as Hl0.
  { subst t0. rewrite length_splice; rewrite ?length_replicate, ?length_fmap; lia. }
  destruct (build_loop_spec (length d) (length d - 1) t0 Hl0 ltac:(lia)) as (t & -> & Hl & Hge & Hn).
  exists t. split; [done|]. split; [done|]. cbn. split; rewrite ?length_fmap; [lia..| |].
  - intros i Hi. rewrite Hge by lia. unfold t0. rewrite lookup_splice by (rewrite length_replicate; lia).
    rewrite decide_True by (rewrite length_fmap; lia).
    replace (length d - 1 + i - (length d - 1))%nat with i by lia.
    rewrite !list_lookup_fmap. destruct (d !! i); cbn; [by rewrite hash_leaf_eq|done].
  - intros i Hi. apply Hn. lia.
Qed.

(** Two trees over the same leaves are the same. *)
Lemma tree_ok_unique leaves t t' : tree_ok leaves t -> tree_ok leaves t' -> t = t'.
Proof.
  intros [Hp L1 A1 N1] [_ L2 A2 N2]. apply list_eq. intros i.
  destruct (decide (i < 2 * length leaves - 1)%nat) as [Hi|Hi].
  2: { rewrite !lookup_ge_None_2 by lia. done. }
  rewrite (lookup_at t i), (lookup_at t' i) by lia. f_equal.
  (* the positions are settled from the leaves up *)
  remember (2 * length leaves - 1 - i)%nat as m eqn:Em. revert i Hi Em.
  induction m as [m IH] using lt_wf_ind. intros i Hi Em.
  destruct (decide (length leaves - 1 <= i)%nat).
  - replace i with (length leaves - 1 + (i - (length leaves - 1)))%nat by lia.
    rewrite A1, A2 by lia. done.
  - rewrite N1, N2 by lia. f_equal; eapply IH; [|lia|reflexivity| |lia|reflexivity]; lia.
Qed.

(** ** Paths *)

Definition parent (p : nat) : nat := ((p - 1) / 2)%nat.
Definition sibling (p : nat) : nat := (if Nat.even p then p - 1 else p + 1)%nat.

Lemma parent_cases p : (0 < p)%nat ->
  (p = (2 * parent p + 1)%nat /\ Nat.even p = false /\ sibling p = (2 * parent p + 2)%nat) \/
  (p = (2 * parent p + 2)%nat /\ Nat.even p = true /\ sibling p = (2 * parent p + 1)%nat).
Proof.
  intros Hp. unfold parent, sibling. pose proof (Nat.div_mod (p - 1) 2 ltac:(lia)) as Hd.
  pose proof (Nat.mod_upper_bound (p - 1) 2 ltac:(lia)) as Hm.
  destruct (Nat.eq_dec ((p - 1) mod 2)%nat 0%nat) as [E|E].
  - left. assert (p = 2 * ((p - 1) / 2) + 1)%nat as Ep by lia. split; [done|].
    assert (Nat.even p = false) as ->; [|split; [done|lia]].
    rewrite Ep, Nat.even_add, Nat.even_mul. done.
  - right. assert (p = 2 * ((p - 1) / 2) + 2)%nat as Ep by lia. split; [done|].
    assert (Nat.even p = true) as ->; [|split; [done|lia]].
    rewrite Ep, Nat.even_add, Nat.even_mul. done.
Qed.
Lemma parent_lt p : (0 < p)%nat -> (parent p < p)%nat.
Proof. intros Hp. destruct (parent_cases p Hp); lia. Qed.

(** The sibling hashes from a position up to the root. *)
Fixpoint siblings (fuel : nat) (t : list HashOutput) (p : nat) : list HashOutput :=
  match fuel with
  | O => []
  | S fuel => if (0 <? p)%nat then at_ t (sibling p) :: siblings fuel t (parent p) else []
  end.

Lemma siblings_fuel f f' t p : (p <= f)%nat -> (p <= f')%nat -> siblings f t p = siblings f' t p.
Proof.
  revert f' p; induction f as [|f IH]; intros f' p Hf Hf'.
  - assert (p = 0)%nat as -> by lia. by destruct f'.
  - destruct f' as [|f']; [assert (p = 0)%nat as -> by lia; done|]. cbn [siblings].
    destruct (Nat.ltb_spec 0 p); [|done]. pose proof (parent_lt p). f_equal. apply IH; lia.
Qed.

Lemma sibling_bound n p : (0 < p)%nat -> (p < 2 * n - 1)%nat -> (sibling p < 2 * n - 1)%nat.
Proof. intros Hp Hb. destruct (parent_cases p Hp) as [(? & _ & ->)|(? & _ & ->)]; lia. Qed.

Lemma prove_loop_spec n fuel t p acc :
  length t = (2 * n - 1)%nat -> (p < 2 * n - 1)%nat -> (p <= fuel)%nat ->
  prove_loop fuel t p acc = Ok (acc ++ siblings fuel t p).
Proof.
  intros Hl. revert p acc; induction fuel as [|fuel IH]; intros p acc Hp Hf; cbn [prove_loop siblings].
  - assert (p = 0)%nat as -> by lia. cbn. by rewrite app_nil_r.
  - destruct (Nat.ltb_spec 0 p); [|by rewrite app_nil_r].
    pose proof (sibling_bound n p ltac:(lia) Hp). pose proof (parent_lt p ltac:(lia)).
    fold (sibling p). rewrite tree_at_ok by lia. cbn [mbind outcome_mbind outcome_bind].
    fold (parent p). rewrite IH by lia. by rewrite <- app_assoc.
Qed.

Lemma prove_spec m i :
  acc_ok m -> (i < length (data m))%nat ->
  prove m i = Ok (siblings (length (data m) - 1 + i) (tree m) (length (data m) - 1 + i)).
Proof.
  intros [_ []] Hi. rewrite length_fmap in *. unfold prove.
  rewrite (proj2 (Nat.leb_gt _ _)) by lia. cbn [guard_err mbind outcome_mbind outcome_bind].
  rewrite (prove_loop_spec (length (data m))) by lia. done.
Qed.

(** The root that a proof leads to from a position. *)
Fixpoint root_from (p : nat) (h : HashOutput) (proof : list HashOutput) : option HashOutput :=
  match proof with
  | [] => if Nat.eqb p 0 then Some h else None
  | s :: proof =>
      if Nat.eqb p 0 then None
      else root_from (parent p) (if Nat.even p then node s h else node h s) proof
  end.

Lemma root_from_complete leaves t p fuel :
  tree_ok leaves t -> (p < 2 * length leaves - 1)%nat -> (p <= fuel)%nat ->
  root_from p (at_ t p) (siblings fuel t p) = Some (at_ t 0).
Proof.
  intros Ht. revert p; induction fuel as [|fuel IH]; intros p Hp Hf; cbn [siblings].
  - assert (p = 0)%nat as -> by lia. done.
  - destruct (Nat.ltb_spec 0 p); cbn [root_from]; [|assert (p = 0)%nat as -> by lia; done].
    rewrite (proj2 (Nat.eqb_neq _ _)) by lia.
    pose proof (parent_lt p ltac:(lia)). rewrite <- (IH (parent p)) by lia. f_equal.
    destruct (parent_cases p) as [(Ep & -> & ->)|(Ep & -> & ->)]; [lia|..];
      rewrite (tk_nodes _ _ Ht (parent p)) by lia; by rewrite <- Ep.
Qed.

(** ** The streaming verifier computes [root_from] *)

Lemma feed_hash (hs : H) l r :
  fst (digest_inplace (hasher_update (hasher_update (hasher_update (hasher_reset hs) [1]) l) r))
  = node l r.
Proof.
  apply digest_inplace_spec. change (1 :: l ++ r) with (([1] ++ l) ++ r).
  apply absorbed_update, absorbed_update, (absorbed_update _ [] [1]), absorbed_reset.
Qed.

Lemma pos_parity p : (Z.of_nat p mod 2 =? 0) = Nat.even p.
Proof.
  rewrite <- Zeven_mod. induction p as [p IH] using lt_wf_ind. destruct p as [|[|p]]; [done..|].
  rewrite (Nat.even_succ_succ p), <- (IH p) by lia. rewrite !Nat2Z.inj_succ.
  by rewrite Z.even_succ_succ.
Qed.
Lemma pos_parent p : (0 < p)%nat -> (Z.of_nat p - 1) / 2 = Z.of_nat (parent p).
Proof. intros. unfold parent. rewrite Nat2Z.inj_div, Nat2Z.inj_sub by lia. done. Qed.

(** One feed below the root. *)
Lemma inclusion_feed_step h p root b (hs : H) s :
  (0 < p)%nat -> exists hs',
  let h' := if Nat.even p then node s h else node h s in
  inclusion_feed (mkInclusionVerifier h (Z.of_nat p) root b) hs s =
    (mkInclusionVerifier h' (Z.of_nat (parent p)) root
       (if Nat.eqb (parent p) 0 then bool_decide (h' = root) else b), hs').
Proof.
  intros Hp. unfold inclusion_feed. cbn [pos current_hash root_hash verified].
  rewrite (proj2 (Z.eqb_neq _ _)) by lia. rewrite pos_parity, pos_parent by done.
  replace (Z.of_nat (parent p) =? 0) with (Nat.eqb (parent p) 0)
    by (destruct (Nat.eqb_spec (parent p) 0), (Z.eqb_spec (Z.of_nat (parent p)) 0); lia).
  destruct (Nat.even p).
  - pose proof (feed_hash hs s h) as Hf. destruct (digest_inplace _) as [d hs']. cbn in Hf. subst d.
    by exists hs'.
  - pose proof (feed_hash hs h s) as Hf. destruct (digest_inplace _) as [d hs']. cbn in Hf. subst d.
    by exists hs'.
Qed.

Lemma inclusion_feed_all_root h root b (hs : H) s proof :
  verified (fst (inclusion_feed_all (mkInclusionVerifier h 0 root b) hs (s :: proof))) = false.
Proof.
  cbn. clear s. revert hs; induction proof as [|s proof IH]; intros hs; cbn; [done|]. apply IH.
Qed.

Lemma inclusion_feed_all_spec p h root (hs : H) proof :
  (0 < p)%nat ->
  verified (fst (inclusion_feed_all (mkInclusionVerifier h (Z.of_nat p) root false) hs proof))
  = bool_decide (root_from p h proof = Some root).
Proof.
  revert p h hs; induction proof as [|s proof IH]; intros p h hs Hp; cbn [inclusion_feed_all root_from].
  - rewrite (proj2 (Nat.eqb_neq _ _)) by lia. by rewrite bool_decide_false.
  - rewrite (proj2 (Nat.eqb_neq _ _)) by lia.
    destruct (inclusion_feed_step h p root false hs s Hp) as [hs' E]. rewrite E.
    set (h' := if Nat.even p then _ else _).
    destruct (Nat.eqb_spec (parent p) 0) as [E0|E0]; [|apply IH; lia].
    rewrite E0. destruct proof as [|s' proof].
    + cbn. apply bool_decide_ext. naive_solver.
    + rewrite inclusion_feed_all_root. cbn. by rewrite bool_decide_false.
Qed.

(** The positions at which a verifier is started. *)
Definition index_ok (i n : Z) : Prop := 0 <= i < n /\ n <= 2 ^ 31.

Lemma begin_pos i n : index_ok i n ->
  u32_add (u32_sub n 1) i = Z.of_nat (Z.to_nat n - 1 + Z.to_nat i).
Proof.
  intros [Hi Hn]. unfold u32_add, u32_sub. rewrite (w32_small (n - 1)), w32_small by lia. lia.
Qed.

Lemma verify_inclusion_root_from root proof vh i n :
  index_ok i n ->
  verify_inclusion_proof (H:=H) root proof vh i n =
    bool_decide (root_from (Z.to_nat n - 1 + Z.to_nat i) vh proof = Some root).
Proof.
  intros Hi. unfold verify_inclusion_proof, begin_inclusion_proof. rewrite (begin_pos _ _ Hi).
  destruct Hi as [Hi Hn]. destruct (Z.eqb_spec n 1) as [->|Hne]; cbn [andb].
  - assert (i = 0) as -> by lia. cbn. destruct proof as [|s proof].
    + cbn. apply bool_decide_ext. naive_solver.
    + change 0 with (Z.of_nat 0). rewrite inclusion_feed_all_root. cbn. by rewrite bool_decide_false.
  - apply inclusion_feed_all_spec. lia.
Qed.

(** ** Updates *)

(** [a] is a proper ancestor of [p]. *)
Inductive anc : nat -> nat -> Prop :=
| anc_parent p : (0 < p)%nat -> anc (parent p) p
| anc_step a p : (0 < p)%nat -> anc a (parent p) -> anc a p.

Lemma anc_le a p : anc a p -> (a <= parent p)%nat /\ (0 < p)%nat.
Proof. induction 1 as [p Hp|a p Hp Ha [IH Hq]]; [lia|]. pose proof (parent_lt (parent p)). lia. Qed.

Lemma update_loop_spec n fuel t p :
  length t = (2 * n - 1)%nat -> (p < 2 * n - 1)%nat -> (p <= fuel)%nat ->
  (forall i, (i < n - 1)%nat -> ~ anc i p -> at_ t i = node (at_ t (2 * i + 1)) (at_ t (2 * i + 2))) ->
  exists t', update_loop (H:=H) fuel t p = Ok t' /\ length t' = length t /\
    (forall i, (i < n - 1)%nat -> at_ t' i = node (at_ t' (2 * i + 1)) (at_ t' (2 * i + 2))) /\
    (forall i, ~ anc i p -> at_ t' i = at_ t i).
Proof.
  revert t p; induction fuel as [|fuel IH]; intros t p Hl Hp Hf Hn; cbn [update_loop].
  - assert (p = 0)%nat as -> by lia. exists t. cbn. split; [done|]. split; [done|]. split; [|done].
    intros i Hi. apply Hn; [done|]. intros Ha. apply anc_le in Ha. lia.
  - destruct (Nat.ltb_spec 0 p) as [Hp0|Hp0].
    2: { exists t. split; [done|]. split; [done|]. split; [|done].
         intros i Hi. apply Hn; [done|]. intros Ha. apply anc_le in Ha. lia. }
    fold (parent p). pose proof (parent_lt p Hp0) as Hlt.
    assert (parent p < n - 1)%nat as Hq by (destruct (parent_cases p Hp0); lia).
    rewrite !tree_at_ok by lia. cbn [mbind outcome_mbind outcome_bind].
    rewrite (proj2 (Nat.ltb_lt _ _)) by lia. rewrite hash_internal_node_eq.
    set (x := node _ _).
    destruct (IH (<[parent p := x]> t) (parent p)) as (t' & -> & Hl' & Hn' & Ha');
      [by rewrite length_insert|lia|lia|..].
    { intros i Hi Hna. destruct (decide (i = parent p)) as [->|Hne].
      - rewrite at_insert_eq, !at_insert_ne by lia. done.
      - assert (2 * i + 1 <> parent p /\ 2 * i + 2 <> parent p)%nat as [H1 H2].
        { split; intros E; apply Hna;
            (destruct (parent_cases (parent p)) as [(E' & _)|(E' & _)]; [lia|..];
             assert (i = parent (parent p)) as -> by lia; apply anc_parent; lia). }
        rewrite !at_insert_ne by lia. apply Hn; [done|].
        intros Ha. inversion Ha; subst; [done|]. by apply Hna. }
    exists t'. split; [done|]. rewrite length_insert in Hl'. split; [done|]. split; [done|].
    intros i Hna. rewrite Ha' by (intros Ha; by apply Hna, anc_step).
    apply at_insert_ne. intros <-. by apply Hna, anc_parent.
Qed.

(** Replacing a leaf and climbing gives the tree of the new leaves. *)
Lemma update_tree leaves t i x :
  tree_ok leaves t -> (i < length leaves)%nat ->
  let p := (length leaves - 1 + i)%nat in
  exists t', update_loop (H:=H) p (<[p := x]> t) p = Ok t' /\ tree_ok (<[i := x]> leaves) t' /\
    (forall j, ~ anc j p -> j <> p -> at_ t' j = at_ t j).
Proof.
  intros [Hpos Hl Hlv Hn] Hi p.
  assert (forall j, anc j p -> (j < length leaves - 1)%nat) as Hanc.
  { intros j Ha. apply anc_le in Ha as [Ha Hp]. destruct (parent_cases p Hp); lia. }
  destruct (update_loop_spec (length leaves) p (<[p := x]> t) p) as (t' & He & Hl' & Hn' & Ha').
  - by rewrite length_insert.
  - lia.
  - lia.
  - intros j Hj Hna. rewrite (at_insert_ne t p j) by lia.
    assert (2 * j + 1 <> p /\ 2 * j + 2 <> p)%nat as [H1 H2].
    { split; intros E; apply Hna;
        (destruct (parent_cases p) as [(E' & _)|(E' & _)]; [lia|..];
         assert (j = parent p) as -> by lia; apply anc_parent; lia). }
    rewrite !at_insert_ne by lia. by apply Hn.
  - rewrite length_insert in Hl'. exists t'. split; [done|]. split.
    + split; rewrite ?length_insert; [done|lia| |done].
      intros j Hj. rewrite Ha' by (intros Hc; apply Hanc in Hc; lia).
      destruct (decide (i = j)) as [<-|Hne].
      * rewrite at_insert_eq by lia. by rewrite at_insert_eq.
      * rewrite at_insert_ne by lia. rewrite at_insert_ne by lia. by apply Hlv.
    + intros j Hna Hne. rewrite Ha' by done. by apply at_insert_ne.
Qed.

Lemma siblings_frame_le fuel t t' p :
  (forall j, ~ anc j p -> j <> p -> (j <= 2 * parent p + 2)%nat -> at_ t' j = at_ t j) ->
  siblings fuel t' p = siblings fuel t p.
Proof.
  revert p; induction fuel as [|fuel IH]; intros p Hj; cbn [siblings]; [done|].
  destruct (Nat.ltb_spec 0 p) as [Hp|]; [|done].
  assert (parent p < sibling p /\ sibling p <= 2 * parent p + 2 /\ sibling p <> p /\
          2 * parent p + 1 <= p)%nat as (H1 & H2 & H3 & H4)
    by (destruct (parent_cases p Hp) as [(? & _ & ?)|(? & _ & ?)]; lia).
  rewrite Hj; [|intros Ha; apply anc_le in Ha; lia|done|done]. f_equal.
  destruct (decide (parent p = 0)%nat) as [->|E0]; [by destruct fuel|].
  apply IH. intros j Hna Hne Hle.
  assert (2 * parent (parent p) + 1 <= parent p)%nat
    by (destruct (parent_cases (parent p)) as [(? & _)|(? & _)]; lia).
  apply Hj; [|lia|lia]. intros Ha. inversion Ha; subst; [done|]. by apply Hna.
Qed.
Lemma siblings_frame fuel t t' p :
  (forall j, ~ anc j p -> j <> p -> at_ t' j = at_ t j) ->
  siblings fuel t' p = siblings fuel t p.
Proof. intros Hj. apply siblings_frame_le. auto. Qed.

Lemma merkle_update_spec m i v :
  acc_ok m -> (i < length (data m))%nat ->
  let p := (length (data m) - 1 + i)%nat in
  exists t', merkle_update (H:=H) m i v =
      Ok (siblings p (tree m) p, at_ t' 0, mkMerkleAccumulator (<[i := v]> (data m)) t') /\
    acc_ok (mkMerkleAccumulator (<[i := v]> (data m)) t') /\
    siblings p t' p = siblings p (tree m) p.
Proof.
  intros [Hv Ht] Hi p. destruct (update_tree _ _ i (leaf v) Ht) as (t' & He & Ht' & Hfr);
    [by rewrite length_fmap|]. rewrite length_fmap in He, Hfr. fold p in He, Hfr.
  exists t'. unfold merkle_update.
  rewrite (proj2 (Nat.leb_gt _ _)) by lia. cbn [guard_err mbind outcome_mbind outcome_bind].
  rewrite (prove_spec m i (conj Hv Ht) Hi). cbn [mbind outcome_mbind outcome_bind]. fold p.
  pose proof (tk_len _ _ Ht) as Hl. rewrite length_fmap in Hl.
  rewrite (proj2 (Nat.ltb_lt p _)) by lia. cbn [assert_or_panic mbind outcome_mbind outcome_bind].
  rewrite hash_leaf_eq, He. cbn [mbind outcome_mbind outcome_bind]. unfold merkle_root. cbn [tree].
  pose proof (tk_len _ _ Ht') as Hl'. rewrite length_insert, length_fmap in Hl'.
  rewrite tree_at_ok by lia. cbn [mbind outcome_mbind outcome_bind]. split; [done|]. split.
  - split; cbn; [by rewrite length_insert|]. by rewrite list_fmap_insert.
  - by apply siblings_frame.
Qed.

(** ** Update proofs *)

Lemma inclusion_feed_indep v (h1 h2 : H) s :
  fst (inclusion_feed v h1 s) = fst (inclusion_feed v h2 s).
Proof.
  unfold inclusion_feed. destruct (pos v =? 0); [done|].
  assert (forall l r, fst (digest_inplace (hasher_update (hasher_update (hasher_update (hasher_reset h1) [1]) l) r))
    = fst (digest_inplace (hasher_update (hasher_update (hasher_update (hasher_reset h2) [1]) l) r))) as E
    by (intros; by rewrite !feed_hash).
  destruct (pos v mod 2 =? 0); match goal with
  | |- context [hasher_update (hasher_update (hasher_update (hasher_reset h1) [1]) ?l) ?r] =>
      specialize (E l r)
  end; destruct (digest_inplace _) as [d1 k1], (digest_inplace _) as [d2 k2]; cbn in E; by subst.
Qed.

Lemma inclusion_feed_all_indep v (h1 h2 : H) proof :
  fst (inclusion_feed_all v h1 proof) = fst (inclusion_feed_all v h2 proof).
Proof.
  revert v h1 h2; induction proof as [|s proof IH]; intros v h1 h2; cbn; [done|].
  pose proof (inclusion_feed_indep v h1 h2 s) as E.
  destruct (inclusion_feed v h1 s), (inclusion_feed v h2 s). cbn in E. subst. apply IH.
Qed.

Lemma update_feed_all_split vo vn (hs : H) proof :
  fst (update_feed_all (mkUpdateVerifier vo vn) hs proof) =
  mkUpdateVerifier (fst (inclusion_feed_all vo hs proof)) (fst (inclusion_feed_all vn hs proof)).
Proof.
  revert vo vn hs; induction proof as [|s proof IH]; intros vo vn hs; cbn; [done|].
  unfold update_feed. cbn [old_verifier new_verifier].
  destruct (inclusion_feed vo hs s) as [vo' h1].
  pose proof (inclusion_feed_indep vn hs h1 s) as E.
  destruct (inclusion_feed vn h1 s) as [vn1 h2], (inclusion_feed vn hs s) as [vn2 h3]. cbn in E. subst.
  rewrite IH. f_equal; apply inclusion_feed_all_indep.
Qed.

Lemma verify_update_split old new proof oh nh i n :
  verify_update_proof (H:=H) old new proof oh nh i n =
  verify_inclusion_proof (H:=H) new proof nh i n && verify_inclusion_proof (H:=H) old proof oh i n.
Proof. unfold verify_update_proof, begin_update_proof. by rewrite update_feed_all_split. Qed.

(** ** Soundness: a wrong accepted proof contains a collision *)

Definition collision (ms : list Z * list Z) : Prop := ms.1 <> ms.2 /\ hash ms.1 = hash ms.2.

(** Walks the proof and the tree together up to the first position where two different
    messages were hashed to the same value. *)
Fixpoint find_collision (t : list HashOutput) (p : nat) (h : HashOutput) (proof : list HashOutput)
    : list Z * list Z :=
  match proof with
  | [] => ([], [])
  | s :: proof =>
      let q := parent p in
      let m := 1 :: (if Nat.even p then s ++ h else h ++ s) in
      let m' := 1 :: at_ t (2 * q + 1) ++ at_ t (2 * q + 2) in
      if decide (m <> m' /\ hash m = hash m') then (m, m') else find_collision t q (hash m) proof
  end.

Abbreviation hash_ok := (fun h : HashOutput => length h = OUTPUT_SIZE).

Lemma tree_hash_ok leaves t i :
  tree_ok leaves t -> Forall hash_ok leaves -> (i < 2 * length leaves - 1)%nat -> hash_ok (at_ t i).
Proof.
  intros [Hp Hl Hlv Hn] Hf Hi. destruct (decide (i < length leaves - 1)%nat).
  - rewrite Hn by done. apply hash_length.
  - replace i with (length leaves - 1 + (i - (length leaves - 1)))%nat by lia.
    rewrite Hlv by lia. destruct (lookup_lt_is_Some_2 leaves (i - (length leaves - 1))) as [x Hx]; [lia|].
    rewrite Hx. cbn. by eapply (Forall_lookup_1 _ _ _ _ Hf).
Qed.

Lemma app_inj_length (l1 r1 l2 r2 : list Z) :
  length l1 = length l2 -> l1 ++ r1 = l2 ++ r2 -> l1 = l2 /\ r1 = r2.
Proof. intros Hl E. by apply app_inj_1 in E. Qed.

Lemma root_from_sound leaves t p h proof :
  tree_ok leaves t -> Forall hash_ok leaves -> Forall hash_ok proof -> hash_ok h ->
  (p < 2 * length leaves - 1)%nat -> root_from p h proof = Some (at_ t 0) ->
  (h = at_ t p /\ proof = siblings p t p) \/ collision (find_collision t p h proof).
Proof.
  intros Ht Hf. revert p h; induction proof as [|s proof IH]; intros p h Hpr Hh Hp; cbn [root_from].
  - destruct (Nat.eqb_spec p 0) as [->|]; [|done]. intros [= ->]. by left.
  - destruct (Nat.eqb_spec p 0) as [->|Hne]; [done|]. intros Hr.
    apply Forall_cons in Hpr as [Hs Hpr].
    pose proof (parent_lt p ltac:(lia)) as Hlt. cbn [find_collision].
    set (m := 1 :: (if Nat.even p then _ else _)).
    replace (if Nat.even p then node s h else node h s) with (hash m) in Hr
      by (subst m; by destruct (Nat.even p)).
    assert (parent p < length leaves - 1)%nat as Hq by (destruct (parent_cases p); lia).
    case_decide as Hc; [by right|].
    destruct (IH (parent p) (hash m)) as [[Hm Hpf]|Hcol]; [done|apply hash_length|lia|done| |by right].
    left. rewrite (tk_nodes _ _ Ht _ Hq) in Hm. unfold node in Hm.
    assert (m = 1 :: at_ t (2 * parent p + 1) ++ at_ t (2 * parent p + 2)) as Em.
    { destruct (decide (m = 1 :: at_ t (2 * parent p + 1) ++ at_ t (2 * parent p + 2))); [done|].
      by exfalso; apply Hc. }
    pose proof (tree_hash_ok _ _ (2 * parent p + 1)%nat Ht Hf ltac:(lia)) as Hc1.
    pose proof (tree_hash_ok _ _ (2 * parent p + 2)%nat Ht Hf ltac:(lia)) as Hc2.
    assert (siblings p t p = at_ t (sibling p) :: siblings (parent p) t (parent p)) as Es.
    { destruct p as [|p']; [lia|]. cbn [siblings]. rewrite (proj2 (Nat.ltb_lt _ _)) by lia. f_equal.
      apply siblings_fuel; lia. }
    rewrite Es, Hpf. unfold m in Em. cbv beta in Hs, Hh, Hc1, Hc2.
    apply (f_equal tail) in Em. cbn [tail] in Em.
    destruct (parent_cases p) as [(Ep & Ee & Esb)|(Ep & Ee & Esb)]; [lia|..];
      rewrite Ee in Em; rewrite Esb.
    + apply app_inj_length in Em as [E1 E2]; [|congruence]. split; [rewrite Ep|]; congruence.
    + apply app_inj_length in Em as [E1 E2]; [|congruence]. split; [rewrite Ep|]; congruence.
Qed.

(** ** The root computer *)

(** The parents of the nodes of a level, a trailing unpaired one dropped. *)
Fixpoint pairs (l : list HashOutput) : list HashOutput :=
  match l with a :: b :: l => node a b :: pairs l | _ => [] end.

Lemma pairs_length l : length (pairs l) = (length l / 2)%nat.
Proof.
  induction l as [l IH] using (induction_ltof1 _ (@length _)); unfold ltof in IH.
  destruct l as [|a [|b l]]; [done..|]. cbn [pairs length]. rewrite IH by (cbn; lia).
  change (S (S (length l))) with (1 * 2 + length l)%nat. by rewrite Nat.div_add_l by lia.
Qed.
Lemma pairs_app l1 l2 : Nat.even (length l1) = true -> pairs (l1 ++ l2) = pairs l1 ++ pairs l2.
Proof.
  induction l1 as [l IH] using (induction_ltof1 _ (@length _)); unfold ltof in IH.
  destruct l as [|a [|b l]]; [done..|]. cbn [pairs length app]. intros He.
  rewrite IH; [done|cbn; lia|done].
Qed.

(** What the stack holds after the leaves [l]. *)
Fixpoint stack_of (fuel : nat) (l : list HashOutput) : list HashOutput :=
  match fuel with
  | O => []
  | S fuel => stack_of fuel (pairs l) ++ (if Nat.odd (length l) then [List.last l []] else [])
  end.

Lemma pairs_shrink (l : list HashOutput) : (length (pairs l) <= length l / 2)%nat.
Proof. by rewrite pairs_length. Qed.

Lemma stack_of_nil f : stack_of f [] = [].
Proof. induction f as [|f IH]; [done|]. cbn [stack_of pairs]. by rewrite IH. Qed.
Lemma stack_of_fuel f f' l : (length l <= f)%nat -> (length l <= f')%nat -> stack_of f l = stack_of f' l.
Proof.
  revert f' l; induction f as [|f IH]; intros f' l Hf Hf'.
  - destruct l; [|cbn in Hf; lia]. by rewrite !stack_of_nil.
  - destruct f' as [|f']; [destruct l; [by rewrite !stack_of_nil|cbn in Hf'; lia]|].
    cbn [stack_of]. f_equal. pose proof (pairs_shrink l).
    assert (length l / 2 <= length l - 1)%nat.
    { destruct (length l) as [|n] eqn:E; [cbn; lia|]. pose proof (Nat.div_lt (S n) 2). lia. }
    apply IH; lia.
Qed.

Lemma vec_pop_snoc {A} (l : list A) x : vec_pop (l ++ [x]) = Some (x, l).
Proof. unfold vec_pop. rewrite rev_app_distr. cbn. by rewrite rev_involutive. Qed.

Lemma combine_step d l a b :
  combine_loop (H:=H) (S d) (l ++ [a; b]) = combine_loop (H:=H) d (l ++ [node a b]).
Proof.
  change (l ++ [a; b]) with (l ++ [a] ++ [b]). rewrite app_assoc. cbn [combine_loop].
  rewrite vec_pop_snoc. cbn [unwrap mbind outcome_mbind outcome_bind].
  rewrite vec_pop_snoc. cbn [unwrap mbind outcome_mbind outcome_bind].
  by rewrite hash_internal_node_eq.
Qed.

Lemma trailing_zeros_odd n : Nat.even n = true -> trailing_zeros (S n) = 0%nat.
Proof.
  intros [k ->]%Nat.even_spec. unfold trailing_zeros.
  replace (N.of_nat (S (2 * k))) with (N.succ_double (N.of_nat k)) by lia.
  by destruct (N.of_nat k).
Qed.
Lemma trailing_zeros_even n : (0 < n)%nat -> trailing_zeros (2 * n) = S (trailing_zeros n).
Proof.
  intros Hn. unfold trailing_zeros. rewrite Nat2N.inj_mul. change (N.of_nat 2) with 2%N.
  destruct (N.of_nat n) as [|p] eqn:E; [lia|]. done.
Qed.

(** One more leaf: the carry propagates through the stack. *)
Lemma stack_feed l x f :
  (length l < f)%nat ->
  combine_loop (H:=H) (trailing_zeros (S (length l))) (stack_of f l ++ [x]) = Ok (stack_of f (l ++ [x])).
Proof.
  revert l x; induction f as [|f IH]; intros l x Hf; [lia|]. cbn [stack_of].
  rewrite length_app. cbn [length]. rewrite Nat.add_1_r.
  destruct (Nat.even (length l)) eqn:Ev.
  - rewrite trailing_zeros_odd by done. cbn [combine_loop]. rewrite pairs_app by done. cbn [pairs].
    rewrite Nat.odd_succ, Ev, <- Nat.negb_even, Ev. cbn [negb]. by rewrite !app_nil_r, last_last.
  - destruct (rev l) as [|y r] eqn:Er.
    { apply (f_equal (@rev _)) in Er. rewrite rev_involutive in Er. subst l. done. }
    assert (l = rev r ++ [y]) as -> by (rewrite <- (rev_involutive l), Er; done).
    set (l' := rev r) in *. clearbody l'. clear Er r.
    rewrite length_app in *. cbn [length] in *. rewrite Nat.add_1_r in *.
    rewrite Nat.even_succ, <- Nat.negb_even in Ev. apply negb_false_iff in Ev.
    replace (S (S (length l'))) with (2 * S (length l' / 2))%nat.
    2: { apply Nat.even_spec in Ev as [k ->]. rewrite (Nat.mul_comm 2 k), Nat.div_mul by lia. lia. }
    rewrite trailing_zeros_even by lia.
    replace (Nat.odd (S (length l'))) with true by (by rewrite Nat.odd_succ).
    replace (Nat.odd (2 * S (length l' / 2))) with false by (by rewrite Nat.odd_mul).
    rewrite last_last, <- app_assoc. cbn [app]. rewrite combine_step, app_nil_r.
    rewrite <- app_assoc, !pairs_app by done. cbn [app pairs]. rewrite app_nil_r.
    rewrite <- (pairs_length l'). apply IH. pose proof (pairs_shrink l').
    assert (length l' / 2 <= length l')%nat by (apply Nat.Div0.div_le_upper_bound; lia). lia.
Qed.

Lemma feed_all_spec n ls : forall done_, (length done_ + length ls <= n)%nat ->
  root_computer_feed_all (H:=H) (mkRootComputer n (length done_) (stack_of (S n) done_)) ls =
  Ok (mkRootComputer n (length done_ + length ls) (stack_of (S n) (done_ ++ ls))).
Proof.
  induction ls as [|x ls IH]; intros done_ Hle; cbn [root_computer_feed_all].
  - by rewrite app_nil_r, Nat.add_0_r.
  - cbn [length] in Hle. unfold root_computer_feed. cbn [cur_size rc_n hashes].
    rewrite (proj2 (Nat.ltb_lt _ _)) by lia. cbn [assert_or_panic mbind outcome_mbind outcome_bind].
    rewrite stack_feed by lia. cbn [mbind outcome_mbind outcome_bind].
    specialize (IH (done_ ++ [x])). rewrite length_app in IH. cbn [length] in IH.
    rewrite Nat.add_1_r, <- app_assoc in IH. rewrite IH by lia. do 2 f_equal. cbn [length]. lia.
Qed.

(** *** The levels of a tree *)

Lemma pairs_lookup l i : (2 * i + 1 < length l)%nat ->
  at_ (pairs l) i = node (at_ l (2 * i)) (at_ l (2 * i + 1)).
Proof.
  revert i; induction l as [l IH] using (induction_ltof1 _ (@length _)); unfold ltof in IH. intros i.
  destruct l as [|a [|b l]]; cbn [length]; [lia..|]. intros Hi. destruct i as [|i]; [done|].
  cbn [pairs]. change (at_ (node a b :: pairs l) (S i)) with (at_ (pairs l) i).
  rewrite IH by (cbn; lia). by replace (2 * S i)%nat with (S (S (2 * i))) by lia.
Qed.

(** The level of [2 ^ k] nodes of a tree is the level below it paired. *)
Definition level (t : list HashOutput) (k : nat) : list HashOutput := slice (2 ^ k - 1) (2 ^ k) t.

Lemma level_lookup t k i : (i < 2 ^ k)%nat -> at_ (level t k) i = at_ t (2 ^ k - 1 + i).
Proof. intros Hi. unfold level. rewrite lookup_slice. by rewrite decide_True. Qed.

Lemma level_pairs leaves t k e :
  tree_ok leaves t -> length leaves = (2 ^ e)%nat -> (k < e)%nat ->
  pairs (level t (S k)) = level t k.
Proof.
  intros [Hp Hl Hlv Hn] He Hk. pose proof (Nat.pow_le_mono_r 2 (S k) e ltac:(lia) ltac:(lia)) as Hle.
  cbn [Nat.pow] in Hle. pose proof (Nat.pow_nonzero 2 k ltac:(lia)) as Hnz.
  assert (forall j, (S j <= S e)%nat -> (j <= e)%nat -> length (level t j) = (2 ^ j)%nat) as Hlen.
  { intros j _ Hj. apply length_slice. pose proof (Nat.pow_le_mono_r 2 j e ltac:(lia) Hj). lia. }
  apply list_eq. intros i. destruct (decide (i < 2 ^ k)%nat) as [Hi|Hi].
  - rewrite (lookup_at (pairs _) i), (lookup_at (level t k) i)
      by (rewrite ?pairs_length, !Hlen by lia; cbn [Nat.pow]; rewrite ?(Nat.mul_comm 2), ?Nat.div_mul by lia; lia).
    f_equal. rewrite pairs_lookup by (rewrite Hlen by lia; cbn [Nat.pow]; lia).
    rewrite !level_lookup by (cbn [Nat.pow]; lia). rewrite (Hn (2 ^ k - 1 + i)%nat) by lia.
    cbn [Nat.pow]. f_equal; do 2 f_equal; lia.
  - rewrite !lookup_ge_None_2; [done|..];
      rewrite ?pairs_length, !Hlen by lia; cbn [Nat.pow]; rewrite ?(Nat.mul_comm 2), ?Nat.div_mul by lia; lia.
Qed.

Lemma stack_of_level leaves t e k fuel :
  tree_ok leaves t -> length leaves = (2 ^ e)%nat -> (k <= e)%nat -> (2 ^ k < fuel)%nat ->
  stack_of fuel (level t k) = [at_ t 0].
Proof.
  intros Ht He. revert fuel. induction k as [|k IH]; intros fuel Hk Hf.
  - pose proof (Nat.pow_nonzero 2 e ltac:(lia)) as Hnz. pose proof (tk_len _ _ Ht) as Hl.
    assert (level t 0 = [at_ t 0]) as ->.
    { unfold level, slice. cbn. destruct t; [cbn in Hl; lia|]. done. }
    destruct fuel as [|[|fuel]]; [cbn in Hf; lia..|]. cbn.
    by rewrite stack_of_nil.
  - destruct fuel as [|fuel]; [lia|]. cbn [stack_of].
    rewrite (level_pairs leaves t k e) by (done || lia). 
    rewrite IH by (pose proof (Nat.pow_nonzero 2 k ltac:(lia)); cbn [Nat.pow] in Hf; lia).
    assert (length (level t (S k)) = 2 ^ S k)%nat as ->.
    { apply length_slice. rewrite (tk_len _ _ Ht), He.
      pose proof (Nat.pow_le_mono_r 2 (S k) e ltac:(lia) Hk).
      pose proof (Nat.pow_nonzero 2 (S k) ltac:(lia)). lia. }
    cbn [Nat.pow]. by rewrite Nat.odd_mul.
Qed.

Lemma level_leaves leaves t e : tree_ok leaves t -> length leaves = (2 ^ e)%nat -> level t e = leaves.
Proof.
  intros [Hp Hl Hlv Hn] He. apply list_eq. intros i.
  assert (length (level t e) = 2 ^ e)%nat as Hlen by (apply length_slice; lia).
  destruct (decide (i < 2 ^ e)%nat) as [Hi|Hi].
  - rewrite (lookup_at (level t e) i), (lookup_at leaves i) by lia. f_equal.
    rewrite level_lookup by lia. by rewrite <- He, Hlv by lia.
  - rewrite !lookup_ge_None_2 by lia. done.
Qed.

Lemma root_computer_spec leaves t :
  has_valid_leaf_count (length leaves) = true -> tree_ok leaves t ->
  (rc ← root_computer_new (length leaves);
   rc ← root_computer_feed_all (H:=H) rc leaves;
   root_computer_root rc) = Ok (at_ t 0).
Proof.
  intros Hv Ht. unfold root_computer_new. rewrite Hv. apply valid_count in Hv as [e He].
  cbn [assert_or_panic mbind outcome_mbind outcome_bind].
  assert (stack_of (S (length leaves)) [] = []) as E0.
  { apply stack_of_nil. }
  pose proof (feed_all_spec (length leaves) leaves [] ltac:(cbn; lia)) as Hf.
  rewrite E0 in Hf. cbn [length app Nat.add] in Hf. rewrite Hf.
  cbn [mbind outcome_mbind outcome_bind]. unfold root_computer_root. cbn [cur_size rc_n hashes].
  rewrite Nat.eqb_refl. cbn [assert_or_panic mbind outcome_mbind outcome_bind].
  rewrite <- (level_leaves leaves t e Ht He) at 2.
  by rewrite (stack_of_level leaves t e e) by (done || lia).
Qed.

(** ** The properties of the accumulator *)

Lemma leaves_hash_ok (d : list (list Z)) : Forall hash_ok (leaf <$> d).
Proof. apply Forall_fmap, Forall_true. intros x. apply hash_length. Qed.

Lemma leaf_at (d : list (list Z)) i v : d !! i = Some v -> at_ (leaf <$> d) i = leaf v.
Proof. intros E. by rewrite list_lookup_fmap, E. Qed.

Lemma acc_root m : acc_ok m -> merkle_root m = Ok (at_ (tree m) 0).
Proof.
  intros [_ []]. rewrite length_fmap in *. apply tree_at_ok. lia.
Qed.

Lemma acc_index_ok m i : acc_ok m -> (i < length (data m))%nat -> Z.of_nat (length (data m)) <= 2 ^ 31 ->
  index_ok (Z.of_nat i) (Z.of_nat (length (data m))).
Proof.
  intros _ Hi Hn. split; lia.
Qed.

Lemma acc_verify m i root proof h :
  acc_ok m -> (i < length (data m))%nat -> Z.of_nat (length (data m)) <= 2 ^ 31 ->
  verify_inclusion_proof (H:=H) root proof h (Z.of_nat i) (Z.of_nat (length (data m))) =
  bool_decide (root_from (length (data m) - 1 + i) h proof = Some root).
Proof.
  intros Hm Hi Hn. rewrite verify_inclusion_root_from by by apply acc_index_ok.
  by rewrite !Nat2Z.id.
Qed.

Lemma acc_complete m i v :
  acc_ok m -> data m !! i = Some v ->
  let p := (length (data m) - 1 + i)%nat in
  root_from p (leaf v) (siblings p (tree m) p) = Some (at_ (tree m) 0).
Proof.
  intros [_ Ht] Hv p. pose proof (lookup_lt_Some _ _ _ Hv) as Hi.
  rewrite <- (leaf_at _ _ _ Hv). pose proof (tk_leaves _ _ Ht i) as Hl. rewrite length_fmap in Hl.
  rewrite <- Hl by done. eapply root_from_complete; [done|rewrite length_fmap; lia|done].
Qed.

(** [new] builds a tree exactly for a power-of-two number of elements and panics
    otherwise; [update] gives the accumulator that [new] builds from the updated vector,
    with its root, and refuses an index out of range. *)
Theorem accumulator_new_update d i v :
  (has_valid_leaf_count (length d) = false -> merkle_new (H:=H) OUTPUT_SIZE d = Panic) /\
  (has_valid_leaf_count (length d) = true -> exists m,
     merkle_new (H:=H) OUTPUT_SIZE d = Ok m /\ data m = d /\
     ((length d <= i)%nat -> merkle_update (H:=H) m i v = Err IndexOutOfBounds) /\
     ((i < length d)%nat -> exists proof root m',
        merkle_update (H:=H) m i v = Ok (proof, root, m') /\
        prove m i = Ok proof /\ merkle_root m' = Ok root /\
        merkle_new (H:=H) OUTPUT_SIZE (<[i := v]> d) = Ok m')).
Proof.
  split; [intros E; unfold merkle_new; by rewrite E|]. intros Hv.
  destruct (merkle_new_spec d Hv) as (t & Hn & Hok). exists (mkMerkleAccumulator d t).
  split; [done|]. split; [done|]. split.
  - intros Hi. unfold merkle_update. cbn [data]. by rewrite (proj2 (Nat.leb_le _ _)) by lia.
  - intros Hi. destruct (merkle_update_spec _ i v Hok Hi) as (t' & Hu & Hok' & _).
    eexists _, _, _. split; [exact Hu|]. split; [by apply prove_spec|]. split; [by apply acc_root|].
    cbn [data]. destruct (merkle_new_spec (<[i := v]> d)) as (t2 & -> & Hok2);
      [by rewrite length_insert|].
    do 2 f_equal. by eapply (tree_ok_unique _ _ _ (proj2 Hok2) (proj2 Hok')).
Qed.

(** Completeness: the proofs that the owner of the vector makes are accepted, both
    of inclusion and of update. *)
Theorem accumulator_complete m i old new :
  acc_ok m -> Z.of_nat (length (data m)) <= 2 ^ 31 -> data m !! i = Some old ->
  exists root proof root' m',
    merkle_root m = Ok root /\ prove m i = Ok proof /\
    merkle_update (H:=H) m i new = Ok (proof, root', m') /\
    let n := Z.of_nat (length (data m)) in
    verify_inclusion_proof (H:=H) root proof (hash_element (H:=H) old) (Z.of_nat i) n = true /\
    verify_update_proof (H:=H) root root' proof (hash_element (H:=H) old) (hash_element (H:=H) new)
      (Z.of_nat i) n = true.
Proof.
  intros Hm Hn Hv. pose proof (lookup_lt_Some _ _ _ Hv) as Hi.
  destruct (merkle_update_spec m i new Hm Hi) as (t' & Hu & Hm' & Hs).
  eexists _, _, _, _. split; [by apply acc_root|]. split; [by apply prove_spec|]. split; [exact Hu|].
  unfold hash_element. rewrite !hash_leaf_eq. cbv zeta. set (n := Z.of_nat (length (data m))).
  assert (verify_inclusion_proof (H:=H) (at_ (tree m) 0)
    (siblings (length (data m) - 1 + i) (tree m) (length (data m) - 1 + i)) (leaf old) (Z.of_nat i) n = true) as Ho.
  { unfold n. rewrite acc_verify by done. apply bool_decide_eq_true. by apply acc_complete. }
  split; [exact Ho|]. rewrite verify_update_split, Ho.
  unfold n. rewrite acc_verify by done. rewrite andb_true_r. apply bool_decide_eq_true.
  pose proof (acc_complete _ i new Hm') as Hc. cbn [data tree] in Hc. rewrite length_insert in Hc.
  rewrite Hs in Hc. apply Hc. by apply list_lookup_insert_eq.
Qed.

(** The collision that a wrong accepted proof gives away. *)
Definition break_inclusion (m : MerkleAccumulator) (i : nat) (proof : list HashOutput) (v : list Z)
    : list Z * list Z :=
  let d := default [] (data m !! i) in
  if decide (v <> d /\ leaf v = leaf d) then (0 :: v, 0 :: d)
  else find_collision (tree m) (length (data m) - 1 + i) (leaf v) proof.

(** Soundness of inclusion: an element that the verifier accepts at an index is the
    element there, unless two different messages with the same hash can be read off the
    proof ([break_inclusion] finds them): for every proof whatsoever. *)
Theorem inclusion_sound m i root proof v :
  acc_ok m -> Z.of_nat (length (data m)) <= 2 ^ 31 -> (i < length (data m))%nat ->
  merkle_root m = Ok root -> Forall hash_ok proof ->
  verify_inclusion_proof (H:=H) root proof (hash_element (H:=H) v) (Z.of_nat i)
    (Z.of_nat (length (data m))) = true ->
  data m !! i = Some v \/ collision (break_inclusion m i proof v).
Proof.
  intros Hm Hn Hi Hroot Hp. unfold hash_element. rewrite hash_leaf_eq, acc_verify by done.
  rewrite acc_root in Hroot by done. injection Hroot as <-. intros Hr%bool_decide_eq_true.
  destruct Hm as [Hv Ht]. destruct (lookup_lt_is_Some_2 _ _ Hi) as [d Hd].
  pose proof (tk_leaves _ _ Ht i) as Hl. rewrite length_fmap in Hl. specialize (Hl Hi).
  rewrite (leaf_at _ _ _ Hd) in Hl.
  pose proof (root_from_sound _ _ (length (data m) - 1 + i) _ _ Ht (leaves_hash_ok _) Hp (hash_length (0 :: v))
              ltac:(rewrite length_fmap; lia) Hr) as Hs.
  unfold break_inclusion; rewrite Hd; cbn [default]. destruct (decide (v = d)) as [->|Hne]; [by left|].
  right. destruct Hs as [[Hh _]|Hcol].
  - unfold leaf in Hl. rewrite Hl in Hh. rewrite decide_True by done. split; cbn; [congruence|done].
  - case_decide as Heq; [|done]. destruct Heq as [_ Heq]. split; cbn; [congruence|done].
Qed.

(** C20. Soundness of updates: when the verifier accepts the step from the root of a
    vector to a new root, the old element is the one in the vector and the new root is
    the root of the vector with the new element in its place, or a collision is found. *)
Theorem update_sound m i old_root new_root proof old new :
  acc_ok m -> Z.of_nat (length (data m)) <= 2 ^ 31 -> (i < length (data m))%nat ->
  merkle_root m = Ok old_root -> Forall hash_ok proof ->
  verify_update_proof (H:=H) old_root new_root proof (hash_element (H:=H) old)
    (hash_element (H:=H) new) (Z.of_nat i) (Z.of_nat (length (data m))) = true ->
  (exists m', merkle_update (H:=H) m i new = Ok (proof, new_root, m') /\ data m !! i = Some old) \/
  collision (break_inclusion m i proof old).
Proof.
  intros Hm Hn Hi Hroot Hp. unfold hash_element. rewrite !hash_leaf_eq, verify_update_split.
  rewrite andb_true_iff, !acc_verify by done. rewrite acc_root in Hroot by done. injection Hroot as <-.
  intros [Hr'%bool_decide_eq_true Hr%bool_decide_eq_true].
  pose proof Hm as [Hv Ht]. destruct (lookup_lt_is_Some_2 _ _ Hi) as [d Hd].
  pose proof (tk_leaves _ _ Ht i) as Hl. rewrite length_fmap in Hl. specialize (Hl Hi).
  rewrite (leaf_at _ _ _ Hd) in Hl.
  pose proof (root_from_sound _ _ (length (data m) - 1 + i) _ _ Ht (leaves_hash_ok _) Hp (hash_length (0 :: old))
              ltac:(rewrite length_fmap; lia) Hr) as Hs.
  unfold break_inclusion; rewrite Hd; cbn [default]. destruct Hs as [[Hh Hpf]|Hcol].
  - unfold leaf in Hl. rewrite Hl in Hh. destruct (decide (old = d)) as [->|Hne].
    2: { right. rewrite decide_True by done. split; cbn; [congruence|done]. }
    left. destruct (merkle_update_spec m i new Hm Hi) as (t' & Hu & Hm' & Hs).
    eexists. split; [|done]. rewrite Hu, <- Hpf. repeat f_equal.
    pose proof (acc_complete _ i new Hm') as Hc. cbn [data tree] in Hc. rewrite length_insert in Hc.
    rewrite Hs, <- Hpf in Hc. rewrite Hc in Hr' by by apply list_lookup_insert_eq. congruence.
  - right. case_decide as Heq; [|done]. destruct Heq as [Hne Heq]. split; cbn; [by intros [= ?]|done].
Qed.

(** The streaming computer of the root, fed the leaf hashes in order, gives the root
    of the tree that [new] builds, within its stack and without panicking. *)
Theorem root_computer_correct d m :
  merkle_new (H:=H) OUTPUT_SIZE d = Ok m ->
  (rc ← root_computer_new (length d);
   rc ← root_computer_feed_all (H:=H) rc (hash_element (H:=H) <$> d);
   root_computer_root rc) = merkle_root m.
Proof.
  intros Hm. destruct (has_valid_leaf_count (length d)) eqn:Hv.
  2: { unfold merkle_new in Hm. by rewrite Hv in Hm. }
  destruct (merkle_new_spec d Hv) as (t & Hn & Hok). rewrite Hm in Hn. injection Hn as ->.
  rewrite (acc_root _ Hok). cbn [tree].
  assert (hash_element (H:=H) <$> d = leaf <$> d) as ->
    by (apply list_fmap_ext; intros ? x _; apply hash_leaf_eq).
  rewrite <- (root_computer_spec (leaf <$> d) t); [by rewrite length_fmap|by rewrite length_fmap|].
  apply Hok.
Qed.

End spec.

(** ** A concrete hasher, to evaluate the definitions *)

Definition toy_hash (d : list Z) : HashOutput :=
  be_bytes 4 (fold_left (fun acc b => (acc * 257 + b + 1) mod 2 ^ 32) d 7).
(** The state of the hasher is the data absorbed so far. *)
Record Toy : Type := mkToy { toy_data : list Z }.
#[export] Instance toy_hasher : Hasher Toy := {
  hasher_new := mkToy [];
  hasher_update := fun h x => mkToy (toy_data h ++ x);
  hasher_digest := fun h => toy_hash (toy_data h);
}.
#[export] Instance toy_resettable : ResettableHasher Toy := {
  hasher_reset := fun _ => mkToy [];
  digest_inplace := fun h => (toy_hash (toy_data h), h);
}.
#[export, refine] Instance toy_laws : HasherLaws Toy 4 := {
  hash := toy_hash;
  absorbed := fun h d => toy_data h = d;
}.
Proof.
  - intros d. apply length_be_bytes.
  - done.
  - by intros h d x <-.
  - by intros h d <-.
  - done.
  - by intros h d <-.
Defined.

Definition toy_data4 : list (list Z) := [[1; 2]; [3]; []; [4; 5; 6]].
Definition toy_acc : MerkleAccumulator :=
  match merkle_new (H:=Toy) 4 toy_data4 with Ok m => m | _ => mkMerkleAccumulator [] [] end.
Lemma toy_acc_new : merkle_new (H:=Toy) 4 toy_data4 = Ok toy_acc.
Proof. vm_compute. reflexivity. Qed.
Lemma toy_acc_ok : acc_ok toy_acc.
Proof.
  destruct (merkle_new_spec toy_data4 eq_refl) as (t & E & Hok).
  assert (toy_acc = mkMerkleAccumulator toy_data4 t) as -> by (pose proof toy_acc_new; congruence).
  exact Hok.
Qed.

Definition toy_proof : list HashOutput :=
  match prove toy_acc 2 with Ok p => p | _ => [] end.
Definition toy_root : HashOutput := match merkle_root toy_acc with Ok r => r | _ => [] end.

Lemma accumulator_complete_witness : exists root proof,
  merkle_root toy_acc = Ok root /\ prove toy_acc 2 = Ok proof /\
  verify_inclusion_proof (H:=Toy) root proof (hash_element (H:=Toy) []) 2 4 = true.
Proof.
  destruct (accumulator_complete (H:=Toy) toy_acc 2 [] [9; 9] toy_acc_ok ltac:(vm_compute; done) eq_refl)
    as (root & proof & root' & m' & H1 & H2 & H3 & H4 & _).
  exists root, proof. split; [exact H1|]. split; [exact H2|]. exact H4.
Defined.

Lemma inclusion_sound_witness :
  data toy_acc !! 2%nat = Some [] \/ collision (break_inclusion toy_acc 2 toy_proof []).
Proof.
  apply (inclusion_sound (H:=Toy) toy_acc 2 toy_root toy_proof [] toy_acc_ok ltac:(vm_compute; done)
           ltac:(vm_compute; lia)).
  - vm_compute. reflexivity.
  - vm_compute. repeat constructor.
  - vm_compute. reflexivity.
Defined.

Definition toy_new_root : HashOutput :=
  match merkle_update (H:=Toy) toy_acc 2 [9; 9] with Ok (_, r, _) => r | _ => [] end.
Lemma update_sound_witness :
  (exists m', merkle_update (H:=Toy) toy_acc 2 [9; 9] = Ok (toy_proof, toy_new_root, m') /\
     data toy_acc !! 2%nat = Some []) \/
  collision (break_inclusion toy_acc 2 toy_proof []).
Proof.
  apply (update_sound (H:=Toy) toy_acc 2 toy_root toy_new_root toy_proof [] [9; 9] toy_acc_ok
           ltac:(vm_compute; done) ltac:(vm_compute; lia)).
  - vm_compute. reflexivity.
  - vm_compute. repeat constructor.
  - vm_compute. reflexivity.
Defined.

Lemma accumulator_new_update_witness : exists m,
  merkle_new (H:=Toy) 4 toy_data4 = Ok m /\ data m = toy_data4.
Proof.
  destruct (proj2 (accumulator_new_update (H:=Toy) toy_data4 0 []) eq_refl) as (m & H1 & H2 & _).
  by exists m.
Defined.

Lemma root_computer_correct_witness :
  (rc ← root_computer_new (length toy_data4);
   rc ← root_computer_feed_all (H:=Toy) rc (hash_element (H:=Toy) <$> toy_data4);
   root_computer_root rc) = merkle_root toy_acc.
Proof. apply (root_computer_correct (H:=Toy) toy_data4 toy_acc toy_acc_new). Defined.
