(* ===== verification/ClientCommands.v ===== *)
(** * Messages between the VM and the client ([common/src/client_commands.rs], [lib.rs])

    Every message is a record with the fields of the Rust struct; [Message] is the
    trait, its [serialize] the concatenation of the slices that [serialize_with] hands
    out. Bytes are [Z] below 256, hashes lists of 32 bytes. *)

From S2P Require Import Prelude.

Inductive MessageDeserializationError : Type :=
| InvalidClientCommandCode
| MismatchingClientCommandCode
| InvalidSectionKind
| InvalidPageProofKind
| InvalidDataLength
| UnexpectedCommandCode
| InvalidBufferType.

Definition MAX_APDU_DATA_SIZE : Z := 590.
(** [PAGE_SIZE] of constants.rs, as a length. *)
Definition page_len : nat := 256.

Class Message (T : Type) := {
  serialize : T -> list Z;
  deserialize : list Z -> outcome MessageDeserializationError T;
}.

(** ** Codes *)

Inductive ClientCommandCode : Type :=
| GetPage | GetPageProofContinued | CommitPage | CommitPageProofContinued
| SendBuffer | SendBufferContinued | ReceiveBuffer | GetCodePageHashes.
#[export] Instance ClientCommandCode_eq_dec : EqDecision ClientCommandCode.
Proof. solve_decision. Defined.

Definition command_code_byte (c : ClientCommandCode) : Z :=
  match c with
  | GetPage => 0 | GetPageProofContinued => 1 | CommitPage => 2 | CommitPageProofContinued => 3
  | SendBuffer => 4 | SendBufferContinued => 5 | ReceiveBuffer => 6 | GetCodePageHashes => 7
  end.
Definition command_code_of (value : Z) : option ClientCommandCode :=
  match value with
  | 0 => Some GetPage
  | 1 => Some GetPageProofContinued
  | 2 => Some CommitPage
  | 3 => Some CommitPageProofContinued
  | 4 => Some SendBuffer
  | 5 => Some SendBufferContinued
  | 6 => Some ReceiveBuffer
  | 7 => Some GetCodePageHashes
  | _ => None
  end.

Inductive SectionKind : Type := Code | Data | Stack.
#[export] Instance SectionKind_eq_dec : EqDecision SectionKind.
Proof. solve_decision. Defined.
Definition section_kind_byte (k : SectionKind) : Z :=
  match k with Code => 0 | Data => 1 | Stack => 2 end.
Definition section_kind_of (value : Z) : option SectionKind :=
  match value with 0 => Some Code | 1 => Some Data | 2 => Some Stack | _ => None end.

Inductive PageProofKind : Type := Merkle | Hmac.
#[export] Instance PageProofKind_eq_dec : EqDecision PageProofKind.
Proof. solve_decision. Defined.
Definition page_proof_kind_byte (k : PageProofKind) : Z := match k with Merkle => 0 | Hmac => 1 end.
Definition page_proof_kind_of (value : Z) : option PageProofKind :=
  match value with 0 => Some Merkle | 1 => Some Hmac | _ => None end.

Inductive BufferType : Type := VAppMessage | BufPanic | BufPrint.
#[export] Instance BufferType_eq_dec : EqDecision BufferType.
Proof. solve_decision. Defined.
Definition buffer_type_byte (b : BufferType) : Z :=
  match b with VAppMessage => 0 | BufPanic => 1 | BufPrint => 2 end.
Definition buffer_type_of (value : Z) : option BufferType :=
  match value with 0 => Some VAppMessage | 1 => Some BufPanic | 2 => Some BufPrint | _ => None end.

(** ** Reading *)

Abbreviation result := (outcome MessageDeserializationError).

(** [data[i]]. *)
Definition index (data : list Z) (i : nat) : result Z := unwrap (data !! i).
(** [u32::from_be_bytes([data[i], .., data[i + 3]])]. *)
Definition index_u32 (data : list Z) (i : nat) : result Z :=
  b0 ← index data i; b1 ← index data (i + 1); b2 ← index data (i + 2); b3 ← index data (i + 3);
  Ok (be_value [b0; b1; b2; b3]).
(** [data[i..i + n]]. *)
Definition index_slice (data : list Z) (i n : nat) : result (list Z) :=
  if (i + n <=? length data)%nat then Ok (slice i n data) else Panic.

(** The [n] hashes of 32 bytes that a slice is read as. *)
Fixpoint hash_slice (n : nat) (data : list Z) : list (list Z) :=
  match n with O => [] | S n => take 32 data :: hash_slice n (drop 32 data) end.
(** The hashes from a position to the end of the data. *)
Definition hashes_from (data : list Z) (start : nat) : result (list (list Z)) :=
  let len := (length data - start)%nat in
  guard_err (negb (Nat.eqb (len mod 32) 0)) InvalidDataLength;;
  Ok (hash_slice (len / 32) (drop start data)).

(** [ClientCommandCode::try_from(data[0])] and the test that it is the expected one. *)
Definition expect_code (data : list Z) (code : ClientCommandCode) : result ClientCommandCode :=
  b ← index data 0;
  command_code ← ok_or (command_code_of b) InvalidClientCommandCode;
  guard_err (negb (bool_decide (command_code = code))) MismatchingClientCommandCode;;
  Ok command_code.
(** The length test that most messages start with. *)
Definition expect_len (data : list Z) (n : nat) : result unit :=
  guard_err (negb (Nat.eqb (length data) n)) InvalidDataLength.
Definition expect_min_len (data : list Z) (n : nat) : result unit :=
  guard_err (length data <? n)%nat InvalidDataLength.
(** The flag byte and the 12-byte nonce that follows it, ignored when not encrypted. *)
Definition read_nonce (data : list Z) (flag : nat) : result (bool * list Z) :=
  b ← index data flag;
  let is_encrypted := b =? 1 in
  nonce ← (if is_encrypted then index_slice data (flag + 1) 12 else Ok (replicate 12 0));
  Ok (is_encrypted, nonce).

Definition bool_byte (b : bool) : Z := if b then 1 else 0.

(** ** The messages *)

Module GetPageMessage.
Record t := mk { command_code : ClientCommandCode; section_kind : SectionKind; page_index : Z }.
Definition new (section_kind : SectionKind) (page_index : Z) : t := mk GetPage section_kind page_index.
Definition ser (m : t) : list Z :=
  [command_code_byte (command_code m)] ++ [section_kind_byte (section_kind m)]
  ++ be_bytes 4 (page_index m).
Definition de (data : list Z) : result t :=
  expect_len data 6;;
  command_code ← expect_code data GetPage;
  b1 ← index data 1;
  section_kind ← ok_or (section_kind_of b1) InvalidSectionKind;
  page_index ← index_u32 data 2;
  Ok (mk command_code section_kind page_index).
#[global] Instance message : Message t := { serialize := ser; deserialize := de }.
End GetPageMessage.

Module GetPageResponse.
Record t := mk {
  page_data : list Z; is_encrypted : bool; nonce : list Z; n : Z; t_ : Z;
  proof_kind : PageProofKind; proof : list (list Z) }.
Definition max_proof_size : Z := (MAX_APDU_DATA_SIZE - 256 - 1 - 1 - 1 - 12 - 1) / 32.
Definition ser (m : t) : list Z :=
  page_data m ++ [n m] ++ [t_ m] ++ [bool_byte (is_encrypted m)] ++ nonce m
  ++ [page_proof_kind_byte (proof_kind m)] ++ concat (proof m).
Definition de (data : list Z) : result t :=
  expect_min_len data (page_len + 16);;
  page_data ← index_slice data 0 page_len;
  n ← index data page_len;
  t_ ← index data (page_len + 1);
  '(is_encrypted, nonce) ← read_nonce data (page_len + 2);
  pk_byte ← index data (page_len + 15);
  proof_kind ← ok_or (page_proof_kind_of pk_byte) InvalidPageProofKind;
  proof ← hashes_from data (page_len + 16);
  guard_err (negb (t_ =? Z.of_nat (length proof))) InvalidDataLength;;
  Ok (mk page_data is_encrypted nonce n t_ proof_kind proof).
#[global] Instance message : Message t := { serialize := ser; deserialize := de }.
End GetPageResponse.

Module GetPageProofContinuedMessage.
Record t := mk { command_code : ClientCommandCode }.
Definition new : t := mk GetPageProofContinued.
Definition ser (m : t) : list Z := [command_code_byte (command_code m)].
Definition de (data : list Z) : result t :=
  expect_len data 1;;
  command_code ← expect_code data GetPageProofContinued;
  Ok (mk command_code).
#[global] Instance message : Message t := { serialize := ser; deserialize := de }.
End GetPageProofContinuedMessage.

Module GetPageProofContinuedResponse.
Record t := mk { t_ : Z; proof : list (list Z) }.
Definition max_proof_size : Z := (MAX_APDU_DATA_SIZE - 1) / 32.
Definition ser (m : t) : list Z := [t_ m] ++ concat (proof m).
Definition de (data : list Z) : result t :=
  expect_min_len data 1;;
  t_ ← index data 0;
  proof ← hashes_from data 1;
  Ok (mk t_ proof).
#[global] Instance message : Message t := { serialize := ser; deserialize := de }.
End GetPageProofContinuedResponse.

Module CommitPageMessage.
Record t := mk {
  command_code : ClientCommandCode; section_kind : SectionKind; page_index : Z;
  is_encrypted : bool; nonce : list Z; data : list Z }.
Definition new (section_kind : SectionKind) (page_index : Z) (is_encrypted : bool)
  (nonce data : list Z) : t := mk CommitPage section_kind page_index is_encrypted nonce data.
Definition ser (m : t) : list Z :=
  [command_code_byte (command_code m)] ++ [section_kind_byte (section_kind m)]
  ++ be_bytes 4 (page_index m)
  ++ (if is_encrypted m then [1] ++ nonce m else replicate 13 0)
  ++ data m.
Definition de (data : list Z) : result t :=
  expect_len data (19 + page_len);;
  command_code ← expect_code data CommitPage;
  b1 ← index data 1;
  section_kind ← ok_or (section_kind_of b1) InvalidSectionKind;
  page_index ← index_u32 data 2;
  '(is_encrypted, nonce) ← read_nonce data 6;
  data ← index_slice data 19 page_len;
  Ok (mk command_code section_kind page_index is_encrypted nonce data).
#[global] Instance message : Message t := { serialize := ser; deserialize := de }.
End CommitPageMessage.

Module CommitPageProofResponse.
Record t := mk { n : Z; t_ : Z; new_root : list Z; proof : list (list Z) }.
Definition max_proof_size : Z := (MAX_APDU_DATA_SIZE - 2 - 32) / 32.
Definition ser (m : t) : list Z := [n m] ++ [t_ m] ++ new_root m ++ concat (proof m).
Definition de (data : list Z) : result t :=
  expect_min_len data 34;;
  n ← index data 0;
  t_ ← index data 1;
  new_root ← index_slice data 2 32;
  proof ← hashes_from data 34;
  Ok (mk n t_ new_root proof).
#[global] Instance message : Message t := { serialize := ser; deserialize := de }.
End CommitPageProofResponse.

Module CommitPageProofContinuedMessage.
Record t := mk { command_code : ClientCommandCode }.
Definition new : t := mk CommitPageProofContinued.
Definition ser (m : t) : list Z := [command_code_byte (command_code m)].
Definition de (data : list Z) : result t :=
  expect_len data 1;;
  command_code ← expect_code data CommitPageProofContinued;
  Ok (mk command_code).
#[global] Instance message : Message t := { serialize := ser; deserialize := de }.
End CommitPageProofContinuedMessage.

Module CommitPageProofContinuedResponse.
Record t := mk { t_ : Z; proof : list (list Z) }.
Definition max_proof_size : Z := (MAX_APDU_DATA_SIZE - 1) / 32.
Definition ser (m : t) : list Z := [t_ m] ++ concat (proof m).
Definition de (data : list Z) : result t :=
  expect_min_len data 1;;
  t_ ← index data 0;
  proof ← hashes_from data 1;
  Ok (mk t_ proof).
#[global] Instance message : Message t := { serialize := ser; deserialize := de }.
End CommitPageProofContinuedResponse.

Module SendBufferMessage.
Record t := mk {
  command_code : ClientCommandCode; buffer_type : BufferType; total_size : Z; data : list Z }.
Definition new (total_size : Z) (buffer_type : BufferType) (data : list Z) : result t :=
  if total_size <? Z.of_nat (length data) then Panic
  else Ok (mk SendBuffer buffer_type total_size data).
Definition max_data_size : Z := MAX_APDU_DATA_SIZE - 6.
Definition ser (m : t) : list Z :=
  [command_code_byte (command_code m)] ++ [buffer_type_byte (buffer_type m)]
  ++ be_bytes 4 (total_size m) ++ data m.
Definition de (data : list Z) : result t :=
  b0 ← index data 0;
  command_code ← ok_or (command_code_of b0) InvalidClientCommandCode;
  guard_err (negb (bool_decide (command_code = SendBuffer)) || (length data <? 6)%nat)
    MismatchingClientCommandCode;;
  b1 ← index data 1;
  buffer_type ← ok_or (buffer_type_of b1) InvalidBufferType;
  total_size ← index_u32 data 2;
  let data := drop 6 data in
  guard_err (total_size <? Z.of_nat (length data)) InvalidDataLength;;
  Ok (mk command_code buffer_type total_size data).
#[global] Instance message : Message t := { serialize := ser; deserialize := de }.
End SendBufferMessage.

Module SendBufferContinuedMessage.
Record t := mk { command_code : ClientCommandCode; data : list Z }.
Definition new (data : list Z) : t := mk SendBufferContinued data.
Definition max_data_size : Z := MAX_APDU_DATA_SIZE - 1.
Definition ser (m : t) : list Z := [command_code_byte (command_code m)] ++ data m.
Definition de (data : list Z) : result t :=
  expect_min_len data 1;;
  command_code ← expect_code data SendBufferContinued;
  Ok (mk command_code (drop 1 data)).
#[global] Instance message : Message t := { serialize := ser; deserialize := de }.
End SendBufferContinuedMessage.

Module ReceiveBufferMessage.
Record t := mk { command_code : ClientCommandCode }.
Definition new : t := mk ReceiveBuffer.
Definition ser (m : t) : list Z := [command_code_byte (command_code m)].
Definition de (data : list Z) : result t :=
  expect_len data 1;;
  command_code ← expect_code data ReceiveBuffer;
  Ok (mk command_code).
#[global] Instance message : Message t := { serialize := ser; deserialize := de }.
End ReceiveBufferMessage.

Module ReceiveBufferResponse.
Record t := mk { remaining_length : Z; content : list Z }.
Definition max_chunk_size : Z := MAX_APDU_DATA_SIZE - 4.
Definition ser (m : t) : list Z := be_bytes 4 (remaining_length m) ++ content m.
Definition de (data : list Z) : result t :=
  expect_min_len data 4;;
  remaining_length ← index_u32 data 0;
  guard_err (remaining_length <? Z.of_nat (length data - 4)) InvalidDataLength;;
  Ok (mk remaining_length (drop 4 data)).
#[global] Instance message : Message t := { serialize := ser; deserialize := de }.
End ReceiveBufferResponse.

(** The struct [GetCodePageHashes]. *)
Module GetCodePageHashesMessage.
Record t := mk {
  command_code : ClientCommandCode; n_prev_batch_pages : Z; prev_batch_enc_hmacs : list (list Z) }.
Definition new (n_prev_batch_pages : Z) (prev_batch_enc_hmacs : list (list Z)) : t :=
  mk GetCodePageHashes n_prev_batch_pages prev_batch_enc_hmacs.
Definition max_hashes : Z := (MAX_APDU_DATA_SIZE - 4 - 1) / 32.
Definition ser (m : t) : list Z :=
  [command_code_byte (command_code m)] ++ be_bytes 4 (n_prev_batch_pages m)
  ++ concat (prev_batch_enc_hmacs m).
Definition de (data : list Z) : result t :=
  expect_min_len data 5;;
  command_code ← expect_code data GetCodePageHashes;
  n_prev_batch_pages ← index_u32 data 1;
  prev_batch_enc_hmacs ← hashes_from data 5;
  Ok (mk command_code n_prev_batch_pages prev_batch_enc_hmacs).
#[global] Instance message : Message t := { serialize := ser; deserialize := de }.
End GetCodePageHashesMessage.

Module GetCodePageHashesResponse.
Record t := mk { n_code_pages : Z; code_page_hashes : list (list Z) }.
Definition max_hashes : Z := GetCodePageHashesMessage.max_hashes.
Definition ser (m : t) : list Z := be_bytes 4 (n_code_pages m) ++ concat (code_page_hashes m).
Definition de (data : list Z) : result t :=
  expect_min_len data 4;;
  n_code_pages ← index_u32 data 0;
  code_page_hashes ← hashes_from data 4;
  guard_err (negb (Z.of_nat (length code_page_hashes) =? n_code_pages)) InvalidDataLength;;
  Ok (mk n_code_pages code_page_hashes).
#[global] Instance message : Message t := { serialize := ser; deserialize := de }.
End GetCodePageHashesResponse.
