(* ===== verification/ClientCommandsSpec.v ===== *)
(** * The messages of the protocol round-trip

    [MessageSpec] is what a message promises: what is serialized is deserialized to the
    same message, and what is deserialized is well formed, so that a message has one
    meaning. Every message of [ClientCommands] has an instance. [ExactMessage] adds
    that the bytes themselves are determined: no two encodings of one message. *)

From S2P Require Import Prelude ClientCommands.

Class MessageSpec (T : Type) `{Message T} := {
  valid : T -> Prop;
  round_trip : forall m, valid m -> deserialize (serialize m) = Ok m;
  deserialize_valid : forall data m, bytes_ok data -> deserialize data = Ok m -> valid m;
}.
Class ExactMessage (T : Type) `{Message T} :=
  exact_encoding : forall data m, bytes_ok data -> deserialize data = Ok m -> serialize m = data.

Definition hash32 (h : list Z) : Prop := length h = 32%nat /\ bytes_ok h.

(** ** Reading lemmas *)

Lemma bind_ok {E A B} (o : outcome E A) (f : A -> outcome E B) b :
  (x ← o; f x) = Ok b -> exists a, o = Ok a /\ f a = Ok b.
Proof. destruct o; try done. eauto. Qed.
Lemma guard_ok {E B} b (e : E) (o : outcome E B) x :
  (guard_err b e;; o) = Ok x -> b = false /\ o = Ok x.
Proof. by destruct b. Qed.
Lemma ok_or_ok {E A} (o : option A) (e : E) a : ok_or o e = Ok a -> o = Some a.
Proof. destruct o; [by intros [= ->]|done]. Qed.
Lemma index_ok data i b : index data i = Ok b -> data !! i = Some b.
Proof. unfold index, unwrap. destruct (data !! i); [by intros [= ->]|done]. Qed.
Lemma index_u8 data i b : bytes_ok data -> index data i = Ok b -> is_u8 b.
Proof. intros Hd Hi%index_ok. by eapply (Forall_lookup_1 _ _ _ _ Hd). Qed.
Lemma index_slice_ok data i n l : index_slice data i n = Ok l ->
  (i + n <= length data)%nat /\ l = slice i n data.
Proof.
  unfold index_slice. destruct (Nat.leb_spec (i + n) (length data)); [by intros [= <-]|done].
Qed.
Lemma slice_bytes data i n : bytes_ok data -> bytes_ok (slice i n data).
Proof. intros. by apply Forall_take, Forall_drop. Qed.

Lemma be_value_4 b0 b1 b2 b3 : bytes_ok [b0; b1; b2; b3] ->
  is_u32 (be_value [b0; b1; b2; b3]) /\ be_bytes 4 (be_value [b0; b1; b2; b3]) = [b0; b1; b2; b3].
Proof.
  intros Hb. split; [exact (be_value_range _ Hb)|]. exact (be_bytes_value _ Hb).
Qed.
Lemma index_u32_ok data i x : bytes_ok data -> index_u32 data i = Ok x ->
  is_u32 x /\ be_bytes 4 x = slice i 4 data.
Proof.
  intros Hd. unfold index_u32. intros (b0 & H0 & H)%bind_ok. apply bind_ok in H as (b1 & H1 & H).
  apply bind_ok in H as (b2 & H2 & H). apply bind_ok in H as (b3 & H3 & [= <-]).
  destruct (be_value_4 b0 b1 b2 b3) as [Hr ->].
  { repeat (apply Forall_cons; split; [by eapply index_u8|]). done. }
  split; [done|]. apply index_ok in H0, H1, H2, H3. unfold slice.
  erewrite (drop_S _ _ i) by exact H0. cbn [take]. f_equal.
  replace (S i) with (i + 1)%nat by lia. erewrite (drop_S _ _ (i + 1)) by exact H1. cbn [take]. f_equal.
  replace (S (i + 1)) with (i + 2)%nat by lia. erewrite (drop_S _ _ (i + 2)) by exact H2. cbn [take]. f_equal.
  replace (S (i + 2)) with (i + 3)%nat by lia. erewrite (drop_S _ _ (i + 3)) by exact H3. done.
Qed.
Lemma index_app l r k : index (l ++ r) (length l + k) = index r k.
Proof. unfold index. rewrite lookup_app_r by lia. by rewrite Nat.add_comm, Nat.add_sub. Qed.
Lemma index_u32_app l x r i : length l = i -> is_u32 x -> index_u32 (l ++ be_bytes 4 x ++ r) i = Ok x.
Proof.
  intros <- Hx. unfold index_u32. rewrite <- (Nat.add_0_r (length l)) at 1. rewrite !index_app.
  cbn [be_bytes le_bytes rev app index lookup list_lookup unwrap mbind outcome_mbind outcome_bind].
  f_equal. exact (be_value_bytes 4 x Hx).
Qed.

Lemma index_u32_at0 x r : is_u32 x -> index_u32 (be_bytes 4 x ++ r) 0 = Ok x.
Proof. apply (index_u32_app [] x r 0 eq_refl). Qed.
Lemma index_u32_at1 a x r : is_u32 x -> index_u32 ([a] ++ be_bytes 4 x ++ r) 1 = Ok x.
Proof. apply (index_u32_app [a] x r 1 eq_refl). Qed.
Lemma index_u32_at2 a b x r : is_u32 x -> index_u32 ([a] ++ [b] ++ be_bytes 4 x ++ r) 2 = Ok x.
Proof. apply (index_u32_app [a; b] x r 2 eq_refl). Qed.

Lemma length_hash_slice n data : length (hash_slice n data) = n.
Proof. revert data; induction n; intros; cbn; auto. Qed.
Lemma hash_slice_ok n data : (32 * n <= length data)%nat -> bytes_ok data ->
  Forall hash32 (hash_slice n data).
Proof.
  revert data; induction n as [|n IH]; intros data Hl Hb; [done|]. cbn [hash_slice].
  apply Forall_cons. split.
  - split; [rewrite length_take; lia|by apply Forall_take].
  - apply IH; [rewrite length_drop; lia|by apply Forall_drop].
Qed.
Lemma concat_hash_slice n data : length data = (32 * n)%nat -> concat (hash_slice n data) = data.
Proof.
  revert data; induction n as [|n IH]; intros data Hl; cbn [hash_slice concat].
  - by destruct data.
  - rewrite IH by (rewrite length_drop; lia). apply take_drop.
Qed.
Abbreviation length32 := (fun h : list Z => length h = 32%nat).
Lemma hash32_length hs : Forall hash32 hs -> Forall length32 hs.
Proof. intros Hh. eapply Forall_impl; [exact Hh|]. by intros h []. Qed.
#[local] Hint Resolve hash32_length : core.
Lemma hash_slice_length n data : (32 * n <= length data)%nat -> Forall length32 (hash_slice n data).
Proof.
  revert data; induction n as [|n IH]; intros data Hl; [done|]. cbn [hash_slice].
  constructor; [rewrite length_take; lia|]. apply IH. rewrite length_drop. lia.
Qed.
Lemma length_concat_hashes hs : Forall length32 hs -> length (concat hs) = (32 * length hs)%nat.
Proof. induction 1 as [|h hs Hh _ IH]; [done|]. cbn [concat length]. rewrite length_app, IH. lia. Qed.
Lemma hash_slice_concat hs r : Forall length32 hs -> hash_slice (length hs) (concat hs ++ r) = hs.
Proof.
  induction 1 as [|h hs Hh _ IH]; [done|]. cbn [hash_slice length concat].
  rewrite <- app_assoc. f_equal.
  - rewrite take_app_le by lia. apply take_ge. lia.
  - rewrite drop_app_ge by lia. by rewrite Hh, Nat.sub_diag, drop_0.
Qed.
Lemma hashes_from_app l hs i : length l = i -> Forall length32 hs -> hashes_from (l ++ concat hs) i = Ok hs.
Proof.
  intros <- Hh. unfold hashes_from. rewrite length_app, (length_concat_hashes _ Hh).
  replace (length l + 32 * length hs - length l)%nat with (length hs * 32)%nat by lia.
  rewrite Nat.Div0.mod_mul, Nat.div_mul by lia. cbn. f_equal. rewrite drop_app_length.
  rewrite <- (app_nil_r (concat hs)). by apply hash_slice_concat.
Qed.
Lemma hashes_from_ok data i hs : bytes_ok data -> (i <= length data)%nat -> hashes_from data i = Ok hs ->
  Forall hash32 hs /\ concat hs = drop i data /\ Z.of_nat (32 * length hs) = Z.of_nat (length data - i).
Proof.
  intros Hd Hi. unfold hashes_from. intros [Hm He]%guard_ok.
  assert (hash_slice ((length data - i) / 32) (drop i data) = hs) as <- by congruence.
  apply negb_false_iff, Nat.eqb_eq in Hm. apply Nat.Div0.mod_divides in Hm as [k Hk].
  assert ((length data - i) / 32 = k)%nat as -> by (rewrite Hk, (Nat.mul_comm 32 k); apply Nat.div_mul; lia).
  rewrite length_hash_slice. split; [|split; [|lia]].
  - apply hash_slice_ok; [rewrite length_drop; lia|by apply Forall_drop].
  - apply concat_hash_slice. rewrite length_drop. lia.
Qed.

Lemma command_code_of_byte c : command_code_of (command_code_byte c) = Some c.
Proof. by destruct c. Qed.
Lemma command_code_byte_of b c : command_code_of b = Some c -> command_code_byte c = b.
Proof.
  unfold command_code_of. repeat case_match; try done; by intros [= <-].
Qed.
Lemma section_kind_of_byte c : section_kind_of (section_kind_byte c) = Some c.
Proof. by destruct c. Qed.
Lemma section_kind_byte_of b c : section_kind_of b = Some c -> section_kind_byte c = b.
Proof. unfold section_kind_of. repeat case_match; try done; by intros [= <-]. Qed.
Lemma proof_kind_of_byte c : page_proof_kind_of (page_proof_kind_byte c) = Some c.
Proof. by destruct c. Qed.
Lemma buffer_type_of_byte c : buffer_type_of (buffer_type_byte c) = Some c.
Proof. by destruct c. Qed.
Lemma buffer_type_byte_of b c : buffer_type_of b = Some c -> buffer_type_byte c = b.
Proof. unfold buffer_type_of. repeat case_match; try done; by intros [= <-]. Qed.

Lemma expect_code_cons c r : expect_code (command_code_byte c :: r) c = Ok c.
Proof. unfold expect_code. cbn. rewrite command_code_of_byte. cbn. by rewrite bool_decide_true. Qed.
Lemma expect_code_ok data c c' : expect_code data c = Ok c' ->
  c' = c /\ data !! 0%nat = Some (command_code_byte c).
Proof.
  unfold expect_code. intros (b & Hb%index_ok & H)%bind_ok. apply bind_ok in H as (c1 & Hc%ok_or_ok & H).
  apply guard_ok in H as [Hd [= <-]]. apply negb_false_iff, bool_decide_eq_true in Hd as ->.
  split; [done|]. by rewrite (command_code_byte_of _ _ Hc).
Qed.
Lemma expect_len_ok data n : expect_len data n = Ok tt <-> length data = n.
Proof. unfold expect_len, guard_err. destruct (Nat.eqb_spec (length data) n); cbn; naive_solver. Qed.
Lemma expect_min_len_ok data n : expect_min_len data n = Ok tt <-> (n <= length data)%nat.
Proof.
  unfold expect_min_len, guard_err. destruct (Nat.ltb_spec (length data) n); split; try done; lia.
Qed.

(** The nonce of a message that is not encrypted is all zeros. *)
Definition nonce_ok (enc : bool) (nonce : list Z) : Prop :=
  length nonce = 12%nat /\ bytes_ok nonce /\ (enc = false -> nonce = replicate 12 0).
Lemma zero_nonce_ok : nonce_ok false (replicate 12 0).
Proof. split; [done|]. split; [|done]. apply Forall_replicate. by split. Qed.
Lemma read_nonce_app l enc nonce r i :
  length l = i -> nonce_ok enc nonce ->
  read_nonce (l ++ [bool_byte enc] ++ nonce ++ r) i = Ok (enc, nonce).
Proof.
  intros <- (Hn & _ & Hz). unfold read_nonce, index. rewrite lookup_app_r, Nat.sub_diag by lia.
  cbn [app lookup list_lookup unwrap mbind outcome_mbind outcome_bind]. destruct enc; cbn [bool_byte].
  - cbn [Z.eqb Pos.eqb]. unfold index_slice. rewrite (proj2 (Nat.leb_le _ _)).
    2: { rewrite length_app. cbn. rewrite length_app. lia. }
    cbn [mbind outcome_mbind outcome_bind]. do 2 f_equal. unfold slice.
    rewrite drop_app_ge by lia. replace (length l + 1 - length l)%nat with 1%nat by lia.
    change (drop 1 (1 :: nonce ++ r)) with (nonce ++ r). rewrite take_app_le by lia. apply take_ge. lia.
  - cbn [Z.eqb mbind outcome_mbind outcome_bind]. by rewrite Hz.
Qed.
Lemma read_nonce_ok data i enc nonce : bytes_ok data -> read_nonce data i = Ok (enc, nonce) ->
  nonce_ok enc nonce.
Proof.
  intros Hd. unfold read_nonce. intros (b & Hb & H)%bind_ok. apply bind_ok in H as (n & Hn & [= <- <-]).
  destruct (b =? 1).
  - apply index_slice_ok in Hn as [Hl ->]. split; [apply length_slice; lia|]. split; [|done].
    by apply slice_bytes.
  - injection Hn as <-. apply zero_nonce_ok.
Qed.

(** ** The instances *)

Ltac inv_bind :=
  repeat match goal with
  | H : (guard_err _ _ ;; _) = Ok _ |- _ => apply guard_ok in H as [? H]
  | H : (_ ← _; _) = Ok _ |- _ => apply bind_ok in H as (? & ? & H)
  | H : Ok _ = Ok _ |- _ => injection H as H; subst
  | H : ok_or _ _ = Ok _ |- _ => apply ok_or_ok in H
  | H : expect_len _ _ = Ok _ |- _ => apply expect_len_ok in H
  | x : unit |- _ => destruct x
  end.

Lemma list_1 (data : list Z) b : length data = 1%nat -> data !! 0%nat = Some b -> data = [b].
Proof. destruct data as [|x []]; cbn; congruence. Qed.
Lemma drop_split (data : list Z) i n : (i + n <= length data)%nat ->
  drop i data = slice i n data ++ drop (i + n) data.
Proof. intros. unfold slice. by rewrite <- drop_drop, take_drop. Qed.

Section code_only.
(** The messages that are only a code. *)
Context {T : Type} (code : ClientCommandCode) (mk : ClientCommandCode -> T) (get : T -> ClientCommandCode).
Context (get_mk : forall c, get (mk c) = c) (mk_get : forall m, mk (get m) = m).
Let de (data : list Z) : result T := expect_len data 1;; c ← expect_code data code; Ok (mk c).

Lemma code_only_round_trip m : get m = code -> de [command_code_byte (get m)] = Ok m.
Proof. intros E. unfold de. rewrite E, expect_code_cons. cbn. by rewrite <- E, mk_get. Qed.
Lemma code_only_valid data m : de data = Ok m -> get m = code /\ [command_code_byte (get m)] = data.
Proof.
  unfold de. intros H. inv_bind. apply expect_code_ok in H1 as [-> H1].
  rewrite get_mk. split; [done|]. symmetry. by apply list_1.
Qed.
End code_only.

#[export, refine] Instance get_page_proof_continued_spec : MessageSpec GetPageProofContinuedMessage.t :=
  { valid := fun m => GetPageProofContinuedMessage.command_code m = GetPageProofContinued }.
Proof.
  - intros [c]. by apply (code_only_round_trip GetPageProofContinued GetPageProofContinuedMessage.mk
      GetPageProofContinuedMessage.command_code ltac:(by intros [])).
  - intros data m _ H. exact (proj1 (code_only_valid GetPageProofContinued GetPageProofContinuedMessage.mk
      GetPageProofContinuedMessage.command_code (fun _ => eq_refl) data m H)).
Defined.
#[export] Instance get_page_proof_continued_exact : ExactMessage GetPageProofContinuedMessage.t.
Proof.
  intros data m _ H. exact (proj2 (code_only_valid GetPageProofContinued GetPageProofContinuedMessage.mk
      GetPageProofContinuedMessage.command_code (fun _ => eq_refl) data m H)).
Qed.

#[export, refine] Instance commit_page_proof_continued_spec : MessageSpec CommitPageProofContinuedMessage.t :=
  { valid := fun m => CommitPageProofContinuedMessage.command_code m = CommitPageProofContinued }.
Proof.
  - intros [c]. by apply (code_only_round_trip CommitPageProofContinued CommitPageProofContinuedMessage.mk
      CommitPageProofContinuedMessage.command_code ltac:(by intros [])).
  - intros data m _ H. exact (proj1 (code_only_valid CommitPageProofContinued CommitPageProofContinuedMessage.mk
      CommitPageProofContinuedMessage.command_code (fun _ => eq_refl) data m H)).
Defined.
#[export] Instance commit_page_proof_continued_exact : ExactMessage CommitPageProofContinuedMessage.t.
Proof.
  intros data m _ H. exact (proj2 (code_only_valid CommitPageProofContinued CommitPageProofContinuedMessage.mk
      CommitPageProofContinuedMessage.command_code (fun _ => eq_refl) data m H)).
Qed.

#[export, refine] Instance receive_buffer_spec : MessageSpec ReceiveBufferMessage.t :=
  { valid := fun m => ReceiveBufferMessage.command_code m = ReceiveBuffer }.
Proof.
  - intros [c]. by apply (code_only_round_trip ReceiveBuffer ReceiveBufferMessage.mk
      ReceiveBufferMessage.command_code ltac:(by intros [])).
  - intros data m _ H. exact (proj1 (code_only_valid ReceiveBuffer ReceiveBufferMessage.mk
      ReceiveBufferMessage.command_code (fun _ => eq_refl) data m H)).
Defined.
#[export] Instance receive_buffer_exact : ExactMessage ReceiveBufferMessage.t.
Proof.
  intros data m _ H. exact (proj2 (code_only_valid ReceiveBuffer ReceiveBufferMessage.mk
      ReceiveBufferMessage.command_code (fun _ => eq_refl) data m H)).
Qed.

(** *** GetPageMessage *)

Definition get_page_valid (m : GetPageMessage.t) : Prop :=
  GetPageMessage.command_code m = GetPage /\ is_u32 (GetPageMessage.page_index m).
Lemma get_page_decoded data m : bytes_ok data -> GetPageMessage.de data = Ok m ->
  get_page_valid m /\ GetPageMessage.ser m = data.
Proof.
  intros Hd H. unfold GetPageMessage.de in H. inv_bind.
  apply expect_code_ok in H1 as [-> H1]. apply index_ok in H2. apply (index_u32_ok _ _ _ Hd) in H4 as [Hr Hs].
  split; [by split|]. unfold GetPageMessage.ser. cbn [GetPageMessage.command_code GetPageMessage.section_kind
    GetPageMessage.page_index].
  rewrite Hs, (section_kind_byte_of _ _ H3).
  destruct data as [|a [|b [|c [|d [|e [|f []]]]]]]; try done. cbn in *. congruence.
Qed.
#[export, refine] Instance get_page_spec : MessageSpec GetPageMessage.t := { valid := get_page_valid }.
Proof.
  - intros [c k p] [Hc Hp]. cbn in Hc, Hp. subst c. cbn [deserialize serialize GetPageMessage.message].
    unfold GetPageMessage.de, GetPageMessage.ser.
    cbn [GetPageMessage.command_code GetPageMessage.section_kind GetPageMessage.page_index app].
    rewrite expect_code_cons. unfold expect_len. cbn [length]. rewrite length_be_bytes. cbn.
    rewrite section_kind_of_byte. cbn. do 2 f_equal. exact (be_value_bytes 4 p Hp).
  - intros data m Hd H. exact (proj1 (get_page_decoded data m Hd H)).
Defined.
#[export] Instance get_page_exact : ExactMessage GetPageMessage.t.
Proof. intros data m Hd H. exact (proj2 (get_page_decoded data m Hd H)). Qed.

(** *** The continued proofs *)

Definition proof_valid (t : Z) (proof : list (list Z)) : Prop := is_u8 t /\ Forall hash32 proof.
Lemma continued_decoded {T} (mk : Z -> list (list Z) -> T) data m : bytes_ok data ->
  (expect_min_len data 1;; t ← index data 0; proof ← hashes_from data 1; Ok (mk t proof)) = Ok m ->
  exists t proof, m = mk t proof /\ proof_valid t proof /\ [t] ++ concat proof = data.
Proof.
  intros Hd H. inv_bind. apply expect_min_len_ok in H0.
  pose proof (index_u8 _ _ _ Hd H1). apply index_ok in H1.
  apply (hashes_from_ok _ _ _ Hd H0) in H2 as (Hh & Hc & _). eexists _, _. split; [done|].
  split; [by split|]. rewrite Hc. destruct data; [done|]. cbn in H1. injection H1 as ->. reflexivity.
Qed.
Lemma continued_round_trip {T} (mk : Z -> list (list Z) -> T) t proof : Forall hash32 proof ->
  (expect_min_len ([t] ++ concat proof) 1;; t' ← index ([t] ++ concat proof) 0;
   proof' ← hashes_from ([t] ++ concat proof) 1; Ok (mk t' proof')) = Ok (mk t proof).
Proof. intros Hp. by rewrite (hashes_from_app [t] proof 1) by auto. Qed.

Definition get_page_continued_valid (m : GetPageProofContinuedResponse.t) : Prop :=
  proof_valid (GetPageProofContinuedResponse.t_ m) (GetPageProofContinuedResponse.proof m).
#[export, refine] Instance get_page_continued_spec : MessageSpec GetPageProofContinuedResponse.t :=
  { valid := get_page_continued_valid }.
Proof.
  - intros [t p] [_ Hp]. by apply continued_round_trip.
  - intros data m Hd H. by apply (continued_decoded _ _ _ Hd) in H as (t & p & -> & Hv & _).
Defined.
#[export] Instance get_page_continued_exact : ExactMessage GetPageProofContinuedResponse.t.
Proof. intros data m Hd H. by apply (continued_decoded _ _ _ Hd) in H as (t & p & -> & _ & Hv). Qed.

Definition commit_continued_valid (m : CommitPageProofContinuedResponse.t) : Prop :=
  proof_valid (CommitPageProofContinuedResponse.t_ m) (CommitPageProofContinuedResponse.proof m).
#[export, refine] Instance commit_continued_spec : MessageSpec CommitPageProofContinuedResponse.t :=
  { valid := commit_continued_valid }.
Proof.
  - intros [t p] [_ Hp]. by apply continued_round_trip.
  - intros data m Hd H. by apply (continued_decoded _ _ _ Hd) in H as (t & p & -> & Hv & _).
Defined.
#[export] Instance commit_continued_exact : ExactMessage CommitPageProofContinuedResponse.t.
Proof. intros data m Hd H. by apply (continued_decoded _ _ _ Hd) in H as (t & p & -> & _ & Hv). Qed.

(** *** CommitPageProofResponse *)

Definition commit_proof_valid (m : CommitPageProofResponse.t) : Prop :=
  is_u8 (CommitPageProofResponse.n m) /\ hash32 (CommitPageProofResponse.new_root m) /\
  proof_valid (CommitPageProofResponse.t_ m) (CommitPageProofResponse.proof m).
Lemma commit_proof_decoded data m : bytes_ok data -> CommitPageProofResponse.de data = Ok m ->
  commit_proof_valid m /\ CommitPageProofResponse.ser m = data.
Proof.
  intros Hd H. unfold CommitPageProofResponse.de in H. inv_bind. apply expect_min_len_ok in H0.
  pose proof (index_u8 _ _ _ Hd H1). pose proof (index_u8 _ _ _ Hd H2). apply index_ok in H1, H2.
  apply index_slice_ok in H3 as [Hl ->]. apply (hashes_from_ok _ _ _ Hd H0) in H4 as (Hh & Hc & _).
  split.
  - split; [done|]. split; [|by split]. split; [by apply length_slice|by apply slice_bytes].
  - unfold CommitPageProofResponse.ser. cbn [CommitPageProofResponse.n CommitPageProofResponse.t_
      CommitPageProofResponse.new_root CommitPageProofResponse.proof].
    pose proof (drop_split data 2 32 Hl) as Hs. change (2 + 32)%nat with 34%nat in Hs.
    rewrite Hc, <- Hs.
    destruct data as [|a [|b data]]; [done..|]. cbn in *. by simplify_eq.
Qed.
#[export, refine] Instance commit_proof_spec : MessageSpec CommitPageProofResponse.t :=
  { valid := commit_proof_valid }.
Proof.
  - intros [n t r p] (Hn & [Hr1 Hr2] & [Ht Hp]).
    cbn [CommitPageProofResponse.n CommitPageProofResponse.t_ CommitPageProofResponse.new_root
      CommitPageProofResponse.proof] in *.
    cbn [deserialize serialize CommitPageProofResponse.message].
    unfold CommitPageProofResponse.de, CommitPageProofResponse.ser.
    cbn [CommitPageProofResponse.n CommitPageProofResponse.t_ CommitPageProofResponse.new_root
      CommitPageProofResponse.proof].
    rewrite (proj2 (expect_min_len_ok _ 34)) by (rewrite !length_app; cbn; lia).
    replace ([n] ++ [t] ++ r ++ concat p) with (([n] ++ [t] ++ r) ++ concat p) by by rewrite <- !app_assoc.
    rewrite (hashes_from_app _ p 34) by (auto; done || (rewrite !length_app; cbn; lia)).
    cbn [app mbind outcome_mbind outcome_bind]. cbn. unfold index_slice.
    rewrite (proj2 (Nat.leb_le _ _)) by (cbn; rewrite length_app; lia). cbn [mbind outcome_mbind outcome_bind].
    do 2 f_equal. unfold slice. change (drop 2 (n :: t :: r ++ concat p)) with (r ++ concat p).
    rewrite take_app_le by lia. apply take_ge. lia.
  - intros data m Hd H. exact (proj1 (commit_proof_decoded data m Hd H)).
Defined.
#[export] Instance commit_proof_exact : ExactMessage CommitPageProofResponse.t.
Proof. intros data m Hd H. exact (proj2 (commit_proof_decoded data m Hd H)). Qed.

(** *** GetPageResponse *)

Definition get_page_response_valid (m : GetPageResponse.t) : Prop :=
  length (GetPageResponse.page_data m) = page_len /\ bytes_ok (GetPageResponse.page_data m) /\
  nonce_ok (GetPageResponse.is_encrypted m) (GetPageResponse.nonce m) /\
  is_u8 (GetPageResponse.n m) /\ is_u8 (GetPageResponse.t_ m) /\
  GetPageResponse.t_ m = Z.of_nat (length (GetPageResponse.proof m)) /\
  Forall hash32 (GetPageResponse.proof m).

Lemma index_page l r k : length l = page_len -> index (l ++ r) (page_len + k) = index r k.
Proof. intros <-. apply index_app. Qed.
Lemma index_slice_app l r n : length l = n -> index_slice (l ++ r) 0 n = Ok l.
Proof.
  intros <-. unfold index_slice. rewrite (proj2 (Nat.leb_le _ _)) by (rewrite length_app; lia).
  f_equal. unfold slice. rewrite drop_0, take_app_le by lia. by apply take_ge.
Qed.

Lemma get_page_response_round_trip m :
  get_page_response_valid m -> GetPageResponse.de (GetPageResponse.ser m) = Ok m.
Proof.
  destruct m as [p enc nonce n t k proof]. intros (Hp & Hb & Hn & Hnn & Htt & Ht & Hh).
  cbn [GetPageResponse.page_data GetPageResponse.is_encrypted GetPageResponse.nonce GetPageResponse.n
    GetPageResponse.t_ GetPageResponse.proof_kind GetPageResponse.proof] in *.
  unfold GetPageResponse.de, GetPageResponse.ser.
  cbn [GetPageResponse.page_data GetPageResponse.is_encrypted GetPageResponse.nonce GetPageResponse.n
    GetPageResponse.t_ GetPageResponse.proof_kind GetPageResponse.proof].
  pose proof Hn as (Hn12 & _).
  rewrite (proj2 (expect_min_len_ok _ (page_len + 16))) by (rewrite !length_app; cbn [length]; lia).
  cbn [mbind outcome_mbind outcome_bind]. rewrite index_slice_app by done.
  cbn [mbind outcome_mbind outcome_bind].
  rewrite <- (Nat.add_0_r page_len) at 1. rewrite !index_page by done.
  cbn [app index lookup list_lookup unwrap mbind outcome_mbind outcome_bind].
  replace (p ++ n :: t :: bool_byte enc :: nonce ++ page_proof_kind_byte k :: concat proof)
    with ((p ++ [n; t]) ++ [bool_byte enc] ++ nonce ++ page_proof_kind_byte k :: concat proof)
    by by rewrite <- app_assoc.
  rewrite read_nonce_app by (done || (rewrite length_app; cbn [length]; lia)).
  cbn [mbind outcome_mbind outcome_bind].
  replace ((p ++ [n; t]) ++ [bool_byte enc] ++ nonce ++ page_proof_kind_byte k :: concat proof)
    with ((p ++ [n; t; bool_byte enc] ++ nonce ++ [page_proof_kind_byte k]) ++ concat proof)
    by (rewrite <- !app_assoc; reflexivity).
  rewrite hashes_from_app by (auto; done || (rewrite !length_app; cbn [length]; lia)).
  replace (index (n :: t :: bool_byte enc :: nonce ++ page_proof_kind_byte k :: concat proof) 15)
    with (Ok (E:=MessageDeserializationError) (page_proof_kind_byte k)).
  2: { change (index _ 15) with (index (nonce ++ page_proof_kind_byte k :: concat proof) 12).
       replace 12%nat with (length nonce + 0)%nat by lia. by rewrite index_app. }
  cbn [mbind outcome_mbind outcome_bind]. rewrite proof_kind_of_byte.
  cbn [ok_or mbind outcome_mbind outcome_bind]. by rewrite <- Ht, Z.eqb_refl.
Qed.

#[export, refine] Instance get_page_response_spec : MessageSpec GetPageResponse.t :=
  { valid := get_page_response_valid }.
Proof.
  - apply get_page_response_round_trip.
  - intros data m Hd H. cbn [deserialize GetPageResponse.message] in H. unfold GetPageResponse.de in H.
    inv_bind. apply expect_min_len_ok in H0.
    match goal with x : bool * list Z |- _ => destruct x as [enc nonce] end. inv_bind.
    apply index_slice_ok in H1 as [Hl ->]. pose proof (index_u8 _ _ _ Hd H2).
    pose proof (index_u8 _ _ _ Hd H3).
    apply (read_nonce_ok _ _ _ _ Hd) in H4. apply (hashes_from_ok _ _ _ Hd H0) in H7 as (Hh & _ & _).
    apply negb_false_iff, Z.eqb_eq in H8.
    split; [by apply length_slice|]. split; [by apply slice_bytes|]. done.
Defined.

(** *** CommitPageMessage *)

Definition commit_page_valid (m : CommitPageMessage.t) : Prop :=
  CommitPageMessage.command_code m = CommitPage /\ is_u32 (CommitPageMessage.page_index m) /\
  nonce_ok (CommitPageMessage.is_encrypted m) (CommitPageMessage.nonce m) /\
  length (CommitPageMessage.data m) = page_len /\ bytes_ok (CommitPageMessage.data m).

Lemma nonce_bytes enc nonce : nonce_ok enc nonce ->
  (if enc then [1] ++ nonce else replicate 13 0) = [bool_byte enc] ++ nonce.
Proof. intros (_ & _ & Hz). destruct enc; [done|]. by rewrite Hz. Qed.

Lemma commit_page_round_trip m :
  commit_page_valid m -> CommitPageMessage.de (CommitPageMessage.ser m) = Ok m.
Proof.
  destruct m as [c k p enc nonce d]. intros (Hc & Hp & Hn & Hd & Hb).
  cbn [CommitPageMessage.command_code CommitPageMessage.section_kind CommitPageMessage.page_index
    CommitPageMessage.is_encrypted CommitPageMessage.nonce CommitPageMessage.data] in *. subst c.
  unfold CommitPageMessage.de, CommitPageMessage.ser.
  cbn [CommitPageMessage.command_code CommitPageMessage.section_kind CommitPageMessage.page_index
    CommitPageMessage.is_encrypted CommitPageMessage.nonce CommitPageMessage.data].
  rewrite (nonce_bytes _ _ Hn). pose proof Hn as (Hn12 & _).
  rewrite (proj2 (expect_len_ok _ (19 + page_len)))
    by (rewrite !length_app, length_be_bytes; cbn [length]; lia).
  cbn [app]. rewrite expect_code_cons. cbn [mbind outcome_mbind outcome_bind index lookup list_lookup unwrap].
  rewrite section_kind_of_byte. cbn [mbind outcome_mbind outcome_bind ok_or].
  change (command_code_byte CommitPage :: section_kind_byte k :: be_bytes 4 p ++ bool_byte enc :: nonce ++ d)
    with ([command_code_byte CommitPage; section_kind_byte k] ++ be_bytes 4 p ++ bool_byte enc :: nonce ++ d).
  rewrite index_u32_app by done. cbn [mbind outcome_mbind outcome_bind].
  replace ([command_code_byte CommitPage; section_kind_byte k] ++ be_bytes 4 p ++ bool_byte enc :: nonce ++ d)
    with (([command_code_byte CommitPage; section_kind_byte k] ++ be_bytes 4 p) ++ [bool_byte enc] ++ nonce ++ d)
    by by rewrite <- app_assoc.
  rewrite read_nonce_app by (done || (rewrite length_app, length_be_bytes; done)).
  cbn [mbind outcome_mbind outcome_bind].
  replace (index_slice _ 19 page_len) with (Ok (E:=MessageDeserializationError) d); [done|].
  symmetry. unfold index_slice.
  rewrite (proj2 (Nat.leb_le _ _)) by (rewrite !length_app, length_be_bytes; cbn [length]; lia).
  f_equal. unfold slice. rewrite !app_assoc.
  rewrite drop_app_ge by (rewrite !length_app, length_be_bytes; cbn [length]; lia).
  replace (19 - _)%nat with 0%nat by (rewrite !length_app, length_be_bytes; cbn [length]; lia).
  rewrite drop_0. apply take_ge. lia.
Qed.
#[export, refine] Instance commit_page_spec : MessageSpec CommitPageMessage.t :=
  { valid := commit_page_valid }.
Proof.
  - apply commit_page_round_trip.
  - intros data m Hd H. cbn [deserialize CommitPageMessage.message] in H. unfold CommitPageMessage.de in H.
    inv_bind.
    match goal with x : bool * list Z |- _ => destruct x as [enc nonce] end. inv_bind.
    apply expect_code_ok in H1 as [-> _]. apply (index_u32_ok _ _ _ Hd) in H4 as [Hr _].
    apply (read_nonce_ok _ _ _ _ Hd) in H5. apply index_slice_ok in H6 as [Hl ->].
    split; [done|]. split; [done|]. split; [done|].
    split; [by apply length_slice|by apply slice_bytes].
Defined.

(** *** Buffers *)

Definition send_buffer_valid (m : SendBufferMessage.t) : Prop :=
  SendBufferMessage.command_code m = SendBuffer /\ is_u32 (SendBufferMessage.total_size m) /\
  Z.of_nat (length (SendBufferMessage.data m)) <= SendBufferMessage.total_size m /\
  bytes_ok (SendBufferMessage.data m).
Lemma send_buffer_decoded data m : bytes_ok data -> SendBufferMessage.de data = Ok m ->
  send_buffer_valid m /\ SendBufferMessage.ser m = data.
Proof.
  intros Hd H. unfold SendBufferMessage.de in H. inv_bind.
  apply orb_false_iff in H2 as [Hc Hl]. apply negb_false_iff, bool_decide_eq_true in Hc as ->.
  apply Nat.ltb_ge in Hl. apply index_ok in H0, H3. apply (index_u32_ok _ _ _ Hd) in H5 as [Hr Hs].
  apply Z.ltb_ge in H6. split; [split; [done|split; [done|split; [done|by apply Forall_drop]]]|].
  unfold SendBufferMessage.ser. cbn [SendBufferMessage.command_code SendBufferMessage.buffer_type
    SendBufferMessage.total_size SendBufferMessage.data].
  rewrite Hs, (buffer_type_byte_of _ _ H4), (command_code_byte_of _ _ H1).
  pose proof (drop_split data 2 4 Hl) as Hsp. change (2 + 4)%nat with 6%nat in Hsp. rewrite <- Hsp.
  destruct data as [|a [|b data]]; [done..|]. cbn in H0, H3. injection H0 as ->. by injection H3 as ->.
Qed.
#[export, refine] Instance send_buffer_spec : MessageSpec SendBufferMessage.t :=
  { valid := send_buffer_valid }.
Proof.
  - intros [c b s d] (Hc & Hs & Hl & Hb). cbn [SendBufferMessage.command_code SendBufferMessage.buffer_type
      SendBufferMessage.total_size SendBufferMessage.data] in *. subst c.
    cbn [deserialize serialize SendBufferMessage.message].
    unfold SendBufferMessage.de, SendBufferMessage.ser. cbn [SendBufferMessage.command_code
      SendBufferMessage.buffer_type SendBufferMessage.total_size SendBufferMessage.data].
    rewrite index_u32_at2 by done. cbn. rewrite buffer_type_of_byte. cbn.
    by rewrite (proj2 (Z.ltb_ge _ _)) by done.
  - intros data m Hd H. exact (proj1 (send_buffer_decoded data m Hd H)).
Defined.
#[export] Instance send_buffer_exact : ExactMessage SendBufferMessage.t.
Proof. intros data m Hd H. exact (proj2 (send_buffer_decoded data m Hd H)). Qed.

Definition send_continued_valid (m : SendBufferContinuedMessage.t) : Prop :=
  SendBufferContinuedMessage.command_code m = SendBufferContinued /\
  bytes_ok (SendBufferContinuedMessage.data m).
Lemma send_continued_decoded data m : bytes_ok data -> SendBufferContinuedMessage.de data = Ok m ->
  send_continued_valid m /\ SendBufferContinuedMessage.ser m = data.
Proof.
  intros Hd H. unfold SendBufferContinuedMessage.de in H. inv_bind.
  apply expect_code_ok in H1 as [-> H1]. split; [split; [done|by apply Forall_drop]|].
  destruct data as [|b data]; [done|]. cbn in H1. by injection H1 as ->.
Qed.
#[export, refine] Instance send_continued_spec : MessageSpec SendBufferContinuedMessage.t :=
  { valid := send_continued_valid }.
Proof.
  - intros [c d] [Hc _]. cbn in Hc. by subst c.
  - intros data m Hd H. exact (proj1 (send_continued_decoded data m Hd H)).
Defined.
#[export] Instance send_continued_exact : ExactMessage SendBufferContinuedMessage.t.
Proof. intros data m Hd H. exact (proj2 (send_continued_decoded data m Hd H)). Qed.

Definition receive_response_valid (m : ReceiveBufferResponse.t) : Prop :=
  is_u32 (ReceiveBufferResponse.remaining_length m) /\ bytes_ok (ReceiveBufferResponse.content m) /\
  Z.of_nat (length (ReceiveBufferResponse.content m)) <= ReceiveBufferResponse.remaining_length m.
Lemma receive_response_decoded data m : bytes_ok data -> ReceiveBufferResponse.de data = Ok m ->
  receive_response_valid m /\ ReceiveBufferResponse.ser m = data.
Proof.
  intros Hd H. unfold ReceiveBufferResponse.de in H. inv_bind. apply expect_min_len_ok in H0.
  apply (index_u32_ok _ _ _ Hd) in H1 as [Hr Hs]. apply Z.ltb_ge in H2. split.
  - split; [done|]. split; [by apply Forall_drop|]. cbn. rewrite length_drop. done.
  - unfold ReceiveBufferResponse.ser. cbn [ReceiveBufferResponse.remaining_length ReceiveBufferResponse.content].
    rewrite Hs. symmetry. exact (drop_split data 0 4 H0).
Qed.
#[export, refine] Instance receive_response_spec : MessageSpec ReceiveBufferResponse.t :=
  { valid := receive_response_valid }.
Proof.
  - intros [r c] (Hr & Hb & Hl). cbn [ReceiveBufferResponse.remaining_length ReceiveBufferResponse.content] in *.
    cbn [deserialize serialize ReceiveBufferResponse.message].
    unfold ReceiveBufferResponse.de, ReceiveBufferResponse.ser.
    cbn [ReceiveBufferResponse.remaining_length ReceiveBufferResponse.content].
    rewrite index_u32_at0 by done. cbn. rewrite Nat.sub_0_r.
    by rewrite (proj2 (Z.ltb_ge _ _)) by done.
  - intros data m Hd H. exact (proj1 (receive_response_decoded data m Hd H)).
Defined.
#[export] Instance receive_response_exact : ExactMessage ReceiveBufferResponse.t.
Proof. intros data m Hd H. exact (proj2 (receive_response_decoded data m Hd H)). Qed.

(** *** Hashes of the code pages *)

Definition code_hashes_valid (m : GetCodePageHashesMessage.t) : Prop :=
  GetCodePageHashesMessage.command_code m = GetCodePageHashes /\
  is_u32 (GetCodePageHashesMessage.n_prev_batch_pages m) /\
  Forall hash32 (GetCodePageHashesMessage.prev_batch_enc_hmacs m).
Lemma code_hashes_decoded data m : bytes_ok data -> GetCodePageHashesMessage.de data = Ok m ->
  code_hashes_valid m /\ GetCodePageHashesMessage.ser m = data.
Proof.
  intros Hd H. unfold GetCodePageHashesMessage.de in H. inv_bind. apply expect_min_len_ok in H0.
  apply expect_code_ok in H1 as [-> H1]. apply (index_u32_ok _ _ _ Hd) in H2 as [Hr Hs].
  apply (hashes_from_ok _ _ _ Hd H0) in H3 as (Hh & Hc & _). split; [done|].
  unfold GetCodePageHashesMessage.ser. cbn [GetCodePageHashesMessage.command_code
    GetCodePageHashesMessage.n_prev_batch_pages GetCodePageHashesMessage.prev_batch_enc_hmacs].
  pose proof (drop_split data 1 4 H0) as Hsp. change (1 + 4)%nat with 5%nat in Hsp.
  rewrite Hs, Hc, <- Hsp. destruct data as [|b data]; [done|]. cbn in H1. by injection H1 as ->.
Qed.
#[export, refine] Instance code_hashes_spec : MessageSpec GetCodePageHashesMessage.t :=
  { valid := code_hashes_valid }.
Proof.
  - intros [c n hs] (Hc & Hn & Hh). cbn [GetCodePageHashesMessage.command_code
      GetCodePageHashesMessage.n_prev_batch_pages GetCodePageHashesMessage.prev_batch_enc_hmacs] in *. subst c.
    cbn [deserialize serialize GetCodePageHashesMessage.message].
    unfold GetCodePageHashesMessage.de, GetCodePageHashesMessage.ser. cbn [GetCodePageHashesMessage.command_code
      GetCodePageHashesMessage.n_prev_batch_pages GetCodePageHashesMessage.prev_batch_enc_hmacs].
    rewrite index_u32_at1 by done. rewrite app_assoc, hashes_from_app by auto. done.
  - intros data m Hd H. exact (proj1 (code_hashes_decoded data m Hd H)).
Defined.
#[export] Instance code_hashes_exact : ExactMessage GetCodePageHashesMessage.t.
Proof. intros data m Hd H. exact (proj2 (code_hashes_decoded data m Hd H)). Qed.

Definition code_hashes_response_valid (m : GetCodePageHashesResponse.t) : Prop :=
  is_u32 (GetCodePageHashesResponse.n_code_pages m) /\
  Z.of_nat (length (GetCodePageHashesResponse.code_page_hashes m)) = GetCodePageHashesResponse.n_code_pages m /\
  Forall hash32 (GetCodePageHashesResponse.code_page_hashes m).
Lemma code_hashes_response_decoded data m : bytes_ok data -> GetCodePageHashesResponse.de data = Ok m ->
  code_hashes_response_valid m /\ GetCodePageHashesResponse.ser m = data.
Proof.
  intros Hd H. unfold GetCodePageHashesResponse.de in H. inv_bind. apply expect_min_len_ok in H0.
  apply (index_u32_ok _ _ _ Hd) in H1 as [Hr Hs]. apply (hashes_from_ok _ _ _ Hd H0) in H2 as (Hh & Hc & _).
  apply negb_false_iff, Z.eqb_eq in H3. split; [done|].
  unfold GetCodePageHashesResponse.ser. cbn [GetCodePageHashesResponse.n_code_pages
    GetCodePageHashesResponse.code_page_hashes].
  rewrite Hs, Hc. symmetry. exact (drop_split data 0 4 H0).
Qed.
#[export, refine] Instance code_hashes_response_spec : MessageSpec GetCodePageHashesResponse.t :=
  { valid := code_hashes_response_valid }.
Proof.
  - intros [n hs] (Hn & Hl & Hh). cbn [GetCodePageHashesResponse.n_code_pages
      GetCodePageHashesResponse.code_page_hashes] in *.
    cbn [deserialize serialize GetCodePageHashesResponse.message].
    unfold GetCodePageHashesResponse.de, GetCodePageHashesResponse.ser. cbn [GetCodePageHashesResponse.n_code_pages
      GetCodePageHashesResponse.code_page_hashes].
    rewrite index_u32_at0 by done. rewrite hashes_from_app by auto. cbn.
    by rewrite Hl, Z.eqb_refl.
  - intros data m Hd H. exact (proj1 (code_hashes_response_decoded data m Hd H)).
Defined.
#[export] Instance code_hashes_response_exact : ExactMessage GetCodePageHashesResponse.t.
Proof. intros data m Hd H. exact (proj2 (code_hashes_response_decoded data m Hd H)). Qed.

(** ** Decoding never panics *)

Definition no_panic {E A} (o : outcome E A) : Prop :=
  match o with Ok _ | Err _ => True | _ => False end.
Lemma no_panic_bind {E A B} (o : outcome E A) (f : A -> outcome E B) :
  no_panic o -> (forall a, o = Ok a -> no_panic (f a)) -> no_panic (x ← o; f x).
Proof. destruct o; cbn; auto. Qed.
Lemma no_panic_guard {E B} b (e : E) (o : outcome E B) :
  (b = false -> no_panic o) -> no_panic (guard_err b e;; o).
Proof. destruct b; cbn; auto. Qed.
Lemma no_panic_ok_or {E A} (o : option A) (e : E) : no_panic (ok_or o e).
Proof. by destruct o. Qed.
Lemma no_panic_index data i : (i < length data)%nat -> no_panic (index data i).
Proof. intros Hi. unfold index. by destruct (lookup_lt_is_Some_2 data i Hi) as [b ->]. Qed.
Lemma no_panic_index_u32 data i : (i + 3 < length data)%nat -> no_panic (index_u32 data i).
Proof.
  intros Hi. unfold index_u32. repeat (apply no_panic_bind; [apply no_panic_index; lia|intros ? _]). done.
Qed.
Lemma no_panic_index_slice data i n : (i + n <= length data)%nat -> no_panic (index_slice data i n).
Proof. intros Hi. unfold index_slice. by rewrite (proj2 (Nat.leb_le _ _)). Qed.
Lemma no_panic_hashes data i : no_panic (hashes_from data i).
Proof. by apply no_panic_guard. Qed.
Lemma no_panic_code data c : (0 < length data)%nat -> no_panic (expect_code data c).
Proof.
  intros Hl. apply no_panic_bind; [by apply no_panic_index|intros ? _].
  apply no_panic_bind; [apply no_panic_ok_or|intros ? _]. by apply no_panic_guard.
Qed.
Lemma no_panic_nonce data i : (i + 12 < length data)%nat -> no_panic (read_nonce data i).
Proof.
  intros Hl. apply no_panic_bind; [apply no_panic_index; lia|intros b _].
  apply no_panic_bind; [|done]. destruct (b =? 1); [apply no_panic_index_slice; lia|done].
Qed.
Lemma no_panic_len {B} data n (o : result B) :
  (length data = n -> no_panic o) -> no_panic (expect_len data n;; o).
Proof. intros H. apply no_panic_guard. intros E%negb_false_iff%Nat.eqb_eq. by apply H. Qed.
Lemma no_panic_min_len {B} data n (o : result B) :
  ((n <= length data)%nat -> no_panic o) -> no_panic (expect_min_len data n;; o).
Proof. intros H. apply no_panic_guard. intros E%Nat.ltb_ge. by apply H. Qed.

Ltac no_panic_step :=
  lazymatch goal with
  | |- no_panic (expect_len _ _;; _) => apply no_panic_len; intros ?
  | |- no_panic (expect_min_len _ _;; _) => apply no_panic_min_len; intros ?
  | |- no_panic (guard_err _ _;; _) => apply no_panic_guard; intros ?
  | |- no_panic (let '(_, _) := ?x in _) => destruct x
  | |- no_panic (_ ≫= _) => apply no_panic_bind; [|intros ? _]
  | |- no_panic (ok_or _ _) => apply no_panic_ok_or
  | |- no_panic (index _ _) => apply no_panic_index
  | |- no_panic (index_u32 _ _) => apply no_panic_index_u32
  | |- no_panic (index_slice _ _ _) => apply no_panic_index_slice
  | |- no_panic (hashes_from _ _) => apply no_panic_hashes
  | |- no_panic (expect_code _ _) => apply no_panic_code
  | |- no_panic (read_nonce _ _) => apply no_panic_nonce
  | |- no_panic (Ok _) => exact I
  end.
Ltac solve_no_panic :=
  lazymatch goal with |- no_panic (?f _) => unfold f end;
  unfold page_len in *; repeat no_panic_step; unfold page_len in *; try done; lia.

Lemma decoded_exact {T} `{Message T} (MS : MessageSpec T) (EM : ExactMessage T) data m :
  bytes_ok data -> deserialize data = Ok m -> valid m /\ serialize m = data.
Proof. intros Hd Hm. split; [by eapply deserialize_valid|by eapply exact_encoding]. Qed.

(** Every message of the protocol between the VM and the client round-trips: what
    one side serializes from a well-formed message, the other side deserializes to the
    same message. *)
Theorem messages_round_trip :
  (forall m, get_page_valid m -> GetPageMessage.de (GetPageMessage.ser m) = Ok m) /\
  (forall m, get_page_response_valid m -> GetPageResponse.de (GetPageResponse.ser m) = Ok m) /\
  (forall m, get_page_continued_valid m ->
     GetPageProofContinuedResponse.de (GetPageProofContinuedResponse.ser m) = Ok m) /\
  (forall m, commit_page_valid m -> CommitPageMessage.de (CommitPageMessage.ser m) = Ok m) /\
  (forall m, commit_proof_valid m -> CommitPageProofResponse.de (CommitPageProofResponse.ser m) = Ok m) /\
  (forall m, commit_continued_valid m ->
     CommitPageProofContinuedResponse.de (CommitPageProofContinuedResponse.ser m) = Ok m) /\
  (forall m, send_buffer_valid m -> SendBufferMessage.de (SendBufferMessage.ser m) = Ok m) /\
  (forall m, send_continued_valid m ->
     SendBufferContinuedMessage.de (SendBufferContinuedMessage.ser m) = Ok m) /\
  (forall m, receive_response_valid m -> ReceiveBufferResponse.de (ReceiveBufferResponse.ser m) = Ok m) /\
  (forall m, code_hashes_valid m -> GetCodePageHashesMessage.de (GetCodePageHashesMessage.ser m) = Ok m) /\
  (forall m, code_hashes_response_valid m ->
     GetCodePageHashesResponse.de (GetCodePageHashesResponse.ser m) = Ok m).
Proof.
  repeat apply conj; intros m Hm.
  - exact (round_trip (MessageSpec := get_page_spec) m Hm).
  - exact (round_trip (MessageSpec := get_page_response_spec) m Hm).
  - exact (round_trip (MessageSpec := get_page_continued_spec) m Hm).
  - exact (round_trip (MessageSpec := commit_page_spec) m Hm).
  - exact (round_trip (MessageSpec := commit_proof_spec) m Hm).
  - exact (round_trip (MessageSpec := commit_continued_spec) m Hm).
  - exact (round_trip (MessageSpec := send_buffer_spec) m Hm).
  - exact (round_trip (MessageSpec := send_continued_spec) m Hm).
  - exact (round_trip (MessageSpec := receive_response_spec) m Hm).
  - exact (round_trip (MessageSpec := code_hashes_spec) m Hm).
  - exact (round_trip (MessageSpec := code_hashes_response_spec) m Hm).
Qed.

(** Decoding is unambiguous: whatever bytes the other side sends, the message read
    from them is well formed (its hashes have 32 bytes, its counts match, the nonce of a
    page that is not encrypted is zero), and but for the two messages with a flag byte
    the bytes are the ones that serializing the message gives. *)
Theorem messages_unambiguous data :
  bytes_ok data ->
  (forall m, GetPageResponse.de data = Ok m -> get_page_response_valid m) /\
  (forall m, CommitPageMessage.de data = Ok m -> commit_page_valid m) /\
  (forall m, GetPageMessage.de data = Ok m -> get_page_valid m /\ GetPageMessage.ser m = data) /\
  (forall m, GetPageProofContinuedResponse.de data = Ok m ->
     get_page_continued_valid m /\ GetPageProofContinuedResponse.ser m = data) /\
  (forall m, CommitPageProofResponse.de data = Ok m ->
     commit_proof_valid m /\ CommitPageProofResponse.ser m = data) /\
  (forall m, CommitPageProofContinuedResponse.de data = Ok m ->
     commit_continued_valid m /\ CommitPageProofContinuedResponse.ser m = data) /\
  (forall m, SendBufferMessage.de data = Ok m -> send_buffer_valid m /\ SendBufferMessage.ser m = data) /\
  (forall m, SendBufferContinuedMessage.de data = Ok m ->
     send_continued_valid m /\ SendBufferContinuedMessage.ser m = data) /\
  (forall m, ReceiveBufferResponse.de data = Ok m ->
     receive_response_valid m /\ ReceiveBufferResponse.ser m = data) /\
  (forall m, GetCodePageHashesMessage.de data = Ok m ->
     code_hashes_valid m /\ GetCodePageHashesMessage.ser m = data) /\
  (forall m, GetCodePageHashesResponse.de data = Ok m ->
     code_hashes_response_valid m /\ GetCodePageHashesResponse.ser m = data).
Proof.
  intros Hd. repeat apply conj; intros m Hm.
  - exact (deserialize_valid (MessageSpec := get_page_response_spec) data m Hd Hm).
  - exact (deserialize_valid (MessageSpec := commit_page_spec) data m Hd Hm).
  - exact (decoded_exact get_page_spec get_page_exact data m Hd Hm).
  - exact (decoded_exact get_page_continued_spec get_page_continued_exact data m Hd Hm).
  - exact (decoded_exact commit_proof_spec commit_proof_exact data m Hd Hm).
  - exact (decoded_exact commit_continued_spec commit_continued_exact data m Hd Hm).
  - exact (decoded_exact send_buffer_spec send_buffer_exact data m Hd Hm).
  - exact (decoded_exact send_continued_spec send_continued_exact data m Hd Hm).
  - exact (decoded_exact receive_response_spec receive_response_exact data m Hd Hm).
  - exact (decoded_exact code_hashes_spec code_hashes_exact data m Hd Hm).
  - exact (decoded_exact code_hashes_response_spec code_hashes_response_exact data m Hd Hm).
Qed.
Lemma messages_unambiguous_witness :
  bytes_ok [0; 0; 0; 3; 7; 8; 9] /\
  exists m, ReceiveBufferResponse.de [0; 0; 0; 3; 7; 8; 9] = Ok m /\ receive_response_valid m /\
            ReceiveBufferResponse.ser m = [0; 0; 0; 3; 7; 8; 9].
Proof.
  split; [repeat constructor; lia|].
  exists (ReceiveBufferResponse.mk 3 [7; 8; 9]). split; [vm_compute; reflexivity|].
  destruct (messages_unambiguous [0; 0; 0; 3; 7; 8; 9]) as (_ & _ & _ & _ & _ & _ & _ & _ & H & _).
  { repeat constructor; lia. }
  apply H. vm_compute. reflexivity.
Defined.

(** Decoding untrusted bytes returns a message or an error and never panics (no
    slice or index is out of range), for every message but [SendBufferMessage], which
    panics on the empty input and only on it. *)
Theorem messages_decode_total data :
  no_panic (GetPageMessage.de data) /\ no_panic (GetPageResponse.de data) /\
  no_panic (GetPageProofContinuedMessage.de data) /\ no_panic (GetPageProofContinuedResponse.de data) /\
  no_panic (CommitPageMessage.de data) /\ no_panic (CommitPageProofResponse.de data) /\
  no_panic (CommitPageProofContinuedMessage.de data) /\
  no_panic (CommitPageProofContinuedResponse.de data) /\
  no_panic (SendBufferContinuedMessage.de data) /\ no_panic (ReceiveBufferMessage.de data) /\
  no_panic (ReceiveBufferResponse.de data) /\ no_panic (GetCodePageHashesMessage.de data) /\
  no_panic (GetCodePageHashesResponse.de data) /\
  (no_panic (SendBufferMessage.de data) <-> data <> []).
Proof.
  repeat apply conj.
  all: try solve_no_panic.
  - intros H ->. done.
  - intros Hd. destruct data as [|b data]; [done|]. unfold SendBufferMessage.de.
    apply no_panic_bind; [done|intros b0 _]. apply no_panic_bind; [apply no_panic_ok_or|intros c _].
    apply no_panic_guard. intros [_ Hl%Nat.ltb_ge]%orb_false_iff. repeat no_panic_step; lia.
Qed.

(** The bounds that the senders compute are right and tight: a response with the
    maximal number of hashes, or bytes, fits the APDU of 590 bytes, and one more does
    not. *)
Theorem message_sizes :
  (forall m, get_page_response_valid m ->
     Z.of_nat (length (GetPageResponse.proof m)) <= GetPageResponse.max_proof_size <->
     Z.of_nat (length (GetPageResponse.ser m)) <= MAX_APDU_DATA_SIZE) /\
  (forall m, commit_proof_valid m ->
     Z.of_nat (length (CommitPageProofResponse.proof m)) <= CommitPageProofResponse.max_proof_size <->
     Z.of_nat (length (CommitPageProofResponse.ser m)) <= MAX_APDU_DATA_SIZE) /\
  (forall m, get_page_continued_valid m ->
     Z.of_nat (length (GetPageProofContinuedResponse.proof m)) <= GetPageProofContinuedResponse.max_proof_size <->
     Z.of_nat (length (GetPageProofContinuedResponse.ser m)) <= MAX_APDU_DATA_SIZE) /\
  (forall m, send_buffer_valid m ->
     Z.of_nat (length (SendBufferMessage.data m)) <= SendBufferMessage.max_data_size <->
     Z.of_nat (length (SendBufferMessage.ser m)) <= MAX_APDU_DATA_SIZE) /\
  (forall m, receive_response_valid m ->
     Z.of_nat (length (ReceiveBufferResponse.content m)) <= ReceiveBufferResponse.max_chunk_size <->
     Z.of_nat (length (ReceiveBufferResponse.ser m)) <= MAX_APDU_DATA_SIZE) /\
  (forall m, code_hashes_valid m ->
     Z.of_nat (length (GetCodePageHashesMessage.prev_batch_enc_hmacs m)) <= GetCodePageHashesMessage.max_hashes <->
     Z.of_nat (length (GetCodePageHashesMessage.ser m)) <= MAX_APDU_DATA_SIZE).
Proof.
  unfold MAX_APDU_DATA_SIZE. repeat apply conj; intros m Hm.
  - destruct Hm as (Hp & _ & (Hn & _) & _ & _ & _ & Hh). unfold page_len in Hp. unfold GetPageResponse.ser.
    rewrite !length_app, (length_concat_hashes _ (hash32_length _ Hh)), Hp, Hn. cbn [length].
    change GetPageResponse.max_proof_size with 9. lia.
  - destruct Hm as (_ & [Hr _] & [_ Hh]). unfold CommitPageProofResponse.ser.
    rewrite !length_app, (length_concat_hashes _ (hash32_length _ Hh)), Hr. cbn [length].
    change CommitPageProofResponse.max_proof_size with 17. lia.
  - destruct Hm as [_ Hh]. unfold GetPageProofContinuedResponse.ser.
    rewrite !length_app, (length_concat_hashes _ (hash32_length _ Hh)). cbn [length].
    change GetPageProofContinuedResponse.max_proof_size with 18. lia.
  - unfold SendBufferMessage.ser. rewrite !length_app, length_be_bytes. cbn [length].
    change SendBufferMessage.max_data_size with 584. lia.
  - unfold ReceiveBufferResponse.ser. rewrite !length_app, length_be_bytes.
    change ReceiveBufferResponse.max_chunk_size with 586. lia.
  - destruct Hm as (_ & _ & Hh). unfold GetCodePageHashesMessage.ser.
    rewrite !length_app, length_be_bytes, (length_concat_hashes _ (hash32_length _ Hh)). cbn [length].
    change GetCodePageHashesMessage.max_hashes with 18. lia.
Qed.
