(* ===== verification/Evict.v ===== *)
(** * Page eviction strategies ([vm/src/handlers/lib/evict.rs])

    The trait [PageEvictionStrategy] and its two instances: LRU for the data and the
    stack, 2Q for the code. Slots are array indices (natural numbers), page indices and
    counters are 32-bit integers. An index out of range panics, as does the
    [unreachable!] of 2Q; nothing here returns an error. *)

From S2P Require Import Prelude.

(** The trait. The methods have no error case. *)
Class PageEvictionStrategy (S : Type) := {
  on_access : nat -> Z -> ST S Empty_set unit;
  on_load : nat -> Z -> ST S Empty_set unit;
  choose_victim : ST S Empty_set nat;
  on_invalidate : nat -> Z -> ST S Empty_set unit;
}.

(** [for (i, state) in self.states.iter().enumerate() { .. if time < oldest_time .. }]:
    the scan for the smallest time of the slots that the pattern [time_of] selects,
    from index [i]; it returns the last values of [victim_index] and [found]. *)
Fixpoint oldest_loop {X} (time_of : X -> option Z) (states : list X)
    (i : nat) (oldest_time : Z) (victim_index : nat) (found : bool) : nat * bool :=
  match states with
  | [] => (victim_index, found)
  | state :: states =>
      match time_of state with
      | Some time =>
          if time <? oldest_time then oldest_loop time_of states (S i) time i true
          else oldest_loop time_of states (S i) oldest_time victim_index found
      | None => oldest_loop time_of states (S i) oldest_time victim_index found
      end
  end.
Definition oldest {X} (time_of : X -> option Z) (states : list X) : nat * bool :=
  oldest_loop time_of states 0 u32_max 0 false.

(** ** LRU *)

Record LruEvictionStrategy : Type := mkLru {
  usage_counters : list Z;
  lru_counter : Z;
}.

Definition lru_new (num_slots : nat) : LruEvictionStrategy := mkLru (replicate num_slots 0) 0.

(** [self.usage_counters[slot_index] = v]. *)
Definition lru_set (slot_index : nat) (v : Z) : ST LruEvictionStrategy Empty_set unit :=
  s ← get;
  if (slot_index <? length (usage_counters s))%nat
  then put (mkLru (<[slot_index := v]> (usage_counters s)) (lru_counter s))
  else panic.

(** The body of both [on_access] and [on_load]. *)
Definition lru_touch (slot_index : nat) (_page_index : Z) : ST LruEvictionStrategy Empty_set unit :=
  modify (fun s => mkLru (usage_counters s) (u32_add (lru_counter s) 1));;
  s ← get;
  lru_set slot_index (lru_counter s).
Definition lru_choose_victim : ST LruEvictionStrategy Empty_set nat :=
  s ← get;
  mret (fst (oldest Some (usage_counters s))).
Definition lru_on_invalidate (slot_index : nat) (_page_index : Z)
    : ST LruEvictionStrategy Empty_set unit := lru_set slot_index 0.

#[export] Instance lru_strategy : PageEvictionStrategy LruEvictionStrategy := {
  on_access := lru_touch;
  on_load := lru_touch;
  choose_victim := lru_choose_victim;
  on_invalidate := lru_on_invalidate;
}.

(** ** 2Q *)

Inductive PageState : Type :=
| Free
| A1 (time : Z)
| Am (time : Z).

Definition a1_time (s : PageState) : option Z := match s with A1 t => Some t | _ => None end.
Definition am_time (s : PageState) : option Z := match s with Am t => Some t | _ => None end.

Record TwoQEvictionStrategy : Type := mkTwoQ {
  states : list PageState;
  twoq_counter : Z;
  a1_max_size : Z;
  a1_size : Z;
  a1out : list Z;
  a1out_max_size : Z;
}.

Definition twoq_new (num_slots a1_max_size a1out_max_size : Z)
    : outcome Empty_set TwoQEvictionStrategy :=
  if num_slots <=? a1_max_size then Panic
  else Ok (mkTwoQ (replicate (Z.to_nat num_slots) Free) 0 a1_max_size 0 [] a1out_max_size).

Definition twoq_tick : ST TwoQEvictionStrategy Empty_set unit :=
  modify (fun s => mkTwoQ (states s) (u32_add (twoq_counter s) 1) (a1_max_size s) (a1_size s)
                     (a1out s) (a1out_max_size s)).
(** [self.states[slot_index] = v]. *)
Definition twoq_set (slot_index : nat) (v : PageState) : ST TwoQEvictionStrategy Empty_set unit :=
  s ← get;
  if (slot_index <? length (states s))%nat
  then put (mkTwoQ (<[slot_index := v]> (states s)) (twoq_counter s) (a1_max_size s) (a1_size s)
              (a1out s) (a1out_max_size s))
  else panic.
Definition twoq_set_a1 (a1_size' : Z) (a1out' : list Z) : ST TwoQEvictionStrategy Empty_set unit :=
  modify (fun s => mkTwoQ (states s) (twoq_counter s) (a1_max_size s) a1_size' a1out' (a1out_max_size s)).
(** [self.states[slot_index]]. *)
Definition twoq_state (slot_index : nat) : ST TwoQEvictionStrategy Empty_set PageState :=
  s ← get; lift (unwrap (states s !! slot_index)).

Definition twoq_on_access (slot_index : nat) (_page_index : Z)
    : ST TwoQEvictionStrategy Empty_set unit :=
  twoq_tick;;
  state ← twoq_state slot_index;
  match state with
  | A1 _ => mret tt
  | Am _ => s ← get; twoq_set slot_index (Am (twoq_counter s))
  | Free => mret tt
  end.

(** [iter().position(|&x| x == page_index)]. *)
Fixpoint position (page_index : Z) (l : list Z) : option nat :=
  match l with
  | [] => None
  | x :: l => if x =? page_index then Some O else S <$> position page_index l
  end.

Definition twoq_on_load (slot_index : nat) (page_index : Z)
    : ST TwoQEvictionStrategy Empty_set unit :=
  twoq_tick;;
  s ← get;
  match position page_index (a1out s) with
  | Some pos =>
      twoq_set_a1 (a1_size s) (delete pos (a1out s));;
      twoq_set slot_index (Am (twoq_counter s))
  | None =>
      twoq_set slot_index (A1 (twoq_counter s));;
      twoq_set_a1 (u32_add (a1_size s) 1) (a1out s)
  end.

Definition choose_victim_from_a1_fallback : ST TwoQEvictionStrategy Empty_set nat :=
  s ← get;
  let '(victim_index, found) := oldest a1_time (states s) in
  if negb found then panic else mret victim_index.

Definition twoq_choose_victim : ST TwoQEvictionStrategy Empty_set nat :=
  s ← get;
  if a1_max_size s <=? a1_size s then mret (fst (oldest a1_time (states s)))
  else
    let '(victim_index, found_in_am) := oldest am_time (states s) in
    if negb found_in_am then choose_victim_from_a1_fallback else mret victim_index.

Definition twoq_on_invalidate (slot_index : nat) (page_index : Z)
    : ST TwoQEvictionStrategy Empty_set unit :=
  state ← twoq_state slot_index;
  (match state with
   | A1 _ =>
       s ← get;
       let a1out := if Z.of_nat (length (a1out s)) =? a1out_max_size s then tail (a1out s) else a1out s in
       twoq_set_a1 (u32_sub (a1_size s) 1) (a1out ++ [page_index])
   | _ => mret tt
   end);;
  twoq_set slot_index Free.

#[export] Instance twoq_strategy : PageEvictionStrategy TwoQEvictionStrategy := {
  on_access := twoq_on_access;
  on_load := twoq_on_load;
  choose_victim := twoq_choose_victim;
  on_invalidate := twoq_on_invalidate;
}.
