(* ===== verification/EvictSpec.v ===== *)
(** * The eviction strategies evict the page they mean to

    [EvictionLaws] is the contract that a strategy offers to the memory that uses it:
    it never asks for a slot that does not exist, and it does not panic within its [budget]
    of accesses: LRU has no bound, 2Q serves 2^32 - 1 of them. The two strategies refine queues:
    LRU a list of the slots in the order of their last use, 2Q a FIFO queue and an LRU
    queue with the list of the pages that left the first one. The counters that the
    code scans are the order of the queues as long as the 32-bit counter has not
    wrapped. *)

From stdpp Require Import sorting.
From S2P Require Import Prelude Evict.

(** ** The contract *)

(** The accesses for which a strategy still keeps its promises; [None]: any number. *)
Definition budget : Type := option nat.
Definition affordable (b : budget) : Prop := b <> Some 0%nat.
Definition spent (b : budget) : budget := pred <$> b.

Class EvictionLaws (S : Type) `{PS : PageEvictionStrategy S} (t : mode) := {
  (** the strategy has [n] slots, the ones in the set hold a page, and the budget is left *)
  tracks : budget -> S -> nat -> gset nat -> Prop;
  spend_ok : forall b s n L, tracks b s n L -> tracks (spent b) s n L;
  access_ok : forall b s n L i p, affordable b -> tracks b s n L -> i ∈ L ->
    wp t (on_access i p) s (fun _ s' => tracks (spent b) s' n L);
  load_ok : forall b s n L i p, affordable b -> tracks b s n L -> (i < n)%nat -> i ∉ L ->
    wp t (on_load i p) s (fun _ s' => tracks (spent b) s' n ({[i]} ∪ L));
  victim_ok : forall b s n L, affordable b -> tracks b s n L -> (0 < n)%nat -> (forall i, (i < n)%nat -> i ∈ L) ->
    wp t choose_victim s (fun v s' => (v < n)%nat /\ tracks b s' n L);
  invalidate_ok : forall b s n L i p, tracks b s n L -> i ∈ L ->
    wp t (on_invalidate i p) s (fun _ s' => tracks b s' n (L ∖ {[i]}));
}.

(** ** The scan for the oldest time *)

Section scan.
Context {X : Type} (time_of : X -> option Z).
Implicit Types l : list X.

Lemma oldest_loop_bound l i o v f n :
  (v < n)%nat -> (i + length l <= n)%nat -> (fst (oldest_loop time_of l i o v f) < n)%nat.
Proof.
  revert i o v f; induction l as [|x l IH]; intros i o v f Hv Hl; cbn [oldest_loop length] in *; [done|].
  destruct (time_of x) as [t|]; [destruct (t <? o)|]; apply IH; lia.
Qed.
Lemma oldest_bound l : l <> [] -> (fst (oldest time_of l) < length l)%nat.
Proof. intros Hl. apply oldest_loop_bound; [destruct l; [done|cbn; lia]|lia]. Qed.

(** Nothing older: the result stays. *)
Lemma oldest_loop_stays l i o v f :
  (forall x t, x ∈ l -> time_of x = Some t -> o <= t) -> oldest_loop time_of l i o v f = (v, f).
Proof.
  revert i; induction l as [|x l IH]; intros i Hl; cbn [oldest_loop]; [done|].
  assert (oldest_loop time_of l (S i) o v f = (v, f)) as E by (apply IH; set_solver).
  destruct (time_of x) as [t|] eqn:Ht; [|done].
  rewrite (proj2 (Z.ltb_ge t o)) by (apply (Hl x t); set_solver). done.
Qed.
Lemma oldest_none l : (forall x, x ∈ l -> time_of x = None) -> oldest time_of l = (0%nat, false).
Proof. intros Hl. apply oldest_loop_stays. intros x t Hx Ht. rewrite Hl in Ht by done. done. Qed.

Lemma oldest_loop_prefix l r i o v f t :
  t < o -> (forall x t', x ∈ l -> time_of x = Some t' -> t < t') ->
  exists o' v' f', t < o' /\
    oldest_loop time_of (l ++ r) i o v f = oldest_loop time_of r (i + length l) o' v' f'.
Proof.
  revert i o v f; induction l as [|x l IH]; intros i o v f Ho Hl; cbn [app oldest_loop length].
  { exists o, v, f. split; [done|]. by rewrite Nat.add_0_r. }
  rewrite Nat.add_succ_r. assert (forall y t', y ∈ l -> time_of y = Some t' -> t < t') as Hl'
    by (intros; eapply Hl; [by right|done]).
  destruct (time_of x) as [tx|] eqn:Hx; [|by apply (IH (S i))].
  destruct (tx <? o); [|by apply (IH (S i))]. apply (IH (S i)); [|done]. apply (Hl x); [by left|done].
Qed.

(** The scan returns the first slot with the smallest time. *)
Lemma oldest_spec l v x t :
  l !! v = Some x -> time_of x = Some t -> t < u32_max ->
  (forall j y t', l !! j = Some y -> time_of y = Some t' -> t <= t' /\ ((j < v)%nat -> t < t')) ->
  oldest time_of l = (v, true).
Proof.
  intros Hv Ht Hmax Hmin. pose proof (lookup_lt_Some _ _ _ Hv) as Hlt.
  rewrite <- (take_drop_middle l v x Hv) in Hmin |- *. set (pre := take v l) in *. set (post := drop (S v) l) in *.
  assert (length pre = v) as Hlen by (unfold pre; rewrite length_take; lia).
  destruct (oldest_loop_prefix pre (x :: post) 0 u32_max 0 false t Hmax) as (o & v' & f & Ho & E).
  { intros y t' [j Hj]%list_elem_of_lookup Hy. apply lookup_lt_Some in Hj as Hjl.
    eapply Hmin; [by apply lookup_app_l_Some|done|lia]. }
  unfold oldest. rewrite E. cbn [oldest_loop Nat.add]. rewrite Ht, (proj2 (Z.ltb_lt t o)), Hlen by done.
  apply oldest_loop_stays. intros y t' [j Hj]%list_elem_of_lookup Hy.
  eapply (Hmin (S v + j)%nat); [|done]. rewrite lookup_app_r by lia.
  by replace (S v + j - length pre)%nat with (S j) by lia.
Qed.
End scan.

(** ** Queues by time

    [queue_ok tm g q]: the list [q] holds the slots that have a time, in the order of
    their times, which are all at most [g]. *)

Abbreviation remove i := (filter (fun j : nat => j <> i)).

Record queue_ok (tm : nat -> option Z) (g : Z) (q : list nat) : Prop := {
  queue_in : forall i, i ∈ q <-> is_Some (tm i);
  queue_sorted : StronglySorted (fun i j => exists ti tj, tm i = Some ti /\ tm j = Some tj /\ ti < tj) q;
  queue_times : forall i t, tm i = Some t -> 0 < t <= g;
}.

Lemma queue_ext tm tm' g q : (forall i, tm i = tm' i) -> queue_ok tm g q -> queue_ok tm' g q.
Proof.
  intros E [Hi Hs Ht]. split.
  - intros i. by rewrite <- E.
  - eapply StronglySorted_ind with (P := StronglySorted _); [constructor| |exact Hs].
    intros a l _ IH Ha. constructor; [done|]. eapply Forall_impl; [exact Ha|].
    cbn. intros j. by rewrite !E.
  - intros i t. rewrite <- E. apply Ht.
Qed.
Lemma queue_mono tm g g' q : g <= g' -> queue_ok tm g q -> queue_ok tm g' q.
Proof. intros Hg [Hi Hs Ht]. split; [done..|]. intros i t Hit. specialize (Ht i t Hit). lia. Qed.

Lemma queue_head tm g i q : queue_ok tm g (i :: q) ->
  exists t, tm i = Some t /\ t <= g /\ forall j t', tm j = Some t' -> t <= t' /\ (j <> i -> t < t').
Proof.
  intros [Hi Hs Ht]. destruct (proj1 (Hi i) (list_elem_of_here _ _)) as [t Hit].
  exists t. split; [done|]. split; [by apply (Ht i)|]. intros j t' Hj.
  assert (j ∈ i :: q) as [->|Hq]%elem_of_cons by (apply Hi; by rewrite Hj).
  { rewrite Hit in Hj. injection Hj as <-. split; [lia|done]. }
  apply StronglySorted_inv in Hs as [_ Ha]. rewrite Forall_forall in Ha.
  destruct (Ha j Hq) as (ti & tj & E1 & E2 & Hlt). rewrite Hit in E1. rewrite Hj in E2.
  injection E1 as ->. injection E2 as ->. split; [lia|done].
Qed.
Lemma queue_nil tm g i : queue_ok tm g [] -> tm i = None.
Proof. intros [Hi _ _]. destruct (tm i) eqn:E; [|done]. exfalso. apply (not_elem_of_nil i), Hi. by rewrite E. Qed.
Lemma queue_nodup tm g q : queue_ok tm g q -> NoDup q.
Proof.
  intros [_ Hs _]. induction Hs as [|i q _ IH Ha]; constructor; [|done].
  intros Hq. rewrite Forall_forall in Ha. destruct (Ha i Hq) as (ti & tj & E1 & E2 & Hlt).
  rewrite E1 in E2. injection E2 as ->. lia.
Qed.

Lemma sorted_filter {A} (R : A -> A -> Prop) (P : A -> Prop) `{!forall x, Decision (P x)} l :
  StronglySorted R l -> StronglySorted R (filter P l).
Proof.
  induction 1 as [|a l _ IH Ha]; [constructor|]. rewrite filter_cons. case_decide; [|done].
  constructor; [done|]. rewrite Forall_forall in *. intros x [_ Hx]%list_elem_of_filter. by apply Ha.
Qed.
Lemma sorted_impl {A} (R R' : A -> A -> Prop) l :
  StronglySorted R l -> (forall a b, a ∈ l -> b ∈ l -> R a b -> R' a b) -> StronglySorted R' l.
Proof.
  induction 1 as [|a l _ IH Ha]; intros Hr; [constructor|]. constructor.
  - apply IH. intros; apply Hr; [by right|by right|done].
  - rewrite Forall_forall in *. intros x Hx. apply Hr; [left|by right|by apply Ha].
Qed.
Lemma sorted_snoc {A} (R : A -> A -> Prop) l x :
  StronglySorted R l -> (forall a, a ∈ l -> R a x) -> StronglySorted R (l ++ [x]).
Proof.
  induction 1 as [|a l _ IH Ha]; intros Hx; cbn; [repeat constructor|]. constructor.
  - apply IH. intros; apply Hx; by right.
  - apply Forall_app. split; [done|]. constructor; [apply Hx; left|constructor].
Qed.

Lemma filter_all {A} (P : A -> Prop) `{!forall x, Decision (P x)} (l : list A) : (forall x, x ∈ l -> P x) -> filter P l = l.
Proof.
  induction l as [|a l IH]; intros Hl; [done|]. rewrite filter_cons, decide_True by (apply Hl; left).
  f_equal. apply IH. intros x Hx. apply Hl. by right.
Qed.
Lemma queue_remove tm g q i : queue_ok tm g q ->
  queue_ok (fun j => if decide (j = i) then None else tm j) g (remove i q).
Proof.
  intros [Hi Hs Ht]. split.
  - intros j. rewrite list_elem_of_filter, Hi. case_decide; [|naive_solver].
    split; [naive_solver|by intros [? ?]].
  - eapply sorted_impl; [by apply sorted_filter|].
    intros a b [Ha _]%list_elem_of_filter [Hb _]%list_elem_of_filter. by rewrite !decide_False by done.
  - intros j t. case_decide; [done|]. apply Ht.
Qed.
Lemma queue_push tm g g' q i : queue_ok tm g q -> 0 <= g -> g < g' ->
  queue_ok (fun j => if decide (j = i) then Some g' else tm j) g' (remove i q ++ [i]).
Proof.
  intros Hq Hg Hg'. destruct (queue_remove _ _ _ i Hq) as [Hi Hs Ht]. split.
  - intros j. rewrite elem_of_app, Hi, list_elem_of_singleton. case_decide; [|naive_solver].
    split; [by eexists|by right].
  - apply sorted_snoc.
    + eapply sorted_impl; [exact Hs|].
      intros a b [Ha _]%list_elem_of_filter [Hb _]%list_elem_of_filter. by rewrite !decide_False by done.
    + intros a Ha. pose proof Ha as [Hne _]%list_elem_of_filter.
      destruct (proj1 (Hi a) Ha) as [t Hta]. rewrite decide_False in Hta by done.
      exists t, g'. rewrite decide_False, decide_True by done. split; [done|]. split; [done|].
      specialize (Ht a t). rewrite decide_False in Ht by done. specialize (Ht Hta). lia.
  - intros j t. case_decide; [intros [= <-]; lia|]. intros Hj. specialize (Ht j t).
    rewrite decide_False in Ht by done. specialize (Ht Hj). lia.
Qed.
(** An empty place at the end of the queue. *)
Lemma queue_absent tm g q i : queue_ok tm g q -> tm i = None -> remove i q = q.
Proof.
  intros [Hi _ _] Hn. apply filter_all. intros j Hj ->.
  apply Hi in Hj. rewrite Hn in Hj. by destruct Hj.
Qed.

Section scan_queue.
Context {X : Type} (time_of : X -> option Z).
Definition times (l : list X) (j : nat) : option Z := x ← l !! j; time_of x.

Lemma times_insert l i x j : (i < length l)%nat ->
  times (<[i := x]> l) j = if decide (j = i) then time_of x else times l j.
Proof.
  intros Hi. unfold times. case_decide as E.
  - subst j. by rewrite list_lookup_insert_eq.
  - by rewrite list_lookup_insert_ne.
Qed.

Lemma oldest_queue l g i q : queue_ok (times l) g (i :: q) -> g < u32_max -> oldest time_of l = (i, true).
Proof.
  intros Hq Hg. destruct (queue_head _ _ _ _ Hq) as (t & Ht & Htg & Hmin). unfold times in Ht.
  apply bind_Some in Ht as (x & Hx & Ht). apply (oldest_spec _ _ _ x t); [done..|lia|].
  intros j y t' Hj Hy. destruct (Hmin j t') as [H1 H2]; [unfold times; by rewrite Hj|].
  split; [done|]. intros. apply H2. lia.
Qed.
Lemma oldest_queue_nil l g : queue_ok (times l) g [] -> oldest time_of l = (0%nat, false).
Proof.
  intros Hq. apply oldest_none. intros x [j Hj]%list_elem_of_lookup.
  pose proof (queue_nil _ _ j Hq) as Hn. unfold times in Hn. by rewrite Hj in Hn.
Qed.
End scan_queue.

(** ** Runs *)

Inductive event : Type :=
| Access (slot : nat) (page : Z)
| Load (slot : nat) (page : Z)
| Invalidate (slot : nat) (page : Z).
Definition slot_of (e : event) : nat :=
  match e with Access i _ | Load i _ | Invalidate i _ => i end.

Definition notify {S} `{PageEvictionStrategy S} (e : event) : ST S Empty_set unit :=
  match e with
  | Access i p => on_access i p
  | Load i p => on_load i p
  | Invalidate i p => on_invalidate i p
  end.
Fixpoint notify_all {S} `{PageEvictionStrategy S} (es : list event) : ST S Empty_set unit :=
  match es with [] => mret tt | e :: es => notify e;; notify_all es end.

(** ** LRU *)

(** A slot that was never used, or was invalidated, has the counter 0. *)
Definition nonzero (c : Z) : option Z := if c =? 0 then None else Some c.

Record lru_ok (n : nat) (s : LruEvictionStrategy) (q : list nat) (c : Z) : Prop := {
  lru_len : length (usage_counters s) = n;
  lru_queue : queue_ok (times nonzero (usage_counters s)) (lru_counter s) q;
  lru_count : 0 <= lru_counter s <= c;
}.

(** The slots in the order of their last use. *)
Definition recency_step (q : list nat) (e : event) : list nat :=
  match e with
  | Access i _ | Load i _ => remove i q ++ [i]
  | Invalidate i _ => remove i q
  end.
(** A slot that is not in use, else the one least recently used. *)
Definition lru_victim (n : nat) (q : list nat) : nat :=
  default 0%nat (head (filter (fun i => i ∉ q) (seq 0 n) ++ q)).

Lemma lru_new_ok n : lru_ok n (lru_new n) [] 0.
Proof.
  assert (forall i, times nonzero (replicate n 0) i = None) as Hn.
  { intros i. unfold times. destruct (replicate n 0 !! i) eqn:E; [|done].
    apply lookup_replicate in E as [-> _]. done. }
  split; cbn; [apply length_replicate| |lia]. split; cbn.
  - intros i. rewrite Hn. split; [by intros ?%not_elem_of_nil|by intros []].
  - constructor.
  - intros i t. by rewrite Hn.
Qed.

Lemma lru_touch_ok n s q c i p : lru_ok n s q c -> (i < n)%nat -> c < u32_max ->
  wp Total (lru_touch i p) s (fun _ s' => lru_ok n s' (remove i q ++ [i]) (c + 1)).
Proof.
  intros [Hl Hq Hc] Hi Hmax. unfold u32_max in Hmax.
  assert (u32_add (lru_counter s) 1 = lru_counter s + 1) as Ea by (apply w32_small; lia).
  apply wp_bind, wp_modify, wp_bind, wp_get. unfold lru_set. apply wp_bind, wp_get.
  cbn [usage_counters lru_counter]. rewrite Hl, (proj2 (Nat.ltb_lt i n)), Ea by done. apply wp_put.
  split; cbn [usage_counters lru_counter]; [by rewrite length_insert| |lia].
  eapply queue_ext; [|apply (queue_push _ (lru_counter s) (lru_counter s + 1) _ i Hq); lia].
  intros j. rewrite times_insert by lia. case_decide; [|done]. unfold nonzero.
  by rewrite (proj2 (Z.eqb_neq _ _)) by lia.
Qed.
Lemma lru_invalidate_ok n s q c i p : lru_ok n s q c -> (i < n)%nat ->
  wp Total (lru_on_invalidate i p) s (fun _ s' => lru_ok n s' (remove i q) c).
Proof.
  intros [Hl Hq Hc] Hi. unfold lru_on_invalidate, lru_set. apply wp_bind, wp_get.
  rewrite Hl, (proj2 (Nat.ltb_lt i n)) by done. apply wp_put.
  split; cbn [usage_counters lru_counter]; [by rewrite length_insert| |lia].
  eapply queue_ext; [|by apply (queue_remove _ _ _ i Hq)].
  intros j. rewrite times_insert by lia. by case_decide.
Qed.

Lemma notify_lru_ok n s q c e : lru_ok n s q c -> (slot_of e < n)%nat -> c < u32_max ->
  wp Total (notify e) s (fun _ s' => lru_ok n s' (recency_step q e) (c + 1)).
Proof.
  intros Hs Hi Hc. destruct e as [i p|i p|i p]; cbn [notify slot_of recency_step] in *.
  1-2: by apply lru_touch_ok.
  eapply wp_mono; [by apply lru_invalidate_ok|]. intros _ s' [H1 H2 H3]. split; [done..|lia].
Qed.
Lemma notify_all_lru_ok n es : forall s q c, lru_ok n s q c -> Forall (fun e => slot_of e < n)%nat es ->
  c + Z.of_nat (length es) <= u32_max ->
  wp Total (notify_all es) s (fun _ s' => lru_ok n s' (fold_left recency_step es q) (c + Z.of_nat (length es))).
Proof.
  induction es as [|e es IH]; intros s q c Hs He Hc; cbn [notify_all fold_left length] in *.
  - apply wp_ret. by rewrite Z.add_0_r.
  - apply Forall_cons in He as [He Hes]. apply wp_bind. eapply wp_mono; [apply notify_lru_ok; [done..|lia]|].
    intros ? s1 Hs1. replace (c + Z.of_nat (S (length es))) with (c + 1 + Z.of_nat (length es)) by lia.
    apply IH; [done..|lia].
Qed.

Lemma seq_sorted a n : StronglySorted lt (seq a n).
Proof.
  revert a; induction n as [|n IH]; intros a; cbn; constructor; [done|].
  apply Forall_forall. intros x Hx%elem_of_seq. lia.
Qed.
Lemma lru_counter_at n s q c i : lru_ok n s q c -> (i < n)%nat ->
  exists x, usage_counters s !! i = Some x /\ 0 <= x <= lru_counter s /\ (i ∈ q <-> x <> 0).
Proof.
  intros [Hl Hq Hc] Hi. destruct (lookup_lt_is_Some_2 (usage_counters s) i) as [x Hx]; [lia|].
  exists x. split; [done|]. rewrite (queue_in _ _ _ Hq). pose proof (queue_times _ _ _ Hq i) as Ht.
  unfold times, nonzero in *. rewrite Hx in *. cbn in *.
  destruct (Z.eqb_spec x 0); [split; [lia|]; split; [by intros []|done]|].
  specialize (Ht x eq_refl). split; [lia|]. by split.
Qed.

(** All slots are in use: the head of the queue. *)
Lemma lru_choose_full n s q c v : lru_ok n s (v :: q) c -> c < u32_max ->
  (forall i, (i < n)%nat -> i ∈ v :: q) -> oldest Some (usage_counters s) = (v, true).
Proof.
  intros Hs Hmax Hall. pose proof Hs as [Hl Hq Hc].
  destruct (queue_head _ _ _ _ Hq) as (t & Ht & Htg & Hmin). unfold times, nonzero in Ht.
  apply bind_Some in Ht as (x & Hx & Ht). destruct (Z.eqb_spec x 0); [done|]. injection Ht as ->.
  apply (oldest_spec Some (usage_counters s) v t t); [done..|lia|].
  intros j y t' Hj [= ->]. pose proof (lookup_lt_Some _ _ _ Hj) as Hjl.
  destruct (lru_counter_at _ _ _ _ j Hs) as (y & Hy & _ & Hyq); [lia|]. rewrite Hj in Hy. injection Hy as <-.
  destruct (Hmin j t') as [H1 H2]; [|split; [done|intros; apply H2; lia]].
  unfold times, nonzero. rewrite Hj. cbn. rewrite (proj2 (Z.eqb_neq t' 0)); [done|]. apply Hyq, Hall. lia.
Qed.
(** Some slot is not in use: the first of them. *)
Lemma lru_choose_unused n s q c v r : lru_ok n s q c ->
  filter (fun i => i ∉ q) (seq 0 n) = v :: r -> oldest Some (usage_counters s) = (v, true).
Proof.
  intros Hs Ef. pose proof Hs as [Hl Hq Hc].
  assert (v ∈ filter (fun i => i ∉ q) (seq 0 n)) as [Hv Hvn%elem_of_seq]%list_elem_of_filter by (rewrite Ef; left).
  destruct (lru_counter_at _ _ _ _ v Hs) as (x & Hx & _ & Hxq); [lia|].
  assert (x = 0) as -> by (destruct (Z.eq_dec x 0); tauto).
  apply (oldest_spec Some (usage_counters s) v 0 0); [done..|].
  intros j y t' Hj [= ->]. pose proof (lookup_lt_Some _ _ _ Hj) as Hjl.
  destruct (lru_counter_at _ _ _ _ j Hs) as (y & Hy & Hyr & Hyq); [lia|]. rewrite Hj in Hy. injection Hy as <-.
  split; [lia|]. intros Hjv. destruct (Z.eq_dec t' 0) as [->|Hne]; [exfalso|lia].
  assert (StronglySorted lt (v :: r)) as Hr by (rewrite <- Ef; apply sorted_filter, seq_sorted).
  assert (j ∈ v :: r) as [->|Hjr]%elem_of_cons; [|lia|].
  - rewrite <- Ef. apply list_elem_of_filter. split; [tauto|]. apply elem_of_seq; lia.
  - apply StronglySorted_inv in Hr as [_ Ha]. rewrite Forall_forall in Ha. apply Ha in Hjr. lia.
Qed.
Lemma lru_choose_ok n s q c : lru_ok n s q c -> (0 < n)%nat -> c < u32_max ->
  fst (oldest Some (usage_counters s)) = lru_victim n q.
Proof.
  intros Hs Hn Hmax. unfold lru_victim.
  destruct (filter (fun i => i ∉ q) (seq 0 n)) as [|v r] eqn:Ef.
  - assert (forall i, (i < n)%nat -> i ∈ q) as Hall.
    { intros i Hi. destruct (decide (i ∈ q)) as [|Hni]; [done|]. exfalso.
      apply (not_elem_of_nil i). rewrite <- Ef. apply list_elem_of_filter. split; [done|].
      apply elem_of_seq. lia. }
    destruct q as [|v q]; [by apply Hall in Hn as ?%not_elem_of_nil|].
    by rewrite (lru_choose_full _ _ _ _ _ Hs).
  - by rewrite (lru_choose_unused _ _ _ _ _ _ Hs Ef).
Qed.

(** A strategy LRU needs no counter bound to be safe. *)
Lemma lru_set_len i v s n : (i < n)%nat -> length (usage_counters s) = n ->
  wp Total (lru_set i v) s (fun _ s' => length (usage_counters s') = n).
Proof.
  intros Hi Hl. apply wp_bind, wp_get. rewrite Hl, (proj2 (Nat.ltb_lt i n)) by done. apply wp_put.
  cbn. by rewrite length_insert.
Qed.
Lemma wp_any {S E A} t (m : ST S E A) s Q : wp Total m s Q -> wp t m s Q.
Proof. unfold wp. by destruct (m s) as [[] ?]. Qed.
#[export, refine] Instance lru_laws t : EvictionLaws LruEvictionStrategy t := {
  tracks b s n L := length (usage_counters s) = n /\ forall i, i ∈ L -> (i < n)%nat;
}.
Proof.
  - done.
  - intros _ s n L i p _ [Hl HL] Hi. apply wp_bind, wp_modify, wp_bind, wp_get, wp_any.
    eapply wp_mono; [apply (lru_set_len _ _ _ n); auto|]. by intros ? s' Hs'.
  - intros _ s n L i p _ [Hl HL] Hi Hn. apply wp_bind, wp_modify, wp_bind, wp_get, wp_any.
    eapply wp_mono; [apply (lru_set_len _ _ _ n); auto|]. intros ? s' Hs'. split; [done|]. set_solver.
  - intros _ s n L _ [Hl HL] Hn Hfull. apply wp_bind, wp_get, wp_ret. split; [|done].
    rewrite <- Hl. apply oldest_bound. destruct (usage_counters s); [cbn in Hl; lia|done].
  - intros _ s n L i p [Hl HL] Hi. apply wp_any.
    eapply wp_mono; [apply (lru_set_len _ _ _ n); auto|]. intros ? s' Hs'. split; [done|]. set_solver.
Defined.

(** ** 2Q *)

Record TwoQueues : Type := mkQueues {
  fifo : list nat;       (* the A1 queue *)
  recent : list nat;     (* the Am queue *)
  evicted : list Z;      (* the pages that left the A1 queue *)
}.

Definition twoq_legal (q : TwoQueues) (e : event) : Prop :=
  match e with Load i _ => i ∉ fifo q /\ i ∉ recent q | _ => True end.
#[export] Instance twoq_legal_dec q e : Decision (twoq_legal q e).
Proof. destruct e; apply _. Defined.

(** [remove_first p l]: without the first occurrence of [p]. *)
Fixpoint remove_first (p : Z) (l : list Z) : list Z :=
  match l with [] => [] | x :: l => if x =? p then l else x :: remove_first p l end.

Definition queues_step (max_out : Z) (q : TwoQueues) (e : event) : TwoQueues :=
  match e with
  | Access i _ =>
      mkQueues (fifo q) (if decide (i ∈ recent q) then remove i (recent q) ++ [i] else recent q) (evicted q)
  | Load i p =>
      if decide (p ∈ evicted q) then mkQueues (fifo q) (recent q ++ [i]) (remove_first p (evicted q))
      else mkQueues (fifo q ++ [i]) (recent q) (evicted q)
  | Invalidate i p =>
      if decide (i ∈ fifo q) then
        mkQueues (remove i (fifo q)) (recent q)
          ((if Z.of_nat (length (evicted q)) =? max_out then tail (evicted q) else evicted q) ++ [p])
      else mkQueues (fifo q) (remove i (recent q)) (evicted q)
  end.
(** The oldest page of the FIFO queue while it is long, else the least recently used of
    the other, else of the FIFO queue. *)
Definition queues_victim (max_a1 : Z) (q : TwoQueues) : option nat :=
  if max_a1 <=? Z.of_nat (length (fifo q)) then Some (default 0%nat (head (fifo q)))
  else head (recent q ++ fifo q).

Fixpoint queues_run (max_out : Z) (q : TwoQueues) (es : list event) : option TwoQueues :=
  match es with
  | [] => Some q
  | e :: es => if decide (twoq_legal q e) then queues_run max_out (queues_step max_out q e) es else None
  end.

Section twoq.
Context (n : nat) (max_a1 max_out : Z).
Hypothesis (Hn : Z.of_nat n < u32_max).

Record twoq_ok (s : TwoQEvictionStrategy) (q : TwoQueues) (c : Z) : Prop := {
  tq_len : length (states s) = n;
  tq_fifo : queue_ok (times a1_time (states s)) (twoq_counter s) (fifo q);
  tq_recent : queue_ok (times am_time (states s)) (twoq_counter s) (recent q);
  tq_count : 0 <= twoq_counter s <= c;
  tq_size : a1_size s = Z.of_nat (length (fifo q));
  tq_out : a1out s = evicted q;
  tq_max : a1_max_size s = max_a1;
  tq_max_out : a1out_max_size s = max_out;
}.

Lemma times_bound {X} (f : X -> option Z) (l : list X) i : is_Some (times f l i) -> (i < length l)%nat.
Proof. unfold times. intros [t Ht]. apply bind_Some in Ht as (x & Hx & _). by apply lookup_lt_Some in Hx. Qed.

Lemma queue_length {X} (f : X -> option Z) (l : list X) g q : queue_ok (times f l) g q -> (length q <= length l)%nat.
Proof.
  intros Hq. rewrite <- (length_seq (length l) 0). apply submseteq_length, NoDup_submseteq.
  - by eapply queue_nodup.
  - intros i Hi. apply elem_of_seq. apply (queue_in _ _ _ Hq), times_bound in Hi. lia.
Qed.

Lemma length_remove_one (q : list nat) i : NoDup q -> i ∈ q -> length q = S (length (remove i q)).
Proof.
  induction 1 as [|a q Ha _ IH]; [by intros ?%not_elem_of_nil|]. rewrite filter_cons.
  intros [->|Hi]%elem_of_cons.
  - rewrite decide_False by tauto. cbn. f_equal. f_equal. symmetry. apply filter_all. set_solver.
  - rewrite decide_True by set_solver. cbn. f_equal. by apply IH.
Qed.

Lemma position_none p l : p ∉ l -> position p l = None.
Proof.
  induction l as [|x l IH]; intros Hp; cbn; [done|]. rewrite (proj2 (Z.eqb_neq x p)) by set_solver.
  by rewrite IH by set_solver.
Qed.
Lemma position_some p l : p ∈ l -> exists i, position p l = Some i /\ delete i l = remove_first p l.
Proof.
  induction l as [|x l IH]; [by intros ?%not_elem_of_nil|]. cbn. destruct (Z.eqb_spec x p).
  - by exists 0%nat.
  - intros [->|Hp]%elem_of_cons; [done|]. destruct (IH Hp) as (i & -> & E). exists (S i). split; [done|]. by rewrite <- E.
Qed.

(** The ticks of the counter keep the queues, and setting one slot moves it between
    them. *)
Lemma queue_set {X} (f : X -> option Z) (l : list X) g q i x :
  queue_ok (times f l) g q -> (i < length l)%nat -> f x = None ->
  queue_ok (times f (<[i := x]> l)) g (remove i q).
Proof.
  intros Hq Hi Hx. eapply queue_ext; [|by apply queue_remove].
  intros j. rewrite times_insert by done. by rewrite Hx.
Qed.
Lemma queue_set_time {X} (f : X -> option Z) (l : list X) g g' q i x :
  queue_ok (times f l) g q -> (i < length l)%nat -> 0 <= g -> g < g' -> f x = Some g' ->
  queue_ok (times f (<[i := x]> l)) g' (remove i q ++ [i]).
Proof.
  intros Hq Hi Hg Hg' Hx. eapply queue_ext; [|by eapply queue_push].
  intros j. rewrite times_insert by done. by rewrite Hx.
Qed.
Lemma queue_without {X} (f : X -> option Z) (l : list X) g q i :
  queue_ok (times f l) g q -> i ∉ q -> remove i q = q.
Proof. intros Hq Hi. apply filter_all. intros j Hj ->. done. Qed.

Lemma twoq_tick_ok s q c : twoq_ok s q c -> c < u32_max ->
  wp Total twoq_tick s (fun _ s' => twoq_ok s' q (c + 1) /\ states s' = states s /\
    twoq_counter s' = twoq_counter s + 1 /\
    queue_ok (times a1_time (states s')) (twoq_counter s) (fifo q) /\
    queue_ok (times am_time (states s')) (twoq_counter s) (recent q)).
Proof.
  intros [Hl Hf Hr Hc Hs Ho Hm Hmo] Hmax. unfold u32_max in Hmax.
  assert (u32_add (twoq_counter s) 1 = twoq_counter s + 1) as Ea by (apply w32_small; lia).
  apply wp_modify. cbn. rewrite Ea. split; [|done]. split; cbn; try done; try lia.
  all: eapply queue_mono; [|done]; lia.
Qed.

Lemma wp_twoq_set i v s (Q : unit -> TwoQEvictionStrategy -> Prop) : (i < length (states s))%nat ->
  Q tt (mkTwoQ (<[i := v]> (states s)) (twoq_counter s) (a1_max_size s) (a1_size s) (a1out s) (a1out_max_size s)) ->
  wp Total (twoq_set i v) s Q.
Proof. intros Hi HQ. apply wp_bind, wp_get. rewrite (proj2 (Nat.ltb_lt _ _)) by done. by apply wp_put. Qed.

Lemma in_queue {X} (f : X -> option Z) (l : list X) g q i x :
  queue_ok (times f l) g q -> l !! i = Some x -> i ∈ q <-> is_Some (f x).
Proof. intros Hq Hx. rewrite (queue_in _ _ _ Hq). unfold times. by rewrite Hx. Qed.

Lemma twoq_access_ok s q c i p : twoq_ok s q c -> (i < n)%nat -> c < u32_max ->
  wp Total (twoq_on_access i p) s (fun _ s' => twoq_ok s' (queues_step max_out q (Access i p)) (c + 1)).
Proof.
  intros Hs Hi Hc. apply wp_bind. eapply wp_mono; [by apply twoq_tick_ok|].
  intros _ s' (Hs' & E & Et & Hf & Hr). rewrite <- (tq_len _ _ _ Hs), <- E in Hi.
  destruct (lookup_lt_is_Some_2 (states s') i Hi) as [x Hx].
  apply wp_bind. unfold twoq_state. apply wp_bind, wp_get. rewrite Hx. apply wp_lift. cbn [queues_step].
  pose proof (in_queue _ _ _ _ _ _ Hr Hx) as Hin.
  destruct x as [|t|t].
  1,2: rewrite decide_False by (rewrite Hin; by intros []); by destruct q.
  rewrite decide_True by (rewrite Hin; by eexists). apply wp_bind, wp_get, wp_twoq_set; [done|].
  destruct Hs' as [Hl Hf' Hr' Hcnt Hsz Ho Hm Hmo]. pose proof (tq_count _ _ _ Hs).
  split; cbn; try done; [by rewrite length_insert|..].
  - rewrite <- (queue_without _ _ _ _ i Hf') by (rewrite (in_queue _ _ _ _ _ _ Hf' Hx); by intros []).
    by apply queue_set.
  - apply (queue_set_time _ _ (twoq_counter s)); [done|done|lia..|done].
Qed.

Lemma twoq_load_ok s q c i p : twoq_ok s q c -> (i < n)%nat -> twoq_legal q (Load i p) -> c < u32_max ->
  wp Total (twoq_on_load i p) s (fun _ s' => twoq_ok s' (queues_step max_out q (Load i p)) (c + 1)).
Proof.
  intros Hs Hi [Hnf Hnr] Hc. apply wp_bind. eapply wp_mono; [by apply twoq_tick_ok|].
  intros _ s' (Hs' & E & Et & Hf & Hr). rewrite <- (tq_len _ _ _ Hs), <- E in Hi.
  destruct Hs' as [Hl Hf' Hr' Hcnt Hsz Ho Hm Hmo]. pose proof (tq_count _ _ _ Hs).
  pose proof (queue_length _ _ _ _ Hf) as Hfl.
  apply wp_bind, wp_get. rewrite Ho. cbn [queues_step]. destruct (decide (p ∈ evicted q)) as [Hp|Hp].
  - destruct (position_some _ _ Hp) as (pos & -> & Ed). unfold twoq_set_a1.
    apply wp_bind, wp_modify, wp_twoq_set; [done|]. cbn [states twoq_counter a1_max_size a1_size a1out a1out_max_size].
    split; cbn; try done; [by rewrite length_insert|..].
    + rewrite <- (queue_without _ _ _ _ i Hf') by done. by apply queue_set.
    + rewrite <- (queue_without _ _ _ _ i Hr') by done.
      apply (queue_set_time _ _ (twoq_counter s)); [done|done|lia..|done].
  - rewrite position_none by done. apply wp_bind, wp_twoq_set; [done|]. apply wp_modify.
    cbn [states twoq_counter a1_max_size a1_size a1out a1out_max_size].
    split; cbn; try done; [by rewrite length_insert|..].
    + rewrite <- (queue_without _ _ _ _ i Hf') by done.
      apply (queue_set_time _ _ (twoq_counter s)); [done|done|lia..|done].
    + rewrite <- (queue_without _ _ _ _ i Hr') by done. by apply queue_set.
    + rewrite Hsz, length_app. cbn. rewrite Hl in Hfl. unfold u32_add, u32_max in *. rewrite w32_small by lia. lia.
Qed.

Lemma twoq_invalidate_ok s q c i p : twoq_ok s q c -> (i < n)%nat ->
  wp Total (twoq_on_invalidate i p) s (fun _ s' => twoq_ok s' (queues_step max_out q (Invalidate i p)) c).
Proof.
  intros [Hl Hf Hr Hc Hsz Ho Hm Hmo] Hi. rewrite <- Hl in Hi.
  destruct (lookup_lt_is_Some_2 (states s) i Hi) as [x Hx].
  apply wp_bind. unfold twoq_state. apply wp_bind, wp_get. rewrite Hx. apply wp_lift. cbn [queues_step].
  pose proof (in_queue _ _ _ _ _ _ Hf Hx) as Hin. pose proof (queue_length _ _ _ _ Hf) as Hfl.
  destruct x as [|t|t].
  2: { rewrite decide_True by (rewrite Hin; by eexists). apply wp_bind, wp_bind, wp_get, wp_modify.
       apply wp_twoq_set; [done|]. rewrite Ho, Hmo.
       cbn [states twoq_counter a1_max_size a1_size a1out a1out_max_size].
       split; cbn [states twoq_counter a1_max_size a1_size a1out a1out_max_size fifo recent evicted]; try done;
         [by rewrite length_insert|by apply queue_set|..].
       - rewrite <- (queue_without _ _ _ _ i Hr) by (rewrite (in_queue _ _ _ _ _ _ Hr Hx); by intros []).
         by apply queue_set.
       - rewrite Hsz, (length_remove_one (fifo q) i); [|by eapply queue_nodup|rewrite Hin; by eexists].
         rewrite (length_remove_one (fifo q) i) in Hfl; [|by eapply queue_nodup|rewrite Hin; by eexists].
         unfold u32_sub, u32_max in *. rewrite w32_small by lia. lia. }
  1,2: rewrite decide_False by (rewrite Hin; by intros []); apply wp_bind, wp_ret, wp_twoq_set; [done|].
  1,2: split; cbn; try done; [by rewrite length_insert| |by apply queue_set].
  1,2: rewrite <- (queue_without _ _ _ _ i Hf) by (rewrite Hin; by intros []); by apply queue_set.
Qed.

Lemma notify_twoq_ok s q c e : twoq_ok s q c -> (slot_of e < n)%nat -> twoq_legal q e -> c < u32_max ->
  wp Total (notify e) s (fun _ s' => twoq_ok s' (queues_step max_out q e) (c + 1)).
Proof.
  intros Hs Hi He Hc. destruct e as [i p|i p|i p]; cbn [notify slot_of] in *.
  - by apply twoq_access_ok.
  - by apply twoq_load_ok.
  - eapply wp_mono; [by apply twoq_invalidate_ok|]. intros ? s' [H1 H2 H3 H4]. split; first [done|lia].
Qed.
Lemma notify_all_twoq_ok es : forall s q c q', twoq_ok s q c -> Forall (fun e => slot_of e < n)%nat es ->
  queues_run max_out q es = Some q' -> c + Z.of_nat (length es) <= u32_max ->
  wp Total (notify_all es) s (fun _ s' => twoq_ok s' q' (c + Z.of_nat (length es))).
Proof.
  induction es as [|e es IH]; intros s q c q' Hs He Hq Hc; cbn [notify_all queues_run length] in *.
  - injection Hq as <-. apply wp_ret. by rewrite Z.add_0_r.
  - apply Forall_cons in He as [He Hes]. case_decide as Hleg; [|done]. apply wp_bind.
    eapply wp_mono; [apply notify_twoq_ok; [done..|lia]|]. intros ? s1 Hs1.
    replace (c + Z.of_nat (S (length es))) with (c + 1 + Z.of_nat (length es)) by lia.
    apply (IH s1 (queues_step max_out q e)); [exact Hs1|exact Hes|exact Hq|lia].
Qed.

Lemma twoq_choose_ok s q c : twoq_ok s q c -> c < u32_max ->
  twoq_choose_victim s = (match queues_victim max_a1 q with Some v => Ok v | None => Panic end, s).
Proof.
  intros [Hl Hf Hr Hc Hsz Ho Hm Hmo] Hmax. assert (twoq_counter s < u32_max) as Hg by lia.
  unfold twoq_choose_victim, queues_victim, mbind, st_mbind, st_bind, get. rewrite Hm, Hsz.
  destruct (max_a1 <=? Z.of_nat (length (fifo q))); cbn.
  - destruct (fifo q) as [|v f]; [by rewrite (oldest_queue_nil _ _ _ Hf)|].
    by rewrite (oldest_queue _ _ _ _ _ Hf Hg).
  - destruct (recent q) as [|v r]; cbn; [|by rewrite (oldest_queue _ _ _ _ _ Hr Hg)].
    rewrite (oldest_queue_nil _ _ _ Hr). cbn [negb].
    unfold choose_victim_from_a1_fallback, mbind, st_mbind, st_bind, get. destruct (fifo q) as [|v f].
    + by rewrite (oldest_queue_nil _ _ _ Hf).
    + by rewrite (oldest_queue _ _ _ _ _ Hf Hg).
Qed.

Lemma twoq_new_ok s : twoq_new (Z.of_nat n) max_a1 max_out = Ok s -> twoq_ok s (mkQueues [] [] []) 0.
Proof.
  unfold twoq_new. destruct (_ <=? _); [done|]. intros [= <-].
  assert (forall (f : PageState -> option Z) i, f Free = None -> times f (replicate (Z.to_nat (Z.of_nat n)) Free) i = None) as E.
  { intros f i Hf. unfold times. destruct (_ !! i) eqn:Hi; [|done]. by apply lookup_replicate in Hi as [-> _]. }
  split; cbn; [rewrite length_replicate; lia| | |lia|done..].
  all: split; [intros i; rewrite E by done; split; [by intros ?%not_elem_of_nil|by intros []]|constructor|].
  all: intros i t; by rewrite E.
Qed.
End twoq.

(** The slots that hold a page are those of the two queues. *)
Definition twoq_holds (q : TwoQueues) (L : gset nat) : Prop := forall i, i ∈ L <-> i ∈ fifo q \/ i ∈ recent q.
Definition twoq_tracks (b : nat) (s : TwoQEvictionStrategy) (n : nat) (L : gset nat) : Prop :=
  Z.of_nat n < u32_max /\ exists max_a1 max_out q c,
    twoq_ok n max_a1 max_out s q c /\ twoq_holds q L /\ c + Z.of_nat b <= u32_max.

Lemma twoq_holds_lt n max_a1 max_out s q c L i : twoq_ok n max_a1 max_out s q c -> twoq_holds q L -> i ∈ L -> (i < n)%nat.
Proof.
  intros Hs HL [Hi|Hi]%HL; rewrite <- (tq_len _ _ _ _ _ _ Hs).
  - by apply (queue_in _ _ _ (tq_fifo _ _ _ _ _ _ Hs)), times_bound in Hi.
  - by apply (queue_in _ _ _ (tq_recent _ _ _ _ _ _ Hs)), times_bound in Hi.
Qed.
Lemma holds_access max_out q L i p : twoq_holds q L -> twoq_holds (queues_step max_out q (Access i p)) L.
Proof.
  intros HL j. rewrite (HL j). cbn. case_decide; [|done]. rewrite elem_of_app, list_elem_of_filter, list_elem_of_singleton.
  destruct (decide (j = i)) as [->|]; naive_solver.
Qed.
Lemma holds_load max_out q L i p : twoq_holds q L -> twoq_holds (queues_step max_out q (Load i p)) ({[i]} ∪ L).
Proof. intros HL j. rewrite elem_of_union, (HL j). cbn. case_decide; cbn; set_solver. Qed.
Lemma holds_invalidate max_out q L i p : twoq_holds q L -> (i ∈ fifo q -> i ∉ recent q) ->
  twoq_holds (queues_step max_out q (Invalidate i p)) (L ∖ {[i]}).
Proof.
  intros HL Hone j. rewrite elem_of_difference, elem_of_singleton, (HL j). cbn.
  case_decide; cbn; rewrite list_elem_of_filter; destruct (decide (j = i)) as [->|]; naive_solver.
Qed.
(** No slot is in both queues. *)
Lemma twoq_disjoint n max_a1 max_out s q c i : twoq_ok n max_a1 max_out s q c -> i ∈ fifo q -> i ∉ recent q.
Proof.
  intros Hs Hf Hr. apply (queue_in _ _ _ (tq_fifo _ _ _ _ _ _ Hs)) in Hf. apply (queue_in _ _ _ (tq_recent _ _ _ _ _ _ Hs)) in Hr.
  unfold times in Hf, Hr. destruct (states s !! i) as [[]|]; cbn in Hf, Hr; by destruct Hf, Hr.
Qed.
Lemma twoq_victim_slot n max_a1 max_out s q c L : twoq_ok n max_a1 max_out s q c -> twoq_holds q L ->
  (0 < n)%nat -> (forall i, (i < n)%nat -> i ∈ L) -> exists v, queues_victim max_a1 q = Some v /\ (v < n)%nat.
Proof.
  intros Hs HL Hn Hfull. assert (forall v, v ∈ fifo q \/ v ∈ recent q -> (v < n)%nat) as Hlt
    by (intros v Hv%HL; by eapply twoq_holds_lt).
  unfold queues_victim. destruct (max_a1 <=? _).
  - eexists. split; [done|]. destruct (fifo q) as [|v f]; [done|]. apply Hlt. left. left.
  - specialize (Hfull 0%nat Hn). apply HL in Hfull. destruct (recent q) as [|v r]; cbn; [|exists v; split; [done|]; apply Hlt; right; left].
    destruct (fifo q) as [|v f]; [set_solver|]. exists v. split; [done|]. apply Hlt. left. left.
Qed.

(** Without a bound, all that is known is that a victim is a slot. *)
Definition twoq_slots (s : TwoQEvictionStrategy) (n : nat) (L : gset nat) : Prop :=
  length (states s) = n /\ forall i, i ∈ L -> (i < n)%nat.
Lemma wp_twoq_set_any i v s (Q : unit -> TwoQEvictionStrategy -> Prop) :
  Q tt (mkTwoQ (<[i := v]> (states s)) (twoq_counter s) (a1_max_size s) (a1_size s) (a1out s) (a1out_max_size s)) ->
  wp Partial (twoq_set i v) s Q.
Proof. intros HQ. apply wp_bind, wp_get. destruct (_ <? _)%nat; [by apply wp_put|by apply wp_panic]. Qed.
Lemma twoq_access_slots s n L i p : twoq_slots s n L -> wp Partial (twoq_on_access i p) s (fun _ s' => twoq_slots s' n L).
Proof.
  intros [Hl HL]. apply wp_bind, wp_modify, wp_bind, wp_bind, wp_get.
  destruct (_ !! i) as [[]|]; [by apply wp_lift, wp_ret..| |done].
  apply wp_lift, wp_bind, wp_get, wp_twoq_set_any. split; [|done]. cbn. by rewrite length_insert.
Qed.
Lemma twoq_load_slots s n L i p : twoq_slots s n L -> (i < n)%nat ->
  wp Partial (twoq_on_load i p) s (fun _ s' => twoq_slots s' n ({[i]} ∪ L)).
Proof.
  intros [Hl HL] Hi. apply wp_bind, wp_modify, wp_bind, wp_get.
  destruct (position _ _); apply wp_bind; [apply wp_modify, wp_twoq_set_any|apply wp_twoq_set_any, wp_modify]; cbn.
  all: split; cbn; [by rewrite length_insert|]; set_solver.
Qed.
Lemma twoq_victim_slots s n L : twoq_slots s n L -> (0 < n)%nat ->
  wp Partial twoq_choose_victim s (fun v s' => (v < n)%nat /\ twoq_slots s' n L).
Proof.
  intros [Hl HL] Hn. subst n. assert (states s <> []) as Hne by (destruct (states s); [cbn in Hn; lia|done]).
  apply wp_bind, wp_get. destruct (_ <=? _); [apply wp_ret; split; [by apply oldest_bound|done]|].
  pose proof (oldest_bound am_time _ Hne). destruct (oldest am_time (states s)) as [v []]; [by apply wp_ret|].
  apply wp_bind, wp_get. pose proof (oldest_bound a1_time _ Hne).
  destruct (oldest a1_time (states s)) as [v' []]; [by apply wp_ret|done].
Qed.
Lemma twoq_invalidate_slots s n L i p : twoq_slots s n L ->
  wp Partial (twoq_on_invalidate i p) s (fun _ s' => twoq_slots s' n (L ∖ {[i]})).
Proof.
  intros [Hl HL]. apply wp_bind, wp_bind, wp_get.
  destruct (_ !! i) as [[]|]; [apply wp_lift, wp_bind..|done].
  2: apply wp_bind, wp_get, wp_modify. 1,3: apply wp_ret.
  all: apply wp_twoq_set_any; split; cbn; [by rewrite length_insert|]; set_solver.
Qed.

(** The accesses that the 32-bit counter can tell apart: with a budget, 2Q does not panic. *)
#[export, refine] Instance twoq_laws t : EvictionLaws TwoQEvictionStrategy t := {
  tracks b s n L := match b with Some b => twoq_tracks b s n L | None => t = Partial /\ twoq_slots s n L end;
}.
Proof.
  - intros [b|] s n L Hs; [|done]. destruct Hs as (Hn & max_a1 & max_out & q & c & Hs & HL & Hc).
    split; [done|]. exists max_a1, max_out, q, c. split; [done|]. split; [done|]. cbn. lia.
  - intros [b|] s n L i p Hb Hs Hi; [|destruct Hs as [-> Hs]; eapply wp_mono; [by apply twoq_access_slots|done]].
    destruct Hs as (Hn & max_a1 & max_out & q & c & Hs & HL & Hc). destruct b as [|b]; [done|].
    apply wp_any. eapply wp_mono; [apply (twoq_access_ok n max_a1 max_out); [exact Hs|by eapply twoq_holds_lt|lia]|].
    intros ? s' Hs'. split; [done|]. eexists _, _, _, _. split; [exact Hs'|]. split; [by apply holds_access|]. cbn. lia.
  - intros [b|] s n L i p Hb Hs Hi HiL; [|destruct Hs as [-> Hs]; eapply wp_mono; [by apply twoq_load_slots|done]].
    destruct Hs as (Hn & max_a1 & max_out & q & c & Hs & HL & Hc). destruct b as [|b]; [done|].
    apply wp_any. eapply wp_mono; [apply (twoq_load_ok n max_a1 max_out Hn); [exact Hs|done| |lia]|].
    { split; intros Hq; apply HiL, HL; auto. }
    intros ? s' Hs'. split; [done|]. eexists _, _, _, _. split; [exact Hs'|]. split; [by apply holds_load|]. cbn. lia.
  - intros [b|] s n L Hb Hs Hn0 Hfull; [|destruct Hs as [-> Hs]; eapply wp_mono; [by apply twoq_victim_slots|by intros v s' []]].
    destruct Hs as (Hn & max_a1 & max_out & q & c & Hs & HL & Hc). destruct b as [|b]; [done|].
    destruct (twoq_victim_slot _ _ _ _ _ _ _ Hs HL Hn0 Hfull) as (v & Ev & Hv).
    unfold wp. change (choose_victim s) with (twoq_choose_victim s). rewrite (twoq_choose_ok _ _ _ _ _ _ Hs) by lia. rewrite Ev.
    split; [done|]. split; [done|]. by exists max_a1, max_out, q, c.
  - intros [b|] s n L i p Hs Hi; [|destruct Hs as [-> Hs]; eapply wp_mono; [by apply twoq_invalidate_slots|done]].
    destruct Hs as (Hn & max_a1 & max_out & q & c & Hs & HL & Hc).
    apply wp_any. eapply wp_mono; [apply (twoq_invalidate_ok n max_a1 max_out Hn); [exact Hs|by eapply twoq_holds_lt]|].
    intros ? s' Hs'. split; [done|]. eexists _, _, _, _. split; [exact Hs'|]. split; [|done].
    apply holds_invalidate; [done|by eapply twoq_disjoint].
Defined.
Lemma twoq_new_tracks t n a1 out s b : twoq_new (Z.of_nat n) a1 out = Ok s -> Z.of_nat n < u32_max ->
  Z.of_nat b <= u32_max -> tracks (t:=t) (Some b) s n ∅.
Proof.
  intros Hs Hn Hb. split; [done|]. exists a1, out, (mkQueues [] [] []), 0. split; [by apply twoq_new_ok|]. split; [|lia].
  intros i. cbn. set_solver.
Qed.
Lemma twoq_new_slots n a1 out s : twoq_new (Z.of_nat n) a1 out = Ok s -> tracks (t:=Partial) None s n ∅.
Proof.
  unfold twoq_new. destruct (_ <=? _); [done|]. intros [= <-]. split; [done|].
  split; [cbn; rewrite length_replicate; lia|]. by intros i ?%not_elem_of_empty.
Qed.
Lemma lru_tracks_new t b n : tracks (t:=t) b (lru_new n) n ∅.
Proof. split; [apply length_replicate|]. by intros i ?%not_elem_of_empty. Qed.

(** ** The properties of the strategies *)

(** LRU evicts the slot that has been unused for the longest time: after any sequence
    of notifications about existing slots shorter than the wrap of the counter, nothing
    has panicked and the victim is the first slot not in use, or else the head of the
    list of the slots ordered by their last access or load. *)
Theorem lru_refines n es :
  (0 < n)%nat -> Forall (fun e => slot_of e < n)%nat es -> Z.of_nat (length es) < u32_max ->
  exists s, notify_all es (lru_new n) = (Ok tt, s) /\
            choose_victim s = (Ok (lru_victim n (fold_left recency_step es [])), s).
Proof.
  intros Hn He Hc.
  destruct (wp_total _ _ _ (notify_all_lru_ok n es _ _ _ (lru_new_ok n) He ltac:(lia))) as ([] & s & E & Hs).
  exists s. split; [done|]. by rewrite <- (lru_choose_ok _ _ _ _ Hs Hn) by lia.
Qed.

(** C23. 2Q refines its two queues: after any sequence of notifications, in which a page
    is loaded only into a free slot, shorter than the wrap of the counter, nothing has
    panicked, the list of evicted pages is the specification's, and the victim is the
    specification's: the head of the FIFO queue while that is at least [max_a1] long,
    else the least recently used slot of the other queue, else the head of the FIFO;
    it panics only if no slot holds a page. *)
Theorem twoq_refines n max_a1 max_out es q s0 :
  Z.of_nat n < u32_max -> twoq_new (Z.of_nat n) max_a1 max_out = Ok s0 ->
  Forall (fun e => slot_of e < n)%nat es -> Z.of_nat (length es) < u32_max ->
  queues_run max_out (mkQueues [] [] []) es = Some q ->
  exists s, notify_all es s0 = (Ok tt, s) /\ a1out s = evicted q /\
    choose_victim s = (match queues_victim max_a1 q with Some v => Ok v | None => Panic end, s).
Proof.
  intros Hn H0 He Hc Hq. apply twoq_new_ok in H0.
  destruct (wp_total _ _ _ (notify_all_twoq_ok n max_a1 max_out Hn es _ _ _ _ H0 He Hq ltac:(lia)))
    as ([] & s & E & Hs).
  exists s. split; [done|]. split; [by apply (tq_out _ _ _ _ _ _ Hs)|].
  by apply (twoq_choose_ok _ _ _ _ _ _ Hs ltac:(lia)).
Qed.

(** *** Concrete runs *)

(** Three slots: the access to slot 0 leaves slot 1 as the oldest. *)
Definition lru_demo : list event := [Load 0 10; Load 1 11; Load 2 12; Access 0 10; Access 2 12].
Lemma lru_refines_witness : exists s,
  notify_all lru_demo (lru_new 3) = (Ok tt, s) /\ choose_victim s = (Ok 1%nat, s).
Proof.
  apply (lru_refines 3 lru_demo); [lia|repeat constructor; cbn; lia|vm_compute; reflexivity].
Defined.

(** Four slots, a FIFO queue of 1: page 10 leaves the FIFO queue, and comes back into the
    other queue. *)
Definition twoq_demo : list event :=
  [Load 0 10; Load 1 11; Load 2 12; Load 3 13; Invalidate 0 10; Load 0 14; Invalidate 1 11; Load 1 10;
   Access 1 10; Invalidate 2 12; Invalidate 3 13; Invalidate 0 14].
Lemma twoq_refines_witness : exists s0 s,
  twoq_new 4 1 2 = Ok s0 /\ notify_all twoq_demo s0 = (Ok tt, s) /\ a1out s = [13; 14] /\
  choose_victim s = (Ok 1%nat, s).
Proof.
  eexists. destruct (twoq_refines 4 1 2 twoq_demo (mkQueues [] [1%nat] [13; 14])
    (mkTwoQ (replicate 4 Free) 0 1 0 [] 2)) as (s & H1 & H2 & H3).
  1-2: vm_compute; reflexivity.
  1: repeat constructor; cbn; lia.
  1-2: vm_compute; reflexivity.
  exists s. split; [reflexivity|]. split; [exact H1|]. split; [exact H2|]. exact H3.
Defined.
