(* ===== verification/Aes.v ===== *)
(** * AES in counter mode ([vm/src/aes.rs])

    The block cipher is the parameter [cx_aes_enc_block], the system call of the
    device: it returns a status and fills an array of 16 bytes. [AesCtr] is the state
    that the three memories of a V-App share: the key and the nonce of the next
    message. *)

From S2P Require Import Prelude.

Inductive AesError : Type := KeyInitFailed | InvalidInputLength | EncryptionFailed.

Section aes.
Context {cx_aes_key_t : Type} (cx_aes_enc_block : cx_aes_key_t -> list Z -> Z * list Z).

Definition encrypt_block (key : cx_aes_key_t) (input : list Z) : outcome AesError (list Z) :=
  guard_err (negb (Nat.eqb (length input) 16)) InvalidInputLength;;
  let '(result, output) := cx_aes_enc_block key input in
  guard_err (negb (result =? 0)) EncryptionFailed;;
  Ok output.

Record AesCtr : Type := mkAesCtr {
  key : cx_aes_key_t;
  nonce : list Z;
}.
Definition aes_new (k : cx_aes_key_t) : AesCtr := mkAesCtr k (replicate 12 0).

(** [for i in (0..counter.len()).rev()]: from the last byte on, until no carry. *)
Fixpoint increment_loop (n : nat) (counter : list Z) : list Z :=
  match n with
  | O => counter
  | S i =>
      let b := w8 (default 0 (counter !! i) + 1) in
      let counter := <[i := b]> counter in
      if negb (b =? 0) then counter else increment_loop i counter
  end.
Definition increment_be_slice (counter : list Z) : list Z := increment_loop (length counter) counter.

(** [for i in 0..chunk.len() { output.push(chunk[i] ^ keystream[i]) }] *)
Fixpoint xor_bytes (chunk keystream : list Z) : outcome AesError (list Z) :=
  match chunk, keystream with
  | [], _ => Ok []
  | b :: chunk, k :: keystream => l ← xor_bytes chunk keystream; Ok (Z.lxor b k :: l)
  | _ :: _, [] => Panic
  end.

(** The loop over [input.chunks(16)]; [fuel] bounds the number of chunks. *)
Fixpoint process_chunks (fuel : nat) (k : cx_aes_key_t) (input counter : list Z)
    : outcome AesError (list Z) :=
  match input with
  | [] => Ok []
  | _ =>
      match fuel with
      | O => Diverge
      | S fuel =>
          keystream ← encrypt_block k counter;
          out ← xor_bytes (take 16 input) keystream;
          rest ← process_chunks fuel k (drop 16 input) (increment_be_slice counter);
          Ok (out ++ rest)
      end
  end.
Definition process_with_counter (k : cx_aes_key_t) (input counter : list Z)
    : outcome AesError (list Z) := process_chunks (length input) k input counter.

Definition create_counter_block (nonce : list Z) (initial_counter : Z) : list Z :=
  nonce ++ be_bytes 4 initial_counter.

(** The nonce is consumed even when the encryption fails. *)
Definition encrypt_with_initial_counter (plaintext : list Z) (initial_counter : Z)
    : ST AesCtr AesError (list Z * list Z) :=
  s ← get;
  put (mkAesCtr (key s) (increment_be_slice (nonce s)));;
  ciphertext ← lift (process_with_counter (key s) plaintext (create_counter_block (nonce s) initial_counter));
  mret (nonce s, ciphertext).
Definition encrypt (plaintext : list Z) : ST AesCtr AesError (list Z * list Z) :=
  encrypt_with_initial_counter plaintext 0.

Definition decrypt_with_initial_counter (s : AesCtr) (nonce ciphertext : list Z) (initial_counter : Z)
    : outcome AesError (list Z) :=
  process_with_counter (key s) ciphertext (create_counter_block nonce initial_counter).
Definition decrypt (s : AesCtr) (nonce ciphertext : list Z) : outcome AesError (list Z) :=
  decrypt_with_initial_counter s nonce ciphertext 0.

End aes.
Arguments AesCtr cx_aes_key_t : clear implicits.
