(* ===== verification/AesSpec.v ===== *)
(** * Counter mode: decryption undoes encryption, nonces are never used twice

    For any block cipher that answers with 16 bytes. The nonce is a counter of 96 bits:
    the theorem on nonces is for a sequence of messages that does not exhaust it. *)

From S2P Require Import Prelude Aes.

(** ** The increment of a big-endian counter *)

Lemma be_value_snoc l b : be_value (l ++ [b]) = 256 * be_value l + b.
Proof. unfold be_value. rewrite rev_app_distr. cbn. lia. Qed.

Lemma increment_loop_app n l r : (n <= length l)%nat ->
  increment_loop n (l ++ r) = increment_loop n l ++ r.
Proof.
  revert l; induction n as [|i IH]; intros l Hn; cbn [increment_loop]; [done|].
  rewrite lookup_app_l, insert_app_l by lia. destruct (negb _); [done|]. apply IH. rewrite length_insert. lia.
Qed.
Lemma increment_snoc l b :
  increment_be_slice (l ++ [b]) =
  if w8 (b + 1) =? 0 then increment_be_slice l ++ [0] else l ++ [w8 (b + 1)].
Proof.
  unfold increment_be_slice. rewrite length_app, Nat.add_1_r. cbn [increment_loop].
  rewrite (list_lookup_middle l [] b _ eq_refl). cbn [default].
  rewrite insert_app_r_alt, Nat.sub_diag by lia.
  cbn [default from_option id]. change (<[0%nat := w8 (b + 1)]> [b]) with [w8 (b + 1)].
  destruct (Z.eqb_spec (w8 (b + 1)) 0) as [E|E]; cbn [negb]; [|done].
  rewrite increment_loop_app by done. by rewrite E.
Qed.

(** The increment adds one, modulo the number of counters. *)
Lemma increment_value l : bytes_ok l ->
  length (increment_be_slice l) = length l /\ bytes_ok (increment_be_slice l) /\
  be_value (increment_be_slice l) = (be_value l + 1) mod 256 ^ Z.of_nat (length l).
Proof.
  induction l as [|b l IH] using rev_ind; intros Hl; [done|].
  apply Forall_app in Hl as [Hl Hb]. apply Forall_cons in Hb as [Hb _]. unfold is_u in Hb.
  destruct (IH Hl) as (IH1 & IH2 & IH3). rewrite increment_snoc. pose proof (be_value_range _ Hl) as Hr.
  rewrite !length_app, Nat.add_1_r, be_value_snoc, Nat2Z.inj_succ, Z.pow_succ_r by lia.
  destruct (Z.eqb_spec (w8 (b + 1)) 0) as [E|E].
  - assert (b = 255) as -> by (destruct (Z.eq_dec b 255); [done|]; unfold wrap in E; rewrite Z.mod_small in E; lia).
    rewrite length_app, IH1, be_value_snoc, IH3. split; [cbn; lia|]. split.
    { apply Forall_app. split; [done|]. constructor; [done|constructor]. }
    replace (256 * be_value l + 255 + 1) with (256 * (be_value l + 1)) by lia.
    rewrite Z.mul_mod_distr_l by lia. lia.
  - assert (b < 255) as Hb' by (destruct (Z.eq_dec b 255) as [->|]; [by vm_compute in E|lia]).
    assert (w8 (b + 1) = b + 1) as Ew by (apply wrap_small; unfold is_u; lia).
    rewrite Ew, length_app, be_value_snoc. split; [cbn; lia|]. split.
    { apply Forall_app. split; [done|]. constructor; [rewrite <- Ew; apply wrap_range; lia|constructor]. }
    rewrite Z.mod_small by lia. lia.
Qed.

Section aes_spec.
Context {K : Type} (cx_aes_enc_block : K -> list Z -> Z * list Z).
(** [cx_aes_enc_block] fills an output array of 16 bytes. *)
Hypothesis cx_aes_enc_block_array : forall k block, length (snd (cx_aes_enc_block k block)) = 16%nat.

Abbreviation process := (process_chunks cx_aes_enc_block).

Lemma xor_bytes_length c k l : xor_bytes c k = Ok l -> length l = length c.
Proof.
  revert k l; induction c as [|b c IH]; intros [|x k] l; cbn; [by intros [= <-]..|done|].
  destruct (xor_bytes c k) eqn:E; [|done..]. intros [= <-]. cbn. by rewrite (IH _ _ E).
Qed.
Lemma xor_bytes_ok c k : (length c <= length k)%nat -> exists l, xor_bytes c k = Ok l.
Proof.
  revert k; induction c as [|b c IH]; intros [|x k] Hl; cbn in *; [by eexists..|lia|].
  destruct (IH k) as [l ->]; [lia|]. by eexists.
Qed.
Lemma xor_bytes_involutive c k l : xor_bytes c k = Ok l -> xor_bytes l k = Ok c.
Proof.
  revert k l; induction c as [|b c IH]; intros [|x k] l; cbn; [by intros [= <-]..|done|].
  destruct (xor_bytes c k) eqn:E; [|done..]. intros [= <-]. cbn. rewrite (IH _ _ E). cbn.
  by rewrite Z.lxor_assoc, Z.lxor_nilpotent, Z.lxor_0_r.
Qed.
Lemma xor_bytes_bytes c k l : bytes_ok c -> bytes_ok k -> xor_bytes c k = Ok l -> bytes_ok l.
Proof.
  intros Hc. revert k l; induction Hc as [|b c Hb _ IH]; intros [|x k] l Hk; cbn; [by intros [= <-]..|done|].
  destruct (xor_bytes c k) eqn:E; [|done..]. intros [= <-]. apply Forall_cons in Hk as [Hx Hk].
  constructor; [|by eapply IH]. unfold is_u in *. split; [apply Z.lxor_nonneg; lia|].
  destruct (Z.eq_dec (Z.lxor b x) 0) as [->|Hne]; [done|].
  apply Z.log2_lt_pow2; [pose proof (proj2 (Z.lxor_nonneg b x)); lia|].
  eapply Z.le_lt_trans; [apply Z.log2_lxor; lia|]. apply Z.max_lub_lt.
  - destruct (Z.eq_dec b 0) as [->|]; [done|]. apply Z.log2_lt_pow2; lia.
  - destruct (Z.eq_dec x 0) as [->|]; [done|]. apply Z.log2_lt_pow2; lia.
Qed.

Lemma encrypt_block_length k b out : encrypt_block cx_aes_enc_block k b = Ok out -> length out = 16%nat.
Proof.
  unfold encrypt_block. destruct (negb _); [done|]. cbn. pose proof (cx_aes_enc_block_array k b) as Hl.
  destruct (cx_aes_enc_block k b) as [r o]. destruct (negb _); [done|]. cbn in *. by intros [= <-].
Qed.

(** Processing is an involution of the same length: its keystream does not depend on the
    input. *)
Lemma process_involutive f k input ctr out :
  process f k input ctr = Ok out -> length out = length input /\ process f k out ctr = Ok input.
Proof.
  revert input ctr out; induction f as [|f IH]; intros [|b input] ctr out; [by intros [= <-]|done|by intros [= <-]|].
  cbn [process_chunks]. destruct (encrypt_block _ k ctr) as [ks| | |] eqn:Ek; [|done..]. cbn [mbind outcome_mbind outcome_bind].
  destruct (xor_bytes (take 16 (b :: input)) ks) as [c1| | |] eqn:Ex; [|done..]. cbn [mbind outcome_mbind outcome_bind].
  destruct (process f k (drop 16 (b :: input)) _) as [c2| | |] eqn:Ep; [|done..]. intros [= <-].
  destruct (IH _ _ _ Ep) as [Hl Hp]. pose proof (xor_bytes_length _ _ _ Ex) as Hl1.
  rewrite length_app, Hl, Hl1, length_take, length_drop. split; [lia|].
  assert (c1 <> []) as Hne by (intros ->; rewrite length_take in Hl1; cbn in Hl1; lia).
  destruct (c1 ++ c2) as [|x l] eqn:El; [by apply app_eq_nil in El as [? _]|]. rewrite <- El. clear El x l.
  assert (take 16 (c1 ++ c2) = c1 /\ drop 16 (c1 ++ c2) = c2) as [-> ->].
  { rewrite length_take in Hl1. destruct (decide (16 <= length (b :: input))%nat).
    - rewrite take_app_length', drop_app_length' by lia. done.
    - assert (c2 = []) as -> by (apply length_zero_iff_nil; rewrite Hl, length_drop; lia).
      rewrite app_nil_r, take_ge, drop_ge by lia. done. }
  rewrite (xor_bytes_involutive _ _ _ Ex). cbn [mbind outcome_mbind outcome_bind]. rewrite Hp.
  cbn [mbind outcome_mbind outcome_bind]. by rewrite take_drop.
Qed.

(** The output is made of bytes if the keystream and the input are. *)
Lemma process_bytes f k input ctr out :
  (forall block, bytes_ok (snd (cx_aes_enc_block k block))) -> bytes_ok input ->
  process f k input ctr = Ok out -> bytes_ok out.
Proof.
  intros Hb. revert input ctr out; induction f as [|f IH]; intros [|b input] ctr out Hi;
    [by intros [= <-]|done|by intros [= <-]|].
  cbn [process_chunks]. destruct (encrypt_block _ k ctr) as [ks| | |] eqn:Ek; [|done..]. cbn [mbind outcome_mbind outcome_bind].
  destruct (xor_bytes (take 16 (b :: input)) ks) as [c1| | |] eqn:Ex; [|done..]. cbn [mbind outcome_mbind outcome_bind].
  destruct (process f k (drop 16 (b :: input)) _) as [c2| | |] eqn:Ep; [|done..]. intros [= <-].
  apply Forall_app. split; [|by eapply IH; [apply Forall_drop|]].
  eapply xor_bytes_bytes; [by apply Forall_take, Hi| |exact Ex].
  unfold encrypt_block in Ek. destruct (negb _); [done|]. cbn in Ek. specialize (Hb ctr).
  destruct (cx_aes_enc_block k ctr) as [r o]. destruct (negb _); [done|]. injection Ek as <-. exact Hb.
Qed.

Lemma encrypt_block_returns k b o : encrypt_block cx_aes_enc_block k b = o ->
  match o with Panic | Diverge => False | _ => True end.
Proof.
  unfold encrypt_block. destruct (negb _); cbn; [by intros <-|]. destruct (cx_aes_enc_block k b).
  destruct (negb _); by intros <-.
Qed.

(** The fuel is enough. *)
Lemma process_no_panic f k input ctr : (length input <= f)%nat ->
  (exists out, process f k input ctr = Ok out) \/ (exists e, process f k input ctr = Err e).
Proof.
  revert input ctr; induction f as [|f IH]; intros [|b input] ctr Hf; cbn [length] in Hf; [by left; eexists|lia|by left; eexists|].
  cbn [process_chunks]. destruct (encrypt_block _ k ctr) as [ks|e| |] eqn:Ek; cbn [mbind outcome_mbind outcome_bind].
  - pose proof (encrypt_block_length _ _ _ Ek) as Hk.
    destruct (xor_bytes_ok (take 16 (b :: input)) ks) as [l ->]; [rewrite length_take; lia|].
    cbn [mbind outcome_mbind outcome_bind].
    destruct (IH (drop 16 (b :: input)) (increment_be_slice ctr)) as [[o ->]|[e ->]]; [rewrite length_drop; cbn; lia|..].
    + left. by eexists.
    + right. by eexists.
  - right. by eexists.
  - by apply encrypt_block_returns in Ek as [].
  - by apply encrypt_block_returns in Ek as [].
Qed.

(** With a block cipher that reports no failure, processing succeeds. *)
Lemma process_works f k input ctr : (forall block, fst (cx_aes_enc_block k block) = 0) ->
  (length input <= f)%nat -> length ctr = 16%nat -> bytes_ok ctr -> exists out, process f k input ctr = Ok out.
Proof.
  intros Hk. revert input ctr; induction f as [|f IH]; intros [|b input] ctr Hf Hc Hb; cbn [length] in Hf;
    [by eexists|lia|by eexists|].
  cbn [process_chunks]. unfold encrypt_block. rewrite Hc. cbn [guard_err Nat.eqb negb mbind outcome_mbind outcome_bind].
  pose proof (Hk ctr) as H0. pose proof (cx_aes_enc_block_array k ctr) as Hl. destruct (cx_aes_enc_block k ctr) as [r o].
  cbn [fst snd] in *. subst r. cbn [guard_err Z.eqb negb mbind outcome_mbind outcome_bind].
  destruct (xor_bytes_ok (take 16 (b :: input)) o) as [l ->]; [rewrite length_take; lia|].
  destruct (increment_value _ Hb) as (Hl' & Hb' & _). cbn [mbind outcome_mbind outcome_bind].
  destruct (IH (drop 16 (b :: input)) (increment_be_slice ctr)) as [out ->]; [rewrite length_drop; cbn; lia|congruence|done|].
  by eexists.
Qed.

Abbreviation aes_encrypt := (encrypt cx_aes_enc_block).
Abbreviation aes_decrypt := (decrypt cx_aes_enc_block).

Lemma encrypt_spec s plaintext :
  let '(o, s') := aes_encrypt plaintext s in
  s' = mkAesCtr (key s) (increment_be_slice (nonce s)) /\
  match o with
  | Ok (n, ciphertext) =>
      n = nonce s /\ length ciphertext = length plaintext /\
      forall s2, key s2 = key s -> aes_decrypt s2 n ciphertext = Ok plaintext
  | Err _ => True
  | _ => False
  end.
Proof.
  unfold encrypt, encrypt_with_initial_counter, mbind, st_mbind, st_bind, get, put, lift, process_with_counter.
  destruct (process_no_panic (length plaintext) (key s) plaintext (create_counter_block (nonce s) 0) ltac:(lia))
    as [[c Ec]|[e Ee]]; [rewrite Ec|by rewrite Ee].
  split; [done|]. split; [done|]. destruct (process_involutive _ _ _ _ _ Ec) as [Hl Hp]. split; [done|].
  intros s2 Hk. unfold decrypt, decrypt_with_initial_counter, process_with_counter. by rewrite Hk, Hl.
Qed.

(** Decryption undoes encryption: what [encrypt] returns has the length of the
    plaintext and decrypts to it under the returned nonce with any [AesCtr] of the same
    key, whatever its own nonce. [encrypt] never panics (no index of its loops is out of
    range) and consumes the nonce whether it succeeds or not. *)
Theorem aes_round_trip s plaintext :
  let '(o, s') := aes_encrypt plaintext s in
  s' = mkAesCtr (key s) (increment_be_slice (nonce s)) /\
  match o with
  | Ok (n, ciphertext) =>
      n = nonce s /\ length ciphertext = length plaintext /\
      forall s2, key s2 = key s -> aes_decrypt s2 n ciphertext = Ok plaintext
  | Err _ => True
  | _ => False
  end.
Proof. exact (encrypt_spec s plaintext). Qed.

(** The messages encrypted one after the other. *)
Fixpoint encrypt_all (ms : list (list Z)) : ST (AesCtr K) AesError (list (list Z * list Z)) :=
  match ms with
  | [] => mret []
  | m :: ms => c ← aes_encrypt m; cs ← encrypt_all ms; mret (c :: cs)
  end.

Lemma encrypt_nonce m s n c s' : aes_encrypt m s = (Ok (n, c), s') ->
  n = nonce s /\ nonce s' = increment_be_slice (nonce s).
Proof.
  pose proof (encrypt_spec s m) as H. intros E. rewrite E in H. destruct H as (-> & -> & _). done.
Qed.

Lemma encrypt_all_nonces ms : forall s outs s', bytes_ok (nonce s) -> encrypt_all ms s = (Ok outs, s') ->
  forall i o, outs !! i = Some o ->
    be_value o.1 = (be_value (nonce s) + Z.of_nat i) mod 256 ^ Z.of_nat (length (nonce s)) /\
    (i < length ms)%nat.
Proof.
  induction ms as [|m ms IH]; intros s outs s' Hs; cbn [encrypt_all]; [by intros [= <- <-]|].
  unfold mbind at 1, st_mbind at 1, st_bind at 1. destruct (aes_encrypt m s) as [[[n c]| | |] s1] eqn:E1; [|done..].
  unfold mbind at 1, st_mbind at 1, st_bind at 1. destruct (encrypt_all ms s1) as [[os| | |] s2] eqn:E2; [|done..].
  intros [= <- <-]. destruct (encrypt_nonce _ _ _ _ _ E1) as [-> Hn1].
  pose proof (be_value_range _ Hs) as Hr. destruct (increment_value _ Hs) as (Hl & Hb & Hv).
  intros [|i] o Ho; cbn in Ho.
  - injection Ho as <-. cbn [fst]. rewrite Z.add_0_r, Z.mod_small by done. cbn. split; [done|lia].
  - destruct (IH s1 os s2 ltac:(by rewrite Hn1) E2 i o Ho) as [Hi Hlt]. cbn. split; [|lia].
    rewrite Hi, Hn1, Hl, Hv, Zplus_mod_idemp_l. f_equal. lia.
Qed.

(** No two messages are encrypted under the same nonce (so under no common part of
    the keystream), for as many as [2 ^ 96] messages of one key. *)
Theorem aes_nonces_distinct s ms outs s' :
  bytes_ok (nonce s) -> length (nonce s) = 12%nat -> Z.of_nat (length ms) <= 2 ^ 96 ->
  encrypt_all ms s = (Ok outs, s') -> NoDup (fst <$> outs).
Proof.
  intros Hs Hl Hm E. apply NoDup_alt. intros i j x Hi Hj.
  rewrite list_lookup_fmap in Hi, Hj. apply fmap_Some in Hi as (oi & Hi & ->), Hj as (oj & Hj & Eo).
  destruct (encrypt_all_nonces _ _ _ _ Hs E _ _ Hi) as [Hvi Hli].
  destruct (encrypt_all_nonces _ _ _ _ Hs E _ _ Hj) as [Hvj Hlj].
  rewrite <- Eo, Hvi, Hl in Hvj. change (256 ^ Z.of_nat 12) with (2 ^ 96) in Hvj.
  enough (Z.of_nat i = Z.of_nat j) by lia.
  pose proof (Z.div_mod (be_value (nonce s) + Z.of_nat i) (2 ^ 96) ltac:(done)) as Di.
  pose proof (Z.div_mod (be_value (nonce s) + Z.of_nat j) (2 ^ 96) ltac:(done)) as Dj.
  rewrite Hvj in Di.
  set (qi := (be_value (nonce s) + Z.of_nat i) / 2 ^ 96) in *.
  set (qj := (be_value (nonce s) + Z.of_nat j) / 2 ^ 96) in *. change (2 ^ 96) with 79228162514264337593543950336 in *.
  lia.
Qed.
End aes_spec.

(** *** A concrete block function *)

Definition toy_block (k : Z) (block : list Z) : Z * list Z :=
  (0, map (fun i => w8 (k * 31 + nth i block 0 * 7 + Z.of_nat i)) (seq 0 16)).
Lemma toy_block_array k block : length (snd (toy_block k block)) = 16%nat.
Proof. done. Qed.

Definition toy_aes : AesCtr Z := mkAesCtr 42 (replicate 11 0 ++ [255]).
Lemma aes_round_trip_witness : exists c s',
  encrypt toy_block (map Z.of_nat (seq 0 20)) toy_aes = (Ok (nonce toy_aes, c), s') /\
  nonce s' = replicate 10 0 ++ [1; 0] /\
  decrypt toy_block (aes_new 42) (nonce toy_aes) c = Ok (map Z.of_nat (seq 0 20)).
Proof.
  pose proof (aes_round_trip toy_block toy_block_array toy_aes (map Z.of_nat (seq 0 20))) as H.
  destruct (encrypt toy_block (map Z.of_nat (seq 0 20)) toy_aes) as [[[n c]| | |] s'] eqn:E;
    [|vm_compute in E; discriminate E..].
  destruct H as (-> & -> & _ & H). exists c. eexists. split; [reflexivity|]. split; [vm_compute; reflexivity|].
  apply H. reflexivity.
Defined.

Lemma aes_nonces_distinct_witness : exists outs s',
  encrypt_all toy_block [[1; 2]; [3]; [4; 5; 6]] toy_aes = (Ok outs, s') /\ NoDup (fst <$> outs).
Proof.
  eexists _, _. split; [vm_compute; reflexivity|].
  eapply (aes_nonces_distinct toy_block toy_block_array toy_aes [[1; 2]; [3]; [4; 5; 6]]).
  - solve_bytes.
  - reflexivity.
  - vm_compute. discriminate.
  - vm_compute. reflexivity.
Defined.
