(* ===== verification/Auth.v ===== *)
(** * The authentication key of the VM ([vm/src/auth.rs])

    The secret of the device, the keys and tags derived from it, and the HMACs of the
    code pages. [Device] are the primitives of the secure element that the VM calls:
    the HMAC of a sequence of updates (which can fail), the block cipher, and the
    secret that the non-volatile storage holds once [VMAuthKey::get] has initialised
    it. SHA-256 is the hasher of [Accumulator]. *)

From S2P Require Import Prelude Accumulator.

Class Device (cx_aes_key_t : Type) := {
  cx_aes_enc_block : cx_aes_key_t -> list Z -> Z * list Z;
  hmac_sha256 : list Z -> list (list Z) -> option (list Z);
  auth_key : list Z;
}.

(** What the model relies on: [cx_aes_enc_block] fills an array of 16 bytes. *)
Class DeviceLaws (K : Type) `{DV : Device K} := {
  enc_block_array : forall k block, length (snd (cx_aes_enc_block k block)) = 16%nat;
  enc_block_bytes : forall k block, bytes_ok (snd (cx_aes_enc_block k block));
}.

(** The tags are ASCII strings. *)
Definition tag_bytes (s : string) : list Z :=
  map (fun a => Z.of_nat (Ascii.nat_of_ascii a)) (String.list_ascii_of_string s).
Definition TAG_APP_ID : list Z := Eval vm_compute in tag_bytes "VND_APP_ID".
Definition TAG_APP_AUTH_KEY : list Z := Eval vm_compute in tag_bytes "VND_APP_AUTH_KEY".
Definition TAG_PAGE_HMAC : list Z := Eval vm_compute in tag_bytes "VND_PAGE_TAG".
Definition TAG_PAGE_HMAC_MASK : list Z := Eval vm_compute in tag_bytes "VND_HMAC_MASK".

Section auth.
Context {H : Type} `{RH : ResettableHasher H}.
Context {cx_aes_key_t : Type} `{DV : Device cx_aes_key_t}.

Definition tagged_hash (tag buffer : list Z) : HashOutput :=
  let tag_hash := hasher_digest (H:=H) (hasher_update hasher_new tag) in
  hasher_digest (H:=H)
    (hasher_update (hasher_update (hasher_update hasher_new tag_hash) auth_key) buffer).

Definition get_vapp_auth_key (vapp_hash : list Z) : list Z := tagged_hash TAG_APP_AUTH_KEY vapp_hash.

Definition compute_code_page_hmac (app_auth_key vapp_hash : list Z) (page_index : Z)
    (page_hash : HashOutput) : outcome unit (list Z) :=
  ok_or (hmac_sha256 app_auth_key [TAG_PAGE_HMAC; vapp_hash; be_bytes 4 page_index; page_hash]) tt.

Definition compute_page_hmac_mask (ephemeral_sk : list Z) (page_index : Z) : HashOutput :=
  hasher_digest (H:=H)
    (hasher_update (hasher_update (hasher_update hasher_new TAG_PAGE_HMAC_MASK) ephemeral_sk)
       (be_bytes 4 page_index)).

Definition get_vanadium_app_id : list Z := tagged_hash TAG_APP_ID [].
End auth.
