(* ===== verification/History.v ===== *)
(** * What was hashed: soundness of the verifier relative to a history

    The soundness of a Merkle proof rests on the hash function being collision free on
    the messages that were actually hashed. A hasher with a history ([HashHistory])
    records them; [Logged] adds the record to any hasher. [path_messages] are the
    messages that checking a proof hashes. *)

From S2P Require Import Prelude Accumulator AccumulatorSpec.

Class HashHistory (H : Type) `{HL : HasherLaws H OUTPUT_SIZE} := {
  history : H -> list (list Z);
  history_update : forall h x, history (hasher_update h x) = history h;
  history_reset : forall h, history (hasher_reset h) = history h;
  history_digest : forall h d, absorbed h d -> history (snd (digest_inplace h)) = history h ++ [d];
}.

(** ** Any hasher with a record *)

Record Logged {H : Type} : Type := mkLogged {
  inner : H;
  pending : list Z;
  hashed : list (list Z);
}.
Arguments Logged : clear implicits.

Section logged.
Context {H : Type} `{HL : HasherLaws H OUTPUT_SIZE}.
#[export] Instance logged_hasher : Hasher (Logged H) := {
  hasher_new := mkLogged _ hasher_new [] [];
  hasher_update := fun h x => mkLogged _ (hasher_update (inner h) x) (pending h ++ x) (hashed h);
  hasher_digest := fun h => hasher_digest (inner h);
}.
#[export] Instance logged_resettable : ResettableHasher (Logged H) := {
  hasher_reset := fun h => mkLogged _ (hasher_reset (inner h)) [] (hashed h);
  digest_inplace := fun h =>
    let '(o, i) := digest_inplace (inner h) in (o, mkLogged _ i (pending h) (hashed h ++ [pending h]));
}.
#[export, refine] Instance logged_laws : HasherLaws (Logged H) OUTPUT_SIZE := {
  hash := hash (H:=H);
  absorbed := fun h d => absorbed (inner h) d /\ pending h = d;
}.
Proof.
  - apply hash_length.
  - split; [apply (absorbed_new (H:=H))|done].
  - intros h d x [Ha <-]. split; [by apply (absorbed_update (H:=H))|done].
  - intros h d [Ha _]. by apply (absorbed_digest (H:=H)).
  - intros h. split; [apply (absorbed_reset (H:=H))|done].
  - intros h d [Ha _]. cbn. pose proof (digest_inplace_spec (H:=H) _ _ Ha) as E.
    by destruct (digest_inplace (inner h)).
Defined.
#[export, refine] Instance logged_history : HashHistory (Logged H) := { history := hashed }.
Proof.
  - done.
  - done.
  - intros h d [_ <-]. cbn. by destruct (digest_inplace (inner h)).
Defined.
End logged.

Section history.
Context {H : Type} `{HH : HashHistory H OUTPUT_SIZE}.
Abbreviation hash_ok := (fun h : HashOutput => length h = OUTPUT_SIZE).

(** No two different messages of the list have the same hash. *)
Definition collision_free (l : list (list Z)) : Prop :=
  forall x y, x ∈ l -> y ∈ l -> hash x = hash y -> x = y.

Lemma collision_free_sub l l' : l' ⊆ l -> collision_free l -> collision_free l'.
Proof. intros Hs Hc x y Hx Hy. apply Hc; by apply Hs. Qed.

(** The inner nodes and the leaves of an accumulator. *)
Definition node_message (t : list HashOutput) (i : nat) : list Z :=
  1 :: at_ t (2 * i + 1) ++ at_ t (2 * i + 2).
Definition acc_messages (m : MerkleAccumulator) : list (list Z) :=
  (node_message (tree m) <$> seq 0 (length (data m) - 1)) ++ (cons 0 <$> data m).

Lemma node_message_in m i : (i < length (data m) - 1)%nat -> node_message (tree m) i ∈ acc_messages m.
Proof.
  intros Hi. apply elem_of_app. left. apply list_elem_of_fmap. exists i. split; [done|].
  apply elem_of_seq. lia.
Qed.
Lemma leaf_message_in m i d : data m !! i = Some d -> 0 :: d ∈ acc_messages m.
Proof.
  intros Hd. apply elem_of_app. right. apply list_elem_of_fmap. exists d. split; [done|].
  by eapply list_elem_of_lookup_2.
Qed.

(** ** The messages hashed by a proof *)

Definition step_message (p : nat) (h s : HashOutput) : list Z :=
  1 :: (if Nat.even p then s ++ h else h ++ s).
Fixpoint path_messages (p : nat) (h : HashOutput) (proof : list HashOutput) : list (list Z) :=
  match proof with
  | [] => []
  | s :: proof =>
      if Nat.eqb p 0 then []
      else step_message p h s :: path_messages (parent p) (hash (step_message p h s)) proof
  end.

Lemma digest_history (hs : H) l r :
  let out := digest_inplace (hasher_update (hasher_update (hasher_update (hasher_reset hs) [1]) l) r) in
  fst out = hash (1 :: l ++ r) /\ history (snd out) = history hs ++ [1 :: l ++ r].
Proof.
  assert (absorbed (hasher_update (hasher_update (hasher_update (hasher_reset hs) [1]) l) r) (1 :: l ++ r)) as Ha.
  { change (1 :: l ++ r) with (([1] ++ l) ++ r).
    apply absorbed_update, absorbed_update, (absorbed_update _ [] [1]), absorbed_reset. }
  cbv zeta. split; [by apply digest_inplace_spec|]. rewrite (history_digest _ _ Ha).
  by rewrite !history_update, history_reset.
Qed.

(** One step of the verifier, at any position. *)
Lemma inclusion_feed_history p h root b (hs : H) s :
  exists b' hs',
    inclusion_feed (mkInclusionVerifier h (Z.of_nat p) root b) hs s =
      (if Nat.eqb p 0 then mkInclusionVerifier h 0 root false
       else mkInclusionVerifier (hash (step_message p h s)) (Z.of_nat (parent p)) root b', hs') /\
    history hs' = history hs ++ path_messages p h [s].
Proof.
  unfold inclusion_feed. cbn [pos current_hash root_hash verified path_messages].
  destruct (Nat.eqb_spec p 0) as [->|Hp].
  { exists false, hs. split; [done|]. by rewrite app_nil_r. }
  rewrite (proj2 (Z.eqb_neq _ _)), pos_parity, pos_parent by lia. unfold step_message.
  destruct (Nat.even p).
  - destruct (digest_history hs s h) as [E1 E2]. destruct (digest_inplace _) as [o hs']. cbn in E1, E2.
    subst o. by eexists _, hs'.
  - destruct (digest_history hs h s) as [E1 E2]. destruct (digest_inplace _) as [o hs']. cbn in E1, E2.
    subst o. by eexists _, hs'.
Qed.
Lemma inclusion_feed_all_history proof : forall p h root b (hs : H),
  history (snd (inclusion_feed_all (mkInclusionVerifier h (Z.of_nat p) root b) hs proof)) =
  history hs ++ path_messages p h proof.
Proof.
  induction proof as [|s proof IH]; intros p h root b hs; cbn [inclusion_feed_all]; [by rewrite app_nil_r|].
  destruct (inclusion_feed_history p h root b hs s) as (b' & hs' & E & Hh). rewrite E.
  cbn [path_messages] in *. destruct (Nat.eqb_spec p 0) as [->|Hp].
  - rewrite (IH 0%nat), Hh, app_nil_r. cbn. destruct proof; by rewrite app_nil_r.
  - rewrite IH, Hh, <- app_assoc. done.
Qed.

Lemma inclusion_feed_all_app v (hs : H) p1 p2 :
  inclusion_feed_all v hs (p1 ++ p2) =
  let '(v1, hs1) := inclusion_feed_all v hs p1 in inclusion_feed_all v1 hs1 p2.
Proof.
  revert v hs; induction p1 as [|s p1 IH]; intros v hs; cbn; [done|].
  destruct (inclusion_feed v hs s). apply IH.
Qed.
Lemma update_feed_all_app v (hs : H) p1 p2 :
  update_feed_all v hs (p1 ++ p2) =
  let '(v1, hs1) := update_feed_all v hs p1 in update_feed_all v1 hs1 p2.
Proof.
  revert v hs; induction p1 as [|s p1 IH]; intros v hs; cbn; [done|].
  destruct (update_feed v hs s). apply IH.
Qed.

(** The two verifiers of an update hash the messages of both paths. *)
Lemma update_feed_all_history proof : forall p ho hn ro rn bo bn (hs : H) x,
  x ∈ history hs ++ path_messages p ho proof ++ path_messages p hn proof ->
  x ∈ history (snd (update_feed_all
    (mkUpdateVerifier (mkInclusionVerifier ho (Z.of_nat p) ro bo) (mkInclusionVerifier hn (Z.of_nat p) rn bn))
    hs proof)).
Proof.
  induction proof as [|s proof IH]; intros p ho hn ro rn bo bn hs x; cbn [update_feed_all]; [set_solver|].
  unfold update_feed. cbn [old_verifier new_verifier].
  destruct (inclusion_feed_history p ho ro bo hs s) as (b1 & h1 & E1 & Hh1). rewrite E1.
  destruct (inclusion_feed_history p hn rn bn h1 s) as (b2 & h2 & E2 & Hh2). rewrite E2.
  cbn [path_messages] in *. destruct (Nat.eqb_spec p 0) as [->|Hp]; intros Hx.
  - apply (IH 0%nat). rewrite Hh2, Hh1. set_solver.
  - apply IH. rewrite Hh2, Hh1. set_solver.
Qed.

(** ** Soundness relative to the messages hashed *)

Lemma root_from_collision_free leaves t p h proof :
  tree_ok leaves t -> Forall hash_ok leaves -> Forall hash_ok proof -> hash_ok h ->
  (p < 2 * length leaves - 1)%nat -> root_from p h proof = Some (at_ t 0) ->
  collision_free (path_messages p h proof ++ (node_message t <$> seq 0 (length leaves - 1))) ->
  h = at_ t p /\ proof = siblings p t p.
Proof.
  intros Ht Hf. revert p h; induction proof as [|s proof IH]; intros p h Hpr Hh Hp; cbn [root_from path_messages].
  { destruct (Nat.eqb_spec p 0) as [->|]; [|done]. by intros [= ->]. }
  destruct (Nat.eqb_spec p 0) as [->|Hne]; [done|]. intros Hr Hc. apply Forall_cons in Hpr as [Hs Hpr].
  pose proof (parent_lt p ltac:(lia)) as Hlt. set (x := step_message p h s) in *.
  replace (if Nat.even p then node s h else node h s) with (hash x) in Hr
    by (subst x; unfold step_message; by destruct (Nat.even p)).
  assert (parent p < length leaves - 1)%nat as Hq by (destruct (parent_cases p); lia).
  destruct (IH (parent p) (hash x)) as [Hm Hpf]; [done|apply hash_length|lia|done|..].
  { eapply collision_free_sub; [|exact Hc]. set_solver. }
  assert (x = node_message t (parent p)) as Em.
  { apply Hc; [left|apply elem_of_app; right; apply list_elem_of_fmap; exists (parent p); split; [done|apply elem_of_seq; lia]|].
    rewrite Hm. by rewrite (tk_nodes _ _ Ht _ Hq). }
  pose proof (tree_hash_ok _ _ (2 * parent p + 1)%nat Ht Hf ltac:(lia)) as Hc1.
  pose proof (tree_hash_ok _ _ (2 * parent p + 2)%nat Ht Hf ltac:(lia)) as Hc2.
  assert (siblings p t p = at_ t (sibling p) :: siblings (parent p) t (parent p)) as Es.
  { destruct p as [|p']; [lia|]. cbn [siblings]. rewrite (proj2 (Nat.ltb_lt _ _)) by lia. f_equal.
    apply siblings_fuel; lia. }
  rewrite Es, Hpf. apply (f_equal tail) in Em. unfold x, step_message, node_message in Em. cbn [tail] in Em.
  cbv beta in Hs, Hh, Hc1, Hc2.
  destruct (parent_cases p) as [(Ep & Ee & Esb)|(Ep & Ee & Esb)]; [lia|..]; rewrite Ee in Em; rewrite Esb;
    apply app_inj_length in Em as [E1 E2]; try congruence; (split; [rewrite Ep|]; congruence).
Qed.

(** ** The messages of an updated accumulator *)

Lemma anc_dec a p : anc a p \/ ~ anc a p.
Proof.
  induction p as [p IH] using lt_wf_ind. destruct (decide (p = 0)%nat) as [->|Hp].
  { right. intros Ha. apply anc_le in Ha. lia. }
  destruct (decide (a = parent p)) as [->|Hne]; [left; apply anc_parent; lia|].
  destruct (IH (parent p)) as [Ha|Ha]; [apply parent_lt; lia|left; apply anc_step; [lia|done]|].
  right. intros Hc. inversion Hc; subst; done.
Qed.
Lemma anc_up a p : anc a p -> (0 < a)%nat -> anc (parent a) p.
Proof.
  induction 1 as [p Hp|a p Hp Ha IH]; intros Hgt; apply anc_step; auto. by apply anc_parent.
Qed.
Lemma parent_children j i : (j = 2 * i + 1 \/ j = 2 * i + 2)%nat -> parent j = i /\ (0 < j)%nat.
Proof. intros Hj. destruct (parent_cases j) as [(E & _)|(E & _)]; lia. Qed.

Lemma path_covers leaves t i p :
  tree_ok leaves t -> (p < 2 * length leaves - 1)%nat -> anc i p ->
  node_message t i ∈ path_messages p (at_ t p) (siblings p t p).
Proof.
  intros Ht Hp Ha. revert Hp. induction Ha as [p Hgt|i p Hgt Ha IH]; intros Hp.
  all: assert (siblings p t p = at_ t (sibling p) :: siblings (parent p) t (parent p)) as Es
    by (destruct p as [|p']; [lia|]; cbn [siblings]; rewrite (proj2 (Nat.ltb_lt _ _)) by lia;
        f_equal; apply siblings_fuel; pose proof (parent_lt (S p') ltac:(lia)); lia).
  all: assert (step_message p (at_ t p) (at_ t (sibling p)) = node_message t (parent p)) as Em
    by (unfold step_message, node_message; destruct (parent_cases p) as [(Ep & -> & ->)|(Ep & -> & ->)]; [lia|..];
        by rewrite <- Ep).
  all: rewrite Es; cbn [path_messages]; rewrite (proj2 (Nat.eqb_neq _ _)), Em by lia.
  - left.
  - right. pose proof (parent_lt p Hgt). replace (hash (node_message t (parent p))) with (at_ t (parent p)); [apply IH; lia|].
    apply (tk_nodes _ _ Ht). destruct (parent_cases p); lia.
Qed.

Lemma acc_update m i v :
  acc_ok m -> (i < length (data m))%nat ->
  let p := (length (data m) - 1 + i)%nat in
  exists m', data m' = <[i := v]> (data m) /\ acc_ok m' /\
    siblings p (tree m') p = siblings p (tree m) p /\
    acc_messages m' ⊆ (0 :: v) :: path_messages p (leaf v) (siblings p (tree m) p) ++ acc_messages m.
Proof.
  intros [Hv Ht] Hi p. destruct (update_tree _ _ i (leaf v) Ht) as (t' & _ & Ht' & Hfr); [by rewrite length_fmap|].
  rewrite length_fmap in Hfr. fold p in Hfr.
  assert (siblings p t' p = siblings p (tree m) p) as Hsib by by apply siblings_frame.
  exists (mkMerkleAccumulator (<[i := v]> (data m)) t'). split; [done|]. split; [|split; [done|]].
  { split; cbn; [by rewrite length_insert|]. by rewrite list_fmap_insert. }
  assert (at_ t' p = leaf v) as Hp.
  { pose proof (tk_leaves _ _ Ht' i) as Hl. rewrite length_insert, length_fmap in Hl. fold p in Hl.
    rewrite Hl by done. apply at_insert_eq. by rewrite length_fmap. }
  intros x [Hx|Hx]%elem_of_app; apply list_elem_of_fmap in Hx as (y & -> & Hy); cbn [data tree] in *.
  - rewrite length_insert in Hy. apply elem_of_seq in Hy. right. apply elem_of_app.
    destruct (anc_dec y p) as [Ha|Ha].
    + left. rewrite <- Hp, <- Hsib. eapply path_covers; [exact Ht'| |done].
      rewrite length_insert, length_fmap. lia.
    + right. replace (node_message t' y) with (node_message (tree m) y); [by apply node_message_in; lia|].
      unfold node_message.
      assert (forall j, (j = 2 * y + 1 \/ j = 2 * y + 2)%nat -> at_ (tree m) j = at_ t' j) as Hch.
      { intros j [Hj Hgt]%parent_children. symmetry. apply Hfr.
        - intros Hc. apply Ha. rewrite <- Hj. by apply anc_up.
        - intros ->. apply Ha. rewrite <- Hj. by apply anc_parent. }
      by rewrite !Hch by lia.
  - apply list_elem_of_lookup in Hy as [j Hj]. destruct (decide (i = j)) as [->|Hne].
    + rewrite list_lookup_insert_eq in Hj by done. injection Hj as ->. left.
    + rewrite list_lookup_insert_ne in Hj by done. right. apply elem_of_app. right. by eapply leaf_message_in.
Qed.

(** ** What an accepted proof shows, from any state of the hasher *)

Lemma begin_root_from root proof vh i n (hs : H) :
  index_ok i n ->
  verified (fst (inclusion_feed_all (begin_inclusion_proof root vh i n) hs proof)) =
    bool_decide (root_from (Z.to_nat n - 1 + Z.to_nat i) vh proof = Some root).
Proof.
  intros Hi. rewrite <- verify_inclusion_root_from by done. unfold verify_inclusion_proof.
  by rewrite (inclusion_feed_all_indep _ hs hasher_new).
Qed.
Lemma begin_history root proof vh i n (hs : H) :
  index_ok i n ->
  history (snd (inclusion_feed_all (begin_inclusion_proof root vh i n) hs proof)) =
    history hs ++ path_messages (Z.to_nat n - 1 + Z.to_nat i) vh proof.
Proof. intros Hi. unfold begin_inclusion_proof. rewrite (begin_pos _ _ Hi). apply inclusion_feed_all_history. Qed.

(** An accepted inclusion proof is the proof of the element at the index, when no two of
    the messages hashed collide. *)
Lemma verified_sound m i proof v (hs : H) root (L : list (list Z)) :
  acc_ok m -> index_ok (Z.of_nat i) (Z.of_nat (length (data m))) -> root = at_ (tree m) 0 ->
  Forall hash_ok proof ->
  verified (fst (inclusion_feed_all
    (begin_inclusion_proof root (leaf v) (Z.of_nat i) (Z.of_nat (length (data m)))) hs proof)) = true ->
  path_messages (length (data m) - 1 + i) (leaf v) proof ⊆ L -> 0 :: v ∈ L -> acc_messages m ⊆ L ->
  collision_free L ->
  data m !! i = Some v /\ proof = siblings (length (data m) - 1 + i) (tree m) (length (data m) - 1 + i).
Proof.
  intros [Hv Ht] Hi -> Hp. rewrite (begin_root_from _ _ _ _ _ hs Hi), !Nat2Z.id.
  intros Hr%bool_decide_eq_true Hpath Hin Hacc Hc. destruct Hi as [Hi _].
  destruct (root_from_collision_free _ _ (length (data m) - 1 + i) _ _ Ht (leaves_hash_ok _) Hp (hash_length (0 :: v))
    ltac:(rewrite length_fmap; lia) Hr) as [Hl Hs].
  { rewrite length_fmap. eapply collision_free_sub; [|exact Hc]. unfold acc_messages in Hacc. set_solver. }
  split; [|done]. destruct (lookup_lt_is_Some_2 (data m) i) as [d Hd]; [lia|]. rewrite Hd. f_equal.
  pose proof (tk_leaves _ _ Ht i) as Hl'. rewrite length_fmap in Hl'. rewrite Hl', (leaf_at _ _ _ Hd) in Hl by lia.
  enough (0 :: v = 0 :: d) by congruence. apply Hc; [done| |done]. by apply Hacc, (leaf_message_in _ i).
Qed.
End history.
