(* ===== verification/Concrete.v ===== *)
(** * Concrete primitives, to evaluate the definitions

    A hasher of 32 bytes with a record of what it hashed, and a device with a block
    cipher and an HMAC, all made of modular arithmetic. *)

From S2P Require Import Prelude Accumulator AccumulatorSpec Aes AesSpec Auth History.

Definition mix (d : list Z) : Z := fold_left (fun acc b => (acc * 257 + b + 1) mod (2 ^ 32 - 5)) d 7.
Definition hash256 (d : list Z) : HashOutput := be_bytes 32 (mix d).

Record Toy32 : Type := mkToy32 { toy32_data : list Z }.
#[export] Instance toy32_hasher : Hasher Toy32 := {
  hasher_new := mkToy32 [];
  hasher_update := fun h x => mkToy32 (toy32_data h ++ x);
  hasher_digest := fun h => hash256 (toy32_data h);
}.
#[export] Instance toy32_resettable : ResettableHasher Toy32 := {
  hasher_reset := fun _ => mkToy32 [];
  digest_inplace := fun h => (hash256 (toy32_data h), h);
}.
#[export, refine] Instance toy32_laws : HasherLaws Toy32 32 := {
  hash := hash256;
  absorbed := fun h d => toy32_data h = d;
}.
Proof.
  - intros d. apply length_be_bytes.
  - done.
  - by intros h d x <-.
  - by intros h d <-.
  - done.
  - by intros h d <-.
Defined.

#[export] Instance toy_device : Device Z := {
  cx_aes_enc_block := toy_block;
  hmac_sha256 := fun key msgs => Some (hash256 (key ++ concat msgs));
  auth_key := replicate 32 9;
}.
#[export] Instance toy_device_laws : DeviceLaws Z.
Proof.
  split; [apply toy_block_array|]. intros k block. apply Forall_map, Forall_forall. intros i _.
  apply wrap_range. lia.
Qed.

(** The messages of a list do not collide: decided by computing the hashes. *)
Definition no_collision_b (l : list (list Z)) : bool :=
  let hs := map (fun x => (mix x, x)) l in
  forallb (fun a => forallb (fun b => negb (fst a =? fst b) || bool_decide (snd a = snd b)) hs) hs.
Lemma hash256_mix x y : hash256 x = hash256 y -> mix x = mix y.
Proof.
  intros E. assert (forall z, 0 <= mix z < 2 ^ 256) as Hr.
  { intros z. unfold mix. assert (forall d a, 0 <= a < 2 ^ 256 ->
      0 <= fold_left (fun acc b => (acc * 257 + b + 1) mod (2 ^ 32 - 5)) d a < 2 ^ 256) as Hf.
    { induction d as [|b d IH]; intros a Ha; cbn [fold_left]; [done|]. apply IH.
      pose proof (Z.mod_pos_bound (a * 257 + b + 1) (2 ^ 32 - 5) ltac:(lia)). lia. }
    apply Hf. lia. }
  rewrite <- (be_value_bytes 32 (mix x)), <- (be_value_bytes 32 (mix y)) by apply Hr.
  f_equal. exact E.
Qed.
Lemma no_collision_free l : no_collision_b l = true -> collision_free (H:=Logged Toy32) l.
Proof.
  unfold no_collision_b. cbv zeta. intros Hl x y Hx Hy E. apply (hash256_mix x y) in E.
  assert (forall z, z ∈ l -> In (mix z, z) (map (fun x => (mix x, x)) l)) as Hin.
  { intros z Hz. apply (in_map (fun x => (mix x, x))). by apply list_elem_of_In. }
  rewrite forallb_forall in Hl. specialize (Hl _ (Hin x Hx)). rewrite forallb_forall in Hl.
  specialize (Hl _ (Hin y Hy)). cbn in Hl. rewrite E, Z.eqb_refl in Hl. by apply bool_decide_eq_true in Hl.
Qed.
