(* ===== verification/ClientMemory.v ===== *)
(** * The memory that the client keeps ([client-sdk/src/memory.rs])

    A segment of a V-App as a Merkle accumulator of serialized pages. The sizes of the
    client are 64-bit. *)

From S2P Require Import Prelude Memory Accumulator.

(** 1 byte for [is_encrypted], 12 bytes for the nonce, then the page. *)
Definition get_serialized_page (data : list Z) (nonce : option (list Z)) : list Z :=
  match nonce with
  | Some nonce => [1] ++ nonce
  | None => replicate 13 0
  end ++ data.

Inductive MemorySegmentError : Type :=
| PageNotFound_
| InvalidPageSize
| MemoryError_ (e : MemoryError)
| AccumulatorError_ (e : AccumulatorError).

(** [&data[from..to]]. *)
Definition range {E} (from to : Z) (data : list Z) : outcome E (list Z) :=
  if (from <=? to) && (to <=? Z.of_nat (length data))
  then Ok (slice (Z.to_nat from) (Z.to_nat (to - from)) data) else Panic.

(** The loop over the pages of [new]: a round ends at the next page boundary. *)
Fixpoint pages_loop (fuel : nat) (start end_ : Z) (data : list Z) (current_addr : Z)
    (pages : list (list Z)) : outcome MemorySegmentError (list (list Z)) :=
  if end_ <=? current_addr then Ok pages
  else
    match fuel with
    | O => Diverge
    | S fuel =>
        let page_start_addr := page_start current_addr in
        let page_end_addr := u32_add page_start_addr PAGE_SIZE in
        let content_end_addr := Z.min page_end_addr end_ in
        chunk ← range (u32_sub current_addr start) (u32_sub content_end_addr start) data;
        let page_content :=
          replicate (Z.to_nat (u32_sub current_addr page_start_addr)) 0 ++ chunk ++
          replicate (Z.to_nat (u32_sub page_end_addr content_end_addr)) 0 in
        pages_loop fuel start end_ data page_end_addr
          (pages ++ [get_serialized_page page_content None])
    end.

(** [usize::checked_next_power_of_two] of the client. *)
Definition usize_next_power_of_two (n : nat) : option nat :=
  let p := (2 ^ Nat.log2_up n)%nat in if Z.of_nat p <? 2 ^ 64 then Some p else None.

Section client_memory.
Context {H : Type} `{RH : ResettableHasher H}.

Record ClientSegment : Type := mkClientSegment { content : MerkleAccumulator }.

Definition acc_err {A} (o : outcome AccumulatorError A) : outcome MemorySegmentError A :=
  outcome_map_err AccumulatorError_ o.

Definition client_new (start : Z) (data : list Z) : outcome MemorySegmentError ClientSegment :=
  let end_ := u32_add start (w32 (Z.of_nat (length data))) in
  pages ← pages_loop (S (length data)) start end_ data start [];
  target_len ← unwrap (usize_next_power_of_two (length pages));
  let pages := pages ++ replicate (target_len - length pages) (get_serialized_page (replicate 256 0) None) in
  m ← acc_err (merkle_new (H:=H) 32 pages);
  Ok (mkClientSegment m).

Definition client_get_page (s : ClientSegment) (page_index : Z)
    : outcome MemorySegmentError (list Z * list HashOutput) :=
  c ← ok_or (merkle_get (content s) (Z.to_nat page_index)) PageNotFound_;
  proof ← acc_err (prove (content s) (Z.to_nat page_index));
  Ok (c, proof).

Definition client_store_page (page_index : Z) (c : list Z)
    : ST ClientSegment MemorySegmentError (list HashOutput * HashOutput) :=
  fun s =>
    if negb (Nat.eqb (length c) 269) then (Err InvalidPageSize, s)
    else
      match merkle_update (H:=H) (content s) (Z.to_nat page_index) c with
      | Ok (proof, root, m) => (Ok (proof, root), mkClientSegment m)
      | Err e => (Err (AccumulatorError_ e), s)
      | Panic => (Panic, s)
      | Diverge => (Diverge, s)
      end.

Definition get_content_root (s : ClientSegment) : outcome AccumulatorError HashOutput :=
  merkle_root (content s).
End client_memory.
