(* ===== verification/ClientMemorySpec.v ===== *)
(** * The memory of the client holds the pages of the segment

    [initial_page start data i] is the page that a memory holding [data] from the
    address [start] on, and zeros elsewhere, has at the page index [i]. *)

From S2P Require Import Prelude Memory MemorySpec Accumulator AccumulatorSpec Concrete ClientMemory.

Definition initial_byte (start : Z) (data : list Z) (a : Z) : Z :=
  if a <? start then 0 else nth (Z.to_nat (a - start)) data 0.
Definition initial_page (start : Z) (data : list Z) (i : nat) : Page :=
  map (fun j => initial_byte start data (page_start start + 256 * Z.of_nat i + Z.of_nat j)) (seq 0 256).
(** The number of the pages with a byte of the data. *)
Definition page_count (start len : Z) : Z :=
  if len =? 0 then 0 else (start + len - 1) / 256 - start / 256 + 1.

Lemma initial_byte_ok start data a : bytes_ok data -> is_u8 (initial_byte start data a).
Proof.
  intros Hd. unfold initial_byte. destruct (a <? start); [done|].
  destruct (nth_in_or_default (Z.to_nat (a - start)) data 0) as [Hi| ->]; [|done].
  rewrite Forall_forall in Hd. by apply Hd, list_elem_of_In.
Qed.
Lemma initial_page_ok start data i : bytes_ok data -> page_ok (initial_page start data i).
Proof.
  intros Hd. split; [done|]. apply Forall_map, Forall_forall. intros j _. by apply initial_byte_ok.
Qed.

(** A list between zeros. *)
Lemma padded_eq (a b n : nat) (l : list Z) (f : nat -> Z) :
  (a + length l + b = n)%nat ->
  (forall j, (j < n)%nat -> f j = if decide (a <= j < a + length l)%nat then nth (j - a) l 0 else 0) ->
  replicate a 0 ++ l ++ replicate b 0 = map f (seq 0 n).
Proof.
  intros Hn Hf. apply (list_eq_same_length _ _ n).
  - by rewrite length_map, length_seq.
  - rewrite !length_app, !length_replicate. lia.
  - intros j x y Hj Hx Hy. apply list_lookup_fmap_Some in Hy as (k & -> & [-> _]%lookup_seq).
    rewrite Nat.add_0_l, Hf by done. rewrite lookup_app in Hx.
    destruct (replicate a 0 !! j) eqn:Ea.
    { apply lookup_replicate in Ea as [-> Hlt]. rewrite decide_False by lia. by injection Hx. }
    apply lookup_replicate_None in Ea. rewrite length_replicate, lookup_app in Hx.
    destruct (l !! (j - a)%nat) eqn:El.
    { pose proof (lookup_lt_Some _ _ _ El). rewrite decide_True by lia. injection Hx as <-. by apply nth_lookup_Some with (d:=0) in El. }
    apply lookup_ge_None in El. rewrite decide_False by lia. by apply lookup_replicate in Hx as [-> _].
Qed.

Section loop.
Variables (start : Z) (data : list Z).
Let len := Z.of_nat (length data).
Hypothesis (Hs : 0 <= start) (Hend : start + len <= 2 ^ 32 - 256).

Lemma page_start_start : page_start start = 256 * (start / 256).
Proof. apply page_start_eq. lia. Qed.

Lemma page_count_bounds i : 0 <= i < page_count start len ->
  page_start start + 256 * i < start + len /\ (0 < i -> start < page_start start + 256 * i).
Proof.
  rewrite page_start_start. unfold page_count. destruct (Z.eqb_spec len 0); intros Hi; dlia.
Qed.
Lemma page_count_end : 0 < page_count start len -> start + len <= page_start start + 256 * page_count start len.
Proof. rewrite page_start_start. unfold page_count. destruct (Z.eqb_spec len 0); dlia. Qed.
Lemma page_count_nonneg : 0 <= page_count start len.
Proof. unfold page_count. destruct (Z.eqb_spec len 0); dlia. Qed.

Lemma nth_slice {A} from n (l : list A) j d : (j < n)%nat -> nth j (slice from n l) d = nth (from + j) l d.
Proof. intros Hj. rewrite !nth_lookup, lookup_slice, decide_True by done. done. Qed.

(** The page that a round builds. *)
Lemma round_page i : 0 <= Z.of_nat i < page_count start len ->
  let base := page_start start + 256 * Z.of_nat i in
  let cur := Z.max start base in
  let stop := Z.min (base + 256) (start + len) in
  replicate (Z.to_nat (cur - base)) 0 ++
    slice (Z.to_nat (cur - start)) (Z.to_nat (stop - start - (cur - start))) data ++
    replicate (Z.to_nat (base + 256 - stop)) 0 = initial_page start data i.
Proof.
  intros Hi base cur stop. pose proof (page_count_bounds _ Hi) as [Hb Hb0]. fold base in Hb, Hb0.
  pose proof (page_start_le start ltac:(lia)). pose proof page_start_start.
  assert (start < base + 256) by (unfold base; dlia).
  assert (length (slice (Z.to_nat (cur - start)) (Z.to_nat (stop - start - (cur - start))) data) =
    Z.to_nat (stop - cur)) as Hl by (rewrite length_slice; lia).
  apply padded_eq; [rewrite Hl; lia|]. intros j Hj. rewrite Hl. unfold initial_byte. fold base.
  destruct (Z.ltb_spec (base + Z.of_nat j) start); [rewrite decide_False by lia; done|].
  case_decide; [|apply nth_overflow; lia]. rewrite nth_slice by lia. f_equal. lia.
Qed.

Lemma pages_loop_spec fuel : forall i pages,
  Z.of_nat i <= page_count start len -> page_count start len - Z.of_nat i <= Z.of_nat fuel ->
  pages_loop fuel start (start + len) data (Z.max start (page_start start + 256 * Z.of_nat i)) pages =
    Ok (pages ++ map (fun i => get_serialized_page (initial_page start data i) None)
          (seq i (Z.to_nat (page_count start len) - i))).
Proof.
  induction fuel as [|fuel IH]; intros i pages Hi Hf; cbn [pages_loop].
  all: destruct (Z.eq_dec (Z.of_nat i) (page_count start len)) as [E|Hne].
  1,3: replace (Z.to_nat (page_count start len) - i)%nat with 0%nat by lia; rewrite app_nil_r;
    rewrite (proj2 (Z.leb_le _ _)); [done|].
  1,2: rewrite E; destruct (Z.eq_dec (page_count start len) 0) as [E0|Hpos];
    [|pose proof page_count_end; pose proof page_count_nonneg; lia].
  1,2: unfold page_count in E0; destruct (Z.eqb_spec len 0); [lia|dlia].
  - lia.
  - assert (0 <= Z.of_nat i < page_count start len) as Hi' by lia.
    pose proof (page_count_bounds _ Hi') as [Hb Hb0]. pose proof (round_page i Hi') as Hround. cbv zeta in Hround.
    set (base := page_start start + 256 * Z.of_nat i) in *. pose proof (page_start_le start ltac:(lia)).
    pose proof page_start_start as Eps. assert (start < base + 256) by (unfold base; dlia).
    assert (page_start (Z.max start base) = base) as Epage.
    { rewrite page_start_eq by lia. unfold base in *. rewrite Eps in *.
      destruct (Z.max_spec start (256 * (start / 256) + 256 * Z.of_nat i)) as [[? ->]|[? ->]]; dlia. }
    assert (0 < len) by (unfold page_count in Hi'; destruct (Z.eqb_spec len 0); lia).
    rewrite (proj2 (Z.leb_gt _ _)) by lia. rewrite Epage. unfold u32_add, u32_sub, PAGE_SIZE.
    rewrite (w32_small (base + 256)) by lia. rewrite !w32_small by lia.
    unfold range. rewrite (proj2 (Z.leb_le _ _)), (proj2 (Z.leb_le _ _)) by lia.
    cbn [andb mbind outcome_mbind outcome_bind]. rewrite Hround.
    replace (base + 256) with (Z.max start (page_start start + 256 * Z.of_nat (S i))) by (unfold base in *; lia).
    rewrite IH by lia. rewrite <- app_assoc. do 2 f_equal.
    replace (Z.to_nat (page_count start len) - i)%nat with (S (Z.to_nat (page_count start len) - S i)) by lia.
    done.
Qed.
End loop.

Lemma initial_page_after start data i :
  0 <= start -> start + Z.of_nat (length data) <= 2 ^ 32 - 256 ->
  page_count start (Z.of_nat (length data)) <= Z.of_nat i ->
  initial_page start data i = replicate 256 0.
Proof.
  intros Hs Hend Hi. apply (list_eq_same_length _ _ 256); [done..|]. intros j x y Hj Hx Hy.
  apply lookup_replicate in Hy as [-> _]. apply list_lookup_fmap_Some in Hx as (k & -> & [-> _]%lookup_seq).
  unfold initial_byte. destruct (Z.ltb_spec (page_start start + 256 * Z.of_nat i + Z.of_nat (0 + j)) start); [done|].
  apply nth_overflow. pose proof (page_start_le start ltac:(lia)).
  destruct (decide (page_count start (Z.of_nat (length data)) = 0)) as [E|Hne].
  - unfold page_count in E. destruct (Z.eqb_spec (Z.of_nat (length data)) 0); [lia|dlia].
  - pose proof (page_count_nonneg start data). pose proof (page_count_end start data Hs Hend). lia.
Qed.

Lemma map_seq_const {A} (f : nat -> A) x k n :
  (forall i, (n <= i)%nat -> f i = x) -> map f (seq n k) = replicate k x.
Proof. revert n; induction k as [|k IH]; intros n Hf; cbn; [done|]. rewrite Hf, IH; [done|auto with lia..]. Qed.

Section client.
Context {H : Type} `{HL : HasherLaws H 32}.

(** The pages of a new segment: a power of two of them. *)
Definition initial_size (start : Z) (data : list Z) : nat :=
  (2 ^ Nat.log2_up (Z.to_nat (page_count start (Z.of_nat (length data)))))%nat.
Definition initial_pages (start : Z) (data : list Z) : list Page :=
  map (initial_page start data) (seq 0 (initial_size start data)).

Lemma page_count_max start len : 0 <= start -> 0 <= len -> start + len <= 2 ^ 32 -> page_count start len <= 2 ^ 24.
Proof. intros. unfold page_count. destruct (Z.eqb_spec len 0); dlia. Qed.

Lemma initial_size_bounds start data : 0 <= start -> start + Z.of_nat (length data) <= 2 ^ 32 - 256 ->
  page_count start (Z.of_nat (length data)) <= Z.of_nat (initial_size start data) <= 2 ^ 24.
Proof.
  intros Hs He. pose proof (page_count_max start (Z.of_nat (length data)) Hs ltac:(lia) ltac:(lia)).
  pose proof (page_count_nonneg start data). unfold initial_size.
  set (n := Z.to_nat _). split.
  - assert (n <= 2 ^ Nat.log2_up n)%nat; [|lia]. destruct (Nat.le_gt_cases n 1).
    + pose proof (Nat.pow_nonzero 2 (Nat.log2_up n)). lia.
    + by apply Nat.log2_up_spec.
  - assert (Nat.log2_up n <= 24)%nat as Hle.
    { destruct (Nat.eq_dec n 0%nat) as [E|]; [rewrite E; cbn; lia|]. apply Nat.log2_up_le_pow2; [lia|].
      apply Nat2Z.inj_le. rewrite Nat2Z.inj_pow. change (Z.of_nat 2 ^ Z.of_nat 24) with (2 ^ 24). lia. }
    rewrite Nat2Z.inj_pow. apply Z.pow_le_mono_r; lia.
Qed.

Lemma client_new_spec start data :
  0 <= start -> start + Z.of_nat (length data) <= 2 ^ 32 - 256 ->
  exists m, client_new (H:=H) start data = Ok (mkClientSegment m) /\ acc_ok m /\
    Accumulator.data m = map (fun p => get_serialized_page p None) (initial_pages start data).
Proof.
  intros Hs He. pose proof (page_count_nonneg start data). pose proof (page_start_le start ltac:(lia)).
  pose proof (initial_size_bounds start data Hs He) as [Hsz1 Hsz2]. unfold client_new, u32_add.
  rewrite (w32_small (Z.of_nat (length data))), w32_small by lia.
  pose proof (pages_loop_spec start data Hs He (S (length data)) 0 []) as El.
  replace (Z.max start (page_start start + 256 * Z.of_nat 0)) with start in El by lia.
  rewrite El; [|lia|]. 2: { unfold page_count. destruct (Z.eqb_spec (Z.of_nat (length data)) 0); dlia. }
  cbn [mbind outcome_mbind outcome_bind app]. rewrite length_map, length_seq, Nat.sub_0_r.
  unfold usize_next_power_of_two. fold (initial_size start data). rewrite (proj2 (Z.ltb_lt _ _)) by lia.
  cbn [unwrap mbind outcome_mbind outcome_bind]. set (n := Z.to_nat (page_count _ _)) in *.
  assert (map (fun i => get_serialized_page (initial_page start data i) None) (seq 0 n) ++
    replicate (initial_size start data - n) (get_serialized_page (replicate 256 0) None) =
    map (fun p => get_serialized_page p None) (initial_pages start data)) as ->.
  { unfold initial_pages. rewrite map_map.
    replace (initial_size start data) with (n + (initial_size start data - n))%nat at 2 by lia.
    rewrite seq_app, map_app. f_equal. symmetry. apply map_seq_const. intros i Hi.
    rewrite initial_page_after; [done|done|done|lia]. }
  destruct (merkle_new_spec (H:=H) (map (fun p => get_serialized_page p None) (initial_pages start data)))
    as (t & -> & Hok).
  { unfold initial_pages. rewrite !length_map, length_seq. apply valid_count. by eexists. }
  eexists. split; [done|]. split; [exact Hok|done].
Qed.
End client.

(** ** The property *)

Section property.
Context {H : Type} `{HL : HasherLaws H 32}.

(** The memory of the client: a new segment holds the pages of its data, with zeros
    around, for every index below the next power of two of their number, and refuses the
    others; it hands out a page with a proof that the root's verifier accepts; a stored page
    is the one handed out from then on, and comes with the proof of the update and the new
    root. *)
Theorem client_memory_correct start data :
  0 <= start -> start + Z.of_nat (length data) <= 2 ^ 32 - 256 ->
  let size := Z.of_nat (initial_size start data) in
  exists seg root, client_new (H:=H) start data = Ok seg /\ get_content_root seg = Ok root /\
    (forall i, size <= i -> client_get_page seg i = Err PageNotFound_) /\
    forall i, 0 <= i < size ->
      let page := get_serialized_page (initial_page start data (Z.to_nat i)) None in
      (exists proof, client_get_page seg i = Ok (page, proof) /\
         verify_inclusion_proof (H:=H) root proof (hash_element (H:=H) page) i size = true) /\
      forall c, length c = 269%nat ->
        exists proof root' seg', client_store_page (H:=H) i c seg = (Ok (proof, root'), seg') /\
          verify_update_proof (H:=H) root root' proof (hash_element (H:=H) page) (hash_element (H:=H) c) i size = true /\
          get_content_root seg' = Ok root' /\ client_get_page seg' i = Ok (c, proof).
Proof.
  intros Hs He size. destruct (client_new_spec (H:=H) start data Hs He) as (m & Hnew & Hok & Hd).
  pose proof (initial_size_bounds start data Hs He) as [_ Hsz].
  assert (length (Accumulator.data m) = initial_size start data) as Hl.
  { rewrite Hd. unfold initial_pages. by rewrite !length_map, length_seq. }
  exists (mkClientSegment m), (at_ (tree m) 0). split; [done|]. split; [by apply acc_root|]. split.
  { intros i Hi. unfold client_get_page, merkle_get. cbn [content]. rewrite (proj2 (lookup_ge_None _ _)); [done|].
    rewrite Hl. unfold size in Hi. lia. }
  intros i Hi page. assert (Accumulator.data m !! Z.to_nat i = Some page) as Hpage.
  { rewrite Hd. unfold initial_pages. rewrite map_map, list_lookup_fmap, lookup_seq_lt by (unfold size in Hi; lia). done. }
  pose proof (lookup_lt_Some _ _ _ Hpage) as Hlt. assert (i = Z.of_nat (Z.to_nat i)) as Ei by lia.
  assert (size = Z.of_nat (length (Accumulator.data m))) as Es by (unfold size; by rewrite Hl).
  assert (Z.of_nat (length (Accumulator.data m)) <= 2 ^ 31) as Hmax by (rewrite <- Es; unfold size; lia).
  pose proof (prove_spec m (Z.to_nat i) Hok Hlt) as Hprove.
  pose proof (acc_complete m (Z.to_nat i) page Hok Hpage) as Hc. cbv zeta in Hc. set (proof := siblings _ _ _) in *.
  assert (verify_inclusion_proof (H:=H) (at_ (tree m) 0) proof (hash_element (H:=H) page) i size = true) as Hv.
  { rewrite Es, Ei. unfold hash_element. rewrite hash_leaf_eq, acc_verify by done. by apply bool_decide_eq_true. }
  split.
  { exists proof. split; [|done]. unfold client_get_page, merkle_get. cbn [content]. by rewrite Hpage, Hprove. }
  intros c Hcl. destruct (merkle_update_spec (H:=H) m (Z.to_nat i) c Hok Hlt) as (t' & E & Hok' & Hsib). cbv zeta in E, Hsib.
  exists proof, (at_ t' 0), (mkClientSegment (mkMerkleAccumulator (<[Z.to_nat i := c]> (Accumulator.data m)) t')).
  split; [unfold client_store_page; rewrite Hcl; cbn [Nat.eqb negb content]; by rewrite E|].
  assert ((<[Z.to_nat i := c]> (Accumulator.data m)) !! Z.to_nat i = Some c) as Hci by by apply list_lookup_insert_eq.
  pose proof (acc_complete _ (Z.to_nat i) c Hok' Hci) as Hc'. cbv zeta in Hc'. cbn [Accumulator.data tree] in Hc'.
  rewrite length_insert, Hsib in Hc'. split.
  - rewrite verify_update_split, Hv, andb_true_r. rewrite Es, Ei. unfold hash_element. rewrite hash_leaf_eq.
    rewrite acc_verify by done. by apply bool_decide_eq_true.
  - split; [by apply acc_root|]. unfold client_get_page, merkle_get. cbn [content Accumulator.data]. rewrite Hci.
    cbn [ok_or mbind outcome_mbind outcome_bind]. rewrite prove_spec by (done || (cbn [Accumulator.data]; by rewrite length_insert)).
    cbn [Accumulator.data tree acc_err outcome_map_err mbind outcome_mbind outcome_bind]. by rewrite length_insert, Hsib.
Qed.
End property.

(** A segment of 300 bytes that starts inside a page. *)
Lemma client_memory_correct_witness : exists seg page proof,
  client_new (H:=Toy32) 4112 (map Z.of_nat (seq 0 250)) = Ok seg /\ client_get_page seg 1 = Ok (page, proof).
Proof.
  destruct (client_memory_correct (H:=Toy32) 4112 (map Z.of_nat (seq 0 250)) ltac:(lia) ltac:(vm_compute; discriminate))
    as (seg & root & Hnew & _ & _ & Hget).
  destruct (Hget 1 ltac:(vm_compute; split; [discriminate|reflexivity])) as [(proof & Hp & _) _].
  eexists seg, _, proof. split; [exact Hnew|exact Hp].
Defined.
