(* ===== verification/OutsourcedMem.v ===== *)
(** * Outsourced memory ([vm/src/handlers/lib/outsourced_mem.rs], [vm/src/io.rs])

    A cache of pages over a memory that the untrusted client keeps: a page is requested
    with [GetPage] and checked against the Merkle root (or, for code, against an HMAC),
    a modified page is encrypted and sent back with [CommitPage], and the root is
    replaced after the proof of the update is checked.

    The client is the list of the commands with which it answers, the next one first; a
    request with no answer left blocks the VM ([Diverge]). What the VM sends is
    recorded. The three memories of a V-App have the AES state in common, behind a reference
    cell ([share]); each has its own view of the channel, the requests that it makes. *)

From S2P Require Import Prelude Memory Accumulator ClientCommands Evict Aes Auth.

(** ** io.rs *)

(** The next command: not decodable, another instruction, or [Continue(p1, p2)] with its
    data. *)
Inductive Command : Type :=
| Undecodable
| OtherInstruction
| Continue (p1 p2 : Z) (data : list Z).
Record Comm : Type := mkComm { replies : list Command; sent : list (list Z) }.

Inductive InterruptError : Type := InvalidResponse | UnsupportedInstruction | WrongParameters.
Definition interrupt_error_str (e : InterruptError) : string :=
  match e with
  | InvalidResponse => "Invalid response"
  | UnsupportedInstruction => "INS not supported"
  | WrongParameters => "Wrong P1/P2"
  end.

(** Sends a response and reads the data of the command that answers it. *)
Definition interrupt (response : list Z) : ST Comm InterruptError (list Z) :=
  c ← get;
  match replies c with
  | [] => put (mkComm [] (sent c ++ [response]));; diverge
  | command :: rest =>
      put (mkComm rest (sent c ++ [response]));;
      match command with
      | Undecodable => fail InvalidResponse
      | OtherInstruction => fail UnsupportedInstruction
      | Continue p1 p2 data =>
          if negb ((p1 =? 0) && (p2 =? 0)) then fail WrongParameters else mret data
      end
  end.

(** ** The state *)

Record CachedPage : Type := mkCachedPage {
  idx : Z;
  page : Page;
  page_hash : HashOutput;
  valid : bool;
  modified : bool;
}.
Definition cached_page_default : CachedPage :=
  mkCachedPage 0 (replicate 256 0) (replicate 32 0) false false.

Record OutsourcedMemory {H ES K : Type} : Type := mkOutsourced {
  comm : Comm;
  cached_pages : list CachedPage;
  n_pages : Z;
  merkle_root : HashOutput;
  aes_ctr : AesCtr K;
  hasher : H;
  is_readonly : bool;
  section_kind : SectionKind;
  eviction_strategy : ES;
  last_accessed_page : option (Z * nat);
  vapp_hash : list Z;
}.
Arguments OutsourcedMemory : clear implicits.

Section outsourced.
Context {H ES K : Type} `{RH : ResettableHasher H} `{EV : PageEvictionStrategy ES} `{DV : Device K}.
Abbreviation Mem := (OutsourcedMemory H ES K).
Implicit Type m : Mem.

Definition with_comm (c : Comm) m : Mem :=
  mkOutsourced _ _ _ c (cached_pages m) (n_pages m) (merkle_root m) (aes_ctr m) (hasher m)
    (is_readonly m) (section_kind m) (eviction_strategy m) (last_accessed_page m) (vapp_hash m).
Definition with_cached (c : list CachedPage) m : Mem :=
  mkOutsourced _ _ _ (comm m) c (n_pages m) (merkle_root m) (aes_ctr m) (hasher m)
    (is_readonly m) (section_kind m) (eviction_strategy m) (last_accessed_page m) (vapp_hash m).
Definition with_root (r : HashOutput) m : Mem :=
  mkOutsourced _ _ _ (comm m) (cached_pages m) (n_pages m) r (aes_ctr m) (hasher m)
    (is_readonly m) (section_kind m) (eviction_strategy m) (last_accessed_page m) (vapp_hash m).
Definition with_aes (a : AesCtr K) m : Mem :=
  mkOutsourced _ _ _ (comm m) (cached_pages m) (n_pages m) (merkle_root m) a (hasher m)
    (is_readonly m) (section_kind m) (eviction_strategy m) (last_accessed_page m) (vapp_hash m).
Definition with_hasher (h : H) m : Mem :=
  mkOutsourced _ _ _ (comm m) (cached_pages m) (n_pages m) (merkle_root m) (aes_ctr m) h
    (is_readonly m) (section_kind m) (eviction_strategy m) (last_accessed_page m) (vapp_hash m).
Definition with_eviction (e : ES) m : Mem :=
  mkOutsourced _ _ _ (comm m) (cached_pages m) (n_pages m) (merkle_root m) (aes_ctr m) (hasher m)
    (is_readonly m) (section_kind m) e (last_accessed_page m) (vapp_hash m).
Definition with_last (l : option (Z * nat)) m : Mem :=
  mkOutsourced _ _ _ (comm m) (cached_pages m) (n_pages m) (merkle_root m) (aes_ctr m) (hasher m)
    (is_readonly m) (section_kind m) (eviction_strategy m) l (vapp_hash m).

Definition outsourced_new (comm : Comm) (max_pages_in_cache : nat) (is_readonly : bool)
    (section_kind : SectionKind) (n_pages : Z) (merkle_root : HashOutput) (aes_ctr : AesCtr K)
    (eviction_strategy : ES) (vapp_hash : list Z) : Mem :=
  mkOutsourced _ _ _ comm (replicate max_pages_in_cache cached_page_default) n_pages merkle_root
    aes_ctr hasher_new is_readonly section_kind eviction_strategy None vapp_hash.

(** [usize::checked_next_power_of_two], for the 32-bit [usize]. *)
Definition checked_next_power_of_two (n : Z) : option Z :=
  let p := 2 ^ Z.log2_up n in if p <? 2 ^ 32 then Some p else None.
Definition n_pages_adjusted (n_pages : Z) : outcome MemoryError Z :=
  unwrap (checked_next_power_of_two n_pages).

(** The hash of a page as an element of the accumulator. *)
Definition get_page_hash (hasher : H) (data : list Z) (nonce : option (list Z)) : HashOutput * H :=
  let hasher := hasher_reset hasher in
  let hasher := hasher_update hasher [0] in
  let hasher := match nonce with
                | Some nonce => hasher_update (hasher_update hasher [1]) nonce
                | None => hasher_update hasher (replicate 13 0)
                end in
  let hasher := hasher_update hasher data in
  digest_inplace hasher.

(** The calls on the components of the memory. *)
Definition page_hash_of (data : list Z) (nonce : option (list Z)) : ST Mem MemoryError HashOutput :=
  m ← get;
  let '(h, hasher) := get_page_hash (hasher m) data nonce in
  put (with_hasher hasher m);;
  mret h.
Definition request (message : list Z) : ST Mem MemoryError (list Z) :=
  map_err (fun e => GenericError (interrupt_error_str e)) (zoom comm with_comm (interrupt message)).
Definition parse {A} (msg : string) (o : outcome MessageDeserializationError A) : ST Mem MemoryError A :=
  lift (outcome_map_err (fun _ => GenericError msg) o).
Definition check (b : bool) (msg : string) : ST Mem MemoryError unit :=
  lift (guard_err b (GenericError msg)).
Definition eviction {A} (op : ST ES Empty_set A) : ST Mem MemoryError A :=
  map_err (fun e : Empty_set => match e with end) (zoom eviction_strategy with_eviction op).
Definition cached_at (slot : nat) : ST Mem MemoryError CachedPage :=
  m ← get; lift (unwrap (cached_pages m !! slot)).
Definition set_cached (slot : nat) (c : CachedPage) : ST Mem MemoryError unit :=
  m ← get;
  if (slot <? length (cached_pages m))%nat then put (with_cached (<[slot := c]> (cached_pages m)) m)
  else panic.

Definition feed_inclusion (v : MerkleInclusionProofVerifier) (proof : list HashOutput)
    : ST Mem MemoryError MerkleInclusionProofVerifier :=
  m ← get;
  let '(v, hasher) := inclusion_feed_all v (hasher m) proof in
  put (with_hasher hasher m);;
  mret v.
Definition feed_update (v : MerkleUpdateProofVerifier) (proof : list HashOutput)
    : ST Mem MemoryError MerkleUpdateProofVerifier :=
  m ← get;
  let '(v, hasher) := update_feed_all v (hasher m) proof in
  put (with_hasher hasher m);;
  mret v.

(** ** Committing a page *)

(** [while n_processed_elements < n]: every round consumes an answer of the client, so
    the answers left bound the rounds. *)
Fixpoint commit_continue (fuel : nat) (verifier : MerkleUpdateProofVerifier)
    (n_processed_elements n : Z) : ST Mem MemoryError MerkleUpdateProofVerifier :=
  if n_processed_elements <? n then
    match fuel with
    | O => diverge
    | S fuel =>
        command ← request (serialize CommitPageProofContinuedMessage.new);
        continued_response ← parse "Invalid continued proof data"
          (CommitPageProofContinuedResponse.de command);
        let t := CommitPageProofContinuedResponse.t_ continued_response in
        let proof := CommitPageProofContinuedResponse.proof continued_response in
        check (negb (t =? Z.of_nat (length proof)))
          "Continued proof size does not match the expected number of elements";;
        verifier ← feed_update verifier proof;
        commit_continue fuel verifier (u32_add n_processed_elements t) n
    end
  else mret verifier.

Definition commit_page_at (index : nat) : ST Mem MemoryError unit :=
  cached_page ← cached_at index;
  lift (assert_or_panic (valid cached_page));;
  let page_hash_old := page_hash cached_page in
  '(nonce, payload) ← map_err (fun _ => GenericError "AES encryption failed")
    (zoom aes_ctr with_aes (encrypt cx_aes_enc_block (page cached_page)));
  new_page_hash ← page_hash_of payload (Some nonce);
  lift (assert_or_panic (Nat.eqb (length payload) 256));;
  m ← get;
  command ← request (serialize
    (CommitPageMessage.new (section_kind m) (idx cached_page) true nonce payload));
  proof_response ← parse "Invalid proof data" (CommitPageProofResponse.de command);
  let n := CommitPageProofResponse.n proof_response in
  let t := CommitPageProofResponse.t_ proof_response in
  let proof := CommitPageProofResponse.proof proof_response in
  check (n =? 0) "Proof must contain at least one element";;
  check (negb (t =? Z.of_nat (length proof)))
    "Proof fragment size does not match the expected number of elements";;
  let new_root := CommitPageProofResponse.new_root proof_response in
  m ← get;
  size ← lift (n_pages_adjusted (n_pages m));
  let verifier := begin_update_proof (merkle_root m) new_root page_hash_old new_page_hash
                    (idx cached_page) size in
  verifier ← feed_update verifier proof;
  m ← get;
  verifier ← commit_continue (S (length (replies (comm m)))) verifier t n;
  check (negb (update_verified verifier)) "Merkle update verification failed";;
  modify (with_root new_root).

(** ** Loading a page *)

Fixpoint load_continue (fuel : nat) (verifier : MerkleInclusionProofVerifier)
    (n_processed_elements n : Z) : ST Mem MemoryError MerkleInclusionProofVerifier :=
  if n_processed_elements <? n then
    match fuel with
    | O => diverge
    | S fuel =>
        command ← request (serialize GetPageProofContinuedMessage.new);
        continued_response ← parse "Invalid continued proof data"
          (GetPageProofContinuedResponse.de command);
        let t := GetPageProofContinuedResponse.t_ continued_response in
        let proof := GetPageProofContinuedResponse.proof continued_response in
        check (negb (t =? Z.of_nat (length proof)))
          "Continued proof size does not match the expected number of elements";;
        verifier ← feed_inclusion verifier proof;
        load_continue fuel verifier (u32_add n_processed_elements t) n
    end
  else mret verifier.

Definition load_merkle (page_index : Z) (page_response : GetPageResponse.t) (page_hash : HashOutput)
    : ST Mem MemoryError (Page * HashOutput) :=
  let n := GetPageResponse.n page_response in
  let t := GetPageResponse.t_ page_response in
  let proof := GetPageResponse.proof page_response in
  check (negb (t =? Z.of_nat (length proof)))
    "Proof fragment size does not match the expected number of elements";;
  m ← get;
  size ← lift (unwrap (checked_next_power_of_two (n_pages m)));
  let verifier := begin_inclusion_proof (merkle_root m) page_hash page_index size in
  verifier ← feed_inclusion verifier proof;
  m ← get;
  verifier ← load_continue (S (length (replies (comm m)))) verifier t n;
  check (negb (verified verifier)) "Merkle inclusion verification failed";;
  if GetPageResponse.is_encrypted page_response then
    m ← get;
    decrypted_data ← lift (outcome_map_err (fun _ => GenericError "AES decryption failed")
      (decrypt cx_aes_enc_block (aes_ctr m) (GetPageResponse.nonce page_response)
         (GetPageResponse.page_data page_response)));
    check (negb (Nat.eqb (length decrypted_data) 256)) "Decrypted page size mismatch";;
    mret (decrypted_data, page_hash)
  else mret (GetPageResponse.page_data page_response, page_hash).

Definition load_hmac (page_index : Z) (page_response : GetPageResponse.t) (page_hash : HashOutput)
    : ST Mem MemoryError (Page * HashOutput) :=
  check (GetPageResponse.is_encrypted page_response) "HMAC proof not allowed for encrypted pages";;
  check (negb (GetPageResponse.n page_response =? 1) || negb (GetPageResponse.t_ page_response =? 1))
    "HMAC proof must contain exactly one element";;
  check (negb (Nat.eqb (length (GetPageResponse.proof page_response)) 1))
    "HMAC proof must contain exactly one element";;
  hmac ← lift (unwrap (GetPageResponse.proof page_response !! 0%nat));
  m ← get;
  check (negb (bool_decide (section_kind m = Code))) "HMAC proof not allowed for non-code section";;
  let app_auth_key := get_vapp_auth_key (H:=H) (vapp_hash m) in
  expected_hmac ← lift (outcome_map_err (fun _ => GenericError "HMAC computation failed")
    (compute_code_page_hmac app_auth_key (vapp_hash m) page_index page_hash));
  check (negb (bool_decide (hmac = expected_hmac))) "HMAC verification failed";;
  mret (GetPageResponse.page_data page_response, page_hash).

Definition load_page (page_index : Z) : ST Mem MemoryError (Page * HashOutput) :=
  m ← get;
  command ← request (serialize (GetPageMessage.new (section_kind m) page_index));
  page_response ← parse "Invalid page data" (GetPageResponse.de command);
  page_hash ← page_hash_of (GetPageResponse.page_data page_response)
    (if GetPageResponse.is_encrypted page_response then Some (GetPageResponse.nonce page_response) else None);
  match GetPageResponse.proof_kind page_response with
  | Merkle => load_merkle page_index page_response page_hash
  | Hmac => load_hmac page_index page_response page_hash
  end.

(** ** The cache *)

(** A reference to a cached page is its slot. *)
Definition get_cached_page_ref (page_index : Z) (slot : nat) : ST Mem MemoryError nat :=
  modify (with_last (Some (page_index, slot)));;
  cached_at slot;;
  mret slot.

(** The two searches [for i in 0..self.cached_pages.len()], from [i]. *)
Fixpoint find_cached (page_index : Z) (i : nat) (cs : list CachedPage) : option nat :=
  match cs with
  | [] => None
  | c :: cs => if valid c && (idx c =? page_index) then Some i else find_cached page_index (S i) cs
  end.
Fixpoint find_free (i : nat) (cs : list CachedPage) : option nat :=
  match cs with
  | [] => None
  | c :: cs => if negb (valid c) then Some i else find_free (S i) cs
  end.

Definition evict : ST Mem MemoryError nat :=
  evict_index ← eviction choose_victim;
  m ← get;
  (* the second operand of the [&&] is not evaluated for a readonly memory *)
  (if negb (is_readonly m) then
     c ← cached_at evict_index;
     if modified c then commit_page_at evict_index else mret tt
   else mret tt);;
  c ← cached_at evict_index;
  set_cached evict_index (mkCachedPage (idx c) (page c) (page_hash c) false (modified c));;
  eviction (on_invalidate evict_index (idx c));;
  mret evict_index.

Definition search_page (page_index : Z) : ST Mem MemoryError nat :=
  m ← get;
  match find_cached page_index 0 (cached_pages m) with
  | Some i =>
      eviction (on_access i page_index);;
      get_cached_page_ref page_index i
  | None =>
      slot ← (match find_free 0 (cached_pages m) with Some i => mret i | None => evict end);
      '(page_data, page_hash) ← load_page page_index;
      set_cached slot (mkCachedPage page_index page_data page_hash true false);;
      eviction (on_load slot page_index);;
      get_cached_page_ref page_index slot
  end.
Definition outsourced_get_page (page_index : Z) : ST Mem MemoryError nat :=
  m ← get;
  match last_accessed_page m with
  | Some (last_page_index, last_slot) =>
      if page_index =? last_page_index then get_cached_page_ref page_index last_slot
      else search_page page_index
  | None => search_page page_index
  end.

#[export] Instance OutsourcedMemory_paged : PagedMemory Mem := {
  PageRef := nat;
  get_page := outsourced_get_page;
  deref := fun m slot => default [] (page <$> cached_pages m !! slot);
  (* [deref_mut] marks the page as modified *)
  deref_mut := fun m slot f =>
    with_cached (alter (fun c => mkCachedPage (idx c) (f (page c)) (page_hash c) (valid c) true) slot
                   (cached_pages m)) m;
  (* the AES state, behind a reference cell *)
  share := fun m m' => with_aes (aes_ctr m) m';
}.
End outsourced.
