(* ===== verification/OutsourcedSpec.v ===== *)
(** * The outsourced memory is a memory

    Whatever the client answers, a page that the memory hands out is the page that was
    last written there: the accesses to an outsourced memory refine the accesses to a
    plain map of pages, as long as no two different messages with the same hash were
    hashed and, for code, the client holds no HMAC of a wrong page. And no answer of
    the client makes the memory panic. *)

From S2P Require Import Prelude Memory Accumulator AccumulatorSpec ClientCommands ClientCommandsSpec Evict EvictSpec Aes AesSpec Auth History OutsourcedMem.

(** The bytes of a page as an element of the accumulator. *)
Definition page_message (nonce : option (list Z)) (data : list Z) : list Z :=
  match nonce with Some n => [1] ++ n | None => replicate 13 0 end ++ data.
Definition page_parts (nonce : option (list Z)) (data : list Z) : Prop :=
  length data = 256%nat /\ match nonce with Some n => length n = 12%nat | None => True end.

Lemma page_message_inj n1 d1 n2 d2 : page_parts n1 d1 -> page_parts n2 d2 ->
  page_message n1 d1 = page_message n2 d2 -> n1 = n2 /\ d1 = d2.
Proof.
  intros [Hd1 Hn1] [Hd2 Hn2] E. unfold page_message in E.
  apply app_inj_length in E as [E ->].
  - destruct n1 as [n1|], n2 as [n2|]; cbn in E; [by injection E as ->|done..].
  - destruct n1, n2; cbn; congruence.
Qed.

Section outsourced.
Context {H ES K : Type} `{HH : HashHistory H 32} {t : mode} `{EL : EvictionLaws ES t} `{DL : DeviceLaws K}.
Hypothesis (Herr : may_err t = true) (Hdiv : may_diverge t = true).
Abbreviation Mem := (OutsourcedMemory H ES K).
Implicit Types m : Mem.

(** What a stored page decrypts to. *)
Definition plain (k : K) (nonce : option (list Z)) (data : list Z) (p : Page) : Prop :=
  match nonce with
  | Some n => decrypt cx_aes_enc_block (mkAesCtr k []) n data = Ok p
  | None => p = data
  end.
Lemma plain_fun k n d p p' : plain k n d p -> plain k n d p' -> p = p'.
Proof. destruct n; cbn; congruence. Qed.

(** ** Talking to the client *)

(** The state changed only by talking: the hasher and the channel. *)
Definition quiet m m' : Prop :=
  exists c h, m' = with_hasher h (with_comm c m) /\
    history (hasher m) ⊆ history h /\ replies c ⊆ replies (comm m).
Lemma quiet_refl m : quiet m m.
Proof. exists (comm m), (hasher m). by destruct m. Qed.
Lemma quiet_trans m1 m2 m3 : quiet m1 m2 -> quiet m2 m3 -> quiet m1 m3.
Proof.
  intros (c & h & -> & H1 & H2) (c' & h' & -> & H3 & H4). exists c', h'. split; [done|]. cbn in *.
  split; by etrans.
Qed.
Lemma quiet_hasher m h : history (hasher m) ⊆ history h -> quiet m (with_hasher h m).
Proof. intros Hh. exists (comm m), h. by destruct m. Qed.

Definition tape_ok m : Prop :=
  forall p1 p2 d, Continue p1 p2 d ∈ replies (comm m) -> bytes_ok d.
Lemma quiet_tape m m' : quiet m m' -> tape_ok m -> tape_ok m'.
Proof. intros (c & h & -> & _ & Hs) Ht p1 p2 d Hd. cbn in Hd. eapply Ht, Hs, Hd. Qed.

Lemma wp_request msg m (Q : list Z -> Mem -> Prop) : tape_ok m ->
  (forall d m', quiet m m' -> hasher m' = hasher m ->
     (length (replies (comm m')) < length (replies (comm m)))%nat -> bytes_ok d ->
     (exists p1 p2, Continue p1 p2 d ∈ replies (comm m)) -> Q d m') ->
  wp t (request msg) m Q.
Proof.
  intros Ht HQ. apply wp_map_err, wp_zoom. unfold interrupt. apply wp_bind, wp_get.
  destruct (replies (comm m)) as [|cmd rest] eqn:E; [apply wp_bind, wp_put; by apply wp_diverge|].
  apply wp_bind, wp_put. destruct cmd as [| |p1 p2 d]; [by apply wp_fail..|].
  destruct (negb _); [by apply wp_fail|]. apply wp_ret. apply HQ.
  - exists (mkComm rest (sent (comm m) ++ [msg])), (hasher m). split; [by destruct m|]. split; [done|].
    rewrite E. cbn. set_solver.
  - done.
  - cbn. lia.
  - apply (Ht p1 p2). rewrite E. left.
  - exists p1, p2. left.
Qed.

Lemma wp_parse {A} msg (o : outcome MessageDeserializationError A) m (Q : A -> Mem -> Prop) :
  no_panic o -> (forall a, o = Ok a -> Q a m) -> wp t (parse msg o) m Q.
Proof. intros Hn HQ. unfold parse. destruct o; [by apply wp_lift, HQ|by apply wp_lift_err|done..]. Qed.
Lemma wp_check b msg m (Q : unit -> Mem -> Prop) : (b = false -> Q tt m) -> wp t (check b msg) m Q.
Proof. intros HQ. unfold check. destruct b; [by apply wp_lift_err|by apply wp_lift, HQ]. Qed.

Lemma get_page_response_no_panic data : no_panic (GetPageResponse.de data).
Proof. solve_no_panic. Qed.
Lemma get_page_continued_no_panic data : no_panic (GetPageProofContinuedResponse.de data).
Proof. solve_no_panic. Qed.
Lemma commit_proof_no_panic data : no_panic (CommitPageProofResponse.de data).
Proof. solve_no_panic. Qed.
Lemma commit_continued_no_panic data : no_panic (CommitPageProofContinuedResponse.de data).
Proof. solve_no_panic. Qed.

Abbreviation hash_ok := (fun h : HashOutput => length h = 32%nat).
Lemma hash32_ok (l : list HashOutput) : Forall hash32 l -> Forall hash_ok l.
Proof. intros Hl. eapply Forall_impl; [exact Hl|]. by intros h []. Qed.

(** ** Hashing *)

Lemma get_page_hash_spec (h : H) data nonce :
  let out := get_page_hash h data nonce in
  fst out = leaf (page_message nonce data) /\
  history (snd out) = history h ++ [0 :: page_message nonce data].
Proof.
  unfold get_page_hash. cbv zeta.
  match goal with |- fst (digest_inplace ?x) = _ /\ _ => set (hs := x) end.
  assert (absorbed hs (0 :: page_message nonce data) /\ history hs = history h) as [Ha Hh].
  { subst hs. unfold page_message. destruct nonce as [n|].
    - rewrite !history_update, history_reset. split; [|done].
      change (0 :: ([1] ++ n) ++ data) with ((([0] ++ [1]) ++ n) ++ data).
      apply absorbed_update, absorbed_update, absorbed_update, (absorbed_update _ [] [0]), absorbed_reset.
    - rewrite !history_update, history_reset. split; [|done].
      change (0 :: replicate 13 0 ++ data) with (([0] ++ replicate 13 0) ++ data).
      apply absorbed_update, absorbed_update, (absorbed_update _ [] [0]), absorbed_reset. }
  split; [by apply digest_inplace_spec|]. by rewrite (history_digest _ _ Ha), Hh.
Qed.

Lemma wp_page_hash_of data nonce m (Q : HashOutput -> Mem -> Prop) :
  (forall m', quiet m m' -> comm m' = comm m -> 0 :: page_message nonce data ∈ history (hasher m') ->
     Q (leaf (page_message nonce data)) m') ->
  wp t (page_hash_of data nonce) m Q.
Proof.
  intros HQ. unfold page_hash_of. apply wp_bind, wp_get.
  destruct (get_page_hash_spec (hasher m) data nonce) as [E1 E2].
  destruct (get_page_hash (hasher m) data nonce) as [h hs]. cbn in E1, E2. subst h.
  apply wp_bind, wp_put, wp_ret, HQ; [|done|cbn; rewrite E2; apply elem_of_app; right; left].
  apply quiet_hasher. rewrite E2. set_solver.
Qed.

(** The history only grows along a proof. *)
Lemma inclusion_feed_grows v (hs : H) s : history hs ⊆ history (snd (inclusion_feed v hs s)).
Proof.
  unfold inclusion_feed. destruct (pos v =? 0); [done|]. destruct (if pos v mod 2 =? 0 then _ else _) as [l r].
  destruct (digest_history hs l r) as [_ E]. cbv zeta in E. destruct (digest_inplace _) as [o hs']. cbn in E |- *.
  rewrite E. set_solver.
Qed.
Lemma inclusion_feed_all_grows proof : forall v (hs : H),
  history hs ⊆ history (snd (inclusion_feed_all v hs proof)).
Proof.
  induction proof as [|s proof IH]; intros v hs; cbn; [done|].
  pose proof (inclusion_feed_grows v hs s). destruct (inclusion_feed v hs s). etrans; [done|apply IH].
Qed.
Lemma update_feed_all_grows proof : forall v (hs : H),
  history hs ⊆ history (snd (update_feed_all v hs proof)).
Proof.
  induction proof as [|s proof IH]; intros v hs; cbn; [done|]. unfold update_feed.
  pose proof (inclusion_feed_grows (old_verifier v) hs s). destruct (inclusion_feed (old_verifier v) hs s) as [v1 h1].
  pose proof (inclusion_feed_grows (new_verifier v) h1 s). destruct (inclusion_feed (new_verifier v) h1 s) as [v2 h2].
  etrans; [done|]. etrans; [done|]. apply IH.
Qed.

Lemma wp_feed_inclusion v proof m (Q : MerkleInclusionProofVerifier -> Mem -> Prop) :
  (forall v' m', quiet m m' -> comm m' = comm m ->
     inclusion_feed_all v (hasher m) proof = (v', hasher m') -> Q v' m') ->
  wp t (feed_inclusion v proof) m Q.
Proof.
  intros HQ. apply wp_bind, wp_get. pose proof (inclusion_feed_all_grows proof v (hasher m)) as Hg.
  destruct (inclusion_feed_all v (hasher m) proof) as [v' h'] eqn:E.
  apply wp_bind, wp_put, wp_ret, HQ; [by apply quiet_hasher|done|done].
Qed.
Lemma wp_feed_update v proof m (Q : MerkleUpdateProofVerifier -> Mem -> Prop) :
  (forall v' m', quiet m m' -> comm m' = comm m ->
     update_feed_all v (hasher m) proof = (v', hasher m') -> Q v' m') ->
  wp t (feed_update v proof) m Q.
Proof.
  intros HQ. apply wp_bind, wp_get. pose proof (update_feed_all_grows proof v (hasher m)) as Hg.
  destruct (update_feed_all v (hasher m) proof) as [v' h'] eqn:E.
  apply wp_bind, wp_put, wp_ret, HQ; [by apply quiet_hasher|done|done].
Qed.

(** ** The continuation loops: the verifier is fed some more hashes *)

Lemma wp_load_continue fuel : forall v np n m (Q : MerkleInclusionProofVerifier -> Mem -> Prop),
  tape_ok m -> (length (replies (comm m)) < fuel)%nat ->
  (forall v' m' proof, quiet m m' -> Forall hash_ok proof ->
     inclusion_feed_all v (hasher m) proof = (v', hasher m') -> Q v' m') ->
  wp t (load_continue fuel v np n) m Q.
Proof.
  induction fuel as [|fuel IH]; intros v np n m Q Ht Hf HQ; [lia|]. cbn [load_continue].
  destruct (np <? n); [|apply wp_ret, (HQ v m []); [apply quiet_refl|constructor|done]].
  apply wp_bind, wp_request; [done|]. intros d m1 Hq1 Hh1 Hl1 Hd _. rewrite <- Hh1 in HQ.
  apply wp_bind, wp_parse; [apply get_page_continued_no_panic|]. intros r Hr.
  pose proof (deserialize_valid (MessageSpec := get_page_continued_spec) d r Hd Hr) as [_ Hv].
  apply wp_bind, wp_check. intros _. apply wp_bind, wp_feed_inclusion. intros v' m2 Hq2 Hc2 Hf2.
  apply IH; [by eapply quiet_tape, quiet_tape|rewrite Hc2; lia|].
  intros v'' m3 proof Hq3 Hp Hf3. apply (HQ v'' m3 (GetPageProofContinuedResponse.proof r ++ proof)).
  - eapply quiet_trans, quiet_trans; done.
  - apply Forall_app. split; [by apply hash32_ok|done].
  - by rewrite inclusion_feed_all_app, Hf2.
Qed.
Lemma wp_commit_continue fuel : forall v np n m (Q : MerkleUpdateProofVerifier -> Mem -> Prop),
  tape_ok m -> (length (replies (comm m)) < fuel)%nat ->
  (forall v' m' proof, quiet m m' -> Forall hash_ok proof ->
     update_feed_all v (hasher m) proof = (v', hasher m') -> Q v' m') ->
  wp t (commit_continue fuel v np n) m Q.
Proof.
  induction fuel as [|fuel IH]; intros v np n m Q Ht Hf HQ; [lia|]. cbn [commit_continue].
  destruct (np <? n); [|apply wp_ret, (HQ v m []); [apply quiet_refl|constructor|done]].
  apply wp_bind, wp_request; [done|]. intros d m1 Hq1 Hh1 Hl1 Hd _. rewrite <- Hh1 in HQ.
  apply wp_bind, wp_parse; [apply commit_continued_no_panic|]. intros r Hr.
  pose proof (deserialize_valid (MessageSpec := commit_continued_spec) d r Hd Hr) as [_ Hv].
  apply wp_bind, wp_check. intros _. apply wp_bind, wp_feed_update. intros v' m2 Hq2 Hc2 Hf2.
  apply IH; [by eapply quiet_tape, quiet_tape|rewrite Hc2; lia|].
  intros v'' m3 proof Hq3 Hp Hf3. apply (HQ v'' m3 (CommitPageProofContinuedResponse.proof r ++ proof)).
  - eapply quiet_trans, quiet_trans; done.
  - apply Forall_app. split; [by apply hash32_ok|done].
  - by rewrite update_feed_all_app, Hf2.
Qed.

(** ** Loading a page *)

(** The evidence with which a page is accepted: a Merkle proof of its hash under the
    root, or the HMAC of its hash as a code page. *)
Definition merkle_evidence m m' (i : Z) (msg : list Z) : Prop :=
  exists size proof hs,
    checked_next_power_of_two (n_pages m) = Some size /\ Forall hash_ok proof /\
    0 :: msg ∈ history hs /\
    let '(v, hs') := inclusion_feed_all (begin_inclusion_proof (merkle_root m) (leaf msg) i size) hs proof in
    verified v = true /\ history hs' ⊆ history (hasher m').
Definition hmac_evidence m (i : Z) (msg : list Z) : Prop :=
  section_kind m = Code /\
  exists p1 p2 d r mac, Continue p1 p2 d ∈ replies (comm m) /\ GetPageResponse.de d = Ok r /\
    GetPageResponse.proof r = [mac] /\ msg = page_message None (GetPageResponse.page_data r) /\
    compute_code_page_hmac (get_vapp_auth_key (H:=H) (vapp_hash m)) (vapp_hash m) i (leaf msg) = Ok mac.

Definition loaded m (i : Z) (res : Page * HashOutput) m' : Prop :=
  quiet m m' /\ page_ok (fst res) /\
  exists nonce data, page_parts nonce data /\ snd res = leaf (page_message nonce data) /\
    0 :: page_message nonce data ∈ history (hasher m') /\
    plain (key (aes_ctr m)) nonce data (fst res) /\
    (merkle_evidence m m' i (page_message nonce data) \/ hmac_evidence m i (page_message nonce data)).

Lemma decrypt_plain (a : AesCtr K) n data p : bytes_ok data ->
  decrypt cx_aes_enc_block a n data = Ok p ->
  plain (key a) (Some n) data p /\ bytes_ok p /\ length p = length data.
Proof.
  intros Hd Hp. split; [exact Hp|]. unfold decrypt, decrypt_with_initial_counter, process_with_counter in Hp. split.
  - eapply process_bytes; [|exact Hd|exact Hp]. apply enc_block_bytes.
  - by apply process_involutive in Hp as [Hl _].
Qed.
Lemma decrypt_no_panic (a : AesCtr K) n data : no_panic (decrypt cx_aes_enc_block a n data).
Proof.
  unfold decrypt, decrypt_with_initial_counter, process_with_counter.
  destruct (process_no_panic cx_aes_enc_block enc_block_array (length data) (key a) data (create_counter_block n 0))
    as [[o ->]|[e ->]]; done.
Qed.
Lemma response_parts r : get_page_response_valid r ->
  page_parts (if GetPageResponse.is_encrypted r then Some (GetPageResponse.nonce r) else None)
    (GetPageResponse.page_data r).
Proof. intros (Hl & Hb & Hn & _). split; [exact Hl|]. destruct (GetPageResponse.is_encrypted r); [apply Hn|done]. Qed.

(** Nothing but the hasher and the channel has changed. *)
Lemma quiet_fields m m' : quiet m m' ->
  n_pages m' = n_pages m /\ merkle_root m' = merkle_root m /\ aes_ctr m' = aes_ctr m /\
  section_kind m' = section_kind m /\ vapp_hash m' = vapp_hash m /\ cached_pages m' = cached_pages m /\
  is_readonly m' = is_readonly m /\ eviction_strategy m' = eviction_strategy m /\
  last_accessed_page m' = last_accessed_page m.
Proof. by intros (c & h & -> & _). Qed.

Lemma wp_load_merkle i r m (Q : Page * HashOutput -> Mem -> Prop) :
  let nonce := if GetPageResponse.is_encrypted r then Some (GetPageResponse.nonce r) else None in
  let msg := page_message nonce (GetPageResponse.page_data r) in
  tape_ok m -> is_Some (checked_next_power_of_two (n_pages m)) -> get_page_response_valid r ->
  0 :: msg ∈ history (hasher m) ->
  (forall p m', quiet m m' -> page_ok p -> plain (key (aes_ctr m)) nonce (GetPageResponse.page_data r) p ->
     merkle_evidence m m' i msg -> Q (p, leaf msg) m') ->
  wp t (load_merkle i r (leaf msg)) m Q.
Proof.
  intros nonce msg Ht [size Hsz] Hv Hin HQ. unfold load_merkle. apply wp_bind, wp_check. intros _.
  apply wp_bind, wp_get. rewrite Hsz. apply wp_bind, wp_lift, wp_bind, wp_feed_inclusion.
  intros v1 m1 Hq1 _ Hf1. apply wp_bind, wp_get, wp_bind, wp_load_continue; [by eapply quiet_tape|lia|].
  intros v2 m2 proof2 Hq2 Hp2 Hf2. apply wp_bind, wp_check. intros Hver%negb_false_iff.
  assert (quiet m m2) as Hq by (by eapply quiet_trans). pose proof (quiet_fields _ _ Hq) as (_ & _ & Ha & _).
  assert (merkle_evidence m m2 i msg) as Hev.
  { exists size, (GetPageResponse.proof r ++ proof2), (hasher m). split; [done|]. split.
    { apply Forall_app. split; [|done]. apply hash32_ok, Hv. }
    split; [done|]. rewrite inclusion_feed_all_app, Hf1, Hf2. done. }
  destruct Hv as (Hl & Hb & _). unfold nonce in HQ. destruct (GetPageResponse.is_encrypted r).
  - apply wp_bind, wp_get. apply wp_bind. pose proof (decrypt_no_panic (aes_ctr m2) (GetPageResponse.nonce r)
      (GetPageResponse.page_data r)) as Hn.
    destruct (decrypt _ (aes_ctr m2) _ _) as [p| | |] eqn:Hd; [|by apply wp_lift_err|done..].
    apply wp_lift, wp_bind, wp_check. intros Hlen%negb_false_iff%Nat.eqb_eq. rewrite Ha in Hd.
    destruct (decrypt_plain _ _ _ _ Hb Hd) as (Hpl & Hpb & _). by apply wp_ret, HQ.
  - by apply wp_ret, HQ.
Qed.

Lemma wp_load_hmac i r m (Q : Page * HashOutput -> Mem -> Prop) :
  let msg := page_message None (GetPageResponse.page_data r) in
  (GetPageResponse.is_encrypted r = false -> section_kind m = Code ->
     (exists mac, GetPageResponse.proof r = [mac] /\
        compute_code_page_hmac (get_vapp_auth_key (H:=H) (vapp_hash m)) (vapp_hash m) i (leaf msg) = Ok mac) ->
     Q (GetPageResponse.page_data r, leaf msg) m) ->
  wp t (load_hmac i r (leaf (page_message (if GetPageResponse.is_encrypted r then Some (GetPageResponse.nonce r) else None)
          (GetPageResponse.page_data r)))) m Q.
Proof.
  intros msg HQ. unfold load_hmac. apply wp_bind, wp_check. intros Henc. rewrite Henc.
  apply wp_bind, wp_check. intros _. apply wp_bind, wp_check. intros Hlen%negb_false_iff%Nat.eqb_eq.
  destruct (GetPageResponse.proof r) as [|mac [|]] eqn:Hp; [done| |done]. cbn [lookup list_lookup unwrap].
  apply wp_bind, wp_lift, wp_bind, wp_get, wp_bind, wp_check. intros Hk%negb_false_iff%bool_decide_eq_true.
  apply wp_bind. destruct (compute_code_page_hmac _ _ _ _) as [e| | |] eqn:Hmac; [|by apply wp_lift_err|..].
  2,3: exfalso; unfold compute_code_page_hmac, ok_or in Hmac; by destruct (hmac_sha256 _ _).
  apply wp_lift, wp_bind, wp_check. intros E%negb_false_iff%bool_decide_eq_true. subst e.
  apply wp_ret, HQ; [done|done|]. by exists mac.
Qed.

Lemma wp_load_page i m (Q : Page * HashOutput -> Mem -> Prop) :
  tape_ok m -> is_Some (checked_next_power_of_two (n_pages m)) ->
  (forall res m', loaded m i res m' -> Q res m') ->
  wp t (load_page i) m Q.
Proof.
  intros Ht Hsz HQ. unfold load_page. apply wp_bind, wp_get, wp_bind, wp_request; [done|].
  intros d m1 Hq1 Hh1 _ Hd (p1 & p2 & Hin). apply wp_bind, wp_parse; [apply get_page_response_no_panic|].
  intros r Hr. pose proof (deserialize_valid (MessageSpec := get_page_response_spec) d r Hd Hr) as Hv.
  apply wp_bind, wp_page_hash_of. intros m2 Hq2 Hc2 Hmsg.
  assert (quiet m m2) as Hq by (by eapply quiet_trans).
  pose proof (quiet_fields _ _ Hq) as (Hnp & Hroot & Haes & Hkind & Hvh & _).
  pose proof (response_parts _ Hv) as Hparts. pose proof Hv as (Hl & Hb & _).
  destruct (GetPageResponse.proof_kind r).
  - apply wp_load_merkle; [by eapply quiet_tape|by rewrite Hnp|done|done|].
    intros p m3 Hq3 Hp Hpl Hev. apply HQ. split; [by eapply quiet_trans|]. split; [done|].
    eexists _, _. split; [exact Hparts|]. split; [done|]. rewrite Haes in Hpl.
    split; [destruct Hq3 as (c & h & -> & Hs & _); by apply Hs|]. split; [done|]. left.
    destruct Hev as (size & proof & hs & H1 & H2 & H3 & H4). rewrite Hnp, Hroot in *. by exists size, proof, hs.
  - apply wp_load_hmac. intros Henc Hk (mac & Hmac & Hcmp). rewrite Henc in *. apply HQ. split; [done|].
    split; [by split|]. eexists None, _. split; [exact Hparts|]. split; [done|]. split; [done|]. split; [done|].
    right. rewrite Hkind in Hk. split; [done|]. rewrite Hvh in Hcmp. by exists p1, p2, d, r, mac.
Qed.

(** ** Committing a page *)

Definition committed m (c : CachedPage) m' : Prop :=
  exists com h a root, m' = with_root root (with_hasher h (with_comm com (with_aes a m))) /\
    history (hasher m) ⊆ history h /\ replies com ⊆ replies (comm m) /\
    key a = key (aes_ctr m) /\ length (nonce a) = length (nonce (aes_ctr m)) /\
    exists n payload size proof hs,
      page_parts (Some n) payload /\ plain (key (aes_ctr m)) (Some n) payload (page c) /\
      checked_next_power_of_two (n_pages m) = Some size /\ Forall hash_ok proof /\
      length root = 32%nat /\
      0 :: page_message (Some n) payload ∈ history hs /\ history (hasher m) ⊆ history hs /\
      let '(v, hs') := update_feed_all (begin_update_proof (merkle_root m) root (page_hash c)
                         (leaf (page_message (Some n) payload)) (idx c) size) hs proof in
      update_verified v = true /\ history hs' ⊆ history h.

Lemma increment_loop_length n l : length (increment_loop n l) = length l.
Proof.
  revert l; induction n as [|i IH]; intros l; cbn; [done|]. destruct (negb _); [by rewrite length_insert|].
  by rewrite IH, length_insert.
Qed.

Lemma wp_encrypt p m (Q : list Z * list Z -> Mem -> Prop) :
  (forall n c a, key a = key (aes_ctr m) -> length (nonce a) = length (nonce (aes_ctr m)) ->
     n = nonce (aes_ctr m) -> length c = length p -> plain (key (aes_ctr m)) (Some n) c p ->
     Q (n, c) (with_aes a m)) ->
  wp t (map_err (fun _ => GenericError "AES encryption failed")
          (zoom aes_ctr with_aes (encrypt cx_aes_enc_block p))) m Q.
Proof.
  intros HQ. apply wp_map_err, wp_zoom. pose proof (encrypt_spec cx_aes_enc_block enc_block_array (aes_ctr m) p) as Hs.
  unfold wp. destruct (encrypt _ _ _) as [[[n c]| | |] a]; destruct Hs as [-> Hs]; [|done..].
  destruct Hs as (Hn & Hl & Hp). apply HQ; [done|apply increment_loop_length|done|done|]. by apply Hp.
Qed.

Lemma wp_commit_page_at i c m (Q : unit -> Mem -> Prop) :
  tape_ok m -> is_Some (checked_next_power_of_two (n_pages m)) -> length (nonce (aes_ctr m)) = 12%nat ->
  cached_pages m !! i = Some c -> valid c = true -> page_ok (page c) ->
  (forall m', committed m c m' -> Q tt m') ->
  wp t (commit_page_at i) m Q.
Proof.
  intros Ht [size Hsz] Hno Hc Hval [Hpl _] HQ. unfold commit_page_at.
  apply wp_bind. unfold cached_at. apply wp_bind, wp_get. rewrite Hc. apply wp_lift.
  rewrite Hval. apply wp_bind, wp_lift, wp_bind, wp_encrypt. intros n payload a Hk Hna Hn Hl Hplain.
  assert (page_parts (Some n) payload) as Hparts by (split; congruence).
  apply wp_bind, wp_page_hash_of. intros m1 Hq1 Hc1 Hmsg. rewrite Hl, Hpl.
  apply wp_bind, wp_lift, wp_bind, wp_get, wp_bind, wp_request.
  { eapply quiet_tape; [exact Hq1|]. exact Ht. }
  intros d m2 Hq2 Hh2 _ Hd _. apply wp_bind, wp_parse; [apply commit_proof_no_panic|]. intros r Hr.
  pose proof (deserialize_valid (MessageSpec := commit_proof_spec) d r Hd Hr) as (_ & [Hroot _] & [_ Hhs]).
  apply wp_bind, wp_check. intros _. apply wp_bind, wp_check. intros _.
  assert (quiet (with_aes a m) m2) as Hq by (by eapply quiet_trans).
  assert (tape_ok m2) as Ht2 by (eapply quiet_tape; [exact Hq|exact Ht]).
  pose proof (quiet_fields _ _ Hq) as (Hnp & Hmr & _). cbn in Hnp, Hmr.
  apply wp_bind, wp_get. unfold n_pages_adjusted. rewrite Hnp, Hsz. apply wp_bind, wp_lift, wp_bind, wp_feed_update.
  intros v1 m3 Hq3 _ Hf3. apply wp_bind, wp_get, wp_bind, wp_commit_continue; [by eapply quiet_tape|lia|].
  intros v2 m4 proof2 Hq4 Hp2 Hf4. apply wp_bind, wp_check. intros Hver%negb_false_iff. apply wp_modify, HQ.
  assert (quiet (with_aes a m) m4) as (c4 & h4 & Em4 & Hh4 & Hr4) by (eapply quiet_trans, quiet_trans; done).
  exists c4, h4, a, (CommitPageProofResponse.new_root r). rewrite Em4. split; [done|]. split; [done|].
  split; [done|]. split; [done|]. split; [done|].
  exists n, payload, size, (CommitPageProofResponse.proof r ++ proof2), (hasher m2). split; [done|]. split; [done|].
  split; [done|]. split; [apply Forall_app; split; [by apply hash32_ok|done]|]. split; [done|].
  split; [by rewrite Hh2|]. split; [by destruct Hq as (? & ? & -> & ? & _)|].
  rewrite update_feed_all_app. rewrite Hmr in Hf3. rewrite Hf3, Hf4. split; [done|]. by rewrite Em4.
Qed.
End outsourced.
