(* ===== verification/OutsourcedRefine.v ===== *)
(** * The outsourced memory refines a map of pages

    [cache_ok] is the invariant of the cache itself with the [budget] of accesses that its
    strategy has left, [content I m v acc] relates a state
    to the map [v] of the pages it stands for and to the accumulator [acc] that the
    Merkle root commits to; [I] are the messages hashed to build the initial
    accumulator. *)

From S2P Require Import Prelude Memory Accumulator AccumulatorSpec ClientCommands ClientCommandsSpec Evict EvictSpec Aes AesSpec Auth History OutsourcedMem OutsourcedSpec.

Section refine.
Context {H ES K : Type} `{HH : HashHistory H 32} {t : mode} `{EL : EvictionLaws ES t} `{DL : DeviceLaws K}.
Hypothesis (Herr : may_err t = true) (Hdiv : may_diverge t = true).
Abbreviation Mem := (OutsourcedMemory H ES K).
Implicit Types m : Mem.
Abbreviation hash_ok := (fun h : HashOutput => length h = 32%nat).

(** ** Invariants *)

Definition cached m (s : nat) (c : CachedPage) : Prop := cached_pages m !! s = Some c /\ valid c = true.

Record cache_ok (b : budget) m : Prop := {
  co_tape : tape_ok m;
  co_size : is_Some (checked_next_power_of_two (n_pages m));
  co_nonce : length (nonce (aes_ctr m)) = 12%nat;
  co_pos : (0 < length (cached_pages m))%nat;
  co_pages : forall s c, cached_pages m !! s = Some c -> page_ok (page c);
  co_tracks : exists L, tracks (t:=t) b (eviction_strategy m) (length (cached_pages m)) L /\
    forall s, s ∈ L <-> exists c, cached m s c;
  co_last : forall i s, last_accessed_page m = Some (i, s) -> (s < length (cached_pages m))%nat;
}.

(** The client holds no code HMAC of an index with the hash of a page that is not the
    one there: none of its answers proves a wrong page. *)
Definition hmac_genuine m (stored : list (list Z)) : Prop :=
  forall p1 p2 d r mac i x,
    Continue p1 p2 d ∈ replies (comm m) -> GetPageResponse.de d = Ok r -> GetPageResponse.proof r = [mac] ->
    0 <= i -> stored !! Z.to_nat i = Some x ->
    let h := leaf (page_message None (GetPageResponse.page_data r)) in
    compute_code_page_hmac (get_vapp_auth_key (H:=H) (vapp_hash m)) (vapp_hash m) i h = Ok mac ->
    leaf x = h.

(** The page [p] is what the accumulator stores at [i]. *)
Definition stored m (acc : MerkleAccumulator) (i : Z) (p : Page) : Prop :=
  exists n d, page_parts n d /\ data acc !! Z.to_nat i = Some (page_message n d) /\
    plain (key (aes_ctr m)) n d p.

Record slot_ok m (v : gmap Z Page) (acc : MerkleAccumulator) (c : CachedPage) : Prop := {
  so_page : v !! idx c = Some (page c);
  so_hash : exists x, data acc !! Z.to_nat (idx c) = Some x /\ page_hash c = leaf x;
  so_clean : modified c = false -> stored m acc (idx c) (page c);
  so_readonly : is_readonly m = true -> modified c = false;
}.

Record content (I : list (list Z)) m (v : gmap Z Page) (acc : MerkleAccumulator) : Prop := {
  ct_acc : acc_ok acc;
  ct_size : checked_next_power_of_two (n_pages m) = Some (Z.of_nat (length (data acc)));
  ct_root : merkle_root m = at_ (tree acc) 0;
  ct_msgs : acc_messages acc ⊆ I ++ history (hasher m);
  ct_dom : forall i, is_Some (v !! i) -> 0 <= i < Z.of_nat (length (data acc));
  ct_pages : forall i p, v !! i = Some p -> page_ok p;
  ct_slots : forall s c, cached m s c -> slot_ok m v acc c;
  ct_unique : forall s s' c c', cached m s c -> cached m s' c' -> idx c = idx c' -> s = s';
  ct_stored : forall i p, v !! i = Some p -> (forall s c, cached m s c -> idx c <> i) -> stored m acc i p;
  ct_code : section_kind m = Code -> is_readonly m = true /\ hmac_genuine m (data acc);
}.
(** The fast path of [get_page] returns a slot that holds the page. *)
Definition last_ok m : Prop :=
  forall i s, last_accessed_page m = Some (i, s) -> exists c, cached m s c /\ idx c = i.

(** The memory stands for the pages [v]. *)
Definition stands_for (I : list (list Z)) m (v : gmap Z Page) : Prop :=
  last_ok m /\ exists acc, content I m v acc.

(** ** Arithmetic *)

Lemma next_power_bound n s : checked_next_power_of_two n = Some s -> s <= 2 ^ 31.
Proof.
  unfold checked_next_power_of_two. destruct (Z.ltb_spec (2 ^ Z.log2_up n) (2 ^ 32)) as [Hlt|]; [|done].
  intros [= <-]. apply Z.pow_le_mono_r; [lia|]. apply Z.pow_lt_mono_r_iff in Hlt; lia.
Qed.

Lemma content_index I m v acc i : content I m v acc -> is_Some (v !! i) ->
  AccumulatorSpec.index_ok i (Z.of_nat (length (data acc))) /\ (Z.to_nat i < length (data acc))%nat.
Proof.
  intros Hc Hi. pose proof (ct_dom _ _ _ _ Hc i Hi). pose proof (next_power_bound _ _ (ct_size _ _ _ _ Hc)).
  split; [split; [done|lia]|lia].
Qed.

(** ** A page that is loaded is the page stored *)

Lemma load_correct I m v acc i p res m' :
  content I m v acc -> v !! i = Some p -> (forall s c, cached m s c -> idx c <> i) ->
  loaded m i res m' -> collision_free (I ++ history (hasher m')) ->
  fst res = p /\ exists x, data acc !! Z.to_nat i = Some x /\ snd res = leaf x.
Proof.
  intros Hc Hv Hnc (Hq & Hp & n & d & Hparts & Hh & Hin & Hpl & Hev) Hcf.
  destruct (ct_stored _ _ _ _ Hc i p Hv Hnc) as (n0 & d0 & Hparts0 & Hx & Hpl0).
  destruct (content_index _ _ _ _ i Hc ltac:(by eexists)) as [Hi Hin'].
  assert (acc_messages acc ⊆ I ++ history (hasher m')) as Hacc.
  { destruct Hq as (c & h & -> & Hs & _). intros y [Hy|Hy]%(ct_msgs _ _ _ _ Hc)%elem_of_app; apply elem_of_app; [by left|right; by apply Hs]. }
  assert (page_message n0 d0 = page_message n d) as E.
  { destruct Hev as [(size & proof & hs & Hsz & Hpr & Hmsg & Hver)|(Hk & p1 & p2 & dd & r & mac & Htape & Hde & Hmac & Emsg & Hcmp)].
    - rewrite (ct_size _ _ _ _ Hc) in Hsz. injection Hsz as <-.
      pose proof (begin_history (merkle_root m) proof (leaf (page_message n d)) _ _ hs Hi) as Hhist.
      destruct (inclusion_feed_all _ hs proof) as [ver hs'] eqn:Ef. destruct Hver as [Hver Hsub]. cbn [snd] in Hhist.
      rewrite !Nat2Z.id in Hhist. assert (Z.of_nat (Z.to_nat i) = i) as Ei by (apply Z2Nat.id, Hi).
      destruct (verified_sound acc (Z.to_nat i) proof (page_message n d) hs (merkle_root m)
        (I ++ history (hasher m')) (ct_acc _ _ _ _ Hc)) as [Hd _]; rewrite ?Ei.
      + done.
      + apply (ct_root _ _ _ _ Hc).
      + done.
      + by rewrite Ef.
      + intros y Hy. apply elem_of_app. right. apply Hsub. rewrite Hhist. apply elem_of_app. by right.
      + apply elem_of_app. by right.
      + done.
      + done.
      + rewrite Hx in Hd. by injection Hd.
    - destruct (ct_code _ _ _ _ Hc Hk) as [_ Hg]. rewrite Emsg in *.
      pose proof (Hg _ _ _ _ _ i _ Htape Hde Hmac ltac:(apply Hi) Hx Hcmp) as Hl. cbv zeta in Hl.
      enough (0 :: page_message n0 d0 = 0 :: page_message None (GetPageResponse.page_data r)) by congruence.
      apply Hcf; [|apply elem_of_app; by right|exact Hl]. by apply Hacc, (leaf_message_in _ (Z.to_nat i)). }
  destruct (page_message_inj _ _ _ _ Hparts0 Hparts E) as [-> ->]. split; [by eapply plain_fun|].
  exists (page_message n d). by rewrite Hx.
Qed.
(** ** Evicting a page *)

Definition drop_slot (s : nat) (c : CachedPage) m : Mem :=
  with_cached (<[s := mkCachedPage (idx c) (page c) (page_hash c) false (modified c)]> (cached_pages m)) m.

Lemma cached_drop s c m s' c' : cached m s c -> cached (drop_slot s c m) s' c' <-> s' <> s /\ cached m s' c'.
Proof.
  intros [Hs _]. unfold cached, drop_slot. cbn. destruct (decide (s' = s)) as [->|Hne].
  - rewrite list_lookup_insert_eq by by eapply lookup_lt_Some. by split; [intros [[= <-] ?]|intros [? _]].
  - rewrite list_lookup_insert_ne by done. split; [done|by intros [_ ?]].
Qed.

(** The fields that the invariant reads. *)
Definition same_core m m' : Prop :=
  n_pages m' = n_pages m /\ key (aes_ctr m') = key (aes_ctr m) /\ is_readonly m' = is_readonly m /\
  section_kind m' = section_kind m /\ vapp_hash m' = vapp_hash m /\ replies (comm m') ⊆ replies (comm m).

Lemma stored_core m m' acc i p : same_core m m' -> stored m acc i p -> stored m' acc i p.
Proof. intros (_ & E & _) (n & d & H1 & H2 & H3). exists n, d. by rewrite E. Qed.
Lemma hmac_genuine_core m m' l : same_core m m' -> hmac_genuine m l -> hmac_genuine m' l.
Proof.
  intros (_ & _ & _ & _ & E & Hs) Hg p1 p2 d r mac i x Hin. rewrite E. exact (Hg _ _ _ _ _ i x (Hs _ Hin)).
Qed.
Lemma slot_ok_core m m' v acc c : same_core m m' -> slot_ok m v acc c -> slot_ok m' v acc c.
Proof.
  intros Hc [H1 H2 H3 H4]. split; [done|done|intros; eapply stored_core; eauto|].
  destruct Hc as (_ & _ & E & _). by rewrite E.
Qed.

Lemma content_frame I m m' v acc :
  content I m v acc -> same_core m m' -> merkle_root m' = merkle_root m ->
  cached_pages m' = cached_pages m -> history (hasher m) ⊆ history (hasher m') ->
  content I m' v acc.
Proof.
  intros [C1 C2 C3 C4 C5 C6 C7 C8 C9 C10] Hc Hr Hp Hh.
  assert (forall s c, cached m' s c -> cached m s c) as Hcd by (unfold cached; by rewrite Hp).
  split; try done.
  - destruct Hc as (-> & _). done.
  - by rewrite Hr.
  - intros y [Hy|Hy]%C4%elem_of_app; apply elem_of_app; [by left|right; by apply Hh].
  - intros s c Hs%Hcd. eapply slot_ok_core; eauto.
  - eauto.
  - intros i p Hi Hn. eapply stored_core; [done|]. apply C9; [done|]. intros s c Hs.
    apply (Hn s). unfold cached. by rewrite Hp.
  - pose proof Hc as (_ & _ & Ero & Ek & _ & _). rewrite Ek, Ero. intros Hk. destruct (C10 Hk). split; [done|].
    by eapply hmac_genuine_core.
Qed.

Lemma drop_core s c m : same_core m (drop_slot s c m).
Proof. by repeat split. Qed.

(** A clean page is dropped. *)
Lemma drop_clean I m v acc s c : content I m v acc -> cached m s c -> modified c = false ->
  content I (drop_slot s c m) v acc.
Proof.
  intros Hct Hs Hm. pose proof Hct as [C1 C2 C3 C4 C5 C6 C7 C8 C9 C10]. split; try done.
  - intros s' c' [_ Hs']%(cached_drop _ _ _ _ _ Hs). eapply slot_ok_core; [apply drop_core|]. by eapply C7.
  - intros s1 s2 c1 c2 [_ H1]%(cached_drop _ _ _ _ _ Hs) [_ H2]%(cached_drop _ _ _ _ _ Hs). by apply C8.
  - intros i p Hi Hn. eapply stored_core; [apply drop_core|]. destruct (decide (idx c = i)) as [<-|Hne].
    + pose proof (C7 _ _ Hs) as [S1 _ S3 _]. rewrite Hi in S1. injection S1 as ->. by apply S3.
    + apply C9; [done|]. intros s' c' Hs'. destruct (decide (s' = s)) as [->|Hss].
      * destruct Hs as [Hs _], Hs' as [Hs' _]. rewrite Hs in Hs'. by injection Hs' as <-.
      * apply (Hn s'). by apply cached_drop.
Qed.

(** ** Committing a page *)

(** What the verified update proof shows: the new root is the root of the accumulator
    with the new page in its place. *)
Lemma commit_accumulator I m v acc c m' : content I m v acc -> slot_ok m v acc c -> committed m c m' ->
  collision_free (I ++ history (hasher m')) ->
  exists acc' n d, acc_ok acc' /\ data acc' = <[Z.to_nat (idx c) := page_message (Some n) d]> (data acc) /\
    merkle_root m' = at_ (tree acc') 0 /\ acc_messages acc' ⊆ I ++ history (hasher m') /\
    page_parts (Some n) d /\ plain (key (aes_ctr m)) (Some n) d (page c).
Proof.
  intros Hc Hs (com & h & a & root & -> & Hh & Hrep & Hk & _ & n & d & size & proof & hs & Hparts & Hpl &
    Hsz & Hpr & _ & Hin & Hhs & Hver) Hcf. cbn in Hcf.
  rewrite (ct_size _ _ _ _ Hc) in Hsz. injection Hsz as <-.
  destruct (content_index _ _ _ _ (idx c) Hc ltac:(rewrite (so_page _ _ _ _ Hs); by eexists)) as [Hi Hi'].
  destruct (so_hash _ _ _ _ Hs) as (x & Hx & Eh). rewrite Eh in Hver.
  set (msg := page_message (Some n) d) in *. set (p := (length (data acc) - 1 + Z.to_nat (idx c))%nat).
  set (L := I ++ history h) in *. pose proof (ct_acc _ _ _ _ Hc) as Hok.
  assert (acc_messages acc ⊆ L) as Hacc 
    by (intros y [Hy|Hy]%(ct_msgs _ _ _ _ Hc)%elem_of_app; apply elem_of_app; [by left|right; by apply Hh]).
  unfold begin_update_proof in Hver.
  pose proof (update_feed_all_history proof p (leaf x) (leaf msg) (merkle_root m) root
    ((Z.of_nat (length (data acc)) =? 1) && bool_decide (leaf x = merkle_root m))
    ((Z.of_nat (length (data acc)) =? 1) && bool_decide (leaf msg = root)) hs) as Hgrow.
  assert (forall r y, begin_inclusion_proof r y (idx c) (Z.of_nat (length (data acc))) =
    mkInclusionVerifier y (Z.of_nat p) r ((Z.of_nat (length (data acc)) =? 1) && bool_decide (y = r))) as Eb.
  { intros r y. unfold begin_inclusion_proof. by rewrite (begin_pos _ _ Hi), Nat2Z.id. }
  rewrite <- !Eb in Hgrow.
  pose proof (update_feed_all_split (begin_inclusion_proof (merkle_root m) (leaf x) (idx c) (Z.of_nat (length (data acc))))
    (begin_inclusion_proof root (leaf msg) (idx c) (Z.of_nat (length (data acc)))) hs proof) as Hsplit.
  destruct (update_feed_all _ hs proof) as [ver hs'] eqn:Ef. cbn [fst snd] in Hsplit, Hgrow.
  destruct Hver as [Hver Hsub]. subst ver. unfold update_verified in Hver. cbn [old_verifier new_verifier] in Hver.
  apply andb_true_iff in Hver as [Hnew Hold].
  assert (path_messages p (leaf x) proof ⊆ L /\ path_messages p (leaf msg) proof ⊆ L) as [Hpo Hpn].
  { unfold L. split; intros y Hy; apply elem_of_app; right; apply Hsub, Hgrow; rewrite !elem_of_app; tauto. }
  assert (Z.of_nat (Z.to_nat (idx c)) = idx c) as Ei by (apply Z2Nat.id, Hi).
  destruct (verified_sound acc (Z.to_nat (idx c)) proof x hs (merkle_root m) L Hok) as [_ Hproof]; rewrite ?Ei.
  - done.
  - apply (ct_root _ _ _ _ Hc).
  - done.
  - done.
  - done.
  - by apply Hacc, (leaf_message_in _ (Z.to_nat (idx c))).
  - done.
  - done.
  - fold p in Hproof. rewrite (begin_root_from _ _ _ _ _ hs Hi), Nat2Z.id in Hnew. fold p in Hnew.
    apply bool_decide_eq_true in Hnew.
    destruct (acc_update acc (Z.to_nat (idx c)) msg Hok Hi') as (acc' & Hd & Hok' & Hsib & Hms). fold p in Hsib, Hms.
    exists acc', n, d. split; [done|]. split; [done|].
    assert (data acc' !! Z.to_nat (idx c) = Some msg) as Hl by (rewrite Hd; by apply list_lookup_insert_eq).
    pose proof (acc_complete acc' _ _ Hok' Hl) as Hcomp. cbv zeta in Hcomp. rewrite Hd, length_insert in Hcomp. fold p in Hcomp.
    rewrite Hsib, <- Hproof, Hnew in Hcomp. cbn. injection Hcomp as ->. split; [done|]. split; [|done].
    rewrite <- Hproof in Hms. etrans; [exact Hms|]. unfold L in *. intros y Hy.
    apply elem_of_cons in Hy as [->|[Hy|Hy]%elem_of_app]; [|by apply Hpn|by apply Hacc].
    apply elem_of_app. right. apply Hsub. apply Hgrow. apply elem_of_app. by left.
Qed.

Lemma stored_update m acc acc' i j x p :
  data acc' = <[Z.to_nat j := x]> (data acc) -> 0 <= i -> 0 <= j -> i <> j ->
  stored m acc i p -> stored m acc' i p.
Proof. intros E Hi Hj Hne (n & d & H1 & H2 & H3). exists n, d. rewrite E, list_lookup_insert_ne by lia. done. Qed.

(** The accumulator has the new page in its place, and its root is the root: the page can
    be dropped. *)
Lemma commit_content I I' m v acc acc' s c n d m' :
  content I m v acc -> cached m s c -> is_readonly m = false ->
  same_core m m' -> cached_pages m' = cached_pages m ->
  acc_ok acc' -> data acc' = <[Z.to_nat (idx c) := page_message (Some n) d]> (data acc) ->
  merkle_root m' = at_ (tree acc') 0 -> acc_messages acc' ⊆ I' ++ history (hasher m') ->
  page_parts (Some n) d -> plain (key (aes_ctr m)) (Some n) d (page c) ->
  content I' (drop_slot s c m') v acc'.
Proof.
  intros Hct Hs Hro Hcore0 Hcp A1 A2 A3 A4 A5 A6. pose proof Hct as [C1 C2 C3 C4 C5 C6 C7 C8 C9 C10].
  pose proof (C7 _ _ Hs) as Hslot. pose proof (C5 _ ltac:(eexists; apply (so_page _ _ _ _ Hslot))) as Hi.
  assert (same_core m (drop_slot s c m')) as Hcore by exact Hcore0.
  assert (forall s' c', cached (drop_slot s c m') s' c' <-> s' <> s /\ cached m s' c') as Hcd.
  { intros s' c'. rewrite (cached_drop s c m'); unfold cached; by rewrite Hcp. }
  assert (length (data acc') = length (data acc)) as El by (by rewrite A2, length_insert).
  assert (n_pages (drop_slot s c m') = n_pages m) as En by apply Hcore.
  assert (section_kind (drop_slot s c m') = section_kind m) as Ek by apply Hcore.
  split; try done.
  - by rewrite El, En.
  - intros i Hv. rewrite El. by apply C5.
  - intros s' c' [Hne Hs']%Hcd. pose proof (C7 _ _ Hs') as Hso. eapply slot_ok_core; [exact Hcore|].
    assert (idx c' <> idx c) as Hic by (intros E; by apply Hne, (C8 _ _ _ _ Hs' Hs)).
    destruct Hso as [S1 (x & Hx & Ex) S3 S4]. pose proof (C5 _ ltac:(by eexists)) as Hi'. split; [done| |intros; eapply stored_update; [exact A2|lia|lia|done|by apply S3]|done].
    exists x. rewrite A2, list_lookup_insert_ne by lia. done.
  - intros s1 s2 c1 c2 [_ H1]%Hcd [_ H2]%Hcd. by apply C8.
  - intros i p Hv Hn. eapply stored_core; [exact Hcore|]. destruct (decide (i = idx c)) as [->|Hne].
    + rewrite (so_page _ _ _ _ Hslot) in Hv. injection Hv as <-. exists (Some n), d. split; [done|]. split; [|done].
      rewrite A2. apply list_lookup_insert_eq. lia.
    + eapply stored_update; [exact A2|apply (C5 i); by eexists|lia|done|]. apply C9; [done|].
      intros s' c' Hs'. destruct (decide (s' = s)) as [->|Hss]; [|by apply (Hn s'), Hcd].
      destruct Hs as [Hs _], Hs' as [Hs' _]. rewrite Hs in Hs'. by injection Hs' as <-.
  - rewrite Ek. intros Hcode. destruct (C10 Hcode) as [E _]. congruence.
Qed.

(** A dirty page is committed, then dropped. *)
Lemma commit_correct I m v acc s c m' :
  content I m v acc -> cached m s c -> is_readonly m = false -> committed m c m' ->
  collision_free (I ++ history (hasher m')) ->
  exists acc', content I (drop_slot s c m') v acc'.
Proof.
  intros Hct Hs Hro Hcm Hcf.
  destruct (commit_accumulator _ _ _ _ _ _ Hct (ct_slots _ _ _ _ Hct _ _ Hs) Hcm Hcf)
    as (acc' & n & d & A1 & A2 & A3 & A4 & A5 & A6).
  exists acc'. destruct Hcm as (com & h & a & root & -> & Hh & Hrep & Hk & _).
  by eapply commit_content.
Qed.

(** ** The steps of a memory

    A step keeps the invariant of the cache, the record of what was hashed only grows,
    and the memory stands for the same pages. *)

Record kept (b : budget) m m' : Prop := {
  kept_cache : cache_ok b m';
  kept_history : history (hasher m) ⊆ history (hasher m');
  kept_size : length (cached_pages m') = length (cached_pages m) /\ is_readonly m' = is_readonly m /\
    last_accessed_page m' = last_accessed_page m;
  kept_key : key (aes_ctr m') = key (aes_ctr m);
  kept_content : forall I v acc, content I m v acc -> collision_free (I ++ history (hasher m')) ->
    exists acc', content I m' v acc';
}.

Lemma collision_free_grows I l l' : l ⊆ l' -> collision_free (I ++ l') -> collision_free (I ++ l).
Proof.
  intros Hs. apply collision_free_sub. intros y [Hy|Hy]%elem_of_app; apply elem_of_app; [by left|right; by apply Hs].
Qed.
Lemma kept_trans {b} m1 m2 m3 : kept b m1 m2 -> kept b m2 m3 -> kept b m1 m3.
Proof.
  intros [A1 A2 (A3 & A4 & A5) Ak A6] [B1 B2 (B3 & B4 & B5) Bk B6]. split; [done|by etrans|split_and!; congruence|congruence|].
  intros I v acc Hc Hcf. destruct (A6 I v acc Hc) as [acc' Hc']; [by eapply collision_free_grows|]. by eapply B6.
Qed.

Lemma cache_ok_frame {b} m m' : cache_ok b m ->
  tape_ok m' -> n_pages m' = n_pages m -> length (nonce (aes_ctr m')) = length (nonce (aes_ctr m)) ->
  cached_pages m' = cached_pages m -> eviction_strategy m' = eviction_strategy m ->
  last_accessed_page m' = last_accessed_page m -> cache_ok b m'.
Proof.
  intros [C1 C2 C3 C4 C5 C6 C7] Ht En Eno Ec Ee El. split; unfold cached; rewrite ?En, ?Eno, ?Ec, ?Ee, ?El; done.
Qed.

Lemma tape_sub m m' : replies (comm m') ⊆ replies (comm m) -> tape_ok m -> tape_ok m'.
Proof. intros Hs Ht p1 p2 d Hd. eapply Ht, Hs, Hd. Qed.

Lemma quiet_kept {b} m m' : quiet m m' -> cache_ok b m -> kept b m m'.
Proof.
  intros Hq Hc. pose proof (quiet_fields _ _ Hq) as (E1 & E2 & E3 & E4 & E5 & E6 & E7 & E8 & E9).
  pose proof Hq as (c & h & -> & Hh & Hr). split.
  - eapply cache_ok_frame; try done. eapply tape_sub; [exact Hr|]. apply Hc.
  - done.
  - done.
  - done.
  - intros I v acc Hct _. exists acc. eapply content_frame; [done|by repeat split|done..].
Qed.

Lemma committed_cache {b} m c m' : cache_ok b m -> committed m c m' -> cache_ok b m'.
Proof.
  intros Hc (com & h & a & root & -> & Hh & Hr & Hk & Hn & _). eapply cache_ok_frame; try done.
  eapply tape_sub; [exact Hr|]. apply Hc.
Qed.

Lemma wp_eviction {A} (op : ST ES Empty_set A) m (Q : A -> Mem -> Prop) :
  wp t op (eviction_strategy m) (fun a e => Q a (with_eviction e m)) -> wp t (eviction op) m Q.
Proof. intros HQ. by apply wp_map_err, wp_zoom. Qed.

(** The strategy is told of the change of a slot, and may spend of its budget. *)
Lemma cache_ok_slots {b b'} m m' :
  cache_ok b m -> tape_ok m' -> n_pages m' = n_pages m ->
  length (nonce (aes_ctr m')) = length (nonce (aes_ctr m)) ->
  length (cached_pages m') = length (cached_pages m) ->
  (forall s c, cached_pages m' !! s = Some c -> page_ok (page c)) ->
  (exists L, tracks (t:=t) b' (eviction_strategy m') (length (cached_pages m)) L /\
    forall s, s ∈ L <-> exists c, cached m' s c) ->
  last_accessed_page m' = last_accessed_page m -> cache_ok b' m'.
Proof.
  intros [C1 C2 C3 C4 C5 C6 C7] Ht En Eno Ec Hp Hl El. split; rewrite ?En, ?Eno, ?Ec, ?El; done.
Qed.

(** ** The searches *)

Lemma find_cached_spec i cs k :
  match find_cached i k cs with
  | Some s => exists j c, s = (k + j)%nat /\ cs !! j = Some c /\ valid c = true /\ idx c = i
  | None => forall j c, cs !! j = Some c -> valid c = true -> idx c <> i
  end.
Proof.
  revert k; induction cs as [|c cs IH]; intros k; cbn [find_cached]; [done|].
  destruct (valid c) eqn:Ev, (Z.eqb_spec (idx c) i) as [Ei|Ei]; cbn [andb].
  { exists 0%nat, c. rewrite Nat.add_0_r. done. }
  all: specialize (IH (S k)); destruct (find_cached i (S k) cs) as [s|];
    [destruct IH as (j & c' & -> & ?); exists (S j), c'; by rewrite Nat.add_succ_r|].
  all: intros [|j] c'; [by intros [= <-]; congruence|apply IH].
Qed.
Lemma find_cached_slot i m :
  match find_cached i 0 (cached_pages m) with
  | Some s => exists c, cached m s c /\ idx c = i
  | None => forall s c, cached m s c -> idx c <> i
  end.
Proof.
  pose proof (find_cached_spec i (cached_pages m) 0) as Hf. destruct (find_cached i 0 _) as [s|].
  - destruct Hf as (j & c & -> & Hj & Hv & Hi). by exists c.
  - intros s c [Hs Hv]. by eapply Hf.
Qed.
Lemma find_free_spec cs k :
  match find_free k cs with
  | Some s => exists j c, s = (k + j)%nat /\ cs !! j = Some c /\ valid c = false
  | None => forall j c, cs !! j = Some c -> valid c = true
  end.
Proof.
  revert k; induction cs as [|c cs IH]; intros k; cbn [find_free]; [done|].
  destruct (valid c) eqn:Ev; cbn [negb]; [|exists 0%nat, c; by rewrite Nat.add_0_r].
  specialize (IH (S k)); destruct (find_free (S k) cs) as [s|].
  - destruct IH as (j & c' & -> & ?); exists (S j), c'; by rewrite Nat.add_succ_r.
  - intros [|j] c'; [by intros [= <-]|apply IH].
Qed.

(** ** The cache *)

Lemma drop_slot_length s c m : length (cached_pages (drop_slot s c m)) = length (cached_pages m).
Proof. apply length_insert. Qed.
Lemma cached_lt m s c : cached m s c -> (s < length (cached_pages m))%nat.
Proof. intros [Hs _]. by eapply lookup_lt_Some. Qed.

(** A valid slot is dropped from the cache and from the strategy. *)
Lemma drop_cache {b} s c m e L : cache_ok b m -> cached m s c ->
  (forall i, i ∈ L <-> exists c, cached m i c) ->
  tracks (t:=t) b e (length (cached_pages m)) (L ∖ {[s]}) -> cache_ok b (with_eviction e (drop_slot s c m)).
Proof.
  intros Hc Hs HLs Ht. eapply cache_ok_slots; try done.
  - apply Hc.
  - apply drop_slot_length.
  - cbn. intros s' c' Hs'. destruct (decide (s' = s)) as [->|Hne].
    + rewrite list_lookup_insert_eq in Hs' by by eapply cached_lt. injection Hs' as <-. cbn.
      eapply (co_pages _ _ Hc), Hs.
    + rewrite list_lookup_insert_ne in Hs' by done. by eapply co_pages.
  - exists (L ∖ {[s]}). split; [done|]. intros i. rewrite elem_of_difference, elem_of_singleton, HLs.
    split.
    + intros [[c' Hc'] Hne]. exists c'. by apply (cached_drop s c m).
    + intros [c' [Hne Hc']%(cached_drop _ _ _ _ _ Hs)]. split; [by exists c'|done].
Qed.

Lemma wp_drop_slot {b} s c m e0 L (Q : nat -> Mem -> Prop) :
  cache_ok b m -> cached m s c -> e0 = eviction_strategy m ->
  tracks (t:=t) b e0 (length (cached_pages m)) L -> (forall i, i ∈ L <-> exists c, cached m i c) ->
  (forall e, cache_ok b (with_eviction e (drop_slot s c m)) -> Q s (with_eviction e (drop_slot s c m))) ->
  wp t (c ← cached_at s; set_cached s (mkCachedPage (idx c) (page c) (page_hash c) false (modified c));;
        eviction (on_invalidate s (idx c));; mret s) m Q.
Proof.
  intros Hc Hs -> Ht HLs HQ. apply wp_bind. unfold cached_at. apply wp_bind, wp_get.
  rewrite (proj1 Hs). apply wp_lift, wp_bind. unfold set_cached. apply wp_bind, wp_get.
  rewrite (proj2 (Nat.ltb_lt _ _) (cached_lt _ _ _ Hs)). apply wp_put, wp_bind, wp_eviction.
  change (with_cached _ m) with (drop_slot s c m).
  eapply wp_mono; [apply (invalidate_ok (t:=t)); [exact Ht|apply HLs; by exists c]|].
  intros [] e He. apply wp_ret, HQ. by eapply drop_cache.
Qed.

Lemma drop_kept {b} m m' s c e :
  cache_ok b (with_eviction e (drop_slot s c m')) -> cached m s c ->
  (m' = m /\ (modified c = false \/ is_readonly m = true) \/ committed m c m' /\ is_readonly m = false) ->
  kept b m (with_eviction e (drop_slot s c m')).
Proof.
  intros Hok Hs Hcase. split; [done|..].
  - destruct Hcase as [[-> _]|[(com & h & a & root & -> & Hh & _) _]]; done.
  - destruct Hcase as [[-> _]|[(com & h & a & root & -> & _) _]]; (split; [exact (length_insert _ _ _)|done]).
  - destruct Hcase as [[-> _]|[(com & h & a & root & -> & _ & _ & Ea & _) _]]; done.
  - intros I v acc Hct Hcf.
    assert (exists acc', content I (drop_slot s c m') v acc') as [acc' Hct'].
    { destruct Hcase as [[-> Hcl]|[Hcm Hro]]; [|by eapply commit_correct].
      exists acc. apply drop_clean; [done|done|]. destruct Hcl as [?|Hro]; [done|].
      by apply (so_readonly _ _ _ _ (ct_slots _ _ _ _ Hct _ _ Hs)). }
    exists acc'. eapply content_frame; [exact Hct'|by repeat split|done..].
Qed.

(** With a full cache, [evict] makes a slot free. *)
Lemma wp_evict {b} m (Q : nat -> Mem -> Prop) :
  affordable b -> cache_ok b m -> (forall j c, cached_pages m !! j = Some c -> valid c = true) ->
  (forall s m', kept b m m' -> (s < length (cached_pages m))%nat -> (forall c, ~ cached m' s c) ->
     (forall s' c', cached m' s' c' -> cached m s' c') -> Q s m') ->
  wp t evict m Q.
Proof.
  intros Hb Hc Hfull HQ. destruct (co_tracks _ _ Hc) as (L & Ht & HLs). unfold evict.
  apply wp_bind, wp_eviction. eapply wp_mono.
  { apply (victim_ok (t:=t)); [exact Hb|exact Ht|apply Hc|]. intros i [c Hi]%lookup_lt_is_Some. apply HLs.
    exists c. split; [done|by eapply Hfull]. }
  intros s e [Hs He]. apply wp_bind, wp_get. set (m1 := with_eviction e m).
  assert (cache_ok b m1) as Hc1 by (eapply cache_ok_slots; try done; [apply Hc|apply Hc|by exists L]).
  assert (kept b m m1) as Hk1.
  { split; [done..|]. intros I v acc Hct _. exists acc. eapply content_frame; [done|by repeat split|done..]. }
  destruct (lookup_lt_is_Some_2 _ _ Hs) as [c Hl]. assert (cached m1 s c) as Hsc by (split; [done|by eapply Hfull]).
  assert (forall m2, (m2 = m1 /\ (modified c = false \/ is_readonly m1 = true) \/ committed m1 c m2 /\ is_readonly m1 = false) ->
    wp t (c ← cached_at s; set_cached s (mkCachedPage (idx c) (page c) (page_hash c) false (modified c));;
        eviction (on_invalidate s (idx c));; mret s) m2 Q) as Hrest.
  { intros m2 Hcase. assert (cache_ok b m2 /\ cached_pages m2 = cached_pages m1 /\ eviction_strategy m2 = e) as (Hc2 & Ec & Ee).
    { destruct Hcase as [[-> _]|[Hcm _]]; [done|]. split; [by eapply committed_cache|].
      by destruct Hcm as (com & h & a & root & -> & _). }
    apply (wp_drop_slot (b:=b) _ c _ e L); [done|unfold cached; by rewrite Ec|done|by rewrite Ec|unfold cached; by rewrite Ec|].
    intros e' He'. apply HQ.
    - eapply kept_trans; [exact Hk1|]. by eapply drop_kept.
    - done.
    - intros c' Hc'. change (cached (drop_slot s c m2) s c') in Hc'. apply cached_drop in Hc' as [? _]; [done|].
      unfold cached. by rewrite Ec.
    - intros s' c' Hc'. change (cached (drop_slot s c m2) s' c') in Hc'. apply cached_drop in Hc' as [_ Hc'].
      + unfold cached in Hc'. by rewrite Ec in Hc'.
      + unfold cached. by rewrite Ec. }
  apply wp_bind. destruct (is_readonly m1) eqn:Hro; cbn [negb].
  { apply wp_ret, Hrest. left. auto. }
  apply wp_bind. unfold cached_at at 1. apply wp_bind, wp_get. cbn [cached_pages m1 with_eviction].
  rewrite Hl. apply wp_lift. destruct (modified c) eqn:Hm; [|apply wp_ret, Hrest; auto].
  eapply (wp_commit_page_at Herr Hdiv); [apply Hc1|apply Hc1|apply Hc1|apply Hsc|apply Hsc|apply (co_pages _ _ Hc1 _ _ (proj1 Hsc))|].
  intros m2 Hcm. apply Hrest. right. done.
Qed.

(** ** Filling a slot *)

Definition fill_slot (s : nat) (i : Z) (p : Page) (h : HashOutput) m : Mem :=
  with_cached (<[s := mkCachedPage i p h true false]> (cached_pages m)) m.

Lemma cached_fill s i p h m s' c' : (s < length (cached_pages m))%nat -> (forall c, ~ cached m s c) ->
  cached (fill_slot s i p h m) s' c' <->
  (s' = s /\ c' = mkCachedPage i p h true false) \/ cached m s' c'.
Proof.
  intros Hs Hfree. unfold cached, fill_slot. cbn. destruct (decide (s' = s)) as [->|Hne].
  - rewrite list_lookup_insert_eq by done. split.
    + intros [[= <-] _]. by left.
    + intros [[_ ->]|Hc]; [done|]. by destruct (Hfree c').
  - rewrite list_lookup_insert_ne by done. split; [by right|]. by intros [[? _]|].
Qed.

Lemma fill_cache {b b'} s i p h m e L : cache_ok b m -> (s < length (cached_pages m))%nat ->
  (forall c, ~ cached m s c) -> page_ok p ->
  (forall j, j ∈ L <-> exists c, cached m j c) ->
  tracks (t:=t) b' e (length (cached_pages m)) ({[s]} ∪ L) -> cache_ok b' (with_eviction e (fill_slot s i p h m)).
Proof.
  intros Hc Hs Hfree Hp HLs Ht. eapply cache_ok_slots; try done.
  - apply Hc.
  - apply length_insert.
  - cbn. intros s' c' Hs'. destruct (decide (s' = s)) as [->|Hne].
    + rewrite list_lookup_insert_eq in Hs' by done. by injection Hs' as <-.
    + rewrite list_lookup_insert_ne in Hs' by done. by eapply co_pages.
  - exists ({[s]} ∪ L). split; [done|]. intros j. rewrite elem_of_union, elem_of_singleton, HLs.
    split.
    + intros [->|[c Hj]]; [eexists; apply (cached_fill s i p h m); [done..|by left]|].
      exists c. apply (cached_fill s i p h m); [done..|by right].
    + intros [c [[-> _]|Hj]%(cached_fill s i p h m)]; [by left|right; by exists c|done..].
Qed.

(** Whatever the memory stands for, it still does with the page that was loaded. *)
Lemma fill_content I m v acc s i p x :
  content I m v acc -> v !! i = Some p -> (forall s c, cached m s c -> idx c <> i) ->
  data acc !! Z.to_nat i = Some x -> (s < length (cached_pages m))%nat -> (forall c, ~ cached m s c) ->
  content I (fill_slot s i p (leaf x) m) v acc.
Proof.
  intros Hct Hv Hnc Hx Hs Hfree. pose proof Hct as [C1 C2 C3 C4 C5 C6 C7 C8 C9 C10].
  assert (forall s' c', cached (fill_slot s i p (leaf x) m) s' c' <->
    (s' = s /\ c' = mkCachedPage i p (leaf x) true false) \/ cached m s' c') as Hcd
    by (intros; by apply cached_fill).
  assert (stored m acc i p) as Hst by by apply C9.
  split; try done.
  - intros s' c' [[-> ->]|Hs']%Hcd; [|by eapply slot_ok_core; [|by eapply C7]].
    split; cbn; [done|by exists x|by intros _|done].
  - intros s1 s2 c1 c2 [[-> ->]|H1]%Hcd [[-> ->]|H2]%Hcd E; cbn in E; [done| | |by eapply C8].
    + by destruct (Hnc _ _ H2).
    + by destruct (Hnc _ _ H1).
  - intros j q Hj Hn. apply C9; [done|]. intros s' c' Hs'. apply (Hn s'), Hcd. by right.
Qed.

Lemma fill_loaded I m v acc s i p res m' :
  content I m v acc -> v !! i = Some p -> (forall s c, cached m s c -> idx c <> i) ->
  loaded m i res m' -> collision_free (I ++ history (hasher m')) ->
  (s < length (cached_pages m))%nat -> (forall c, ~ cached m s c) ->
  fst res = p /\ content I (fill_slot s i (fst res) (snd res) m') v acc.
Proof.
  intros Hct Hv Hnc Hld Hcf Hs Hfree.
  destruct (load_correct _ _ _ _ _ _ _ _ Hct Hv Hnc Hld Hcf) as (Ep & x & Hx & Eh). split; [done|].
  destruct Hld as [(co & hs & -> & Hh & Hr) _]. rewrite Ep, Eh.
  apply fill_content; try done. eapply content_frame; [exact Hct|by repeat split|done..].
Qed.

(** ** A page is asked for *)

Record served (b : budget) m (i : Z) (slot : nat) m' : Prop := {
  sv_cache : cache_ok b m';
  sv_history : history (hasher m) ⊆ history (hasher m');
  sv_readonly : is_readonly m' = is_readonly m;
  sv_key : key (aes_ctr m') = key (aes_ctr m);
  sv_stands : forall I v p, stands_for I m v -> v !! i = Some p ->
    collision_free (I ++ history (hasher m')) ->
    stands_for I m' v /\ exists c, cached m' slot c /\ idx c = i /\ page c = p;
}.

Lemma cache_spend {b} m : cache_ok b m -> cache_ok (spent b) m.
Proof.
  intros [C1 C2 C3 C4 C5 (L & Ht & HLs) C7]. split; try done. exists L. split; [by apply spend_ok|done].
Qed.
Lemma wp_cached_page_ref {b} i slot m (Q : nat -> Mem -> Prop) :
  cache_ok b m -> (slot < length (cached_pages m))%nat ->
  (cache_ok b (with_last (Some (i, slot)) m) -> Q slot (with_last (Some (i, slot)) m)) ->
  wp t (get_cached_page_ref i slot) m Q.
Proof.
  intros Hc Hs HQ. unfold get_cached_page_ref. apply wp_bind, wp_modify. apply wp_bind. unfold cached_at.
  apply wp_bind, wp_get. cbn [with_last cached_pages]. destruct (lookup_lt_is_Some_2 _ _ Hs) as [c ->]. apply wp_lift, wp_ret, HQ.
  destruct Hc as [C1 C2 C3 C4 C5 C6 C7]. split; try done. by intros j s' [= <- <-].
Qed.

(** The slot that is returned becomes the last one. *)
Lemma stands_last I m v acc i slot p c : content I m v acc -> v !! i = Some p -> cached m slot c -> idx c = i ->
  stands_for I (with_last (Some (i, slot)) m) v /\
  exists c, cached (with_last (Some (i, slot)) m) slot c /\ idx c = i /\ page c = p.
Proof.
  intros Hct Hv Hc Hi. split; [split|].
  - intros j s [= <- <-]. by exists c.
  - exists acc. eapply content_frame; [done|by repeat split|done..].
  - exists c. split; [done|]. split; [done|].
    pose proof (so_page _ _ _ _ (ct_slots _ _ _ _ Hct _ _ Hc)) as E. rewrite Hi, Hv in E. by injection E.
Qed.

Lemma cached_cache_access {b b'} m s c e : cache_ok b m -> cached m s c ->
  (exists L, tracks (t:=t) b' e (length (cached_pages m)) L /\ forall j, j ∈ L <-> exists c, cached m j c) ->
  kept b' m (with_eviction e m).
Proof.
  intros Hc Hs Ht. split; [|done..|].
  - eapply cache_ok_slots; try done; apply Hc.
  - intros I v acc Hct _. exists acc. eapply content_frame; [done|by repeat split|done..].
Qed.

(** A slot for a page that is not in the cache. *)
Definition freed (b : budget) m (s : nat) m1 : Prop :=
  kept b m m1 /\ (s < length (cached_pages m1))%nat /\ (forall c, ~ cached m1 s c) /\
  (forall s' c, cached m1 s' c -> cached m s' c).

Lemma kept_refl {b} m : cache_ok b m -> kept b m m.
Proof. intros Hc. split; [done..|]. intros I v acc Hct _. by exists acc. Qed.

Lemma wp_free_slot {b} m : affordable b -> cache_ok b m ->
  wp t (match find_free 0 (cached_pages m) with Some i => mret i | None => evict end) m (freed b m).
Proof.
  intros Hb Hc. pose proof (find_free_spec (cached_pages m) 0) as Hf. destruct (find_free 0 _) as [s|].
  - destruct Hf as (j & c & -> & Hj & Hv). apply wp_ret. split; [by apply kept_refl|].
    split; [by eapply lookup_lt_Some|]. split; [|done]. intros c' [Hj' Hv'].
    rewrite Nat.add_0_l, Hj in Hj'. congruence.
  - apply (wp_evict (b:=b)); [done..|]. intros s m' Hk Hs Hfr Hsub. split; [done|].
    destruct (kept_size _ _ _ Hk) as [-> _]. done.
Qed.

Lemma fill_served {b b'} m m1 m2 i s res e :
  cache_ok b m -> (forall s c, cached m s c -> idx c <> i) -> freed b m s m1 -> loaded m1 i res m2 ->
  let m3 := with_last (Some (i, s)) (with_eviction e (fill_slot s i (fst res) (snd res) m2)) in
  cache_ok b' m3 -> served b' m i s m3.
Proof.
  intros Hc Hnc (Hk & Hs & Hfr & Hsub) Hld m3 Hok. pose proof Hk as [Hc1 Hh1 (_ & Hr1 & _) Hk1 Hct1].
  pose proof Hld as [Hq _]. pose proof (quiet_fields _ _ Hq) as (_ & _ & _ & _ & _ & Ecp & Er & _).
  assert (history (hasher m1) ⊆ history (hasher m2)) as Hh2 by (by destruct Hq as (? & ? & -> & ? & _)).
  assert (key (aes_ctr m2) = key (aes_ctr m1)) as Hk2 by (by destruct Hq as (? & ? & -> & _)).
  split; [done|by etrans|cbn; congruence|cbn; congruence|]. intros I v p [_ [acc Hct]] Hv Hcf.
  assert (collision_free (I ++ history (hasher m2))) as Hcf2 by exact Hcf.
  destruct (Hct1 I v acc Hct) as [acc1 Hct']; [by eapply collision_free_grows|].
  destruct (fill_loaded I m1 v acc1 s i p res m2 Hct' Hv) as [Ep Hct2]; try done.
  { intros s' c Hs'. by eapply Hnc, Hsub. }
  eapply (stands_last _ (with_eviction e (fill_slot s i (fst res) (snd res) m2)) v acc1 _ _ _
    (mkCachedPage i (fst res) (snd res) true false));
    [eapply content_frame; [exact Hct2|by repeat split|done..]|done| |].
  - split; [|done]. cbn. apply list_lookup_insert_eq. by rewrite Ecp.
  - done.
Qed.

Lemma wp_search_page {b} i m (Q : nat -> Mem -> Prop) :
  affordable b -> cache_ok b m -> (forall slot m', served (spent b) m i slot m' -> Q slot m') -> wp t (search_page i) m Q.
Proof.
  intros Hb Hc HQ. unfold search_page. apply wp_bind, wp_get. pose proof (find_cached_slot i m) as Hf.
  destruct (find_cached i 0 (cached_pages m)) as [s|].
  - destruct Hf as (c & Hs & Hi). destruct (co_tracks _ _ Hc) as (L & Ht & HLs).
    apply wp_bind, wp_eviction. eapply wp_mono; [apply (access_ok (t:=t)); [exact Hb|exact Ht|apply HLs; by exists c]|].
    intros [] e He. assert (kept (spent b) m (with_eviction e m)) as [K1 K2 _ _ K4]
      by (eapply cached_cache_access; [done..|]; by exists L).
    apply (wp_cached_page_ref (b:=spent b)); [done|by eapply cached_lt|]. intros Hc'. apply HQ. split; try done.
    intros I v p [_ [acc Hct]] Hv Hcf. destruct (K4 I v acc Hct Hcf) as [acc' Hct'].
    by eapply stands_last.
  - apply wp_bind. eapply wp_mono; [by apply (wp_free_slot (b:=b))|]. intros s m1 Hfr.
    pose proof Hfr as (Hk & Hs & Hfree & _). pose proof (kept_cache _ _ _ Hk) as Hc1.
    apply wp_bind, (wp_load_page Herr Hdiv); [apply Hc1..|]. intros res m2 Hld.
    destruct Hld as [Hq Hld'] eqn:El. clear El. pose proof (kept_cache _ _ _ (quiet_kept _ _ Hq Hc1)) as Hc2.
    pose proof (quiet_fields _ _ Hq) as (_ & _ & _ & _ & _ & Ecp & _ & Ees & _). rewrite <- Ecp in Hs.
    assert (forall c, ~ cached m2 s c) as Hfree2 by (unfold cached; by rewrite Ecp).
    destruct (co_tracks _ _ Hc2) as (L & Ht & HLs). destruct res as [p h].
    apply wp_bind. unfold set_cached. apply wp_bind, wp_get. rewrite (proj2 (Nat.ltb_lt _ _) Hs).
    apply wp_put, wp_bind, wp_eviction. change (with_cached _ m2) with (fill_slot s i p h m2).
    eapply wp_mono.
    { apply (load_ok (t:=t)); [exact Hb|exact Ht|done|]. intros [c Hin]%HLs. by eapply Hfree2. }
    intros [] e He. apply (wp_cached_page_ref (b:=spent b)).
    + eapply (fill_cache _ _ _ _ m2); try done. apply Hld'.
    + cbn. by rewrite length_insert.
    + intros Hok. apply HQ. by apply (fill_served (b:=b) m m1 m2 i s (p, h) e).
Qed.

Lemma wp_get_page {b} i m (Q : nat -> Mem -> Prop) :
  affordable b -> cache_ok b m -> (forall slot m', served (spent b) m i slot m' -> Q slot m') -> wp t (outsourced_get_page i) m Q.
Proof.
  intros Hb Hc HQ. unfold outsourced_get_page. apply wp_bind, wp_get.
  destruct (last_accessed_page m) as [[j s]|] eqn:El; [|by apply (wp_search_page (b:=b))].
  destruct (Z.eqb_spec i j) as [->|Hne]; [|by apply (wp_search_page (b:=b))].
  apply (wp_cached_page_ref (b:=spent b)); [by apply cache_spend|by eapply co_last|]. intros Hc'. apply HQ. split; [done..|].
  intros I v p [Hl [acc Hct]] Hv _. destruct (Hl j s El) as (c & Hs & Hi).
  by eapply stands_last.
Qed.

(** ** A page is written *)

Lemma cached_alter m s f s' c' : cached (deref_mut m s f) s' c' <->
  exists c, cached m s' c /\
    c' = if decide (s' = s) then mkCachedPage (idx c) (f (page c)) (page_hash c) (valid c) true else c.
Proof.
  unfold cached. cbn. destruct (decide (s' = s)) as [->|Hne].
  - rewrite list_lookup_alter_eq, fmap_Some. split.
    + intros [(c & Hl & ->) Hv]. by exists c.
    + intros (c & [Hl Hv] & ->). split; [by exists c|done].
  - rewrite list_lookup_alter_ne by done. split; [intros Hc; by exists c'|]. by intros (c & Hc & ->).
Qed.

Lemma write_cache {b} m s f : cache_ok b m ->
  (forall c, cached_pages m !! s = Some c -> page_ok (f (page c))) ->
  cache_ok b (deref_mut m s f).
Proof.
  intros Hc Hf. eapply (cache_ok_slots m); try done.
  - apply Hc.
  - apply length_alter.
  - cbn. intros s' c'. destruct (decide (s' = s)) as [->|Hne].
    + rewrite list_lookup_alter_eq, fmap_Some. intros (c & Hl & ->). cbn. by apply Hf.
    + rewrite list_lookup_alter_ne by done. by eapply co_pages.
  - destruct (co_tracks _ _ Hc) as (L & Ht & HLs). exists L. split; [done|]. intros s'. rewrite HLs. split.
    + intros [c Hc']. eexists. apply cached_alter. by eexists.
    + intros [c' (c & Hc' & _)%cached_alter]. by exists c.
Qed.

Lemma write_content I m v acc s c f : content I m v acc -> cached m s c -> is_readonly m = false ->
  page_ok (f (page c)) ->
  content I (deref_mut m s f) (<[idx c := f (page c)]> v) acc.
Proof.
  intros Hct Hs Hro Hp.
  pose proof Hct as [C1 C2 C3 C4 C5 C6 C7 C8 C9 C10]. pose proof (C7 _ _ Hs) as [S1 _ _ _].
  assert (same_core m (deref_mut m s f)) as Hcore by by repeat split.
  assert (forall s' c', cached (deref_mut m s f) s' c' -> exists c, cached m s' c /\ idx c' = idx c) as Hidx.
  { intros s' c' (c0 & Hc0 & ->)%cached_alter. exists c0. split; [done|]. by case_decide. }
  split; try done.
  - intros i [E|[_ Hi]]%lookup_insert_is_Some; apply C5; [rewrite <- E; by eexists|done].
  - intros i p [[<- <-]|[_ Hi]]%lookup_insert_Some; [done|by eapply C6].
  - intros s' c' (c0 & Hc0 & ->)%cached_alter. case_decide as Hss.
    + subst s'. assert (c0 = c) as -> by (destruct Hs as [E _], Hc0 as [E' _]; rewrite E in E'; by injection E').
      split; cbn; [apply lookup_insert_eq|apply (C7 _ _ Hs)|done|congruence].
    + assert (idx c0 <> idx c) as Hne by (intros E; by apply Hss, (C8 _ _ _ _ Hc0 Hs)).
      pose proof (C7 _ _ Hc0) as Hso. eapply slot_ok_core; [exact Hcore|]. destruct Hso as [T1 T2 T3 T4].
      split; [by rewrite lookup_insert_ne|done..].
  - intros s1 s2 c1 c2 (d1 & D1 & E1)%Hidx (d2 & D2 & E2)%Hidx E. apply (C8 _ _ _ _ D1 D2). congruence.
  - intros i p Hi Hn. assert (idx c <> i) as Hne.
    { intros <-. eapply (Hn s); [apply cached_alter; by eexists|]. by rewrite decide_True. }
    rewrite lookup_insert_ne in Hi by done. eapply stored_core; [exact Hcore|]. apply C9; [done|].
    intros s' c' Hs' E. eapply (Hn s'); [apply cached_alter; by eexists|]. by case_decide.
Qed.

Lemma write_last m s f : last_ok m -> last_ok (deref_mut m s f).
Proof.
  intros Hl i s' El. destruct (Hl i s' El) as (c0 & Hc0 & Hi). eexists. split; [apply cached_alter; by eexists|].
  by case_decide.
Qed.
Lemma write_stands I m v s c f : stands_for I m v -> cached m s c -> is_readonly m = false ->
  page_ok (f (page c)) ->
  stands_for I (deref_mut m s f) (<[idx c := f (page c)]> v).
Proof. intros [Hl [acc Hct]] Hs Hro Hp. split; [by apply write_last|]. exists acc. by apply write_content. Qed.
End refine.
