(* ===== verification/VanadiumClient.v ===== *)
(** * The client of the VM ([client-sdk/src/vanadium_client.rs], [apdu.rs])

    [VAppEngine] runs a V-App on the device: it answers the requests for pages from the
    memory segments that it keeps, collects the buffers that the V-App sends and hands
    out the ones it receives. The device is the list of the answers that it gives, the
    next one first; an exchange with no answer left waits for ever ([Diverge]). The
    commands that are sent are recorded. *)

From S2P Require Import Prelude Memory Accumulator ClientCommands ClientMemory.

(** ** apdu.rs *)

Inductive StatusWord : Type :=
| Deny | StoreFull | IncorrectData | NotSupported | WrongP1P2 | WrongDataLength | InsNotSupported
| ClaNotSupported | BadState | SignatureFail | StatusOK | InterruptedExecution | StatusVMRuntimeError
| StatusVAppPanic | Unknown.
#[export] Instance StatusWord_eq_dec : EqDecision StatusWord.
Proof. solve_decision. Defined.

Definition status_word_of (value : Z) : option StatusWord :=
  match value with
  | 0x6985 => Some Deny | 0x6A84 => Some StoreFull | 0x6A80 => Some IncorrectData
  | 0x6A82 => Some NotSupported | 0x6A86 => Some WrongP1P2 | 0x6A87 => Some WrongDataLength
  | 0x6D00 => Some InsNotSupported | 0x6E00 => Some ClaNotSupported | 0xB007 => Some BadState
  | 0xB008 => Some SignatureFail | 0xB020 => Some StatusVMRuntimeError | 0xB021 => Some StatusVAppPanic
  | 0x9000 => Some StatusOK | 0xEEEE => Some InterruptedExecution
  | _ => None
  end.

Record APDUCommand : Type := mkAPDU { cla : Z; ins : Z; p1 : Z; p2 : Z; apdu_data : list Z }.

Definition apdu_encode (c : APDUCommand) : list Z :=
  let len := Z.of_nat (length (apdu_data c)) in
  if len <=? 255 then [cla c; ins c; p1 c; p2 c; w8 len] ++ apdu_data c
  else
    let len_lo := w8 (Z.land (w16 len) 0xFF) in
    let len_hi := w8 (Z.land (Z.shiftr (w16 len) 8) 0xFF) in
    [cla c; ins c; p1 c; p2 c; 0; len_hi; len_lo] ++ apdu_data c.

Definition apdu_continue (data : list Z) : APDUCommand := mkAPDU 0xE0 0xff 0 0 data.
Definition apdu_run_vapp (serialized_manifest : list Z) : APDUCommand := mkAPDU 0xE0 3 0 0 serialized_manifest.
Definition apdu_preload_vapp (serialized_manifest : list Z) : APDUCommand :=
  mkAPDU 0xE0 4 0 0 serialized_manifest.

(** ** The engine *)

Inductive VAppResponse : Type :=
| Message (buf : list Z)
| PanicMessage (msg : list Z)
| Exited (status : Z).

(** The errors that are boxed into [GenericError]. *)
Inductive BoxedError : Type :=
| BoxedMemory (e : MemorySegmentError)
| BoxedDeserialization (e : MessageDeserializationError)
| BoxedUtf8
| BoxedIo
| BoxedPanicked (msg : list Z)
| BoxedExited (status : Z).
Inductive VAppEngineError : Type :=
| InvalidCommandCode
| TransportError
| AccessViolation
| InterruptedExecutionExpected
| ResponseError (msg : string)
| VMRuntimeError
| VAppPanic
| AppNotRegistered
| UnexpectedStatusWord (s : StatusWord)
| EngineGenericError (e : BoxedError).

Inductive Reply : Type :=
| NoReply
| DeviceReply (status : StatusWord) (result : list Z).

Section engine.
Context {H : Type} `{RH : ResettableHasher H}.
(** The writer for what the V-App prints, and [String::from_utf8]'s test. *)
Context {W : Type} (write : W -> list Z -> option W) (is_utf8 : list Z -> bool).

Record VAppEngine : Type := mkEngine {
  code_seg : ClientSegment;
  data_seg : ClientSegment;
  stack_seg : ClientSegment;
  device : list Reply;
  exchanged : list APDUCommand;
  print_writer : W;
  pending_receive_buffer : option (list Z);
  current_status : StatusWord;
  current_result : list Z;
  code_hmacs : option (list (list Z));
}.

Definition with_device (d : list Reply) (x : list APDUCommand) (e : VAppEngine) : VAppEngine :=
  mkEngine (code_seg e) (data_seg e) (stack_seg e) d x (print_writer e) (pending_receive_buffer e)
    (current_status e) (current_result e) (code_hmacs e).
Definition with_data_seg (s : ClientSegment) (e : VAppEngine) : VAppEngine :=
  mkEngine (code_seg e) s (stack_seg e) (device e) (exchanged e) (print_writer e) (pending_receive_buffer e)
    (current_status e) (current_result e) (code_hmacs e).
Definition with_stack_seg (s : ClientSegment) (e : VAppEngine) : VAppEngine :=
  mkEngine (code_seg e) (data_seg e) s (device e) (exchanged e) (print_writer e) (pending_receive_buffer e)
    (current_status e) (current_result e) (code_hmacs e).
Definition with_writer (w : W) (e : VAppEngine) : VAppEngine :=
  mkEngine (code_seg e) (data_seg e) (stack_seg e) (device e) (exchanged e) w (pending_receive_buffer e)
    (current_status e) (current_result e) (code_hmacs e).
Definition with_pending (b : option (list Z)) (e : VAppEngine) : VAppEngine :=
  mkEngine (code_seg e) (data_seg e) (stack_seg e) (device e) (exchanged e) (print_writer e) b
    (current_status e) (current_result e) (code_hmacs e).
Definition with_current (sr : StatusWord * list Z) (e : VAppEngine) : VAppEngine :=
  mkEngine (code_seg e) (data_seg e) (stack_seg e) (device e) (exchanged e) (print_writer e)
    (pending_receive_buffer e) (fst sr) (snd sr) (code_hmacs e).

Abbreviation M := (ST VAppEngine VAppEngineError).

(** [transport.exchange(apdu).await.map_err(TransportError)]. *)
Definition exchange (apdu : APDUCommand) : M (StatusWord * list Z) :=
  e ← get;
  let sent := exchanged e ++ [apdu] in
  match device e with
  | [] => put (with_device [] sent e);; diverge
  | r :: rest =>
      put (with_device rest sent e);;
      match r with NoReply => fail TransportError | DeviceReply s d => mret (s, d) end
  end.

(** [?] on the errors that convert. *)
Definition deserialized {A} (o : outcome MessageDeserializationError A) : M A :=
  lift (outcome_map_err (fun e => EngineGenericError (BoxedDeserialization e)) o).
Definition from_segment {A} (o : outcome MemorySegmentError A) : M A :=
  lift (outcome_map_err (fun e => EngineGenericError (BoxedMemory e)) o).
Definition ensure (b : bool) (err : VAppEngineError) : M unit := lift (guard_err (negb b) err).
Definition is_interrupted (s : StatusWord) : bool := bool_decide (s = InterruptedExecution).

Definition start (serialized_manifest : list Z) : M unit :=
  '(status, result) ← exchange (apdu_run_vapp serialized_manifest);
  (if negb (bool_decide (status = StatusOK)) && negb (is_interrupted status) then
     fail (match status with SignatureFail => AppNotRegistered | _ => UnexpectedStatusWord status end)
   else mret tt);;
  modify (with_current (status, result)).

(** The first [t] proof elements and the number [t as u8]; the slice cannot be out of
    range, [t] being at most their number. *)
Definition first_elements (proof : list HashOutput) (max : Z) : Z * list HashOutput :=
  let t := w8 (Z.min (Z.of_nat (length proof)) max) in (t, take (Z.to_nat t) proof).

(** [while offset < proof.len()]: the elements left. A round sends at least one of them. *)
Fixpoint send_proof_rest (fuel : nat) (max : Z) (response : Z -> list HashOutput -> list Z)
    (continued : list Z -> outcome MessageDeserializationError unit) (rest : list HashOutput)
    (last : StatusWord * list Z) : M (StatusWord * list Z) :=
  match rest with
  | [] => mret last
  | _ =>
      match fuel with
      | O => diverge
      | S fuel =>
          let '(t, elements) := first_elements rest max in
          '(status, result) ← exchange (apdu_continue (response t elements));
          let rest := drop (Z.to_nat t) rest in
          match rest with
          | [] => mret (status, result)
          | _ =>
              ensure (is_interrupted status) InterruptedExecutionExpected;;
              deserialized (continued result);;
              send_proof_rest fuel max response continued rest last
          end
      end
  end.

Definition get_page_continued (t : Z) (proof : list HashOutput) : list Z :=
  serialize (GetPageProofContinuedResponse.mk t proof).
Definition commit_page_continued (t : Z) (proof : list HashOutput) : list Z :=
  serialize (CommitPageProofContinuedResponse.mk t proof).
Definition unit_of {A} (o : outcome MessageDeserializationError A)
    : outcome MessageDeserializationError unit := _ ← o; Ok tt.

Definition process_get_page (command : list Z) : M (StatusWord * list Z) :=
  msg ← deserialized (GetPageMessage.de command);
  let section_kind := GetPageMessage.section_kind msg in
  let page_index := GetPageMessage.page_index msg in
  e ← get;
  let segment := match section_kind with Code => code_seg e | Data => data_seg e | Stack => stack_seg e end in
  '(serialized_page, proof) ← from_segment (client_get_page segment page_index);
  lift (assert_or_panic (Nat.eqb (length serialized_page) 269));;
  let data := drop 13 serialized_page in
  let is_encrypted := negb (nth 0 serialized_page 0 =? 0) in
  let nonce := slice 1 12 serialized_page in
  match section_kind, code_hmacs e with
  | Code, Some code_hmacs =>
      ensure (negb is_encrypted) (ResponseError "Code pages should not be encrypted");;
      ensure (bool_decide (nonce = replicate 12 0)) (ResponseError "Code pages should have a null nonce");;
      hmac ← lift (ok_or (code_hmacs !! Z.to_nat page_index) (ResponseError "Missing code-page HMAC"));
      exchange (apdu_continue (serialize
        (GetPageResponse.mk data is_encrypted nonce 1 1 Hmac [hmac])))
  | _, _ =>
      let '(t, elements) := first_elements proof GetPageResponse.max_proof_size in
      let n := w8 (Z.of_nat (length proof)) in
      '(status, result) ← exchange (apdu_continue (serialize
        (GetPageResponse.mk data is_encrypted nonce n t Merkle elements)));
      if t <? n then
        ensure (is_interrupted status && negb (bool_decide (result = []))) InterruptedExecutionExpected;;
        deserialized (unit_of (GetPageProofContinuedMessage.de result));;
        send_proof_rest (length proof) GetPageProofContinuedResponse.max_proof_size get_page_continued
          (fun r => unit_of (GetPageProofContinuedMessage.de r)) (drop (Z.to_nat t) proof) (status, result)
      else mret (status, result)
  end.

(** [segment.store_page(..)?] on the segment of the section. *)
Definition store_page (section_kind : SectionKind) (page_index : Z) (page : list Z)
    : M (list HashOutput * HashOutput) :=
  let boxed := map_err (fun e => EngineGenericError (BoxedMemory e)) in
  match section_kind with
  | Code => fail AccessViolation
  | Data => boxed (zoom data_seg with_data_seg (client_store_page (H:=H) page_index page))
  | Stack => boxed (zoom stack_seg with_stack_seg (client_store_page (H:=H) page_index page))
  end.

Definition process_commit_page (command : list Z) : M (StatusWord * list Z) :=
  msg ← deserialized (CommitPageMessage.de command);
  let section_kind := CommitPageMessage.section_kind msg in
  (match section_kind with Code => fail AccessViolation | _ => mret tt end);;
  lift (assert_or_panic (CommitPageMessage.is_encrypted msg));;
  let serialized_page :=
    [bool_byte (CommitPageMessage.is_encrypted msg)] ++ CommitPageMessage.nonce msg ++ CommitPageMessage.data msg in
  '(proof, new_root) ← store_page section_kind (CommitPageMessage.page_index msg) serialized_page;
  let '(t, elements) := first_elements proof CommitPageProofResponse.max_proof_size in
  let n := w8 (Z.of_nat (length proof)) in
  '(status, result) ← exchange (apdu_continue (serialize (CommitPageProofResponse.mk n t new_root elements)));
  if (t <? n) && is_interrupted status && negb (bool_decide (result = [])) then
    deserialized (unit_of (CommitPageProofContinuedMessage.de result));;
    send_proof_rest (length proof) CommitPageProofContinuedResponse.max_proof_size commit_page_continued
      (fun r => unit_of (CommitPageProofContinuedMessage.de r)) (drop (Z.to_nat t) proof) (status, result)
  else mret (status, result).

(** ** Buffers *)

(** The loop of [exchange_and_process_page_requests]: each round consumes an answer of
    the device, so the answers left bound the rounds. *)
Fixpoint page_requests_loop (fuel : nat) (sr : StatusWord * list Z) : M (StatusWord * list Z) :=
  let '(status, result) := sr in
  if negb (is_interrupted status) then mret sr
  else
    match result with
    | [] => mret sr
    | b :: _ =>
        match fuel with
        | O => diverge
        | S fuel =>
            code ← lift (ok_or (command_code_of b) InvalidCommandCode);
            match code with
            | GetPage => sr ← process_get_page result; page_requests_loop fuel sr
            | CommitPage => sr ← process_commit_page result; page_requests_loop fuel sr
            | _ => mret sr
            end
        end
    end.
Definition exchange_and_process_page_requests (apdu : APDUCommand) : M (StatusWord * list Z) :=
  sr ← exchange apdu;
  e ← get;
  page_requests_loop (S (length (device e))) sr.

(** [while remaining_len > 0]; the lengths are 32-bit. *)
Fixpoint receive_chunks (fuel : nat) (buf : list Z) (remaining_len : Z) : M (list Z) :=
  if 0 <? remaining_len then
    match fuel with
    | O => diverge
    | S fuel =>
        '(status, result) ← exchange_and_process_page_requests (apdu_continue []);
        ensure (is_interrupted status) InterruptedExecutionExpected;;
        ensure (negb (bool_decide (result = []))) (ResponseError "Empty response");;
        msg ← deserialized (SendBufferContinuedMessage.de result);
        let data := SendBufferContinuedMessage.data msg in
        ensure (Z.of_nat (length data) <=? remaining_len)
          (ResponseError "Received total_size does not match expected");;
        receive_chunks fuel (buf ++ data) (u32_sub remaining_len (w32 (Z.of_nat (length data))))
    end
  else mret buf.
Definition process_send_buffer_generic (command : list Z) : M (BufferType * list Z) :=
  msg ← deserialized (SendBufferMessage.de command);
  let buf := SendBufferMessage.data msg in
  let remaining_len := SendBufferMessage.total_size msg in
  ensure (Z.of_nat (length buf) <=? remaining_len)
    (ResponseError "Received data length exceeds expected remaining length");;
  e ← get;
  buf ← receive_chunks (S (length (device e))) buf
    (u32_sub remaining_len (w32 (Z.of_nat (length buf))));
  mret (SendBufferMessage.buffer_type msg, buf).

Definition process_send_buffer (command : list Z) : M (option VAppResponse) :=
  '(buffer_type, buf) ← process_send_buffer_generic command;
  response ←
    (match buffer_type with
     | VAppMessage => mret (Some (Message buf))
     | BufPanic =>
         ensure (is_utf8 buf) (EngineGenericError BoxedUtf8);;
         mret (Some (PanicMessage buf))
     | BufPrint =>
         e ← get;
         match write (print_writer e) buf with
         | Some w => put (with_writer w e);; mret None
         | None => fail (EngineGenericError BoxedIo)
         end
     end);
  sr ← exchange_and_process_page_requests (apdu_continue []);
  modify (with_current sr);;
  mret response.

(** The [loop] that sends the pending buffer in chunks: [rest] is [bytes[offset..]]. *)
Fixpoint send_chunks (fuel : nat) (remaining_len : Z) (rest : list Z) : M (StatusWord * list Z) :=
  match fuel with
  | O => diverge
  | S fuel =>
      let chunk_len := Z.min remaining_len ReceiveBufferResponse.max_chunk_size in
      chunk ← lift (range 0 chunk_len rest);
      '(status, result) ← exchange_and_process_page_requests (apdu_continue
        (serialize (ReceiveBufferResponse.mk remaining_len chunk)));
      let remaining_len := u32_sub remaining_len chunk_len in
      if remaining_len =? 0 then mret (status, result)
      else
        ensure (is_interrupted status) InterruptedExecutionExpected;;
        ensure (negb (bool_decide (result = []))) (ResponseError "Empty response");;
        deserialized (unit_of (ReceiveBufferMessage.de result));;
        send_chunks fuel remaining_len (drop (Z.to_nat chunk_len) rest)
  end.
Definition process_receive_buffer (command : list Z) : M (StatusWord * list Z) :=
  deserialized (unit_of (ReceiveBufferMessage.de command));;
  e ← get;
  put (with_pending None e);;
  match pending_receive_buffer e with
  | Some bytes => send_chunks (S (length bytes)) (w32 (Z.of_nat (length bytes))) bytes
  | None => exchange_and_process_page_requests (apdu_continue (serialize (ReceiveBufferResponse.mk 0 [])))
  end.

(** ** The engine's steps *)

Definition step : M (option VAppResponse) :=
  e ← get;
  match current_status e with
  | StatusOK =>
      ensure (Nat.eqb (length (current_result e)) 4)
        (ResponseError "The V-App should return a 4-byte exit code");;
      mret (Some (Exited (as_i32 (be_value (current_result e)))))
  | StatusVMRuntimeError => fail VMRuntimeError
  | StatusVAppPanic => fail VAppPanic
  | InterruptedExecution =>
      match current_result e with
      | [] => fail (ResponseError "empty command")
      | b :: _ =>
          code ← lift (ok_or (command_code_of b) InvalidCommandCode);
          match code with
          | GetPage => sr ← process_get_page (current_result e); modify (with_current sr);; mret None
          | CommitPage => sr ← process_commit_page (current_result e); modify (with_current sr);; mret None
          | SendBuffer => process_send_buffer (current_result e)
          | ReceiveBuffer => sr ← process_receive_buffer (current_result e); modify (with_current sr);; mret None
          | _ => fail (ResponseError "Unexpected command")
          end
      end
  | _ => fail InterruptedExecutionExpected
  end.

(** [send_message]: steps until the V-App sends a message, panics or exits. A step with
    no response consumes an answer of the device. *)
Fixpoint steps (fuel : nat) : M (list Z) :=
  match fuel with
  | O => diverge
  | S fuel =>
      r ← step;
      match r with
      | Some (Message buf) => mret buf
      | Some (PanicMessage msg) => fail (EngineGenericError (BoxedPanicked msg))
      | Some (Exited status) => fail (EngineGenericError (BoxedExited status))
      | None => steps fuel
      end
  end.
Definition send_message (message : list Z) : M (list Z) :=
  modify (with_pending (Some message));;
  e ← get;
  steps (S (length (device e))).
End engine.
