(* ===== verification/Accesses.v ===== *)
(** * Programs over a paged memory

    A program that reads and writes pages, deciding what to access next from what it has
    read, runs over any [PagedMemory]. Over an [OutsourcedMemory] it computes what it
    computes over a [VecMemory] with the same pages, whatever the client answers. *)

From S2P Require Import Prelude Memory MemorySpec Accumulator AccumulatorSpec ClientCommands Evict EvictSpec Aes AesSpec Auth History ClientMemory ClientMemorySpec OutsourcedMem OutsourcedSpec OutsourcedRefine VanadiumClient Concrete.

(** [WritePage i f k] applies [f] to the page [i] through a mutable reference. *)
Inductive accesses (A : Type) : Type :=
| Done (a : A)
| ReadPage (i : Z) (k : Page -> accesses A)
| WritePage (i : Z) (f : Page -> Page) (k : accesses A).
Arguments Done {A} a.
Arguments ReadPage {A} i k.
Arguments WritePage {A} i f k.

Fixpoint run_accesses {M} `{PM : PagedMemory M} {A} (p : accesses A) : ST M MemoryError A :=
  match p with
  | Done a => mret a
  | ReadPage i k =>
      h ← get_page i;
      m ← get;
      run_accesses (k (deref m h))
  | WritePage i f k =>
      h ← get_page i;
      modify (fun m => deref_mut m h f);;
      run_accesses k
  end.

(** The indices are not negative and what is written are pages; a program that [reads]
    writes nothing. *)
Fixpoint accesses_ok {A} (p : accesses A) : Prop :=
  match p with
  | Done _ => True
  | ReadPage i k => 0 <= i /\ forall pg, accesses_ok (k pg)
  | WritePage i f k => 0 <= i /\ (forall pg, page_ok pg -> page_ok (f pg)) /\ accesses_ok k
  end.
Fixpoint reads {A} (p : accesses A) : Prop :=
  match p with
  | Done _ => True
  | ReadPage i k => forall pg, reads (k pg)
  | WritePage _ _ _ => False
  end.

(** The accesses of the program are within a budget. *)
Fixpoint affords {A} (b : budget) (p : accesses A) : Prop :=
  match p with
  | Done _ => True
  | ReadPage i k => affordable b /\ forall pg, affords (spent b) (k pg)
  | WritePage i f k => affordable b /\ affords (spent b) k
  end.
Lemma affords_none {A} (p : accesses A) : affords None p.
Proof. by induction p. Qed.

(** ** Over pages in memory *)

Fixpoint flat_run {A} (p : accesses A) (v : gmap Z Page) : option (A * gmap Z Page) :=
  match p with
  | Done a => Some (a, v)
  | ReadPage i k => match v !! i with Some pg => flat_run (k pg) v | None => None end
  | WritePage i f k => match v !! i with Some pg => flat_run k (<[i := f pg]> v) | None => None end
  end.

(** A [VecMemory] hands out only the pages that it has. *)
Lemma vec_get_page_some (m : VecMemory) v i h m' : represents true m v -> 0 <= i ->
  get_page i m = (Ok h, m') -> is_Some (v !! i).
Proof.
  intros [_ Hv] Hi. cbn. unfold vec_get_page. rewrite Hv, decide_True by done. by destruct (pages m !! Z.to_nat i).
Qed.
Lemma vec_get_page_none (m : VecMemory) v i o m' : represents true m v -> 0 <= i ->
  get_page i m = (o, m') -> (forall h, o <> Ok h) -> o = Err PageNotFound.
Proof.
  intros _ _. cbn. unfold vec_get_page. destruct (pages m !! Z.to_nat i); intros [= <- <-] Hn; [by destruct (Hn (Z.to_nat i))|done].
Qed.
(** The run returns what the run over the map returns, or asks for a page that there is not. *)
Lemma run_accesses_flat {A} (p : accesses A) : forall (m : VecMemory) v,
  accesses_ok p -> represents true m v ->
  match run_accesses p m with
  | (Ok a, m') => exists v', flat_run p v = Some (a, v') /\ represents true m' v'
  | (o, _) => o = Err PageNotFound
  end.
Proof.
  induction p as [a|i k IH|i f k IH]; intros m v Hp Hv; cbn [run_accesses flat_run].
  - by exists v.
  - destruct Hp as [Hi Hp]. unfold mbind, st_mbind, st_bind.
    destruct (get_page i m) as [[h| | |] m1] eqn:Eg.
    2-4: pose proof (vec_get_page_none _ _ _ _ _ Hv Hi Eg ltac:(done)) as En; by first [injection En as -> | discriminate En].
    destruct (vec_get_page_some _ _ _ _ _ Hv Hi Eg) as [pg Hpg].
    destruct (get_page_ok _ _ _ _ _ _ _ Hv Hi Hpg Eg) as (Hv1 & Hd & _). rewrite Hpg. cbn [get].
    rewrite Hd. by apply IH.
  - destruct Hp as (Hi & Hf & Hp). unfold mbind, st_mbind, st_bind.
    destruct (get_page i m) as [[h| | |] m1] eqn:Eg.
    2-4: pose proof (vec_get_page_none _ _ _ _ _ Hv Hi Eg ltac:(done)) as En; by first [injection En as -> | discriminate En].
    destruct (vec_get_page_some _ _ _ _ _ Hv Hi Eg) as [pg Hpg].
    destruct (get_page_ok _ _ _ _ _ _ _ Hv Hi Hpg Eg) as (Hv1 & Hd & Hw). rewrite Hpg.
    apply IH; [done|]. apply Hw; [done|]. apply Hf. by eapply represents_ok.
Qed.

Lemma initial_view start data : bytes_ok data ->
  represents true (mkVecMemory (initial_pages start data)) (pages_from 0 (initial_pages start data)).
Proof. intros Hb. apply vec_view_represents. apply Forall_map, Forall_forall. intros i _. by apply initial_page_ok. Qed.

Section outsourced.
Context {H ES K : Type} `{HH : HashHistory H 32} {t : mode} `{EL : EvictionLaws ES t} `{DL : DeviceLaws K}.
Hypothesis (Herr : may_err t = true) (Hdiv : may_diverge t = true).
Abbreviation Mem := (OutsourcedMemory H ES K).
Implicit Types m : Mem.

(** What a run keeps, and what it computes if no two of the messages hashed collide. *)
Definition refines {A} (p : accesses A) m (a : A) m' : Prop := history (hasher m) ⊆ history (hasher m') /\ is_readonly m' = is_readonly m /\
  forall I v a' v', stands_for I m v -> flat_run p v = Some (a', v') ->
    is_readonly m = false \/ reads p -> collision_free (I ++ history (hasher m')) ->
    a = a' /\ stands_for I m' v'.

Lemma wp_run_accesses {A} (p : accesses A) : forall b m, accesses_ok p -> affords b p -> cache_ok (t:=t) b m ->
  wp t (run_accesses p) m (refines p m).
Proof.
  induction p as [a|i k IH|i f k IH]; intros b m Hp Hb Hc; cbn [run_accesses].
  - apply wp_ret. split; [done|]. split; [done|]. cbn. intros I v a' v' Hs [= <- <-]. done.
  - destruct Hp as [_ Hp], Hb as [Hb0 Hb]. apply wp_bind. apply (wp_get_page Herr Hdiv (b:=b)); [done|done|].
    intros slot m1 [Hc1 Hh1 Hr1 _ Hs1].
    apply wp_bind, wp_get. eapply wp_mono; [by eapply IH|]. intros a m2 (Hh2 & Hr2 & Hs2).
    split; [by etrans|]. split; [congruence|]. cbn [flat_run reads].
    intros I v a' v' Hst Hf Hro Hcf. destruct (v !! i) as [pg|] eqn:Hi; [|done].
    destruct (Hs1 I v pg Hst Hi) as (Hst1 & c & [Hl _] & _ & <-); [by eapply collision_free_grows|].
    cbn in Hs2. rewrite Hl in Hs2. cbn in Hs2. eapply Hs2; [done|done| |done].
    rewrite Hr1. destruct Hro as [?|Hro]; [by left|by right].
  - destruct Hp as (_ & Hf & Hp), Hb as [Hb0 Hb]. apply wp_bind. apply (wp_get_page Herr Hdiv (b:=b)); [done|done|].
    intros slot m1 [Hc1 Hh1 Hr1 _ Hs1]. apply wp_bind, wp_modify.
    eapply wp_mono; [eapply IH; [done|exact Hb|apply write_cache; [done|intros c Hc1'; by eapply Hf, co_pages]]|]. intros a m2 (Hh2 & Hr2 & Hs2).
    split; [by etrans|]. split; [cbn in Hr2; congruence|]. cbn [flat_run reads].
    intros I v a' v' Hst Hfl [Hro|[]] Hcf. destruct (v !! i) as [pg|] eqn:Hi; [|done].
    destruct (Hs1 I v pg Hst Hi) as (Hst1 & c & Hl & <- & <-); [by eapply collision_free_grows|].
    eapply Hs2; [|done|left; cbn; congruence|done].
    apply write_stands; [done|done|congruence|].
    destruct Hst1 as [_ [acc Hct]]. by eapply Hf, ct_pages.
Qed.

(** ** The first state: the memory of a segment that the client has loaded *)

Lemma new_cache_ok {b} comm slots ro kind n root (a : AesCtr K) (e : ES) vh :
  (0 < slots)%nat -> (forall p1 p2 d, Continue p1 p2 d ∈ replies comm -> bytes_ok d) ->
  is_Some (checked_next_power_of_two n) -> length (nonce a) = 12%nat ->
  tracks (t:=t) b e slots ∅ -> cache_ok (t:=t) b (outsourced_new (H:=H) comm slots ro kind n root a e vh).
Proof.
  intros Hslots Htape Hn Ha He. split; cbn; rewrite ?length_replicate; try done.
  - intros s c [-> _]%lookup_replicate. split; [done|]. by apply (Forall_replicate _ 256).
  - exists ∅. split; [done|]. intros s. split; [by intros ?%not_elem_of_empty|].
    intros [c [Hs Hv]]. cbn in Hs. apply lookup_replicate in Hs as [-> _]. done.
Qed.

Lemma new_content comm slots ro kind n root (a : AesCtr K) (e : ES) vh start data acc :
  let m := outsourced_new (H:=H) comm slots ro kind n root a e vh in
  0 <= start -> start + Z.of_nat (length data) <= 2 ^ 32 - 256 -> bytes_ok data ->
  acc_ok acc -> Accumulator.data acc = map (fun p => get_serialized_page p None) (initial_pages start data) ->
  checked_next_power_of_two n = Some (Z.of_nat (initial_size start data)) ->
  Accumulator.merkle_root acc = Ok root -> (kind = Code -> ro = true /\ hmac_genuine m (Accumulator.data acc)) ->
  content (acc_messages acc) m (pages_from 0 (initial_pages start data)) acc.
Proof.
  intros m Hs He Hb Hok Hd Hn Hr Hk.
  assert (length (Accumulator.data acc) = initial_size start data) as Hl.
  { rewrite Hd. unfold initial_pages. by rewrite !length_map, length_seq. }
  assert (forall s c, ~ cached m s c) as Hfree.
  { intros s c [Hsl Hv]. apply lookup_replicate in Hsl as [-> _]. done. }
  assert (forall i p, pages_from 0 (initial_pages start data) !! i = Some p ->
    (0 <= i /\ (Z.to_nat i < initial_size start data)%nat) /\ p = initial_page start data (Z.to_nat i)) as Hpages.
  { intros i p. rewrite lookup_pages_from, Z.sub_0_r. case_decide; [|done].
    intros (k & -> & [-> ?]%lookup_seq)%list_lookup_fmap_Some. rewrite Nat.add_0_l. by split_and!; try lia. }
  split; try done.
  - by rewrite Hl.
  - rewrite (acc_root _ Hok) in Hr. by injection Hr.
  - intros x Hx. apply elem_of_app. by left.
  - intros i [p Hp]. apply Hpages in Hp. rewrite Hl. lia.
  - intros i p [_ ->]%Hpages. by apply initial_page_ok.
  - intros s c Hc. by destruct (Hfree s c).
  - intros s s' c c' Hc. by destruct (Hfree s c).
  - intros i p [[Hi Hlt] ->]%Hpages _. exists None, (initial_page start data (Z.to_nat i)). split; [done|]. split; [|done].
    rewrite Hd, list_lookup_fmap. unfold initial_pages. rewrite list_lookup_fmap, lookup_seq_lt by done. done.
Qed.
Lemma new_last comm slots ro kind n root (a : AesCtr K) (e : ES) vh :
  last_ok (outsourced_new (H:=H) comm slots ro kind n root a e vh).
Proof. done. Qed.
End outsourced.

(** ** The properties *)

Section properties.
Context {H ES K : Type} `{HH : HashHistory H 32} `{PS : PageEvictionStrategy ES} `{DL : DeviceLaws K}.

(** The answers of the client are byte strings. *)
Definition bytes_tape (comm : Comm) : Prop := forall p1 p2 d, Continue p1 p2 d ∈ replies comm -> bytes_ok d.

(** C3. The outsourced memory of a segment computes what a memory of its pages computes: if a
    program of page accesses ends with a value over the memory that starts from the root of
    the segment, whatever the client answers and with either eviction strategy, then the
    program ends with that value over the pages in memory. The provisos: the program asks
    only for pages of the segment (over the pages in memory it does not fail with
    [PageNotFound]); a code segment is only read, and the client holds no HMAC of a wrong
    page of it; and no two different messages with the same hash are among those hashed in
    the run and for the first root. *)
Theorem outsourced_refines `{EL : !EvictionLaws ES Partial} {A} (p : accesses A)
    comm slots ro kind n (a : AesCtr K) (e : ES) vh start data seg root r m' :
  0 <= start -> start + Z.of_nat (length data) <= 2 ^ 32 - 256 -> bytes_ok data ->
  client_new (H:=H) start data = Ok seg -> get_content_root seg = Ok root ->
  checked_next_power_of_two n = Some (Z.of_nat (initial_size start data)) ->
  bytes_tape comm -> (0 < slots)%nat -> length (nonce a) = 12%nat ->
  tracks (t:=Partial) None e slots ∅ ->
  let m := outsourced_new (H:=H) comm slots ro kind n root a e vh in
  let in_memory := fst (run_accesses p (mkVecMemory (initial_pages start data))) in
  (kind = Code -> ro = true /\ hmac_genuine m (Accumulator.data (ClientMemory.content seg))) ->
  accesses_ok p -> ro = false \/ reads p -> in_memory <> Err PageNotFound ->
  run_accesses p m = (Ok r, m') ->
  collision_free (H:=H) (acc_messages (ClientMemory.content seg) ++ history (hasher m')) ->
  in_memory = Ok r.
Proof.
  intros Hs He Hb Hnew Hroot Hn Ht Hsl Ha Htr m in_memory Hk Hp Hro Hin Hrun Hcf.
  destruct (client_new_spec (H:=H) start data Hs He) as (acc & E & Hok & Hd).
  rewrite Hnew in E. injection E as ->. cbn [ClientMemory.content] in *.
  pose proof (run_accesses_flat p _ _ Hp (initial_view start data Hb)) as Hflat. unfold in_memory in *.
  destruct (run_accesses p (mkVecMemory _)) as [o vm']. cbn [fst] in *.
  destruct o as [r'|e'| |]; [|by destruct Hin|discriminate Hflat..]. destruct Hflat as (v' & Hv' & _).
  pose proof (wp_run_accesses (t:=Partial) eq_refl eq_refl p None m Hp (affords_none p)) as Hwp.
  eapply wp_ok in Hwp; [|by apply new_cache_ok|exact Hrun]. destruct Hwp as (_ & _ & Hres).
  f_equal. symmetry. eapply Hres; [split; [done|eexists; by eapply new_content]|exact Hv'|exact Hro|exact Hcf].
Qed.

(** C18. No client makes the outsourced memory panic: over any answers, a program of page
    accesses ends with a value or an error, or waits for an answer for ever, within the
    budget of accesses of the eviction strategy: any number with LRU, 2^32 - 1 with 2Q. *)
Theorem outsourced_no_panic `{EL : !EvictionLaws ES Blocking} {A} (p : accesses A) (b : budget)
    comm slots ro kind n root (a : AesCtr K) (e : ES) vh :
  is_Some (checked_next_power_of_two n) -> bytes_tape comm -> (0 < slots)%nat -> length (nonce a) = 12%nat ->
  tracks (t:=Blocking) b e slots ∅ -> affords b p -> accesses_ok p ->
  fst (run_accesses p (outsourced_new (H:=H) comm slots ro kind n root a e vh)) <> Panic.
Proof.
  intros Hn Ht Hsl Ha Htr Hb Hp.
  pose proof (wp_run_accesses (t:=Blocking) eq_refl eq_refl p b (outsourced_new comm slots ro kind n root a e vh) Hp
    Hb ltac:(by apply new_cache_ok)) as Hwp.
  unfold wp in Hwp. destruct (run_accesses p _) as [[]]; cbn; [done|done|by cbn in Hwp|done].
Qed.
End properties.

(** *** A concrete run

    A cache of one page over a segment of two: the first page is written, evicted to read
    the second one, and read back. The answers are those of the client's engine. *)

Definition demo_data : list Z := map Z.of_nat (seq 0 250).
Definition demo_client : ClientSegment :=
  match client_new (H:=Logged Toy32) 4112 demo_data with Ok s => s | _ => mkClientSegment (mkMerkleAccumulator [] []) end.
Definition demo_root : HashOutput := match get_content_root demo_client with Ok r => r | _ => [] end.
Definition demo_program : accesses (list Z) :=
  WritePage 0 (fun p => <[5%nat := 200]> p)
    (ReadPage 1 (fun p1 => ReadPage 0 (fun p0 => Done [nth 5 p0 0; nth 20 p0 0; nth 3 p1 0]))).
Definition demo_over {ES} `{PageEvictionStrategy ES} (e : ES) (tape : list Command) : OutsourcedMemory (Logged Toy32) ES Z :=
  outsourced_new (mkComm tape []) 1 false Data 2 demo_root (mkAesCtr 42 (replicate 12 0)) e [].
Abbreviation demo_memory := (demo_over (lru_new 1)).
(** 2Q over the one slot, with no FIFO queue kept for it. *)
Definition demo_twoq : TwoQEvictionStrategy := mkTwoQ [Free] 0 0 0 [] 1.

Definition demo_engine : VAppEngine (W:=unit) :=
  mkEngine demo_client demo_client demo_client [] [] tt None StatusOK [] None.
(** Asks the engine for the answers, one request after the other. *)
Fixpoint demo_dialogue (fuel : nat) (e : VAppEngine (W:=unit)) (tape : list Command) : list Command :=
  match fuel, run_accesses demo_program (demo_memory tape) with
  | S fuel, (Diverge, m) =>
      let request := default [] (last (sent (comm m))) in
      let '(_, e) := page_requests_loop (H:=Logged Toy32) 1 (InterruptedExecution, request)
                       (with_device [DeviceReply StatusOK []] [] e) in
      demo_dialogue fuel e (tape ++ map (fun c => Continue 0 0 (apdu_data c)) (exchanged e))
  | _, _ => tape
  end.
Definition demo_tape : list Command := Eval vm_compute in demo_dialogue 5 demo_engine [].

Definition bytes_tape_b (l : list Command) : bool :=
  forallb (fun c => match c with Continue _ _ d => forallb (fun b => (0 <=? b) && (b <? 256)) d | _ => true end) l.
Lemma bytes_tape_of c : bytes_tape_b (replies c) = true -> bytes_tape c.
Proof.
  unfold bytes_tape_b. rewrite forallb_forall. intros Hc p1 p2 d Hd. specialize (Hc _ (proj1 (list_elem_of_In _ _) Hd)).
  cbn in Hc. rewrite forallb_forall in Hc. apply Forall_forall. intros b Hb.
  specialize (Hc b (proj1 (list_elem_of_In _ _) Hb)). unfold is_u. apply andb_true_iff in Hc as [H1 H2].
  apply Z.leb_le in H1. apply Z.ltb_lt in H2. lia.
Qed.

Lemma demo_program_ok : accesses_ok demo_program.
Proof.
  split; [done|]. split; [|by repeat split]. intros p [Hl Hb]. split; [by rewrite length_insert|].
  by apply Forall_insert.
Qed.

Lemma demo_twoq_tracks t : tracks (t:=t) (Some 3%nat) demo_twoq 1 ∅.
Proof. apply (twoq_new_tracks t 1 0 1); [reflexivity|unfold u32_max; lia..]. Qed.
Lemma demo_program_affords : affords (Some 3%nat) demo_program.
Proof. by repeat split. Qed.
Lemma demo_data_ok : bytes_ok demo_data.
Proof.
  apply Forall_forall. intros b Hb%list_elem_of_In%in_map_iff. destruct Hb as (i & <- & Hi%in_seq).
  split; [lia|]. cbn. lia.
Qed.
Lemma demo_client_new : client_new (H:=Logged Toy32) 4112 demo_data = Ok demo_client.
Proof. vm_compute. reflexivity. Qed.
Lemma demo_client_root : get_content_root demo_client = Ok demo_root.
Proof. vm_compute. reflexivity. Qed.
Lemma demo_size : checked_next_power_of_two 2 = Some (Z.of_nat (initial_size 4112 demo_data)).
Proof. vm_compute. reflexivity. Qed.
Lemma demo_bytes : bytes_tape (mkComm demo_tape []).
Proof. apply bytes_tape_of. vm_compute. reflexivity. Qed.
Lemma demo_range : 4112 + Z.of_nat (length demo_data) <= 2 ^ 32 - 256.
Proof. vm_compute. discriminate. Qed.
(** The two runs return, and nothing collides in the first one. *)
Lemma demo_run : exists m',
  run_accesses demo_program (demo_memory demo_tape) = (Ok [200; 4; 243], m') /\
  fst (run_accesses demo_program (mkVecMemory (initial_pages 4112 demo_data))) <> Err PageNotFound /\
  collision_free (H:=Logged Toy32) (acc_messages (ClientMemory.content demo_client) ++ history (hasher m')).
Proof.
  eexists _. split; [vm_compute; reflexivity|]. split; [vm_compute; discriminate|].
  apply no_collision_free. vm_compute. reflexivity.
Qed.

Lemma outsourced_refines_witness :
  fst (run_accesses demo_program (demo_memory demo_tape)) = Ok [200; 4; 243] /\
  fst (run_accesses demo_program (mkVecMemory (initial_pages 4112 demo_data))) = Ok [200; 4; 243].
Proof.
  destruct demo_run as (m' & E & Ei & Hc). split; [rewrite E; exact eq_refl|].
  exact (outsourced_refines demo_program (mkComm demo_tape []) 1 false Data 2
    (mkAesCtr 42 (replicate 12 0)) (lru_new 1) [] 4112 demo_data demo_client demo_root _ m'
    ltac:(done) demo_range demo_data_ok demo_client_new demo_client_root demo_size demo_bytes
    (le_n 1) eq_refl (lru_tracks_new Partial None 1) ltac:(discriminate) demo_program_ok (or_introl eq_refl) Ei E Hc).
Defined.

(** An answer that is no command, and the engine's answers with a 2Q cache. *)
Lemma outsourced_no_panic_witness :
  fst (run_accesses demo_program (demo_memory [Undecodable])) <> Panic /\
  fst (run_accesses demo_program (demo_over demo_twoq demo_tape)) <> Panic.
Proof.
  split.
  - apply (outsourced_no_panic demo_program None); [by exists 2|by apply bytes_tape_of|lia|reflexivity|
      apply lru_tracks_new|apply affords_none|exact demo_program_ok].
  - apply (outsourced_no_panic demo_program (Some 3%nat)); [by exists 2|exact demo_bytes|lia|reflexivity|
      apply demo_twoq_tracks|exact demo_program_affords|exact demo_program_ok].
Defined.
