(* ===== verification/Honest.v ===== *)
(** * The client answers what the VM asks

    The engine of the client and the outsourced memory of the VM, run against each other:
    with the answers of the engine the VM loads the page that the client stores, and
    commits a page, proofs that need several messages included. So every program of page
    accesses runs to its end with the client's answers. *)

From S2P Require Import Prelude Memory MemorySpec Accumulator AccumulatorSpec ClientCommands ClientCommandsSpec Evict EvictSpec Aes AesSpec Auth History ClientMemory OutsourcedMem OutsourcedSpec OutsourcedRefine VanadiumClient.

(** ** Pieces of a list *)

Fixpoint chunks_fuel {A} (k max : nat) (l : list A) : list (list A) :=
  match k with
  | O => []
  | S k => match l with [] => [] | _ => take max l :: chunks_fuel k max (drop max l) end
  end.
(** [l] in pieces of [max] elements. *)
Definition chunks {A} (max : nat) (l : list A) : list (list A) := chunks_fuel (length l) max l.

Lemma chunks_fuel_eq {A} max k k' (l : list A) : (0 < max)%nat -> (length l <= k)%nat -> (length l <= k')%nat ->
  chunks_fuel k max l = chunks_fuel k' max l.
Proof.
  intros Hm. revert k' l; induction k as [|k IH]; intros k' l Hk Hk'.
  - destruct l; [by destruct k'|cbn in Hk; lia].
  - destruct k' as [|k']; [destruct l; [done|cbn in Hk'; lia]|]. cbn [chunks_fuel]. destruct l as [|x l]; [done|].
    f_equal. apply IH; rewrite length_drop; cbn [length] in *; lia.
Qed.
Lemma chunks_nil {A} max : chunks max (@nil A) = [].
Proof. done. Qed.
Lemma chunks_cons {A} max (l : list A) : (0 < max)%nat -> l <> [] ->
  chunks max l = take max l :: chunks max (drop max l).
Proof.
  intros Hm Hl. unfold chunks. destruct l as [|x l]; [done|]. cbn [length chunks_fuel]. f_equal.
  apply chunks_fuel_eq; [done|rewrite length_drop; cbn; lia|done].
Qed.
Lemma chunks_pos {A} max (l : list A) : (0 < max)%nat -> l <> [] -> (0 < length (chunks max l))%nat.
Proof. intros Hm Hl. rewrite chunks_cons by done. cbn. lia. Qed.

(** The elements that a message takes. *)
Lemma first_elements_eq (proof : list HashOutput) max : 0 <= max < 256 ->
  first_elements proof max =
    (Z.of_nat (length (take (Z.to_nat max) proof)), take (Z.to_nat max) proof).
Proof.
  intros Hm. unfold first_elements. unfold wrap. rewrite Z.mod_small by (change (2 ^ 8) with 256; lia).
  rewrite length_take. f_equal; [lia|]. destruct (Z.le_ge_cases (Z.of_nat (length proof)) max).
  - rewrite !take_ge; [done|lia..].
  - f_equal. lia.
Qed.

(** ** The client's side *)

Section client.
Context {W : Type}.
Implicit Types e : VAppEngine (W:=W).

Definition interrupted (msg : list Z) : Reply := DeviceReply InterruptedExecution msg.

Lemma wp_exchange t apdu s r dev x e (Q : StatusWord * list Z -> VAppEngine -> Prop) :
  Q (s, r) (with_device dev (x ++ [apdu]) e) ->
  wp t (exchange apdu) (with_device (DeviceReply s r :: dev) x e) Q.
Proof. intros HQ. exact HQ. Qed.

Lemma wp_send_proof_rest t k (max : nat) response continued msg s r dev last : forall rest x e Q,
  (0 < max < 256)%nat -> (length rest <= k)%nat -> rest <> [] -> continued msg = Ok tt ->
  Q (s, r) (with_device dev (x ++ map (fun c => apdu_continue (response (Z.of_nat (length c)) c)) (chunks max rest)) e) ->
  wp t (send_proof_rest k (Z.of_nat max) response continued rest last)
    (with_device (replicate (length (chunks max rest) - 1) (interrupted msg) ++ DeviceReply s r :: dev) x e) Q.
Proof.
  induction k as [|k IH]; intros rest x e Q Hm Hk Hr Hc HQ; [destruct rest; [done|cbn in Hk; lia]|].
  cbn [send_proof_rest]. destruct rest as [|h rest]; [done|]. set (l := h :: rest) in *.
  rewrite first_elements_eq by lia. cbv beta iota zeta. rewrite !Nat2Z.id.
  rewrite chunks_cons in HQ |- * by (lia || done). cbn [length]. rewrite Nat.sub_succ, Nat.sub_0_r.
  replace (drop (length (take max l)) l) with (drop max l).
  2: { rewrite length_take. destruct (Nat.le_gt_cases (length l) max).
       - rewrite Nat.min_r, !drop_ge by lia. done.
       - by rewrite Nat.min_l by lia. }
  cbn [map] in HQ. apply wp_bind. destruct (drop max l) as [|h' l'] eqn:Ed.
  - rewrite chunks_nil in *. cbn [length replicate app map] in *. apply wp_exchange. cbv beta iota. apply wp_ret, HQ.
  - pose proof (chunks_pos max (h' :: l') ltac:(lia) ltac:(done)) as Hpos.
    destruct (length (chunks max (h' :: l'))) as [|n] eqn:El; [lia|]. cbn [replicate app]. apply wp_exchange. cbv beta iota.
    apply wp_bind, wp_lift, wp_bind. unfold deserialized. rewrite Hc. apply wp_lift.
    replace n with (length (chunks max (h' :: l')) - 1)%nat by lia. apply IH; [done| |done|done|].
    + rewrite <- Ed, length_drop. cbn [length] in *. lia.
    + by rewrite <- app_assoc.
Qed.
End client.

(** ** The device's side *)

Section device.
Context {H ES K : Type} `{HH : HashHistory H 32} `{PS : PageEvictionStrategy ES} `{DL : DeviceLaws K}.
Abbreviation Mem := (OutsourcedMemory H ES K).
Implicit Types m : Mem.

(** The memory with what it talks to. *)
Definition talking (m : Mem) (h : H) (tape : list Command) (sent : list (list Z)) : Mem :=
  with_hasher h (with_comm (mkComm tape sent) m).
Definition answer (d : list Z) : Command := Continue 0 0 d.

Lemma wp_reply t msg m h d tape sent (Q : list Z -> Mem -> Prop) :
  Q d (talking m h tape (sent ++ [msg])) -> wp t (request msg) (talking m h (answer d :: tape) sent) Q.
Proof. intros HQ. exact HQ. Qed.

Lemma wp_feed_talking t v proof m h tape sent (Q : MerkleInclusionProofVerifier -> Mem -> Prop) :
  Q (fst (inclusion_feed_all v h proof)) (talking m (snd (inclusion_feed_all v h proof)) tape sent) ->
  wp t (feed_inclusion v proof) (talking m h tape sent) Q.
Proof.
  intros HQ. unfold feed_inclusion. apply wp_bind, wp_get. cbn [hasher talking with_hasher].
  by destruct (inclusion_feed_all v h proof).
Qed.
Lemma wp_feed_update_talking t v proof m h tape sent (Q : MerkleUpdateProofVerifier -> Mem -> Prop) :
  Q (fst (update_feed_all v h proof)) (talking m (snd (update_feed_all v h proof)) tape sent) ->
  wp t (feed_update v proof) (talking m h tape sent) Q.
Proof.
  intros HQ. unfold feed_update. apply wp_bind, wp_get. cbn [hasher talking with_hasher].
  by destruct (update_feed_all v h proof).
Qed.

Definition get_page_rest (rest : list HashOutput) : list (list Z) :=
  map (fun c => get_page_continued (Z.of_nat (length c)) c) (chunks 18 rest).
Definition commit_page_rest (rest : list HashOutput) : list (list Z) :=
  map (fun c => commit_page_continued (Z.of_nat (length c)) c) (chunks 18 rest).

Lemma chunk_valid (rest : list HashOutput) : Forall hash32 rest ->
  proof_valid (Z.of_nat (length (take 18 rest))) (take 18 rest).
Proof.
  intros Hr. split; [|by apply Forall_take]. rewrite length_take. split; [lia|]. change (2 ^ 8) with 256. lia.
Qed.

Lemma get_page_continued_read proof : proof_valid (Z.of_nat (length proof)) proof ->
  GetPageProofContinuedResponse.de (get_page_continued (Z.of_nat (length proof)) proof) =
  Ok (GetPageProofContinuedResponse.mk (Z.of_nat (length proof)) proof).
Proof. intros Hp. exact (round_trip (MessageSpec := get_page_continued_spec) (GetPageProofContinuedResponse.mk _ _) Hp). Qed.
Lemma commit_page_continued_read proof : proof_valid (Z.of_nat (length proof)) proof ->
  CommitPageProofContinuedResponse.de (commit_page_continued (Z.of_nat (length proof)) proof) =
  Ok (CommitPageProofContinuedResponse.mk (Z.of_nat (length proof)) proof).
Proof. intros Hp. exact (round_trip (MessageSpec := commit_continued_spec) (CommitPageProofContinuedResponse.mk _ _) Hp). Qed.

Lemma wp_load_chunks t k : forall rest v np n m h tape sent fuel (Q : MerkleInclusionProofVerifier -> Mem -> Prop),
  (length rest <= k)%nat -> Forall hash32 rest -> 0 <= np -> np + Z.of_nat (length rest) = n -> n < 256 ->
  (length (get_page_rest rest) + length tape < fuel)%nat ->
  Q (fst (inclusion_feed_all v h rest))
    (talking m (snd (inclusion_feed_all v h rest)) tape
       (sent ++ replicate (length (get_page_rest rest)) (serialize GetPageProofContinuedMessage.new))) ->
  wp t (load_continue fuel v np n) (talking m h (map answer (get_page_rest rest) ++ tape) sent) Q.
Proof.
  induction k as [|k IH]; intros rest v np n m h tape sent fuel Q Hk Hr Hnp Hn Hmax Hf HQ.
  all: destruct (decide (rest = [])) as [->|Hne];
    [destruct fuel; [cbn in Hf; lia|]; cbn [load_continue]; rewrite (proj2 (Z.ltb_ge _ _)) by (cbn in Hn; lia);
     apply wp_ret; cbn in HQ; by rewrite app_nil_r in HQ|].
  { destruct rest; [done|cbn in Hk; lia]. }
  assert (0 < length rest)%nat by (destruct rest; [done|cbn; lia]).
  destruct fuel as [|fuel]; [lia|]. cbn [load_continue]. rewrite (proj2 (Z.ltb_lt _ _)) by lia.
  unfold get_page_rest in *. rewrite chunks_cons in HQ, Hf |- * by (lia || done). cbn [map length app] in *.
  apply wp_bind, wp_reply. unfold parse.
  rewrite (get_page_continued_read _ (chunk_valid rest Hr)).
  apply wp_bind, wp_lift, wp_bind. unfold check. cbn [GetPageProofContinuedResponse.t_ GetPageProofContinuedResponse.proof].
  rewrite Z.eqb_refl. apply wp_lift, wp_bind, wp_feed_talking.
  assert (u32_add np (Z.of_nat (length (take 18 rest))) = np + Z.of_nat (length (take 18 rest))) as ->.
  { apply w32_small. rewrite length_take. lia. }
  apply (IH (drop 18 rest)); [rewrite length_drop; lia|by apply Forall_drop|lia| |done|lia|].
  { rewrite length_take, length_drop. lia. }
  rewrite <- app_assoc. pose proof (inclusion_feed_all_app v h (take 18 rest) (drop 18 rest)) as E.
  rewrite take_drop in E. rewrite E in HQ.
  destruct (inclusion_feed_all v h (take 18 rest)). exact HQ.
Qed.
Lemma wp_commit_chunks t k : forall rest v np n m h tape sent fuel (Q : MerkleUpdateProofVerifier -> Mem -> Prop),
  (length rest <= k)%nat -> Forall hash32 rest -> 0 <= np -> np + Z.of_nat (length rest) = n -> n < 256 ->
  (length (commit_page_rest rest) + length tape < fuel)%nat ->
  Q (fst (update_feed_all v h rest))
    (talking m (snd (update_feed_all v h rest)) tape
       (sent ++ replicate (length (commit_page_rest rest)) (serialize CommitPageProofContinuedMessage.new))) ->
  wp t (commit_continue fuel v np n) (talking m h (map answer (commit_page_rest rest) ++ tape) sent) Q.
Proof.
  induction k as [|k IH]; intros rest v np n m h tape sent fuel Q Hk Hr Hnp Hn Hmax Hf HQ.
  all: destruct (decide (rest = [])) as [->|Hne];
    [destruct fuel; [cbn in Hf; lia|]; cbn [commit_continue]; rewrite (proj2 (Z.ltb_ge _ _)) by (cbn in Hn; lia);
     apply wp_ret; cbn in HQ; by rewrite app_nil_r in HQ|].
  { destruct rest; [done|cbn in Hk; lia]. }
  assert (0 < length rest)%nat by (destruct rest; [done|cbn; lia]).
  destruct fuel as [|fuel]; [lia|]. cbn [commit_continue]. rewrite (proj2 (Z.ltb_lt _ _)) by lia.
  unfold commit_page_rest in *. rewrite chunks_cons in HQ, Hf |- * by (lia || done). cbn [map length app] in *.
  apply wp_bind, wp_reply. unfold parse.
  rewrite (commit_page_continued_read _ (chunk_valid rest Hr)).
  apply wp_bind, wp_lift, wp_bind. unfold check. cbn [CommitPageProofContinuedResponse.t_ CommitPageProofContinuedResponse.proof].
  rewrite Z.eqb_refl. apply wp_lift, wp_bind, wp_feed_update_talking.
  assert (u32_add np (Z.of_nat (length (take 18 rest))) = np + Z.of_nat (length (take 18 rest))) as ->.
  { apply w32_small. rewrite length_take. lia. }
  apply (IH (drop 18 rest)); [rewrite length_drop; lia|by apply Forall_drop|lia| |done|lia|].
  { rewrite length_take, length_drop. lia. }
  rewrite <- app_assoc. pose proof (update_feed_all_app v h (take 18 rest) (drop 18 rest)) as E.
  rewrite take_drop in E. rewrite E in HQ.
  destruct (update_feed_all v h (take 18 rest)). exact HQ.
Qed.
End device.

(** ** Proofs that fit the messages *)

Section proofs.
Context {H : Type} `{HL : HasherLaws H 32}.
Hypothesis hash_bytes : forall d, bytes_ok (hash (H:=H) d).

Lemma hash_hash32 d : hash32 (hash (H:=H) d).
Proof. split; [apply hash_length|apply hash_bytes]. Qed.

Lemma tree_hash32 acc j : acc_ok acc -> (j < 2 * length (data acc) - 1)%nat -> hash32 (at_ (tree acc) j).
Proof.
  intros [_ [Hp Hl Hlv Hn]] Hj. rewrite length_fmap in *. destruct (decide (j < length (data acc) - 1)%nat) as [Hlt|Hge].
  - rewrite Hn by done. apply hash_hash32.
  - replace j with (length (data acc) - 1 + (j - (length (data acc) - 1)))%nat by lia. rewrite Hlv by lia.
    destruct (lookup_lt_is_Some_2 (data acc) (j - (length (data acc) - 1))) as [d Hd]; [lia|].
    rewrite (leaf_at _ _ _ Hd). apply hash_hash32.
Qed.
Lemma siblings_hash32 acc fuel p : acc_ok acc -> (p < 2 * length (data acc) - 1)%nat ->
  Forall hash32 (siblings fuel (tree acc) p).
Proof.
  intros Hok. revert p; induction fuel as [|fuel IH]; intros p Hp; cbn [siblings]; [constructor|].
  destruct (Nat.ltb_spec 0 p); [|constructor]. pose proof (parent_lt p ltac:(done)).
  constructor; [|apply IH; lia]. apply tree_hash32; [done|]. by apply sibling_bound.
Qed.
Lemma siblings_length fuel (t : list HashOutput) p k : Z.of_nat p + 1 < 2 ^ (Z.of_nat k + 1) ->
  (length (siblings fuel t p) <= k)%nat.
Proof.
  revert p k; induction fuel as [|fuel IH]; intros p k Hp; cbn [siblings]; [cbn; lia|].
  destruct (Nat.ltb_spec 0 p) as [Hpos|]; [|cbn; lia]. cbn [length].
  destruct k as [|k]; [change (2 ^ (Z.of_nat 0 + 1)) with 2 in Hp; lia|]. apply le_n_S, IH.
  replace (Z.of_nat (S k) + 1) with (Z.succ (Z.of_nat k + 1)) in Hp by lia. rewrite Z.pow_succ_r in Hp by lia.
  destruct (parent_cases p Hpos) as [(E & _)|(E & _)]; lia.
Qed.
(** The proof of an element: hashes, and few of them. *)
Definition proof_of (acc : MerkleAccumulator) (i : Z) : list HashOutput :=
  siblings (length (data acc) - 1 + Z.to_nat i) (tree acc) (length (data acc) - 1 + Z.to_nat i).
Lemma proof_of_ok acc i : acc_ok acc -> 0 <= i < Z.of_nat (length (data acc)) ->
  Z.of_nat (length (data acc)) <= 2 ^ 31 ->
  Forall hash32 (proof_of acc i) /\ (length (proof_of acc i) <= 32)%nat /\
  ((2 <= length (data acc))%nat -> (0 < length (proof_of acc i))%nat).
Proof.
  intros Hok Hi Hn. split_and!.
  - apply siblings_hash32; [done|lia].
  - apply siblings_length. change (2 ^ (Z.of_nat 32 + 1)) with (2 * 2 ^ 32). lia.
  - intros H2. unfold proof_of. destruct (length (data acc) - 1 + Z.to_nat i)%nat eqn:E; [lia|]. cbn. lia.
Qed.

Lemma client_get_page_spec acc i x : acc_ok acc -> data acc !! Z.to_nat i = Some x ->
  client_get_page (mkClientSegment acc) i = Ok (x, proof_of acc i).
Proof.
  intros Hok Hx. unfold client_get_page, merkle_get. cbn [ClientMemory.content]. rewrite Hx. cbn [ok_or mbind outcome_mbind outcome_bind].
  rewrite prove_spec by (done || by eapply lookup_lt_Some). done.
Qed.
Lemma client_store_page_spec acc i x : acc_ok acc -> 0 <= i < Z.of_nat (length (data acc)) -> length x = 269%nat ->
  exists acc', client_store_page (H:=H) i x (mkClientSegment acc) =
      (Ok (proof_of acc i, at_ (tree acc') 0), mkClientSegment acc') /\
    acc_ok acc' /\ data acc' = <[Z.to_nat i := x]> (data acc) /\ proof_of acc' i = proof_of acc i.
Proof.
  intros Hok Hi Hx. unfold client_store_page. rewrite Hx. cbn [ClientMemory.content Nat.eqb negb].
  destruct (merkle_update_spec (H:=H) acc (Z.to_nat i) x Hok ltac:(lia)) as (t' & E & Hok' & Hs). cbv zeta in E, Hs.
  rewrite E. exists (mkMerkleAccumulator (<[Z.to_nat i := x]> (data acc)) t'). split; [done|].
  split; [done|]. split; [done|]. unfold proof_of. cbn [data tree].
  rewrite length_insert. exact Hs.
Qed.
End proofs.

(** ** Loading a page *)

(** The answers to a request for a page. *)
Definition page_response (nonce : option (list Z)) (d : list Z) (proof : list HashOutput) : list (list Z) :=
  serialize (GetPageResponse.mk d (bool_decide (is_Some nonce)) (default (replicate 12 0) nonce)
    (Z.of_nat (length proof)) (Z.of_nat (length (take 9 proof))) Merkle (take 9 proof))
  :: get_page_rest (drop 9 proof).
(** What the VM asks for while it loads a page. *)
Definition page_request (kind : SectionKind) (i : Z) : list Z := serialize (GetPageMessage.new kind i).
Definition page_continued (proof : list HashOutput) : list (list Z) :=
  replicate (length (get_page_rest (drop 9 proof))) (serialize GetPageProofContinuedMessage.new).

Lemma page_message_read nonce d : page_parts nonce d ->
  let m := page_message nonce d in
  length m = 269%nat /\ drop 13 m = d /\
  negb (nth 0 m 0 =? 0) = bool_decide (is_Some nonce) /\ slice 1 12 m = default (replicate 12 0) nonce.
Proof.
  intros [Hd Hn] m. subst m. unfold page_message. destruct nonce as [n|]; cbn [default].
  - split_and!; [cbn; rewrite length_app; lia| |done|].
    + change (drop 13 (([1] ++ n) ++ d)) with (drop 12 (n ++ d)). rewrite <- Hn. apply drop_app_length.
    + unfold slice. change (drop 1 (([1] ++ n) ++ d)) with (n ++ d). rewrite <- Hn. apply take_app_length.
  - split_and!; [by rewrite length_app, length_replicate, Hd|done..].
Qed.
Lemma page_message_bytes nonce d : page_parts nonce d -> bytes_ok (page_message nonce d) ->
  bytes_ok d /\ nonce_ok (bool_decide (is_Some nonce)) (default (replicate 12 0) nonce).
Proof.
  intros [Hd Hn] Hb. apply Forall_app in Hb as [Hb Hbd]. split; [done|]. destruct nonce as [n|].
  - split; [done|]. split; [by apply Forall_app in Hb as [_ ?]|done].
  - apply zero_nonce_ok.
Qed.

Section load.
Context {H ES K : Type} `{HH : HashHistory H 32} `{PS : PageEvictionStrategy ES} `{DL : DeviceLaws K}.
Context {W : Type}.
Abbreviation Mem := (OutsourcedMemory H ES K).
Implicit Types (m : Mem) (e : VAppEngine (W:=W)).
Hypothesis hash_bytes : forall d, bytes_ok (hash (H:=H) d).

Definition segment_of (kind : SectionKind) e : ClientSegment :=
  match kind with Code => code_seg e | Data => data_seg e | Stack => stack_seg e end.

(** The element of the accumulator is the page, and small enough messages carry it. *)
Definition page_at (acc : MerkleAccumulator) (i : Z) (nonce : option (list Z)) (d : list Z) : Prop :=
  acc_ok acc /\ Z.of_nat (length (data acc)) <= 2 ^ 31 /\ 0 <= i < Z.of_nat (length (data acc)) /\
  data acc !! Z.to_nat i = Some (page_message nonce d) /\ page_parts nonce d /\ bytes_ok (page_message nonce d).

Lemma page_response_valid acc i nonce d : page_at acc i nonce d ->
  get_page_response_valid (GetPageResponse.mk d (bool_decide (is_Some nonce)) (default (replicate 12 0) nonce)
    (Z.of_nat (length (proof_of acc i))) (Z.of_nat (length (take 9 (proof_of acc i)))) Merkle
    (take 9 (proof_of acc i))).
Proof.
  intros (Hok & Hn & Hi & Hx & Hp & Hb). destruct (page_message_bytes _ _ Hp Hb) as [Hbd Hnn].
  destruct (proof_of_ok hash_bytes acc i Hok Hi Hn) as (Hh & Hl & _).
  split; [apply Hp|]. split; [done|]. split; [done|]. cbn. unfold is_u. change (2 ^ 8) with 256.
  rewrite length_take. split_and!; try lia. by apply Forall_take.
Qed.

(** The client's side. *)
Lemma wp_process_get_page t kind i nonce d acc s r dev x e (Q : StatusWord * list Z -> VAppEngine -> Prop) :
  segment_of kind e = mkClientSegment acc -> page_at acc i nonce d ->
  (kind = Code -> code_hmacs e = None) ->
  Q (s, r) (with_device dev (x ++ map apdu_continue (page_response nonce d (proof_of acc i))) e) ->
  wp t (process_get_page (page_request kind i))
    (with_device (map interrupted (page_continued (proof_of acc i)) ++ DeviceReply s r :: dev) x e) Q.
Proof.
  intros Hseg Hpage Hcode HQ. pose proof Hpage as (Hok & Hn & Hi & Hx & Hp & Hb).
  destruct (proof_of_ok hash_bytes acc i Hok Hi Hn) as (Hh & Hl & _).
  destruct (page_message_read _ _ Hp) as (R1 & R2 & R3 & R4). unfold process_get_page, page_request.
  assert (get_page_valid (GetPageMessage.new kind i)) as Hv by (split; [done|unfold is_u; cbn; lia]).
  pose proof (round_trip (MessageSpec := get_page_spec) _ Hv) as Hde. cbn [deserialize GetPageMessage.message] in Hde.
  rewrite Hde. apply wp_bind, wp_lift, wp_bind, wp_get.
  cbn [GetPageMessage.section_kind GetPageMessage.page_index GetPageMessage.new].
  set (e' := with_device _ x e). change (match kind with Code => code_seg e' | Data => data_seg e' | Stack => stack_seg e' end) with (segment_of kind e').
  assert (segment_of kind e' = mkClientSegment acc) as -> by (rewrite <- Hseg; by destruct kind).
  rewrite (client_get_page_spec acc i _ Hok Hx). apply wp_bind, wp_lift, wp_bind. rewrite R1. apply wp_lift.
  rewrite R2, R3, R4. set (proof := proof_of acc i) in *.
  assert (wp t (let '(t0, elements) := first_elements proof GetPageResponse.max_proof_size in
      let n := w8 (Z.of_nat (length proof)) in
      '(status, result) ← exchange (apdu_continue (serialize
        (GetPageResponse.mk d (bool_decide (is_Some nonce)) (default (replicate 12 0) nonce) n t0 Merkle elements)));
      if t0 <? n then
        ensure (is_interrupted status && negb (bool_decide (result = []))) InterruptedExecutionExpected;;
        deserialized (unit_of (GetPageProofContinuedMessage.de result));;
        send_proof_rest (length proof) GetPageProofContinuedResponse.max_proof_size get_page_continued
          (fun r => unit_of (GetPageProofContinuedMessage.de r)) (drop (Z.to_nat t0) proof) (status, result)
      else mret (status, result)) e' Q) as Hgoal.
  2: { destruct kind; [|exact Hgoal..]. change (code_hmacs e') with (code_hmacs e). by rewrite (Hcode eq_refl). }
  change GetPageResponse.max_proof_size with (Z.of_nat 9). rewrite first_elements_eq by lia. cbv beta iota zeta.
  assert (w8 (Z.of_nat (length proof)) = Z.of_nat (length proof)) as ->.
  { apply wrap_small. unfold is_u. change (2 ^ 8) with 256. lia. }
  rewrite !Nat2Z.id. unfold page_response in HQ. cbn [map] in HQ. subst e'. apply wp_bind.
  unfold page_continued. destruct (Z.ltb_spec (Z.of_nat (length (take 9 proof))) (Z.of_nat (length proof))) as [Hlt|Hge].
  - rewrite length_take in Hlt. assert (drop 9 proof <> []) as Hne.
    { intros E. apply (f_equal length) in E. rewrite length_drop in E. cbn in E. lia. }
    pose proof (chunks_pos 18 (drop 9 proof) ltac:(lia) Hne) as Hpos. unfold get_page_rest in *. rewrite length_map.
    destruct (length (chunks 18 (drop 9 proof))) as [|n] eqn:El; [lia|]. cbn [replicate map app]. apply wp_exchange.
    cbv beta iota. apply wp_bind, wp_lift, wp_bind, wp_lift.
    change GetPageProofContinuedResponse.max_proof_size with (Z.of_nat 18).
    rewrite length_take, Nat.min_l by lia. change (map interrupted) with (fmap (M:=list) interrupted). rewrite fmap_replicate. replace n with (length (chunks 18 (drop 9 proof)) - 1)%nat by lia.
    apply wp_send_proof_rest; [lia|rewrite length_drop; lia|done|done|]. rewrite <- app_assoc. rewrite map_map, length_take, Nat.min_l in HQ by lia. exact HQ.
  - rewrite length_take in Hge. unfold get_page_rest in *. rewrite drop_ge in HQ |- * by lia. cbn [chunks length chunks_fuel map replicate app] in *.
    apply wp_exchange. cbv beta iota. apply wp_ret. exact HQ.
Qed.

(** A page of code with its HMAC, which takes one answer. *)
Definition hmac_response (d mac : list Z) : list Z :=
  serialize (GetPageResponse.mk d false (replicate 12 0) 1 1 Hmac [mac]).
Lemma wp_process_get_page_hmac t i d acc macs mac s r dev x e (Q : StatusWord * list Z -> VAppEngine -> Prop) :
  code_seg e = mkClientSegment acc -> page_at acc i None d ->
  code_hmacs e = Some macs -> macs !! Z.to_nat i = Some mac ->
  Q (s, r) (with_device dev (x ++ [apdu_continue (hmac_response d mac)]) e) ->
  wp t (process_get_page (page_request Code i)) (with_device (DeviceReply s r :: dev) x e) Q.
Proof.
  intros Hseg Hpage Hcode Hm HQ. pose proof Hpage as (Hok & Hn & Hi & Hx & Hp & Hb).
  destruct (page_message_read _ _ Hp) as (R1 & R2 & R3 & R4). unfold process_get_page, page_request.
  assert (get_page_valid (GetPageMessage.new Code i)) as Hv by (split; [done|unfold is_u; cbn; lia]).
  pose proof (round_trip (MessageSpec := get_page_spec) _ Hv) as Hde. cbn [deserialize GetPageMessage.message] in Hde.
  rewrite Hde. apply wp_bind, wp_lift, wp_bind, wp_get.
  cbn [GetPageMessage.section_kind GetPageMessage.page_index GetPageMessage.new].
  set (e' := with_device _ x e). change (code_seg e') with (code_seg e). rewrite Hseg.
  rewrite (client_get_page_spec acc i _ Hok Hx). apply wp_bind, wp_lift, wp_bind. rewrite R1. apply wp_lift.
  rewrite R2, R3, R4. change (code_hmacs e') with (code_hmacs e). rewrite Hcode.
  apply wp_bind, wp_lift, wp_bind, wp_lift, wp_bind. rewrite Hm. apply wp_lift, wp_exchange. exact HQ.
Qed.

(** The device's side. *)
Lemma wp_load_hmac_talking t i d mac m h tape sent (Q : Page * HashOutput -> Mem -> Prop) :
  page_parts None d -> bytes_ok d -> hash32 mac -> section_kind m = Code ->
  compute_code_page_hmac (get_vapp_auth_key (H:=H) (vapp_hash m)) (vapp_hash m) i (leaf (page_message None d)) = Ok mac ->
  (forall h', Q (d, leaf (page_message None d)) (talking m h' tape (sent ++ [page_request Code i]))) ->
  wp t (load_page i) (talking m h (answer (hmac_response d mac) :: tape) sent) Q.
Proof.
  intros Hp Hb H32 Hk Hcmp HQ.
  assert (get_page_response_valid (GetPageResponse.mk d false (replicate 12 0) 1 1 Hmac [mac])) as Hv.
  { split; [apply Hp|]. split; [done|]. split; [apply zero_nonce_ok|]. cbn. split_and!; try done. by constructor. }
  unfold load_page. apply wp_bind, wp_get, wp_bind. change (section_kind (talking m h ?a ?b)) with (section_kind m).
  rewrite Hk. apply wp_reply. unfold parse. pose proof (round_trip (MessageSpec := get_page_response_spec) _ Hv) as Hde.
  cbn [deserialize GetPageResponse.message] in Hde. unfold hmac_response. rewrite Hde. apply wp_bind, wp_lift.
  cbn [GetPageResponse.page_data GetPageResponse.is_encrypted GetPageResponse.proof_kind].
  apply wp_bind. unfold page_hash_of. apply wp_bind, wp_get. cbn [hasher talking with_hasher].
  destruct (get_page_hash_spec h d None) as [E1 _]. destruct (get_page_hash h d None) as [lf h1]. cbn [fst] in E1. subst lf.
  apply wp_bind, wp_put, wp_ret. change (with_hasher h1 (talking m h ?a ?b)) with (talking m h1 a b).
  unfold load_hmac, check.
  cbn [GetPageResponse.is_encrypted GetPageResponse.n GetPageResponse.t_ GetPageResponse.proof GetPageResponse.page_data guard_err
    Z.eqb Pos.eqb negb orb length Nat.eqb lookup list_lookup unwrap].
  do 4 apply wp_bind, wp_lift. apply wp_bind, wp_get. change (section_kind (talking m h1 ?a ?b)) with (section_kind m).
  change (vapp_hash (talking m h1 ?a ?b)) with (vapp_hash m). rewrite Hk, bool_decide_true by done.
  apply wp_bind, wp_lift. rewrite Hcmp. apply wp_bind, wp_lift. rewrite bool_decide_true by done.
  apply wp_bind, wp_lift, wp_ret, HQ.
Qed.
Lemma inclusion_complete acc i nonce d (hs : H) : page_at acc i nonce d ->
  verified (fst (inclusion_feed_all (begin_inclusion_proof (at_ (tree acc) 0) (leaf (page_message nonce d)) i
    (Z.of_nat (length (data acc)))) hs (proof_of acc i))) = true.
Proof.
  intros (Hok & Hn & Hi & Hx & _). rewrite (begin_root_from _ _ _ _ _ hs) by (split; [done|lia]).
  rewrite Nat2Z.id. apply bool_decide_eq_true. by apply acc_complete.
Qed.

Lemma feed_pieces {A} (feed : list HashOutput -> A) n (proof : list HashOutput) :
  feed (take n proof ++ drop n proof) = feed proof.
Proof. by rewrite take_drop. Qed.

Lemma wp_load_talking t i nonce d acc p m h tape sent (Q : Page * HashOutput -> Mem -> Prop) :
  page_at acc i nonce d -> plain (key (aes_ctr m)) nonce d p ->
  checked_next_power_of_two (n_pages m) = Some (Z.of_nat (length (data acc))) ->
  merkle_root m = at_ (tree acc) 0 ->
  (forall h', Q (p, leaf (page_message nonce d))
     (talking m h' tape (sent ++ page_request (section_kind m) i :: page_continued (proof_of acc i)))) ->
  wp t (load_page i) (talking m h (map answer (page_response nonce d (proof_of acc i)) ++ tape) sent) Q.
Proof.
  intros Hpage Hpl Hsz Hroot HQ. pose proof (page_response_valid _ _ _ _ Hpage) as Hv.
  pose proof Hpage as (Hok & Hn & Hi & Hx & Hp & Hb). destruct (proof_of_ok hash_bytes acc i Hok Hi Hn) as (Hh & Hl & _).
  set (proof := proof_of acc i) in *. unfold load_page. apply wp_bind, wp_get, wp_bind. unfold page_response. cbn [map app].
  apply wp_reply. unfold parse.
  pose proof (round_trip (MessageSpec := get_page_response_spec) _ Hv) as Hde.
  cbn [deserialize GetPageResponse.message] in Hde. rewrite Hde. apply wp_bind, wp_lift.
  cbn [GetPageResponse.page_data GetPageResponse.is_encrypted GetPageResponse.nonce GetPageResponse.proof_kind].
  assert ((if bool_decide (is_Some nonce) then Some (default (replicate 12 0) nonce) else None) = nonce) as ->
    by (by destruct nonce).
  apply wp_bind. unfold page_hash_of. apply wp_bind, wp_get. cbn [hasher talking with_hasher].
  destruct (get_page_hash_spec h d nonce) as [E1 _].
  destruct (get_page_hash h d nonce) as [lf h1]. cbn [fst] in E1. subst lf. apply wp_bind, wp_put, wp_ret.
  change (with_hasher h1 (talking m h ?a ?b)) with (talking m h1 a b). unfold load_merkle.
  cbn [GetPageResponse.n GetPageResponse.t_ GetPageResponse.proof GetPageResponse.is_encrypted GetPageResponse.nonce GetPageResponse.page_data].
  apply wp_bind. unfold check. rewrite Z.eqb_refl. apply wp_lift, wp_bind, wp_get. cbn [n_pages talking with_hasher with_comm merkle_root].
  rewrite Hsz. apply wp_bind, wp_lift, wp_bind, wp_feed_talking, wp_bind, wp_get, wp_bind.
  apply (wp_load_chunks t (length (drop 9 proof))); [done|by apply Forall_drop|lia|rewrite length_take, length_drop; lia|lia| |].
  { cbn. rewrite length_app, length_map. lia. }
  pose proof (inclusion_feed_all_app (begin_inclusion_proof (merkle_root m) (leaf (page_message nonce d)) i
    (Z.of_nat (length (data acc)))) h1 (take 9 proof) (drop 9 proof)) as Ef. rewrite take_drop in Ef.
  pose proof (inclusion_complete acc i nonce d h1 Hpage) as Hver. fold proof in Hver. rewrite <- Hroot, Ef in Hver.
  destruct (inclusion_feed_all (begin_inclusion_proof _ _ _ _) h1 (take 9 proof)) as [v1 h2]. cbn [fst snd] in *.
  rewrite Hver. apply wp_bind, wp_lift.
  specialize (HQ (snd (inclusion_feed_all v1 h2 (drop 9 proof)))). rewrite cons_middle, app_assoc in HQ.
  destruct nonce as [n|].
  - rewrite bool_decide_true by by eexists. change (default (replicate 12 0) (Some n)) with n. apply wp_bind, wp_get. cbn [aes_ctr talking with_hasher with_comm].
    assert (decrypt cx_aes_enc_block (aes_ctr m) n d = Ok p) as Hdec by exact Hpl. rewrite Hdec. apply wp_bind, wp_lift.
    assert (length p = 256%nat) as ->.
    { unfold decrypt, decrypt_with_initial_counter, process_with_counter in Hdec.
      apply process_involutive in Hdec as [-> _]. apply Hp. }
    apply wp_bind, wp_lift, wp_ret. exact HQ.
  - rewrite bool_decide_false by by intros []. cbn in Hpl. subst p. apply wp_ret. exact HQ.
Qed.
End load.

(** ** Committing a page *)

Definition commit_response (root : HashOutput) (proof : list HashOutput) : list (list Z) :=
  serialize (CommitPageProofResponse.mk (Z.of_nat (length proof)) (Z.of_nat (length (take 17 proof))) root
    (take 17 proof))
  :: commit_page_rest (drop 17 proof).
Definition commit_request (kind : SectionKind) (i : Z) (nonce d : list Z) : list Z :=
  serialize (CommitPageMessage.new kind i true nonce d).
Definition commit_continued (proof : list HashOutput) : list (list Z) :=
  replicate (length (commit_page_rest (drop 17 proof))) (serialize CommitPageProofContinuedMessage.new).

Section commit.
Context {H ES K : Type} `{HH : HashHistory H 32} `{PS : PageEvictionStrategy ES} `{DL : DeviceLaws K}.
Context {W : Type}.
Abbreviation Mem := (OutsourcedMemory H ES K).
Implicit Types (m : Mem) (e : VAppEngine (W:=W)).
Hypothesis hash_bytes : forall d, bytes_ok (hash (H:=H) d).

Definition with_segment (kind : SectionKind) (s : ClientSegment) e : VAppEngine :=
  match kind with Code => e | Data => with_data_seg s e | Stack => with_stack_seg s e end.

(** [acc'] is [acc] with the page stored at [i]. *)
Definition page_stored (acc acc' : MerkleAccumulator) (i : Z) (nonce d : list Z) : Prop :=
  acc_ok acc /\ Z.of_nat (length (data acc)) <= 2 ^ 31 /\ 0 <= i < Z.of_nat (length (data acc)) /\
  page_parts (Some nonce) d /\ bytes_ok nonce /\ bytes_ok d /\ acc_ok acc' /\
  data acc' = <[Z.to_nat i := page_message (Some nonce) d]> (data acc) /\ proof_of acc' i = proof_of acc i /\
  client_store_page (H:=H) i (page_message (Some nonce) d) (mkClientSegment acc) =
    (Ok (proof_of acc i, at_ (tree acc') 0), mkClientSegment acc').

Lemma commit_response_valid acc acc' i nonce d : page_stored acc acc' i nonce d ->
  commit_proof_valid (CommitPageProofResponse.mk (Z.of_nat (length (proof_of acc i)))
    (Z.of_nat (length (take 17 (proof_of acc i)))) (at_ (tree acc') 0) (take 17 (proof_of acc i))).
Proof.
  intros (Hok & Hn & Hi & _ & _ & _ & Hok' & Hd & _). destruct (proof_of_ok hash_bytes acc i Hok Hi Hn) as (Hh & Hl & _).
  split; [cbn; unfold is_u; change (2 ^ 8) with 256; lia|]. split.
  - apply (tree_hash32 hash_bytes _ _ Hok'). rewrite Hd, length_insert. lia.
  - split; [|by apply Forall_take]. cbn. rewrite length_take. unfold is_u. change (2 ^ 8) with 256. lia.
Qed.

Lemma store_page_eq t kind i x acc acc' proof root e (Q : list HashOutput * HashOutput -> VAppEngine -> Prop) :
  kind <> Code -> segment_of kind e = mkClientSegment acc ->
  client_store_page (H:=H) i x (mkClientSegment acc) = (Ok (proof, root), mkClientSegment acc') ->
  Q (proof, root) (with_segment kind (mkClientSegment acc') e) ->
  wp t (store_page (H:=H) kind i x) e Q.
Proof.
  intros Hk Hs E HQ. destruct kind; [done|..]; apply wp_map_err, wp_zoom; cbn [segment_of] in Hs; rewrite Hs;
    unfold wp; rewrite E; exact HQ.
Qed.

(** The client's side. *)
Lemma wp_process_commit_page t kind i nonce d acc acc' s r dev x e (Q : StatusWord * list Z -> VAppEngine -> Prop) :
  kind <> Code -> segment_of kind e = mkClientSegment acc -> page_stored acc acc' i nonce d ->
  Q (s, r) (with_device dev (x ++ map apdu_continue (commit_response (at_ (tree acc') 0) (proof_of acc i)))
    (with_segment kind (mkClientSegment acc') e)) ->
  wp t (process_commit_page (H:=H) (commit_request kind i nonce d))
    (with_device (map interrupted (commit_continued (proof_of acc i)) ++ DeviceReply s r :: dev) x e) Q.
Proof.
  intros Hkind Hseg Hst HQ. pose proof Hst as (Hok & Hn & Hi & Hp & Hbn & Hbd & _ & _ & _ & E).
  destruct (proof_of_ok hash_bytes acc i Hok Hi Hn) as (Hh & Hl & _). set (proof := proof_of acc i) in *.
  unfold process_commit_page, commit_request.
  assert (commit_page_valid (CommitPageMessage.new kind i true nonce d)) as Hv.
  { split; [done|]. split; [unfold is_u; cbn; lia|]. split; [split; [apply Hp|by split]|]. split; [apply Hp|done]. }
  pose proof (round_trip (MessageSpec := commit_page_spec) _ Hv) as Hde. cbn [deserialize CommitPageMessage.message] in Hde.
  rewrite Hde. apply wp_bind, wp_lift, wp_bind.
  cbn [CommitPageMessage.section_kind CommitPageMessage.page_index CommitPageMessage.is_encrypted CommitPageMessage.nonce
    CommitPageMessage.data CommitPageMessage.new].
  assert (forall e' (Q : unit -> VAppEngine -> Prop), Q tt e' ->
    wp t (match kind with Code => fail AccessViolation | _ => mret tt end : ST VAppEngine VAppEngineError unit) e' Q) as Hcode
    by (intros; by destruct kind).
  apply Hcode, wp_bind, wp_lift, wp_bind. cbn [bool_byte].
  assert ([1] ++ nonce ++ d = page_message (Some nonce) d) as -> by (cbn; done).
  eapply store_page_eq; [done|by destruct kind|exact E|]. cbv beta iota.
  change CommitPageProofResponse.max_proof_size with (Z.of_nat 17). rewrite first_elements_eq by lia. cbv beta iota zeta.
  assert (w8 (Z.of_nat (length proof)) = Z.of_nat (length proof)) as ->.
  { apply wrap_small. unfold is_u. change (2 ^ 8) with 256. lia. }
  rewrite !Nat2Z.id. unfold commit_response in HQ. cbn [map] in HQ. apply wp_bind.
  assert (forall d x, with_segment kind (mkClientSegment acc') (with_device d x e) =
    with_device d x (with_segment kind (mkClientSegment acc') e)) as -> by (intros; by destruct kind).
  unfold commit_continued. destruct (Z.ltb_spec (Z.of_nat (length (take 17 proof))) (Z.of_nat (length proof))) as [Hlt|Hge].
  - rewrite length_take in Hlt. assert (drop 17 proof <> []) as Hne.
    { intros E'. apply (f_equal length) in E'. rewrite length_drop in E'. cbn in E'. lia. }
    pose proof (chunks_pos 18 (drop 17 proof) ltac:(lia) Hne) as Hpos. unfold commit_page_rest in *. rewrite length_map.
    destruct (length (chunks 18 (drop 17 proof))) as [|n] eqn:El; [lia|]. cbn [replicate map app]. apply wp_exchange.
    cbv beta iota. apply wp_bind, wp_lift.
    change CommitPageProofContinuedResponse.max_proof_size with (Z.of_nat 18).
    rewrite length_take, Nat.min_l by lia. change (map interrupted) with (fmap (M:=list) interrupted).
    rewrite fmap_replicate. replace n with (length (chunks 18 (drop 17 proof)) - 1)%nat by lia.
    apply wp_send_proof_rest; [lia|rewrite length_drop; lia|done|done|]. rewrite <- app_assoc.
    rewrite map_map, length_take, Nat.min_l in HQ by lia. exact HQ.
  - rewrite length_take in Hge. unfold commit_page_rest in *. rewrite drop_ge in HQ |- * by lia.
    cbn [chunks length chunks_fuel map replicate app] in *. apply wp_exchange. cbv beta iota. apply wp_ret. exact HQ.
Qed.

(** The device's side. *)
Lemma update_complete acc acc' i old nonce d (hs : H) : page_stored acc acc' i nonce d ->
  data acc !! Z.to_nat i = Some old ->
  update_verified (fst (update_feed_all (begin_update_proof (at_ (tree acc) 0) (at_ (tree acc') 0) (leaf old)
    (leaf (page_message (Some nonce) d)) i (Z.of_nat (length (data acc)))) hs (proof_of acc i))) = true.
Proof.
  intros (Hok & Hn & Hi & _ & _ & _ & Hok' & Hd & Hpr & _) Hold. unfold begin_update_proof.
  rewrite update_feed_all_split. unfold update_verified. cbn [old_verifier new_verifier].
  rewrite !(begin_root_from _ _ _ _ _ hs) by (split; [done|lia]). rewrite Nat2Z.id.
  apply andb_true_iff. split; apply bool_decide_eq_true; [|by apply acc_complete].
  pose proof (acc_complete acc' (Z.to_nat i) (page_message (Some nonce) d) Hok') as Hc. cbv zeta in Hc.
  unfold proof_of in Hpr. rewrite Hd, length_insert in Hpr, Hc. rewrite Hpr in Hc.
  apply Hc. apply list_lookup_insert_eq. lia.
Qed.

Lemma wp_commit_talking t slot c acc acc' old nonce d a m h tape sent (Q : unit -> Mem -> Prop) :
  cached_pages m !! slot = Some c -> valid c = true ->
  encrypt cx_aes_enc_block (page c) (aes_ctr m) = (Ok (nonce, d), a) ->
  page_stored acc acc' (idx c) nonce d -> (2 <= length (data acc))%nat ->
  data acc !! Z.to_nat (idx c) = Some old -> page_hash c = leaf old ->
  checked_next_power_of_two (n_pages m) = Some (Z.of_nat (length (data acc))) ->
  merkle_root m = at_ (tree acc) 0 ->
  (forall h', Q tt (with_root (at_ (tree acc') 0) (with_aes a (talking m h' tape
     (sent ++ commit_request (section_kind m) (idx c) nonce d :: commit_continued (proof_of acc (idx c))))))) ->
  wp t (commit_page_at slot)
    (talking m h (map answer (commit_response (at_ (tree acc') 0) (proof_of acc (idx c))) ++ tape) sent) Q.
Proof.
  intros Hc Hval Henc Hst H2 Hold Hph Hsz Hroot HQ. pose proof (commit_response_valid _ _ _ _ _ Hst) as Hv.
  pose proof Hst as (Hok & Hn & Hi & Hp & Hbn & Hbd & Hok' & _).
  destruct (proof_of_ok hash_bytes acc (idx c) Hok Hi Hn) as (Hh & Hl & Hpos).
  set (proof := proof_of acc (idx c)) in *. unfold commit_page_at. apply wp_bind. unfold cached_at. apply wp_bind, wp_get.
  cbn [cached_pages talking with_hasher with_comm]. rewrite Hc. apply wp_lift, wp_bind. rewrite Hval. apply wp_lift, wp_bind.
  apply wp_map_err, wp_zoom. cbn [aes_ctr talking with_hasher with_comm]. unfold wp at 1. rewrite Henc.
  change (with_aes a (talking m h ?x ?y)) with (talking (with_aes a m) h x y).
  apply wp_bind. unfold page_hash_of. apply wp_bind, wp_get. cbn [hasher talking with_hasher].
  destruct (get_page_hash_spec h d (Some nonce)) as [E1 _].
  destruct (get_page_hash h d (Some nonce)) as [lf h1]. cbn [fst] in E1. subst lf. apply wp_bind, wp_put, wp_ret.
  change (with_hasher h1 (talking ?m0 h ?x ?y)) with (talking m0 h1 x y).
  apply wp_bind. rewrite (proj1 Hp). apply wp_lift, wp_bind, wp_get, wp_bind. unfold commit_response. cbn [map app].
  apply wp_reply. unfold parse.
  pose proof (round_trip (MessageSpec := commit_proof_spec) _ Hv) as Hde.
  cbn [deserialize CommitPageProofResponse.message] in Hde. rewrite Hde. apply wp_bind, wp_lift.
  cbn [CommitPageProofResponse.n CommitPageProofResponse.t_ CommitPageProofResponse.proof CommitPageProofResponse.new_root].
  apply wp_bind. unfold check. rewrite (proj2 (Z.eqb_neq _ _)) by (specialize (Hpos H2); lia). apply wp_lift, wp_bind.
  rewrite Z.eqb_refl. apply wp_lift, wp_bind, wp_get. unfold n_pages_adjusted.
  cbn [n_pages talking with_hasher with_comm merkle_root with_aes section_kind].
  rewrite Hsz. apply wp_bind, wp_lift, wp_bind, wp_feed_update_talking, wp_bind, wp_get, wp_bind.
  apply (wp_commit_chunks t (length (drop 17 proof))); [done|by apply Forall_drop|lia|rewrite length_take, length_drop; lia|lia| |].
  { cbn. rewrite length_app, length_map. lia. }
  pose proof (update_feed_all_app (begin_update_proof (merkle_root m) (at_ (tree acc') 0) (page_hash c)
    (leaf (page_message (Some nonce) d)) (idx c) (Z.of_nat (length (data acc)))) h1 (take 17 proof) (drop 17 proof)) as Ef.
  rewrite take_drop in Ef. pose proof (update_complete acc acc' (idx c) old nonce d h1 Hst Hold) as Hver.
  fold proof in Hver. rewrite <- Hroot, <- Hph, Ef in Hver.
  destruct (update_feed_all (begin_update_proof _ _ _ _ _ _) h1 (take 17 proof)) as [v1 h2]. cbn [fst snd] in *.
  rewrite Hver. apply wp_bind, wp_lift, wp_modify.
  specialize (HQ (snd (update_feed_all v1 h2 (drop 17 proof)))). rewrite cons_middle, app_assoc in HQ. exact HQ.
Qed.
End commit.
