(* ===== verification/HonestRun.v ===== *)
(** * Every program runs to its end with the client's answers

    The dialogue of the engine of the client with a whole program of page accesses over
    the outsourced memory: the cache is filled and evicted, dirty pages are committed, and
    the engine's segment follows the memory. *)

From S2P Require Import Prelude Memory MemorySpec Accumulator AccumulatorSpec ClientCommands ClientCommandsSpec Evict EvictSpec Aes AesSpec Auth History ClientMemory ClientMemorySpec OutsourcedMem OutsourcedSpec OutsourcedRefine VanadiumClient Honest Concrete Accesses.

(** ** The dialogue *)

Section dialogue.
Context {H ES K : Type} `{HH : HashHistory H 32} `{EL : EvictionLaws ES Total} `{DL : DeviceLaws K}.
Context {W : Type}.
Abbreviation Mem := (OutsourcedMemory H ES K).
Implicit Types (m : Mem) (e : VAppEngine (W:=W)) (bg : budget).
Hypothesis hash_bytes : forall d, bytes_ok (hash (H:=H) d).
(** The block cipher of the device does not fail. *)
Hypothesis enc_block_works : forall k block, fst (cx_aes_enc_block k block) = 0.

(** The request [msg] and the messages [cs] that the engine asks for get the answers
    [rs]. *)
Definition request_served e (msg : list Z) (cs rs : list (list Z)) e' : Prop :=
  exists b code, head msg = Some b /\ command_code_of b = Some code /\
    (code = GetPage \/ code = CommitPage) /\
    forall s r dev x,
      (match code with CommitPage => process_commit_page (H:=H) msg | _ => process_get_page msg end)
        (with_device (map interrupted cs ++ DeviceReply s r :: dev) x e) =
      (Ok (s, r), with_device dev (x ++ map apdu_continue rs) e').

(** The messages [msgs] of the VM get the answers [rs]. *)
Inductive serves : VAppEngine (W:=W) -> list (list Z) -> list (list Z) -> VAppEngine (W:=W) -> Prop :=
| serves_nil e : serves e [] [] e
| serves_cons e msg cs rs e1 msgs ans e2 :
    request_served e msg cs rs e1 -> serves e1 msgs ans e2 ->
    serves e (msg :: cs ++ msgs) (rs ++ ans) e2.

Lemma serves_app e1 msgs1 rs1 e2 msgs2 rs2 e3 :
  serves e1 msgs1 rs1 e2 -> serves e2 msgs2 rs2 e3 -> serves e1 (msgs1 ++ msgs2) (rs1 ++ rs2) e3.
Proof.
  intros H1 H2. induction H1 as [|e msg cs rs e1 msgs ans e2 Hr _ IH]; [done|].
  cbn [app]. rewrite <- !app_assoc. by eapply serves_cons; [|apply IH].
Qed.
Lemma serves_one e msg cs rs e1 : request_served e msg cs rs e1 -> serves e (msg :: cs) rs e1.
Proof.
  intros Hr. rewrite <- (app_nil_r cs), <- (app_nil_r rs). eapply serves_cons; [done|constructor].
Qed.

(** The engine's own loop serves the whole dialogue, up to the answer that is not a request
    for a page. *)
Definition no_page_request (s : StatusWord) (r : list Z) : Prop :=
  s <> InterruptedExecution \/ r = [] \/
  exists b r' code, r = b :: r' /\ command_code_of b = Some code /\ code <> GetPage /\ code <> CommitPage.

Lemma page_requests_end fuel s r e : no_page_request s r ->
  page_requests_loop (H:=H) (S fuel) (s, r) e = (Ok (s, r), e).
Proof.
  intros Hr. cbn [page_requests_loop]. unfold is_interrupted. destruct (decide (s = InterruptedExecution)) as [->|Hs].
  - rewrite bool_decide_true by done. cbn [negb]. destruct Hr as [?|[->|(b & r' & code & -> & Hb & H1 & H2)]]; [done|done|].
    unfold mbind, st_mbind, st_bind, lift. rewrite Hb. by destruct code.
  - by rewrite bool_decide_false.
Qed.

Lemma page_requests_step fuel b msg code e sr e1 :
  command_code_of b = Some code -> code = GetPage \/ code = CommitPage ->
  (match code with CommitPage => process_commit_page (H:=H) (b :: msg) | _ => process_get_page (b :: msg) end) e = (Ok sr, e1) ->
  page_requests_loop (H:=H) (S fuel) (InterruptedExecution, b :: msg) e = page_requests_loop (H:=H) fuel sr e1.
Proof.
  intros Hb Hk Hp. cbn [page_requests_loop]. unfold is_interrupted. rewrite bool_decide_true by done. cbn [negb].
  unfold mbind, st_mbind, st_bind, lift. rewrite Hb. cbn [ok_or]. by destruct Hk as [-> | ->]; rewrite Hp.
Qed.

Lemma serves_loop e msgs rs e' : serves e msgs rs e' -> forall s r msg rest dev x fuel,
  no_page_request s r -> msgs = msg :: rest -> (length msgs < fuel)%nat ->
  page_requests_loop (H:=H) fuel (InterruptedExecution, msg)
    (with_device (map interrupted rest ++ DeviceReply s r :: dev) x e) =
  (Ok (s, r), with_device dev (x ++ map apdu_continue rs) e').
Proof.
  induction 1 as [|e msg cs rs e1 msgs ans e2 (b & code & Hb & Hcode & Hk & Hp) Hs IH]; [done|].
  intros s r msg' rest dev x fuel Hr [= <- <-] Hf. destruct fuel as [|fuel]; [lia|].
  destruct msg as [|b' msg]; [done|]. injection Hb as ->.
  rewrite map_app, <- app_assoc. destruct msgs as [|msg1 msgs].
  - inversion Hs; subst. cbn [map app]. rewrite (page_requests_step _ _ _ _ _ _ _ Hcode Hk (Hp s r dev x)).
    destruct fuel as [|fuel]; [cbn in Hf; lia|]. rewrite page_requests_end by done. by rewrite app_nil_r.
  - cbn [map app]. unfold interrupted at 2. rewrite (page_requests_step _ _ _ _ _ _ _ Hcode Hk (Hp _ _ _ x)).
    rewrite (IH s r msg1 msgs dev (x ++ map apdu_continue rs) fuel); [by rewrite map_app, app_assoc|done|done|].
    cbn [length] in Hf. rewrite length_app in Hf. cbn [length] in Hf |- *. lia.
Qed.

(** The operation of the VM returns [a] with the answers [rs] to its messages [msgs]. *)
Definition talks {A} (op : ST Mem MemoryError A) m (msgs rs : list (list Z)) (a : A) m' : Prop :=
  forall t h tape sent (Q : A -> Mem -> Prop),
    (forall h', Q a (talking m' h' tape (sent ++ msgs))) ->
    wp t op (talking m h (map answer rs ++ tape) sent) Q.

Lemma talks_bind {A B} (op : ST Mem MemoryError A) (f : A -> ST Mem MemoryError B) m msgs1 rs1 a m1 msgs2 rs2 b m2 :
  talks op m msgs1 rs1 a m1 -> talks (f a) m1 msgs2 rs2 b m2 ->
  talks (x ← op; f x) m (msgs1 ++ msgs2) (rs1 ++ rs2) b m2.
Proof.
  intros H1 H2 t h tape sent Q HQ. apply wp_bind. rewrite map_app, <- app_assoc. apply H1. intros h1. apply H2.
  intros h2. rewrite <- app_assoc. apply HQ.
Qed.
Lemma talks_quiet {A} (op : ST Mem MemoryError A) m a m' :
  (forall h tape sent, op (talking m h tape sent) = (Ok a, talking m' h tape sent)) -> talks op m [] [] a m'.
Proof. intros Hop t h tape sent Q HQ. unfold wp. cbn [map app]. rewrite Hop. specialize (HQ h). by rewrite app_nil_r in HQ. Qed.
Lemma talks_then {A B} (op : ST Mem MemoryError A) (f : A -> ST Mem MemoryError B) m a m1 msgs rs b m2 :
  (forall h tape sent, op (talking m h tape sent) = (Ok a, talking m1 h tape sent)) -> talks (f a) m1 msgs rs b m2 ->
  talks (x ← op; f x) m msgs rs b m2.
Proof. intros Hop Hf. change msgs with ([] ++ msgs). change rs with ([] ++ rs). by eapply talks_bind; [apply talks_quiet|]. Qed.
Lemma talks_get {A} (f : Mem -> ST Mem MemoryError A) m msgs rs a m' :
  (forall h tape sent, talks (f (talking m h tape sent)) m msgs rs a m') -> talks (x ← get; f x) m msgs rs a m'.
Proof. intros Hf t h tape sent Q HQ. apply wp_bind, wp_get. by apply Hf. Qed.

(** ** The engine follows the memory *)

(** The client has no HMACs of the code, or those of its pages. *)
Definition hmacs_ready e (vh : list Z) (stored : list (list Z)) : Prop :=
  match code_hmacs e with
  | None => True
  | Some macs => forall i x, stored !! i = Some x -> exists mac, macs !! i = Some mac /\ hash32 mac /\
      compute_code_page_hmac (get_vapp_auth_key (H:=H) vh) vh (Z.of_nat i) (leaf x) = Ok mac
  end.
Definition in_clear (x : list Z) : Prop := exists d, page_parts None d /\ x = page_message None d.
Record follows e m (v : gmap Z Page) (acc : MerkleAccumulator) : Prop := {
  sy_content : exists I, content I m v acc;
  sy_segment : segment_of (section_kind m) e = mkClientSegment acc;
  sy_bytes : Forall bytes_ok (data acc);
  sy_nonce : bytes_ok (nonce (aes_ctr m));
  sy_code : section_kind m = Code -> Forall in_clear (data acc) /\ hmacs_ready e (vapp_hash m) (data acc);
}.

(** Another state of the memory with the same accumulator. *)
Lemma follows_frame e m v v' acc m' :
  follows e m v acc -> (exists I, content I m' v' acc) -> section_kind m' = section_kind m ->
  aes_ctr m' = aes_ctr m -> vapp_hash m' = vapp_hash m -> follows e m' v' acc.
Proof. intros [S2 S3 S4 S5 S7] Hct Hk Ha Hh. split; rewrite ?Hk, ?Ha, ?Hh; done. Qed.

Lemma follows_size e m v acc : follows e m v acc ->
  checked_next_power_of_two (n_pages m) = Some (Z.of_nat (length (data acc))) /\
  Z.of_nat (length (data acc)) <= 2 ^ 31.
Proof. intros [[I Hct] _ _ _ _]. pose proof (ct_size _ _ _ _ Hct) as E. split; [done|by eapply next_power_bound]. Qed.

Lemma talks_eviction {A} (op : ST ES Empty_set A) m a es :
  op (eviction_strategy m) = (Ok a, es) -> talks (eviction op) m [] [] a (with_eviction es m).
Proof.
  intros Hop. apply talks_quiet. intros h tape sent. unfold eviction, map_err, zoom. cbn [eviction_strategy talking with_hasher with_comm].
  by rewrite Hop.
Qed.

Lemma talks_load_hmac e m v acc i p n d macs : follows e m v acc -> page_at acc i n d ->
  plain (key (aes_ctr m)) n d p -> section_kind m = Code -> code_hmacs e = Some macs ->
  exists msgs rs, talks (load_page i) m msgs rs (p, leaf (page_message n d)) m /\ serves e msgs rs e.
Proof.
  intros [_ S3 _ _ S7] Hpage Hpl Hk Hmacs. destruct (S7 Hk) as [Hclear Hready]. pose proof Hpage as (_ & _ & Hi & Hx & Hp & Hb).
  destruct (Forall_lookup_1 _ _ _ _ Hclear Hx) as (d' & Hp' & E). destruct (page_message_inj _ _ _ _ Hp Hp' E) as [-> ->].
  cbn in Hpl. subst p. unfold hmacs_ready in Hready. rewrite Hmacs in Hready.
  destruct (Hready _ _ Hx) as (mac & Hm & H32 & Hcmp). rewrite Z2Nat.id in Hcmp by lia.
  exists [page_request Code i], [hmac_response d' mac]. split.
  - intros t h tape sent Q HQ. apply (wp_load_hmac_talking t); [done|by eapply page_message_bytes|done|done|done|done].
  - apply (serves_one e (page_request Code i) []). exists 0, GetPage. split; [done|]. split; [done|]. split; [by left|].
    intros s r dev x. rewrite Hk in S3.
    destruct (wp_total _ _ _ (wp_process_get_page_hmac Total i d' acc macs mac s r dev x e
      (fun sr e' => sr = (s, r) /\ e' = with_device dev (x ++ [apdu_continue (hmac_response d' mac)]) e)
      S3 Hpage Hmacs Hm ltac:(done))) as (sr & e' & E' & -> & ->). exact E'.
Qed.
Lemma talks_load e m v acc i p n d : follows e m v acc -> 0 <= i < Z.of_nat (length (data acc)) ->
  page_parts n d -> data acc !! Z.to_nat i = Some (page_message n d) -> plain (key (aes_ctr m)) n d p ->
  exists msgs rs, talks (load_page i) m msgs rs (p, leaf (page_message n d)) m /\ serves e msgs rs e.
Proof.
  intros Hs Hi Hp Hx Hpl. pose proof Hs as [[I Hct] S3 S4 S5 S7]. destruct (follows_size _ _ _ _ Hs) as [Hsz Hmax].
  assert (page_at acc i n d) as Hpage.
  { split; [apply (ct_acc _ _ _ _ Hct)|]. split; [done|]. split; [done|]. split; [done|]. split; [done|].
    by eapply (Forall_lookup_1 _ _ _ _ S4). }
  destruct (decide (section_kind m = Code /\ is_Some (code_hmacs e))) as [[Hk [macs Hm]]|Hno];
    [by eapply talks_load_hmac|].
  assert (section_kind m = Code -> code_hmacs e = None) as Hnone.
  { intros Hk. destruct (code_hmacs e) eqn:Hm; [|done]. destruct Hno. split; [done|by eexists]. }
  exists (page_request (section_kind m) i :: page_continued (proof_of acc i)), (page_response n d (proof_of acc i)).
  split.
  - intros t h tape sent Q HQ. apply (wp_load_talking hash_bytes t i n d acc p); [done|done|done|apply (ct_root _ _ _ _ Hct)|done].
  - apply serves_one. exists 0, GetPage. split; [done|]. split; [done|]. split; [by left|]. intros s r dev x.
    destruct (wp_total _ _ _ (wp_process_get_page hash_bytes Total (section_kind m) i n d acc s r dev x e
      (fun sr e' => sr = (s, r) /\ e' = with_device dev (x ++ map apdu_continue (page_response n d (proof_of acc i))) e)
      S3 Hpage Hnone ltac:(done))) as (sr & e' & E & -> & ->). exact E.
Qed.

(** A page is encrypted and stored by the client. *)
Lemma page_encrypted m (p : Page) : page_ok p -> length (nonce (aes_ctr m)) = 12%nat -> bytes_ok (nonce (aes_ctr m)) ->
  exists n d a, encrypt cx_aes_enc_block p (aes_ctr m) = (Ok (n, d), a) /\ page_parts (Some n) d /\ bytes_ok n /\
    bytes_ok d /\ plain (key (aes_ctr m)) (Some n) d p /\ key a = key (aes_ctr m) /\
    bytes_ok (nonce a) /\ length (nonce a) = 12%nat.
Proof.
  intros [Hl Hb] Hn Hnb. pose proof (encrypt_spec cx_aes_enc_block enc_block_array (aes_ctr m) p) as Hs.
  destruct (process_works cx_aes_enc_block enc_block_array (length p) (key (aes_ctr m)) p
    (create_counter_block (nonce (aes_ctr m)) 0)) as [d Hd]; [intros block; apply enc_block_works|done|unfold create_counter_block; by rewrite length_app, length_be_bytes, Hn| |].
  { apply Forall_app. split; [done|apply be_bytes_ok]. }
  assert (encrypt cx_aes_enc_block p (aes_ctr m) =
    (Ok (nonce (aes_ctr m), d), mkAesCtr (key (aes_ctr m)) (increment_be_slice (nonce (aes_ctr m))))) as E.
  { unfold encrypt, encrypt_with_initial_counter, process_with_counter, mbind, st_mbind, st_bind, get, put, lift.
    rewrite Hd. done. }
  rewrite E in Hs. destruct Hs as (_ & _ & Hdl & Hdec). destruct (increment_value _ Hnb) as (Il & Ib & _).
  eexists _, _, _. split; [exact E|]. split; [split; [congruence|done]|]. split; [done|].
  split; [eapply process_bytes; [intros block; apply (enc_block_bytes (K:=K))|exact Hb|exact Hd]|].
  split; [by apply Hdec|]. cbn. split; [done|]. split; [done|congruence].
Qed.

(** The engine after the page is stored. *)
Lemma talks_commit bg e m v acc slot c : cache_ok (t:=Total) bg m -> follows e m v acc -> cached m slot c -> is_readonly m = false ->
  (2 <= length (data acc))%nat ->
  exists msgs rs m' e' acc', talks (commit_page_at slot) m msgs rs tt m' /\ serves e msgs rs e' /\
    follows e' (drop_slot slot c m') v acc' /\ cache_ok (t:=Total) bg m' /\ cached_pages m' = cached_pages m /\
    eviction_strategy m' = eviction_strategy m /\ is_readonly m' = is_readonly m.
Proof.
  intros S1 Hs Hc Hro H2. pose proof Hs as [[I Hct] S3 S4 S5 S7]. destruct (follows_size _ _ _ _ Hs) as [Hsz Hmax].
  pose proof (ct_slots _ _ _ _ Hct _ _ Hc) as Hslot. destruct (so_hash _ _ _ _ Hslot) as (old & Hold & Hph).
  pose proof (ct_dom _ _ _ _ Hct (idx c) ltac:(eexists; apply (so_page _ _ _ _ Hslot))) as Hi.
  destruct (page_encrypted m (page c) (co_pages _ _ S1 _ _ (proj1 Hc)) (co_nonce _ _ S1) S5)
    as (n & d & a & Henc & Hp & Hbn & Hbd & Hpl & Hk & Han & Hal).
  assert (length (page_message (Some n) d) = 269%nat) as Hlen by apply (page_message_read _ _ Hp).
  destruct (client_store_page_spec (H:=H) acc (idx c) _ (ct_acc _ _ _ _ Hct) Hi Hlen) as (acc' & E & Hok' & Hd' & Hpr).
  assert (page_stored (H:=H) acc acc' (idx c) n d) as Hst.
  { exact (conj (ct_acc _ _ _ _ Hct) (conj Hmax (conj Hi (conj Hp (conj Hbn (conj Hbd (conj Hok' (conj Hd' (conj Hpr E))))))))). }
  assert (section_kind m <> Code) as Hkind by (intros Hcode; destruct (ct_code _ _ _ _ Hct Hcode); congruence).
  set (m' := with_root (at_ (tree acc') 0) (with_aes a m)).
  assert (cache_ok (t:=Total) bg m') as Hc' by (eapply cache_ok_frame; try done; [apply S1|cbn; rewrite Hal; symmetry; apply S1]).
  exists (commit_request (section_kind m) (idx c) n d :: commit_continued (proof_of acc (idx c))),
    (commit_response (at_ (tree acc') 0) (proof_of acc (idx c))), m', (with_segment (section_kind m) (mkClientSegment acc') e), acc'.
  split; [|split; [|split; [|done]]].
  - intros t h tape sent Q HQ. eapply (wp_commit_talking hash_bytes); try done; [apply Hc|apply Hc|apply (ct_root _ _ _ _ Hct)].
  - apply serves_one. exists 2, CommitPage. split; [done|]. split; [done|]. split; [by right|]. intros s r dev x.
    destruct (wp_total _ _ _ (wp_process_commit_page hash_bytes Total (section_kind m) (idx c) n d acc acc' s r dev x e
      (fun sr e' => sr = (s, r) /\ e' = with_device dev (x ++ map apdu_continue (commit_response (at_ (tree acc') 0) (proof_of acc (idx c))))
         (with_segment (section_kind m) (mkClientSegment acc') e)) Hkind S3 Hst ltac:(done))) as (sr & e' & E' & -> & ->). exact E'.
  - split.
    + exists (acc_messages acc'). eapply commit_content; [exact Hct|exact Hc|done|by repeat split|done|exact Hok'|exact Hd'|done| |exact Hp|exact Hpl]. intros y Hy. apply elem_of_app. by left.
    + cbn. by destruct (section_kind m).
    + rewrite Hd'. apply Forall_insert; [done|]. apply Forall_app. split; [by constructor|done].
    + done.
    + done.
Qed.

(** ** A page is asked for *)

Lemma eviction_quiet {A} (op : ST ES Empty_set A) m a es :
  op (eviction_strategy m) = (Ok a, es) ->
  forall h tape sent, eviction op (talking m h tape sent) = (Ok a, talking (with_eviction es m) h tape sent).
Proof.
  intros Hop h tape sent. unfold eviction, map_err, zoom. cbn [eviction_strategy talking with_hasher with_comm].
  by rewrite Hop.
Qed.
Lemma cached_at_quiet m s c : cached_pages m !! s = Some c ->
  forall h tape sent, cached_at s (talking m h tape sent) = (Ok c, talking m h tape sent).
Proof.
  intros Hc h tape sent. unfold cached_at, mbind, st_mbind, st_bind, get, lift.
  cbn [cached_pages talking with_hasher with_comm]. by rewrite Hc.
Qed.
Lemma set_cached_quiet m s c : (s < length (cached_pages m))%nat ->
  forall h tape sent, set_cached s c (talking m h tape sent) =
    (Ok tt, talking (with_cached (<[s := c]> (cached_pages m)) m) h tape sent).
Proof.
  intros Hs h tape sent. unfold set_cached, mbind, st_mbind, st_bind, get.
  cbn [cached_pages talking with_hasher with_comm]. by rewrite (proj2 (Nat.ltb_lt _ _) Hs).
Qed.

(** A step of the dialogue: the memory stays in order, the engine follows, and neither the
    pages nor the permissions change. *)
Record advances bg e m (v : gmap Z Page) (msgs rs : list (list Z)) e' m' : Prop := {
  ad_serves : serves e msgs rs e';
  ad_cache : cache_ok (t:=Total) bg m';
  ad_follows : exists acc', follows e' m' v acc';
  ad_readonly : is_readonly m' = is_readonly m;
}.

Lemma talks_drop m s c es : cached m s c -> on_invalidate s (idx c) (eviction_strategy m) = (Ok tt, es) ->
  talks (c ← cached_at s; set_cached s (mkCachedPage (idx c) (page c) (page_hash c) false (modified c));;
         eviction (on_invalidate s (idx c));; mret s) m [] [] s (with_eviction es (drop_slot s c m)).
Proof.
  intros Hc Hop. eapply talks_then; [apply cached_at_quiet, Hc|].
  eapply talks_then; [apply set_cached_quiet; by eapply cached_lt|]. fold (drop_slot s c m).
  eapply talks_then; [by apply eviction_quiet|]. by apply talks_quiet.
Qed.

Lemma talks_evict bg e m v acc i : affordable bg -> cache_ok (t:=Total) bg m -> follows e m v acc ->
  is_Some (v !! i) -> (forall s c, cached m s c -> idx c <> i) ->
  (forall j c, cached_pages m !! j = Some c -> valid c = true) ->
  exists msgs rs s e' m', talks evict m msgs rs s m' /\ advances bg e m v msgs rs e' m' /\
    (s < length (cached_pages m'))%nat /\ (forall c, ~ cached m' s c) /\
    (forall s' c', cached m' s' c' -> cached m s' c').
Proof.
  intros Hb Hc Hf Hvi Hnc Hfull. destruct (co_tracks _ _ Hc) as (L & Ht & HLs).
  assert (forall i, (i < length (cached_pages m))%nat -> i ∈ L) as Hin.
  { intros k [c Hk]%lookup_lt_is_Some. apply HLs. exists c. split; [done|by eapply Hfull]. }
  destruct (wp_total _ _ _ (victim_ok (t:=Total) _ _ _ _ Hb Ht (co_pos _ _ Hc) Hin)) as (s & e1 & Ev & Hs & He1).
  set (m1 := with_eviction e1 m). destruct (lookup_lt_is_Some_2 _ _ Hs) as [c Hl].
  assert (cached m1 s c) as Hsc by (split; [done|by eapply Hfull]).
  assert (cache_ok (t:=Total) bg m1) as Hc1 by (eapply cache_ok_slots; try done; [apply Hc|apply Hc|by exists L]).
  assert (follows e m1 v acc) as Hf1.
  { pose proof Hf as [[I Hct] _ _ _ _]. eapply follows_frame; [done| |done..].
    exists I. eapply content_frame; [done|by repeat split|done..]. }
  assert (2 <= length (data acc))%nat as Htwo.
  { pose proof Hf1 as [[I Hct] _ _ _ _]. pose proof (so_page _ _ _ _ (ct_slots _ _ _ _ Hct _ _ Hsc)) as Hp.
    pose proof (ct_dom _ _ _ _ Hct _ ltac:(by eexists)). pose proof (ct_dom _ _ _ _ Hct _ Hvi).
    assert (idx c <> i) by (by eapply (Hnc s)). lia. }
  assert (exists msgs rs e' m2 acc',
    talks (if negb (is_readonly m1) then if modified c then commit_page_at s else mret tt else mret tt) m1 msgs rs tt m2 /\
    serves e msgs rs e' /\ follows e' (drop_slot s c m2) v acc' /\ cache_ok (t:=Total) bg m2 /\
    cached_pages m2 = cached_pages m1 /\ eviction_strategy m2 = eviction_strategy m1 /\ is_readonly m2 = is_readonly m1)
    as (msgs & rs & e' & m2 & acc' & T2 & V2 & F2 & C2 & P2 & E2 & R2).
  { assert (modified c = false -> follows e (drop_slot s c m1) v acc) as Hclean.
    { intros Hm. pose proof Hf1 as [[I Hct] _ _ _ _]. eapply follows_frame; [exact Hf1| |done..].
      exists I. by apply drop_clean. }
    destruct (is_readonly m1) eqn:Hro; cbn [negb].
    - exists [], [], e, m1, acc. split; [by apply talks_quiet|]. split; [constructor|]. split; [|done].
      apply Hclean. pose proof Hf1 as [[I Hct] _ _ _ _]. by apply (so_readonly _ _ _ _ (ct_slots _ _ _ _ Hct _ _ Hsc)).
    - destruct (modified c) eqn:Hm.
      + destruct (talks_commit bg e m1 v acc s c Hc1 Hf1 Hsc Hro Htwo) as (msgs & rs & m2 & e' & acc' & T & V & F & C & P & E & R).
        exists msgs, rs, e', m2, acc'. rewrite <- Hro. done.
      + exists [], [], e, m1, acc. split; [by apply talks_quiet|]. split; [constructor|]. split; [by apply Hclean|done]. }
  destruct (wp_total _ _ _ (invalidate_ok (t:=Total) bg (eviction_strategy m2) _ _ s (idx c)
    ltac:(rewrite E2; exact He1) (Hin s Hs))) as ([] & e3 & Ei & He3).
  assert (cached m2 s c) as Hsc2 by (unfold cached; by rewrite P2).
  exists msgs, rs, s, e', (with_eviction e3 (drop_slot s c m2)). split.
  { unfold evict. rewrite <- (app_nil_r msgs), <- (app_nil_r rs).
    eapply talks_then; [by apply eviction_quiet|]. apply talks_get. intros h tape sent.
    eapply talks_bind; [|by apply talks_drop]. fold m1. change (is_readonly (talking m1 h tape sent)) with (is_readonly m1).
    destruct (negb (is_readonly m1)); [|exact T2].
    eapply talks_then; [by apply cached_at_quiet|exact T2]. }
  split; [split|split_and!].
  - done.
  - eapply (drop_cache (t:=Total)); [done|exact Hsc2|unfold cached; by rewrite P2|by rewrite P2].
  - exists acc'. eapply follows_frame; [exact F2| |done..]. destruct F2 as [[I Hct] _ _ _ _]. exists I.
    eapply content_frame; [done|by repeat split|done..].
  - cbn. by rewrite R2.
  - cbn. rewrite length_insert, P2. done.
  - intros c' Hc'. change (cached (drop_slot s c m2) s c') in Hc'. by apply (cached_drop _ _ _ _ _ Hsc2) in Hc' as [? _].
  - intros s' c' Hc'. change (cached (drop_slot s c m2) s' c') in Hc'.
    apply (cached_drop _ _ _ _ _ Hsc2) in Hc' as [_ Hc']. unfold cached in Hc'. by rewrite P2 in Hc'.
Qed.

Lemma page_ref_quiet m i s : (s < length (cached_pages m))%nat ->
  forall h tape sent, get_cached_page_ref i s (talking m h tape sent) = (Ok s, talking (with_last (Some (i, s)) m) h tape sent).
Proof.
  intros Hs h tape sent. unfold get_cached_page_ref, cached_at, mbind, st_mbind, st_bind, get, modify, lift.
  cbn [cached_pages talking with_hasher with_comm with_last].
  by destruct (lookup_lt_is_Some_2 _ _ Hs) as [c ->].
Qed.

Definition holds m (slot : nat) (i : Z) (p : Page) : Prop := exists c, cached m slot c /\ idx c = i /\ page c = p.
Definition in_step bg e m v : Prop := cache_ok (t:=Total) bg m /\ last_ok m /\ exists acc, follows e m v acc.

(** The slot becomes the last one. *)
Lemma last_advances bg e m v msgs rs e' m' i slot p :
  advances bg e m v msgs rs e' m' -> holds m' slot i p ->
  let m2 := with_last (Some (i, slot)) m' in
  serves e msgs rs e' /\ in_step bg e' m2 v /\ is_readonly m2 = is_readonly m /\ holds m2 slot i p.
Proof.
  intros [A1 A2 [acc' A3] A4] (c & Hc & Hi & Hp) m2. split; [done|]. split; [split; [|split]|split; [done|by exists c]].
  - destruct A2 as [C1 C2 C3 C4 C5 C6 C7]. split; try done. intros j s [= <- <-]. by eapply cached_lt.
  - intros j s [= <- <-]. by exists c.
  - exists acc'. eapply follows_frame; [exact A3| |done..]. destruct A3 as [[I Hct] _ _ _ _].
    exists I. eapply content_frame; [done|by repeat split|done..].
Qed.

Lemma talks_free bg e m v acc i : affordable bg -> cache_ok (t:=Total) bg m -> follows e m v acc ->
  is_Some (v !! i) -> (forall s c, cached m s c -> idx c <> i) ->
  exists msgs rs s e' m', talks (match find_free 0 (cached_pages m) with Some i => mret i | None => evict end) m msgs rs s m' /\
    advances bg e m v msgs rs e' m' /\ (s < length (cached_pages m'))%nat /\ (forall c, ~ cached m' s c) /\
    (forall s' c', cached m' s' c' -> cached m s' c').
Proof.
  intros Hb Hc Hf Hvi Hnc. pose proof (find_free_spec (cached_pages m) 0) as Hfind. destruct (find_free 0 _) as [s|].
  - destruct Hfind as (j & c & -> & Hj & Hv). exists [], [], j, e, m. split; [by apply talks_quiet|].
    split; [split; [constructor|done|by exists acc|done]|]. split; [by eapply lookup_lt_Some|]. split; [|done].
    intros c' [Hj' Hv']. congruence.
  - by eapply talks_evict.
Qed.

Lemma talks_miss bg e m v acc i p s : affordable bg -> cache_ok (t:=Total) bg m -> follows e m v acc -> v !! i = Some p ->
  (forall s c, cached m s c -> idx c <> i) -> (s < length (cached_pages m))%nat -> (forall c, ~ cached m s c) ->
  exists msgs rs m', talks ('(page_data, page_hash) ← load_page i;
      set_cached s (mkCachedPage i page_data page_hash true false);;
      eviction (on_load s i);;
      get_cached_page_ref i s) m msgs rs s (with_last (Some (i, s)) m') /\
    advances (spent bg) e m v msgs rs e m' /\ holds m' s i p.
Proof.
  intros Hb Hc Hf Hv Hnc Hs Hfree. pose proof Hf as [[I Hct] _ _ _ _].
  destruct (ct_stored _ _ _ _ Hct i p Hv Hnc) as (n & d & Hp & Hx & Hpl).
  pose proof (ct_dom _ _ _ _ Hct i ltac:(by eexists)) as Hi. pose proof (ct_pages _ _ _ _ Hct i p Hv) as Hpok.
  destruct (talks_load _ _ _ _ _ _ _ _ Hf Hi Hp Hx Hpl) as (msgs & rs & T & V).
  destruct (co_tracks _ _ Hc) as (L & Ht & HLs).
  destruct (wp_total _ _ _ (load_ok (t:=Total) _ _ _ _ s i Hb Ht Hs ltac:(intros [c Hc']%HLs; by eapply Hfree)))
    as ([] & e1 & E1 & He1).
  pose proof (fill_content _ _ _ _ s _ _ _ Hct Hv Hnc Hx Hs Hfree) as Hct'.
  set (m1 := fill_slot s i p (leaf (page_message n d)) m) in *.
  assert (cached (with_eviction e1 m1) s (mkCachedPage i p (leaf (page_message n d)) true false)) as Hsc.
  { split; [|done]. cbn. by apply list_lookup_insert_eq. }
  exists msgs, rs, (with_eviction e1 m1). split; [|split; [split|]].
  - rewrite <- (app_nil_r msgs), <- (app_nil_r rs). eapply talks_bind; [exact T|]. cbv beta iota.
    eapply talks_then; [by apply set_cached_quiet|]. fold (fill_slot s i p (leaf (page_message n d)) m). fold m1.
    eapply talks_then; [by apply eviction_quiet|]. apply talks_quiet, page_ref_quiet. by eapply cached_lt.
  - done.
  - eapply (fill_cache (t:=Total)); done.
  - exists acc. eapply follows_frame; [exact Hf| |done..]. exists I. eapply content_frame; [done|by repeat split|done..].
  - done.
  - eexists. split; [exact Hsc|done].
Qed.

(** The page is returned, in a slot that holds it. *)
Lemma talks_search_page bg e m v acc i p : affordable bg -> cache_ok (t:=Total) bg m -> follows e m v acc -> v !! i = Some p ->
  exists msgs rs slot e' m', talks (search_page i) m msgs rs slot m' /\
    serves e msgs rs e' /\ in_step (spent bg) e' m' v /\ is_readonly m' = is_readonly m /\ holds m' slot i p.
Proof.
  intros Hb Hc Hf Hv. pose proof (find_cached_slot i m) as Hfind. destruct (find_cached i 0 (cached_pages m)) as [s|] eqn:Efind.
  - destruct Hfind as (c & Hs & Hi). destruct (co_tracks _ _ Hc) as (L & Ht & HLs).
    destruct (wp_total _ _ _ (access_ok (t:=Total) _ _ _ _ s i Hb Ht ltac:(apply HLs; by exists c))) as ([] & e1 & E1 & He1).
    pose proof Hf as [[I Hct] _ _ _ _].
    assert (advances (spent bg) e m v [] [] e (with_eviction e1 m)) as Had.
    { split; [constructor| | |done].
      - eapply (cache_ok_slots (t:=Total)); try done; [apply Hc|apply Hc|by exists L].
      - exists acc. eapply follows_frame; [done| |done..]. exists I. eapply content_frame; [done|by repeat split|done..]. }
    assert (holds (with_eviction e1 m) s i p) as Hh.
    { exists c. split; [done|]. split; [done|].
      pose proof (so_page _ _ _ _ (ct_slots _ _ _ _ Hct _ _ Hs)) as E. rewrite Hi, Hv in E. by injection E. }
    exists [], [], s, e, (with_last (Some (i, s)) (with_eviction e1 m)). split; [|by eapply last_advances].
    apply talks_get. intros h tape sent. change (cached_pages (talking m h tape sent)) with (cached_pages m).
    rewrite Efind. eapply talks_then; [by apply eviction_quiet|]. apply talks_quiet, page_ref_quiet. by eapply cached_lt.
  - destruct (talks_free bg e m v acc i Hb Hc Hf ltac:(by eexists) Hfind) as (msgs1 & rs1 & s & e1 & m1 & T1 & [V1 C1 [acc1 F1] R1] & Hs & Hfree & Hsub).
    destruct (talks_miss bg e1 m1 v acc1 i p s Hb C1 F1 Hv ltac:(intros s' c Hs'; by eapply Hfind, Hsub) Hs Hfree)
      as (msgs2 & rs2 & m2 & T2 & A2 & H2).
    destruct (last_advances _ _ _ _ _ _ _ _ _ _ _ A2 H2) as (V2 & S2 & R2 & H2').
    exists (msgs1 ++ msgs2), (rs1 ++ rs2), s, e1, (with_last (Some (i, s)) m2). split; [|split; [by eapply serves_app|]].
    + apply talks_get. intros h tape sent. change (cached_pages (talking m h tape sent)) with (cached_pages m).
      rewrite Efind. by eapply talks_bind.
    + split; [done|]. split; [congruence|done].
Qed.

Lemma talks_get_page bg e m v i p : affordable bg -> in_step bg e m v -> v !! i = Some p ->
  exists msgs rs slot e' m', talks (outsourced_get_page i) m msgs rs slot m' /\
    serves e msgs rs e' /\ in_step (spent bg) e' m' v /\ is_readonly m' = is_readonly m /\ holds m' slot i p.
Proof.
  intros Hb (Hc & Hl & acc & Hf) Hv.
  destruct (talks_search_page bg e m v acc i p Hb Hc Hf Hv) as (msgs & rs & slot & e' & m' & T & Hrest).
  destruct (last_accessed_page m) as [[j s]|] eqn:El.
  2: { exists msgs, rs, slot, e', m'. split; [|done]. apply talks_get. intros h tape sent.
       change (last_accessed_page (talking m h tape sent)) with (last_accessed_page m). by rewrite El. }
  destruct (Z.eqb_spec i j) as [->|Hne].
  2: { exists msgs, rs, slot, e', m'. split; [|done]. apply talks_get. intros h tape sent.
       change (last_accessed_page (talking m h tape sent)) with (last_accessed_page m). rewrite El.
       by rewrite (proj2 (Z.eqb_neq _ _) Hne). }
  destruct (Hl j s El) as (c & Hs & Hi). pose proof Hf as [[I Hct] _ _ _ _].
  assert (holds m s j p) as Hh.
  { exists c. split; [done|]. split; [done|].
    pose proof (so_page _ _ _ _ (ct_slots _ _ _ _ Hct _ _ Hs)) as E. rewrite Hi, Hv in E. by injection E. }
  exists [], [], s, e, (with_last (Some (j, s)) m). split.
  - apply talks_get. intros h tape sent. change (last_accessed_page (talking m h tape sent)) with (last_accessed_page m).
    rewrite El, Z.eqb_refl. apply talks_quiet, page_ref_quiet. by eapply cached_lt.
  - eapply last_advances; [split; [constructor|by apply cache_spend|by exists acc|done]|done].
Qed.

(** The pages that a program asks for are there, so it runs to its end. *)
Lemma talks_run {A} (p : accesses A) : forall bg e m v a v',
  in_step bg e m v -> accesses_ok p -> affords bg p -> flat_run p v = Some (a, v') -> is_readonly m = false \/ reads p ->
  exists msgs rs e' m', talks (run_accesses p) m msgs rs a m' /\ serves e msgs rs e'.
Proof.
  induction p as [b|i k IH|i f k IH]; intros bg e m v a v' Hs Hp Hb Hfl Hro; cbn [flat_run accesses_ok affords reads run_accesses] in *.
  - injection Hfl as <- <-. exists [], [], e, m. split; [by apply talks_quiet|]. constructor.
  - destruct (v !! i) as [pg|] eqn:Hv; [|done]. destruct Hp as [_ Hp], Hb as [Hb0 Hb].
    destruct (talks_get_page bg e m v i pg Hb0 Hs Hv) as (msgs1 & rs1 & slot & e1 & m1 & T1 & V1 & S1 & R1 & (c & [Hc _] & _ & Hpg)).
    destruct (IH pg (spent bg) e1 m1 v a v' S1 (Hp pg) (Hb pg) Hfl) as (msgs2 & rs2 & e2 & m2 & T2 & V2).
    { rewrite R1. destruct Hro as [?|Hro]; [by left|by right]. }
    exists (msgs1 ++ msgs2), (rs1 ++ rs2), e2, m2. split; [|by eapply serves_app].
    eapply talks_bind; [exact T1|]. apply talks_get. intros h tape sent.
    assert (deref (talking m1 h tape sent) slot = pg) as -> by (cbn; rewrite Hc; exact Hpg). exact T2.
  - destruct (v !! i) as [pg|] eqn:Hv; [|done]. destruct Hp as (_ & Hf & Hp), Hb as [Hb0 Hb]. destruct Hro as [Hro|[]].
    destruct (talks_get_page bg e m v i pg Hb0 Hs Hv) as (msgs1 & rs1 & slot & e1 & m1 & T1 & V1 & (C1 & L1 & acc1 & F1) & R1 & (c & Hc & Hi & Hpg)).
    pose proof F1 as [[I Hct] _ _ _ _].
    assert (page_ok (f (page c))) as Hok by (rewrite Hpg; eapply Hf, ct_pages; [exact Hct|exact Hv]).
    pose proof (write_content I m1 v acc1 slot c f Hct Hc ltac:(congruence) Hok) as Hct'. rewrite Hi, Hpg in Hct'.
    destruct (IH (spent bg) e1 (@deref_mut Mem OutsourcedMemory_paged m1 slot f) (<[i := f pg]> v) a v') as (msgs2 & rs2 & e2 & m2 & T2 & V2);
      [|done|done|done|left; cbn; congruence|].
    { split; [apply write_cache; [done|intros c' Hc''; by eapply Hf, co_pages]|]. split; [by apply write_last|]. exists acc1.
      eapply follows_frame; [exact F1|by exists I|done..]. }
    exists (msgs1 ++ msgs2), (rs1 ++ rs2), e2, m2. split; [|by eapply serves_app].
    eapply talks_bind; [exact T1|]. eapply talks_then; [|exact T2]. done.
Qed.

(** C4. With the answers of the client's engine, a program of page accesses runs to its end
    over the outsourced memory and returns what it returns over the pages in memory: the
    answers [rs] are those that the engine's own loop gives to the messages [msgs] that the VM
    sends. The program makes the accesses that the eviction strategy affords (any number with
    LRU, 2^32 - 1 with 2Q); a code segment is only read, and its pages come with Merkle proofs
    or with their HMACs; the engine's segment is the one that the root was computed from,
    hashes are strings of bytes, and the block cipher of the device does not fail. *)
Theorem honest_run {A} (p : accesses A) bg e slots ro kind n (a : AesCtr K) (es : ES) vh start data seg root r vm' :
  0 <= start -> start + Z.of_nat (length data) <= 2 ^ 32 - 256 -> bytes_ok data ->
  client_new (H:=H) start data = Ok seg -> get_content_root seg = Ok root -> segment_of kind e = seg ->
  checked_next_power_of_two n = Some (Z.of_nat (initial_size start data)) ->
  (0 < slots)%nat -> length (nonce a) = 12%nat -> bytes_ok (nonce a) -> tracks (t:=Total) bg es slots ∅ ->
  (kind = Code -> ro = true /\ hmacs_ready e vh (Accumulator.data (ClientMemory.content seg))) ->
  accesses_ok p -> affords bg p -> ro = false \/ reads p ->
  run_accesses p (mkVecMemory (initial_pages start data)) = (Ok r, vm') ->
  exists msgs rs e' m',
    run_accesses p (outsourced_new (H:=H) (mkComm (map answer rs) []) slots ro kind n root a es vh) = (Ok r, m') /\
    sent (comm m') = msgs /\
    forall msg rest s reply dev x, msgs = msg :: rest -> no_page_request s reply ->
      page_requests_loop (H:=H) (S (length msgs)) (InterruptedExecution, msg)
        (with_device (map interrupted rest ++ DeviceReply s reply :: dev) x e) =
      (Ok (s, reply), with_device dev (x ++ map apdu_continue rs) e').
Proof.
  intros Hs He Hb Hnew Hroot Hseg Hn Hsl Ha Hab Htr Hk Hp Hbg Hro Hflat.
  destruct (client_new_spec (H:=H) start data Hs He) as (acc & E & Hok & Hd). rewrite Hnew in E. injection E as ->.
  pose proof (run_accesses_flat p _ _ Hp (initial_view start data Hb)) as Hv. rewrite Hflat in Hv. destruct Hv as (v' & Hv' & _).
  set (m := outsourced_new (H:=H) (mkComm [] []) slots ro kind n root a es vh).
  assert (content (acc_messages acc) m (pages_from 0 (initial_pages start data)) acc) as Hct.
  { eapply new_content; try done. intros Hc. split; [by apply Hk|]. intros p1 p2 d rp mac i x Hin.
    by apply not_elem_of_nil in Hin. }
  assert (Forall in_clear (Accumulator.data acc)) as Hclear.
  { rewrite Hd. apply Forall_map, Forall_map, Forall_forall. intros i _. exists (initial_page start data i).
    split; [|done]. split; [by apply initial_page_ok|done]. }
  assert (in_step bg e m (pages_from 0 (initial_pages start data))) as Hstep.
  { split; [|split; [done|exists acc; split]].
    - apply new_cache_ok; [done|intros p1 p2 d Hin; by apply not_elem_of_nil in Hin|by eexists|done|done].
    - by eexists.
    - done.
    - rewrite Hd. apply Forall_map, Forall_map, Forall_forall. intros i _. apply Forall_app. split.
      + by apply (Forall_replicate _ 13).
      + by apply initial_page_ok.
    - done.
    - intros Hc. split; [done|by apply Hk]. }
  destruct (talks_run p bg e m _ r v' Hstep Hp Hbg Hv' Hro) as (msgs & rs & e' & m' & T & V).
  exists msgs, rs, e'. pose proof (T Total (hasher m) [] [] (fun a2 m2 => a2 = r /\ sent (comm m2) = msgs)) as Hw.
  destruct (wp_total _ _ _ (Hw ltac:(done))) as (a2 & m2 & E & -> & Es). exists m2. split; [|split; [done|]].
  - rewrite app_nil_r in E. exact E.
  - intros msg rest s reply dev x Em Hnp. eapply (serves_loop _ _ _ _ V); [done|exact Em|lia].
Qed.
End dialogue.

(** The client of [Accesses] and its program: the answers are there. *)
Lemma toy_hash_bytes d : bytes_ok (hash (H:=Logged Toy32) d).
Proof. apply be_bytes_ok. Qed.
Lemma toy_block_works (k : Z) block : fst (cx_aes_enc_block k block) = 0.
Proof. done. Qed.
Lemma demo_flat : exists vm',
  run_accesses demo_program (mkVecMemory (initial_pages 4112 demo_data)) = (Ok [200; 4; 243], vm').
Proof. eexists. vm_compute. reflexivity. Qed.

(** The same segment as code, whose pages the client has the HMACs of, and a program that
    reads it. *)
Definition demo_reader : accesses (list Z) :=
  ReadPage 1 (fun p1 => ReadPage 0 (fun p0 => ReadPage 1 (fun q => Done [nth 20 p0 0; nth 3 p1 0; nth 4 q 0]))).
Definition demo_macs : list (list Z) :=
  imap (fun i x => match compute_code_page_hmac (get_vapp_auth_key (H:=Logged Toy32) []) [] (Z.of_nat i) (leaf (H:=Logged Toy32) x) with
                   | Ok mac => mac | _ => [] end) (Accumulator.data (ClientMemory.content demo_client)).
Definition code_engine : VAppEngine (W:=unit) :=
  mkEngine demo_client demo_client demo_client [] [] tt None StatusOK [] (Some demo_macs).
Lemma demo_macs_ready : hmacs_ready (H:=Logged Toy32) code_engine [] (Accumulator.data (ClientMemory.content demo_client)).
Proof.
  unfold hmacs_ready, code_engine, code_hmacs.
  assert (forall i, (i < 2)%nat -> exists x mac, Accumulator.data (ClientMemory.content demo_client) !! i = Some x /\ demo_macs !! i = Some mac /\
    length mac = 32%nat /\ forallb (fun b => (0 <=? b) && (b <? 256)) mac = true /\
    compute_code_page_hmac (get_vapp_auth_key (H:=Logged Toy32) []) [] (Z.of_nat i) (leaf (H:=Logged Toy32) x) = Ok mac) as Hm.
  { intros [|[|]] Hi; [| |lia]; (eexists _, _; split; [vm_compute; reflexivity|]; split; [vm_compute; reflexivity|];
      vm_compute; repeat split). }
  intros i x Hx. assert (i < 2)%nat as Hi by (apply lookup_lt_Some in Hx; exact Hx).
  destruct (Hm i Hi) as (x' & mac & Ex & Em & Hl & Hb & Hc). rewrite Hx in Ex. injection Ex as <-. exists mac.
  split; [exact Em|]. split; [|exact Hc]. split; [exact Hl|]. rewrite forallb_forall in Hb.
  apply Forall_forall. intros b Hin%list_elem_of_In%Hb. unfold is_u. lia.
Qed.
Lemma reader_flat : exists vm',
  run_accesses demo_reader (mkVecMemory (initial_pages 4112 demo_data)) = (Ok [4; 243; 244], vm').
Proof. eexists. vm_compute. reflexivity. Qed.
Lemma demo_reader_ok : accesses_ok demo_reader /\ affords (Some 3%nat) demo_reader /\ reads demo_reader.
Proof. by repeat split. Qed.

(** LRU over the data, and 2Q over the code with its HMACs. *)
Lemma honest_run_witness :
  (exists rs m', run_accesses demo_program (demo_memory (map answer rs)) = (Ok [200; 4; 243], m')) /\
  (exists rs m', run_accesses demo_reader (outsourced_new (H:=Logged Toy32) (mkComm (map answer rs) []) 1 true Code 2 demo_root
     (mkAesCtr 42 (replicate 12 0)) demo_twoq []) = (Ok [4; 243; 244], m')).
Proof.
  split.
  - destruct demo_flat as [vm' E].
    destruct (honest_run (H:=Logged Toy32) toy_hash_bytes toy_block_works demo_program None demo_engine 1 false Data 2
      (mkAesCtr 42 (replicate 12 0)) (lru_new 1) [] 4112 demo_data demo_client demo_root [200; 4; 243] vm'
      ltac:(done) demo_range demo_data_ok demo_client_new demo_client_root eq_refl demo_size
      (le_n 1) eq_refl ltac:(solve_bytes) (lru_tracks_new Total None 1) ltac:(discriminate) demo_program_ok
      (affords_none demo_program) (or_introl eq_refl) E) as (msgs & rs & e' & m' & Hrun & _).
    exists rs, m'. exact Hrun.
  - destruct reader_flat as [vm' E]. destruct demo_reader_ok as (R1 & R2 & R3).
    destruct (honest_run (H:=Logged Toy32) toy_hash_bytes toy_block_works demo_reader (Some 3%nat) code_engine 1 true Code 2
      (mkAesCtr 42 (replicate 12 0)) demo_twoq [] 4112 demo_data demo_client demo_root [4; 243; 244] vm'
      ltac:(done) demo_range demo_data_ok demo_client_new demo_client_root eq_refl demo_size
      (le_n 1) eq_refl ltac:(solve_bytes) (demo_twoq_tracks Total) (fun _ => conj eq_refl demo_macs_ready) R1 R2
      (or_intror R3) E) as (msgs & rs & e' & m' & Hrun & _).
    exists rs, m'. exact Hrun.
Defined.
