(* ===== verification/Ux.v ===== *)
(** * The UX codec and types ([common/src/ux/codec.rs], [types.rs])

    The serialization that V-Apps use to describe a page or a step to the VM, and the
    derived instances of [Serializable] and [Deserializable] ([macros]): the index of the
    variant as a byte, then the fields in their order. A string is the list of its UTF-8
    bytes. The laws of the codec are a class of their own, so that the round trip of a
    structure follows from those of its parts. *)

From S2P Require Import Prelude.

(** ** Strings *)

Definition in_range (lo hi b : Z) : bool := (lo <=? b) && (b <=? hi).
Definition continuation (b : Z) : bool := in_range 0x80 0xBF b.
(** [core::str::from_utf8]'s test: the well-formed byte sequences of Unicode. *)
Fixpoint is_utf8 (s : list Z) : bool :=
  match s with
  | [] => true
  | b0 :: s =>
      if in_range 0 0x7F b0 then is_utf8 s
      else
        match s with
        | [] => false
        | b1 :: s =>
            if in_range 0xC2 0xDF b0 then continuation b1 && is_utf8 s
            else
              match s with
              | [] => false
              | b2 :: s =>
                  if in_range 0xE0 0xEF b0 then
                    in_range (if b0 =? 0xE0 then 0xA0 else 0x80) (if b0 =? 0xED then 0x9F else 0xBF) b1
                    && continuation b2 && is_utf8 s
                  else
                    match s with
                    | [] => false
                    | b3 :: s =>
                        in_range 0xF0 0xF4 b0
                        && in_range (if b0 =? 0xF0 then 0x90 else 0x80) (if b0 =? 0xF4 then 0x8F else 0xBF) b1
                        && continuation b2 && continuation b3 && is_utf8 s
                    end
              end
        end
  end.

(** ** The traits *)

Class Codec (T : Type) := {
  get_serialized_length : T -> Z;
  serialize : T -> outcome string (list Z);
  deserialize : list Z -> outcome string (T * list Z);
}.

Definition deserialize_full {T} `{Codec T} (slice : list Z) : outcome string T :=
  '(value, rest) ← deserialize slice;
  match rest with
  | [] => Ok value
  | _ => Err "extra bytes remaining after deserialization"%string
  end.

(** ** Scalars *)

Definition bool_byte (b : bool) : Z := if b then 1 else 0.
#[export] Instance bool_codec : Codec bool := {
  get_serialized_length := fun _ => 1;
  serialize := fun b => Ok [bool_byte b];
  deserialize := fun slice =>
    match slice with
    | 0 :: rest => Ok (false, rest)
    | 1 :: rest => Ok (true, rest)
    | _ :: _ => Err "invalid boolean value"%string
    | [] => Err "slice too short for bool"%string
    end;
}.

(** [u8], [u16] and [u32]: types of their own, the instances being different. *)
Record u8 : Type := U8 { u8_value : Z }.
Record u16 : Type := U16 { u16_value : Z }.
Record u32 : Type := U32 { u32_value : Z }.
Add Printing Constructor u8 u16 u32.

#[export] Instance u8_codec : Codec u8 := {
  get_serialized_length := fun _ => 1;
  serialize := fun x => Ok [u8_value x];
  deserialize := fun slice =>
    match slice with
    | byte :: rest => Ok (U8 byte, rest)
    | [] => Err "slice too short for u8"%string
    end;
}.
#[export] Instance u16_codec : Codec u16 := {
  get_serialized_length := fun _ => 2;
  serialize := fun x => Ok [w8 (Z.shiftr (u16_value x) 8); w8 (Z.land (u16_value x) 0xFF)];
  deserialize := fun slice =>
    match slice with
    | b1 :: b2 :: rest => Ok (U16 (be_value [b1; b2]), rest)
    | _ => Err "slice too short for u16"%string
    end;
}.
#[export] Instance u32_codec : Codec u32 := {
  get_serialized_length := fun _ => 4;
  serialize := fun x =>
    let x := u32_value x in
    Ok [w8 (Z.shiftr x 24); w8 (Z.land (Z.shiftr x 16) 0xFF); w8 (Z.land (Z.shiftr x 8) 0xFF);
        w8 (Z.land x 0xFF)];
  deserialize := fun slice =>
    match slice with
    | b1 :: b2 :: b3 :: b4 :: rest => Ok (U32 (be_value [b1; b2; b3; b4]), rest)
    | _ => Err "slice too short for u32"%string
    end;
}.

(** ** Strings, options and vectors *)

Record String : Type := mkString { as_bytes : list Z }.
Add Printing Constructor String.
Definition try_into (w n : Z) : outcome string Z := if n <? 2 ^ w then Ok n else Panic.

#[export] Instance string_codec : Codec String := {
  get_serialized_length := fun s => 2 + Z.of_nat (length (as_bytes s));
  serialize := fun s =>
    casted_len ← try_into 16 (Z.of_nat (length (as_bytes s)));
    len ← serialize (U16 casted_len);
    Ok (len ++ as_bytes s);
  deserialize := fun slice =>
    '(len, rest) ← deserialize slice;
    let len := Z.to_nat (u16_value len) in
    guard_err (length rest <? len)%nat "slice too short for string"%string;;
    let string_bytes := take len rest in
    guard_err (negb (is_utf8 string_bytes)) "invalid utf8"%string;;
    Ok (mkString string_bytes, drop len rest);
}.

#[export] Instance option_codec {T} `{Codec T} : Codec (option T) := {
  get_serialized_length := fun o =>
    1 + match o with Some value => get_serialized_length value | None => 0 end;
  serialize := fun o =>
    match o with
    | Some value => bs ← serialize value; Ok (1 :: bs)
    | None => Ok [0]
    end;
  deserialize := fun slice =>
    match slice with
    | 0 :: rest => Ok (None, rest)
    | 1 :: rest => '(value, rest) ← deserialize rest; Ok (Some value, rest)
    | [] => Err "slice too short for Option tag"%string
    | _ => Err "invalid Option tag"%string
    end;
}.

Section vec.
Context {T : Type} `{CT : Codec T}.

Fixpoint serialize_items (l : list T) : outcome string (list Z) :=
  match l with
  | [] => Ok []
  | item :: l => bs ← serialize item; rest ← serialize_items l; Ok (bs ++ rest)
  end.
Fixpoint deserialize_items (n : nat) (rem : list Z) : outcome string (list T * list Z) :=
  match n with
  | O => Ok ([], rem)
  | S n =>
      '(item, next) ← deserialize rem;
      '(vec, rem) ← deserialize_items n next;
      Ok (item :: vec, rem)
  end.
End vec.

(** [Vec::with_capacity] aborts when the allocator, which has [heap] bytes, cannot serve
    the request; [size_of] is the size of an element. *)
Class Heap := heap : Z.
Class SizeOf (T : Type) := size_of : Z.
#[global] Arguments size_of T {_}.
#[export] Instance vec_codec {T} `{Codec T} `{SizeOf T} `{Heap} : Codec (list T) := {
  get_serialized_length := fun l => 4 + foldr Z.add 0 (get_serialized_length <$> l);
  serialize := fun l =>
    len ← try_into 32 (Z.of_nat (length l));
    len ← serialize (U32 len);
    items ← serialize_items l;
    Ok (len ++ items);
  deserialize := fun slice =>
    '(len, rem) ← deserialize slice;
    assert_or_panic (u32_value len * size_of T <=? heap);;
    deserialize_items (Z.to_nat (u32_value len)) rem;
}.

(** ** Types *)

Inductive Icon : Type := IconNone | Success | Failure | Confirm | Reject | Processing.
Inductive NavInfo : Type :=
| NavWithButtons (has_back_button has_page_indicator : bool) (quit_text : option String).
Record NavigationInfo : Type := mkNavigationInfo {
  active_page : u32;
  n_pages : u32;
  skip_text : option String;
  nav_info : NavInfo;
}.
Record TagValue : Type := mkTagValue { tag : String; value : String }.
Inductive PageContent : Type :=
| TextSubtext (text subtext : String)
| TagValueList (l : list TagValue)
| ConfirmationButton (text button_text : String)
| ConfirmationLongPress (text long_press_text : String).
Record PageContentInfo : Type := mkPageContentInfo {
  title : option String;
  top_right_icon : Icon;
  page_content : PageContent;
}.
(** The enum [Page]. *)
Inductive UxPage : Type :=
| Spinner (text : String)
| Info (icon : Icon) (text : String)
| ConfirmReject (title text confirm reject : String)
| GenericPage (navigation_info : option NavigationInfo) (page_content_info : PageContentInfo)
| Home (description : String).
(** The enum [Step]. *)
Inductive UxStep : Type :=
| StepTextSubtext (pos : u8) (text subtext : String) (style : u8)
| CenteredInfo (pos : u8) (text subtext : option String) (icon : Icon) (style : u8).

Inductive Action : Type :=
| ActConfirm | ActReject | Quit | Skip | PreviousPage | NextPage | TitleBack | TopRight.
Definition action_byte (a : Action) : Z :=
  match a with
  | ActConfirm => 0 | ActReject => 1 | Quit => 2 | Skip => 3
  | PreviousPage => 4 | NextPage => 5 | TitleBack => 6 | TopRight => 7
  end.
Inductive EventCode : Type := Ticker | EvAction | EvUnknown.
Definition event_code_value (e : EventCode) : Z :=
  match e with Ticker => 0 | EvAction => 1 | EvUnknown => 0xFFFFFFFF end.

(** ** The derived instances *)

(** The fields of a structure, one after the other. *)
Definition then_ser (a b : outcome string (list Z)) : outcome string (list Z) :=
  x ← a; y ← b; Ok (x ++ y).
Infix "+ser+" := then_ser (at level 60, right associativity).
Definition tagged (discriminant : Z) (fields : outcome string (list Z)) : outcome string (list Z) :=
  Ok [discriminant] +ser+ fields.
Definition no_fields : outcome string (list Z) := Ok [].

Definition icon_byte (i : Icon) : Z :=
  match i with
  | IconNone => 0 | Success => 1 | Failure => 2 | Confirm => 3 | Reject => 4 | Processing => 5
  end.
#[export] Instance icon_codec : Codec Icon := {
  get_serialized_length := fun _ => 1;
  serialize := fun i => tagged (icon_byte i) no_fields;
  deserialize := fun slice =>
    match slice with
    | 0 :: rest => Ok (IconNone, rest)
    | 1 :: rest => Ok (Success, rest)
    | 2 :: rest => Ok (Failure, rest)
    | 3 :: rest => Ok (Confirm, rest)
    | 4 :: rest => Ok (Reject, rest)
    | 5 :: rest => Ok (Processing, rest)
    | [] => Err "Icon slice to short for tag"%string
    | _ => Err "unknown tag"%string
    end;
}.

#[export] Instance nav_info_codec : Codec NavInfo := {
  get_serialized_length := fun '(NavWithButtons b i q) =>
    1 + get_serialized_length b + get_serialized_length i + get_serialized_length q;
  serialize := fun '(NavWithButtons b i q) => tagged 0 (serialize b +ser+ serialize i +ser+ serialize q);
  deserialize := fun slice =>
    match slice with
    | 0 :: rest =>
        '(b, rest) ← deserialize rest;
        '(i, rest) ← deserialize rest;
        '(q, rest) ← deserialize rest;
        Ok (NavWithButtons b i q, rest)
    | [] => Err "NavInfo slice to short for tag"%string
    | _ => Err "unknown tag"%string
    end;
}.
#[export] Instance navigation_info_codec : Codec NavigationInfo := {
  get_serialized_length := fun n =>
    get_serialized_length (active_page n) + get_serialized_length (n_pages n)
    + get_serialized_length (skip_text n) + get_serialized_length (nav_info n);
  serialize := fun n =>
    serialize (active_page n) +ser+ serialize (n_pages n) +ser+ serialize (skip_text n)
    +ser+ serialize (nav_info n);
  deserialize := fun slice =>
    '(a, rest) ← deserialize slice;
    '(n, rest) ← deserialize rest;
    '(s, rest) ← deserialize rest;
    '(i, rest) ← deserialize rest;
    Ok (mkNavigationInfo a n s i, rest);
}.
#[export] Instance tag_value_codec : Codec TagValue := {
  get_serialized_length := fun t => get_serialized_length (tag t) + get_serialized_length (value t);
  serialize := fun t => serialize (tag t) +ser+ serialize (value t);
  deserialize := fun slice =>
    '(t, rest) ← deserialize slice;
    '(v, rest) ← deserialize rest;
    Ok (mkTagValue t v, rest);
}.
(** Two strings of 12 bytes. *)
#[export] Instance tag_value_size : SizeOf TagValue := 24.

Section types.
Context `{Heap}.

#[export] Instance page_content_codec : Codec PageContent := {
  get_serialized_length := fun c =>
    match c with
    | TextSubtext a b | ConfirmationButton a b | ConfirmationLongPress a b =>
        1 + get_serialized_length a + get_serialized_length b
    | TagValueList l => 1 + get_serialized_length l
    end;
  serialize := fun c =>
    match c with
    | TextSubtext a b => tagged 0 (serialize a +ser+ serialize b)
    | TagValueList l => tagged 1 (serialize l)
    | ConfirmationButton a b => tagged 2 (serialize a +ser+ serialize b)
    | ConfirmationLongPress a b => tagged 3 (serialize a +ser+ serialize b)
    end;
  deserialize := fun slice =>
    match slice with
    | 0 :: rest =>
        '(a, rest) ← deserialize rest; '(b, rest) ← deserialize rest; Ok (TextSubtext a b, rest)
    | 1 :: rest => '(l, rest) ← deserialize rest; Ok (TagValueList l, rest)
    | 2 :: rest =>
        '(a, rest) ← deserialize rest; '(b, rest) ← deserialize rest; Ok (ConfirmationButton a b, rest)
    | 3 :: rest =>
        '(a, rest) ← deserialize rest; '(b, rest) ← deserialize rest; Ok (ConfirmationLongPress a b, rest)
    | [] => Err "PageContent slice to short for tag"%string
    | _ => Err "unknown tag"%string
    end;
}.
#[export] Instance page_content_info_codec : Codec PageContentInfo := {
  get_serialized_length := fun c =>
    get_serialized_length (title c) + get_serialized_length (top_right_icon c)
    + get_serialized_length (page_content c);
  serialize := fun c =>
    serialize (title c) +ser+ serialize (top_right_icon c) +ser+ serialize (page_content c);
  deserialize := fun slice =>
    '(t, rest) ← deserialize slice;
    '(i, rest) ← deserialize rest;
    '(c, rest) ← deserialize rest;
    Ok (mkPageContentInfo t i c, rest);
}.
#[export] Instance page_codec : Codec UxPage := {
  get_serialized_length := fun p =>
    match p with
    | Spinner a | Home a => 1 + get_serialized_length a
    | Info i a => 1 + get_serialized_length i + get_serialized_length a
    | ConfirmReject a b c d =>
        1 + get_serialized_length a + get_serialized_length b + get_serialized_length c
        + get_serialized_length d
    | GenericPage n c => 1 + get_serialized_length n + get_serialized_length c
    end;
  serialize := fun p =>
    match p with
    | Spinner a => tagged 0 (serialize a)
    | Info i a => tagged 1 (serialize i +ser+ serialize a)
    | ConfirmReject a b c d => tagged 2 (serialize a +ser+ serialize b +ser+ serialize c +ser+ serialize d)
    | GenericPage n c => tagged 3 (serialize n +ser+ serialize c)
    | Home a => tagged 4 (serialize a)
    end;
  deserialize := fun slice =>
    match slice with
    | 0 :: rest => '(a, rest) ← deserialize rest; Ok (Spinner a, rest)
    | 1 :: rest => '(i, rest) ← deserialize rest; '(a, rest) ← deserialize rest; Ok (Info i a, rest)
    | 2 :: rest =>
        '(a, rest) ← deserialize rest;
        '(b, rest) ← deserialize rest;
        '(c, rest) ← deserialize rest;
        '(d, rest) ← deserialize rest;
        Ok (ConfirmReject a b c d, rest)
    | 3 :: rest => '(n, rest) ← deserialize rest; '(c, rest) ← deserialize rest; Ok (GenericPage n c, rest)
    | 4 :: rest => '(a, rest) ← deserialize rest; Ok (Home a, rest)
    | [] => Err "Page slice to short for tag"%string
    | _ => Err "unknown tag"%string
    end;
}.
#[export] Instance step_codec : Codec UxStep := {
  get_serialized_length := fun s =>
    match s with
    | StepTextSubtext p a b y =>
        1 + get_serialized_length p + get_serialized_length a + get_serialized_length b
        + get_serialized_length y
    | CenteredInfo p a b i y =>
        1 + get_serialized_length p + get_serialized_length a + get_serialized_length b
        + get_serialized_length i + get_serialized_length y
    end;
  serialize := fun s =>
    match s with
    | StepTextSubtext p a b y => tagged 0 (serialize p +ser+ serialize a +ser+ serialize b +ser+ serialize y)
    | CenteredInfo p a b i y =>
        tagged 1 (serialize p +ser+ serialize a +ser+ serialize b +ser+ serialize i +ser+ serialize y)
    end;
  deserialize := fun slice =>
    match slice with
    | 0 :: rest =>
        '(p, rest) ← deserialize rest;
        '(a, rest) ← deserialize rest;
        '(b, rest) ← deserialize rest;
        '(y, rest) ← deserialize rest;
        Ok (StepTextSubtext p a b y, rest)
    | 1 :: rest =>
        '(p, rest) ← deserialize rest;
        '(a, rest) ← deserialize rest;
        '(b, rest) ← deserialize rest;
        '(i, rest) ← deserialize rest;
        '(y, rest) ← deserialize rest;
        Ok (CenteredInfo p a b i y, rest)
    | [] => Err "Step slice to short for tag"%string
    | _ => Err "unknown tag"%string
    end;
}.
End types.
