(* ===== verification/UxSpec.v ===== *)
(** * The UX codec round-trips

    What a codec promises is a class: a value that fits is serialized to bytes that any
    continuation can follow, and what is deserialized has no other encoding. Each derived
    instance keeps the promise because its fields do. *)

From S2P Require Import Prelude Ux.

(** [fits] is what a value must satisfy to be serialized: machine integers in range,
    strings of valid UTF-8 and of less than [2 ^ 16] bytes, vectors that can be allocated. *)
Class CodecLaws (T : Type) `{CT : Codec T} := {
  fits : T -> Prop;
  codec_round_trip : forall v, fits v -> exists bs,
    serialize v = Ok bs /\ bytes_ok bs /\ Z.of_nat (length bs) = get_serialized_length v /\
    forall rest, deserialize (bs ++ rest) = Ok (v, rest);
  codec_canonical : forall slice v rest, bytes_ok slice -> deserialize slice = Ok (v, rest) ->
    fits v /\ bytes_ok rest /\ exists bs, serialize v = Ok bs /\ slice = bs ++ rest;
}.

(** Inverts the successful run of a derived deserializer. *)
Ltac ux_inv :=
  repeat match goal with
  | H : _ ≫= _ = Ok _ |- _ => unfold mbind, outcome_mbind, outcome_bind in H
  | H : match ?x with _ => _ end = Ok _ |- _ =>
      let E := fresh "E" in destruct x eqn:E; try discriminate H
  | H : Ok _ = Ok _ |- _ => injection H as ?; subst
  end.
(** The first field of a structure, in both directions. *)
Ltac ux_field :=
  match goal with
  | Hb : bytes_ok ?s, H : deserialize ?s = Ok _ |- _ =>
      let F := fresh "F" in let bs := fresh "bs" in let Es := fresh "Es" in
      destruct (codec_canonical _ _ _ Hb H) as (F & ? & bs & Es & ->); clear H
  end.
Ltac ux_trip :=
  match goal with
  | F : fits ?v |- _ =>
      let bs := fresh "bs" in let E := fresh "E" in let R := fresh "R" in
      destruct (codec_round_trip v F) as (bs & E & ? & ? & R); clear F
  end.
(** Composes the serializers. *)
Ltac ux_compose :=
  unfold tagged, no_fields, then_ser;
  repeat match goal with E : serialize ?v = Ok _ |- context [serialize ?v] => rewrite E end;
  cbn [mbind outcome_mbind outcome_bind app].
(** The length of what was composed. *)
Ltac ux_length :=
  cbn [length get_serialized_length bool_codec u8_codec u16_codec u32_codec string_codec option_codec
    vec_codec icon_codec nav_info_codec navigation_info_codec tag_value_codec page_content_codec
    page_content_info_codec page_codec step_codec
    active_page n_pages skip_text nav_info tag value title top_right_icon page_content] in *;
  rewrite ?length_app in *; cbn [length] in *; lia.
(** The round trip and the uniqueness of a structure whose fields are codecs. *)
Tactic Notation "ux_derive_trip" reference(codec) :=
  cbn [serialize codec active_page n_pages skip_text nav_info tag value title top_right_icon page_content];
  repeat match goal with H : _ /\ _ |- _ => destruct H end; repeat ux_trip;
  ux_compose; eexists; split; [reflexivity|]; split_and!;
  [ repeat first [done | apply Forall_nil; done | apply Forall_cons; split; [split; vm_compute; done|] |
      apply Forall_app; split]
  | ux_length
  | let rest := fresh in intros rest; cbn [app]; rewrite ?app_nil_r, <- ?app_assoc;
    cbn [deserialize codec mbind outcome_mbind outcome_bind];
    repeat match goal with R : forall rest, deserialize (?bs ++ rest) = _ |- _ =>
      progress rewrite R; cbn [mbind outcome_mbind outcome_bind] end; done ].
Tactic Notation "ux_derive_canonical" reference(codec) :=
  cbn [serialize codec active_page n_pages skip_text nav_info tag value title top_right_icon page_content];
  repeat match goal with Hb : bytes_ok (_ :: _) |- _ => inversion Hb; subst; clear Hb end;
  repeat ux_field; split; [split_and?; done|]; split; [done|];
  ux_compose; eexists; split; [reflexivity|]; cbn [app]; rewrite ?app_nil_r, <- ?app_assoc; done.

(** Equal lists whose first elements are equal by arithmetic. *)
Ltac ux_bytes :=
  repeat match goal with |- ?x :: _ = ?y :: _ => replace y with x by dlia; apply (f_equal (cons x)) end; done.

(** ** Scalars *)

Lemma be_value_2 a b : be_value [a; b] = 256 * a + b.
Proof. unfold be_value. cbn. lia. Qed.
Lemma be_value_word a b c d : be_value [a; b; c; d] = 256 * (256 * (256 * a + b) + c) + d.
Proof. unfold be_value. cbn. lia. Qed.
Lemma land_ff x : Z.land x 0xFF = x mod 256.
Proof. exact (land_mask 8 x ltac:(lia)). Qed.

#[export] Instance bool_laws : CodecLaws bool.
Proof.
  refine {| fits := fun _ => True |}.
  - intros v _. exists [bool_byte v]. split; [done|]. split; [|split; [done|by destruct v]].
    constructor; [destruct v; split; vm_compute; done|done].
  - intros slice v rest Hb H. destruct slice as [|b slice]; [done|]. inversion Hb; subst.
    unfold deserialize, bool_codec in H. split; [done|].
    destruct b as [|[]|]; try discriminate H; injection H as <- <-; (split; [done|]; by eexists).
Defined.

#[export] Instance u8_laws : CodecLaws u8.
Proof.
  refine {| fits := fun x => is_u8 (u8_value x) |}.
  - intros [x] Hx. exists [x]. split; [done|]. split; [by constructor|]. done.
  - intros [|b slice] v rest Hb H; [done|]. injection H as <- <-. inversion Hb; subst.
    split; [done|]. split; [done|]. by exists [b].
Defined.

#[export] Instance u16_laws : CodecLaws u16.
Proof.
  refine {| fits := fun x => is_u16 (u16_value x) |}.
  - intros [x] Hx. unfold is_u in Hx. cbn [u16_value] in Hx. eexists. split; [done|].
    cbn [u16_value]. rewrite land_ff, Z.shiftr_div_pow2 by lia. change (2 ^ 8) with 256.
    unfold wrap. change (2 ^ 8) with 256. split; [|split; [done|]].
    + repeat constructor; apply Z.mod_pos_bound; lia.
    + intros rest. cbn [app deserialize u16_codec]. rewrite be_value_2. do 3 f_equal.
      change (2 ^ 16) with 65536 in Hx. dlia.
  - intros slice v rest Hb H. destruct slice as [|a [|b slice]]; try done. injection H as <- <-.
    inversion Hb as [|? ? Ha Hb']; subst. inversion Hb' as [|? ? Hb0 Hr]; subst. unfold is_u in *.
    cbn [u16_value]. rewrite be_value_2. split; [lia|]. split; [done|]. eexists. split; [done|].
    cbn [u16_value app]. rewrite land_ff, Z.shiftr_div_pow2 by lia. unfold wrap.
    change (2 ^ 8) with 256 in *. ux_bytes.
Defined.

#[export] Instance u32_laws : CodecLaws u32.
Proof.
  refine {| fits := fun x => is_u32 (u32_value x) |}.
  - intros [x] Hx. unfold is_u in Hx. cbn [u32_value] in Hx. eexists. split; [done|].
    cbn [u32_value]. cbv zeta. rewrite !land_ff, !Z.shiftr_div_pow2 by lia. unfold wrap.
    change (2 ^ 8) with 256. change (2 ^ 16) with 65536. change (2 ^ 24) with 16777216.
    change (2 ^ 32) with 4294967296 in Hx. split; [|split; [done|]].
    + repeat constructor; apply Z.mod_pos_bound; lia.
    + intros rest. cbn [app deserialize u32_codec]. rewrite be_value_word. do 3 f_equal. dlia.
  - intros slice v rest Hb H. destruct slice as [|a [|b [|c [|d slice]]]]; try done.
    injection H as <- <-. repeat match goal with Hb : Forall _ (_ :: _) |- _ => inversion Hb; subst; clear Hb end.
    unfold is_u in *. cbn [u32_value]. rewrite be_value_word. change (2 ^ 32) with 4294967296.
    change (2 ^ 8) with 256 in *. split; [lia|]. split; [done|]. eexists. split; [done|].
    cbn [u32_value app]. cbv zeta. rewrite !land_ff, !Z.shiftr_div_pow2 by lia. unfold wrap.
    change (2 ^ 8) with 256. change (2 ^ 16) with 65536. change (2 ^ 24) with 16777216.
    ux_bytes.
Defined.

(** ** Strings, options and vectors *)

Lemma try_into_fits w n : n < 2 ^ w -> try_into w n = Ok n.
Proof. intros H. unfold try_into. by rewrite (proj2 (Z.ltb_lt _ _) H). Qed.

#[export] Instance string_laws : CodecLaws String.
Proof.
  refine {| fits := fun s =>
    bytes_ok (as_bytes s) /\ is_utf8 (as_bytes s) = true /\ Z.of_nat (length (as_bytes s)) < 2 ^ 16 |}.
  - intros [s] (Hb & Hu & Hl). cbn [as_bytes] in *.
    destruct (codec_round_trip (U16 (Z.of_nat (length s)))) as (bs & E & Hbs & Hlen & R);
      [cbn; split; lia|].
    exists (bs ++ s). cbn [serialize string_codec as_bytes]. rewrite try_into_fits by done.
    cbn [mbind outcome_mbind outcome_bind]. rewrite E. split; [done|]. split; [by apply Forall_app|].
    split; [rewrite length_app; cbn in *; lia|]. intros rest.
    cbn [deserialize string_codec]. rewrite <- app_assoc, R. cbn [mbind outcome_mbind outcome_bind u16_value].
    cbv zeta. rewrite Nat2Z.id. unfold guard_err. rewrite length_app.
    rewrite (proj2 (Nat.ltb_ge _ _)) by lia. cbn [outcome_bind].
    rewrite take_app_length, drop_app_length, Hu. done.
  - intros slice v rest Hb H. cbn [deserialize string_codec] in H. unfold guard_err in H. ux_inv.
    rename E into Ed. ux_field. destruct u as [n]. cbn [u16_value fits u16_laws] in *. unfold is_u in F.
    repeat match goal with
    | Hlt : (_ <? _)%nat = false |- _ => apply Nat.ltb_ge in Hlt
    | Hn : negb _ = false |- _ => apply negb_false_iff in Hn
    end. cbn [as_bytes].
    rewrite length_take, Nat.min_l by lia. split_and!; [by apply Forall_take|done|lia|by apply Forall_drop|].
    cbn [serialize string_codec as_bytes]. rewrite length_take, Nat.min_l, Z2Nat.id by lia.
    rewrite try_into_fits by lia. cbn [mbind outcome_mbind outcome_bind]. rewrite Es. eexists. split; [done|].
    by rewrite <- app_assoc, take_drop.
Defined.

#[export] Instance option_laws {T} `{CodecLaws T} : CodecLaws (option T).
Proof.
  refine {| fits := fun o => match o with Some v => fits v | None => True end |}.
  - intros [v|] F.
    + cbn [serialize option_codec]. ux_trip. ux_compose. eexists. split; [done|]. split_and!.
      * by constructor.
      * cbn [length get_serialized_length option_codec]. lia.
      * intros rest. cbn [app deserialize option_codec]. by rewrite R.
    + eexists. split; [done|]. split_and!; [repeat constructor; done|done|done].
  - intros slice v rest Hb Hd. destruct slice as [|b slice]; [done|]. cbn [deserialize option_codec] in Hd.
    inversion Hb; subst. destruct b as [|[]|]; try discriminate Hd.
    + injection Hd as <- <-. split; [done|]. split; [done|]. by eexists.
    + ux_inv. ux_field. split; [done|]. split; [done|]. cbn [serialize option_codec]. rewrite Es. by eexists.
Defined.

Section vec.
Context {T : Type} `{CodecLaws T}.

Lemma items_round_trip (l : list T) : Forall fits l -> exists bs,
  serialize_items l = Ok bs /\ bytes_ok bs /\
  Z.of_nat (length bs) = foldr Z.add 0 (get_serialized_length <$> l) /\
  forall rest, deserialize_items (length l) (bs ++ rest) = Ok (l, rest).
Proof.
  induction 1 as [|v l F _ (bl & El & Hl & Hlen & Rl)]; [by exists []|]. ux_trip.
  exists (bs ++ bl). cbn [serialize_items deserialize_items length fmap list_fmap foldr].
  rewrite E, El. split; [done|]. split; [by apply Forall_app|]. split; [rewrite length_app; unfold fmap in *; lia|].
  intros rest. rewrite <- app_assoc, R. cbn [mbind outcome_mbind outcome_bind]. by rewrite Rl.
Qed.
Lemma items_canonical n : forall rem (l : list T) rest,
  bytes_ok rem -> deserialize_items n rem = Ok (l, rest) ->
  length l = n /\ Forall fits l /\ bytes_ok rest /\ exists bs, serialize_items l = Ok bs /\ rem = bs ++ rest.
Proof.
  induction n as [|n IH]; intros rem l rest Hb Hd; cbn [deserialize_items] in Hd.
  - injection Hd as <- <-. split_and!; [done..|]. by exists [].
  - ux_inv. ux_field. match goal with Hi : deserialize_items n _ = Ok _, Hr : bytes_ok ?x |- _ =>
      destruct (IH _ _ _ Hr Hi) as (<- & Hf & Hrest & bl & El & ->) end.
    split_and!; [done|by constructor|done|]. cbn [serialize_items]. rewrite Es, El. eexists. split; [done|].
    by rewrite <- app_assoc.
Qed.
End vec.

#[export] Instance vec_laws {T} `{CodecLaws T} `{SizeOf T} `{Heap} : CodecLaws (list T).
Proof.
  refine {| fits := fun l => Forall fits l /\ Z.of_nat (length l) < 2 ^ 32 /\
                             Z.of_nat (length l) * size_of T <= heap |}.
  - intros l (F & Hl & Hh). destruct (items_round_trip l F) as (bl & El & Hbl & Hlen & Rl).
    destruct (codec_round_trip (U32 (Z.of_nat (length l)))) as (bs & E & Hbs & Hlen' & R); [cbn; split; lia|].
    cbn [serialize vec_codec]. rewrite try_into_fits by done. cbn [mbind outcome_mbind outcome_bind].
    rewrite E, El. eexists. split; [done|]. split; [by apply Forall_app|].
    split; [rewrite length_app; cbn [get_serialized_length vec_codec u32_codec] in *; lia|].
    intros rest. cbn [deserialize vec_codec]. rewrite <- app_assoc, R. cbn [mbind outcome_mbind outcome_bind u32_value].
    unfold assert_or_panic. rewrite (proj2 (Z.leb_le _ _)) by done. cbn [outcome_bind].
    by rewrite Nat2Z.id, Rl.
  - intros slice l rest Hb Hd. cbn [deserialize vec_codec] in Hd. unfold assert_or_panic in Hd. ux_inv. ux_field.
    destruct u as [n]. cbn [u32_value fits u32_laws] in *. unfold is_u in F.
    match goal with Hi : deserialize_items _ _ = Ok _, Hr : bytes_ok _ |- _ =>
      destruct (items_canonical _ _ _ _ Hr Hi) as (Hn & Hf & Hrest & bl & El & ->) end.
    match goal with Hh : (_ <=? _) = true |- _ => apply Z.leb_le in Hh end.
    rewrite Hn, Z2Nat.id by lia. split_and!; [done|lia|done|done|].
    cbn [serialize vec_codec]. rewrite Hn, Z2Nat.id, try_into_fits by lia.
    cbn [mbind outcome_mbind outcome_bind]. rewrite Es, El. eexists. split; [done|]. by rewrite <- app_assoc.
Defined.

(** ** The derived instances *)

#[export] Instance icon_laws : CodecLaws Icon.
Proof.
  refine {| fits := fun _ => True |}.
  - intros v _. exists [icon_byte v]. split; [done|]. split; [|split; [done|by destruct v]].
    constructor; [destruct v; split; vm_compute; done|done].
  - intros [|b slice] v rest Hb H; [done|]. inversion Hb; subst. split; [done|].
    unfold deserialize, icon_codec in H.
    do 4 (try destruct b as [|b|]; try discriminate H); injection H as <- <-; (split; [done|]; by eexists).
Defined.

#[export] Instance nav_info_laws : CodecLaws NavInfo.
Proof.
  refine {| fits := fun '(NavWithButtons b i q) => fits b /\ fits i /\ fits q |}.
  - intros [b i q] F. ux_derive_trip nav_info_codec.
  - intros slice v rest Hb H. cbn [deserialize nav_info_codec] in H. destruct slice as [|[] slice]; try done. ux_inv.
    ux_derive_canonical nav_info_codec.
Defined.
#[export] Instance navigation_info_laws : CodecLaws NavigationInfo.
Proof.
  refine {| fits := fun n => fits (active_page n) /\ fits (n_pages n) /\ fits (skip_text n) /\ fits (nav_info n) |}.
  - intros [a n s i] F. cbn [active_page n_pages skip_text nav_info] in F. ux_derive_trip navigation_info_codec.
  - intros slice v rest Hb H. cbn [deserialize navigation_info_codec] in H. ux_inv.
    ux_derive_canonical navigation_info_codec.
Defined.
#[export] Instance tag_value_laws : CodecLaws TagValue.
Proof.
  refine {| fits := fun t => fits (tag t) /\ fits (value t) |}.
  - intros [t v] F. cbn [tag value] in F. ux_derive_trip tag_value_codec.
  - intros slice v rest Hb H. cbn [deserialize tag_value_codec] in H. ux_inv.
    ux_derive_canonical tag_value_codec.
Defined.

Section types.
Context `{Heap}.

(** The first byte of an enum. *)
Ltac ux_tag H :=
  match type of H with match ?s with _ => _ end = _ =>
    let b := fresh "b" in destruct s as [|b s]; [done|];
    do 4 (try destruct b as [|b|]; try discriminate H) end.

#[export] Instance page_content_laws : CodecLaws PageContent.
Proof.
  refine {| fits := fun c =>
    match c with
    | TextSubtext a b | ConfirmationButton a b | ConfirmationLongPress a b => fits a /\ fits b
    | TagValueList l => fits l
    end |}.
  - intros [] F; ux_derive_trip page_content_codec.
  - intros slice v rest Hb Hd. cbn [deserialize page_content_codec] in Hd.
    ux_tag Hd; ux_inv; ux_derive_canonical page_content_codec.
Defined.
#[export] Instance page_content_info_laws : CodecLaws PageContentInfo.
Proof.
  refine {| fits := fun c => fits (title c) /\ fits (top_right_icon c) /\ fits (page_content c) |}.
  - intros [t i c] F. cbn [title top_right_icon page_content] in F. ux_derive_trip page_content_info_codec.
  - intros slice v rest Hb Hd. cbn [deserialize page_content_info_codec] in Hd. ux_inv.
    ux_derive_canonical page_content_info_codec.
Defined.
#[export] Instance page_laws : CodecLaws UxPage.
Proof.
  refine {| fits := fun p =>
    match p with
    | Spinner a | Home a => fits a
    | Info i a => fits i /\ fits a
    | ConfirmReject a b c d => fits a /\ fits b /\ fits c /\ fits d
    | GenericPage n c => fits n /\ fits c
    end |}.
  - intros [] F; ux_derive_trip page_codec.
  - intros slice v rest Hb Hd. cbn [deserialize page_codec] in Hd.
    ux_tag Hd; ux_inv; ux_derive_canonical page_codec.
Defined.
#[export] Instance step_laws : CodecLaws UxStep.
Proof.
  refine {| fits := fun s =>
    match s with
    | StepTextSubtext p a b y => fits p /\ fits a /\ fits b /\ fits y
    | CenteredInfo p a b i y => fits p /\ fits a /\ fits b /\ fits i /\ fits y
    end |}.
  - intros [] F; ux_derive_trip step_codec.
  - intros slice v rest Hb Hd. cbn [deserialize step_codec] in Hd.
    ux_tag Hd; ux_inv; ux_derive_canonical step_codec.
Defined.
End types.

(** ** Panics

    Only the allocation of a vector can panic. *)

Class NeverPanics (T : Type) `{Codec T} :=
  never_panics : forall slice, deserialize slice <> Panic.

Lemma bind_panic {E A B} (o : outcome E A) (f : A -> outcome E B) :
  (x ← o; f x) = Panic -> o = Panic \/ exists a, o = Ok a /\ f a = Panic.
Proof. destruct o; cbn; eauto; discriminate. Qed.
(** Inverts a deserializer that panicked. *)
Ltac ux_panics :=
  repeat match goal with
  | H : deserialize _ = Panic |- _ => exfalso; exact (never_panics _ H)
  | H : _ ≫= _ = Panic |- _ =>
      apply bind_panic in H as [H|([] & ? & H)]; [try (exfalso; exact (never_panics _ H))|]
  | H : Ok _ = Panic |- _ => discriminate H
  end.

#[export] Instance bool_never : NeverPanics bool.
Proof. intros slice. cbn. by repeat case_match. Qed.
#[export] Instance u8_never : NeverPanics u8.
Proof. intros slice. cbn. by repeat case_match. Qed.
#[export] Instance u16_never : NeverPanics u16.
Proof. intros slice. cbn. by repeat case_match. Qed.
#[export] Instance u32_never : NeverPanics u32.
Proof. intros slice. cbn. by repeat case_match. Qed.
#[export] Instance icon_never : NeverPanics Icon.
Proof. intros slice. cbn. by repeat case_match. Qed.
#[export] Instance string_never : NeverPanics String.
Proof.
  intros slice H. cbn [deserialize string_codec] in H. ux_panics; unfold guard_err in *;
    repeat case_match; discriminate.
Qed.
#[export] Instance option_never {T} `{NeverPanics T} : NeverPanics (option T).
Proof.
  intros slice Hd. cbn [deserialize option_codec] in Hd. repeat (case_match; try discriminate). ux_panics.
Qed.
#[export] Instance nav_info_never : NeverPanics NavInfo.
Proof.
  intros slice H. cbn [deserialize nav_info_codec] in H. repeat (case_match; try discriminate). ux_panics.
Qed.
#[export] Instance navigation_info_never : NeverPanics NavigationInfo.
Proof. intros slice H. cbn [deserialize navigation_info_codec] in H. ux_panics. Qed.
#[export] Instance tag_value_never : NeverPanics TagValue.
Proof. intros slice H. cbn [deserialize tag_value_codec] in H. ux_panics. Qed.
#[export] Instance step_never : NeverPanics UxStep.
Proof.
  intros slice H. cbn [deserialize step_codec] in H. repeat (case_match; try discriminate); ux_panics.
Qed.

Section panics.
Context `{Heap}.

(** The four bytes of a length whose vector cannot be allocated are in the input. *)
Definition too_long (slice : list Z) : Prop := exists pre len rest,
  slice = pre ++ len ++ rest /\ length len = 4%nat /\ heap < be_value len * size_of TagValue.
Lemma too_long_app bs slice : too_long slice -> too_long (bs ++ slice).
Proof.
  intros (pre & len & rest & -> & Hl & Hh). exists (bs ++ pre), len, rest. by rewrite <- app_assoc.
Qed.

Lemma items_never {T} `{NeverPanics T} n : forall rem : list Z, deserialize_items (T:=T) n rem <> Panic.
Proof.
  induction n as [|n IH]; intros rem Hd; cbn [deserialize_items] in Hd; [done|].
  ux_panics. by eapply IH.
Qed.
Lemma vec_panics slice : deserialize (T:=list TagValue) slice = Panic -> too_long slice.
Proof.
  intros Hd. cbn [deserialize vec_codec] in Hd. apply bind_panic in Hd as [Hd|([[n] rem] & E & Hd)].
  { exfalso. exact (never_panics _ Hd). }
  apply bind_panic in Hd as [Hd|(? & _ & Hd)]; [|exfalso; exact (items_never _ _ Hd)].
  cbn [u32_value] in Hd. unfold assert_or_panic in Hd.
  destruct (Z.leb_spec (n * size_of TagValue) heap); [done|]. cbn [deserialize u32_codec] in E.
  destruct slice as [|a [|b [|c [|d slice]]]]; try discriminate E. injection E as <- _.
  by exists [], [a; b; c; d], slice.
Qed.
Lemma page_content_panics slice : deserialize (T:=PageContent) slice = Panic -> too_long slice.
Proof.
  intros Hd. cbn [deserialize page_content_codec] in Hd.
  repeat (case_match; try discriminate); ux_panics. apply (too_long_app [1]). by apply vec_panics.
Qed.
Lemma page_panics slice : bytes_ok slice -> deserialize (T:=UxPage) slice = Panic -> too_long slice.
Proof.
  intros Hb Hd. cbn [deserialize page_codec] in Hd. destruct slice as [|b slice]; [done|].
  inversion Hb; subst. repeat (case_match; try discriminate); ux_panics.
  ux_field. apply (too_long_app [3]), too_long_app. cbn [deserialize page_content_info_codec] in Hd.
  ux_panics. repeat ux_field. do 2 apply too_long_app. by apply page_content_panics.
Qed.
End panics.

(** ** Properties *)

(** C28. What the V-App serializes is what the VM shows: a page or a step whose integers are
    in range and whose strings are shorter than 2^16 bytes of UTF-8 is serialized to
    [get_serialized_length] bytes, from which [deserialize_full] gives it back; and bytes
    that [deserialize_full] accepts are the serialization of what it returns. *)
Theorem ux_round_trip `{Heap} :
  (forall p : UxPage, fits p -> exists bs, serialize p = Ok bs /\
     Z.of_nat (length bs) = get_serialized_length p /\ deserialize_full bs = Ok p) /\
  (forall s : UxStep, fits s -> exists bs, serialize s = Ok bs /\
     Z.of_nat (length bs) = get_serialized_length s /\ deserialize_full bs = Ok s) /\
  (forall slice (p : UxPage), bytes_ok slice -> deserialize_full slice = Ok p -> serialize p = Ok slice) /\
  (forall slice (s : UxStep), bytes_ok slice -> deserialize_full slice = Ok s -> serialize s = Ok slice).
Proof.
  unfold deserialize_full. split_and!.
  - intros p F. ux_trip. exists bs. do 2 (split; [done|]). specialize (R []). rewrite app_nil_r in R. by rewrite R.
  - intros p F. ux_trip. exists bs. do 2 (split; [done|]). specialize (R []). rewrite app_nil_r in R. by rewrite R.
  - intros slice p Hb Hd. ux_inv. ux_field. by rewrite app_nil_r.
  - intros slice p Hb Hd. ux_inv. ux_field. by rewrite app_nil_r.
Qed.

(** Deserializing a page panics only when the allocator cannot serve a vector whose
    length is written in the input. On the device, whose memory is below [24 * (2^32 - 1)]
    bytes, nine bytes of a V-App are enough for that. *)
Theorem page_deserialize_panics `{Heap} :
  (forall slice, bytes_ok slice -> deserialize_full (T:=UxPage) slice = Panic -> too_long slice) /\
  (heap < 24 * (2 ^ 32 - 1) ->
   deserialize_full (T:=UxPage) [3; 0; 0; 0; 1; 255; 255; 255; 255] = Panic).
Proof.
  unfold deserialize_full. split.
  - intros slice Hb Hd. apply bind_panic in Hd as [Hd|([p rest] & _ & Hd)]; [by apply page_panics|].
    by destruct rest.
  - intros Hh. cbn [deserialize page_codec option_codec mbind outcome_mbind outcome_bind page_content_info_codec
      icon_codec page_content_codec vec_codec u32_codec u32_value].
    change (be_value [255; 255; 255; 255]) with (2 ^ 32 - 1). change (size_of TagValue) with 24.
    unfold assert_or_panic. rewrite (proj2 (Z.leb_gt _ _)) by lia. done.
Qed.

Definition demo_heap : Heap := 24576.
Definition demo_page : UxPage :=
  GenericPage
    (Some (mkNavigationInfo (U32 1) (U32 3) (Some (mkString [83; 107; 105; 112]))
             (NavWithButtons true false (Some (mkString [81; 117; 105; 116])))))
    (mkPageContentInfo None Success
       (TagValueList [mkTagValue (mkString [84; 111]) (mkString [0xE2; 0x82; 0xBF])])).
Lemma demo_page_fits : fits (CodecLaws:=page_laws (H:=demo_heap)) demo_page.
Proof.
  cbn [fits page_laws option_laws navigation_info_laws page_content_info_laws page_content_laws vec_laws
    tag_value_laws nav_info_laws string_laws u32_laws icon_laws bool_laws demo_page active_page n_pages
    skip_text nav_info tag value title top_right_icon page_content as_bytes u32_value].
  repeat match goal with
  | |- _ /\ _ => split
  | |- True => exact I
  | |- is_u _ _ => split; [apply Z.leb_le|apply Z.ltb_lt]; reflexivity
  | |- Forall _ _ => constructor
  | |- _ = _ => reflexivity
  | |- _ < _ => apply Z.ltb_lt; reflexivity
  | |- _ <= _ => apply Z.leb_le; reflexivity
  end.
Qed.
Lemma ux_round_trip_witness : exists bs,
  serialize (Codec:=page_codec (H:=demo_heap)) demo_page = Ok bs /\
  Z.of_nat (length bs) = get_serialized_length (Codec:=page_codec (H:=demo_heap)) demo_page /\
  deserialize_full (H:=page_codec (H:=demo_heap)) bs = Ok demo_page.
Proof.
  apply (proj1 (ux_round_trip (H:=demo_heap))). exact demo_page_fits.
Defined.
Lemma page_deserialize_panics_witness :
  deserialize_full (H:=page_codec (H:=demo_heap)) [3; 0; 0; 0; 1; 255; 255; 255; 255] = Panic.
Proof. apply (proj2 (page_deserialize_panics (H:=demo_heap))). vm_compute. done. Defined.
