(* ===== verification/Manifest.v ===== *)
(** * The manifest and the store of V-Apps ([common/src/manifest.rs], [vm/src/vapp.rs],
    [vm/src/nvm.rs])

    The manifest of a V-App with its validation and its hash, and the entries of the
    registered V-Apps in the non-volatile memory. A string is the list of its UTF-8 bytes.
    The store, a static array in the code, is passed along. *)

From S2P Require Import Prelude Ux Memory Accumulator.

(** ** constants.rs, manifest.rs *)

Definition STORAGE_SLOT_SIZE : Z := 32.
Definition MAX_STORAGE_SLOTS : Z := 4.
Definition APP_NAME_MAX_LEN : Z := 32.
Definition APP_VERSION_MAX_LEN : Z := 32.

Record Manifest : Type := mkManifest {
  manifest_version : Z;
  vapp_name : list Z;
  vapp_version : list Z;
  entrypoint : Z;
  code_start : Z;
  code_end : Z;
  code_merkle_root : list Z;
  data_start : Z;
  data_end : Z;
  data_merkle_root : list Z;
  stack_start : Z;
  stack_end : Z;
  stack_merkle_root : list Z;
  n_storage_slots : Z;
}.

(** [c.is_ascii_graphic() || c == ' ']; a character out of ASCII has no byte below 128. *)
Definition printable (b : Z) : bool := ((0x21 <=? b) && (b <=? 0x7E)) || (b =? 0x20).
Definition starts_with_space (s : list Z) : bool := bool_decide (head s = Some 0x20).
Definition ends_with_space (s : list Z) : bool := bool_decide (last s = Some 0x20).

Definition validate (m : Manifest) : outcome string unit :=
  guard_err (APP_NAME_MAX_LEN <? Z.of_nat (length (vapp_name m))) "vapp_name is too long"%string;;
  guard_err (APP_VERSION_MAX_LEN <? Z.of_nat (length (vapp_version m))) "vapp_version is too long"%string;;
  guard_err ((entrypoint m <? code_start m) || (code_end m <=? entrypoint m))
    "entrypoint must be within the code section"%string;;
  guard_err (negb (entrypoint m mod 2 =? 0)) "entrypoint must be 2-byte aligned"%string;;
  guard_err (negb (forallb printable (vapp_name m)))
    "vapp_name contains non-printable ASCII characters"%string;;
  guard_err (negb (forallb printable (vapp_version m)))
    "vapp_version contains non-printable ASCII characters"%string;;
  guard_err (starts_with_space (vapp_name m) || ends_with_space (vapp_name m))
    "vapp_name must not start or end with a space"%string;;
  guard_err (starts_with_space (vapp_version m) || ends_with_space (vapp_version m))
    "vapp_version must not start or end with a space"%string;;
  guard_err (MAX_STORAGE_SLOTS <? n_storage_slots m) "n_storage_slots exceeds maximum allowed"%string.

(** [Manifest::new]: the struct of the arguments, validated. *)
Definition manifest_new (m : Manifest) : outcome string Manifest := validate m;; Ok m.

Definition n_pages_of (start end_ : Z) : Z :=
  u32_add 1 (u32_sub (page_start (u32_sub end_ 1)) (page_start start) / PAGE_SIZE).
Definition n_code_pages (m : Manifest) : Z := n_pages_of (code_start m) (code_end m).
Definition n_data_pages (m : Manifest) : Z := n_pages_of (data_start m) (data_end m).
Definition n_stack_pages (m : Manifest) : Z := n_pages_of (stack_start m) (stack_end m).

(** What [get_vapp_hash] feeds to the hasher, one update after the other. *)
Definition vapp_hash_updates (m : Manifest) : list (list Z) :=
  [be_bytes 4 (manifest_version m);
   [w8 (Z.of_nat (length (vapp_name m)))]; vapp_name m;
   [w8 (Z.of_nat (length (vapp_version m)))]; vapp_version m;
   be_bytes 4 (entrypoint m);
   be_bytes 4 (code_start m); be_bytes 4 (code_end m); code_merkle_root m;
   be_bytes 4 (data_start m); be_bytes 4 (data_end m); data_merkle_root m;
   be_bytes 4 (stack_start m); be_bytes 4 (stack_end m); stack_merkle_root m;
   be_bytes 4 (n_storage_slots m)].
Definition get_vapp_hash {H} `{Hasher H} (m : Manifest) : HashOutput :=
  hasher_digest (H:=H) (foldl hasher_update hasher_new (vapp_hash_updates m)).

(** ** nvm.rs *)

Definition STORAGE_VALID : Z := 0xa5.
Record LazyStorage (T : Type) : Type := mkLazy { flag : Z; stored : T }.
Arguments mkLazy {T} flag stored.
Arguments flag {T} l.
Arguments stored {T} l.

Section nvm.
(** The value of zero bytes. *)
Context {T : Type} (zeroed : T).

Definition lazy_new : LazyStorage T := mkLazy 0 zeroed.
Definition is_initialized (s : LazyStorage T) : bool := flag s =? STORAGE_VALID.
Definition initialize (value : T) : ST (LazyStorage T) Empty_set unit :=
  s ← get;
  lift (assert_or_panic (negb (is_initialized s)));;
  modify (fun s => mkLazy (flag s) value);;
  modify (fun s => mkLazy STORAGE_VALID (stored s)).
Definition get_ref (s : LazyStorage T) : outcome Empty_set T :=
  assert_or_panic (is_initialized s);; Ok (stored s).
Definition update (value : T) : ST (LazyStorage T) Empty_set unit :=
  s ← get;
  lift (assert_or_panic (is_initialized s));;
  modify (fun s => mkLazy 0 (stored s));;
  modify (fun s => mkLazy (flag s) value);;
  modify (fun s => mkLazy STORAGE_VALID (stored s)).
Definition clear : ST (LazyStorage T) Empty_set unit :=
  modify (fun s => mkLazy 0 (stored s));;
  modify (fun s => mkLazy (flag s) zeroed).
End nvm.

(** ** vapp.rs *)

Definition MAX_REGISTERED_VAPPS : nat := 32.

Record VAppEntry : Type := mkEntry {
  entry_hash : list Z;
  entry_name : list Z;
  entry_version : list Z;
  storage_slots : list (list Z);
}.
Definition entry_empty : VAppEntry :=
  mkEntry (replicate 32 0) (replicate 32 0) (replicate 32 0) (replicate 4 (replicate 32 0)).

(** Up to the first zero byte. *)
Fixpoint until_zero (s : list Z) : list Z :=
  match s with
  | [] => []
  | b :: s => if b =? 0 then [] else b :: until_zero s
  end.
Definition get_app_name (e : VAppEntry) : list Z :=
  let name := until_zero (entry_name e) in if is_utf8 name then name else [].
Definition get_app_version (e : VAppEntry) : list Z :=
  let version := until_zero (entry_version e) in if is_utf8 version then version else [].

Inductive VAppStoreError : Type := StoreFull | NameTooLong | VersionTooLong.

Abbreviation Store := (list (LazyStorage VAppEntry)).
Definition store_new : Store := replicate MAX_REGISTERED_VAPPS (lazy_new entry_empty).

(** The scans [for i in 0..MAX_REGISTERED_VAPPS]. *)
Fixpoint find_entry (p : VAppEntry -> bool) (i : nat) (s : Store) : option nat :=
  match s with
  | [] => None
  | l :: s => if is_initialized l && p (stored l) then Some i else find_entry p (S i) s
  end.
Fixpoint find_free (i : nat) (s : Store) : option nat :=
  match s with
  | [] => None
  | l :: s => if negb (is_initialized l) then Some i else find_free (S i) s
  end.

Definition find_by_hash (vapp_hash : list Z) (s : Store) : option nat :=
  find_entry (fun e => bool_decide (entry_hash e = vapp_hash)) 0 s.
Definition is_registered (vapp_hash : list Z) (s : Store) : bool :=
  match find_by_hash vapp_hash s with Some _ => true | None => false end.
Definition find_by_name (name : list Z) (s : Store) : option nat :=
  find_entry (fun e => bool_decide (get_app_name e = name)) 0 s.

(** A method of the slot at an index. *)
Definition at_slot {A} (i : nat) (m : ST (LazyStorage VAppEntry) Empty_set A) : ST Store Empty_set A :=
  fun s =>
    match s !! i with
    | Some l => let '(o, l') := m l in (o, <[i := l']> s)
    | None => (Panic, s)
    end.
Definition never {E A} (m : ST Store Empty_set A) : ST Store E A :=
  map_err (fun e : Empty_set => match e with end) m.

(** [entry.vapp_name[..name.len()].copy_from_slice(name)]. *)
Definition new_entry (vapp_hash name version : list Z) : VAppEntry :=
  mkEntry vapp_hash (splice 0 name (entry_name entry_empty)) (splice 0 version (entry_version entry_empty))
    (storage_slots entry_empty).

Definition register {H} `{Hasher H} (manifest : Manifest)
    : ST Store VAppStoreError unit :=
  lift (guard_err (APP_NAME_MAX_LEN <? Z.of_nat (length (vapp_name manifest))) NameTooLong);;
  lift (guard_err (APP_VERSION_MAX_LEN <? Z.of_nat (length (vapp_version manifest))) VersionTooLong);;
  let entry := new_entry (get_vapp_hash (H:=H) manifest) (vapp_name manifest) (vapp_version manifest) in
  s ← get;
  match find_by_name (vapp_name manifest) s with
  | Some existing_index => never (at_slot existing_index (update entry))
  | None =>
      match find_free 0 s with
      | Some i => never (at_slot i (initialize entry))
      | None => fail StoreFull
      end
  end.

Definition unregister (index : nat) : ST Store Empty_set bool :=
  s ← get;
  match s !! index with
  | None => mret false
  | Some l =>
      if negb (is_initialized l) then mret false
      else at_slot index (clear entry_empty);; mret true
  end.
Definition count (s : Store) : nat := length (filter (fun l => Is_true (is_initialized l)) s).
Definition get_entry (index : nat) (s : Store) : option VAppEntry :=
  match s !! index with
  | Some l => if is_initialized l then Some (stored l) else None
  | None => None
  end.
Definition uninstall_all (s : Store) : Store :=
  map (fun l => if is_initialized l then snd (clear entry_empty l) else l) s.
