(* ===== verification/ManifestSpec.v ===== *)
(** * The manifest's hash and the store of V-Apps are what they are meant to be

    The message that the hash of a manifest commits to determines the manifest. The store
    holds at most one entry per name, and registering touches no other. *)

From S2P Require Import Prelude Ux Memory Accumulator AccumulatorSpec History Concrete Manifest.

(** ** The hash *)

(** The fields have the types of the struct. *)
Record manifest_wf (m : Manifest) : Prop := {
  mw_version : is_u32 (manifest_version m);
  mw_entrypoint : is_u32 (entrypoint m);
  mw_code : is_u32 (code_start m) /\ is_u32 (code_end m) /\ length (code_merkle_root m) = 32%nat;
  mw_data : is_u32 (data_start m) /\ is_u32 (data_end m) /\ length (data_merkle_root m) = 32%nat;
  mw_stack : is_u32 (stack_start m) /\ is_u32 (stack_end m) /\ length (stack_merkle_root m) = 32%nat;
  mw_slots : is_u32 (n_storage_slots m);
}.

Record valid_manifest (m : Manifest) : Prop := {
  vm_name : (length (vapp_name m) <= 32)%nat;
  vm_version : (length (vapp_version m) <= 32)%nat;
  vm_entry : code_start m <= entrypoint m < code_end m;
  vm_aligned : entrypoint m mod 2 = 0;
  vm_name_printable : Forall (fun b => 0x20 <= b <= 0x7E) (vapp_name m);
  vm_version_printable : Forall (fun b => 0x20 <= b <= 0x7E) (vapp_version m);
  vm_name_ends : head (vapp_name m) <> Some 0x20 /\ last (vapp_name m) <> Some 0x20;
  vm_version_ends : head (vapp_version m) <> Some 0x20 /\ last (vapp_version m) <> Some 0x20;
  vm_slots : n_storage_slots m <= 4;
}.

Lemma guard_false {E} b (e : E) : guard_err b e = Ok tt <-> b = false.
Proof. by destruct b. Qed.
Lemma outcome_seq_ok {E A} (o : outcome E unit) (p : outcome E A) a :
  (o;; p) = Ok a <-> o = Ok tt /\ p = Ok a.
Proof. destruct o as [[]| | |]; cbn; intuition congruence. Qed.
Lemma forallb_printable s : forallb printable s = true <-> Forall (fun b => 0x20 <= b <= 0x7E) s.
Proof.
  rewrite forallb_forall, Forall_forall. apply forall_proper. intros b. rewrite list_elem_of_In.
  by split; intros Hp Hb; specialize (Hp Hb); unfold printable in *; lia.
Qed.
Lemma spaces_false s : starts_with_space s || ends_with_space s = false <->
  head s <> Some 0x20 /\ last s <> Some 0x20.
Proof.
  unfold starts_with_space, ends_with_space. rewrite orb_false_iff, !bool_decide_eq_false. done.
Qed.
Lemma validate_ok m : validate m = Ok tt <-> valid_manifest m.
Proof.
  unfold validate, APP_NAME_MAX_LEN, APP_VERSION_MAX_LEN, MAX_STORAGE_SLOTS.
  rewrite !outcome_seq_ok, !guard_false, !negb_false_iff, !forallb_printable, !spaces_false.
  split.
  - intros (?&?&?&?&?&?&?&?&?). split; try done; lia.
  - intros []. split_and!; try done; try tauto; lia.
Qed.

(** The message whose hash is the hash of the V-App. *)
Definition vapp_message (m : Manifest) : list Z := concat (vapp_hash_updates m).

Lemma be_bytes_inj n x y l1 l2 : 0 <= x < 256 ^ Z.of_nat n -> 0 <= y < 256 ^ Z.of_nat n ->
  be_bytes n x ++ l1 = be_bytes n y ++ l2 -> x = y /\ l1 = l2.
Proof.
  intros Hx Hy E. apply app_inj_1 in E as [E ->]; [|by rewrite !length_be_bytes].
  split; [|done]. by rewrite <- (be_value_bytes n x), <- (be_value_bytes n y), E.
Qed.
Lemma prefixed_inj (s1 s2 l1 l2 : list Z) : (length s1 <= 32)%nat -> (length s2 <= 32)%nat ->
  [w8 (Z.of_nat (length s1))] ++ s1 ++ l1 = [w8 (Z.of_nat (length s2))] ++ s2 ++ l2 -> s1 = s2 /\ l1 = l2.
Proof.
  intros H1 H2 [= E1 E2]. rewrite !(wrap_small 8) in E1 by (split; lia).
  apply Nat2Z.inj in E1. by apply app_inj_1 in E2.
Qed.
Lemma vapp_message_inj m1 m2 : manifest_wf m1 -> manifest_wf m2 -> valid_manifest m1 -> valid_manifest m2 ->
  vapp_message m1 = vapp_message m2 -> m1 = m2.
Proof.
  intros W1 W2 V1 V2. unfold vapp_message, vapp_hash_updates. cbn [concat]. rewrite !app_nil_r.
  assert (forall x, is_u32 x -> 0 <= x < 256 ^ Z.of_nat 4) as U by done.
  destruct W1, W2, V1, V2. repeat match goal with H : _ /\ _ |- _ => destruct H end. intros E.
  repeat match goal with
  | H : be_bytes 4 ?x ++ _ = be_bytes 4 ?y ++ _ |- _ =>
      apply be_bytes_inj in H as [? H]; [|by apply U|by apply U]
  | H : [w8 _] ++ _ = _ |- _ => apply prefixed_inj in H as [? H]; [|done|done]
  | H : ?a ++ _ = ?b ++ _, Ha : length ?a = 32%nat, Hb : length ?b = 32%nat |- _ =>
      apply app_inj_1 in H as [? H]; [|congruence]
  end.
  apply (f_equal be_value) in E. rewrite !be_value_bytes in E by by apply U.
  repeat match goal with H : _ m1 = _ m2 |- _ => revert H end.
  clear. destruct m1, m2. simpl. by intros; subst.
Qed.

(** ** The store *)

Implicit Types (s : Store) (e : VAppEntry) (l : LazyStorage VAppEntry).

(** An entry of a V-App with a printable name. *)
Record entry_ok e : Prop := {
  eo_hash : length (entry_hash e) = 32%nat;
  eo_name : exists n, (length n <= 32)%nat /\ Forall (fun b => 0x20 <= b <= 0x7E) n /\
    entry_name e = splice 0 n (replicate 32 0);
  eo_slots : length (storage_slots e) = 4%nat /\
    Forall (fun slot => length slot = 32%nat /\ bytes_ok slot) (storage_slots e);
}.

Definition entry_at s (i : nat) e : Prop := exists l, s !! i = Some l /\ is_initialized l = true /\ stored l = e.
Record store_ok s : Prop := {
  so_length : length s = MAX_REGISTERED_VAPPS;
  so_entries : forall i e, entry_at s i e -> entry_ok e;
  so_names : forall i j e f, entry_at s i e -> entry_at s j f -> get_app_name e = get_app_name f -> i = j;
}.

Lemma printable_utf8 n : Forall (fun b => 0x20 <= b <= 0x7E) n -> is_utf8 n = true.
Proof.
  induction 1 as [|b n Hb _ IH]; [done|]. cbn [is_utf8]. unfold in_range.
  rewrite (proj2 (Z.leb_le 0 b)), (proj2 (Z.leb_le b 0x7F)) by lia. exact IH.
Qed.
Lemma until_zero_padded n k : Forall (fun b => 0x20 <= b <= 0x7E) n -> until_zero (n ++ replicate k 0) = n.
Proof.
  induction 1 as [|b n Hb _ IH]; [by destruct k|]. cbn [app until_zero].
  rewrite (proj2 (Z.eqb_neq b 0)) by lia. by rewrite IH.
Qed.
Lemma app_name_of e n : (length n <= 32)%nat -> Forall (fun b => 0x20 <= b <= 0x7E) n ->
  entry_name e = splice 0 n (replicate 32 0) -> get_app_name e = n.
Proof.
  intros Hl Hp E. unfold get_app_name. rewrite E. unfold splice. rewrite take_0, drop_replicate. cbn [app].
  cbv zeta. rewrite until_zero_padded by done. by rewrite printable_utf8.
Qed.

Lemma find_entry_some p : forall s k i, find_entry p k s = Some i ->
  exists e, (k <= i)%nat /\ entry_at s (i - k) e /\ p e = true /\
    forall j f, (j < i - k)%nat -> entry_at s j f -> p f = false.
Proof.
  induction s as [|l s IH]; intros k i H; cbn [find_entry] in H; [done|].
  destruct (is_initialized l && p (stored l)) eqn:E.
  - injection H as <-. apply andb_true_iff in E as [E1 E2]. exists (stored l). split; [lia|].
    rewrite Nat.sub_diag. split; [by exists l|]. split; [done|]. intros; lia.
  - destruct (IH _ _ H) as (e & Hk & (l' & Hl & Hi & He) & Hp & Hf). exists e. split; [lia|].
    replace (i - k)%nat with (S (i - S k)) by lia. split; [by exists l'|]. split; [done|].
    intros [|j] f Hj (l2 & Hl2 & Hi2 & <-).
    + cbn in Hl2. injection Hl2 as <-. rewrite Hi2 in E. done.
    + apply (Hf j); [lia|]. by exists l2.
Qed.
Lemma find_entry_none p : forall s k, find_entry p k s = None <-> forall i e, entry_at s i e -> p e = false.
Proof.
  induction s as [|l s IH]; intros k; cbn [find_entry].
  - split; [|done]. intros _ i e (l & Hl & _). done.
  - destruct (is_initialized l && p (stored l)) eqn:E.
    + apply andb_true_iff in E as [E1 E2]. split; [done|]. intros H.
      rewrite (H 0%nat (stored l)) in E2; [done|by exists l].
    + rewrite IH. split.
      * intros H [|i] e (l2 & Hl2 & Hi2 & <-); [|apply (H i); by exists l2].
        cbn in Hl2. injection Hl2 as <-. by rewrite Hi2 in E.
      * intros H i e (l2 & Hl2 & Hi2 & He). apply (H (S i)). by exists l2.
Qed.
Lemma find_free_some : forall s k i, find_free k s = Some i ->
  (k <= i)%nat /\ exists l, s !! (i - k)%nat = Some l /\ is_initialized l = false.
Proof.
  induction s as [|l s IH]; intros k i H; cbn [find_free] in H; [done|].
  destruct (negb (is_initialized l)) eqn:E.
  - injection H as <-. rewrite Nat.sub_diag. split; [done|]. exists l. split; [done|]. by apply negb_true_iff.
  - destruct (IH _ _ H) as (Hk & l' & Hl & Hi). split; [lia|].
    replace (i - k)%nat with (S (i - S k)) by lia. by exists l'.
Qed.
Lemma find_free_none : forall s k, find_free k s = None -> forall i, (i < length s)%nat -> exists e, entry_at s i e.
Proof.
  induction s as [|l s IH]; intros k H i Hi; cbn [find_free length] in *; [lia|].
  destruct (negb (is_initialized l)) eqn:E; [done|]. apply negb_false_iff in E.
  destruct i as [|i]; [by exists (stored l), l|].
  destruct (IH _ H i ltac:(lia)) as (e & l' & Hl & He). by exists e, l'.
Qed.

Lemma entry_at_insert s i e j f : (i < length s)%nat ->
  entry_at (<[i := mkLazy STORAGE_VALID e]> s) j f <-> (j = i /\ f = e) \/ (j <> i /\ entry_at s j f).
Proof.
  intros Hi. unfold entry_at. destruct (decide (j = i)) as [->|Hne].
  - rewrite list_lookup_insert_eq by done. split.
    + intros (l & [= <-] & _ & <-). by left.
    + intros [[_ ->]|[? _]]; [|done]. by eexists.
  - rewrite list_lookup_insert_ne by done. split; [by right|]. intros [[? _]|[_ ?]]; done.
Qed.
Lemma store_set_ok s i e : store_ok s -> (i < length s)%nat -> entry_ok e ->
  (forall j f, j <> i -> entry_at s j f -> get_app_name f <> get_app_name e) ->
  store_ok (<[i := mkLazy STORAGE_VALID e]> s).
Proof.
  intros [Hl He Hn] Hi Hok Hnew. split.
  - by rewrite length_insert.
  - intros j f Hf. apply entry_at_insert in Hf as [[-> ->]|[_ Hf]]; [done| |done]. by eapply He.
  - intros j k f g Hf Hg E. apply entry_at_insert in Hf; [|done]. apply entry_at_insert in Hg; [|done].
    destruct Hf as [[-> ->]|[Hj Hf]], Hg as [[-> ->]|[Hk Hg]].
    + done.
    + exfalso. by apply (Hnew k g Hk Hg).
    + exfalso. by apply (Hnew j f Hj Hf).
    + by eapply Hn.
Qed.
Lemma entry_at_inj s i e f : entry_at s i e -> entry_at s i f -> e = f.
Proof. intros (l & E & _ & <-) (k & F & _ & <-). congruence. Qed.

Section store.
Context {H : Type} `{HL : HasherLaws H 32}.

Lemma absorbed_updates : forall (xs : list (list Z)) (h : H) d, absorbed h d ->
  absorbed (foldl hasher_update h xs) (d ++ concat xs).
Proof.
  induction xs as [|x xs IH]; intros h d Hd; cbn [foldl concat]; [by rewrite app_nil_r|].
  rewrite app_assoc. by apply IH, absorbed_update.
Qed.
Lemma vapp_hash_of_message m : get_vapp_hash (H:=H) m = hash (vapp_message m).
Proof. apply absorbed_digest. exact (absorbed_updates _ _ [] absorbed_new). Qed.

Abbreviation entry_of m := (new_entry (get_vapp_hash (H:=H) m) (vapp_name m) (vapp_version m)).
Lemma new_entry_name m : valid_manifest m -> get_app_name (entry_of m) = vapp_name m.
Proof. intros []. by apply app_name_of. Qed.
Lemma new_entry_ok m : valid_manifest m -> entry_ok (entry_of m).
Proof.
  intros []. split; cbn.
  - rewrite vapp_hash_of_message. apply hash_length.
  - by exists (vapp_name m).
  - split; [done|]. repeat constructor; done || (split; vm_compute; done).
Qed.

Lemma at_slot_update s i l e : s !! i = Some l -> is_initialized l = true ->
  at_slot i (update e) s = (Ok tt, <[i := mkLazy STORAGE_VALID e]> s).
Proof. intros Hl Hi. unfold at_slot. rewrite Hl. unfold update, mbind, st_mbind, st_bind, get, lift. by rewrite Hi. Qed.
Lemma at_slot_initialize s i l e : s !! i = Some l -> is_initialized l = false ->
  at_slot i (initialize e) s = (Ok tt, <[i := mkLazy STORAGE_VALID e]> s).
Proof. intros Hl Hi. unfold at_slot. rewrite Hl. unfold initialize, mbind, st_mbind, st_bind, get, lift. by rewrite Hi. Qed.

Lemma is_registered_at s i e : entry_at s i e -> is_registered (entry_hash e) s = true.
Proof.
  intros He. unfold is_registered, find_by_hash. destruct (find_entry _ 0 s) eqn:E; [done|].
  pose proof (proj1 (find_entry_none _ _ _) E i e He) as Hf. cbn in Hf. by apply bool_decide_eq_false in Hf.
Qed.

(** What registering leaves: the new entry, at the place of the one with its name if
    there was one, and every other entry. *)
Definition registered_at m s s' (i : nat) : Prop :=
  entry_at s' i (entry_of m) /\
  (forall j e, j <> i -> (entry_at s' j e <-> entry_at s j e)) /\
  (forall j e, entry_at s j e -> get_app_name e = vapp_name m -> j = i).

(** C26. Registering a valid manifest in a well-formed store puts its entry, with empty
    storage slots, in place of the entry with its name, or in a free slot: the store
    stays well formed (no two entries have the same name), the V-App is registered and
    the other entries are as they were. It fails only when all the slots hold other
    V-Apps, and then nothing changes; it never panics. *)
Theorem register_correct m s : store_ok s -> valid_manifest m ->
  match register (H:=H) m s with
  | (Ok tt, s') => store_ok s' /\ is_registered (get_vapp_hash (H:=H) m) s' = true /\
      exists i, registered_at m s s' i
  | (Err e, s') => e = StoreFull /\ s' = s /\
      forall i, (i < MAX_REGISTERED_VAPPS)%nat -> exists e, entry_at s i e /\ get_app_name e <> vapp_name m
  | _ => False
  end.
Proof.
  intros Hs Hm. pose proof Hs as [Hlen Hent Hnames]. pose proof Hm as [Hn Hv _ _ _ _ _ _ _].
  unfold register, mbind, st_mbind, st_bind, lift, guard_err, get.
  change APP_NAME_MAX_LEN with 32. change APP_VERSION_MAX_LEN with 32.
  rewrite !(proj2 (Z.ltb_ge _ _)) by lia. cbv zeta.
  assert (forall i, (i < length s)%nat -> (forall j e, entry_at s j e -> get_app_name e = vapp_name m -> j = i) ->
    let s' := <[i := mkLazy STORAGE_VALID (entry_of m)]> s in
    store_ok s' /\ is_registered (get_vapp_hash (H:=H) m) s' = true /\ exists i, registered_at m s s' i) as Hset.
  { intros i Hi Hu s'. assert (entry_at s' i (entry_of m)) as Hat by (apply entry_at_insert; [done|by left]).
    split; [|split; [by apply is_registered_at in Hat|]].
    - apply store_set_ok; [done|done|by apply new_entry_ok|]. intros j f Hj Hf E. apply Hj, (Hu j f Hf).
      by rewrite E, new_entry_name.
    - exists i. split; [done|]. split; [|done]. intros j e Hj. unfold s'. rewrite entry_at_insert by done. naive_solver. }
  unfold find_by_name. destruct (find_entry _ 0 s) as [i|] eqn:Ef.
  - apply find_entry_some in Ef as (e & _ & Hat & Hp & _). rewrite Nat.sub_0_r in Hat.
    apply bool_decide_eq_true in Hp. pose proof Hat as (l & Hl & Hi & _). unfold never, map_err.
    rewrite (at_slot_update _ _ l) by done. apply Hset; [by eapply lookup_lt_Some|].
    intros j f Hf Hfn. eapply Hnames; [done|done|congruence].
  - assert (forall j e, entry_at s j e -> get_app_name e <> vapp_name m) as Hno.
    { intros j e He. apply (proj1 (find_entry_none _ _ _) Ef) in He. by apply bool_decide_eq_false in He. }
    destruct (find_free 0 s) as [i|] eqn:Ei.
    + apply find_free_some in Ei as (_ & l & Hl & Hi). rewrite Nat.sub_0_r in Hl. unfold never, map_err.
      rewrite (at_slot_initialize _ _ l) by done. apply Hset; [by eapply lookup_lt_Some|].
      intros j e He Hen. by destruct (Hno j e He).
    + unfold fail. split; [done|]. split; [done|]. intros i Hi.
      destruct (find_free_none s 0 Ei i ltac:(lia)) as [e He]. exists e. split; [done|]. by eapply Hno.
Qed.

(** C27. The hash of a V-App determines its manifest: two valid manifests with the same
    hash are the same, or their messages are a collision of the hash function. *)
Theorem vapp_hash_identifies m1 m2 : manifest_wf m1 -> manifest_wf m2 ->
  validate m1 = Ok tt -> validate m2 = Ok tt ->
  get_vapp_hash (H:=H) m1 = get_vapp_hash (H:=H) m2 ->
  m1 = m2 \/ (vapp_message m1 <> vapp_message m2 /\ hash (vapp_message m1) = hash (vapp_message m2)).
Proof.
  intros W1 W2 V1%validate_ok V2%validate_ok E. rewrite !vapp_hash_of_message in E.
  destruct (decide (vapp_message m1 = vapp_message m2)) as [Em|Em]; [|by right].
  left. by apply vapp_message_inj.
Qed.
End store.

Lemma store_new_empty i e : ~ entry_at store_new i e.
Proof. intros (l & Hl & Hi & _). unfold store_new in Hl. by apply lookup_replicate in Hl as [-> _]. Qed.
Lemma store_new_ok : store_ok store_new.
Proof.
  split; [done|intros i e He|intros i j e f He]; exfalso; by eapply store_new_empty.
Qed.

(** ** A concrete manifest *)

Definition demo_manifest : Manifest :=
  mkManifest 0 (map Z.of_nat [84; 101; 115; 116]%nat) (map Z.of_nat [49; 46; 48]%nat) 0x10000
    0x10000 0x10400 (replicate 32 1) 0x20000 0x20200 (replicate 32 2) 0xd47a2000 0xd47b2000
    (replicate 32 3) 2.
Lemma demo_manifest_valid : validate demo_manifest = Ok tt.
Proof. reflexivity. Qed.
Lemma demo_manifest_wf : manifest_wf demo_manifest.
Proof. split; split_and?; try done. Qed.

Lemma register_correct_witness : store_ok store_new /\ valid_manifest demo_manifest /\
  match register (H:=Toy32) demo_manifest store_new with
  | (Ok tt, s') => store_ok s' /\ is_registered (get_vapp_hash (H:=Toy32) demo_manifest) s' = true /\
      exists i, registered_at (H:=Toy32) demo_manifest store_new s' i
  | (Err e, s') => e = StoreFull /\ s' = store_new /\
      forall i, (i < MAX_REGISTERED_VAPPS)%nat -> exists e, entry_at store_new i e /\ get_app_name e <> vapp_name demo_manifest
  | _ => False
  end.
Proof.
  split; [exact store_new_ok|]. split; [exact (proj1 (validate_ok _) demo_manifest_valid)|].
  exact (register_correct (H:=Toy32) _ _ store_new_ok (proj1 (validate_ok _) demo_manifest_valid)).
Defined.
Lemma vapp_hash_identifies_witness : validate demo_manifest = Ok tt /\
  (demo_manifest = demo_manifest \/
   (vapp_message demo_manifest <> vapp_message demo_manifest /\
    hash (H:=Toy32) (vapp_message demo_manifest) = hash (H:=Toy32) (vapp_message demo_manifest))).
Proof.
  split; [exact demo_manifest_valid|].
  exact (vapp_hash_identifies (H:=Toy32) _ _ demo_manifest_wf demo_manifest_wf demo_manifest_valid
    demo_manifest_valid eq_refl).
Defined.
