(* ===== verification/Ecall.v ===== *)
(** * The ECALL handlers ([vm/src/handlers/lib/ecall.rs], [ecall/slip21.rs],
    [common/src/ecall_constants.rs])

    [handle_ecall] and the handlers it dispatches to. They see the processor through what
    they use of it, the class [Guest]: the segment of an address, the buffers of a segment
    and the registers. The operating system of the device is the class [Sys]; the drawing
    of pages and steps ([ecall/ux_handler.rs]) is an operation of it too. The channel to
    the client and the store are part of the state of the handler.

    A slice of a local array that is passed to the system with its length is the list of
    its elements. *)

From S2P Require Import Prelude Ux Memory Cpu Accumulator Auth ClientCommands OutsourcedMem Manifest.

(** ** ecall_constants.rs *)

Definition ECALL_FATAL : Z := 1.
Definition ECALL_XSEND : Z := 2.
Definition ECALL_XRECV : Z := 3.
Definition ECALL_EXIT : Z := 4.
Definition ECALL_PRINT : Z := 5.
Definition ECALL_GET_EVENT : Z := 10.
Definition ECALL_GET_DEVICE_PROPERTY : Z := 15.
Definition DEVICE_PROPERTY_ID : Z := 1.
Definition DEVICE_PROPERTY_SCREEN_SIZE : Z := 2.
Definition DEVICE_PROPERTY_FEATURES : Z := 3.
Definition ECALL_STORAGE_READ : Z := 20.
Definition ECALL_STORAGE_WRITE : Z := 21.
Definition ECALL_MODM : Z := 110.
Definition ECALL_ADDM : Z := 111.
Definition ECALL_SUBM : Z := 112.
Definition ECALL_MULTM : Z := 113.
Definition ECALL_POWM : Z := 114.
Definition ECALL_MODINV_PRIME : Z := 115.
Definition MAX_BIGNUMBER_SIZE : Z := 64.
Definition Secp256k1 : Z := 0x21.
Definition HashId_Sha256 : Z := 3.
Definition RFC6979 : Z := Z.shiftl 3 9.
Definition BIP340 : Z := 0.
Definition ECALL_DERIVE_HD_NODE : Z := 130.
Definition ECALL_GET_MASTER_FINGERPRINT : Z := 131.
Definition ECALL_DERIVE_SLIP21_KEY : Z := 132.
Definition ECALL_HASH_INIT : Z := 150.
Definition ECALL_HASH_UPDATE : Z := 151.
Definition ECALL_HASH_DIGEST : Z := 152.
Definition ECALL_ECFP_ADD_POINT : Z := 160.
Definition ECALL_ECFP_SCALAR_MULT : Z := 161.
Definition ECALL_GET_RANDOM_BYTES : Z := 170.
Definition ECALL_ECDSA_SIGN : Z := 180.
Definition ECALL_ECDSA_VERIFY : Z := 181.
Definition ECALL_SCHNORR_SIGN : Z := 182.
Definition ECALL_SCHNORR_VERIFY : Z := 183.
Definition ECALL_SHOW_PAGE : Z := 192.
Definition ECALL_SHOW_STEP : Z := 193.

(** ** Constants and errors of ecall.rs *)

Definition VENDOR_ID : Z := 0x2C97.
Inductive Target : Type := NanoX | NanoSPlus | Stax | Flex | ApexP.
Definition PRODUCT_ID (t : Target) : Z :=
  match t with NanoX => 0x40 | NanoSPlus => 0x50 | Stax => 0x60 | Flex => 0x70 | ApexP => 0x80 end.
Definition SCREEN_WIDTH (t : Target) : Z :=
  match t with NanoX | NanoSPlus => 128 | Stax => 400 | Flex => 480 | ApexP => 300 end.
Definition SCREEN_HEIGHT (t : Target) : Z :=
  match t with NanoX | NanoSPlus => 64 | Stax => 672 | Flex => 600 | ApexP => 400 end.
Definition MAX_BIP32_PATH : Z := 16.
Definition MAX_UX_STEP_LEN : Z := 512.
Definition MAX_UX_PAGE_LEN : Z := 512.

(** The registers that the handlers use, by their index. *)
Definition T0 : Z := 5.
Definition A0 : Z := 10.
Definition A1 : Z := 11.
Definition A2 : Z := 12.
Definition A3 : Z := 13.
Definition A4 : Z := 14.
Definition A5 : Z := 15.
Definition A6 : Z := 16.
Definition A7 : Z := 17.

Definition pack_u16 (high low : Z) : Z := Z.lor (Z.shiftl high 16) low.
Definition is_null (p : Z) : bool := p =? 0.

Inductive LedgerHashContextError : Type := InvalidHashId | UnsupportedHashId.

(** [CpuError] is kept as it is instead of formatted. *)
Inductive CommEcallError : Type :=
| EcExit (code : Z)
| EcPanic
| EcInvalidParameters (msg : string)
| EcGenericError (msg : string)
| EcOverflow
| EcHashError (e : LedgerHashContextError)
| EcMessageDeserializationError (e : MessageDeserializationError)
| EcInvalidResponse (msg : string)
| EcCpuError (e : CpuError Empty_set)
| EcMemoryError (e : MemoryError)
| EcInterruptError (e : InterruptError)
| EcUnhandledEcall.

(** ** What the handlers use of the processor *)

Class Guest (C : Type) := {
  guest_segment : Z -> ST C (CpuError Empty_set) seg_id;
  guest_read : seg_id -> Z -> list Z -> ST C MemoryError (list Z);
  guest_write : seg_id -> Z -> list Z -> ST C MemoryError unit;
  guest_reg : Z -> ST C (CpuError Empty_set) Z;
  guest_set_reg : Z -> Z -> ST C (CpuError Empty_set) unit;
}.

#[export] Instance cpu_guest {M} `{PM : PagedMemory M} : Guest (Cpu M) := {
  guest_segment := get_segment;
  guest_read := fun id a buffer => zoom (seg_of id) (set_seg id) (read_buffer a buffer);
  guest_write := fun id a buffer => zoom (seg_of id) (set_seg id) (write_buffer a buffer);
  guest_reg := reg;
  guest_set_reg := set_reg;
}.

(** ** The operating system of the device

    The constants and the functions of the SDK that the handlers call: a function that
    fills a buffer returns its contents, after the status. [D] is the state of the random
    generator and of the screen. *)

Class Sys (D : Type) := {
  CX_OK : Z;
  CX_EC_INFINITE_POINT : Z;
  CX_RIPEMD160 : Z;
  CX_SHA256 : Z;
  CX_SHA512 : Z;
  CX_KECCAK : Z;
  CX_SHA3 : Z;
  sizeof_ripemd160 : Z;
  sizeof_sha256 : Z;
  sizeof_sha512 : Z;
  sizeof_sha3 : Z;
  cx_math_modm_no_throw : list Z -> list Z -> Z * list Z;
  cx_math_addm_no_throw : list Z -> list Z -> list Z -> Z * list Z;
  cx_math_subm_no_throw : list Z -> list Z -> list Z -> Z * list Z;
  cx_math_multm_no_throw : list Z -> list Z -> list Z -> Z * list Z;
  cx_math_invprimem_no_throw : list Z -> list Z -> Z * list Z;
  cx_math_powm_no_throw : list Z -> list Z -> list Z -> Z * list Z;
  cx_hash_init_ex : list Z -> Z -> Z -> Z * list Z;
  cx_hash_update : list Z -> list Z -> Z * list Z;
  cx_hash_final : list Z -> Z * list Z;
  os_perso_derive_node_bip32 : Z -> list Z -> list Z * list Z;
  cx_ecfp_init_private_key_no_throw : Z -> list Z -> Z * list Z;
  cx_ecfp_generate_pair_no_throw : Z -> list Z -> Z * (list Z * Z);
  sdk_sha256 : list Z -> list Z;
  sdk_ripemd160 : list Z -> list Z;
  os_perso_derive_node_with_seed_key : list Z -> list Z;
  hmac_sha512 : list Z -> list Z -> list Z;
  cx_ecfp_add_point_no_throw : Z -> list Z -> list Z -> Z * list Z;
  cx_ecfp_scalar_mult_no_throw : Z -> list Z -> list Z -> Z * list Z;
  cx_rng_no_throw : D -> nat -> list Z * D;
  cx_ecdsa_sign_no_throw : list Z -> Z -> Z -> list Z -> Z * (list Z * Z);
  cx_ecdsa_verify_no_throw : list Z -> list Z -> list Z -> bool;
  cx_ecschnorr_sign_no_throw : D -> list Z -> Z -> Z -> list Z -> list Z -> (Z * (list Z * Z)) * D;
  cx_ecschnorr_verify : list Z -> Z -> Z -> list Z -> list Z -> bool;
  show_page : UxPage -> D -> outcome CommEcallError unit * D;
  show_step : UxStep -> D -> outcome CommEcallError unit * D;
}.

(** An event of the device: whether it is a ticker, and what the callback that processes
    it stores, if it does. *)
Record DeviceEvent : Type := mkDeviceEvent {
  is_ticker : bool;
  stored_event : option (EventCode * list Z);
}.

Record CommEcallHandler (D : Type) : Type := mkHandler {
  hcomm : Comm;
  hstore : Store;
  hvapp_hash : list Z;
  hn_storage_slots : Z;
  last_event : option (EventCode * list Z);
  events : list DeviceEvent;
  device_state : D;
}.
Arguments mkHandler {D}.
Arguments hcomm {D} c.
Arguments hstore {D} c.
Arguments hvapp_hash {D} c.
Arguments hn_storage_slots {D} c.
Arguments last_event {D} c.
Arguments events {D} c.
Arguments device_state {D} c.

Section ecall.
Context {C : Type} `{G : Guest C} {D : Type} `{SY : Sys D} `{HP : Heap} (target : Target).
Abbreviation Handler := (CommEcallHandler D).
Abbreviation M := (ST (Handler * C) CommEcallError).

Definition with_hcomm (x : Comm) (h : Handler) : Handler :=
  mkHandler x (hstore h) (hvapp_hash h) (hn_storage_slots h) (last_event h) (events h) (device_state h).
Definition with_store (x : Store) (h : Handler) : Handler :=
  mkHandler (hcomm h) x (hvapp_hash h) (hn_storage_slots h) (last_event h) (events h) (device_state h).
Definition with_event (x : option (EventCode * list Z)) (h : Handler) : Handler :=
  mkHandler (hcomm h) (hstore h) (hvapp_hash h) (hn_storage_slots h) x (events h) (device_state h).
Definition with_events (x : list DeviceEvent) (h : Handler) : Handler :=
  mkHandler (hcomm h) (hstore h) (hvapp_hash h) (hn_storage_slots h) (last_event h) x (device_state h).
Definition with_device (x : D) (h : Handler) : Handler :=
  mkHandler (hcomm h) (hstore h) (hvapp_hash h) (hn_storage_slots h) (last_event h) (events h) x.

Definition on_guest {E A} (m : ST C E A) : ST (Handler * C) E A := zoom snd (fun c s => (fst s, c)) m.
Definition on_handler {E A} (m : ST Handler E A) : ST (Handler * C) E A := zoom fst (fun h s => (h, snd s)) m.

(** [cpu.get_segment::<E>(p)?], [segment.read_buffer(p, buf)?], [segment.write_buffer(p, buf)?]. *)
Definition segment (p : Z) : M seg_id := map_err EcCpuError (on_guest (guest_segment p)).
Definition seg_read (id : seg_id) (p len : Z) : M (list Z) :=
  map_err EcMemoryError (on_guest (guest_read id p (replicate (Z.to_nat len) 0))).
Definition seg_write (id : seg_id) (p : Z) (data : list Z) : M unit :=
  map_err EcMemoryError (on_guest (guest_write id p data)).
Definition read_guest (p len : Z) : M (list Z) := seg ← segment p; seg_read seg p len.
Definition write_guest (p : Z) (data : list Z) : M unit := seg ← segment p; seg_write seg p data.
(** [interrupt(resp)?]. *)
Definition interrupted (response : list Z) : M (list Z) :=
  map_err EcInterruptError (on_handler (zoom hcomm with_hcomm (interrupt response))).
Definition check_params (b : bool) (msg : string) : M unit := lift (guard_err b (EcInvalidParameters msg)).
Definition check_ok (res : Z) (msg : string) : M unit := lift (guard_err (negb (res =? CX_OK)) (EcGenericError msg)).
Definition hash_result {A} (o : outcome LedgerHashContextError A) : M A := lift (outcome_map_err EcHashError o).

(** ** Messages *)

(** [while size > 0]: at least 249 bytes are sent in a round, or all that are left. *)
Fixpoint send_loop (fuel : nat) (seg : seg_id) (buffer_type : BufferType) (first_chunk : bool)
    (size g_ptr : Z) : M unit :=
  if 0 <? size then
    match fuel with
    | O => diverge
    | S fuel =>
        if first_chunk then
          let copy_size := Z.min size (255 - 6) in
          buffer ← seg_read seg g_ptr copy_size;
          message ← lift (outcome_map_err EcMessageDeserializationError
            (SendBufferMessage.new size buffer_type buffer));
          interrupted (ClientCommands.serialize message);;
          send_loop fuel seg buffer_type false (size - copy_size) (u32_add g_ptr copy_size)
        else
          let copy_size := Z.min size (255 - 1) in
          buffer ← seg_read seg g_ptr copy_size;
          interrupted (ClientCommands.serialize (SendBufferContinuedMessage.new buffer));;
          send_loop fuel seg buffer_type false (size - copy_size) (u32_add g_ptr copy_size)
    end
  else mret tt.
Definition send_fuel (size : Z) : nat := Z.to_nat (size / 249 + 1).
Definition handle_send_buffer (buffer size : Z) (buffer_type : BufferType) : M unit :=
  if size =? 0 then
    message ← lift (outcome_map_err EcMessageDeserializationError
      (SendBufferMessage.new size buffer_type []));
    interrupted (ClientCommands.serialize message);;
    mret tt
  else
    match u32_checked_add buffer size with
    | None => fail EcOverflow
    | Some _ =>
        seg ← segment buffer;
        send_loop (send_fuel size) seg buffer_type true size buffer
    end.
Definition handle_panic (buffer size : Z) : M unit := handle_send_buffer buffer size BufPanic.
Definition handle_xsend (buffer size : Z) : M unit := handle_send_buffer buffer size VAppMessage.
Definition handle_print (buffer size : Z) : M unit := handle_send_buffer buffer size BufPrint.

(** [while remaining_length != Some(0)]: each round consumes an answer of the client. *)
Fixpoint recv_loop (fuel : nat) (seg : seg_id) (max_size : Z) (remaining_length : option Z)
    (g_ptr total_received : Z) : M Z :=
  if bool_decide (remaining_length = Some 0) then mret total_received
  else
    match fuel with
    | O => diverge
    | S fuel =>
        raw_data ← interrupted (ClientCommands.serialize ReceiveBufferMessage.new);
        response ← lift (outcome_map_err EcMessageDeserializationError (ReceiveBufferResponse.de raw_data));
        let declared := ReceiveBufferResponse.remaining_length response in
        (match remaining_length with
         | None => lift (guard_err (max_size <? declared) (EcInvalidResponse "Received data is too large"))
         | Some remaining =>
             lift (guard_err (negb (remaining =? declared)) (EcInvalidResponse "Mismatching remaining length"))
         end);;
        let response_content := ReceiveBufferResponse.content response in
        seg_write seg g_ptr response_content;;
        let chunk_len := w32 (Z.of_nat (length response_content)) in
        lift (guard_err (declared <? chunk_len) (EcInvalidResponse "Chunk exceeds declared remaining length"));;
        recv_loop fuel seg max_size (Some (declared - chunk_len)) (u32_add g_ptr chunk_len)
          (total_received + chunk_len)
    end.
Definition handle_xrecv (buffer max_size : Z) : M Z :=
  seg ← segment buffer;
  s ← get;
  recv_loop (S (length (replies (hcomm (fst s))))) seg max_size None buffer 0.

(** ** Storage *)

Definition store_result {A} (m : ST Store Empty_set A) : M A :=
  map_err (fun e : Empty_set => match e with end) (on_handler (zoom hstore with_store m)).

(** The checks that both handlers begin with: the index of the V-App in the store, if the
    request is acceptable. *)
Definition storage_target (slot_index buffer_size : Z) (h : Handler) : option nat :=
  if negb (buffer_size =? STORAGE_SLOT_SIZE) then None
  else if (hn_storage_slots h <=? slot_index) || (MAX_STORAGE_SLOTS <=? slot_index) then None
  else find_by_hash (hvapp_hash h) (hstore h).

Definition handle_storage_read (slot_index buffer buffer_size : Z) : M Z :=
  s ← get;
  match storage_target slot_index buffer_size (fst s) with
  | None => mret 0
  | Some vapp_index =>
      entry ← lift (ok_or (get_entry vapp_index (hstore (fst s))) (EcGenericError "VApp entry not found"));
      slot_data ← lift (unwrap (storage_slots entry !! Z.to_nat slot_index));
      write_guest buffer slot_data;;
      mret 1
  end.

Definition handle_storage_write (slot_index buffer buffer_size : Z) : M Z :=
  s ← get;
  match storage_target slot_index buffer_size (fst s) with
  | None => mret 0
  | Some vapp_index =>
      slot_data ← read_guest buffer STORAGE_SLOT_SIZE;
      entry ← lift (ok_or (get_entry vapp_index (hstore (fst s))) (EcGenericError "VApp entry not found"));
      (if (Z.to_nat slot_index <? length (storage_slots entry))%nat then mret tt else panic);;
      store_result (at_slot vapp_index (update
        (mkEntry (entry_hash entry) (entry_name entry) (entry_version entry)
           (<[Z.to_nat slot_index := slot_data]> (storage_slots entry)))));;
      mret 1
  end.

(** ** Big numbers *)

Definition handle_bn_modm (r n len m m_len : Z) : M unit :=
  check_params ((MAX_BIGNUMBER_SIZE <? len) || (MAX_BIGNUMBER_SIZE <? m_len)) "len or m_len is too large";;
  r_local ← read_guest n len;
  m_local ← read_guest m m_len;
  let '(res, r_local) := cx_math_modm_no_throw r_local m_local in
  check_ok res "modm failed";;
  write_guest r r_local.

(** [addm], [subm] and [multm], which differ in the function that they call. *)
Definition handle_bn_op (op : list Z -> list Z -> list Z -> Z * list Z) (failed : string)
    (r a b m len : Z) : M unit :=
  check_params (MAX_BIGNUMBER_SIZE <? len) "len is too large";;
  a_local ← read_guest a len;
  b_local ← read_guest b len;
  m_local ← read_guest m len;
  let '(res, r_local) := op a_local b_local m_local in
  check_ok res failed;;
  write_guest r r_local.
Definition handle_bn_addm : Z -> Z -> Z -> Z -> Z -> M unit := handle_bn_op cx_math_addm_no_throw "addm failed".
Definition handle_bn_subm : Z -> Z -> Z -> Z -> Z -> M unit := handle_bn_op cx_math_subm_no_throw "subm failed".
Definition handle_bn_multm : Z -> Z -> Z -> Z -> Z -> M unit :=
  handle_bn_op cx_math_multm_no_throw "multm failed".

Definition handle_bn_modinv_prime (r a p len : Z) : M unit :=
  check_params (MAX_BIGNUMBER_SIZE <? len) "len is too large";;
  a_local ← read_guest a len;
  p_local ← read_guest p len;
  let '(res, r_local) := cx_math_invprimem_no_throw a_local p_local in
  check_ok res "modinv failed";;
  write_guest r r_local.

Definition handle_bn_powm (r a e len_e m len : Z) : M unit :=
  check_params (MAX_BIGNUMBER_SIZE <? len_e) "len_e is too large";;
  check_params (MAX_BIGNUMBER_SIZE <? len) "len is too large";;
  a_local ← read_guest a len;
  e_local ← read_guest e len_e;
  m_local ← read_guest m len;
  let '(res, r_local) := cx_math_powm_no_throw a_local e_local m_local in
  check_ok res "addm failed";;
  write_guest r r_local.

(** ** Hashes *)

Definition hash_algorithm (hash_identifier : Z) : Z := w8 (Z.shiftr hash_identifier 16).
Definition get_size_from_id (hash_identifier : Z) : outcome LedgerHashContextError Z :=
  if Z.shiftr hash_identifier 16 =? 0 then Err InvalidHashId
  else
    let id := hash_algorithm hash_identifier in
    if id =? CX_RIPEMD160 then Ok sizeof_ripemd160
    else if id =? CX_SHA256 then Ok sizeof_sha256
    else if id =? CX_SHA512 then Ok sizeof_sha512
    else if (id =? CX_KECCAK) || (id =? CX_SHA3) then Ok sizeof_sha3
    else Err UnsupportedHashId.
Definition get_digest_len_from_id (hash_identifier : Z) : outcome LedgerHashContextError Z :=
  if Z.shiftr hash_identifier 16 =? 0 then Err InvalidHashId
  else
    let id := hash_algorithm hash_identifier in
    let output_size := Z.land hash_identifier 0xFFFF in
    if (id =? CX_RIPEMD160) || (id =? CX_SHA256) || (id =? CX_SHA512) then Ok output_size
    else if (id =? CX_KECCAK) || (id =? CX_SHA3) then
      if (output_size =? 28) || (output_size =? 32) || (output_size =? 48) || (output_size =? 64)
      then Ok output_size else Err InvalidHashId
    else Err UnsupportedHashId.

Definition handle_hash_init (hash_identifier ctx : Z) : M unit :=
  ctx_size ← hash_result (get_size_from_id hash_identifier);
  ctx_local ← read_guest ctx ctx_size;
  let output_size := Z.land hash_identifier 0xFFFF in
  let hash_id := hash_algorithm hash_identifier in
  let '(err, ctx_local) := cx_hash_init_ex ctx_local hash_id output_size in
  check_ok err "hash init failed";;
  write_guest ctx ctx_local.

(** [while data_remaining > 0]: rounds of 256 bytes. *)
Fixpoint hash_update_loop (fuel : nat) (seg : seg_id) (ctx_local : list Z)
    (data_remaining data_ptr : Z) : M (list Z) :=
  if 0 <? data_remaining then
    match fuel with
    | O => diverge
    | S fuel =>
        let copy_size := Z.min data_remaining 256 in
        data_local ← seg_read seg data_ptr copy_size;
        let '(err, ctx_local) := cx_hash_update ctx_local data_local in
        check_ok err "hash update failed";;
        hash_update_loop fuel seg ctx_local (data_remaining - copy_size) (u32_add data_ptr copy_size)
    end
  else mret ctx_local.
Definition handle_hash_update (hash_identifier ctx data data_len : Z) : M unit :=
  ctx_size ← hash_result (get_size_from_id hash_identifier);
  if data_len =? 0 then mret tt
  else
    ctx_local ← read_guest ctx ctx_size;
    data_seg ← segment data;
    ctx_local ← hash_update_loop (Z.to_nat (data_len / 256 + 1)) data_seg ctx_local data_len data;
    write_guest ctx ctx_local.

(** The digest is an array of 64 bytes; slicing it out of range panics. *)
Definition handle_hash_digest (hash_identifier ctx digest : Z) : M unit :=
  ctx_size ← hash_result (get_size_from_id hash_identifier);
  ctx_local ← read_guest ctx ctx_size;
  let '(err, digest_local) := cx_hash_final ctx_local in
  check_ok err "hash final failed";;
  digest_len ← hash_result (get_digest_len_from_id hash_identifier);
  seg ← segment digest;
  digest_slice ← lift (if Z.of_nat (length digest_local) <? digest_len then Panic
                       else Ok (take (Z.to_nat digest_len) digest_local));
  seg_write seg digest digest_slice.

(** ** Keys *)

(** [u32::from_le_bytes] of each group of four bytes. *)
Fixpoint le_words (n : nat) (bytes : list Z) : list Z :=
  match n with
  | O => []
  | S n => le_value (take 4 bytes) :: le_words n (drop 4 bytes)
  end.
Definition handle_derive_hd_node (curve path path_len private_key chain_code : Z) : M unit :=
  check_params (negb (curve =? Secp256k1)) "Unsupported curve";;
  check_params (MAX_BIP32_PATH <? path_len) "path_len is too large";;
  path_local_raw ← (if 0 <? path_len then read_guest path (path_len * 4) else mret []);
  let path_local := le_words (Z.to_nat path_len) path_local_raw in
  let '(private_key_local, chain_code_local) := os_perso_derive_node_bip32 curve path_local in
  write_guest private_key private_key_local;;
  write_guest chain_code chain_code_local.

Definition handle_get_master_fingerprint (curve : Z) : M Z :=
  check_params (negb (curve =? Secp256k1)) "Unsupported curve";;
  let '(private_key_local, _) := os_perso_derive_node_bip32 Secp256k1 [] in
  let '(ret1, privkey) := cx_ecfp_init_private_key_no_throw curve private_key_local in
  let '(ret2, (W, W_len)) := cx_ecfp_generate_pair_no_throw curve privkey in
  lift (guard_err (negb (ret1 =? CX_OK) || negb (ret2 =? CX_OK)) (EcGenericError "Failed to generate key pair"));;
  lift (guard_err (negb (W_len =? 65)) (EcGenericError "Invalid public key length"));;
  w64 ← lift (unwrap (W !! 64%nat));
  let sha256hash := sdk_sha256 ((2 + w64 mod 2) :: slice 1 32 W) in
  let rip := sdk_ripemd160 sha256hash in
  mret (be_value (take 4 rip)).

(** slip21.rs *)
Definition SLIP21_MAGIC : list Z := Eval vm_compute in tag_bytes "Symmetric key seed".
Definition SEED_MASTER_PATH : list Z := Eval vm_compute in tag_bytes "VANADIUM".
Definition get_master_node : list Z :=
  hmac_sha512 SLIP21_MAGIC (os_perso_derive_node_with_seed_key (0 :: SEED_MASTER_PATH)).
Definition derive_child_node (cur_node label : list Z) : list Z := hmac_sha512 (take 32 cur_node) (0 :: label).
Definition get_custom_slip21_node (path : list (list Z)) : list Z :=
  fold_left derive_child_node path get_master_node.

(** [while offset < labels_len]: the labels, each after its length. *)
Fixpoint labels_loop (fuel : nat) (labels : list Z) : outcome CommEcallError (list (list Z)) :=
  match labels with
  | [] => Ok []
  | label_len :: labels =>
      match fuel with
      | O => Diverge
      | S fuel =>
          guard_err (Z.of_nat (length labels) <? label_len) (EcInvalidParameters "Invalid labels format");;
          rest ← labels_loop fuel (drop (Z.to_nat label_len) labels);
          Ok (take (Z.to_nat label_len) labels :: rest)
      end
  end.
(** [.unwrap()] of a result. *)
Definition unwrapped {A} (m : M A) : M A :=
  fun s => match m s with (Err _, s') => (Panic, s') | r => r end.
Definition handle_derive_slip21_node (labels labels_len out : Z) : M Z :=
  check_params (256 <? labels_len) "labels_len is too large";;
  labels_local ← read_guest labels labels_len;
  slices ← lift (labels_loop (length labels_local) labels_local);
  let out_node := get_custom_slip21_node slices in
  seg ← unwrapped (segment out);
  unwrapped (seg_write seg out out_node);;
  mret 1.

(** ** Elliptic curves *)

Definition is_infinity (W : list Z) : bool := bool_decide (head W = Some 0).
Definition infinity : list Z := replicate 65 0.

Definition handle_ecfp_add_point (curve r p q : Z) : M Z :=
  check_params (negb (curve =? Secp256k1)) "Unsupported curve";;
  p_local ← read_guest p 65;
  q_local ← read_guest q 65;
  r_local ←
    (if is_infinity p_local && is_infinity q_local then mret infinity
     else if is_infinity p_local then mret q_local
     else if is_infinity q_local then mret p_local
     else
       let '(res, W) := cx_ecfp_add_point_no_throw curve p_local q_local in
       if res =? CX_EC_INFINITE_POINT then mret infinity
       else check_ok res "add_point failed";; mret W);
  write_guest r r_local;;
  mret 1.

Definition handle_ecfp_scalar_mult (curve r p k k_len : Z) : M Z :=
  check_params (negb (curve =? Secp256k1)) "Unsupported curve";;
  check_params (32 <? k_len) "k_len is too large";;
  r_local ← read_guest p 65;
  if is_infinity r_local then write_guest r r_local;; mret 1
  else
    k_local ← read_guest k k_len;
    r_local ←
      (if forallb (fun b => b =? 0) k_local then mret infinity
       else
         let '(res, W) := cx_ecfp_scalar_mult_no_throw curve r_local k_local in
         if res =? CX_EC_INFINITE_POINT then mret infinity
         else check_ok res "scalar_mult failed";; mret W);
    write_guest r r_local;;
    mret 1.

Definition handle_get_random_bytes (buffer size : Z) : M Z :=
  if size =? 0 then mret 1
  else
    check_params (256 <? size) "size is too large, must be <= 256";;
    match u32_checked_add buffer size with
    | None => fail EcOverflow
    | Some _ =>
        seg ← segment buffer;
        s ← get;
        let '(random_bytes, d) := cx_rng_no_throw (device_state (fst s)) (Z.to_nat size) in
        modify (fun s => (with_device d (fst s), snd s));;
        seg_write seg buffer random_bytes;;
        mret 1
    end.

Definition handle_ecdsa_sign (curve mode hash_id privkey msg_hash signature : Z) : M Z :=
  check_params (negb (curve =? Secp256k1)) "Unsupported curve";;
  check_params (negb (mode =? RFC6979)) "Invalid or unsupported ecdsa signing mode";;
  check_params (negb (hash_id =? HashId_Sha256)) "Invalid or unsupported hash id";;
  privkey_local ← read_guest privkey 32;
  msg_hash_local ← read_guest msg_hash 32;
  let '(res, (signature_local, signature_len)) :=
    cx_ecdsa_sign_no_throw privkey_local RFC6979 HashId_Sha256 msg_hash_local in
  check_ok res "cx_ecdsa_sign_no_throw failed";;
  lift (guard_err (72 <? signature_len) (EcGenericError "Signature length exceeds buffer size"));;
  write_guest signature (take (Z.to_nat signature_len) signature_local);;
  mret signature_len.

Definition handle_ecdsa_verify (curve pubkey msg_hash signature signature_len : Z) : M Z :=
  check_params (negb (curve =? Secp256k1)) "Unsupported curve";;
  check_params (72 <? signature_len) "signature_len is too large";;
  pubkey_local ← read_guest pubkey 65;
  msg_hash_local ← read_guest msg_hash 32;
  signature_local ← read_guest signature signature_len;
  mret (bool_byte (cx_ecdsa_verify_no_throw pubkey_local msg_hash_local signature_local)).

Definition CX_RND_TRNG : Z := Z.shiftl 2 9.
Definition CX_RND_PROVIDED : Z := Z.shiftl 4 9.
Definition handle_schnorr_sign (curve mode hash_id privkey msg msg_len signature entropy : Z) : M Z :=
  check_params (negb (curve =? Secp256k1)) "Unsupported curve";;
  check_params (negb (mode =? BIP340)) "Invalid or unsupported schnorr signing mode";;
  check_params (128 <? msg_len) "msg_len is too large";;
  check_params (negb (hash_id =? HashId_Sha256)) "Invalid or unsupported hash id";;
  privkey_local ← read_guest privkey 32;
  msg_local ← read_guest msg msg_len;
  '(mode, signature_local) ←
    (if is_null entropy then mret (Z.lor mode CX_RND_TRNG, replicate 64 0)
     else
       e ← read_guest entropy 32;
       mret (Z.lor mode CX_RND_PROVIDED, e ++ replicate 32 0));
  s ← get;
  let '((res, (signature_local, signature_len)), d) :=
    cx_ecschnorr_sign_no_throw (device_state (fst s)) privkey_local mode HashId_Sha256 msg_local signature_local in
  modify (fun s => (with_device d (fst s), snd s));;
  check_ok res "cx_schnorr_sign_no_throw failed";;
  lift (guard_err (negb (signature_len =? 64))
    (EcGenericError "cx_schnorr_sign_no_throw returned a signature of unexpected length"));;
  lift (guard_err (64 <? signature_len) (EcGenericError "Signature length exceeds buffer size"));;
  write_guest signature (take (Z.to_nat signature_len) signature_local);;
  mret signature_len.

Definition handle_schnorr_verify (curve mode hash_id pubkey msg msg_len signature signature_len : Z) : M Z :=
  check_params (negb (curve =? Secp256k1)) "Unsupported curve";;
  check_params (negb (mode =? BIP340)) "Invalid or unsupported schnorr signing mode";;
  check_params (128 <? msg_len) "msg_len is too large";;
  check_params (negb (hash_id =? HashId_Sha256)) "Invalid or unsupported hash id";;
  check_params (negb (signature_len =? 64)) "Invalid signature length";;
  pubkey_local ← read_guest pubkey 65;
  msg_local ← read_guest msg msg_len;
  signature_local ← read_guest signature 64;
  mret (bool_byte (cx_ecschnorr_verify pubkey_local mode HashId_Sha256 msg_local signature_local)).

(** ** Events and the screen *)

(** ux_handler.rs: an event is dropped when one that is not a ticker is stored. *)
Definition store_new_event (event : EventCode * list Z) (last : option (EventCode * list Z))
    : option (EventCode * list Z) :=
  match last with
  | None | Some (Ticker, _) => Some event
  | Some _ => last
  end.

(** Processes the events of the device until a ticker. *)
Fixpoint wait_for_ticker_loop (events : list DeviceEvent) : ST Handler CommEcallError unit :=
  match events with
  | [] => modify (with_events []);; diverge
  | e :: events =>
      modify (with_events events);;
      (match stored_event e with
       | Some event => modify (fun h => with_event (store_new_event event (last_event h)) h)
       | None => mret tt
       end);;
      if is_ticker e then mret tt else wait_for_ticker_loop events
  end.
Definition wait_for_ticker : M unit :=
  on_handler (h ← get; wait_for_ticker_loop (events h)).

Definition handle_get_event (event_data_ptr : Z) : M Z :=
  s ← get;
  match last_event (fst s) with
  | Some (event_code, event_data) =>
      modify (fun s => (with_event None (fst s), snd s));;
      write_guest event_data_ptr event_data;;
      mret (event_code_value event_code)
  | None =>
      wait_for_ticker;;
      mret (event_code_value Ticker)
  end.

Definition on_screen (m : D -> outcome CommEcallError unit * D) : M unit :=
  fun s => let '(o, d) := m (device_state (fst s)) in (o, (with_device d (fst s), snd s)).
Definition handle_show_page (page_ptr page_len : Z) : M Z :=
  check_params (MAX_UX_PAGE_LEN <? page_len) "page_len is too large";;
  page_local ← read_guest page_ptr page_len;
  page ← lift (outcome_map_err (fun _ => EcInvalidParameters "Failed to deserialize page")
    (deserialize_full page_local));
  on_screen (show_page page);;
  mret 1.
Definition handle_show_step (step_ptr step_len : Z) : M Z :=
  check_params (MAX_UX_STEP_LEN <? step_len) "step_len is too large";;
  step_local ← read_guest step_ptr step_len;
  step ← lift (outcome_map_err (fun _ => EcInvalidParameters "Failed to deserialize step")
    (deserialize_full step_local));
  on_screen (show_step step);;
  mret 1.

Definition handle_get_device_property (property : Z) : M Z :=
  if property =? DEVICE_PROPERTY_ID then mret (pack_u16 VENDOR_ID (PRODUCT_ID target))
  else if property =? DEVICE_PROPERTY_SCREEN_SIZE then
    mret (pack_u16 (SCREEN_WIDTH target) (SCREEN_HEIGHT target))
  else if property =? DEVICE_PROPERTY_FEATURES then mret 0
  else fail (EcInvalidParameters "Unknown device property").

(** ** The dispatch *)

(** [reg!(r)] and [reg!(r) = x]: the index is below 32. *)
Definition gr (i : Z) : M Z := map_err EcCpuError (on_guest (guest_reg i)).
Definition set_a0 (x : Z) : M unit := map_err EcCpuError (on_guest (guest_set_reg A0 x)).
Definition generic {A} (msg : string) (m : M A) : M A := map_err (fun _ => EcGenericError msg) m.
Definition returns (m : M Z) : M unit := x ← m; set_a0 x.
Definition succeeds (m : M unit) : M unit := m;; set_a0 1.

(** The arms of [match ecall_code]. *)
Definition dispatch (a0 a1 a2 a3 a4 a5 a6 a7 code : Z) : M unit :=
  if code =? ECALL_EXIT then fail (EcExit (as_i32 a0))
  else if code =? ECALL_FATAL then generic "xsend failed" (handle_panic a0 a1);; fail EcPanic
  else if code =? ECALL_XSEND then generic "xsend failed" (handle_xsend a0 a1)
  else if code =? ECALL_XRECV then returns (generic "xrecv failed" (handle_xrecv a0 a1))
  else if code =? ECALL_PRINT then succeeds (generic "print failed" (handle_print a0 a1))
  else if code =? ECALL_GET_EVENT then returns (handle_get_event a0)
  else if code =? ECALL_STORAGE_READ then returns (handle_storage_read a0 a1 a2)
  else if code =? ECALL_STORAGE_WRITE then returns (handle_storage_write a0 a1 a2)
  else if code =? ECALL_SHOW_PAGE then handle_show_page a0 a1;; set_a0 1
  else if code =? ECALL_SHOW_STEP then generic "show_step failed" (handle_show_step a0 a1);; set_a0 1
  else if code =? ECALL_GET_DEVICE_PROPERTY then
    returns (generic "get_device_property failed" (handle_get_device_property a0))
  else if code =? ECALL_MODM then succeeds (handle_bn_modm a0 a1 a2 a3 a4)
  else if code =? ECALL_ADDM then succeeds (handle_bn_addm a0 a1 a2 a3 a4)
  else if code =? ECALL_SUBM then succeeds (generic "bn_subm failed" (handle_bn_subm a0 a1 a2 a3 a4))
  else if code =? ECALL_MULTM then succeeds (handle_bn_multm a0 a1 a2 a3 a4)
  else if code =? ECALL_MODINV_PRIME then succeeds (handle_bn_modinv_prime a0 a1 a2 a3)
  else if code =? ECALL_POWM then succeeds (handle_bn_powm a0 a1 a2 a3 a4 a5)
  else if code =? ECALL_HASH_INIT then generic "hash_init failed" (handle_hash_init a0 a1)
  else if code =? ECALL_HASH_UPDATE then generic "hash_update failed" (handle_hash_update a0 a1 a2 a3)
  else if code =? ECALL_HASH_DIGEST then generic "hash_digest failed" (handle_hash_digest a0 a1 a2)
  else if code =? ECALL_DERIVE_HD_NODE then succeeds (handle_derive_hd_node a0 a1 a2 a3 a4)
  else if code =? ECALL_GET_MASTER_FINGERPRINT then returns (handle_get_master_fingerprint a0)
  else if code =? ECALL_DERIVE_SLIP21_KEY then returns (handle_derive_slip21_node a0 a1 a2)
  else if code =? ECALL_ECFP_ADD_POINT then returns (handle_ecfp_add_point a0 a1 a2 a3)
  else if code =? ECALL_ECFP_SCALAR_MULT then returns (handle_ecfp_scalar_mult a0 a1 a2 a3 a4)
  else if code =? ECALL_GET_RANDOM_BYTES then returns (handle_get_random_bytes a0 a1)
  else if code =? ECALL_ECDSA_SIGN then returns (handle_ecdsa_sign a0 a1 a2 a3 a4 a5)
  else if code =? ECALL_ECDSA_VERIFY then returns (handle_ecdsa_verify a0 a1 a2 a3 a4)
  else if code =? ECALL_SCHNORR_SIGN then returns (handle_schnorr_sign a0 a1 a2 a3 a4 a5 a6 a7)
  else if code =? ECALL_SCHNORR_VERIFY then returns (handle_schnorr_verify a0 a1 a2 a3 a4 a5 a6 a7)
  else fail EcUnhandledEcall.
Definition handle_ecall : M unit :=
  code ← gr T0;
  a0 ← gr A0; a1 ← gr A1; a2 ← gr A2; a3 ← gr A3; a4 ← gr A4; a5 ← gr A5; a6 ← gr A6; a7 ← gr A7;
  dispatch a0 a1 a2 a3 a4 a5 a6 a7 code.
End ecall.
