(* ===== verification/GuestSpec.v ===== *)
(** * The processor as a guest of the ECALL handlers refines the abstract machine

    The abstract machine of [Isa] is a [Guest] too. An outsourced memory of code that is asked
    to write takes the bytes, and loses them when it evicts the page: the machine forgets its
    code and stops ([code_lost]). A computation over a processor [simulates] one over the machine when, from
    related states and with the same state of the handler, the first ends with the value
    with which the second ends, in related states; an error, a panic or a wait for ever of
    the first is one of the second, unless it is one that the mode allows of the memory.
    Nothing is claimed where the machine has lost its code. *)

From S2P Require Import Prelude Riscv Memory MemorySpec Cpu Isa CpuSpec Ux Manifest ManifestSpec ClientCommands OutsourcedMem Ecall.

(** ** The abstract machine as a guest *)

Definition region_bounds (g : region) (a len : Z) : outcome MemoryError unit :=
  if 2 ^ 32 <=? a + len then Err Overflow
  else if (a <? r_start g) || (r_start g + r_size g <? a + len) then Err AddressOutOfBounds
  else Ok tt.
Definition region_write (g : region) (a : Z) (bs : list Z) : region :=
  mkRegion (r_start g) (r_size g) (fun x =>
    if decide (a <= x < a + Z.of_nat (length bs)) then bs !! Z.to_nat (x - a) else r_byte g x).
Definition set_region (id : seg_id) (g : region) (s : arch) : arch :=
  mkArch (a_pc s) (a_reg s) (fun i => if decide (i = id) then g else a_seg s i) (a_res s).

Definition arch_read (id : seg_id) (a : Z) (buffer : list Z) : ST arch MemoryError (list Z) :=
  s ← get;
  lift (region_bounds (a_seg s id) a (Z.of_nat (length buffer)));;
  lift (ok_or (region_bytes (a_seg s id) a (length buffer)) PageNotFound).
(** A region whose bytes nobody knows. *)
Definition region_lost (g : region) : region := mkRegion (r_start g) (r_size g) (fun _ => None).
Definition arch_write (id : seg_id) (a : Z) (buffer : list Z) : ST arch MemoryError unit :=
  s ← get;
  lift (region_bounds (a_seg s id) a (Z.of_nat (length buffer)));;
  if seg_writable id then put (set_region id (region_write (a_seg s id) a buffer) s)
  else put (set_region id (region_lost (a_seg s id)) s);; panic.
(** The machine was asked to write to its code. *)
Definition code_lost (s : arch) : Prop := forall a, r_byte (a_seg s CodeSeg) a = None.
Definition lost {E A S} (code : S -> arch) (r : outcome E A * S) : Prop :=
  fst r = Panic /\ code_lost (code (snd r)).
#[export] Instance arch_guest : Guest arch := {
  guest_segment := fun a => s ← get; lift (ok_or (find_seg s a readable) (CpuMemoryError AddressOutOfBounds));
  guest_read := arch_read;
  guest_write := arch_write;
  guest_reg := fun r => gets (fun s => a_reg s r);
  guest_set_reg := fun r x => modify (wr r x);
}.

(** ** Simulation *)

(** The errors that a failing memory can cause: any but the end and the panic of the V-App. *)
Class MemoryErrors (E : Type) := memory_error : E -> Prop.
#[export] Instance memory_errors : MemoryErrors MemoryError := fun _ => True.
#[export] Instance empty_errors : MemoryErrors Empty_set := fun _ => False.
#[export] Instance interrupt_errors : MemoryErrors InterruptError := fun _ => False.
#[export] Instance cpu_errors {E} `{MemoryErrors E} : MemoryErrors (CpuError E) :=
  fun e => match e with EcallError e => memory_error e | _ => True end.
#[export] Instance handler_errors : MemoryErrors CommEcallError :=
  fun e => match e with EcExit _ | EcPanic => False | _ => True end.

(** An outcome of the processor that the abstract machine shares, or that the mode lets the
    memory cause. A shared error leaves the machine in a state that [same] accepts. *)
Definition shared {E A S} `{MemoryErrors E} (t : mode) (same : S -> Prop) (o : outcome E A)
    (r : outcome E A * S) : Prop :=
  match o with
  | Ok _ => False
  | Err e => may_err t = true /\ memory_error e \/ fst r = Err e /\ same (snd r)
  | Panic => may_panic t = true \/ fst r = Panic
  | Diverge => may_diverge t = true \/ fst r = Diverge
  end.

(** A shared outcome stays shared when both sides go on with it. *)
Ltac share Hm r :=
  right; destruct Hm as [Hm|Hm]; [by left|right]; destruct r as [[] ?]; cbn in Hm |- *;
  first [congruence | destruct Hm as [Hm ?]; first [discriminate Hm | split; [congruence|assumption]]].

Section simulates.
Context {M : Type} `{PL : PagedMemoryLaws M} {t : mode} `{Serves : !PagedMemoryServes M t}.
Context {H : Type} (hok : H -> Prop).

Definition simulates {E A} `{MemoryErrors E} (m : ST (H * Cpu M) E A) (m' : ST (H * arch) E A)
    (P : A -> Prop) : Prop :=
  forall h c s, hok h -> sim c s ->
  lost snd (m' (h, s)) \/
  match m (h, c) with
  | (Ok a, (h1, c1)) => exists s1, m' (h, s) = (Ok a, (h1, s1)) /\ hok h1 /\ sim c1 s1 /\ P a
  | (o, (h1, _)) => shared t (fun s1 => fst s1 = h1) o (m' (h, s))
  end.

Section rules.
Context {E : Type} `{ME : MemoryErrors E}.

Lemma sim_bind {A B} (m : ST (H * Cpu M) E A) m' P (f : A -> ST (H * Cpu M) E B) f' Q :
  simulates m m' P -> (forall a, P a -> simulates (f a) (f' a) Q) ->
  simulates (x ← m; f x) (x ← m'; f' x) Q.
Proof.
  intros Hm Hf h c s Hh Hs. specialize (Hm h c s Hh Hs). unfold mbind, st_mbind, st_bind.
  destruct Hm as [[Hm Hc]|Hm]; [left; by destruct (m' (h, s)) as [[] ?]|].
  destruct (m (h, c)) as [[a|e| |] [h1 c1]].
  - destruct Hm as (s1 & -> & Hh1 & Hs1 & Pa). by apply Hf.
  - by share Hm (m' (h, s)).
  - by share Hm (m' (h, s)).
  - by share Hm (m' (h, s)).
Qed.
Lemma sim_ret {A} (a : A) (P : A -> Prop) :
  P a -> simulates (mret a : ST (H * Cpu M) E A) (mret a) P.
Proof. intros Ha h c s Hh Hs. right. by exists s. Qed.
Lemma sim_fail {A} (e : E) (P : A -> Prop) : simulates (fail e) (fail e) P.
Proof. intros h c s Hh Hs. right. by right. Qed.
Lemma sim_panic {A} (P : A -> Prop) : simulates (panic : ST (H * Cpu M) E A) panic P.
Proof. intros h c s Hh Hs. right. by right. Qed.
Lemma sim_diverge {A} (P : A -> Prop) : simulates (diverge : ST (H * Cpu M) E A) diverge P.
Proof. intros h c s Hh Hs. right. by right. Qed.
Lemma sim_lift {A} (o : outcome E A) (P : A -> Prop) :
  (forall a, o = Ok a -> P a) -> simulates (lift o) (lift o) P.
Proof. intros Ho h c s Hh Hs. right. unfold lift. destruct o; [exists s; auto|by right..]. Qed.
Lemma sim_map_err {F A} `{MF : MemoryErrors F} (f : E -> F) (m : ST (H * Cpu M) E A) m' P :
  (forall e, memory_error e -> memory_error (f e)) ->
  simulates m m' P -> simulates (map_err f m) (map_err f m') P.
Proof.
  intros Hf Hm h c s Hh Hs. specialize (Hm h c s Hh Hs). unfold map_err.
  destruct Hm as [[Hm Hc]|Hm]; [left; destruct (m' (h, s)) as [[] ?]; cbn in *; first [discriminate Hm | by split]|].
  destruct (m (h, c)) as [[a|e| |] [h1 c1]].
  - right. destruct Hm as (s1 & -> & Hm). by exists s1.
  - right. destruct Hm as [[? Hm]|Hm]; [left; by auto|right]. destruct (m' (h, s)) as [[] ?]; cbn in Hm |- *;
    destruct Hm as [Hm ?]; first [discriminate Hm | split; [congruence|assumption]].
  - by share Hm (m' (h, s)).
  - by share Hm (m' (h, s)).
Qed.
Lemma sim_get {A} (K : H * Cpu M -> ST (H * Cpu M) E A) K' P :
  (forall h c s, hok h -> sim c s -> simulates (K (h, c)) (K' (h, s)) P) ->
  simulates (x ← get; K x) (x ← get; K' x) P.
Proof. intros HK h c s Hh Hs. by apply HK. Qed.
Lemma sim_modify (f : H -> H) (P : unit -> Prop) : (forall h, hok h -> hok (f h)) -> P tt ->
  simulates (modify (fun s => (f (fst s), snd s)) : ST (H * Cpu M) E unit)
    (modify (fun s => (f (fst s), snd s))) P.
Proof. intros Hf HP h c s Hh Hs. right. exists s. split; [done|]. split; [by apply Hf|done]. Qed.
Lemma sim_mono {A} (m : ST (H * Cpu M) E A) m' (P Q : A -> Prop) :
  simulates m m' P -> (forall a, P a -> Q a) -> simulates m m' Q.
Proof.
  intros Hm HPQ h c s Hh Hs. destruct (Hm h c s Hh Hs) as [Hp|Hm']; [by left|right].
  destruct (m (h, c)) as [[] [h1 c1]]; [|done..].
  destruct Hm' as (s1 & E1 & ? & ? & ?). exists s1. auto.
Qed.
(** The handler's own part of the state. *)
Lemma sim_on_handler {A} (m : ST H E A) (P : A -> Prop) :
  (forall h, hok h -> match m h with (Ok a, h1) => hok h1 /\ P a | _ => True end) ->
  simulates (zoom fst (fun h s => (h, snd s)) m) (zoom fst (fun h s => (h, snd s)) m) P.
Proof.
  intros Hm h c s Hh Hs. right. specialize (Hm h Hh). unfold zoom. cbn [fst snd].
  destruct (m h) as [[a|e| |] h1]; [|by right..]. destruct Hm. by exists s.
Qed.

(** The guest's part. *)
Definition guest_sim {A} (m : ST (Cpu M) E A) (m' : ST arch E A) (P : A -> Prop) : Prop :=
  forall c s, sim c s ->
  lost (fun s => s) (m' s) \/
  match m c with
  | (Ok a, c1) => exists s1, m' s = (Ok a, s1) /\ sim c1 s1 /\ P a
  | (o, _) => shared t (fun _ => True) o (m' s)
  end.
Lemma sim_on_guest {A} (m : ST (Cpu M) E A) m' P : guest_sim m m' P ->
  simulates (zoom snd (fun c s => (fst s, c)) m) (zoom snd (fun c s => (fst s, c)) m') P.
Proof.
  intros Hm h c s Hh Hs. specialize (Hm c s Hs). unfold zoom. cbn [fst snd].
  destruct Hm as [[Hm Hc]|Hm]; [left; by destruct (m' s)|right].
  destruct (m c) as [[a|e| |] c1]; [destruct Hm as (s1 & -> & ? & ?); by exists s1|..];
    destruct (m' s) as [o1 s1]; cbn in Hm |- *; tauto.
Qed.
End rules.
End simulates.

(** ** The guest's operations *)

Section guest.
Context {M : Type} `{PL : PagedMemoryLaws M} {t : mode} `{Serves : !PagedMemoryServes M t}.
Implicit Types (c : Cpu M) (s : arch).

Lemma guest_segment_sim a : guest_sim (M:=M) (t:=t) (guest_segment a) (guest_segment a) (fun _ => True).
Proof.
  intros c s Hs. right. unfold guest_segment, cpu_guest, arch_guest, get_segment, mbind, st_mbind, st_bind, get.
  cbn [find_seg readable]. pose proof (sm_seg _ _ (proj1 Hs)) as Hseg.
  rewrite <- (in_region_contains _ _ a (Hseg StackSeg)), <- (in_region_contains _ _ a (Hseg DataSeg)),
    <- (in_region_contains _ _ a (Hseg CodeSeg)). cbn [seg_of].
  destruct (contains (stack_seg c) a); [by exists s|]. destruct (contains (data_seg c) a); [by exists s|].
  destruct (contains (code_seg c) a); [by exists s|by right].
Qed.

Lemma region_bounds_spec {b} (seg : MemorySegment M) g a len : seg_sim b seg g -> 0 <= a -> 0 <= len < 2 ^ 32 ->
  match region_bounds g a len with
  | Ok _ => in_seg seg a len
  | o => buffer_bounds a len seg = (o, seg)
  end.
Proof.
  intros [[] E1 E2 _] Ha Hl. unfold region_bounds, buffer_bounds, u32_checked_add, u32_add, mbind, st_mbind, st_bind, get, lift.
  rewrite (w32_small len) by lia. rewrite (w32_small (_ + _)) by lia. rewrite E1, E2.
  destruct (Z.leb_spec (2 ^ 32) (a + len)).
  - by rewrite (proj2 (Z.ltb_ge _ _)) by lia.
  - rewrite (proj2 (Z.ltb_lt (a + len) _)) by lia. cbn [ok_or].
    destruct ((a <? start_address seg) || (start_address seg + size seg <? a + len)) eqn:Eb; [done|].
    unfold in_seg. lia.
Qed.

Lemma bounds_bind {A b} (seg : MemorySegment M) g a len (m : ST (MemorySegment M) MemoryError A)
    (k : outcome MemoryError unit) :
  seg_sim b seg g -> 0 <= a -> 0 <= len < 2 ^ 32 -> region_bounds g a len = k ->
  match k with
  | Ok _ => True
  | Err e => (buffer_bounds a len;; m) seg = (Err e, seg)
  | _ => False
  end.
Proof.
  intros Hs Ha Hl <-. pose proof (region_bounds_spec seg g a len Hs Ha Hl) as Hb.
  unfold region_bounds in *. repeat case_match; try done;
    unfold mbind, st_mbind, st_bind; by rewrite Hb.
Qed.

Lemma guest_read_sim id a buffer : 0 <= a -> Z.of_nat (length buffer) < 2 ^ 32 ->
  guest_sim (M:=M) (t:=t) (guest_read id a buffer) (guest_read id a buffer)
    (fun bs => bytes_ok bs /\ length bs = length buffer).
Proof.
  intros Ha Hl c s Hs. cbn [guest_read cpu_guest arch_guest]. unfold zoom, arch_read, mbind at 1, st_mbind, st_bind, get, lift.
  pose proof (sm_seg _ _ (proj1 Hs) id) as Hseg.
  pose proof (region_bounds_spec _ _ a _ Hseg Ha (conj (Nat2Z.is_nonneg _) Hl)) as Hb.
  pose proof (bounds_bind _ _ a _ (read_buffer_loop (S (length buffer)) a 0 buffer) _ Hseg Ha (conj (Nat2Z.is_nonneg _) Hl) eq_refl) as He.
  unfold mbind, st_mbind, st_bind. destruct (region_bounds (a_seg s id) a (Z.of_nat (length buffer))) as [u|e| |]; [|right; unfold read_buffer; rewrite He; by right|done..].
  right. clear He. destruct Hseg as [Hok E1 E2 (v & Hr & Hc & Hbytes)] eqn:Hsg.
  pose proof (read_buffer_spec (t:=t) (seg_of id c) v a buffer Hok Hr Hc Ha Hl (fun _ => Hb)) as Hwp.
  unfold wp in Hwp. destruct (read_buffer a buffer (seg_of id c)) as [[bs|e| |] seg']; [|by left..].
  destruct Hwp as (_ & Hrg & Hr' & Hf & Hbs). exists s.
  rewrite (region_bytes_flat _ _ v) by done. rewrite Hf. split; [done|]. split.
  - apply sim_same_seg; [done|]. pose proof Hrg as [F1 F2]. split; [by eapply seg_ok_range|congruence..|].
    exists v. split; [done|]. unfold seg_covered, in_seg in *. by rewrite <- F1, <- F2.
  - split; [done|]. by eapply flat_read_length.
Qed.

Lemma guest_write_sim id a buffer : 0 <= a -> Z.of_nat (length buffer) < 2 ^ 32 -> bytes_ok buffer ->
  guest_sim (M:=M) (t:=t) (guest_write id a buffer) (guest_write id a buffer) (fun _ => True).
Proof.
  intros Ha Hl Hby c s Hs. cbn [guest_write cpu_guest arch_guest]. unfold zoom, arch_write, mbind at 1, st_mbind, st_bind, get, lift.
  pose proof (sm_seg _ _ (proj1 Hs) id) as Hseg.
  pose proof (region_bounds_spec _ _ a _ Hseg Ha (conj (Nat2Z.is_nonneg _) Hl)) as Hb.
  pose proof (bounds_bind _ _ a _ (write_buffer_loop (S (length buffer)) a 0 buffer) _ Hseg Ha (conj (Nat2Z.is_nonneg _) Hl) eq_refl) as He.
  unfold mbind, st_mbind, st_bind. destruct (region_bounds (a_seg s id) a (Z.of_nat (length buffer))) as [u|e| |]; [|right; unfold write_buffer; rewrite He; by right|done..].
  clear He. destruct (seg_writable id) eqn:Eid; [right|left; split; [done|]; by destruct id]. destruct Hseg as [Hok E1 E2 (v & Hr & Hc & Hbytes)] eqn:Hsg.
  pose proof (write_buffer_spec (t:=t) (seg_of id c) v a buffer Hok Hr Hc Ha Hl Hby (fun _ => Hb)) as Hwp.
  unfold wp in Hwp. destruct (write_buffer a buffer (seg_of id c)) as [[[]|e| |] seg']; [|by left..].
  destruct Hwp as (_ & Hrg & v' & Hr' & Hd & Hu). eexists. split; [done|]. split; [|done].
  apply sim_set_seg; [done|]. rewrite Eid. pose proof (covered_range _ _ _ _ Hrg Hd Hc) as Hc'.
  destruct Hrg as [F1 F2]. split; cbn; [by eapply seg_ok_range|congruence..|].
  exists v'. split; [done|]. split; [done|]. intros x Hx. rewrite <- F1, Hu. case_decide; [done|].
  apply Hbytes. unfold in_seg in *. by rewrite F1, F2.
Qed.

Lemma guest_reg_sim r : 0 <= r < 32 ->
  guest_sim (M:=M) (t:=t) (guest_reg r) (guest_reg r) is_u32.
Proof.
  intros Hr c s Hs. right. cbn. unfold reg, mbind, st_mbind, st_bind, get, lift, gets.
  rewrite (sim_reg_lookup _ _ _ Hs Hr). exists s. split; [done|]. split; [done|]. by eapply sim_reg_range.
Qed.
Lemma guest_set_reg_sim r x : 0 < r < 32 -> is_u32 x ->
  guest_sim (M:=M) (t:=t) (guest_set_reg r x) (guest_set_reg r x) (fun _ => True).
Proof.
  intros Hr Hx c s [Hs H0]. right. cbn. unfold set_reg, mbind, st_mbind, st_bind, get, put, modify.
  rewrite (proj2 (Z.ltb_lt _ _)) by (rewrite (sm_len _ _ Hs); lia). eexists. split; [done|]. split; [|done].
  split; [by apply sim_mid_wr; [|lia|]|]. cbn. rewrite list_lookup_insert_ne by lia. done.
Qed.
End guest.
