(* ===== verification/EcallSpec.v ===== *)
(** * The ECALL handlers refine their reading over the abstract machine

    Over any lawful paged memory, [handle_ecall] has the effect that the same handler has
    on the flat memory of the abstract machine, unless that panics: the caches, the
    encryption and the proofs of the memory cannot be seen through an ECALL. *)

From S2P Require Import Prelude Riscv Memory MemorySpec Cpu Isa CpuSpec Ux UxSpec Manifest ManifestSpec ClientCommands ClientCommandsSpec OutsourcedMem OutsourcedSpec Accesses Ecall GuestSpec.

(** ** What the model relies on of the operating system: the buffers that it fills have the
    size of the arrays that are passed. *)

Definition out_ok (n : nat) (bs : list Z) : Prop := length bs = n /\ bytes_ok bs.
Class SysLaws (D : Type) `{SY : Sys D} := {
  size_ripemd160 : 0 <= sizeof_ripemd160 < 2 ^ 16;
  size_sha256 : 0 <= sizeof_sha256 < 2 ^ 16;
  size_sha512 : 0 <= sizeof_sha512 < 2 ^ 16;
  size_sha3 : 0 <= sizeof_sha3 < 2 ^ 16;
  modm_out : forall r m, out_ok (length r) (snd (cx_math_modm_no_throw r m));
  addm_out : forall a b m, out_ok (length a) (snd (cx_math_addm_no_throw a b m));
  subm_out : forall a b m, out_ok (length a) (snd (cx_math_subm_no_throw a b m));
  multm_out : forall a b m, out_ok (length a) (snd (cx_math_multm_no_throw a b m));
  invprimem_out : forall a p, out_ok (length a) (snd (cx_math_invprimem_no_throw a p));
  powm_out : forall a e m, out_ok (length a) (snd (cx_math_powm_no_throw a e m));
  hash_init_out : forall c i n, out_ok (length c) (snd (cx_hash_init_ex c i n));
  hash_update_out : forall c d, out_ok (length c) (snd (cx_hash_update c d));
  hash_final_out : forall c, out_ok 64 (snd (cx_hash_final c));
  bip32_key_out : forall c p, out_ok 32 (fst (os_perso_derive_node_bip32 c p));
  bip32_chain_out : forall c p, out_ok 32 (snd (os_perso_derive_node_bip32 c p));
  pair_out : forall c k, length (fst (snd (cx_ecfp_generate_pair_no_throw c k))) = 65%nat;
  ripemd160_out : forall d, out_ok 20 (sdk_ripemd160 d);
  hmac_sha512_out : forall k d, out_ok 64 (hmac_sha512 k d);
  add_point_out : forall c p q, out_ok 65 (snd (cx_ecfp_add_point_no_throw c p q));
  scalar_mult_out : forall c p k, out_ok 65 (snd (cx_ecfp_scalar_mult_no_throw c p k));
  rng_out : forall d n, out_ok n (fst (cx_rng_no_throw d n));
  ecdsa_out : forall k m i d, out_ok 72 (fst (snd (cx_ecdsa_sign_no_throw k m i d)));
  ecdsa_len : forall k m i d, 0 <= snd (snd (cx_ecdsa_sign_no_throw k m i d));
  schnorr_out : forall d k m i x s, out_ok 64 (fst (snd (fst (cx_ecschnorr_sign_no_throw d k m i x s))));
}.

(** The handler's state: its arrays hold bytes, and the store is well formed. *)
Definition event_ok (e : option (EventCode * list Z)) : Prop :=
  forall c d, e = Some (c, d) -> out_ok 16 d.
Record handler_ok {D} (h : CommEcallHandler D) : Prop := {
  ho_tape : bytes_tape (hcomm h);
  ho_store : store_ok (hstore h);
  ho_event : event_ok (last_event h);
  ho_events : Forall (fun e => event_ok (stored_event e)) (events h);
}.

Section ecall.
Context {M : Type} `{PL : PagedMemoryLaws M} {t : mode} `{Serves : !PagedMemoryServes M t}.
Context {D : Type} `{SL : SysLaws D} `{HP : Heap} (target : Target).
Abbreviation Sim := (simulates (M:=M) (t:=t) (H:=CommEcallHandler D) handler_ok).
Implicit Types (h : CommEcallHandler D).

(** ** The steps that the handlers share *)

Lemma segment_sim p : Sim (segment p) (segment p) (fun _ => True).
Proof. eapply sim_map_err; [done|]. apply sim_on_guest, guest_segment_sim. Qed.
Lemma seg_read_sim id p len : 0 <= p -> 0 <= len < 2 ^ 32 ->
  Sim (seg_read id p len) (seg_read id p len) (out_ok (Z.to_nat len)).
Proof.
  intros Hp Hl. eapply sim_map_err; [done|]. apply sim_on_guest. pose proof (length_replicate (Z.to_nat len) 0) as E.
  intros c s Hs. pose proof (guest_read_sim (t:=t) id p (replicate (Z.to_nat len) 0) Hp ltac:(lia) c s Hs) as Hr.
  rewrite E in Hr. destruct Hr as [Hr|Hr]; [by left|right]. destruct (guest_read id p _ c) as [[] ?]; [|exact Hr..].
  destruct Hr as (s1 & ? & ? & ? & ?). by exists s1.
Qed.
Lemma seg_write_sim id p data : 0 <= p -> Z.of_nat (length data) < 2 ^ 32 -> bytes_ok data ->
  Sim (seg_write id p data) (seg_write id p data) (fun _ => True).
Proof. intros. eapply sim_map_err; [done|]. by apply sim_on_guest, guest_write_sim. Qed.
Lemma read_guest_sim p len : 0 <= p -> 0 <= len < 2 ^ 32 ->
  Sim (read_guest p len) (read_guest p len) (out_ok (Z.to_nat len)).
Proof. intros. eapply sim_bind; [apply segment_sim|]. intros seg _. by apply seg_read_sim. Qed.
Lemma write_guest_sim p data : 0 <= p -> Z.of_nat (length data) < 2 ^ 32 -> bytes_ok data ->
  Sim (write_guest p data) (write_guest p data) (fun _ => True).
Proof. intros. eapply sim_bind; [apply segment_sim|]. intros seg _. by apply seg_write_sim. Qed.
Lemma check_params_sim b msg : Sim (check_params b msg) (check_params b msg) (fun _ => b = false).
Proof. apply sim_lift. intros [] Hg. by destruct b. Qed.
Lemma check_ok_sim res msg : Sim (check_ok res msg) (check_ok res msg) (fun _ => True).
Proof. by apply sim_lift. Qed.
Lemma guard_sim b (e : CommEcallError) : Sim (lift (guard_err b e)) (lift (guard_err b e)) (fun _ => b = false).
Proof. apply sim_lift. intros [] Hg. by destruct b. Qed.
Lemma interrupted_sim response :
  Sim (interrupted response) (interrupted response) bytes_ok.
Proof.
  eapply sim_map_err; [done|]. apply sim_on_handler. intros h [Ht Hs He Hes]. unfold zoom, interrupt, mbind, st_mbind, st_bind, get, put.
  destruct (replies (hcomm h)) as [|[| |p1 p2 d] rest] eqn:E; [done..|].
  cbn. destruct (negb _); [done|]. split; [|by eapply (Ht p1 p2); rewrite E; left].
  split; [|done..]. intros q1 q2 x Hx. eapply (Ht q1 q2). rewrite E. by right.
Qed.
Lemma set_a0_sim x : is_u32 x -> Sim (set_a0 x) (set_a0 x) (fun _ => True).
Proof. intros. eapply sim_map_err; [done|]. by apply sim_on_guest, guest_set_reg_sim. Qed.
Lemma gr_sim r : 0 <= r < 32 -> Sim (gr r) (gr r) is_u32.
Proof. intros. eapply sim_map_err; [done|]. by apply sim_on_guest, guest_reg_sim. Qed.
Lemma unwrapped_sim {A} (m : ST (CommEcallHandler D * Cpu M) CommEcallError A) m' P :
  t <> Safe -> t <> Blocking ->
  Sim m m' P -> Sim (unwrapped m) (unwrapped m') P.
Proof.
  intros Ht1 Ht2 Hm h c s Hh Hs. specialize (Hm h c s Hh Hs). unfold unwrapped.
  destruct Hm as [[Hm Hc]|Hm]; [left; destruct (m' (h, s)) as [[] ?]; cbn in *; first [discriminate Hm | by split]|].
  destruct (m (h, c)) as [[a|e| |] [h1 c1]].
  - right. destruct Hm as (s1 & -> & Hm). by exists s1.
  - right. destruct Hm as [[Hm _]|Hm]; [left; by destruct t|right; destruct (m' (h, s)) as [[] ?]; cbn in Hm |- *; by destruct Hm].
  - by share Hm (m' (h, s)).
  - by share Hm (m' (h, s)).
Qed.

Lemma handler_ok_device h d : handler_ok h -> handler_ok (with_device d h).
Proof. by intros []. Qed.

Lemma device_sim d : Sim (modify (fun s => (with_device d (fst s), snd s)))
  (modify (fun s => (with_device d (fst s), snd s))) (fun _ => True).
Proof. apply (sim_modify _ (with_device d) (fun _ => True)); [intros h Hh; by apply handler_ok_device|done]. Qed.

(** ** Automation: the shared steps, in the order of the handler *)

Lemma u32_len_ok n bs : out_ok n bs -> (Z.of_nat n < 2 ^ 32) -> Z.of_nat (length bs) < 2 ^ 32 /\ bytes_ok bs.
Proof. by intros [<- ?]. Qed.

Ltac sim_range := cbn beta in *; unfold is_u, MAX_BIGNUMBER_SIZE, MAX_BIP32_PATH, MAX_UX_PAGE_LEN, MAX_UX_STEP_LEN,
  STORAGE_SLOT_SIZE in *; lia.
(** The size and the bytes of an output of the system. *)
Ltac sim_out :=
  match goal with
  | H : out_ok _ ?x |- _ => destruct H
  end.
Ltac sim_step :=
  match goal with
  | |- Sim (mret _) _ _ => apply sim_ret
  | |- Sim (fail _) _ _ => apply sim_fail
  | |- Sim panic _ _ => apply sim_panic
  | |- Sim diverge _ _ => apply sim_diverge
  | |- Sim (mbind _ get) _ _ => apply sim_get; intros ? ? ? ? ?; cbn [fst snd]
  | |- Sim (modify (fun s => (with_device ?d _, snd s))) _ _ => apply device_sim
  | |- Sim (mbind _ _) _ _ => eapply sim_bind; [|intros ? ?]
  | |- Sim (read_guest _ _) _ _ => apply read_guest_sim; [sim_range|sim_range]
  | |- Sim (segment _) _ _ => apply segment_sim
  | |- Sim (seg_read _ _ _) _ _ => apply seg_read_sim; [sim_range|sim_range]
  | |- Sim (check_params _ _) _ _ => apply check_params_sim
  | |- Sim (check_ok _ _) _ _ => apply check_ok_sim
  | |- Sim (lift (guard_err _ _)) _ _ => apply guard_sim
  | |- Sim (interrupted _) _ _ => apply interrupted_sim
  | |- Sim (match ?x with (_, _) => _ end) _ _ => destruct x eqn:?
  | |- Sim (if ?b then _ else _) _ _ => destruct b eqn:?
  end.
Ltac sim_go := repeat sim_step.
(** What the system filled, from its law. *)
Ltac use_law E law :=
  let L := fresh "L" in pose proof law as L; rewrite E in L; cbn [fst snd] in L; clear E.
Ltac sys_out :=
  match goal with
  | E : cx_math_modm_no_throw ?a ?b = _ |- _ => use_law E (modm_out a b)
  | E : cx_math_addm_no_throw ?a ?b ?m = _ |- _ => use_law E (addm_out a b m)
  | E : cx_math_subm_no_throw ?a ?b ?m = _ |- _ => use_law E (subm_out a b m)
  | E : cx_math_multm_no_throw ?a ?b ?m = _ |- _ => use_law E (multm_out a b m)
  | E : cx_math_invprimem_no_throw ?a ?b = _ |- _ => use_law E (invprimem_out a b)
  | E : cx_math_powm_no_throw ?a ?b ?m = _ |- _ => use_law E (powm_out a b m)
  | E : cx_hash_init_ex ?a ?b ?m = _ |- _ => use_law E (hash_init_out a b m)
  | E : cx_hash_update ?a ?b = _ |- _ => use_law E (hash_update_out a b)
  | E : cx_hash_final ?a = _ |- _ => use_law E (hash_final_out a)
  | E : cx_ecfp_add_point_no_throw ?a ?b ?m = _ |- _ => use_law E (add_point_out a b m)
  | E : cx_ecfp_scalar_mult_no_throw ?a ?b ?m = _ |- _ => use_law E (scalar_mult_out a b m)
  | E : cx_rng_no_throw ?a ?b = _ |- _ => use_law E (rng_out a b)
  end.
Ltac sim_write := apply write_guest_sim;
  [sim_range | repeat sys_out; repeat sim_out; sim_range | repeat sys_out; repeat sim_out; by eauto].

Abbreviation any := (fun _ : unit => True).

Lemma bn_modm_sim r n len m m_len : is_u32 r -> is_u32 n -> is_u32 len -> is_u32 m -> is_u32 m_len ->
  Sim (handle_bn_modm r n len m m_len) (handle_bn_modm r n len m m_len) any.
Proof. intros. unfold handle_bn_modm. sim_go. sim_write. Qed.
Lemma bn_op_sim op msg r a b m len :
  (forall a b m, out_ok (length a) (snd (op a b m))) ->
  is_u32 r -> is_u32 a -> is_u32 b -> is_u32 m -> is_u32 len ->
  Sim (handle_bn_op op msg r a b m len) (handle_bn_op op msg r a b m len) any.
Proof.
  intros Hop **. unfold handle_bn_op. sim_go. match goal with E : op ?a ?b ?m = _ |- _ => use_law E (Hop a b m) end.
  sim_write.
Qed.
Lemma bn_modinv_sim r a p len : is_u32 r -> is_u32 a -> is_u32 p -> is_u32 len ->
  Sim (handle_bn_modinv_prime r a p len) (handle_bn_modinv_prime r a p len) any.
Proof. intros. unfold handle_bn_modinv_prime. sim_go. sim_write. Qed.
Lemma bn_powm_sim r a e len_e m len : is_u32 r -> is_u32 a -> is_u32 e -> is_u32 len_e -> is_u32 m -> is_u32 len ->
  Sim (handle_bn_powm r a e len_e m len) (handle_bn_powm r a e len_e m len) any.
Proof. intros. unfold handle_bn_powm. sim_go. sim_write. Qed.

(** ** Hashes *)

Lemma size_range id n : get_size_from_id (SY:=SY) id = Ok n -> 0 <= n < 2 ^ 16.
Proof.
  unfold get_size_from_id.
  repeat (case_match; try discriminate); intros [= <-].
  - apply size_ripemd160.
  - apply size_sha256.
  - apply size_sha512.
  - apply size_sha3.
Qed.
Lemma size_from_id_sim id :
  Sim (hash_result (get_size_from_id id)) (hash_result (get_size_from_id id)) (fun n => 0 <= n < 2 ^ 16).
Proof.
  apply sim_lift. intros n Hn. destruct (get_size_from_id id) eqn:E; try discriminate. injection Hn as <-.
  by eapply size_range.
Qed.
Lemma digest_len_sim id :
  Sim (hash_result (get_digest_len_from_id id)) (hash_result (get_digest_len_from_id id)) (fun n => True).
Proof. by apply sim_lift. Qed.

Lemma hash_init_sim id ctx : is_u32 ctx -> Sim (handle_hash_init id ctx) (handle_hash_init id ctx) any.
Proof. intros. unfold handle_hash_init. eapply sim_bind; [apply size_from_id_sim|intros ? ?]. sim_go. sim_write. Qed.
Lemma hash_update_loop_sim n seg : forall fuel ctx remaining p, is_u32 remaining -> is_u32 p -> out_ok n ctx ->
  Sim (hash_update_loop fuel seg ctx remaining p) (hash_update_loop fuel seg ctx remaining p) (out_ok n).
Proof.
  induction fuel as [|fuel IH]; intros ctx remaining p Hr Hp Hc; cbn [hash_update_loop]; sim_go; try done.
  apply IH; [sim_range|apply w32_range|]. sys_out. destruct Hc as [<- ?]. done.
Qed.
Lemma hash_update_sim id ctx data len : is_u32 ctx -> is_u32 data -> is_u32 len ->
  Sim (handle_hash_update id ctx data len) (handle_hash_update id ctx data len) any.
Proof.
  intros. unfold handle_hash_update. eapply sim_bind; [apply size_from_id_sim|intros ? ?]. sim_go; [done|..].
  { by apply hash_update_loop_sim. }
  sim_write.
Qed.
Lemma hash_digest_sim id ctx digest : is_u32 ctx -> is_u32 digest ->
  Sim (handle_hash_digest id ctx digest) (handle_hash_digest id ctx digest) any.
Proof.
  intros. unfold handle_hash_digest. eapply sim_bind; [apply size_from_id_sim|intros ? ?]. sim_go.
  { apply digest_len_sim. }
  { apply sim_lift with (P := fun bs => (length bs <= 64)%nat /\ bytes_ok bs). intros bs Hbs. sys_out. repeat sim_out.
    destruct (Z.ltb _ _); [done|]. injection Hbs as <-. split; [rewrite length_take; lia|by apply Forall_take]. }
  cbn beta in *. match goal with H : _ /\ bytes_ok _ |- _ => destruct H end. apply seg_write_sim; [sim_range|lia|done].
Qed.

(** ** Keys, curves and random bytes *)

Lemma derive_hd_node_sim curve path len k cc : is_u32 path -> is_u32 len -> is_u32 k -> is_u32 cc ->
  Sim (handle_derive_hd_node curve path len k cc) (handle_derive_hd_node curve path len k cc) any.
Proof.
  intros. unfold handle_derive_hd_node. sim_go.
  - split; [cbn; sim_range|done].
  - match goal with E : os_perso_derive_node_bip32 ?c ?p = _ |- _ => use_law E (bip32_key_out c p) end.
    sim_write.
  - match goal with E : os_perso_derive_node_bip32 ?c ?p = _ |- _ => use_law E (bip32_chain_out c p) end.
    sim_write.
Qed.

Lemma rip_word d : is_u32 (be_value (take 4 (sdk_ripemd160 d))).
Proof.
  destruct (ripemd160_out d) as [Hl Hb].
  pose proof (be_value_range _ (Forall_take _ 4 _ Hb)) as Hr. rewrite length_take, Hl in Hr. exact Hr.
Qed.
Lemma master_fingerprint_sim curve :
  Sim (handle_get_master_fingerprint curve) (handle_get_master_fingerprint curve) is_u32.
Proof.
  unfold handle_get_master_fingerprint. sim_go; [|apply rip_word]. by apply sim_lift with (P := fun _ => True).
Qed.

Lemma slip21_node_out path : out_ok 64 (get_custom_slip21_node path).
Proof.
  unfold get_custom_slip21_node. assert (forall n, out_ok 64 n -> out_ok 64 (fold_left derive_child_node path n)) as Hf.
  { induction path as [|l path IH]; intros n Hn; [done|]. apply IH, hmac_sha512_out. }
  apply Hf, hmac_sha512_out.
Qed.
Lemma derive_slip21_sim labels len out : t <> Safe -> t <> Blocking -> is_u32 labels -> is_u32 len -> is_u32 out ->
  Sim (handle_derive_slip21_node labels len out) (handle_derive_slip21_node labels len out) is_u32.
Proof.
  intros. unfold handle_derive_slip21_node. sim_go.
  - by apply sim_lift with (P := fun _ => True).
  - apply unwrapped_sim; [done..|]. apply segment_sim.
  - apply unwrapped_sim; [done..|]. destruct (slip21_node_out a1) as [Hl Hb]. apply seg_write_sim; [sim_range|lia|done].
  - done.
Qed.

Lemma infinity_ok : out_ok 65 infinity.
Proof. split; [done|]. apply Forall_replicate. done. Qed.
Lemma add_point_sim curve r p q : is_u32 r -> is_u32 p -> is_u32 q ->
  Sim (handle_ecfp_add_point curve r p q) (handle_ecfp_add_point curve r p q) is_u32.
Proof.
  intros. unfold handle_ecfp_add_point. sim_go.
  1: instantiate (1 := out_ok 65). 1: apply infinity_ok. 1-5: try done; try apply infinity_ok.
  - sys_out. done.
  - sim_write.
  - done.
Qed.

Lemma is_u32_1 : is_u32 1.
Proof. done. Qed.
Lemma is_u32_0 : is_u32 0.
Proof. done. Qed.
Hint Resolve is_u32_1 is_u32_0 : vnd.

Lemma scalar_mult_sim curve r p k len : is_u32 r -> is_u32 p -> is_u32 k -> is_u32 len ->
  Sim (handle_ecfp_scalar_mult curve r p k len) (handle_ecfp_scalar_mult curve r p k len) is_u32.
Proof.
  intros. unfold handle_ecfp_scalar_mult. sim_go.
  1: sim_write. 1: done. 1: instantiate (1 := out_ok 65). 1-3: try apply infinity_ok.
  - sys_out. done.
  - sim_write.
  - done.
Qed.

Lemma random_bytes_sim buffer size : is_u32 buffer -> is_u32 size ->
  Sim (handle_get_random_bytes buffer size) (handle_get_random_bytes buffer size) is_u32.
Proof.
  intros. unfold handle_get_random_bytes. sim_go; auto with vnd.
  sys_out. sim_out. apply seg_write_sim; [sim_range|sim_range|done].
Qed.
Lemma ecdsa_sign_sim curve mode id k m s : is_u32 k -> is_u32 m -> is_u32 s ->
  Sim (handle_ecdsa_sign curve mode id k m s) (handle_ecdsa_sign curve mode id k m s) is_u32.
Proof.
  intros. unfold handle_ecdsa_sign. sim_go.
  all: match goal with E : cx_ecdsa_sign_no_throw ?a ?b ?c ?d = _ |- _ =>
    destruct (ecdsa_out a b c d); pose proof (ecdsa_len a b c d); rewrite E in *; cbn [fst snd] in * end.
  - apply write_guest_sim; [sim_range| |by apply Forall_take]. rewrite length_take. lia.
  - sim_range.
Qed.
Lemma bool_u32 b : is_u32 (bool_byte b).
Proof. by destruct b. Qed.
Lemma ecdsa_verify_sim curve pk m s len : is_u32 pk -> is_u32 m -> is_u32 s -> is_u32 len ->
  Sim (handle_ecdsa_verify curve pk m s len) (handle_ecdsa_verify curve pk m s len) is_u32.
Proof. intros. unfold handle_ecdsa_verify. sim_go. apply bool_u32. Qed.
Lemma schnorr_sign_sim curve mode id k m len s e :
  is_u32 k -> is_u32 m -> is_u32 len -> is_u32 s -> is_u32 e ->
  Sim (handle_schnorr_sign curve mode id k m len s e) (handle_schnorr_sign curve mode id k m len s e) is_u32.
Proof.
  intros. unfold handle_schnorr_sign. sim_go.
  1: instantiate (1 := fun _ => True). 1-2: done.
  all: match goal with E : cx_ecschnorr_sign_no_throw ?a ?b ?c ?d ?e ?f = _ |- _ =>
    destruct (schnorr_out a b c d e f); rewrite E in *; cbn [fst snd] in * end.
  - apply write_guest_sim; [sim_range| |by apply Forall_take]. rewrite length_take. lia.
  - sim_range.
Qed.
Lemma schnorr_verify_sim curve mode id pk m len s slen : is_u32 pk -> is_u32 m -> is_u32 len -> is_u32 s ->
  Sim (handle_schnorr_verify curve mode id pk m len s slen) (handle_schnorr_verify curve mode id pk m len s slen) is_u32.
Proof. intros. unfold handle_schnorr_verify. sim_go. apply bool_u32. Qed.

(** ** Messages *)

Lemma message_sim {A} (o : outcome MessageDeserializationError A) (P : A -> Prop) : (forall a, o = Ok a -> P a) ->
  Sim (lift (outcome_map_err EcMessageDeserializationError o)) (lift (outcome_map_err EcMessageDeserializationError o)) P.
Proof. intros Hp. apply sim_lift. intros a Ha. destruct o; try discriminate. injection Ha as <-. by apply Hp. Qed.

Lemma send_loop_sim seg bt : forall fuel first size p, is_u32 size -> is_u32 p ->
  Sim (send_loop fuel seg bt first size p) (send_loop fuel seg bt first size p) any.
Proof.
  induction fuel as [|fuel IH]; intros first size p Hs Hp; cbn [send_loop]; sim_go; try done.
  - by apply message_sim with (P := fun _ => True).
  - apply IH; [sim_range|apply w32_range].
  - apply IH; [sim_range|apply w32_range].
Qed.
Lemma send_buffer_sim buffer size bt : is_u32 buffer -> is_u32 size ->
  Sim (handle_send_buffer buffer size bt) (handle_send_buffer buffer size bt) any.
Proof.
  intros. unfold handle_send_buffer. sim_go; [by apply message_sim with (P := fun _ => True)|done|].
  by apply send_loop_sim.
Qed.

(** The lengths declared and received add up. *)
Definition recv_inv (remaining : option Z) (total : Z) : Prop :=
  0 <= total /\ match remaining with Some r => total + r < 2 ^ 32 | None => total = 0 end.
Lemma recv_loop_sim seg max : forall fuel remaining p total,
  is_u32 p -> recv_inv remaining total ->
  Sim (recv_loop fuel seg max remaining p total) (recv_loop fuel seg max remaining p total) is_u32.
Proof.
  assert (forall total, recv_inv (Some 0) total -> is_u32 total) as Hend.
  { intros total [H0 H1]. split; lia. }
  induction fuel as [|fuel IH]; intros remaining p total Hp Htot; cbn [recv_loop];
    (destruct (bool_decide (remaining = Some 0)) eqn:Er;
      [apply bool_decide_eq_true in Er as ->; apply sim_ret; by apply Hend|]).
  { apply sim_diverge. }
  eapply sim_bind; [apply interrupted_sim|intros raw Hraw].
  eapply sim_bind; [apply message_sim; intros r Hr; exact (proj1 (receive_response_decoded _ _ Hraw Hr))|].
  intros r (Hrem & Hb & Hl). unfold is_u in Hrem.
  eapply sim_bind with (P := fun _ => total + ReceiveBufferResponse.remaining_length r < 2 ^ 32).
  { destruct Htot as [_ Ht]. destruct remaining; (eapply sim_mono; [apply guard_sim|cbn beta; intros _ Hg]); lia. }
  intros _ Hsum. cbv zeta. eapply sim_bind; [apply seg_write_sim; [sim_range|lia|done]|intros _ _].
  eapply sim_bind; [apply guard_sim|intros _ Hc%Z.ltb_ge].
  pose proof (w32_range (Z.of_nat (length (ReceiveBufferResponse.content r)))).
  apply IH; [apply w32_range|]. destruct Htot. split; lia.
Qed.
Lemma xrecv_sim buffer max : is_u32 buffer -> Sim (handle_xrecv buffer max) (handle_xrecv buffer max) is_u32.
Proof. intros. unfold handle_xrecv. sim_go. by apply recv_loop_sim. Qed.

(** ** Storage *)

Lemma storage_target_entry h slot size i : handler_ok h -> 0 <= slot -> storage_target slot size h = Some i ->
  exists e, entry_at (hstore h) i e /\ get_entry i (hstore h) = Some e /\ entry_ok e /\
    (Z.to_nat slot < 4)%nat /\ slot < hn_storage_slots h.
Proof.
  intros [_ Hs _ _] H0. unfold storage_target. destruct (negb _); [done|].
  destruct ((hn_storage_slots h <=? slot) || (MAX_STORAGE_SLOTS <=? slot)) eqn:Eb; [done|].
  unfold MAX_STORAGE_SLOTS in Eb. intros Hf. apply find_entry_some in Hf as (e & _ & Hat & _ & _).
  rewrite Nat.sub_0_r in Hat. exists e. split; [done|]. split; [|split; [by eapply so_entries|lia]].
  destruct Hat as (l & Hl & Hi & <-). unfold get_entry. by rewrite Hl, Hi.
Qed.
Lemma slot_ok e k d : entry_ok e -> storage_slots e !! k = Some d -> out_ok 32 d.
Proof. intros [_ _ [_ Hs]] Hk. by eapply (Forall_lookup_1 _ _ _ _ Hs). Qed.

Lemma storage_read_sim slot buffer size : is_u32 slot -> is_u32 buffer ->
  Sim (handle_storage_read slot buffer size) (handle_storage_read slot buffer size) is_u32.
Proof.
  intros Hsl Hb. unfold handle_storage_read. apply sim_get. intros h c s Hh Hs. cbn [fst].
  destruct (storage_target slot size h) as [i|] eqn:Et; [|by apply sim_ret].
  destruct (storage_target_entry h slot size i Hh (proj1 Hsl) Et) as (e & _ & -> & Hok & _ & _).
  eapply sim_bind with (P := fun x => x = e); [apply sim_lift; by intros ? [= <-]|intros ? ->].
  eapply sim_bind with (P := out_ok 32).
  { apply sim_lift. intros d Hd. destruct (storage_slots e !! Z.to_nat slot) eqn:Ed; [|done].
    injection Hd as <-. by eapply slot_ok. }
  intros d [Hd1 Hd2]. sim_go; [|done]. apply write_guest_sim; [sim_range|lia|done].
Qed.

Lemma set_slot_ok e k d : entry_ok e -> out_ok 32 d ->
  entry_ok (mkEntry (entry_hash e) (entry_name e) (entry_version e) (<[k := d]> (storage_slots e))).
Proof.
  intros [Hh Hn [Hl Hs]] Hd. split; [done..|]. cbn. rewrite length_insert. split; [done|]. by apply Forall_insert.
Qed.
(** The guest's buffers are not the handler's state. *)
Lemma on_guest_handler {C E A} (m : ST C E A) h (c : C) o s : on_guest m (h, c) = (o, s) -> fst s = h.
Proof. unfold on_guest, zoom. cbn [fst snd]. destruct (m c). by intros [= _ <-]. Qed.
Lemma read_guest_handler {C} `{G : Guest C} p len h (c : C) o s : read_guest p len (h, c) = (o, s) -> fst s = h.
Proof.
  unfold read_guest, segment, seg_read, map_err, mbind, st_mbind, st_bind.
  destruct (on_guest (guest_segment p) (h, c)) as [[] [h1 c1]] eqn:E1; apply on_guest_handler in E1; cbn [fst] in E1; subst;
    cbn [outcome_map_err]; try (by intros [= _ <-]).
  match goal with |- context [on_guest (guest_read ?a ?b ?d) ?e] =>
    destruct (on_guest (guest_read a b d) e) as [[] [h2 c2]] eqn:E2 end; apply on_guest_handler in E2; cbn [fst] in E2; subst;
    by intros [= _ <-].
Qed.
Lemma store_slot_ok h i e k d : handler_ok h -> entry_at (hstore h) i e -> entry_ok e -> out_ok 32 d ->
  handler_ok (with_store (<[i := mkLazy STORAGE_VALID (mkEntry (entry_hash e) (entry_name e) (entry_version e)
    (<[k := d]> (storage_slots e)))]> (hstore h)) h).
Proof.
  intros [Ht Hs Hev Hevs] Hat Hok Hd. split; [done| |done..]. cbn. destruct Hat as (l & Hl & Hi & <-).
  apply store_set_ok; [done|by eapply lookup_lt_Some|by apply set_slot_ok|].
  intros j f Hj Hf E. apply Hj. by eapply (so_names _ Hs); [exact Hf|by exists l|].
Qed.
Lemma storage_write_sim slot buffer size : is_u32 slot -> is_u32 buffer ->
  Sim (handle_storage_write slot buffer size) (handle_storage_write slot buffer size) is_u32.
Proof.
  intros Hsl Hb h c s Hh Hs. unfold handle_storage_write, mbind, st_mbind, st_bind, get. cbn [fst].
  destruct (storage_target slot size h) as [i|] eqn:Et; [|right; by exists s].
  destruct (storage_target_entry h slot size i Hh (proj1 Hsl) Et) as (e & Hat & -> & Hok & Hlt & _).
  pose proof (read_guest_sim buffer STORAGE_SLOT_SIZE (proj1 Hb) ltac:(done) h c s Hh Hs) as Hr.
  destruct Hr as [[Hr Hc]|Hr]; [left; by destruct (read_guest buffer STORAGE_SLOT_SIZE (h, s)) as [[] ?]|].
  destruct (read_guest buffer STORAGE_SLOT_SIZE (h, c)) as [[d|x| |] [h1 c1]] eqn:E; [|share Hr (read_guest buffer STORAGE_SLOT_SIZE (h, s))..].
  pose proof (read_guest_handler _ _ _ _ _ _ E) as E'. cbn [fst] in E'. subst h1.
  destruct Hr as (s1 & -> & _ & Hs1 & Hd). pose proof (eo_slots _ Hok) as [Hl _].
  cbn [lift ok_or]. rewrite Hl. destruct (Nat.ltb_spec (Z.to_nat slot) 4); [|lia].
  cbn -[at_slot update]. unfold store_result, map_err, on_handler, zoom. cbn [fst snd].
  pose proof Hat as (l & Hli & Hi & _). rewrite (at_slot_update _ _ l) by done. cbn.
  right. exists s1. split; [done|]. split; [by apply store_slot_ok|]. done.
Qed.

(** ** Events and the screen *)

Lemma event_code_u32 c : is_u32 (event_code_value c).
Proof. by destruct c. Qed.
Lemma store_new_event_ok e last : event_ok (Some e) -> event_ok last -> event_ok (store_new_event e last).
Proof. intros He Hl. unfold store_new_event. by repeat case_match. Qed.
Lemma wait_for_ticker_ok : forall es h, handler_ok h -> Forall (fun e => event_ok (stored_event e)) es ->
  match wait_for_ticker_loop es h with (Ok _, h1) => handler_ok h1 | _ => True end.
Proof.
  induction es as [|e es IH]; intros h Hh Hes; cbn; [done|]. inversion_clear Hes as [|? ? He Hes'].
  destruct Hh as [Ht Hs Hl _].
  unfold mbind, st_mbind, st_bind, modify, mret, st_mret, st_ret. destruct (stored_event e) as [ev|] eqn:Ee; cbn.
  - assert (handler_ok (with_event (store_new_event ev (last_event h)) (with_events es h))) as Hok.
    { split; [done|done| |done]. apply store_new_event_ok; done. }
    destruct (is_ticker e); [done|]. by apply IH.
  - assert (handler_ok (with_events es h)) by by split. destruct (is_ticker e); [done|]. by apply IH.
Qed.
Lemma get_event_sim ptr : is_u32 ptr -> Sim (handle_get_event ptr) (handle_get_event ptr) is_u32.
Proof.
  intros Hp. unfold handle_get_event. apply sim_get. intros h c s [Ht Hs Hl Hes] Hsim. cbn [fst snd].
  destruct (last_event h) as [[code data]|] eqn:El.
  - destruct (Hl code data eq_refl) as [Hd1 Hd2]. eapply sim_bind; [apply (sim_modify _ (with_event None) (fun _ => True)); [by intros ? []; split|done]|intros _ _].
    eapply sim_bind; [apply write_guest_sim; [sim_range|lia|done]|intros _ _]. apply sim_ret, event_code_u32.
  - eapply sim_bind with (P := fun _ => True); [|intros _ _; by apply sim_ret]. apply sim_on_handler. intros h0 Hh0.
    pose proof (wait_for_ticker_ok _ _ Hh0 (ho_events _ Hh0)) as Hw.
    unfold mbind, st_mbind, st_bind, get. by destruct (wait_for_ticker_loop _ _) as [[] ?].
Qed.
Lemma on_screen_sim m : Sim (on_screen m) (on_screen m) any.
Proof.
  intros h c s Hh Hs. right. unfold on_screen. cbn [fst snd]. destruct (m (device_state h)) as [[[]|e| |] d]; [|by right..].
  exists s. split; [done|]. split; [by apply handler_ok_device|]. done.
Qed.
Lemma show_page_sim p len : is_u32 p -> is_u32 len -> Sim (handle_show_page p len) (handle_show_page p len) is_u32.
Proof.
  intros. unfold handle_show_page. sim_go; [by apply sim_lift with (P := fun _ => True)|apply on_screen_sim|done].
Qed.
Lemma show_step_sim p len : is_u32 p -> is_u32 len -> Sim (handle_show_step p len) (handle_show_step p len) is_u32.
Proof.
  intros. unfold handle_show_step. sim_go; [by apply sim_lift with (P := fun _ => True)|apply on_screen_sim|done].
Qed.
Lemma device_property_sim x :
  Sim (handle_get_device_property target x) (handle_get_device_property target x) is_u32.
Proof. unfold handle_get_device_property. sim_go; by destruct target. Qed.

(** ** The dispatch *)

Lemma returns_sim (m : ST (CommEcallHandler D * Cpu M) CommEcallError Z) m' :
  Sim m m' is_u32 -> Sim (returns m) (returns m') any.
Proof. intros Hm. eapply sim_bind; [exact Hm|]. intros x Hx. by apply set_a0_sim. Qed.
Lemma succeeds_sim (m : ST (CommEcallHandler D * Cpu M) CommEcallError unit) m' :
  Sim m m' any -> Sim (succeeds m) (succeeds m') any.
Proof. intros Hm. eapply sim_bind; [exact Hm|]. intros _ _. by apply set_a0_sim. Qed.
Lemma generic_sim {A} msg (m : ST (CommEcallHandler D * Cpu M) CommEcallError A) m' P :
  Sim m m' P -> Sim (generic msg m) (generic msg m') P.
Proof. by eapply sim_map_err. Qed.

(** Every register of the call is a 32-bit value. *)
Lemma dispatch_sim a0 a1 a2 a3 a4 a5 a6 a7 code :
  is_u32 a0 -> is_u32 a1 -> is_u32 a2 -> is_u32 a3 -> is_u32 a4 -> is_u32 a5 -> is_u32 a6 -> is_u32 a7 ->
  (code = ECALL_DERIVE_SLIP21_KEY -> t <> Safe /\ t <> Blocking) ->
  Sim (dispatch target a0 a1 a2 a3 a4 a5 a6 a7 code) (dispatch target a0 a1 a2 a3 a4 a5 a6 a7 code) any.
Proof.
  intros ? ? ? ? ? ? ? ? Hcode. unfold dispatch.
  repeat (match goal with |- Sim (if ?b then _ else _) _ _ => destruct b eqn:? end;
    [try apply sim_fail; try apply returns_sim; try apply succeeds_sim; try apply generic_sim|]); [..|apply sim_fail].
  - eapply sim_bind; [by apply generic_sim, send_buffer_sim|intros _ _; apply sim_fail].
  - by apply send_buffer_sim.
  - by apply xrecv_sim.
  - by apply send_buffer_sim.
  - by apply get_event_sim.
  - by apply storage_read_sim.
  - by apply storage_write_sim.
  - eapply sim_bind; [by apply show_page_sim|intros _ _; by apply set_a0_sim].
  - eapply sim_bind; [by apply generic_sim, show_step_sim|intros _ _; by apply set_a0_sim].
  - apply device_property_sim.
  - by apply bn_modm_sim.
  - apply bn_op_sim; [apply addm_out|done..].
  - apply bn_op_sim; [apply subm_out|done..].
  - apply bn_op_sim; [apply multm_out|done..].
  - by apply bn_modinv_sim.
  - by apply bn_powm_sim.
  - by apply hash_init_sim.
  - by apply hash_update_sim.
  - by apply hash_digest_sim.
  - by apply derive_hd_node_sim.
  - apply master_fingerprint_sim.
  - destruct Hcode; [by apply Z.eqb_eq|]. by apply derive_slip21_sim.
  - by apply add_point_sim.
  - by apply scalar_mult_sim.
  - by apply random_bytes_sim.
  - by apply ecdsa_sign_sim.
  - by apply ecdsa_verify_sim.
  - by apply schnorr_sign_sim.
  - by apply schnorr_verify_sim.
Qed.

(** The registers that an ECALL is made with. *)
Lemma read_regs {C} `{G : Guest C} (g : Z -> Z) h (c : C) :
  (forall r, 0 <= r < 32 -> guest_reg r c = (Ok (g r), c)) ->
  handle_ecall target (h, c) =
    dispatch target (g A0) (g A1) (g A2) (g A3) (g A4) (g A5) (g A6) (g A7) (g T0) (h, c).
Proof.
  intros Hg. assert (forall B r (f : Z -> ST (CommEcallHandler D * C) CommEcallError B), 0 <= r < 32 ->
    (x ← gr r; f x) (h, c) = f (g r) (h, c)) as E.
  { intros B r f Hr. unfold gr, map_err, on_guest, zoom, mbind, st_mbind, st_bind. cbn [fst snd]. by rewrite Hg. }
  unfold handle_ecall. by rewrite !E by done.
Qed.
Lemma handle_ecall_sim h c s : handler_ok h -> sim c s ->
  (a_reg s T0 = ECALL_DERIVE_SLIP21_KEY -> t <> Safe /\ t <> Blocking) ->
  lost snd (handle_ecall target (h, s)) \/
  match handle_ecall target (h, c) with
  | (Ok _, (h1, c1)) => exists s1, handle_ecall target (h, s) = (Ok tt, (h1, s1)) /\ handler_ok h1 /\ sim c1 s1
  | (o, (h1, _)) => shared t (fun s1 => fst s1 = h1) o (handle_ecall target (h, s))
  end.
Proof.
  intros Hh Hs Hcode. rewrite (read_regs (a_reg s) h c), (read_regs (a_reg s) h s); [|done|].
  - assert (forall r, 0 <= r < 32 -> is_u32 (a_reg s r)) as Hr by (intros; by eapply sim_reg_range).
    edestruct (dispatch_sim (a_reg s A0) (a_reg s A1) (a_reg s A2) (a_reg s A3) (a_reg s A4) (a_reg s A5)
      (a_reg s A6) (a_reg s A7) (a_reg s T0)) as [Hd|Hd]; [by apply Hr..|exact Hcode|exact Hh|exact Hs|by left|right].
    destruct (dispatch _ _ _ _ _ _ _ _ _ _ (h, c)) as [[[]|e| |] [h1 c1]]; [|exact Hd..].
    destruct Hd as (s1 & ? & ? & ? & _). by exists s1.
  - intros r Hr. cbn. unfold reg, mbind, st_mbind, st_bind, get, lift. by rewrite (sim_reg_lookup _ _ _ Hs Hr).
Qed.
End ecall.
