(* ===== verification/Lockstep.v ===== *)
(** * Two runs in lockstep

    The same computation over two memories on the same states: it has the same effect over
    both, unless it ends in a state that is [bad] or fails. A failure is an outcome that a
    memory can cause. Every step of the processor and of the ECALL handlers keeps the
    relation, when the requests for pages do. *)

From S2P Require Import Prelude Riscv Memory Cpu Ux Manifest ClientCommands OutsourcedMem Ecall GuestSpec.

Definition fails {E A} `{MemoryErrors E} (o : outcome E A) : Prop :=
  match o with Ok _ => False | Err e => memory_error e | Panic | Diverge => True end.

(** ** The relation and its rules *)

Section agree.
Context {S : Type} (bad : S -> Prop).

Definition spoils {E A} `{MemoryErrors E} (r : outcome E A * S) : Prop := bad (snd r) \/ fails (fst r).
Definition agree {E A} `{MemoryErrors E} (m1 m2 : ST S E A) : Prop :=
  forall s, (m1 s = m2 s \/ spoils (m1 s)) /\ (bad s -> spoils (m1 s)).

Section rules.
Context {E : Type} `{ME : MemoryErrors E}.

Lemma agree_bind {A B} (m1 m2 : ST S E A) (f1 f2 : A -> ST S E B) :
  agree m1 m2 -> (forall a, agree (f1 a) (f2 a)) -> agree (x ← m1; f1 x) (x ← m2; f2 x).
Proof.
  intros Hm Hf s. destruct (Hm s) as [Heq Hbad]. unfold mbind, st_mbind, st_bind.
  assert (spoils (m1 s) -> spoils (match m1 s with
    | (Ok a, s') => f1 a s' | (Err e, s') => (Err e, s') | (Panic, s') => (Panic, s')
    | (Diverge, s') => (Diverge, s') end)) as Hsp.
  { destruct (m1 s) as [[a|e| |] s']; try done. intros [Hb|[]]. by apply (Hf a s'). }
  split; [|auto]. destruct Heq as [<-|Heq]; [|right; auto].
  destruct (m1 s) as [[a|e| |] s']; try by left. by apply Hf.
Qed.
Lemma agree_refl {A} (m : ST S E A) : (forall s, bad s -> spoils (m s)) -> agree m m.
Proof. intros Hm s. split; [by left|auto]. Qed.
Lemma agree_ret {A} (a : A) : agree (mret a) (mret a).
Proof. apply agree_refl. intros s Hs. by left. Qed.
Lemma agree_fail {A} (e : E) : agree (fail e : ST S E A) (fail e).
Proof. apply agree_refl. intros s Hs. by left. Qed.
Lemma agree_panic {A} : agree (panic : ST S E A) panic.
Proof. apply agree_refl. intros s Hs. by left. Qed.
Lemma agree_diverge {A} : agree (diverge : ST S E A) diverge.
Proof. apply agree_refl. intros s Hs. by left. Qed.
Lemma agree_lift {A} (o : outcome E A) : agree (lift o) (lift o).
Proof. apply agree_refl. intros s Hs. by left. Qed.
Lemma agree_get : agree (get : ST S E S) get.
Proof. apply agree_refl. intros s Hs. by left. Qed.
Lemma agree_gets {A} (f : S -> A) : agree (gets f : ST S E A) (gets f).
Proof. apply agree_refl. intros s Hs. by left. Qed.
Lemma agree_modify (f : S -> S) : (forall s, bad s -> bad (f s)) -> agree (modify f : ST S E unit) (modify f).
Proof. intros Hf. apply agree_refl. intros s Hs. left. by apply Hf. Qed.
Lemma agree_map_err {F A} `{MF : MemoryErrors F} (f : E -> F) (m1 m2 : ST S E A) :
  (forall e, memory_error e -> memory_error (f e)) -> agree m1 m2 -> agree (map_err f m1) (map_err f m2).
Proof.
  intros Hf Hm s. destruct (Hm s) as [Heq Hbad]. unfold map_err.
  assert (spoils (m1 s) -> spoils (let '(o, s') := m1 s in (outcome_map_err f o, s'))) as Hsp.
  { destruct (m1 s) as [[a|e| |] s']; (intros [?|?]; [by left|right; cbn in *; auto]). }
  split; [|auto]. destruct Heq as [<-|Heq]; [by left|right; auto].
Qed.
End rules.
End agree.

(** A part of the state. *)
Lemma agree_zoom {S T E A} `{ME : MemoryErrors E} (bad : S -> Prop) (bad' : T -> Prop) (view : S -> T)
    (set : T -> S -> S) (m1 m2 : ST T E A) :
  (forall s x, bad' x -> bad (set x s)) ->
  (forall s, bad s -> bad' (view s) \/ forall x, bad (set x s)) ->
  agree bad' m1 m2 -> agree bad (zoom view set m1) (zoom view set m2).
Proof.
  intros Hset Hview Hm s. destruct (Hm (view s)) as [Heq Hbad]. unfold zoom.
  assert (spoils bad' (m1 (view s)) -> spoils bad (let '(o, t) := m1 (view s) in (o, set t s))) as Hsp.
  { destruct (m1 (view s)) as [o x]. intros [Hb|Ho]; [left; by apply Hset|by right]. }
  split.
  - destruct Heq as [<-|Heq]; [by left|right; auto].
  - intros Hs. destruct (Hview s Hs) as [Hv|Hv]; [auto|]. destruct (m1 (view s)). left. apply Hv.
Qed.

(** The rules, as long as one applies. *)
Ltac agree_step :=
  match goal with
  | |- agree _ (mret _) _ => apply agree_ret
  | |- agree _ (fail _) _ => apply agree_fail
  | |- agree _ panic _ => apply agree_panic
  | |- agree _ diverge _ => apply agree_diverge
  | |- agree _ (lift _) _ => apply agree_lift
  | |- agree _ get _ => apply agree_get
  | |- agree _ (gets _) _ => apply agree_gets
  | |- agree _ (mbind _ _) _ => apply agree_bind; [|intros ?]
  | |- agree _ (match ?x with (_, _) => _ end) _ => destruct x
  | |- agree _ (if ?b then _ else _) _ => destruct b
  | |- agree _ (match ?b with Some _ => _ | None => _ end) _ => destruct b
  end.
Ltac agree_go := repeat (agree_step || (solve [auto with agree nocore])).
Create HintDb agree.

(** ** Over two memories

    [guarded] stops when the memory that a request leaves is one to stop at. *)

Definition guarded {M} (PM : PagedMemory M) (stop : M -> bool) : PagedMemory M := {|
  PageRef := @PageRef M PM;
  get_page := fun i m => let '(o, m') := @get_page M PM i m in if stop m' then (Diverge, m') else (o, m');
  deref := @deref M PM;
  deref_mut := @deref_mut M PM;
  share := @share M PM;
|}.

Section memory.
Context {M : Type} (PM : PagedMemory M) (stop : M -> bool).
Hypothesis stop_get : forall i m, stop m = true ->
  stop (snd (@get_page M PM i m)) = true \/ fails (fst (@get_page M PM i m)).
Hypothesis stop_write : forall h f m, stop m = true -> stop (@deref_mut M PM m h f) = true.
Hypothesis stop_share : forall m m', stop m = true -> stop (@share M PM m' m) = true.
Abbreviation G := (guarded PM stop).

Definition bad_memory (m : M) : Prop := stop m = true.
Definition bad_seg (s : MemorySegment M) : Prop := bad_memory (paged_memory s).

Lemma get_page_agree i : agree bad_memory (@get_page M PM i) (@get_page M G i).
Proof.
  intros m. split; [|apply stop_get]. cbn. destruct (@get_page M PM i m) as [o m'] eqn:Eg.
  destruct (stop m') eqn:Es; [right; by left|by left].
Qed.
Lemma seg_get_page_agree i : agree bad_seg (@seg_get_page M PM i) (@seg_get_page M G i).
Proof. apply (agree_zoom _ bad_memory); [done|intros s Hs; by left|apply get_page_agree]. Qed.
Lemma seg_write_agree h f : agree bad_seg (@seg_write_page M PM h f) (@seg_write_page M G h f).
Proof.
  unfold seg_write_page, seg_deref. cbn [deref guarded deref_mut]. apply agree_bind; [apply agree_gets|intros p].
  destruct (f p); [|apply agree_panic]. apply agree_modify. intros s Hs. by apply stop_write.
Qed.
Lemma seg_deref_agree h : agree bad_seg (@seg_deref M PM h) (@seg_deref M G h).
Proof. apply agree_gets. Qed.
Hint Resolve seg_get_page_agree seg_write_agree seg_deref_agree : agree.

Lemma read_u8_agree a : agree bad_seg (@read_u8 M PM a) (@read_u8 M G a).
Proof. unfold read_u8. agree_go. Qed.
Lemma read_u16_agree a : agree bad_seg (@read_u16 M PM a) (@read_u16 M G a).
Proof. unfold read_u16. agree_go. Qed.
Lemma read_u32_agree a : agree bad_seg (@read_u32 M PM a) (@read_u32 M G a).
Proof. unfold read_u32. agree_go. Qed.
Lemma write_u8_agree a x : agree bad_seg (@write_u8 M PM a x) (@write_u8 M G a x).
Proof. unfold write_u8. agree_go. Qed.
Lemma write_u16_agree a x : agree bad_seg (@write_u16 M PM a x) (@write_u16 M G a x).
Proof. unfold write_u16. agree_go. Qed.
Lemma write_u32_agree a x : agree bad_seg (@write_u32 M PM a x) (@write_u32 M G a x).
Proof. unfold write_u32. agree_go. Qed.

Lemma buffer_bounds_agree a n : agree bad_seg (buffer_bounds (M:=M) a n) (buffer_bounds a n).
Proof. unfold buffer_bounds. agree_go. Qed.
Hint Resolve buffer_bounds_agree : agree.
Lemma read_loop_agree : forall fuel a n buffer,
  agree bad_seg (@read_buffer_loop M PM fuel a n buffer) (@read_buffer_loop M G fuel a n buffer).
Proof. induction fuel as [|fuel IH]; intros a n buffer; cbn [read_buffer_loop]; agree_go. Qed.
Lemma write_loop_agree : forall fuel a n buffer,
  agree bad_seg (@write_buffer_loop M PM fuel a n buffer) (@write_buffer_loop M G fuel a n buffer).
Proof. induction fuel as [|fuel IH]; intros a n buffer; cbn [write_buffer_loop]; agree_go. Qed.
Lemma read_buffer_agree a buffer : agree bad_seg (@read_buffer M PM a buffer) (@read_buffer M G a buffer).
Proof. unfold read_buffer. agree_go. apply read_loop_agree. Qed.
Lemma write_buffer_agree a buffer : agree bad_seg (@write_buffer M PM a buffer) (@write_buffer M G a buffer).
Proof. unfold write_buffer. agree_go. apply write_loop_agree. Qed.

(** *** The processor *)

Definition bad_cpu (c : Cpu M) : Prop := exists id, bad_seg (seg_of id c).

Lemma bad_set_seg id x c : bad_seg x -> bad_cpu (@set_seg M PM id x c).
Proof. intros Hx. exists id. by destruct id. Qed.
Lemma bad_other id c : bad_cpu c -> bad_seg (seg_of id c) \/ forall x, bad_cpu (@set_seg M PM id x c).
Proof using stop_share.
  intros [id' Hb]. destruct (decide (id' = id)) as [->|Hne]; [by left|right]. intros x. exists id'.
  destruct id, id'; try done; by apply stop_share.
Qed.
Lemma on_seg_agree {E A} `{MemoryErrors E} id (m1 m2 : ST (MemorySegment M) E A) : agree bad_seg m1 m2 ->
  agree bad_cpu (zoom (seg_of id) (@set_seg M PM id) m1) (zoom (seg_of id) (@set_seg M G id) m2).
Proof. apply agree_zoom; [intros; by apply bad_set_seg|apply bad_other]. Qed.
(** What does not touch the segments. *)
Lemma bad_same c c' : (forall id, seg_of id c' = seg_of id c) -> bad_cpu c -> bad_cpu c'.
Proof. intros E [id Hb]. exists id. by rewrite E. Qed.

Context {E : Type} `{ME : MemoryErrors E}.
Abbreviation CST := (ST (Cpu M) (CpuError E)).

Lemma with_seg_agree {A} id (m1 m2 : ST (MemorySegment M) MemoryError A) : agree bad_seg m1 m2 ->
  agree bad_cpu (@with_seg M PM E A id m1) (@with_seg M G E A id m2).
Proof. intros Hm. apply on_seg_agree. by eapply agree_map_err. Qed.
Lemma reg_agree i : agree bad_cpu (reg i : CST Z) (reg i).
Proof. unfold reg. agree_go. Qed.
Lemma set_reg_agree i x : agree bad_cpu (set_reg i x : CST unit) (set_reg i x).
Proof.
  apply agree_refl. intros c Hc. unfold set_reg, mbind, st_mbind, st_bind, get, put, panic.
  destruct (i <? _); left; [|done]. by apply (bad_same c).
Qed.
Lemma modify_agree (f : Cpu M -> Cpu M) : (forall c id, seg_of id (f c) = seg_of id c) ->
  agree bad_cpu (modify f : CST unit) (modify f).
Proof. intros Hf. apply agree_modify. intros c. by apply bad_same. Qed.
Hint Resolve with_seg_agree reg_agree set_reg_agree read_u8_agree read_u16_agree read_u32_agree write_u8_agree
  write_u16_agree write_u32_agree : agree.
Lemma cpu_read_agree acc1 acc2 a : agree bad_seg (acc1 a) (acc2 a) ->
  agree bad_cpu (@cpu_read M PM E acc1 a) (@cpu_read M G E acc2 a).
Proof. intros. unfold cpu_read. agree_go. Qed.
Lemma cpu_write_agree acc1 acc2 n a x : agree bad_seg (acc1 a x) (acc2 a x) ->
  agree bad_cpu (@cpu_write M PM E acc1 n a x) (@cpu_write M G E acc2 n a x).
Proof.
  intros. unfold cpu_write. agree_go. apply modify_agree. intros c id. unfold invalidate_reservation.
  destruct (reservation_addr c); [destruct (_ && _)|]; by destruct id.
Qed.
Lemma fetch_agree : agree bad_cpu (@fetch_instruction M PM E) (@fetch_instruction M G E).
Proof. unfold fetch_instruction. agree_go. Qed.

Hint Resolve cpu_read_agree cpu_write_agree fetch_agree : agree.
Lemma cpu_read_u8_agree a : agree bad_cpu (@cpu_read_u8 M PM E a) (@cpu_read_u8 M G E a).
Proof. apply cpu_read_agree, read_u8_agree. Qed.
Lemma cpu_read_u16_agree a : agree bad_cpu (@cpu_read_u16 M PM E a) (@cpu_read_u16 M G E a).
Proof. apply cpu_read_agree, read_u16_agree. Qed.
Lemma cpu_read_u32_agree a : agree bad_cpu (@cpu_read_u32 M PM E a) (@cpu_read_u32 M G E a).
Proof. apply cpu_read_agree, read_u32_agree. Qed.
Lemma cpu_write_u8_agree a x : agree bad_cpu (@cpu_write_u8 M PM E a x) (@cpu_write_u8 M G E a x).
Proof. apply cpu_write_agree, write_u8_agree. Qed.
Lemma cpu_write_u16_agree a x : agree bad_cpu (@cpu_write_u16 M PM E a x) (@cpu_write_u16 M G E a x).
Proof. apply cpu_write_agree, write_u16_agree. Qed.
Lemma cpu_write_u32_agree a x : agree bad_cpu (@cpu_write_u32 M PM E a x) (@cpu_write_u32 M G E a x).
Proof. apply cpu_write_agree, write_u32_agree. Qed.
Lemma aligned_agree a mask msg : agree bad_cpu (aligned a mask msg : CST unit) (aligned a mask msg).
Proof. apply agree_lift. Qed.
Lemma load_addr_agree a i : agree bad_cpu (load_addr a i : CST Z) (load_addr a i).
Proof. unfold load_addr. agree_go. Qed.
Lemma set_reservation_agree r : agree bad_cpu (modify (set_reservation r) : CST unit) (modify (set_reservation r)).
Proof. apply modify_agree. by intros c []. Qed.
Lemma set_pc_agree (f : Cpu M -> Z) :
  agree bad_cpu (modify (fun c => set_pc (f c) c) : CST unit) (modify (fun c => set_pc (f c) c)).
Proof. apply modify_agree. by intros c []. Qed.
Hint Resolve cpu_read_u8_agree cpu_read_u16_agree cpu_read_u32_agree cpu_write_u8_agree cpu_write_u16_agree
  cpu_write_u32_agree aligned_agree load_addr_agree set_reservation_agree : agree.
Lemma amo_agree msg rd a b f : agree bad_cpu (@amo M PM E msg rd a b f) (@amo M G E msg rd a b f).
Proof. unfold amo. agree_go. Qed.
Lemma lr_agree rd a : agree bad_cpu (@lr_w M PM E rd a) (@lr_w M G E rd a).
Proof. unfold lr_w. agree_go. Qed.
Lemma sc_agree rd a b : agree bad_cpu (@sc_w M PM E rd a b) (@sc_w M G E rd a b).
Proof. unfold sc_w. agree_go. Qed.
Hint Resolve amo_agree lr_agree sc_agree : agree.
Lemma execute_mem_agree op : agree bad_cpu (@execute_mem M PM E op) (@execute_mem M G E op).
Proof. destruct op; cbn [execute_mem]; agree_go. Qed.
Hint Resolve execute_mem_agree : agree.
Lemma binop_agree rd a b f : agree bad_cpu (binop rd a b f : CST unit) (binop rd a b f).
Proof. unfold binop. agree_go. Qed.
Lemma immop_agree rd a f : agree bad_cpu (immop rd a f : CST unit) (immop rd a f).
Proof. unfold immop. agree_go. Qed.
Lemma branch_agree a b i n f : agree bad_cpu (branch a b i n f : CST Z) (branch a b i n f).
Proof. unfold branch. agree_go. Qed.
Hint Resolve binop_agree immop_agree branch_agree set_pc_agree : agree.
Lemma execute_op_agree op n : agree bad_cpu (@execute_op M PM E op n) (@execute_op M G E op n).
Proof. destruct op; cbn [execute_op]; agree_go. Qed.
Lemma finish_agree n : agree bad_cpu (finish n : CST unit) (finish n).
Proof. unfold finish. agree_go. Qed.

(** *** The main loop *)

Context {H : Type}.
Definition bad_state (s : H * Cpu M) : Prop := bad_cpu (snd s).

Lemma on_cpu_agree {F A} `{MemoryErrors F} (m1 m2 : ST (Cpu M) F A) : agree bad_cpu m1 m2 ->
  agree bad_state (zoom snd (fun c s => (fst s, c)) m1) (zoom snd (fun c s => (fst s, c)) m2).
Proof. apply agree_zoom; [done|by left]. Qed.
Hint Resolve on_cpu_agree finish_agree execute_op_agree : agree.
Lemma step_agree (handler1 handler2 : EcallHandler (M:=M) (E:=E) H) : agree bad_state handler1 handler2 ->
  agree bad_state (@cpu_step M PM E H (Some handler1)) (@cpu_step M G E H (Some handler2)).
Proof.
  intros Hh. unfold cpu_step, execute. apply agree_bind; [apply on_cpu_agree, fetch_agree|intros inst].
  destruct (decode inst) as [op size]. apply agree_bind; [|intros inc; apply on_cpu_agree, finish_agree].
  destruct op; try apply on_cpu_agree, execute_op_agree.
  apply agree_bind; [|intros _; apply agree_ret]. eapply agree_map_err; [|exact Hh]. done.
Qed.
Lemma run_agree (handler1 handler2 : EcallHandler (M:=M) (E:=E) H) n : agree bad_state handler1 handler2 ->
  agree bad_state (@cpu_run M PM E H (Some handler1) n) (@cpu_run M G E H (Some handler2) n).
Proof.
  intros Hh. induction n as [|n IH]; cbn [cpu_run]; [apply agree_ret|].
  apply agree_bind; [by apply step_agree|done].
Qed.

(** *** As a guest *)

Lemma guest_segment_agree a :
  agree bad_cpu (@guest_segment _ (@cpu_guest M PM) a) (@guest_segment _ (@cpu_guest M G) a).
Proof. cbn. unfold get_segment. agree_go. Qed.
Lemma guest_read_agree id a buffer :
  agree bad_cpu (@guest_read _ (@cpu_guest M PM) id a buffer) (@guest_read _ (@cpu_guest M G) id a buffer).
Proof. apply on_seg_agree, read_buffer_agree. Qed.
Lemma guest_write_agree id a buffer :
  agree bad_cpu (@guest_write _ (@cpu_guest M PM) id a buffer) (@guest_write _ (@cpu_guest M G) id a buffer).
Proof. apply on_seg_agree, write_buffer_agree. Qed.
End memory.

(** ** The handlers, over two guests *)

Section guests.
Context {C : Type} (G1 G2 : Guest C) (bad : C -> Prop).
Hypothesis segment_guests : forall a, agree bad (@guest_segment C G1 a) (@guest_segment C G2 a).
Hypothesis read_guests : forall id a b, agree bad (@guest_read C G1 id a b) (@guest_read C G2 id a b).
Hypothesis write_guests : forall id a b, agree bad (@guest_write C G1 id a b) (@guest_write C G2 id a b).
Hypothesis reg_guests : forall r, agree bad (@guest_reg C G1 r) (@guest_reg C G2 r).
Hypothesis set_reg_guests : forall r x, agree bad (@guest_set_reg C G1 r x) (@guest_set_reg C G2 r x).
Context {D : Type} `{SY : Sys D} `{HP : Heap} (target : Target).
Abbreviation HST := (ST (CommEcallHandler D * C) CommEcallError).

Definition bad_guest (s : CommEcallHandler D * C) : Prop := bad (snd s).
Abbreviation Agree m1 m2 := (agree bad_guest m1 m2).

Lemma on_guest_agree {E A} `{MemoryErrors E} (m1 m2 : ST C E A) : agree bad m1 m2 ->
  Agree (on_guest m1 : ST (CommEcallHandler D * C) E A) (on_guest m2).
Proof. apply agree_zoom; [done|by left]. Qed.
Lemma on_handler_agree {E A} `{MemoryErrors E} (m : ST (CommEcallHandler D) E A) :
  Agree (on_handler m : ST (CommEcallHandler D * C) E A) (on_handler m).
Proof.
  apply agree_refl. intros [h c] Hc. unfold on_handler, zoom. cbn. destruct (m h). by left.
Qed.
Lemma segment_agree p : Agree (@segment C G1 D p) (@segment C G2 D p).
Proof. eapply agree_map_err; [|apply on_guest_agree, segment_guests]. done. Qed.
Lemma seg_read_agree id p n : Agree (@seg_read C G1 D id p n) (@seg_read C G2 D id p n).
Proof. eapply agree_map_err; [|apply on_guest_agree, read_guests]. done. Qed.
Lemma seg_write_guests id p data : Agree (@seg_write C G1 D id p data) (@seg_write C G2 D id p data).
Proof. eapply agree_map_err; [|apply on_guest_agree, write_guests]. done. Qed.
Hint Resolve segment_agree seg_read_agree seg_write_guests : agree.
Lemma read_guest_agree p n : Agree (@read_guest C G1 D p n) (@read_guest C G2 D p n).
Proof. unfold read_guest. agree_go. Qed.
Lemma write_guest_agree p data : Agree (@write_guest C G1 D p data) (@write_guest C G2 D p data).
Proof. unfold write_guest. agree_go. Qed.
Lemma map_handler_agree {E A} `{MemoryErrors E} (f : E -> CommEcallError) (m : ST (CommEcallHandler D) E A) :
  (forall e, memory_error e -> memory_error (f e)) ->
  Agree (map_err f (on_handler m) : HST A) (map_err f (on_handler m)).
Proof. intros Hf. eapply agree_map_err; [exact Hf|]. apply on_handler_agree. Qed.
Lemma interrupted_agree r : Agree (interrupted r : HST (list Z)) (interrupted r).
Proof. by apply map_handler_agree. Qed.
Lemma store_result_agree {A} (m : ST Store Empty_set A) : Agree (store_result m : HST A) (store_result m).
Proof. by apply map_handler_agree. Qed.
Lemma check_params_agree b msg : Agree (check_params b msg : HST unit) (check_params b msg).
Proof. apply agree_lift. Qed.
Lemma check_ok_agree r msg : Agree (check_ok r msg : HST unit) (check_ok r msg).
Proof. apply agree_lift. Qed.
Lemma hash_result_agree {A} (o : outcome LedgerHashContextError A) : Agree (hash_result o : HST A) (hash_result o).
Proof. apply agree_lift. Qed.
Lemma unwrapped_agree {A} (m1 m2 : HST A) : Agree m1 m2 -> Agree (unwrapped m1) (unwrapped m2).
Proof.
  intros Hm s. destruct (Hm s) as [Heq Hbad]. unfold unwrapped.
  assert (spoils bad_guest (m1 s) -> spoils bad_guest (match m1 s with (Err _, s') => (Panic, s') | r => r end)) as Hsp.
  { destruct (m1 s) as [[] ?]; (intros [?|?]; [by left|by right]). }
  split; [|auto]. destruct Heq as [<-|Heq]; [by left|right; auto].
Qed.
Lemma generic_agree {A} msg (m1 m2 : HST A) : Agree m1 m2 -> Agree (generic msg m1) (generic msg m2).
Proof. intros Hm. by eapply agree_map_err. Qed.
Lemma device_agree (f : CommEcallHandler D -> CommEcallHandler D) :
  Agree (modify (fun s => (f (fst s), snd s)) : HST unit) (modify (fun s => (f (fst s), snd s))).
Proof. by apply agree_modify. Qed.
Lemma on_screen_agree m : Agree (on_screen m : HST unit) (on_screen m).
Proof. apply agree_refl. intros [h c] Hc. unfold on_screen. cbn. destruct (m _). by left. Qed.
Lemma set_a0_agree x : Agree (@set_a0 C G1 D x) (@set_a0 C G2 D x).
Proof. eapply agree_map_err; [|apply on_guest_agree, set_reg_guests]. done. Qed.
Lemma gr_agree r : Agree (@gr C G1 D r) (@gr C G2 D r).
Proof. eapply agree_map_err; [|apply on_guest_agree, reg_guests]. done. Qed.
Hint Resolve read_guest_agree write_guest_agree interrupted_agree store_result_agree check_params_agree
  check_ok_agree hash_result_agree unwrapped_agree generic_agree on_screen_agree set_a0_agree gr_agree : agree.
Hint Extern 1 (agree _ (on_handler _) _) => apply on_handler_agree : agree.
Hint Extern 1 (agree _ (modify (fun s => (with_device ?d _, _))) _) => apply (device_agree (with_device d)) : agree.
Hint Extern 1 (agree _ (modify (fun s => (with_event ?d _, _))) _) => apply (device_agree (with_event d)) : agree.

Lemma send_loop_agree seg bt : forall fuel first size p,
  Agree (@send_loop C G1 D fuel seg bt first size p) (@send_loop C G2 D fuel seg bt first size p).
Proof. induction fuel as [|fuel IH]; intros first size p; cbn [send_loop]; agree_go. Qed.
Lemma recv_loop_agree seg max : forall fuel remaining p total,
  Agree (@recv_loop C G1 D fuel seg max remaining p total) (@recv_loop C G2 D fuel seg max remaining p total).
Proof. induction fuel as [|fuel IH]; intros remaining p total; cbn [recv_loop]; agree_go. Qed.
Lemma hash_update_loop_agree seg : forall fuel ctx n p,
  Agree (@hash_update_loop C G1 D _ fuel seg ctx n p) (@hash_update_loop C G2 D _ fuel seg ctx n p).
Proof. induction fuel as [|fuel IH]; intros ctx n p; cbn [hash_update_loop]; agree_go. Qed.
Hint Resolve send_loop_agree recv_loop_agree hash_update_loop_agree : agree.
Lemma send_buffer_agree buffer size bt :
  Agree (@handle_send_buffer C G1 D buffer size bt) (@handle_send_buffer C G2 D buffer size bt).
Proof. unfold handle_send_buffer. agree_go. Qed.
Lemma xrecv_agree buffer max : Agree (@handle_xrecv C G1 D buffer max) (@handle_xrecv C G2 D buffer max).
Proof. unfold handle_xrecv. agree_go. Qed.
Hint Resolve send_buffer_agree xrecv_agree : agree.
Lemma dispatch_agree a0 a1 a2 a3 a4 a5 a6 a7 code :
  Agree (@dispatch C G1 D _ _ target a0 a1 a2 a3 a4 a5 a6 a7 code)
    (@dispatch C G2 D _ _ target a0 a1 a2 a3 a4 a5 a6 a7 code).
Proof.
  unfold dispatch, returns, succeeds, handle_panic, handle_xsend, handle_print.
  repeat (match goal with |- agree _ (if ?b then _ else _) _ => destruct b; [|] end); agree_go.
  all: unfold handle_get_event, wait_for_ticker, handle_storage_read, handle_storage_write, handle_show_page,
    handle_show_step, handle_get_device_property, handle_bn_modm, handle_bn_addm, handle_bn_subm, handle_bn_multm,
    handle_bn_op, handle_bn_modinv_prime, handle_bn_powm, handle_hash_init, handle_hash_update, handle_hash_digest,
    handle_derive_hd_node, handle_get_master_fingerprint, handle_derive_slip21_node, handle_ecfp_add_point,
    handle_ecfp_scalar_mult, handle_get_random_bytes, handle_ecdsa_sign, handle_ecdsa_verify, handle_schnorr_sign,
    handle_schnorr_verify.
  all: agree_go.
  all: apply generic_agree; agree_go.
Qed.
Lemma ecall_agree : Agree (@handle_ecall C G1 D _ _ target) (@handle_ecall C G2 D _ _ target).
Proof. unfold handle_ecall. agree_go. apply dispatch_agree. Qed.
End guests.
