(* ===== verification/GuardedMem.v ===== *)
(** * The outsourced memory as a lawful paged memory

    What an outsourced memory hands out is what it stands for as long as no two different
    messages hashed collide. For a list [F] of messages that do not collide, the memory
    that stops before it hashes anything else is a paged memory that keeps its promises,
    and a run of the processor over the outsourced memory that hashes only messages of [F]
    is a run over that memory. *)

From S2P Require Import Prelude Memory MemorySpec Accumulator AccumulatorSpec ClientCommands Evict EvictSpec Aes AesSpec Auth History OutsourcedMem OutsourcedSpec OutsourcedRefine Ecall GuestSpec Lockstep.

#[export] Instance aes_errors : MemoryErrors AesError := fun _ => True.

Section guarded.
Context {H ES K : Type} `{HH : HashHistory H 32} `{EL : EvictionLaws ES Partial} `{DL : DeviceLaws K}.
Abbreviation Mem := (OutsourcedMemory H ES K).
Implicit Types m : Mem.
Variables (F : list (list Z)) (k : K).

Definition within m : bool := forallb (fun d => bool_decide (d ∈ F)) (history (hasher m)).
Lemma within_iff m : within m = true <-> history (hasher m) ⊆ F.
Proof.
  unfold within. rewrite forallb_forall. split.
  - intros Hall d Hd. apply list_elem_of_In in Hd. by apply Hall, bool_decide_eq_true in Hd.
  - intros Hs d Hd. apply bool_decide_eq_true, Hs. by apply list_elem_of_In.
Qed.
Definition beyond m : bool := negb (within m).

(** ** The history only grows *)

Abbreviation Bad := (bad_memory beyond).
Lemma beyond_grows m m' : history (hasher m) ⊆ history (hasher m') -> Bad m -> Bad m'.
Proof.
  unfold bad_memory, beyond. rewrite !negb_true_iff. intros Hs Hb. apply not_true_iff_false. intros Hw.
  apply within_iff in Hw. apply not_true_iff_false in Hb. apply Hb, within_iff. by etrans.
Qed.
Lemma modify_grows {E} `{MemoryErrors E} (f : Mem -> Mem) : (forall m, history (hasher m) ⊆ history (hasher (f m))) ->
  agree Bad (modify f : ST Mem E unit) (modify f).
Proof. intros Hf. apply agree_modify. intros m. by apply beyond_grows. Qed.
Lemma zoom_grows {E A T} `{MemoryErrors E} (view : Mem -> T) (set : T -> Mem -> Mem) (m : ST T E A) :
  (forall x s, hasher (set x s) = hasher s) -> agree Bad (zoom view set m) (zoom view set m).
Proof.
  intros Hset. apply agree_refl. intros s Hs. unfold zoom. destruct (m (view s)) as [o x]. left. cbn.
  eapply beyond_grows; [|exact Hs]. by rewrite Hset.
Qed.
Lemma page_hash_grows data nonce : agree Bad (page_hash_of data nonce) (page_hash_of (K:=K) (ES:=ES) (H:=H) data nonce).
Proof.
  apply agree_refl. intros m Hm. unfold page_hash_of, mbind, st_mbind, st_bind, get.
  destruct (get_page_hash_spec (hasher m) data nonce) as [_ E]. destruct (get_page_hash (hasher m) data nonce) as [h hs].
  left. cbn in *. eapply beyond_grows; [|exact Hm]. cbn. rewrite E. set_solver.
Qed.
Lemma feed_inclusion_grows v proof : agree Bad (feed_inclusion v proof) (feed_inclusion (K:=K) (ES:=ES) (H:=H) v proof).
Proof.
  apply agree_refl. intros m Hm. unfold feed_inclusion, mbind, st_mbind, st_bind, get.
  pose proof (inclusion_feed_all_grows (K:=K) (t:=Partial) eq_refl eq_refl proof v (hasher m)) as E. destruct (inclusion_feed_all _ _ _) as [w hs].
  left. by eapply beyond_grows.
Qed.
Lemma feed_update_grows v proof : agree Bad (feed_update v proof) (feed_update (K:=K) (ES:=ES) (H:=H) v proof).
Proof.
  apply agree_refl. intros m Hm. unfold feed_update, mbind, st_mbind, st_bind, get.
  pose proof (update_feed_all_grows (K:=K) (t:=Partial) eq_refl eq_refl proof v (hasher m)) as E. destruct (update_feed_all _ _ _) as [w hs].
  left. by eapply beyond_grows.
Qed.
Lemma request_grows msg : agree Bad (request msg) (request (K:=K) (ES:=ES) (H:=H) msg).
Proof. eapply agree_map_err; [done|]. by apply zoom_grows. Qed.
Lemma eviction_grows {A} (op : ST ES Empty_set A) : agree Bad (eviction op) (eviction (H:=H) (K:=K) op).
Proof. eapply agree_map_err; [done|]. by apply zoom_grows. Qed.
Lemma set_cached_grows s c : agree Bad (set_cached s c) (set_cached (K:=K) (ES:=ES) (H:=H) s c).
Proof.
  apply agree_refl. intros m Hm. unfold set_cached, mbind, st_mbind, st_bind, get, put, panic.
  destruct (s <? _)%nat; left; [|done]. eapply beyond_grows; [|exact Hm]. done.
Qed.
Lemma parse_grows {A} msg (o : outcome MessageDeserializationError A) :
  agree Bad (parse msg o) (parse (K:=K) (ES:=ES) (H:=H) msg o).
Proof. apply agree_lift. Qed.
Lemma check_grows b msg : agree Bad (check b msg) (check (K:=K) (ES:=ES) (H:=H) b msg).
Proof. apply agree_lift. Qed.
Lemma cached_at_grows s : agree Bad (cached_at s) (cached_at (K:=K) (ES:=ES) (H:=H) s).
Proof. unfold cached_at. agree_go. Qed.
Hint Resolve page_hash_grows feed_inclusion_grows feed_update_grows request_grows eviction_grows set_cached_grows
  parse_grows check_grows cached_at_grows : agree.
Lemma commit_continue_grows : forall fuel v np n,
  agree Bad (commit_continue fuel v np n) (commit_continue (K:=K) (ES:=ES) (H:=H) fuel v np n).
Proof. induction fuel as [|fuel IH]; intros v np n; cbn [commit_continue]; agree_go. Qed.
Lemma load_continue_grows : forall fuel v np n,
  agree Bad (load_continue fuel v np n) (load_continue (K:=K) (ES:=ES) (H:=H) fuel v np n).
Proof. induction fuel as [|fuel IH]; intros v np n; cbn [load_continue]; agree_go. Qed.
Hint Resolve commit_continue_grows load_continue_grows : agree.
Lemma commit_grows s : agree Bad (commit_page_at s) (commit_page_at (K:=K) (ES:=ES) (H:=H) s).
Proof.
  unfold commit_page_at. agree_go.
  - eapply agree_map_err; [done|]. by apply zoom_grows.
  - by apply modify_grows.
Qed.
Hint Resolve commit_grows : agree.
Lemma load_page_grows i : agree Bad (load_page i) (load_page (K:=K) (ES:=ES) (H:=H) i).
Proof.
  unfold load_page. agree_go; [unfold load_merkle|unfold load_hmac]; agree_go.
Qed.
Lemma cached_ref_grows i s : agree Bad (get_cached_page_ref i s) (get_cached_page_ref (K:=K) (ES:=ES) (H:=H) i s).
Proof. unfold get_cached_page_ref. agree_go. by apply modify_grows. Qed.
Hint Resolve load_page_grows cached_ref_grows : agree.
Lemma evict_grows : agree Bad evict (evict (K:=K) (ES:=ES) (H:=H)).
Proof. unfold evict. agree_go. Qed.
Hint Resolve evict_grows : agree.
Lemma get_page_grows i : agree Bad (outsourced_get_page i) (outsourced_get_page (K:=K) (ES:=ES) (H:=H) i).
Proof. unfold outsourced_get_page, search_page. agree_go. Qed.

Lemma beyond_get i m : beyond m = true ->
  beyond (snd (get_page i m)) = true \/ fails (fst (get_page i m)).
Proof. apply (get_page_grows i m). Qed.
Lemma beyond_write h f m : beyond m = true -> beyond (deref_mut m h f) = true.
Proof. by apply beyond_grows. Qed.

(** ** The laws *)

Abbreviation Outsourced := (@OutsourcedMemory_paged H ES K _ _ _ _).
Abbreviation Within := (guarded Outsourced beyond).

(** The memory, with the AES key [k], hashed nothing beyond [F], and stands for the pages. *)
Definition holds (b : bool) m (v : gmap Z Page) : Prop :=
  cache_ok (t:=Partial) None m /\ within m = true /\ (exists I, I ⊆ F /\ stands_for I m v) /\
  (b = true -> is_readonly m = false) /\ key (aes_ctr m) = k.

Lemma stands_pages I m v i p : stands_for I m v -> v !! i = Some p -> page_ok p.
Proof. intros [_ [acc Hc]]. by eapply ct_pages. Qed.

Hypothesis collisions : collision_free F.
Lemma within_get_page b m v i p h m' :
  holds b m v -> v !! i = Some p -> @get_page _ Within i m = (Ok h, m') ->
  holds b m' v /\ exists c, cached m' h c /\ idx c = i /\ page c = p.
Proof.
  intros (Hc & Hw & (I & HI & Hs) & Hro & Hkey) Hp Hg. cbn in Hg.
  destruct (outsourced_get_page i m) as [o m1] eqn:Eg. destruct (beyond m1) eqn:Eb; [done|].
  injection Hg as -> ->. apply negb_false_iff in Eb.
  destruct (wp_ok _ _ _ _ _ _ (wp_get_page (t:=Partial) (b:=None) eq_refl eq_refl i m _ ltac:(done) Hc (fun _ _ Hsv => Hsv)) Eg) as [Hc' Hh Hr Hk Hsv].
  destruct (Hsv I v p Hs Hp) as [Hs' Hslot].
  { eapply collision_free_sub; [|exact collisions]. apply within_iff in Eb. set_solver. }
  split; [|done]. split; [done|]. split; [done|]. split; [by exists I|].
  split; [intros Hb; rewrite Hr; by apply Hro|congruence].
Qed.

#[refine] Instance within_laws : @PagedMemoryLaws Mem Within := {| represents := holds |}.
Proof.
  - intros b m v i p (_ & _ & (I & _ & Hs) & _). by eapply stands_pages.
  - intros b m v i p h m' Hm Hi Hp Hg.
    destruct (within_get_page b m v i p h m' Hm Hp Hg) as ((Hc & Hw & (I & HI & Hs) & Hro & Hk) & c & Hslot & <- & <-).
    split; [split; [done|]; split; [done|]; split; [by exists I|done]|].
    split; [cbn; by destruct Hslot as [-> _]|]. intros f Hb Hf.
    split; [|split; [done|split; [exists I; split; [done|]|done]]].
    + apply (write_cache (b:=None)); [done|]. intros c' Hc'. destruct Hslot as [Hsl _].
      assert (Some c = Some c') as [= <-] by (by transitivity (cached_pages m' !! (h : nat))). done.
    + apply write_stands; auto.
  - intros b m v b' m' v' (Hc & Hw & (I & HI & Hl & acc & Hs) & Hro & Hk) (Hc' & _ & _ & _ & Hk').
    split; [|split; [done|split; [|split; [done|cbn; congruence]]]].
    + eapply cache_ok_frame; [exact Hc|apply Hc|done| |done..]. cbn.
      by rewrite (co_nonce _ _ Hc), (co_nonce _ _ Hc').
    + exists I. split; [done|]. split; [done|]. exists acc. eapply content_frame; [exact Hs| |done..].
      repeat split; cbn; congruence.
Defined.
End guarded.
