(* ===== verification/VappSpec.v ===== *)
(** * A V-App over a lawful memory refines the V-App over the abstract machine

    [isa_step] with the ECALL handlers over the abstract machine is the machine that a
    V-App runs on: registers, a flat memory and a client. The processor over any lawful
    memory refines it, from instruction to instruction. *)

From S2P Require Import Prelude Riscv RiscvSpec Memory MemorySpec Cpu Isa CpuSpec CpuProps Ux UxSpec Manifest ManifestSpec ClientCommands OutsourcedMem Ecall GuestSpec EcallSpec.

(** ** The machine *)

Section machine.
Context {H E : Type}.
Definition vapp_step (handler : ST (H * arch) E unit) : ST (H * arch) (CpuError E) unit :=
  s ← get;
  w ← lift (ok_or (isa_fetch (snd s)) (CpuMemoryError AddressOutOfBounds));
  let '(op, size) := decode w in
  match op with
  | Ecall =>
      map_err EcallError handler;;
      modify (fun s => (fst s, jump ((a_pc (snd s) + size) mod 2 ^ 32) (snd s)))
  | _ =>
      s' ← lift (ok_or (isa_exec op size (snd s)) (CpuGenericError "trap"));
      put (fst s, s')
  end.
Fixpoint vapp_run (handler : ST (H * arch) E unit) (n : nat) : ST (H * arch) (CpuError E) unit :=
  match n with
  | O => mret tt
  | S n => vapp_step handler;; vapp_run handler n
  end.
End machine.

(** ** The errors of the processor are not those of a handler *)

Section errors.
Context {M : Type} `{PM : PagedMemory M} {E : Type}.
Definition own_errors {S A} (m : ST S (CpuError E) A) : Prop :=
  forall s, match fst (m s) with Err (EcallError _) => False | _ => True end.

Lemma own_bind {S A B} (m : ST S (CpuError E) A) (f : A -> ST S (CpuError E) B) :
  own_errors m -> (forall a, own_errors (f a)) -> own_errors (x ← m; f x).
Proof.
  intros Hm Hf s. specialize (Hm s). unfold mbind, st_mbind, st_bind. destruct (m s) as [[] ?]; try done. apply Hf.
Qed.
Lemma own_ret {S A} (a : A) : own_errors (mret a : ST S _ A).
Proof. done. Qed.
Lemma own_zoom {S T A} (view : S -> T) (set : T -> S -> S) (m : ST T (CpuError E) A) :
  own_errors m -> own_errors (zoom view set m).
Proof. intros Hm s. specialize (Hm (view s)). unfold zoom. by destruct (m (view s)). Qed.
Lemma own_with_seg {A} id (m : ST (MemorySegment M) MemoryError A) : own_errors (with_seg id m).
Proof. apply own_zoom. intros s. unfold map_err. by destruct (m s) as [[] ?]. Qed.
Lemma own_aligned a mask msg : own_errors (aligned a mask msg : ST (Cpu M) _ unit).
Proof. intros s. unfold aligned. by destruct (negb _). Qed.
Lemma own_reg i : own_errors (reg i : ST (Cpu M) _ Z).
Proof. intros s. unfold reg, mbind, st_mbind, st_bind, get, lift. by destruct (regs s !! _). Qed.
Lemma own_set_reg i x : own_errors (set_reg i x : ST (Cpu M) _ unit).
Proof. intros s. unfold set_reg, mbind, st_mbind, st_bind, get. by destruct (i <? _). Qed.
End errors.
Create HintDb own.
Hint Resolve own_ret own_with_seg own_aligned own_reg own_set_reg : own.
Ltac own_step :=
  match goal with
  | |- own_errors (mbind _ _) => apply own_bind; [|intros ?]
  | |- own_errors (match ?x with _ => _ end) => destruct x
  | |- own_errors (zoom _ _ _) => apply own_zoom
  | |- own_errors _ => solve [auto with own nocore | done]
  end.
Ltac own_go := repeat own_step.

Section errors2.
Context {M : Type} `{PM : PagedMemory M} {E : Type}.
Lemma own_fetch : own_errors (fetch_instruction (M:=M) (E:=E)).
Proof. unfold fetch_instruction. own_go. Qed.
Lemma own_cpu_read access a : own_errors (cpu_read (M:=M) (E:=E) access a).
Proof. unfold cpu_read. own_go. Qed.
Lemma own_cpu_write access n a x : own_errors (cpu_write (M:=M) (E:=E) access n a x).
Proof. unfold cpu_write. own_go. Qed.
Hint Resolve own_cpu_read own_cpu_write : own.
Lemma own_execute_mem op : own_errors (execute_mem (M:=M) (E:=E) op).
Proof.
  destruct op; cbn [execute_mem]; unfold load_addr, lr_w, sc_w, amo, cpu_read_u8, cpu_read_u16, cpu_read_u32,
    cpu_write_u8, cpu_write_u16, cpu_write_u32; own_go.
Qed.
Hint Resolve own_execute_mem : own.
Lemma own_execute_op op size : own_errors (execute_op (M:=M) (E:=E) op size).
Proof. destruct op; cbn [execute_op]; unfold binop, immop, branch; own_go. Qed.
Lemma own_finish n : own_errors (finish (M:=M) (E:=E) n).
Proof. unfold finish. own_go. Qed.
End errors2.

(** ** One instruction, and any number of them *)

Section step.
Context {M : Type} `{PL : PagedMemoryLaws M} {t : mode} `{Serves : !PagedMemoryServes M t}.
Context {H E : Type} `{ME : MemoryErrors E} (hok : H -> Prop).
Hypothesis Herr : may_err t = true.
Abbreviation Sim := (simulates (M:=M) (t:=t) (H:=H) hok).

(** What the processor does by itself, from a specification of it. *)
Lemma sim_wp {A} (m : ST (H * Cpu M) (CpuError E) A) (m' : ST (H * arch) (CpuError E) A) (P : A -> Prop) h c s :
  own_errors m ->
  wp t m (h, c) (fun a hc => exists s1, m' (h, s) = (Ok a, (fst hc, s1)) /\ hok (fst hc) /\ sim (snd hc) s1 /\ P a) ->
  match m (h, c) with
  | (Ok a, (h1, c1)) => exists s1, m' (h, s) = (Ok a, (h1, s1)) /\ hok h1 /\ sim c1 s1 /\ P a
  | (o, (h1, _)) => shared t (fun s1 => fst s1 = h1) o (m' (h, s))
  end.
Proof using Herr.
  intros Ho Hw. specialize (Ho (h, c)). unfold wp in Hw. destruct (m (h, c)) as [[a|e| |] [h1 c1]]; [exact Hw| |by left|by left].
  left. split; [done|]. by destruct e.
Qed.

Definition execute_own (w : Z) : ST (H * Cpu M) (CpuError E) unit :=
  let '(op, size) := decode w in
  inc ← zoom snd (fun c s => (fst s, c)) (execute_op op size);
  zoom snd (fun c s => (fst s, c)) (finish inc).
Lemma own_execute w : own_errors (execute_own w).
Proof.
  unfold execute_own. destruct (decode w). apply own_bind; [apply own_zoom, own_execute_op|intros].
  apply own_zoom, own_finish.
Qed.
Lemma execute_own_eq w handler : fst (decode w) <> Ecall -> execute w (Some handler) = execute_own w.
Proof. unfold execute, execute_own. destruct (decode w) as [op size]. by destruct op. Qed.

Lemma finish_sim size : Sim (zoom snd (fun c s => (fst s, c)) (finish (M:=M) (E:=E) size))
  (modify (fun s => (fst s, jump ((a_pc (snd s) + size) mod 2 ^ 32) (snd s)))) (fun _ => True).
Proof.
  intros h c s Hh Hs. right. apply sim_wp; [apply own_zoom, own_finish|]. apply wp_zoom.
  eapply wp_mono; [apply (wp_finish c s size), Hs|]. intros [] c' Hc'. eexists. split; [done|]. done.
Qed.
Definition execute_ecall (handler : EcallHandler (M:=M) (E:=E) H) (size : Z) : ST (H * Cpu M) (CpuError E) unit :=
  inc ← (map_err EcallError handler;; mret size); zoom snd (fun c s => (fst s, c)) (finish inc).
Definition advance (size : Z) : ST (H * arch) (CpuError E) unit :=
  modify (fun s => (fst s, jump ((a_pc (snd s) + size) mod 2 ^ 32) (snd s))).
Lemma ecall_sim handler handler' size : Sim handler handler' (fun _ => True) ->
  Sim (execute_ecall handler size) (map_err EcallError handler';; advance size) (fun _ => True).
Proof.
  intros Hh h c s Hok Hs.
  pose proof (sim_bind (t:=t) hok (map_err EcallError handler) (map_err EcallError handler') (fun _ => True)
    (fun _ => zoom snd (fun c s => (fst s, c)) (finish size)) (fun _ => advance size) (fun _ => True)) as Hb.
  destruct (Hb ltac:(by eapply sim_map_err) (fun _ _ => finish_sim size) h c s Hok Hs) as [Hp|Hp]; [by left|right].
  unfold execute_ecall. unfold mbind, st_mbind, st_bind, mret, st_mret, st_ret in *.
  by destruct (map_err EcallError handler (h, c)) as [[] ?].
Qed.

(** The machine's step, once the instruction is fetched. *)
Lemma vapp_step_fetched handler' h s w op size : isa_fetch s = Some w -> decode w = (op, size) ->
  vapp_step handler' (h, s) =
    match op with
    | Ecall => (map_err EcallError handler';; advance size) (h, s)
    | _ => (s' ← lift (ok_or (isa_exec op size s) (CpuGenericError "trap")); put (h, s')) (h, s)
    end :> outcome (CpuError E) unit * (H * arch).
Proof.
  intros Hf Hd. unfold vapp_step. unfold mbind at 1, st_mbind at 1, st_bind at 1, get. cbn [fst snd]. rewrite Hf.
  cbn [ok_or]. unfold mbind at 1, st_mbind at 1, st_bind at 1, lift at 1. rewrite Hd. by destruct op.
Qed.
Lemma step_sim (handler : EcallHandler (M:=M) (E:=E) H) handler' : Sim handler handler' (fun _ => True) ->
  Sim (cpu_step (Some handler)) (vapp_step handler') (fun _ => True).
Proof.
  intros Hh h c s Hok Hs. assert (t <> Total) as Ht by (by intros ->).
  pose proof (wp_fetch (E:=E) (t:=t) c s Hs ltac:(done)) as Hf. unfold wp in Hf.
  pose proof (own_fetch (M:=M) (E:=E) c) as Ho. unfold cpu_step.
  unfold mbind, st_mbind, st_bind, zoom at 1. cbn [fst snd].
  destruct (fetch_instruction c) as [[w|e| |] c1]; [|right; left; split; [done|by destruct e]|right; by left|right; by left].
  destruct Hf as (Hs1 & Hw & w' & Hf & Hd). destruct (decode w) as [op size] eqn:Ed. symmetry in Hd.
  rewrite (vapp_step_fetched handler' h s w' op size Hf Hd). cbn [fst].
  destruct (decide (op = Ecall)) as [->|Hne].
  - replace (execute w (Some handler)) with (execute_ecall handler size) by (unfold execute; by rewrite Ed).
    by apply (ecall_sim handler handler' size Hh).
  - right. rewrite execute_own_eq by by rewrite Ed. pose proof (wp_execute (t:=t) w (Some handler) h c1 s) as Hx.
    rewrite Ed in Hx. specialize (Hx Hs1 Hw Hne ltac:(done)). rewrite execute_own_eq in Hx by by rewrite Ed.
    replace (match op with Ecall => _ | _ => _ end) with
      ((s' ← lift (ok_or (isa_exec op size s) (CpuGenericError "trap")); put (h, s')) (h, s)
        : outcome (CpuError E) unit * (H * arch)) by (by destruct op).
    apply (sim_wp (execute_own w)
      (s' ← lift (ok_or (isa_exec op size s) (CpuGenericError "trap")); put (h, s'))); [apply own_execute|].
    eapply wp_mono; [exact Hx|]. intros [] [h1 c2] (Hh1 & s' & He & Hs2). cbn in Hh1, Hs2. subst h1.
    exists s'. by rewrite He.
Qed.
Lemma run_sim (handler : EcallHandler (M:=M) (E:=E) H) handler' n : Sim handler handler' (fun _ => True) ->
  Sim (cpu_run (Some handler) n) (vapp_run handler' n) (fun _ => True).
Proof.
  intros Hh. induction n as [|n IH]; cbn [cpu_run vapp_run]; [by apply sim_ret|].
  eapply sim_bind; [by apply step_sim|done].
Qed.
End step.
