(* ===== verification/StartVapp.v ===== *)
(** * Starting a V-App ([vm/src/handlers/start_vapp.rs], [AppSW] of [vm/src/main.rs])

    [handler_start_vapp]: the manifest is parsed, validated and looked up in the store, the
    three outsourced memories are made with the caches that the heap allows, and the
    processor runs with the ECALL handler until the V-App exits or something fails. The loop
    takes a number of instructions as fuel.

    Parameters are the decoder of the manifest (postcard), the random AES key, the size of
    the heap and the size of a cached page (of the build). Each memory, and the handler, has
    its own view of the channel: the requests that it makes and their answers. *)

From S2P Require Import Prelude Ux Memory Cpu Accumulator ClientCommands Evict Aes Auth OutsourcedMem Manifest Ecall.

(** ** Status words *)

Module AppSW.
Inductive t : Type :=
| Deny
| StoreFull
| IncorrectData
| WrongP1P2
| InsNotSupported
| ClaNotSupported
| SignatureFail
| KeyDeriveFail
| VersionParsingFail
| InterruptedExecution
| WrongApduLength
| VMRuntimeError
| VAppPanic
| DecodingFailed
| Ok.
End AppSW.

(** ** Box<dyn PageEvictionStrategy> *)

Inductive AnyStrategy : Type :=
| Lru (s : LruEvictionStrategy)
| TwoQ (s : TwoQEvictionStrategy).
Definition on_strategy {A} (lru : ST LruEvictionStrategy Empty_set A)
    (twoq : ST TwoQEvictionStrategy Empty_set A) : ST AnyStrategy Empty_set A :=
  fun s =>
    match s with
    | Lru s => let '(o, s) := lru s in (o, Lru s)
    | TwoQ s => let '(o, s) := twoq s in (o, TwoQ s)
    end.
#[export] Instance any_strategy : PageEvictionStrategy AnyStrategy := {
  on_access := fun i p => on_strategy (on_access i p) (on_access i p);
  on_load := fun i p => on_strategy (on_load i p) (on_load i p);
  choose_victim := on_strategy choose_victim choose_victim;
  on_invalidate := fun i p => on_strategy (on_invalidate i p) (on_invalidate i p);
}.

(** ** The sizes of the caches *)

Definition BASE_CODE_PAGES : Z := 24.
Definition BASE_DATA_PAGES : Z := 8.
Definition BASE_STACK_PAGES : Z := 8.
(** [vm/build.rs]: the smallest heap size, tailored for Nano X. *)
Definition BASE_HEAP_SIZE : Z := 13824.

(** The pages of the code, data and stack caches. *)
Definition cache_sizes (HEAP_SIZE CACHED_PAGE_SIZE : Z) : outcome AppSW.t (Z * Z * Z) :=
  assert_or_panic (BASE_HEAP_SIZE <=? HEAP_SIZE);;
  let n_additional_pages := (HEAP_SIZE - BASE_HEAP_SIZE) / CACHED_PAGE_SIZE in
  let n_additional_data_pages := n_additional_pages / 6 in
  let n_additional_stack_pages := n_additional_pages / 6 in
  let n_additional_code_pages := n_additional_pages - n_additional_data_pages - n_additional_stack_pages in
  Ok (BASE_CODE_PAGES + n_additional_code_pages, BASE_DATA_PAGES + n_additional_data_pages,
      BASE_STACK_PAGES + n_additional_stack_pages).

(** ** The state of the VM between two V-Apps *)

Record Vm (D : Type) : Type := mkVm {
  vm_comm : Comm;
  vm_store : Store;
  vm_last_event : option (EventCode * list Z);
  vm_events : list DeviceEvent;
  vm_device : D;
}.
Arguments mkVm {D}.
Arguments vm_comm {D} v.
Arguments vm_store {D} v.
Arguments vm_last_event {D} v.
Arguments vm_events {D} v.
Arguments vm_device {D} v.

(** The views of the channel of the three memories. *)
Record Channels : Type := mkChannels { code_comm : Comm; data_comm : Comm; stack_comm : Comm }.

(** [Result::unwrap]. *)
Definition unwrap_ok {E F A} (o : outcome E A) : outcome F A :=
  match o with Ok a => Ok a | Err _ => Panic | Panic => Panic | Diverge => Diverge end.
(** The [Result] of a call as a value. *)
Definition attempt {S E F A} (m : ST S E A) : ST S F (outcome E A) :=
  fun s =>
    match m s with
    | (Panic, s) => (Panic, s)
    | (Diverge, s) => (Diverge, s)
    | (o, s) => (Ok o, s)
    end.

(** ** The processor that runs *)

Section loop.
Context {M : Type} `{PM : PagedMemory M} {D : Type} `{SY : Sys D} `{HP : Heap} (target : Target).
Abbreviation State := (CommEcallHandler D * Cpu M)%type.

(** The [loop], for at most [fuel] instructions. *)
Fixpoint main_loop (fuel : nat) : ST State AppSW.t (list Z) :=
  match fuel with
  | O => diverge
  | S fuel =>
      instr ← map_err (fun _ : CpuError CommEcallError => AppSW.VMRuntimeError)
        (zoom snd (fun c s => (fst s, c)) fetch_instruction);
      result ← attempt (execute instr (Some (handle_ecall target)));
      match result with
      | Err (EcallError (EcExit status)) => mret (be_bytes 4 (w32 status))
      | Err (EcallError EcPanic) => fail AppSW.VAppPanic
      | Err (EcallError _) => fail AppSW.VMRuntimeError
      | Err (CpuMemoryError _) => fail AppSW.VMRuntimeError
      | Err (CpuGenericError _) => fail AppSW.VMRuntimeError
      | _ => main_loop fuel
      end
  end.
End loop.

Section start.
Context {H K D : Type} `{RH : ResettableHasher H} `{DV : Device K} `{SY : Sys D} `{HP : Heap} (target : Target).
Context (take_manifest : list Z -> option (Manifest * list Z)) (new_random : option K).
Context (HEAP_SIZE CACHED_PAGE_SIZE : Z).
Abbreviation Mem := (OutsourcedMemory H AnyStrategy K).
Abbreviation State := (CommEcallHandler D * Cpu Mem)%type.

(** What comes before the check of the store. *)
Definition parse_manifest (data_raw : list Z) : outcome AppSW.t Manifest :=
  '(manifest, rest) ← ok_or (take_manifest data_raw) AppSW.IncorrectData;
  guard_err (negb (Nat.eqb (length rest) 0)) AppSW.IncorrectData;;
  outcome_map_err (fun _ => AppSW.IncorrectData) (validate manifest);;
  Ok manifest.

(** A memory and its segment. *)
Definition new_segment (comm : Comm) (n_cache_pages : Z) (is_readonly : bool) (kind : SectionKind)
    (start end_ n_pages : Z) (root : HashOutput) (aes : AesCtr K) (strategy : AnyStrategy) (vapp_hash : list Z)
    : outcome AppSW.t (MemorySegment Mem) :=
  unwrap_ok (segment_new start (u32_sub end_ start)
    (outsourced_new comm (Z.to_nat n_cache_pages) is_readonly kind n_pages root aes
       strategy vapp_hash)).

(** [CommEcallHandler::new]: the event that the last V-App left is still there. *)
Definition handler_new (vapp_hash : list Z) (n_storage_slots : Z) (vm : Vm D)
    : outcome AppSW.t (CommEcallHandler D) :=
  assert_or_panic (n_storage_slots <=? MAX_STORAGE_SLOTS);;
  Ok (mkHandler (vm_comm vm) (vm_store vm) vapp_hash n_storage_slots (vm_last_event vm) (vm_events vm)
        (vm_device vm)).

Definition setup (manifest : Manifest) (vapp_hash : list Z) (channels : Channels) (vm : Vm D)
    : outcome AppSW.t State :=
  k ← ok_or new_random AppSW.VMRuntimeError;
  let aes_ctr := aes_new k in
  '(n_code_cache_pages, n_data_cache_pages, n_stack_cache_pages) ← cache_sizes HEAP_SIZE CACHED_PAGE_SIZE;
  two_q ← outcome_map_err (fun e : Empty_set => match e with end)
    (twoq_new n_code_cache_pages (n_code_cache_pages / 4) (n_code_cache_pages / 2));
  code_seg ← new_segment (code_comm channels) n_code_cache_pages true Code (code_start manifest)
    (code_end manifest) (n_code_pages manifest) (code_merkle_root manifest) aes_ctr (TwoQ two_q) vapp_hash;
  data_seg ← new_segment (data_comm channels) n_data_cache_pages false Data (data_start manifest)
    (data_end manifest) (n_data_pages manifest) (data_merkle_root manifest) aes_ctr (Lru (lru_new (Z.to_nat n_data_cache_pages))) vapp_hash;
  stack_seg ← new_segment (stack_comm channels) n_stack_cache_pages false Stack (stack_start manifest)
    (stack_end manifest) (n_stack_pages manifest) (stack_merkle_root manifest) aes_ctr (Lru (lru_new (Z.to_nat n_stack_cache_pages)))
    vapp_hash;
  let cpu := cpu_new (entrypoint manifest) code_seg data_seg stack_seg in
  let cpu := set_regs (<[2%nat := Z.land (u32_sub (stack_end manifest) 4) (u32_not 3)]> (regs cpu)) cpu in
  assert_or_panic (pc cpu mod 2 =? 0);;
  ecall_handler ← handler_new vapp_hash (n_storage_slots manifest) vm;
  Ok (ecall_handler, cpu).

Definition vm_after (h : CommEcallHandler D) : Vm D :=
  mkVm (hcomm h) (hstore h) (last_event h) (events h) (device_state h).
Definition handler_start_vapp (fuel : nat) (channels : Channels) (data_raw : list Z)
    : ST (Vm D) AppSW.t (list Z) :=
  manifest ← lift (parse_manifest data_raw);
  let vapp_hash := get_vapp_hash (H:=H) manifest in
  vm ← get;
  if negb (is_registered vapp_hash (vm_store vm)) then fail AppSW.SignatureFail
  else
    state ← lift (setup manifest vapp_hash channels vm);
    let '(result, (h, _)) := main_loop target fuel state in
    put (vm_after h);;
    lift result.
End start.
