(* ===== verification/ConcreteSys.v ===== *)
(** * A concrete operating system, to evaluate the ECALL handlers

    Every function fills its buffer with a digest of its arguments, and succeeds. *)

From S2P Require Import Prelude Ux Concrete Ecall EcallSpec.

(** [n] bytes that depend on the arguments. *)
Definition fill (n : nat) (args : list (list Z)) : list Z :=
  map (fun i => w8 (mix (concat args) + Z.of_nat i)) (seq 0 n).
Definition succeeds_with (n : nat) (args : list (list Z)) : Z * list Z := (0, fill n args).

#[export] Instance toy_sys : Sys unit := {
  CX_OK := 0;
  CX_EC_INFINITE_POINT := 7;
  CX_RIPEMD160 := 1;
  CX_SHA256 := 3;
  CX_SHA512 := 5;
  CX_KECCAK := 6;
  CX_SHA3 := 8;
  sizeof_ripemd160 := 108;
  sizeof_sha256 := 124;
  sizeof_sha512 := 224;
  sizeof_sha3 := 384;
  cx_math_modm_no_throw := fun r m => succeeds_with (length r) [r; m];
  cx_math_addm_no_throw := fun a b m => succeeds_with (length a) [a; b; m];
  cx_math_subm_no_throw := fun a b m => succeeds_with (length a) [a; b; m];
  cx_math_multm_no_throw := fun a b m => succeeds_with (length a) [a; b; m];
  cx_math_invprimem_no_throw := fun a p => succeeds_with (length a) [a; p];
  cx_math_powm_no_throw := fun a e m => succeeds_with (length a) [a; e; m];
  cx_hash_init_ex := fun c i n => succeeds_with (length c) [c; [i; n]];
  cx_hash_update := fun c d => succeeds_with (length c) [c; d];
  cx_hash_final := fun c => succeeds_with 64 [c];
  os_perso_derive_node_bip32 := fun c p => (fill 32 [[c]; p], fill 32 [p; [c]]);
  cx_ecfp_init_private_key_no_throw := fun c k => (0, k);
  cx_ecfp_generate_pair_no_throw := fun c k => (0, (fill 65 [[c]; k], 65));
  sdk_sha256 := fun d => fill 32 [d];
  sdk_ripemd160 := fun d => fill 20 [d];
  os_perso_derive_node_with_seed_key := fun l => fill 64 [l];
  hmac_sha512 := fun k d => fill 64 [k; d];
  cx_ecfp_add_point_no_throw := fun c p q => succeeds_with 65 [[c]; p; q];
  cx_ecfp_scalar_mult_no_throw := fun c p k => succeeds_with 65 [[c]; p; k];
  cx_rng_no_throw := fun d n => (fill n [], d);
  cx_ecdsa_sign_no_throw := fun k m i d => (0, (fill 72 [k; [m; i]; d], 70));
  cx_ecdsa_verify_no_throw := fun k d s => true;
  cx_ecschnorr_sign_no_throw := fun d k m i x s => ((0, (fill 64 [k; [m; i]; x; s], 64)), d);
  cx_ecschnorr_verify := fun k m i d s => true;
  show_page := fun p d => (Ok tt, d);
  show_step := fun s d => (Ok tt, d);
}.

Lemma fill_ok n args : out_ok n (fill n args).
Proof.
  split; [unfold fill; by rewrite length_map, length_seq|]. apply Forall_map, Forall_forall. intros i _.
  apply wrap_range. lia.
Qed.
#[export] Instance toy_sys_laws : SysLaws unit.
Proof. split; intros; try (cbn; lia); try apply fill_ok. Qed.
