(* ===== verification/VappRefine.v ===== *)
(** * A V-App over outsourced memories runs as on the abstract machine

    The memories that [handler_start_vapp] makes stand for the initial contents of the
    segments that the manifest describes, and the processor over them refines the abstract
    machine with those contents, under the same ECALL handlers, answers and system. The
    run may stop with an error at any time; what it did until then is what the machine
    does. The premises are that the messages hashed do not collide, that the client holds no
    HMAC of a wrong page of code, and that no ECALL writes to the code. *)

From S2P Require Import Prelude Riscv RiscvSpec Memory MemorySpec Cpu Isa CpuSpec CpuProps Ux UxSpec Manifest ManifestSpec Accumulator AccumulatorSpec ClientCommands Evict EvictSpec Aes AesSpec Auth History OutsourcedMem OutsourcedSpec OutsourcedRefine ClientMemory ClientMemorySpec Accesses Ecall GuestSpec EcallSpec Lockstep GuardedMem VappSpec StartVapp Concrete ConcreteSys.

(** ** The strategies behind the trait object *)

Definition any_tracks (bg : budget) (s : AnyStrategy) (n : nat) (L : gset nat) : Prop :=
  match s with
  | Lru s => tracks (t:=Partial) bg s n L
  | TwoQ s => tracks (t:=Partial) bg s n L
  end.
Lemma wp_on_strategy {A} (lru : ST LruEvictionStrategy Empty_set A) twoq s (Q : A -> AnyStrategy -> Prop) :
  match s with
  | Lru s => wp Partial lru s (fun a s => Q a (Lru s))
  | TwoQ s => wp Partial twoq s (fun a s => Q a (TwoQ s))
  end -> wp Partial (on_strategy lru twoq) s Q.
Proof.
  unfold wp, on_strategy. destruct s as [s|s]; [destruct (lru s) as [[] ?]|destruct (twoq s) as [[] ?]]; done.
Qed.
#[export, refine] Instance any_laws : EvictionLaws AnyStrategy Partial := { tracks := any_tracks }.
Proof.
  - intros bg [s|s] n L Ht; by apply (spend_ok (t:=Partial)).
  - intros bg [s|s] n L i p Hb Ht Hi; apply wp_on_strategy; by apply (access_ok (t:=Partial)).
  - intros bg [s|s] n L i p Hb Ht Hi Hn; apply wp_on_strategy; by apply (load_ok (t:=Partial)).
  - intros bg [s|s] n L Hb Ht Hn Hf; apply wp_on_strategy; by apply (victim_ok (t:=Partial)).
  - intros bg [s|s] n L i p Ht Hi; apply wp_on_strategy; by apply (invalidate_ok (t:=Partial)).
Defined.

(** ** How the main loop ends *)

Definition conclude (e : CpuError CommEcallError) : outcome AppSW.t (list Z) :=
  match e with
  | EcallError (EcExit status) => Ok (be_bytes 4 (w32 status))
  | EcallError EcPanic => Err AppSW.VAppPanic
  | _ => Err AppSW.VMRuntimeError
  end.
Definition conclusion (o : outcome (CpuError CommEcallError) unit) : outcome AppSW.t (list Z) :=
  match o with Ok _ => Diverge | Err e => conclude e | Panic => Panic | Diverge => Diverge end.
Definition concluded {S} (m : ST S (CpuError CommEcallError) unit) : ST S AppSW.t (list Z) :=
  fun s => let '(o, s) := m s in (conclusion o, s).

Section loop.
Context {M : Type} `{PM : PagedMemory M} {D : Type} `{SY : Sys D} `{HP : Heap} (target : Target).
(** The main loop is the run of the processor, and its end. *)
Lemma main_loop_run fuel : forall s : CommEcallHandler D * Cpu M,
  main_loop target fuel s = concluded (cpu_run (Some (handle_ecall target)) fuel) s.
Proof.
  induction fuel as [|fuel IH]; intros [h c]; [done|]. cbn [main_loop cpu_run]. unfold cpu_step, concluded.
  pose proof (own_fetch (M:=M) (E:=CommEcallError) c) as Ho.
  unfold mbind, st_mbind, st_bind, map_err, zoom. cbn [fst snd]. destruct (fetch_instruction c) as [[w|e| |] c1]; try done.
  - cbn [outcome_map_err]. unfold attempt. destruct (execute w _ (h, c1)) as [[[]|e| |] s1]; try done.
    by destruct e as [[]| |].
  - cbn. by destruct e.
Qed.
End loop.

(** ** The abstract machine that a V-App starts on *)

Definition region_of (start : Z) (data : list Z) : region :=
  mkRegion start (Z.of_nat (length data)) (fun a => if start <=? a then data !! Z.to_nat (a - start) else None).
(** The stack pointer is the last multiple of 4 at most 4 bytes before the end. *)
Definition arch_start (m : Manifest) (code data stack : list Z) : arch :=
  mkArch (entrypoint m) (fun r => if r =? 2 then 4 * ((stack_end m - 4) / 4) else 0)
    (fun id => match id with
               | CodeSeg => region_of (code_start m) code
               | DataSeg => region_of (data_start m) data
               | StackSeg => region_of (stack_start m) stack
               end) None.

Lemma log2_up_of_nat k : Z.log2_up (Z.of_nat k) = Z.of_nat (Nat.log2_up k).
Proof.
  destruct (Nat.le_gt_cases k 1).
  { rewrite Z.log2_up_eqn0, Nat.log2_up_eqn0 by lia. done. }
  pose proof (Nat.log2_up_spec k ltac:(lia)) as [H1 H2]. pose proof (Nat.log2_up_pos k ltac:(lia)).
  apply Z.log2_up_unique; [lia|]. change 2 with (Z.of_nat 2). rewrite <- Nat2Z.inj_pred, <- !Nat2Z.inj_pow by lia. lia.
Qed.

Section start.
Variables (start : Z) (data : list Z).
Hypothesis (Hs : 0 <= start) (He : start + Z.of_nat (length data) <= 2 ^ 32 - 256) (Hne : data <> []).

Lemma initial_flat a : start <= a < start + Z.of_nat (length data) ->
  flat start (pages_from 0 (initial_pages start data)) a = data !! Z.to_nat (a - start).
Proof using Hs He.
  intros Ha. pose proof (initial_size_bounds start data Hs He) as [Hsz _].
  pose proof (page_start_start start data Hs He) as Eps. unfold flat. rewrite lookup_pages_from, Eps.
  assert (0 <= (a - 256 * (start / 256)) / 256 < page_count start (Z.of_nat (length data))) as Hi.
  { unfold page_count. destruct (Z.eqb_spec (Z.of_nat (length data)) 0); dlia. }
  rewrite decide_True, Z.sub_0_r by lia. unfold initial_pages. rewrite list_lookup_fmap, lookup_seq_lt by lia.
  cbn [fmap option_fmap option_map mbind option_bind]. unfold initial_page.
  pose proof (Z.mod_pos_bound (a - 256 * (start / 256)) 256 ltac:(lia)).
  rewrite list_lookup_fmap, lookup_seq_lt by lia. cbn. rewrite Eps, Z2Nat.id, Z2Nat.id by lia.
  replace (_ + _) with a by dlia. unfold initial_byte. rewrite (proj2 (Z.ltb_ge _ _)) by lia.
  destruct (lookup_lt_is_Some_2 data (Z.to_nat (a - start))) as [b Hb]; [lia|].
  rewrite Hb. f_equal. by apply nth_lookup_Some.
Qed.
Lemma initial_covered a : start <= a < start + Z.of_nat (length data) ->
  is_Some (pages_from 0 (initial_pages start data) !! ((a - page_start start) / 256)).
Proof using Hs He.
  intros Ha. pose proof (initial_flat a Ha) as Hf. unfold flat in Hf.
  destruct (pages_from 0 _ !! _); [by eexists|]. symmetry in Hf. apply lookup_ge_None in Hf. lia.
Qed.

(** The manifest counts the pages that the client makes, before the padding. *)
Lemma initial_n_pages end_ : end_ = start + Z.of_nat (length data) ->
  checked_next_power_of_two (n_pages_of start end_) = Some (Z.of_nat (initial_size start data)).
Proof using Hs He Hne.
  intros ->. pose proof (initial_size_bounds start data Hs He) as [_ Hsz].
  assert (0 < Z.of_nat (length data)) by (destruct data; [done|cbn; lia]).
  assert (n_pages_of start (start + Z.of_nat (length data)) = page_count start (Z.of_nat (length data))) as ->.
  { unfold n_pages_of, page_count, u32_add, u32_sub. rewrite (proj2 (Z.eqb_neq _ _)) by lia.
    rewrite (w32_small (_ - 1)) by lia. rewrite !page_start_eq by lia.
    rewrite (w32_small (256 * _ - _)) by dlia. unfold PAGE_SIZE. rewrite w32_small by dlia. dlia. }
  unfold checked_next_power_of_two, initial_size in *. pose proof (page_count_nonneg start data).
  set (n := page_count _ _) in *. assert (2 ^ Z.log2_up n = Z.of_nat (2 ^ Nat.log2_up (Z.to_nat n))) as ->.
  { rewrite Nat2Z.inj_pow. f_equal. rewrite <- (Z2Nat.id n) at 1 by lia.
    apply log2_up_of_nat. }
  rewrite (proj2 (Z.ltb_lt _ _)) by lia. done.
Qed.
End start.

(** ** The processor as it starts *)

(** A section of the V-App: its bytes, the memory that the client makes of them, and the
    root of that memory. *)
Record section_ok {H} `{RH : ResettableHasher H} (start end_ : Z) (root : HashOutput) (data : list Z)
    (client : ClientSegment) : Prop := {
  sec_start : 0 <= start;
  sec_low : 4 <= end_;
  sec_end : end_ <= 2 ^ 32 - 256;
  sec_length : Z.of_nat (length data) = end_ - start;
  sec_bytes : bytes_ok data;
  sec_new : client_new (H:=H) start data = Ok client;
  sec_root : get_content_root client = Ok root;
}.

Section within.
Context {H K : Type} `{HH : HashHistory H 32} `{DL : DeviceLaws K}.
Abbreviation Mem := (OutsourcedMemory H AnyStrategy K).
Variables (F : list (list Z)) (k : K).
Hypothesis collisions : collision_free (H:=H) F.
Abbreviation Within := (guarded (@OutsourcedMemory_paged H AnyStrategy K _ _ _ _) (beyond F)).
Abbreviation Laws := (within_laws F k collisions).
Implicit Types seg : MemorySegment Mem.

Lemma new_segment_ok comm slots ro kind start end_ n root aes strat vh seg data client :
  new_segment (H:=H) (K:=K) comm slots ro kind start end_ n root aes strat vh = Ok seg ->
  section_ok (H:=H) start end_ root data client ->
  seg = mkMemorySegment start (end_ - start)
    (outsourced_new comm (Z.to_nat slots) ro kind n root aes strat vh) /\ seg_ok seg /\ data <> [].
Proof.
  intros Hn [S1 S2 S3 S4 _ _ _]. unfold new_segment, segment_new in Hn. unfold u32_sub in Hn.
  rewrite (w32_small (end_ - start)) in Hn by lia.
  destruct (Z.eqb_spec (end_ - start) 0); [done|]. destruct (Z.eqb_spec (start mod 2) 0); [|done]. cbn in Hn.
  destruct (u32_checked_add _ _); [|done]. injection Hn as <-. split; [done|].
  split; [split; cbn; lia|]. by intros ->; cbn in *; lia.
Qed.

Lemma new_segment_sim comm slots ro kind start end_ root strat vh seg data client :
  new_segment (H:=H) (K:=K) comm slots ro kind start end_ (n_pages_of start end_) root (aes_new k) strat vh = Ok seg ->
  section_ok (H:=H) start end_ root data client -> acc_messages (ClientMemory.content client) ⊆ F ->
  within F (paged_memory seg) = true -> bytes_tape comm -> 0 < slots -> any_tracks None strat (Z.to_nat slots) ∅ ->
  (kind = Code -> ro = true /\ hmac_genuine (paged_memory seg) (Accumulator.data (ClientMemory.content client))) ->
  @seg_sim Mem Within Laws (negb ro) seg (region_of start data).
Proof.
  intros Hn Hsec HF Hw Htape Hslots Ht Hk. destruct (new_segment_ok _ _ _ _ _ _ _ _ _ _ _ _ _ _ Hn Hsec) as (-> & Hok & Hne).
  destruct Hsec as [S1 S2 S3 S4 S5 S6 S7]. cbn [paged_memory] in *.
  destruct (client_new_spec (H:=H) start data S1 ltac:(lia)) as (acc & E & Hacc & Hd). rewrite S6 in E. injection E as ->.
  cbn [ClientMemory.content] in *. pose proof (initial_n_pages start data S1 ltac:(lia) Hne end_ ltac:(lia)) as Hnp.
  split; [done|done|cbn; lia|]. exists (pages_from 0 (initial_pages start data)). cbn [start_address paged_memory]. split; [|split].
  - split; [|split; [done|split; [|split; [|done]]]].
    + apply new_cache_ok; [lia|done|by rewrite Hnp|done|done].
    + exists (acc_messages acc). split; [done|]. split; [apply new_last|]. exists acc.
      eapply new_content; try done. lia.
    + intros Hb. by apply negb_true_iff in Hb.
  - intros a [Ha1 Ha2]. cbn in Ha1, Ha2. apply initial_covered; lia.
  - intros a [Ha1 Ha2]. cbn in Ha1, Ha2 |- *. rewrite initial_flat by lia. by rewrite (proj2 (Z.leb_le _ _)).
Qed.
End within.

(** ** The V-App *)

Record vm_ok {D} (vm : Vm D) : Prop := {
  vo_tape : bytes_tape (vm_comm vm);
  vo_store : store_ok (vm_store vm);
  vo_event : event_ok (vm_last_event vm);
  vo_events : Forall (fun e => event_ok (stored_event e)) (vm_events vm);
}.
Definition channels_ok (c : Channels) : Prop :=
  bytes_tape (code_comm c) /\ bytes_tape (data_comm c) /\ bytes_tape (stack_comm c).

Section vapp.
Context {H K D : Type} `{HH : HashHistory H 32} `{DL : DeviceLaws K} `{SL : SysLaws D} `{HP : Heap} (target : Target).
Context (new_random : option K) (HEAP_SIZE CACHED_PAGE_SIZE : Z).
Abbreviation Mem := (OutsourcedMemory H AnyStrategy K).
Implicit Types (c : Cpu Mem) (h : CommEcallHandler D) (m : Manifest).
Abbreviation Setup := (setup (H:=H) new_random HEAP_SIZE CACHED_PAGE_SIZE).

(** What was hashed for the three roots, and by the three memories. *)
Definition hashed_by c (clients : seg_id -> ClientSegment) : list (list Z) :=
  let of_seg id := acc_messages (ClientMemory.content (clients id)) ++ history (hasher (paged_memory (seg_of id c))) in
  of_seg CodeSeg ++ of_seg DataSeg ++ of_seg StackSeg.
Lemma hashed_by_sub c clients id :
  acc_messages (ClientMemory.content (clients id)) ⊆ hashed_by c clients /\
  history (hasher (paged_memory (seg_of id c))) ⊆ hashed_by c clients.
Proof. unfold hashed_by. destruct id; (split; intros x Hx; rewrite !elem_of_app; tauto). Qed.

(** The sections of a manifest. *)
Definition sections_ok m (bytes : seg_id -> list Z) (clients : seg_id -> ClientSegment) : Prop :=
  section_ok (H:=H) (code_start m) (code_end m) (code_merkle_root m) (bytes CodeSeg) (clients CodeSeg) /\
  section_ok (H:=H) (data_start m) (data_end m) (data_merkle_root m) (bytes DataSeg) (clients DataSeg) /\
  section_ok (H:=H) (stack_start m) (stack_end m) (stack_merkle_root m) (bytes StackSeg) (clients StackSeg).

Lemma cache_sizes_pos nc nd ns : 0 < CACHED_PAGE_SIZE -> cache_sizes HEAP_SIZE CACHED_PAGE_SIZE = Ok (nc, nd, ns) ->
  24 <= nc /\ 8 <= nd /\ 8 <= ns.
Proof.
  unfold cache_sizes, assert_or_panic, BASE_CODE_PAGES, BASE_DATA_PAGES, BASE_STACK_PAGES. intros Hc.
  destruct (Z.leb_spec BASE_HEAP_SIZE HEAP_SIZE); [|done]. intros [= <- <- <-].
  assert (0 <= (HEAP_SIZE - BASE_HEAP_SIZE) / CACHED_PAGE_SIZE) by (apply Z.div_pos; lia). dlia.
Qed.

Record started m (vh : list Z) (channels : Channels) (vm : Vm D) h c (k : K) : Prop := {
  st_handler : h = mkHandler (vm_comm vm) (vm_store vm) vh (n_storage_slots m) (vm_last_event vm) (vm_events vm) (vm_device vm);
  st_pc : pc c = entrypoint m;
  st_regs : regs c = <[2%nat := Z.land (u32_sub (stack_end m) 4) (u32_not 3)]> (replicate 32 0);
  st_res : reservation_addr c = None;
  st_code : exists n strat, new_segment (H:=H) (code_comm channels) n true Code (code_start m) (code_end m)
    (n_code_pages m) (code_merkle_root m) (aes_new k) strat vh = Ok (code_seg c) /\ 0 < n /\ any_tracks None strat (Z.to_nat n) ∅;
  st_data : exists n strat, new_segment (H:=H) (data_comm channels) n false Data (data_start m) (data_end m)
    (n_data_pages m) (data_merkle_root m) (aes_new k) strat vh = Ok (data_seg c) /\ 0 < n /\ any_tracks None strat (Z.to_nat n) ∅;
  st_stack : exists n strat, new_segment (H:=H) (stack_comm channels) n false Stack (stack_start m) (stack_end m)
    (n_stack_pages m) (stack_merkle_root m) (aes_new k) strat vh = Ok (stack_seg c) /\ 0 < n /\ any_tracks None strat (Z.to_nat n) ∅;
}.
Lemma setup_inv m vh channels vm h c : 0 < CACHED_PAGE_SIZE -> Setup m vh channels vm = Ok (h, c) ->
  exists k, started m vh channels vm h c k.
Proof.
  intros Hcp. unfold setup. destruct new_random as [k|]; [cbn [ok_or mbind outcome_mbind outcome_bind]|done].
  destruct (cache_sizes _ _) as [[[nc nd] ns]|e| |] eqn:Ecs; try done.
  destruct (cache_sizes_pos _ _ _ Hcp Ecs) as (Hnc & Hnd & Hns). cbn [mbind outcome_mbind outcome_bind].
  destruct (twoq_new nc _ _) as [tq|e| |] eqn:Etq; try done. cbn [outcome_map_err mbind outcome_mbind outcome_bind].
  destruct (new_segment (code_comm channels) _ _ _ _ _ _ _ _ _ _) as [cs|e| |] eqn:Ec; try done.
  cbn [mbind outcome_mbind outcome_bind].
  destruct (new_segment (data_comm channels) _ _ _ _ _ _ _ _ _ _) as [ds|e| |] eqn:Ed; try done.
  cbn [mbind outcome_mbind outcome_bind].
  destruct (new_segment (stack_comm channels) _ _ _ _ _ _ _ _ _ _) as [ss|e| |] eqn:Es; try done.
  cbn [mbind outcome_mbind outcome_bind]. unfold assert_or_panic, handler_new.
  destruct (_ =? 0); [|done]. cbn. destruct (_ <=? _); [|done]. intros [= <- <-]. exists k.
  split; try done; eexists _, _; (split; [eassumption|split; [lia|]]).
  - apply twoq_new_slots with (a1 := nc / 4) (out := nc / 2). by rewrite Z2Nat.id by lia.
  - apply lru_tracks_new.
  - apply lru_tracks_new.
Qed.
(** The processor starts as the abstract machine. *)
Lemma land_not_3 x : is_u32 x -> Z.land x (u32_not 3) = 4 * (x / 4).
Proof.
  intros Hx. change (u32_not 3) with (0 + 2 ^ 2 * (2 ^ 30 - 1)).
  replace x with (x mod 4 + 2 ^ 2 * (x / 4)) at 1 by dlia.
  rewrite land_split by dlia. rewrite Z.land_0_r, land_mask by lia.
  rewrite Z.mod_small; [lia|]. destruct Hx. dlia.
Qed.

Variables (bytes : seg_id -> list Z) (clients : seg_id -> ClientSegment) (F : list (list Z)).
Hypothesis collisions : collision_free (H:=H) F.
Abbreviation Outsourced := (@OutsourcedMemory_paged H AnyStrategy K _ _ _ _).
Abbreviation Within := (guarded Outsourced (beyond F)).
Abbreviation Laws k := (within_laws F k collisions).
Abbreviation start_of m := (arch_start m (bytes CodeSeg) (bytes DataSeg) (bytes StackSeg)).

Lemma validate_entry m : validate m = Ok tt -> code_start m <= entrypoint m < code_end m.
Proof. intros Hv%validate_ok. apply (vm_entry _ Hv). Qed.
Lemma start_sim m vh channels vm h c k : started m vh channels vm h c k -> validate m = Ok tt ->
  sections_ok m bytes clients -> channels_ok channels ->
  (forall id, acc_messages (ClientMemory.content (clients id)) ⊆ F) ->
  (forall id, within F (paged_memory (seg_of id c)) = true) ->
  hmac_genuine (paged_memory (code_seg c)) (Accumulator.data (ClientMemory.content (clients CodeSeg))) ->
  @sim Mem Within (Laws k) c (start_of m).
Proof.
  intros [S1 S2 S3 S4 (n1 & e1 & S5 & P1 & T1) (n2 & e2 & S6 & P2 & T2) (n3 & e3 & S7 & P3 & T3)]
    Hv (X1 & X2 & X3) (C1 & C2 & C3) HF Hw Hg.
  pose proof (validate_entry m Hv) as He. pose proof X1 as [A1 A2 A3 _ _ _ _]. pose proof X3 as [B1 B2 B3 B4 _ _ _].
  assert (u32_sub (stack_end m) 4 = stack_end m - 4) as Esp by (unfold u32_sub; rewrite w32_small; lia).
  assert (is_u32 (stack_end m - 4)) as Hsp by (split; lia).
  split; [|by rewrite S3]. split.
  - done.
  - rewrite S2. split; lia.
  - by rewrite S3, length_insert.
  - rewrite S3, Esp, land_not_3 by done. apply Forall_insert; [by apply Forall_replicate|]. split; dlia.
  - done.
  - intros r Hr. rewrite S3, Esp, land_not_3 by done. cbn [arch_start a_reg].
    destruct (Z.eqb_spec r 2) as [->|Hne]; [done|].
    rewrite list_lookup_insert_ne by lia. apply lookup_replicate. lia.
  - by rewrite S4.
  - done.
  - intros [].
    + eapply (new_segment_sim F k collisions) with (ro := false); [exact S7|exact X3|apply HF|apply (Hw StackSeg)|done..].
    + eapply (new_segment_sim F k collisions) with (ro := false); [exact S6|exact X2|apply HF|apply (Hw DataSeg)|done..].
    + eapply (new_segment_sim F k collisions) with (ro := true); [exact S5|exact X1|apply HF|apply (Hw CodeSeg)|done..].
Qed.
(** A step of the processor over the memories is one over the memories that stop. *)
Abbreviation Stop := (beyond (H:=H) (ES:=AnyStrategy) (K:=K) F).
Lemma beyond_share (m2 m1 : Mem) : Stop m2 = true -> Stop (@share Mem Outsourced m1 m2) = true.
Proof. done. Qed.
Lemma run_within n : agree (bad_state Stop)
  (@cpu_run Mem Outsourced _ _ (Some (@handle_ecall _ (@cpu_guest Mem Outsourced) D _ _ target)) n)
  (@cpu_run Mem Within _ _ (Some (@handle_ecall _ (@cpu_guest Mem Within) D _ _ target)) n).
Proof.
  apply (run_agree Outsourced Stop (beyond_get F) (beyond_write F) beyond_share).
  apply (ecall_agree (@cpu_guest Mem Outsourced) (@cpu_guest Mem Within) (bad_cpu Stop)).
  - apply guest_segment_agree.
  - apply (guest_read_agree Outsourced Stop (beyond_get F) beyond_share).
  - apply (guest_write_agree Outsourced Stop (beyond_get F) (beyond_write F) beyond_share).
  - apply reg_agree.
  - apply set_reg_agree.
Qed.

Lemma not_bad h c : ~ bad_state Stop (h, c) <-> forall id, within F (paged_memory (seg_of id c)) = true.
Proof.
  unfold bad_state, bad_cpu, bad_seg, bad_memory, beyond. cbn. split.
  - intros Hn id. apply not_false_is_true. intros E. apply Hn. exists id. by rewrite E.
  - intros Hw [id E]. by rewrite Hw in E.
Qed.

Lemma vm_handler_ok m vh channels vm h c k : started m vh channels vm h c k -> vm_ok vm -> handler_ok h.
Proof. intros [-> _ _ _ _ _ _] []. by split. Qed.

Lemma run_refines n m vh channels vm h c k o h' c' : started m vh channels vm h c k -> validate m = Ok tt ->
  sections_ok m bytes clients -> vm_ok vm -> channels_ok channels ->
  (forall id, acc_messages (ClientMemory.content (clients id)) ⊆ F) ->
  (forall id, within F (paged_memory (seg_of id c')) = true) ->
  hmac_genuine (paged_memory (code_seg c)) (Accumulator.data (ClientMemory.content (clients CodeSeg))) ->
  cpu_run (Some (handle_ecall target)) n (h, c) = (o, (h', c')) -> ~ fails o ->
  let abstract := vapp_run (handle_ecall target) n (h, start_of m) in
  lost snd abstract \/ fst abstract = o /\ fst (snd abstract) = h'.
Proof.
  intros Hst Hv Hsec Hvm Hch HF Hw Hg Hrun Ho abstract.
  destruct (run_within n (h, c)) as [Heq Hbad]. rewrite Hrun in Heq, Hbad.
  assert (~ spoils (bad_state Stop) (o, (h', c'))) as Hns by (intros [Hb|Hf]; [by apply (not_bad h' c')|done]).
  destruct Heq as [Heq|Heq]; [|done]. assert (~ bad_state Stop (h, c)) as Hnb by tauto.
  pose proof (start_sim m vh channels vm h c k Hst Hv Hsec Hch HF (proj1 (not_bad h c) Hnb) Hg) as Hsim.
  destruct (@run_sim Mem Within (Laws k) Partial _ _ _ _ handler_ok eq_refl
    (@handle_ecall _ (@cpu_guest Mem Within) D _ _ target) (handle_ecall target) n) with (h := h) (c := c) (s := start_of m)
    as [Hp|Hres]; [|by eapply vm_handler_ok|exact Hsim|by left|right].
  { intros h0 c0 s0 Hh0 Hs0. destruct (@handle_ecall_sim Mem Within (Laws k) Partial _ D _ _ _ target h0 c0 s0 Hh0 Hs0
      ltac:(done)) as [Hp|Hres]; [by left|right]. destruct (handle_ecall target (h0, c0)) as [[[]|e| |] [h1 c1]]; [|done..].
    destruct Hres as (s1 & ? & ? & ?). by exists s1. }
  set (r := cpu_run _ _ _) in Hres. assert (r = (o, (h', c'))) as E by (symmetry; exact Heq). rewrite E in Hres. clear r E.
  destruct o as [[]|e| |]; cbn in Ho; [|..|done|done].
  - destruct Hres as (s1 & E & _). unfold abstract. by rewrite E.
  - destruct Hres as [[_ He]|He]; [by destruct Ho|done].
Qed.
End vapp.

(** ** The properties *)

Section properties.
Context {H K D : Type} `{HH : HashHistory H 32} `{DL : DeviceLaws K} `{SL : SysLaws D} `{HP : Heap} (target : Target).
Context (new_random : option K) (HEAP_SIZE CACHED_PAGE_SIZE : Z).
Abbreviation Mem := (OutsourcedMemory H AnyStrategy K).

(** The start of a V-App whose sections the client has loaded: the setup succeeds, and the
    client holds no HMAC of a wrong page of the code. *)
Record launched (m : Manifest) (vh : list Z) (channels : Channels) (vm : Vm D) (bytes : seg_id -> list Z)
    (clients : seg_id -> ClientSegment) (h : CommEcallHandler D) (c : Cpu Mem) : Prop := {
  la_setup : setup (H:=H) new_random HEAP_SIZE CACHED_PAGE_SIZE m vh channels vm = Ok (h, c);
  la_manifest : validate m = Ok tt;
  la_sections : sections_ok (H:=H) m bytes clients;
  la_vm : vm_ok vm;
  la_channels : channels_ok channels;
  la_hmac : hmac_genuine (paged_memory (code_seg c)) (Accumulator.data (ClientMemory.content (clients CodeSeg)));
}.
Abbreviation machine m bytes h := (h, arch_start m (bytes CodeSeg) (bytes DataSeg) (bytes StackSeg)).

(** C1. A V-App ends as its program does on the machine: a V-App that exits with a status, or
    panics, over the three outsourced memories does so on the abstract machine that starts
    with the bytes of its sections, after the same exchanges with the client and the same
    changes of the store. The client answers what it likes, with three provisos: it holds no
    HMAC of a wrong page of the code ([launched]); no two different messages that were hashed
    for the memories have the same hash; and no ECALL of the program writes to its code (the
    machine stops there, [lost]). *)
Theorem start_vapp_refines fuel m vh channels vm bytes clients h c o h' c' : 0 < CACHED_PAGE_SIZE ->
  launched m vh channels vm bytes clients h c ->
  main_loop target fuel (h, c) = (o, (h', c')) -> (exists status, o = Ok status) \/ o = Err AppSW.VAppPanic ->
  collision_free (H:=H) (hashed_by c' clients) ->
  let abstract := concluded (vapp_run (handle_ecall target) fuel) (machine m bytes h) in
  ~ lost snd abstract -> fst abstract = o /\ fst (snd abstract) = h'.
Proof.
  intros Hcp [Hset Hv Hsec Hvm Hch Hg] Hrun Ho Hcf abstract Hnl. destruct (setup_inv _ _ _ _ _ _ _ _ _ Hcp Hset) as [k Hst].
  rewrite main_loop_run in Hrun. unfold concluded in Hrun.
  destruct (cpu_run (Some (handle_ecall target)) fuel (h, c)) as [r [h1 c1]] eqn:Er.
  injection Hrun as <- <- <-. assert (~ fails r) as Hr.
  { destruct Ho as [[status Ho]|Ho], r as [[]|[[]| |]| |]; try done; by intros []. }
  destruct (run_refines target bytes clients (hashed_by c1 clients) Hcf fuel m vh channels vm h c k r h1 c1) as [Hp|[E1 E2]];
    try done.
  - intros id. by apply hashed_by_sub.
  - intros id. apply within_iff, hashed_by_sub.
  - destruct Hnl. unfold abstract, concluded. destruct (vapp_run _ _ _) as [o1 s1]. destruct Hp as [Hp Hc].
    cbn in Hp. by subst o1.
  - unfold abstract, concluded. destruct (vapp_run _ _ _) as [o1 s1]. cbn in E1, E2. by subst o1 h1.
Qed.

(** C17. While it runs, a V-App does what its program does on the machine: after any number
    of instructions without an error, the exchanges with the client, the store and the screen
    are those of the abstract machine; with the three provisos of the previous property: no
    HMAC of a wrong page of the code at the client, no collision among the messages hashed,
    and no ECALL that writes to the code. *)
Theorem vapp_run_refines n m vh channels vm bytes clients h c h' c' : 0 < CACHED_PAGE_SIZE ->
  launched m vh channels vm bytes clients h c ->
  cpu_run (Some (handle_ecall target)) n (h, c) = (Ok tt, (h', c')) ->
  collision_free (H:=H) (hashed_by c' clients) ->
  let abstract := vapp_run (handle_ecall target) n (machine m bytes h) in
  ~ lost snd abstract -> fst abstract = Ok tt /\ fst (snd abstract) = h'.
Proof.
  intros Hcp [Hset Hv Hsec Hvm Hch Hg] Hrun Hcf abstract Hnl. destruct (setup_inv _ _ _ _ _ _ _ _ _ Hcp Hset) as [k Hst].
  destruct (run_refines target bytes clients (hashed_by c' clients) Hcf n m vh channels vm h c k (Ok tt) h' c'); try done.
  - intros id. by apply hashed_by_sub.
  - intros id. apply within_iff, hashed_by_sub.
  - by intros [].
Qed.
End properties.

(** *** A run

    A V-App that stores 7 on its stack, loads it and exits with it. The client answers with
    the two pages, which the memories check against the roots. *)

Definition exit_code : list Z := concat (map (le_bytes 4)
  [0x00400293; 0x00700513; 0x00a12023; 0x00012503; 0x00000073]).
Definition exit_bytes (id : seg_id) : list Z :=
  match id with CodeSeg => exit_code | DataSeg => [1; 2; 3; 4] | StackSeg => replicate 256 0 end.
Definition exit_start (id : seg_id) : Z :=
  match id with CodeSeg => 0x10000 | DataSeg => 0x30000 | StackSeg => 0x20000 end.
Definition exit_client (id : seg_id) : ClientSegment :=
  match client_new (H:=Logged Toy32) (exit_start id) (exit_bytes id) with
  | Ok s => s | _ => mkClientSegment (mkMerkleAccumulator [] []) end.
Definition exit_root (id : seg_id) : HashOutput :=
  match get_content_root (exit_client id) with Ok r => r | _ => [] end.
Definition exit_manifest : Manifest :=
  mkManifest 0 [84; 101; 115; 116] [49; 46; 48] 0x10000 0x10000 0x10014 (exit_root CodeSeg)
    0x30000 0x30004 (exit_root DataSeg) 0x20000 0x20100 (exit_root StackSeg) 0.
Definition exit_page (id : seg_id) : Comm :=
  mkComm [Continue 0 0 (GetPageResponse.ser (GetPageResponse.mk (initial_page (exit_start id) (exit_bytes id) 0)
    false (replicate 12 0) 0 0 Merkle []))] [].
Definition exit_channels : Channels := mkChannels (exit_page CodeSeg) (exit_page DataSeg) (exit_page StackSeg).
Definition exit_vm : Vm unit := mkVm (mkComm [] []) store_new None [] tt.
Abbreviation exit_mem := (OutsourcedMemory (Logged Toy32) AnyStrategy Z).
Abbreviation exit_setup :=
  (setup (H:=Logged Toy32) (Some 42) 24576 320 exit_manifest [] exit_channels exit_vm).
Abbreviation exit_main := (main_loop (HP:=24576) Flex 5).
Abbreviation exit_machine h :=
  (concluded (vapp_run (handle_ecall (HP:=24576) Flex) 5)
    (h, arch_start exit_manifest (exit_bytes CodeSeg) (exit_bytes DataSeg) (exit_bytes StackSeg))).

(** No answer could be an HMAC. *)
Definition no_hmac (l : list Command) : bool :=
  forallb (fun c => match c with
    | Continue _ _ d =>
        match GetPageResponse.de d with Ok r => negb (length (GetPageResponse.proof r) =? 1)%nat | _ => true end
    | _ => true end) l.
Lemma no_hmac_genuine m l : no_hmac (replies (comm m)) = true ->
  hmac_genuine (H:=Logged Toy32) (ES:=AnyStrategy) (K:=Z) m l.
Proof.
  unfold no_hmac. rewrite forallb_forall. intros Hn p1 p2 d r mac i x Hd%list_elem_of_In Hr Hp.
  specialize (Hn _ Hd). cbn in Hn. rewrite Hr, Hp in Hn. done.
Qed.
Abbreviation exit_prefix := (cpu_run (Some (handle_ecall (HP:=24576) Flex)) 4).
Abbreviation exit_machine_prefix h :=
  (vapp_run (handle_ecall (HP:=24576) Flex) 4
    (h, arch_start exit_manifest (exit_bytes CodeSeg) (exit_bytes DataSeg) (exit_bytes StackSeg))).
(** The runs of the program, and its prefix, with no collision; the machine does not panic. *)
Definition exit_check h c : bool :=
  match exit_main (h, c) with
  | (Ok status, (_, c')) => bool_decide (status = [0; 0; 0; 7]) && no_collision_b (hashed_by c' exit_client)
  | _ => false
  end && match fst (exit_machine h) with Panic => false | _ => true end.
Definition prefix_check h c : bool :=
  match exit_prefix (h, c) with
  | (Ok _, (_, c')) => no_collision_b (hashed_by c' exit_client)
  | _ => false
  end && match fst (exit_machine_prefix h) with Panic => false | _ => true end.
Lemma exit_checked h c : exit_check h c = true -> exists h' c', exit_main (h, c) = (Ok [0; 0; 0; 7], (h', c')) /\
  collision_free (H:=Logged Toy32) (hashed_by c' exit_client) /\ fst (exit_machine h) <> Panic.
Proof.
  unfold exit_check. intros [Hc Hp]%andb_true_iff.
  destruct (exit_main (h, c)) as [[status|e| |] [h' c']]; [|discriminate Hc..].
  apply andb_true_iff in Hc as [Hs Hc]. apply bool_decide_eq_true in Hs as ->. exists h', c'.
  split; [reflexivity|]. split; [exact (no_collision_free _ Hc)|]. intros E. rewrite E in Hp. discriminate Hp.
Qed.
Lemma prefix_checked h c : prefix_check h c = true -> exists h' c', exit_prefix (h, c) = (Ok tt, (h', c')) /\
  collision_free (H:=Logged Toy32) (hashed_by c' exit_client) /\ fst (exit_machine_prefix h) <> Panic.
Proof.
  unfold prefix_check. intros [Hc Hp]%andb_true_iff.
  destruct (exit_prefix (h, c)) as [[[]|e| |] [h' c']]; [|discriminate Hc..].
  exists h', c'. split; [reflexivity|]. split; [exact (no_collision_free _ Hc)|].
  intros E. rewrite E in Hp. discriminate Hp.
Qed.
Lemma exit_section id end_ : end_ = exit_start id + Z.of_nat (length (exit_bytes id)) ->
  section_ok (H:=Logged Toy32) (exit_start id) end_ (exit_root id) (exit_bytes id) (exit_client id).
Proof.
  intros ->. split; try (destruct id; vm_compute; (reflexivity || discriminate)).
  apply (bytes_tape_of (mkComm [Continue 0 0 (exit_bytes id)] []) ltac:(destruct id; vm_compute; reflexivity) 0 0). left.
Qed.
Lemma exit_sections : sections_ok (H:=Logged Toy32) exit_manifest exit_bytes exit_client.
Proof.
  unfold sections_ok, exit_manifest.
  cbn [code_start code_end code_merkle_root data_start data_end data_merkle_root stack_start stack_end stack_merkle_root].
  split; [|split]; [apply (exit_section CodeSeg)|apply (exit_section DataSeg)|apply (exit_section StackSeg)];
    vm_compute; reflexivity.
Qed.
Lemma exit_vm_ok : vm_ok exit_vm.
Proof. split; [by intros p1 p2 d Hd%not_elem_of_nil|exact store_new_ok|done|done]. Qed.
Lemma exit_channels_ok : channels_ok exit_channels.
Proof. split; [|split]; apply bytes_tape_of; vm_compute; reflexivity. Qed.
Lemma exit_launch : exists h c,
  launched (H:=Logged Toy32) (Some 42) 24576 320 exit_manifest [] exit_channels exit_vm exit_bytes exit_client h c /\
  exit_check h c = true /\ prefix_check h c = true.
Proof.
  assert (match exit_setup with
          | Ok (h, c) => exit_check h c && prefix_check h c && no_hmac (replies (comm (paged_memory (code_seg c))))
          | _ => false end = true) as Hc by (vm_compute; reflexivity).
  destruct exit_setup as [[h c]|e| |] eqn:Es; [|discriminate Hc..].
  apply andb_true_iff in Hc as [[Hc Hp]%andb_true_iff Hg]. exists h, c. split; [|split; [exact Hc|exact Hp]].
  split; [exact Es|vm_compute; reflexivity|exact exit_sections|exact exit_vm_ok|exact exit_channels_ok|exact (no_hmac_genuine _ _ Hg)].
Qed.

Lemma start_vapp_refines_witness : exists h (c : Cpu exit_mem) h' c',
  exit_main (h, c) = (Ok [0; 0; 0; 7], (h', c')) /\ fst (exit_machine h) = Ok [0; 0; 0; 7].
Proof.
  destruct exit_launch as (h & c & Hl & Hc & _). destruct (exit_checked h c Hc) as (h' & c' & Hr & Hcf & Hp).
  exists h, c, h', c'. split; [exact Hr|].
  destruct (start_vapp_refines (HP:=24576) Flex (Some 42) 24576 320 5 exit_manifest [] exit_channels exit_vm exit_bytes
    exit_client h c _ h' c' eq_refl Hl Hr (or_introl (ex_intro _ _ eq_refl)) Hcf) as [E _];
    [intros [E _]; exact (Hp E)|exact E].
Defined.
Lemma vapp_run_refines_witness : exists h (c : Cpu exit_mem) h' c',
  exit_prefix (h, c) = (Ok tt, (h', c')) /\ fst (exit_machine_prefix h) = Ok tt.
Proof.
  destruct exit_launch as (h & c & Hl & _ & Hc). destruct (prefix_checked h c Hc) as (h' & c' & Hr & Hcf & Hp).
  exists h, c, h', c'. split; [exact Hr|].
  destruct (vapp_run_refines (HP:=24576) Flex (Some 42) 24576 320 4 exit_manifest [] exit_channels exit_vm exit_bytes
    exit_client h c h' c' eq_refl Hl Hr Hcf) as [E _]; [intros [E _]; exact (Hp E)|exact E].
Defined.
