(* ===== verification/EcallFrame.v ===== *)
(** * What an ECALL may change of the store

    Whatever the V-App passes and the client answers, over any memory, a V-App reaches only
    the storage slots of its own entry: the other entries, its name, version and hash, and
    which entries are registered, stay as they are. *)

From S2P Require Import Prelude Riscv Ux Memory Cpu Accumulator Auth ClientCommands OutsourcedMem Manifest ManifestSpec Ecall StartVapp.

Create HintDb keeps.

(** ** The frame *)

Definition own_slots (vh : list Z) (l l' : LazyStorage VAppEntry) : Prop :=
  l' = l \/
  exists slots, is_initialized l = true /\ entry_hash (stored l) = vh /\ length slots = length (storage_slots (stored l)) /\
    l' = mkLazy STORAGE_VALID (mkEntry vh (entry_name (stored l)) (entry_version (stored l)) slots).
Definition store_frame (vh : list Z) : Store -> Store -> Prop := Forall2 (own_slots vh).

#[export] Instance own_slots_preorder vh : PreOrder (own_slots vh).
Proof.
  split; [by left|]. intros l1 l2 l3 [->|(s & Hi & Hh & Hl & ->)]; [done|]. intros [->|(s' & _ & _ & Hl' & ->)].
  - right. by exists s.
  - right. exists s'. cbn in *. split; [done|]. split; [done|]. split; [congruence|done].
Qed.
#[export] Instance store_frame_preorder vh : PreOrder (store_frame vh).
Proof. unfold store_frame. split; apply _. Qed.

Section frame.
Context {C : Type} `{G : Guest C} {D : Type} `{SY : Sys D} `{HP : Heap} (target : Target).
Abbreviation Handler := (CommEcallHandler D).
Implicit Types (h : Handler).

Record framed h h' : Prop := {
  fr_hash : hvapp_hash h' = hvapp_hash h;
  fr_slots : hn_storage_slots h' = hn_storage_slots h;
  fr_store : store_frame (hvapp_hash h) (hstore h) (hstore h');
}.
Lemma framed_refl h : framed h h.
Proof. by split. Qed.
Lemma framed_trans h1 h2 h3 : framed h1 h2 -> framed h2 h3 -> framed h1 h3.
Proof. intros [A1 A2 A3] [B1 B2 B3]. split; [congruence..|]. rewrite A1 in B3. by etrans. Qed.

Definition keeps {E A} (m : ST (Handler * C) E A) : Prop :=
  forall s, framed (fst s) (fst (snd (m s))).

Section rules.
Context {E : Type}.
Lemma keeps_bind {A B} (m : ST (Handler * C) E A) (f : A -> ST (Handler * C) E B) :
  keeps m -> (forall a, keeps (f a)) -> keeps (x ← m; f x).
Proof.
  intros Hm Hf s. specialize (Hm s). unfold mbind, st_mbind, st_bind. destruct (m s) as [[a|e| |] s1]; try done.
  eapply framed_trans; [exact Hm|apply Hf].
Qed.
Lemma keeps_ret {A} (a : A) : keeps (mret a : ST _ E A).
Proof. intros s. apply framed_refl. Qed.
Lemma keeps_fail {A} (e : E) : keeps (fail e : ST _ E A).
Proof. intros s. apply framed_refl. Qed.
Lemma keeps_panic {A} : keeps (panic : ST _ E A).
Proof. intros s. apply framed_refl. Qed.
Lemma keeps_diverge {A} : keeps (diverge : ST _ E A).
Proof. intros s. apply framed_refl. Qed.
Lemma keeps_get : keeps (get : ST _ E _).
Proof. intros s. apply framed_refl. Qed.
Lemma keeps_lift {A} (o : outcome E A) : keeps (lift o).
Proof. intros s. apply framed_refl. Qed.
Lemma keeps_map_err {F A} (f : E -> F) (m : ST (Handler * C) E A) : keeps m -> keeps (map_err f m).
Proof. intros Hm s. specialize (Hm s). unfold map_err. by destruct (m s). Qed.
Lemma keeps_on_guest {A} (m : ST C E A) : keeps (on_guest m : ST (Handler * C) E A).
Proof. intros s. unfold on_guest, zoom. destruct (m (snd s)). apply framed_refl. Qed.
Lemma keeps_on_handler {A} (m : ST Handler E A) : (forall h, framed h (snd (m h))) -> keeps (on_handler m).
Proof. intros Hm s. unfold on_handler, zoom. specialize (Hm (fst s)). by destruct (m (fst s)). Qed.
(** The parts of the handler other than the store. *)
Lemma keeps_modify (f : Handler -> Handler) : (forall h, framed h (f h)) ->
  keeps (modify (fun s => (f (fst s), snd s)) : ST (Handler * C) E unit).
Proof. intros Hf s. apply Hf. Qed.
End rules.
Lemma keeps_unwrapped {A} (m : ST (Handler * C) CommEcallError A) : keeps m -> keeps (unwrapped m).
Proof. intros Hm s. specialize (Hm s). unfold unwrapped. by destruct (m s) as [[] ?]. Qed.
Lemma keeps_on_screen (m : D -> outcome CommEcallError unit * D) : keeps (on_screen (C:=C) m).
Proof. intros s. unfold on_screen. destruct (m _). by split. Qed.
Lemma keeps_interrupted r : keeps (interrupted (C:=C) r).
Proof. apply keeps_map_err, keeps_on_handler. intros h. unfold zoom. destruct (interrupt r (hcomm h)). by split. Qed.
Lemma keeps_segment p : keeps (segment p).
Proof. apply keeps_map_err, keeps_on_guest. Qed.
Lemma keeps_seg_read id p n : keeps (seg_read id p n).
Proof. apply keeps_map_err, keeps_on_guest. Qed.
Lemma keeps_seg_write id p d : keeps (seg_write id p d).
Proof. apply keeps_map_err, keeps_on_guest. Qed.
Lemma keeps_gr r : keeps (gr r).
Proof. apply keeps_map_err, keeps_on_guest. Qed.
Lemma keeps_set_a0 x : keeps (set_a0 x).
Proof. apply keeps_map_err, keeps_on_guest. Qed.
Lemma keeps_check_params b msg : keeps (check_params (C:=C) b msg).
Proof. apply keeps_lift. Qed.
Lemma keeps_check_ok r msg : keeps (check_ok (C:=C) r msg).
Proof. apply keeps_lift. Qed.
Lemma keeps_hash_result {A} (o : outcome LedgerHashContextError A) : keeps (hash_result (C:=C) o).
Proof. apply keeps_lift. Qed.
Lemma keeps_generic {A} msg (m : ST (Handler * C) CommEcallError A) : keeps m -> keeps (generic msg m).
Proof. apply keeps_map_err. Qed.

(** The steps of a handler, as long as a rule applies. *)
Ltac keeps_step :=
  match goal with
  | |- keeps (mret _) => apply keeps_ret
  | |- keeps (fail _) => apply keeps_fail
  | |- keeps panic => apply keeps_panic
  | |- keeps diverge => apply keeps_diverge
  | |- keeps get => apply keeps_get
  | |- keeps (lift _) => apply keeps_lift
  | |- keeps (mbind _ _) => apply keeps_bind; [|intros ?]
  | |- keeps (match ?x with _ => _ end) => destruct x
  | |- keeps (generic _ _) => apply keeps_generic
  | |- keeps (modify _) => apply keeps_modify; by split
  | |- keeps _ => solve [auto with keeps nocore]
  end.
Ltac keeps_go := repeat keeps_step.
Hint Resolve keeps_on_screen keeps_interrupted keeps_segment keeps_seg_read keeps_seg_write keeps_gr keeps_set_a0
  keeps_check_params keeps_check_ok keeps_hash_result keeps_generic keeps_unwrapped : keeps.

Lemma keeps_read_guest p n : keeps (read_guest p n).
Proof. unfold read_guest. keeps_go. Qed.
Lemma keeps_write_guest p d : keeps (write_guest p d).
Proof. unfold write_guest. keeps_go. Qed.
Hint Resolve keeps_read_guest keeps_write_guest : keeps.
Lemma keeps_send_loop seg bt : forall fuel first size p, keeps (send_loop fuel seg bt first size p).
Proof. induction fuel as [|fuel IH]; intros first size p; cbn [send_loop]; keeps_go. Qed.
Lemma keeps_recv_loop seg max : forall fuel remaining p total, keeps (recv_loop fuel seg max remaining p total).
Proof. induction fuel as [|fuel IH]; intros remaining p total; cbn [recv_loop]; keeps_go. Qed.
Lemma keeps_hash_update_loop seg : forall fuel ctx n p, keeps (hash_update_loop fuel seg ctx n p).
Proof. induction fuel as [|fuel IH]; intros ctx n p; cbn [hash_update_loop]; keeps_go. Qed.
Hint Resolve keeps_send_loop keeps_recv_loop keeps_hash_update_loop : keeps.
Lemma keeps_send_buffer buffer size bt : keeps (handle_send_buffer buffer size bt).
Proof. unfold handle_send_buffer. keeps_go. Qed.
Lemma keeps_xrecv buffer max : keeps (handle_xrecv buffer max).
Proof. unfold handle_xrecv. keeps_go. Qed.
Hint Resolve keeps_send_buffer keeps_xrecv : keeps.
Lemma keeps_wait_for_ticker : forall es h, framed h (snd (wait_for_ticker_loop es h)).
Proof.
  induction es as [|e es IH]; intros h; cbn [wait_for_ticker_loop]; [by split|].
  unfold mbind, st_mbind, st_bind, modify. set (h1 := with_events es h).
  assert (framed h h1) as H1 by by split.
  destruct (stored_event e) as [ev|]; cbn; destruct (is_ticker e).
  1,3: by split.
  - eapply framed_trans; [|apply IH]. by split.
  - eapply framed_trans; [exact H1|apply IH].
Qed.
(** The only handler that writes to the store. *)
Lemma keeps_storage_write slot buffer size : keeps (handle_storage_write slot buffer size).
Proof.
  intros [h c]. unfold handle_storage_write, mbind, st_mbind, st_bind, get. cbn [fst].
  destruct (storage_target slot size h) as [i|] eqn:Et; [|apply framed_refl].
  pose proof (keeps_read_guest buffer STORAGE_SLOT_SIZE (h, c)) as Hr. pose proof Hr as [E1 E2 _].
  assert (hstore (fst (snd (read_guest buffer STORAGE_SLOT_SIZE (h, c)))) = hstore h) as Est.
  { unfold read_guest, segment, seg_read, map_err, on_guest, zoom, mbind, st_mbind, st_bind. cbn [fst snd].
    destruct (guest_segment buffer c) as [[] ?]; try done. cbn. by destruct (guest_read _ _ _ _). }
  destruct (read_guest buffer STORAGE_SLOT_SIZE (h, c)) as [[d|e| |] [h1 c1]]; try exact Hr. cbn [fst snd] in *.
  unfold get_entry. destruct (hstore h !! i) as [l|] eqn:El; [|exact Hr].
  destruct (is_initialized l) eqn:Hi; [|exact Hr]. cbn [ok_or lift]. destruct (_ <? _)%nat eqn:Elt; [|exact Hr].
  unfold store_result, map_err, on_handler, zoom, mret, st_mret, st_ret. cbn [fst snd]. unfold at_slot. rewrite Est, El.
  unfold update, mbind, st_mbind, st_bind, get, lift. rewrite Hi. cbn. split; [done|done|]. cbn. unfold store_frame.
  unfold storage_target in Et. destruct (negb _); [done|]. destruct (_ || _); [done|].
  apply find_entry_some in Et as (e & _ & (l' & Hl' & _ & <-) & Hp & _). rewrite Nat.sub_0_r, El in Hl'. injection Hl' as <-.
  apply bool_decide_eq_true in Hp. rewrite <- (list_insert_id (hstore h) i l El) at 1.
  apply Forall2_insert; [apply (store_frame_preorder _)|]. right. eexists. split; [done|]. split; [done|]. split; [|by rewrite Hp].
  apply length_insert.
Qed.
Hint Resolve keeps_storage_write : keeps.
Lemma keeps_wait : keeps wait_for_ticker.
Proof. apply keeps_on_handler. intros h. apply keeps_wait_for_ticker. Qed.
Hint Resolve keeps_wait : keeps.

Lemma keeps_dispatch a0 a1 a2 a3 a4 a5 a6 a7 code : keeps (dispatch target a0 a1 a2 a3 a4 a5 a6 a7 code).
Proof.
  unfold dispatch, returns, succeeds, handle_panic, handle_xsend, handle_print.
  repeat (match goal with |- keeps (if ?b then _ else _) => destruct b; [|] end); keeps_go.
  all: unfold handle_get_event, handle_storage_read, handle_show_page,
    handle_show_step, handle_get_device_property, handle_bn_modm, handle_bn_addm, handle_bn_subm, handle_bn_multm,
    handle_bn_op, handle_bn_modinv_prime, handle_bn_powm, handle_hash_init, handle_hash_update, handle_hash_digest,
    handle_derive_hd_node, handle_get_master_fingerprint, handle_derive_slip21_node, handle_ecfp_add_point,
    handle_ecfp_scalar_mult, handle_get_random_bytes, handle_ecdsa_sign, handle_ecdsa_verify, handle_schnorr_sign,
    handle_schnorr_verify.
  all: keeps_go.
Qed.
Lemma keeps_ecall : keeps (handle_ecall target).
Proof. unfold handle_ecall. keeps_go. apply keeps_dispatch. Qed.
End frame.

(** ** The run of a V-App *)

Section run.
Context {M : Type} `{PM : PagedMemory M} {D : Type} `{SY : Sys D} `{HP : Heap} (target : Target).

Lemma keeps_on_cpu {E A} (m : ST (Cpu M) E A) : keeps (D:=D) (zoom snd (fun c s => (fst s, c)) m).
Proof. intros s. unfold zoom. destruct (m (snd s)). apply framed_refl. Qed.
Lemma keeps_attempt {E F A} (m : ST (CommEcallHandler D * Cpu M) E A) : keeps m -> keeps (attempt (F:=F) m).
Proof. intros Hm s. specialize (Hm s). unfold attempt. by destruct (m s) as [[] ?]. Qed.
Lemma keeps_execute instr : keeps (execute instr (Some (handle_ecall (C:=Cpu M) target))).
Proof.
  unfold execute. destruct (Riscv.decode instr) as [op size]. apply keeps_bind; [|intros; apply keeps_on_cpu].
  destruct op; try apply keeps_on_cpu.
  apply keeps_bind; [|intros; apply keeps_ret]. apply keeps_map_err, keeps_ecall.
Qed.
Lemma keeps_main_loop : forall fuel, keeps (main_loop (M:=M) target fuel).
Proof.
  induction fuel as [|fuel IH]; cbn [main_loop]; [apply keeps_diverge|].
  apply keeps_bind; [apply keeps_map_err, keeps_on_cpu|]. intros instr.
  apply keeps_bind; [apply keeps_attempt, keeps_execute|]. intros [u|[e|e|e]| |]; try exact IH.
  all: try destruct e; first [apply keeps_ret|apply keeps_fail].
Qed.
End run.

(** ** The start of a V-App *)

Section start.
Context {H K D : Type} `{RH : ResettableHasher H} `{DV : Device K} `{SY : Sys D} `{HP : Heap} (target : Target).
Context (take_manifest : list Z -> option (Manifest * list Z)) (new_random : option K).
Context (HEAP_SIZE CACHED_PAGE_SIZE : Z).

Lemma setup_handler m vh channels (vm : Vm D) h (c : Cpu (OutsourcedMemory H AnyStrategy K)) :
  setup (H:=H) new_random HEAP_SIZE CACHED_PAGE_SIZE m vh channels vm = Ok (h, c) ->
  hstore h = vm_store vm /\ hvapp_hash h = vh.
Proof.
  unfold setup, handler_new. intros (k & _ & Hs)%outcome_bind_Ok.
  apply outcome_bind_Ok in Hs as ([[nc nd] ns] & _ & Hs). do 5 (apply outcome_bind_Ok in Hs as (? & _ & Hs)).
  apply outcome_bind_Ok in Hs as (h' & Hh & [= <- <-]). by apply outcome_bind_Ok in Hh as (? & _ & [= <-]).
Qed.

Lemma run_frame fuel m vh channels (vm : Vm D) h (c : Cpu (OutsourcedMemory H AnyStrategy K)) :
  setup (H:=H) new_random HEAP_SIZE CACHED_PAGE_SIZE m vh channels vm = Ok (h, c) ->
  store_frame vh (vm_store vm) (hstore (fst (snd (main_loop target fuel (h, c))))).
Proof.
  intros [Est Evh]%setup_handler. destruct (keeps_main_loop target fuel (h, c)) as [_ _ Hf]. cbn [fst] in Hf.
  by rewrite Est, Evh in Hf.
Qed.
Lemma start_vapp_store fuel channels data_raw (vm : Vm D) : exists vh, store_frame vh (vm_store vm)
  (vm_store (snd (handler_start_vapp (H:=H) target take_manifest new_random HEAP_SIZE CACHED_PAGE_SIZE
    fuel channels data_raw vm))).
Proof.
  unfold handler_start_vapp, mbind, st_mbind, st_bind, lift, get, put, fail.
  destruct (parse_manifest take_manifest data_raw) as [m|e| |]; try (exists []; reflexivity).
  exists (get_vapp_hash (H:=H) m). destruct (is_registered _ _); [|reflexivity]. cbn.
  destruct (setup _ _ _ _ _ _ _) as [[h c]|e| |] eqn:Es; try reflexivity.
  pose proof (run_frame fuel _ _ _ _ _ _ Es) as Hf. by destruct (main_loop target fuel (h, c)) as [r [h' c']].
Qed.
Lemma parsed_valid raw m : parse_manifest take_manifest raw = Ok m -> validate m = Ok tt.
Proof.
  unfold parse_manifest. intros ([m' rest] & _ & Hr)%outcome_bind_Ok. apply outcome_bind_Ok in Hr as (u & _ & Hr).
  apply outcome_bind_Ok in Hr as ([] & Hv & [= <-]). by apply outcome_map_err_Ok in Hv.
Qed.

(** C2. A V-App starts only if its manifest is one: the bytes parse to a manifest with
    nothing after it that passes its validation, whose hash is registered; anything else ends
    with an error and the state of the VM is as it was. And whatever the program does and
    the client answers, from its start to its end, the store changes at most in the storage
    slots of the entry with that hash. *)
Theorem start_vapp_isolation fuel channels data_raw (vm : Vm D) :
  let '(result, vm') := handler_start_vapp (H:=H) target take_manifest new_random HEAP_SIZE CACHED_PAGE_SIZE
    fuel channels data_raw vm in
  match take_manifest data_raw with
  | Some (manifest, []) =>
      let vapp_hash := get_vapp_hash (H:=H) manifest in
      match validate manifest with
      | Ok _ =>
          if is_registered vapp_hash (vm_store vm) then store_frame vapp_hash (vm_store vm) (vm_store vm')
          else result = Err AppSW.SignatureFail /\ vm' = vm
      | Panic => result = Panic /\ vm' = vm
      | Diverge => result = Diverge /\ vm' = vm
      | Err _ => result = Err AppSW.IncorrectData /\ vm' = vm
      end
  | _ => result = Err AppSW.IncorrectData /\ vm' = vm
  end.
Proof.
  unfold handler_start_vapp, parse_manifest, mbind, st_mbind, st_bind, lift, get, put, fail.
  destruct (take_manifest data_raw) as [[m [|]]|]; try done. cbn.
  destruct (validate m) as [[]|e| |]; try done. cbn.
  destruct (is_registered _ _); [|done]. cbn.
  destruct (setup _ _ _ _ _ _ _) as [[h c]|e| |] eqn:Es; cbn; try reflexivity.
  pose proof (run_frame fuel _ _ _ _ _ _ Es) as Hf. by destruct (main_loop target fuel (h, c)) as [r [h' c']].
Qed.
End start.
