(* ===== verification/Handlers.v ===== *)
(** * The commands of the VM ([vm/src/main.rs], [vm/src/handlers/])

    [Instruction] decodes the header of a command; [handle_apdu] runs its handler:
    [handler_get_app_info], [handler_register_vapp], [handler_preload_vapp], and
    [handler_start_vapp] of [StartVapp]. The state of the VM is [Vm]; the command in hand is
    the argument.

    Parameters are the decoder of the manifest (postcard), the review screen of the SDK, the
    hexadecimal encoder, and the bytes that the random generator leaves in the ephemeral key
    of a preload (its status is ignored). The [metrics] feature, off by default, is not
    modelled. *)

From S2P Require Import Prelude Ux Memory Cpu Accumulator ClientCommands Evict Aes Auth OutsourcedMem Manifest Ecall StartVapp.

(** ** main.rs *)

Record ApduHeader : Type := mkHeader { ins : Z; p1 : Z; p2 : Z }.
Module Instruction.
Inductive t : Type := GetAppInfo | RegisterVApp | StartVApp | PreloadVApp | Continue (p1 p2 : Z).
(** [try_from]. *)
Definition try_from (value : ApduHeader) : outcome AppSW.t t :=
  match ins value, p1 value, p2 value with
  | 0, 0, 0 => Ok GetAppInfo
  | 2, 0, 0 => Ok RegisterVApp
  | 3, 0, 0 => Ok StartVApp
  | 4, 0, 0 => Ok PreloadVApp
  | 0, _, _ | 2, _, _ | 3, _, _ | 4, _, _ => Err AppSW.WrongP1P2
  | 0xff, p1, p2 => Ok (Continue p1 p2)
  | _, _, _ => Err AppSW.InsNotSupported
  end.
End Instruction.

(** What [interrupt] sees of a command. *)
Definition command_of (header : ApduHeader) (data : list Z) : Command :=
  match Instruction.try_from header with
  | Ok (Instruction.Continue p1 p2) => Continue p1 p2 data
  | Ok _ => OtherInstruction
  | _ => Undecodable
  end.

(** ** get_app_info.rs *)

Definition get_device_model (target : Target) : list Z :=
  tag_bytes (match target with
             | NanoX => "Nano X" | NanoSPlus => "Nano S Plus" | Flex => "Flex" | Stax => "Stax"
             | ApexP => "Nano Gen5" end).

Section handlers.
Context {H K D : Type} `{RH : ResettableHasher H} `{DV : Device K} `{SY : Sys D} `{HP : Heap} (target : Target).
Context (CARGO_PKG_VERSION : list Z) (take_manifest : list Z -> option (Manifest * list Z)).

(** [response.push(field.len() as u8); response.extend_from_slice(field)]. *)
Definition prefixed (field : list Z) : list Z := w8 (Z.of_nat (length field)) :: field.
Definition handler_get_app_info : list Z :=
  prefixed (tag_bytes "Vanadium") ++ prefixed CARGO_PKG_VERSION ++ prefixed (get_device_model target) ++
  [32] ++ get_vanadium_app_id (H:=H).

(** ** register_vapp.rs *)

Section register.
Context (blind_registration : bool) (hex_encode : list Z -> list Z).
(** [NbglReview::show]: whether the user approves the fields. *)
Context (show_review : list (list Z * list Z) -> D -> bool * D).

Definition vm_with_store (s : Store) (vm : Vm D) : Vm D :=
  mkVm (vm_comm vm) s (vm_last_event vm) (vm_events vm) (vm_device vm).
Definition vm_with_comm (c : Comm) (vm : Vm D) : Vm D :=
  mkVm c (vm_store vm) (vm_last_event vm) (vm_events vm) (vm_device vm).
Definition vm_with_device (d : D) (vm : Vm D) : Vm D :=
  mkVm (vm_comm vm) (vm_store vm) (vm_last_event vm) (vm_events vm) d.

Definition register_fields (manifest : Manifest) (vapp_hash_hex_str : list Z) : list (list Z * list Z) :=
  [(tag_bytes "App name", vapp_name manifest); (tag_bytes "App version", vapp_version manifest);
   (tag_bytes "Hash", vapp_hash_hex_str)].
Definition store_error (e : VAppStoreError) : AppSW.t :=
  match e with StoreFull => AppSW.StoreFull | NameTooLong | VersionTooLong => AppSW.IncorrectData end.
Definition handler_register_vapp (data_raw : list Z) : ST (Vm D) AppSW.t (list Z) :=
  manifest ← lift (parse_manifest take_manifest data_raw);
  let vapp_hash := get_vapp_hash (H:=H) manifest in
  approved ← (if blind_registration then mret true
              else zoom vm_device vm_with_device
                     (fun d => let '(b, d) := show_review (register_fields manifest (hex_encode vapp_hash)) d in
                               (Ok b, d)));
  (if negb approved then fail AppSW.Deny else mret tt);;
  map_err store_error (zoom vm_store vm_with_store (register (H:=H) manifest));;
  mret [].
End register.

(** ** preload_vapp.rs *)

Section preload.
Context (ephemeral_sk : list Z).
Definition encrypt_hmac (hmac page_sk : list Z) : list Z := zip_with Z.lxor hmac page_sk.

(** The hashes of a batch: the encrypted HMACs, the number of hashes received, and the
    computer of the root. *)
Fixpoint batch_loop (app_auth_key vapp_hash : list Z) (code_page_hashes : list HashOutput)
    (response_data : list (list Z)) (n_page_hashes_received : Z) (root_computer : RootComputer)
    : outcome AppSW.t (list (list Z) * Z * RootComputer) :=
  match code_page_hashes with
  | [] => Ok (response_data, n_page_hashes_received, root_computer)
  | page_hash_i :: rest =>
      let i := n_page_hashes_received in
      let page_sk_i := compute_page_hmac_mask (H:=H) ephemeral_sk i in
      hmac ← outcome_map_err (fun _ => AppSW.IncorrectData)
        (compute_code_page_hmac app_auth_key vapp_hash i page_hash_i);
      let encrypted_hmac_i := encrypt_hmac hmac page_sk_i in
      root_computer ← outcome_map_err (fun _ => AppSW.IncorrectData)
        (root_computer_feed (H:=H) root_computer page_hash_i);
      batch_loop app_auth_key vapp_hash rest (response_data ++ [encrypted_hmac_i])
        (u32_add n_page_hashes_received 1) root_computer
  end.

Definition interrupted_preload (m : GetCodePageHashesMessage.t) : ST Comm AppSW.t (list Z) :=
  map_err (fun _ => AppSW.IncorrectData) (interrupt (serialize m)).

(** [loop]: [data] is the command in hand. *)
Fixpoint preload_loop (fuel : nat) (app_auth_key vapp_hash : list Z) (n_code_pages_rounded : Z)
    (data : list Z) (n_page_hashes_received : Z) (root_computer : RootComputer)
    : ST Comm AppSW.t (Z * RootComputer) :=
  match fuel with
  | O => diverge
  | S fuel =>
      batch ← lift (outcome_map_err (fun _ => AppSW.IncorrectData) (GetCodePageHashesResponse.de data));
      let n_pages_in_batch := GetCodePageHashesResponse.n_code_pages batch in
      if n_pages_in_batch =? 0 then mret (n_page_hashes_received, root_computer)
      else
        lift (guard_err (n_code_pages_rounded <? u32_add n_page_hashes_received n_pages_in_batch)
                AppSW.IncorrectData);;
        '(response_data, n_page_hashes_received, root_computer) ←
          lift (batch_loop app_auth_key vapp_hash (GetCodePageHashesResponse.code_page_hashes batch) []
                  n_page_hashes_received root_computer);
        data ← interrupted_preload
          (GetCodePageHashesMessage.new n_page_hashes_received response_data);
        preload_loop fuel app_auth_key vapp_hash n_code_pages_rounded data n_page_hashes_received root_computer
  end.

(** Each round but the last receives a hash. *)
Definition handler_preload_vapp (data_raw : list Z) : ST Comm AppSW.t (list Z) :=
  manifest ← lift (parse_manifest take_manifest data_raw);
  let vapp_hash := get_vapp_hash (H:=H) manifest in
  let app_auth_key := get_vapp_auth_key (H:=H) vapp_hash in
  data ← interrupted_preload (GetCodePageHashesMessage.new 0 []);
  n_code_pages_rounded ← lift (unwrap_ok (n_pages_adjusted (n_code_pages manifest)));
  root_computer ← lift (unwrap_ok (root_computer_new (Z.to_nat n_code_pages_rounded)));
  '(n_page_hashes_received, root_computer) ←
    preload_loop (Z.to_nat n_code_pages_rounded + 2) app_auth_key vapp_hash n_code_pages_rounded data 0
      root_computer;
  lift (guard_err (negb (n_page_hashes_received =? n_code_pages_rounded)) AppSW.IncorrectData);;
  computed_root ← lift (unwrap_ok (root_computer_root root_computer));
  lift (guard_err (negb (bool_decide (computed_root = code_merkle_root manifest))) AppSW.IncorrectData);;
  mret ephemeral_sk.
End preload.

(** ** The dispatch *)

Context (blind_registration : bool) (hex_encode : list Z -> list Z).
Context (show_review : list (list Z * list Z) -> D -> bool * D).
Context (ephemeral_sk : list Z) (new_random : option K) (HEAP_SIZE CACHED_PAGE_SIZE : Z).

Definition handle_apdu (fuel : nat) (channels : Channels) (header : ApduHeader) (data : list Z)
    : ST (Vm D) AppSW.t (list Z) :=
  ins ← lift (outcome_map_err (fun _ => AppSW.DecodingFailed) (Instruction.try_from header));
  match ins with
  | Instruction.GetAppInfo => mret handler_get_app_info
  | Instruction.RegisterVApp => handler_register_vapp blind_registration hex_encode show_review data
  | Instruction.StartVApp =>
      handler_start_vapp (H:=H) target take_manifest new_random HEAP_SIZE CACHED_PAGE_SIZE fuel channels data
  | Instruction.PreloadVApp => zoom vm_comm vm_with_comm (handler_preload_vapp ephemeral_sk data)
  | Instruction.Continue _ _ => fail AppSW.InsNotSupported
  end.
(** The body of [sample_main]'s loop: the status word and the data of the answer. *)
Definition answer (fuel : nat) (channels : Channels) (header : ApduHeader) (data : list Z)
    : ST (Vm D) Empty_set (AppSW.t * list Z) :=
  result ← attempt (handle_apdu fuel channels header data);
  mret (match result with Ok data => (AppSW.Ok, data) | Err sw => (sw, []) | _ => (AppSW.Ok, []) end).
End handlers.
