(* ===== verification/ClientApp.v ===== *)
(** * The client outside of a run ([VanadiumAppClient] of [client-sdk/src/vanadium_client.rs],
    [client-sdk/src/hmac_auth.rs])

    [get_app_info], [register_vapp] and [preload_vapp] exchange commands with the device, and
    [CodeHmacs] is the file that caches the HMACs of a preload. The device is, as in
    [VanadiumClient], the list of the answers that it gives, the next one first, and the
    commands that are sent are recorded. A string is the list of its UTF-8 bytes; a file is
    the list of its bytes.

    Parameters are the encoder of the manifest (postcard) and the test of [String::from_utf8]. *)

From S2P Require Import Prelude Memory Accumulator ClientCommands Auth Manifest ClientMemory VanadiumClient.

Record Transport : Type := mkTransport { device_replies : list Reply; commands : list APDUCommand }.

Definition apdu_get_app_info : APDUCommand := mkAPDU 0xE0 0 0 0 [].
Definition apdu_register_vapp (serialized_manifest : list Z) : APDUCommand :=
  mkAPDU 0xE0 2 0 0 serialized_manifest.

Section client.
Context {H : Type} `{RH : ResettableHasher H}.
Context (to_allocvec : Manifest -> option (list Z)) (is_utf8 : list Z -> bool).

(** [transport.exchange(&apdu).await.map_err(..)?]. *)
Definition transport_exchange {E} (failed : E) (apdu : APDUCommand) : ST Transport E (StatusWord * list Z) :=
  t ← get;
  let sent := commands t ++ [apdu] in
  match device_replies t with
  | [] => put (mkTransport [] sent);; diverge
  | r :: rest =>
      put (mkTransport rest sent);;
      match r with NoReply => fail failed | DeviceReply s d => mret (s, d) end
  end.

(** ** get_app_info *)

Record AppInfo : Type := mkAppInfo {
  name : list Z; version : list Z; device_model : list Z; vanadium_app_id : list Z }.
Inductive VanadiumClientError : Type :=
| ClientGenericError (msg : string)
| ClientTransportError (msg : string)
| AppInfoParsingError (msg : string)
| InvalidAppName (msg : string)
| VAppAlreadyRunning
| VAppNotRunning.

Definition too_short (b : bool) : outcome VanadiumClientError unit :=
  guard_err b (AppInfoParsingError "Response too short").
(** A field from [offset]: its bytes, and the offset after them. *)
Definition parse_field (result : list Z) (offset : nat) : outcome VanadiumClientError (list Z * nat) :=
  too_short (length result <=? offset)%nat;;
  len ← unwrap (result !! offset);
  let len := Z.to_nat len in
  let offset := S offset in
  too_short (length result <? offset + len)%nat;;
  Ok (slice offset len result, (offset + len)%nat).
Definition parse_text (what : string) (result : list Z) (offset : nat)
    : outcome VanadiumClientError (list Z * nat) :=
  '(text, offset) ← parse_field result offset;
  guard_err (negb (is_utf8 text)) (AppInfoParsingError what);;
  Ok (text, offset).
Definition parse_app_info (result : list Z) : outcome VanadiumClientError AppInfo :=
  '(name, offset) ← parse_text "Invalid UTF-8 in app name" result 0;
  '(version, offset) ← parse_text "Invalid UTF-8 in version" result offset;
  '(device_model, offset) ← parse_text "Invalid UTF-8 in device model" result offset;
  too_short (length result <=? offset)%nat;;
  vanadium_app_id_len ← unwrap (result !! offset);
  let offset := S offset in
  guard_err (negb (vanadium_app_id_len =? 32)) (AppInfoParsingError "Invalid Vanadium app ID length");;
  too_short (length result <? offset + Z.to_nat vanadium_app_id_len)%nat;;
  Ok (mkAppInfo name version device_model (slice offset 32 result)).
Definition get_app_info : ST Transport VanadiumClientError AppInfo :=
  '(status, result) ← transport_exchange (ClientTransportError "exchange failed") apdu_get_app_info;
  lift (guard_err (negb (bool_decide (status = StatusOK))) (AppInfoParsingError "Failed to get app info"));;
  lift (parse_app_info result).

(** ** register_vapp *)

Definition register_vapp (manifest : Manifest) : ST Transport string unit :=
  serialized_manifest ← lift (ok_or (to_allocvec manifest) "manifest serialization failed"%string);
  '(status, _) ← transport_exchange "exchange failed"%string (apdu_register_vapp serialized_manifest);
  match status with
  | StatusOK => mret tt
  | StoreFull => fail "App store is full"%string
  | Deny => fail "User denied registration"%string
  | _ => fail "Failed to register vapp"%string
  end.

(** ** preload_vapp *)

Definition leaf_hash (serialized_page : list Z) : HashOutput :=
  hasher_digest (H:=H) (hasher_update (hasher_update hasher_new [0]) serialized_page).
Fixpoint leaf_hashes_loop (code_seg : ClientSegment) (i : Z) (n : nat) (leaf_hashes : list HashOutput)
    : outcome string (list HashOutput) :=
  match n with
  | O => Ok leaf_hashes
  | S n =>
      '(serialized_page, _) ← outcome_map_err (fun _ => "failed to get code page"%string)
        (client_get_page code_seg (w32 i));
      leaf_hashes_loop code_seg (i + 1) n (leaf_hashes ++ [leaf_hash serialized_page])
  end.

(** [&leaf_hashes[from..to]]. *)
Definition hashes_range {E} (from to : Z) (leaf_hashes : list HashOutput) : outcome E (list HashOutput) :=
  if (from <=? to) && (to <=? Z.of_nat (length leaf_hashes))
  then Ok (slice (Z.to_nat from) (Z.to_nat (to - from)) leaf_hashes) else Panic.
(** [loop]: the decryption key and the encrypted HMACs. *)
Fixpoint preload_batches (fuel : nat) (leaf_hashes : list HashOutput) (n_code_pages_rounded : Z) (offset : Z)
    (all_encrypted_hmacs : list (list Z)) : ST Transport string (list Z * list (list Z)) :=
  match fuel with
  | O => diverge
  | S fuel =>
      let batch_size := Z.min GetCodePageHashesResponse.max_hashes (n_code_pages_rounded - offset) in
      batch ← lift (hashes_range offset (offset + batch_size) leaf_hashes);
      let response := GetCodePageHashesResponse.ser (GetCodePageHashesResponse.mk (w32 batch_size) batch) in
      '(status, result) ← transport_exchange "exchange failed"%string (apdu_continue response);
      let offset := offset + batch_size in
      if bool_decide (status = StatusOK) then
        lift (guard_err (negb (Nat.eqb (length result) 32))
                "expected a 32-byte decryption key in response"%string);;
        mret (result, all_encrypted_hmacs)
      else
        lift (guard_err (negb (is_interrupted status)) "unexpected status word during preload"%string);;
        match result with
        | [] => fail "empty response from VM"%string
        | code :: _ =>
            command_code ← lift (ok_or (command_code_of code) "invalid command code"%string);
            lift (guard_err (negb (bool_decide (command_code = GetCodePageHashes)))
                    "unexpected command code during preload"%string);;
            msg ← lift (outcome_map_err (fun _ => "failed to parse GetCodePageHashes"%string)
                    (GetCodePageHashesMessage.de result));
            preload_batches fuel leaf_hashes n_code_pages_rounded offset
              (all_encrypted_hmacs ++ GetCodePageHashesMessage.prev_batch_enc_hmacs msg)
        end
  end.

Definition page_sk (ephemeral_sk : list Z) (i : Z) : HashOutput :=
  hasher_digest (H:=H)
    (hasher_update (hasher_update (hasher_update hasher_new TAG_PAGE_HMAC_MASK) ephemeral_sk)
       (be_bytes 4 (w32 i))).
Definition decrypt_hmacs (ephemeral_sk : list Z) (all_encrypted_hmacs : list (list Z)) : list (list Z) :=
  imap (fun i encrypted_hmac => zip_with Z.lxor encrypted_hmac (page_sk ephemeral_sk (Z.of_nat i)))
    all_encrypted_hmacs.

(** The code segment of the ELF file is its address and its bytes. A round of the loop
    takes an answer of the device. *)
Definition preload_vapp (manifest : Manifest) (code_segment_start : Z) (code_segment_data : list Z)
    : ST Transport string (list (list Z)) :=
  serialized_manifest ← lift (ok_or (to_allocvec manifest) "manifest serialization failed"%string);
  code_seg ← lift (match client_new (H:=H) code_segment_start code_segment_data with
                   | Ok s => Ok s | Diverge => Diverge | _ => Panic end);
  n_code_pages_rounded ← lift (ok_or (usize_next_power_of_two (Z.to_nat (n_code_pages manifest)))
    "too many code pages"%string);
  leaf_hashes ← lift (leaf_hashes_loop code_seg 0 n_code_pages_rounded []);
  '(status, result) ← transport_exchange "exchange failed"%string (apdu_preload_vapp serialized_manifest);
  lift (guard_err (negb (is_interrupted status)) "expected InterruptedExecution from preload APDU"%string);;
  lift (outcome_map_err (fun _ => "failed to parse initial GetCodePageHashes"%string)
    (GetCodePageHashesMessage.de result));;
  t ← get;
  '(ephemeral_sk, all_encrypted_hmacs) ←
    preload_batches (S (length (device_replies t))) leaf_hashes (Z.of_nat n_code_pages_rounded) 0 [];
  lift (guard_err (negb (Nat.eqb (length all_encrypted_hmacs) n_code_pages_rounded))
          "number of encrypted HMACs does not match number of code pages"%string);;
  mret (decrypt_hmacs ephemeral_sk all_encrypted_hmacs).
End client.

(** ** hmac_auth.rs *)

Module CodeHmacs.
Definition HMAC_FILE_MAGIC : list Z := Eval vm_compute in tag_bytes "VAPP_HMAC" ++ [0].
Inductive LoadError : Type :=
| Io | FileTooShort | InvalidMagic | VappHashMismatch | AppIdMismatch | InvalidHmacLength.

(** The loop over the HMACs. *)
Fixpoint hmacs_from (hmac_bytes : list Z) (i n : nat) : list (list Z) :=
  match n with O => [] | S n => slice (i * 32) 32 hmac_bytes :: hmacs_from hmac_bytes (S i) n end.

(** The file is what [std::fs::read] gives. *)
Definition load (file : option (list Z)) (expected_vapp_hash expected_app_id : list Z)
    : outcome LoadError (list (list Z)) :=
  data ← ok_or file Io;
  guard_err (length data <? 74)%nat FileTooShort;;
  guard_err (negb (bool_decide (slice 0 10 data = HMAC_FILE_MAGIC))) InvalidMagic;;
  guard_err (negb (bool_decide (slice 10 32 data = expected_vapp_hash))) VappHashMismatch;;
  guard_err (negb (bool_decide (slice 42 32 data = expected_app_id))) AppIdMismatch;;
  let hmac_bytes := drop 74 data in
  guard_err (negb (Nat.eqb (length hmac_bytes mod 32) 0)) InvalidHmacLength;;
  Ok (hmacs_from hmac_bytes 0 (length hmac_bytes / 32)).

(** What is written to the file. *)
Definition save (hmacs : list (list Z)) (vapp_hash vanadium_app_id : list Z) : list Z :=
  HMAC_FILE_MAGIC ++ vapp_hash ++ vanadium_app_id ++ concat hmacs.
End CodeHmacs.
