(* ===== verification/CommandsSpec.v ===== *)
(** * What the commands do to the store, and the client's views of their answers

    Whatever the host sends, in any order and however often the device restarts, the entries
    of the store are of V-Apps that the user approved, no two with the same name. What the
    client reads of the information about the app and of its file of HMACs is what was
    written. *)

From S2P Require Import Prelude Ux Memory Cpu Accumulator AccumulatorSpec Concrete ClientCommands ClientCommandsSpec Evict Aes Auth OutsourcedMem Manifest ManifestSpec Ecall StartVapp ConcreteSys EcallFrame VanadiumClient Handlers ClientApp.

(** ** The store *)

Definition names_unique (s : Store) : Prop :=
  forall i j e f, entry_at s i e -> entry_at s j f -> get_app_name e = get_app_name f -> i = j.

Lemma frame_entry vh s s' i e : store_frame vh s s' -> entry_at s' i e ->
  exists f, entry_at s i f /\ entry_hash f = entry_hash e /\ get_app_name f = get_app_name e.
Proof.
  intros Hf (l' & Hl & Hi & <-). destruct (Forall2_lookup_r _ _ _ _ _ Hf Hl) as (l & Hl0 & [->|(slots & Hi0 & Hh & _ & ->)]).
  - exists (stored l). split; [by exists l|done].
  - exists (stored l). split; [by exists l|]. by split.
Qed.
Lemma frame_unique vh s s' : store_frame vh s s' -> names_unique s -> names_unique s'.
Proof.
  intros Hf Hu i j e f He Hfj E. destruct (frame_entry _ _ _ _ _ Hf He) as (e0 & He0 & _ & N1).
  destruct (frame_entry _ _ _ _ _ Hf Hfj) as (f0 & Hf0 & _ & N2). eapply Hu; [exact He0|exact Hf0|congruence].
Qed.

Section store.
Context {H : Type} `{HL : HasherLaws H 32}.
Abbreviation entry_of m := (new_entry (get_vapp_hash (H:=H) m) (vapp_name m) (vapp_version m)).

(** Registering changes nothing, or puts the entry at the only place where its name is, or
    where no entry is. *)
Lemma register_store m s : snd (register (H:=H) m s) = s \/
  exists i, (i < length s)%nat /\ snd (register (H:=H) m s) = <[i := mkLazy STORAGE_VALID (entry_of m)]> s /\
    ((exists e, entry_at s i e /\ get_app_name e = vapp_name m) \/
     (forall j e, entry_at s j e -> get_app_name e <> vapp_name m)).
Proof.
  unfold register, mbind, st_mbind, st_bind, lift, guard_err, get.
  destruct (_ <? _); [by left|]. destruct (_ <? _); [by left|]. cbv zeta.
  unfold find_by_name. destruct (find_entry _ 0 s) as [i|] eqn:Ef.
  - apply find_entry_some in Ef as (e & _ & Hat & Hp & _). rewrite Nat.sub_0_r in Hat.
    apply bool_decide_eq_true in Hp. pose proof Hat as (l & Hl & Hi & _). unfold never, map_err.
    rewrite (at_slot_update _ _ l) by done. right. exists i. split; [by eapply lookup_lt_Some|]. split; [done|].
    left. by exists e.
  - destruct (find_free 0 s) as [i|] eqn:Ei; [|by left].
    apply find_free_some in Ei as (_ & l & Hl & Hi). rewrite Nat.sub_0_r in Hl. unfold never, map_err.
    rewrite (at_slot_initialize _ _ l) by done. right. exists i. split; [by eapply lookup_lt_Some|]. split; [done|].
    right. intros j e He. apply (proj1 (find_entry_none _ _ _) Ef) in He. by apply bool_decide_eq_false in He.
Qed.
Lemma register_unique m s : valid_manifest m -> names_unique s -> names_unique (snd (register (H:=H) m s)).
Proof.
  intros Hm Hu. destruct (register_store m s) as [->|(i & Hi & -> & Hn)]; [done|].
  assert (forall j e, j <> i -> entry_at s j e -> get_app_name e <> vapp_name m) as Hne.
  { intros j e Hj He E. destruct Hn as [(f & Hf & Ef)|Hn]; [|by apply (Hn j e)].
    apply Hj. eapply Hu; [exact He|exact Hf|congruence]. }
  intros j k e f He Hf E. apply entry_at_insert in He; [|done]. apply entry_at_insert in Hf; [|done].
  pose proof (new_entry_name (H:=H) m Hm) as Hname.
  destruct He as [[-> ->]|[Hj He]], Hf as [[-> ->]|[Hk Hf]]; [done| | |by eapply Hu].
  - exfalso. apply (Hne k f Hk Hf). congruence.
  - exfalso. apply (Hne j e Hj He). congruence.
Qed.
Lemma register_entries m s i e : entry_at (snd (register (H:=H) m s)) i e ->
  entry_at s i e \/ entry_hash e = get_vapp_hash (H:=H) m.
Proof.
  destruct (register_store m s) as [->|(k & Hk & -> & _)]; [by left|].
  intros [[-> ->]|[_ He]]%entry_at_insert; [by right|by left|done].
Qed.
End store.

(** ** The commands *)

Section commands.
Context {H K D : Type} `{HL : HasherLaws H 32} `{DV : Device K} `{SY : Sys D} `{HP : Heap} (target : Target).
Context (CARGO_PKG_VERSION : list Z) (take_manifest : list Z -> option (Manifest * list Z)).
Context (blind_registration : bool) (hex_encode : list Z -> list Z).
Context (show_review : list (list Z * list Z) -> D -> bool * D) (HEAP_SIZE CACHED_PAGE_SIZE : Z).
Abbreviation answer_of ephemeral_sk new_random :=
  (answer (H:=H) (K:=K) target CARGO_PKG_VERSION take_manifest blind_registration hex_encode show_review
     ephemeral_sk new_random HEAP_SIZE CACHED_PAGE_SIZE).

(** What a device goes through: commands with any header and data and any random numbers,
    and restarts, which keep only the store. *)
Inductive served (vm : Vm D) : Vm D -> Prop :=
| served_none : served vm vm
| served_command vm' ephemeral_sk new_random fuel channels header data :
    served vm vm' -> served vm (snd (answer_of ephemeral_sk new_random fuel channels header data vm'))
| served_restart vm' vm'' : served vm vm' -> vm_store vm'' = vm_store vm' -> served vm vm''.

(** The user approved a V-App with this hash (always, in a build with blind registration). *)
Definition approved (vh : list Z) : Prop :=
  exists m, get_vapp_hash (H:=H) m = vh /\ validate m = Ok tt /\
    (blind_registration = true \/ exists d, fst (show_review (register_fields m (hex_encode vh)) d) = true).

(** What a command does to the store. *)
Definition store_step (s s' : Store) : Prop :=
  (exists vh, store_frame vh s s') \/
  exists m, s' = snd (register (H:=H) m s) /\ validate m = Ok tt /\ approved (get_vapp_hash (H:=H) m).

Lemma register_step data vm : store_step (vm_store vm)
  (vm_store (snd (handler_register_vapp (H:=H) take_manifest blind_registration hex_encode show_review data vm))).
Proof.
  assert (forall s, store_step s s) as Hsame by (intros s; left; by exists []).
  unfold handler_register_vapp, mbind, st_mbind, st_bind, lift, fail, mret, st_mret, st_ret, map_err, zoom.
  destruct (parse_manifest take_manifest data) as [m|e| |] eqn:Em; try apply Hsame.
  apply parsed_valid in Em. set (vh := get_vapp_hash m).
  assert (forall vm1 : Vm D, vm_store vm1 = vm_store vm -> approved vh -> store_step (vm_store vm)
    (vm_store (vm_with_store (snd (register (H:=H) m (vm_store vm1))) vm1))) as Hreg.
  { intros vm1 E Ha. right. exists m. cbn. by rewrite E. }
  destruct blind_registration eqn:Eb.
  - cbn. destruct (register m (vm_store vm)) as [o s'] eqn:Er. specialize (Hreg vm eq_refl).
    rewrite Er in Hreg. destruct o; cbn in *; apply Hreg; exists m; auto.
  - destruct (show_review _ _) as [b d] eqn:Es. cbn. destruct b; cbn; [|apply Hsame].
    destruct (register m (vm_store vm)) as [o s'] eqn:Er. specialize (Hreg (vm_with_device d vm) eq_refl).
    cbn in Hreg. rewrite Er in Hreg.
    destruct o; cbn in *; apply Hreg; exists m; (split; [done|]; split; [done|]; right; exists (vm_device vm); by rewrite Es).
Qed.
Lemma command_step ephemeral_sk new_random fuel channels header data vm :
  store_step (vm_store vm) (vm_store (snd (answer_of ephemeral_sk new_random fuel channels header data vm))).
Proof.
  assert (forall s, store_step s s) as Hsame by (intros s; left; by exists []).
  unfold answer, attempt, mbind, st_mbind, st_bind.
  match goal with |- context [handle_apdu ?a ?b ?c ?d ?e ?f ?g ?h ?i ?j ?k ?l ?m ?n vm] =>
    set (r := handle_apdu a b c d e f g h i j k l m n vm);
    assert (store_step (vm_store vm) (vm_store (snd r))) as Hr end.
  2: { destruct r as [[] vm']; exact Hr. }
  subst r. unfold handle_apdu, mbind, st_mbind, st_bind, lift.
  destruct (Instruction.try_from header) as [ins|e| |]; cbn; try apply Hsame.
  destruct ins; cbn; try apply Hsame.
  - apply register_step.
  - left. apply start_vapp_store.
  - unfold zoom. destruct (handler_preload_vapp _ _ _ _). apply Hsame.
Qed.

(** C12. Only the user adds V-Apps: whatever commands the device serves, with whatever data,
    no two entries of its store have the same name, and an entry that was not in the store
    is of a valid manifest that the user approved on the screen. *)
Theorem only_approved vm vm' i e : served vm vm' -> names_unique (vm_store vm) ->
  names_unique (vm_store vm') /\
  (entry_at (vm_store vm') i e ->
   (exists j f, entry_at (vm_store vm) j f /\ entry_hash f = entry_hash e) \/ approved (entry_hash e)).
Proof.
  intros Hs Hu. revert i e. induction Hs as [|vm1 sk rnd fuel ch hd data Hs IH|vm1 vm2 Hs IH E].
  - intros i e. split; [done|]. intros He. left. by exists i, e.
  - intros i e. split.
    + destruct (command_step sk rnd fuel ch hd data vm1) as [[vh Hf]|(m & -> & Hv & _)].
      * by apply (frame_unique _ _ _ Hf), (IH i e).
      * apply register_unique; [by apply validate_ok|apply (IH i e)].
    + intros He. destruct (command_step sk rnd fuel ch hd data vm1) as [[vh Hf]|(m & Es & Hv & Ha)].
      * destruct (frame_entry _ _ _ _ _ Hf He) as (f & Hf1 & Hh & _). rewrite <- Hh. by apply (IH i f).
      * rewrite Es in He. apply register_entries in He as [He| ->]; [by apply (IH i e)|by right].
  - rewrite E. exact IH.
Qed.
End commands.

(** A registration on a new device. *)

Definition new_vm : Vm unit := mkVm (mkComm [] []) store_new None [] tt.
Definition take_demo (_ : list Z) : option (Manifest * list Z) := Some (demo_manifest, []).
Abbreviation registered_vm :=
  (snd (answer (H:=Toy32) (K:=Z) (HP:=24576) Flex [49] take_demo false id (fun _ d => (true, d)) [] None 24576 320
     1 (mkChannels (mkComm [] []) (mkComm [] []) (mkComm [] [])) (mkHeader 2 0 0) [] new_vm)).
Definition demo_entry : VAppEntry :=
  new_entry (get_vapp_hash (H:=Toy32) demo_manifest) (vapp_name demo_manifest) (vapp_version demo_manifest).
Lemma registered_entry : entry_at (vm_store registered_vm) 0 demo_entry.
Proof. exists (mkLazy STORAGE_VALID demo_entry). split; [vm_compute; reflexivity|]. split; vm_compute; reflexivity. Qed.
Lemma new_names_unique : names_unique (vm_store new_vm).
Proof. intros i j e f He. destruct (store_new_empty _ _ He). Qed.
Lemma only_approved_witness :
  approved (H:=Toy32) (D:=unit) false id (fun _ d => (true, d)) (entry_hash demo_entry) /\
  names_unique (vm_store registered_vm).
Proof.
  destruct (only_approved (H:=Toy32) (K:=Z) (HP:=24576) Flex [49] take_demo false id (fun _ d => (true, d)) 24576 320
    new_vm registered_vm 0 demo_entry) as [Hu He].
  - apply served_command, served_none.
  - exact new_names_unique.
  - split; [|exact Hu]. destruct (He registered_entry) as [(j & f & Hf & _)|Ha]; [|exact Ha].
    destruct (store_new_empty _ _ Hf).
Defined.

(** ** The information about the app *)

Section app_info.
Context {H K : Type} `{HL : HasherLaws H 32} `{DV : Device K}.

Lemma parse_prefixed (l field r : list Z) : (length field < 256)%nat ->
  parse_field (l ++ prefixed field ++ r) (length l) = Ok (field, length (l ++ prefixed field)).
Proof.
  intros Hf. unfold parse_field, prefixed, too_short, guard_err. rewrite !length_app. cbn [length].
  rewrite (proj2 (Nat.leb_gt _ _)) by lia. cbn [mbind outcome_mbind outcome_bind].
  rewrite lookup_app_r, Nat.sub_diag by lia. cbn [app lookup list_lookup unwrap mbind outcome_mbind outcome_bind].
  unfold w8, wrap. rewrite Z.mod_small by lia. rewrite Nat2Z.id.
  rewrite (proj2 (Nat.ltb_ge _ _)) by (cbn; lia). cbn [mbind outcome_mbind outcome_bind].
  f_equal. f_equal; [|lia]. unfold slice. rewrite drop_app_ge by lia.
  replace (S (length l) - length l)%nat with 1%nat by lia. cbn [drop app]. by rewrite drop_0, take_app_length.
Qed.

(** What the client reads of [GetAppInfo] is what the VM answers: the name, the version,
    the model of the device and the identifier of this instance of the app. *)
Theorem app_info_round_trip (is_utf8 : list Z -> bool) target CARGO_PKG_VERSION :
  is_utf8 (tag_bytes "Vanadium") = true -> is_utf8 CARGO_PKG_VERSION = true ->
  is_utf8 (get_device_model target) = true -> (length CARGO_PKG_VERSION < 256)%nat ->
  parse_app_info is_utf8 (handler_get_app_info (H:=H) target CARGO_PKG_VERSION) =
  Ok (mkAppInfo (tag_bytes "Vanadium") CARGO_PKG_VERSION (get_device_model target) (get_vanadium_app_id (H:=H))).
Proof.
  intros U1 U2 U3 Hv. unfold handler_get_app_info, parse_app_info, parse_text, guard_err.
  set (n := tag_bytes "Vanadium") in *. set (v := CARGO_PKG_VERSION) in *. set (d := get_device_model target) in *.
  set (id := [32] ++ get_vanadium_app_id).
  assert (length n < 256)%nat as Hn by (vm_compute; lia). assert (length d < 256)%nat as Hd by (destruct target; vm_compute; lia).
  assert (length (get_vanadium_app_id (H:=H)) = 32%nat) as Hid.
  { unfold get_vanadium_app_id, tagged_hash. erewrite absorbed_digest; [apply hash_length|].
    apply absorbed_update, absorbed_update, (absorbed_update _ []), absorbed_new. }
  rewrite (parse_prefixed [] n _ Hn : parse_field (prefixed n ++ _) 0 = _). cbn [mbind outcome_mbind outcome_bind app]. rewrite U1.
  cbn [negb mbind outcome_mbind outcome_bind].
  rewrite (parse_prefixed (prefixed n) v) by done. cbn [mbind outcome_mbind outcome_bind]. rewrite U2.
  cbn [negb mbind outcome_mbind outcome_bind]. rewrite (app_assoc (prefixed n)).
  rewrite (parse_prefixed (prefixed n ++ prefixed v) d) by done. cbn [mbind outcome_mbind outcome_bind]. rewrite U3.
  cbn [negb mbind outcome_mbind outcome_bind]. rewrite app_assoc.
  set (l := (prefixed n ++ prefixed v) ++ prefixed d). unfold too_short, guard_err, id.
  rewrite !length_app. cbn [length]. rewrite (proj2 (Nat.leb_gt _ _)) by lia. cbn [mbind outcome_mbind outcome_bind].
  rewrite lookup_app_r, Nat.sub_diag by lia. cbn [app lookup list_lookup unwrap mbind outcome_mbind outcome_bind].
  cbn [Z.eqb Pos.eqb negb mbind outcome_mbind outcome_bind]. rewrite Hid.
  rewrite (proj2 (Nat.ltb_ge _ _)) by (cbn; lia). cbn [mbind outcome_mbind outcome_bind]. do 2 f_equal.
  unfold slice. rewrite drop_app_ge by lia. replace (S (length l) - length l)%nat with 1%nat by lia. cbn [app drop].
  rewrite take_ge; [done|]. rewrite drop_0. lia.
Qed.
End app_info.
Lemma app_info_round_trip_witness :
  parse_app_info (fun _ => true) (handler_get_app_info (H:=Toy32) (K:=Z) Flex [49; 46; 48]) =
  Ok (mkAppInfo (tag_bytes "Vanadium") [49; 46; 48] (get_device_model Flex) (get_vanadium_app_id (H:=Toy32) (cx_aes_key_t:=Z))).
Proof. apply (app_info_round_trip (H:=Toy32) (fun _ => true) Flex [49; 46; 48] eq_refl eq_refl eq_refl). cbn. lia. Defined.

(** ** The file of HMACs *)

Lemma slice_at {A} (l m r all : list A) i n : all = l ++ m ++ r -> length l = i -> length m = n -> slice i n all = m.
Proof. intros -> <- <-. unfold slice. by rewrite drop_app_length, take_app_length. Qed.
Lemma hmacs_from_app n : forall pre rest, length pre = (32 * (length pre / 32))%nat ->
  length rest = (32 * n)%nat -> 
  CodeHmacs.hmacs_from (pre ++ rest) (length pre / 32) n = hash_slice n rest.
Proof.
  induction n as [|n IH]; intros pre rest Hp Hr; [done|]. cbn [CodeHmacs.hmacs_from hash_slice].
  set (k := (length pre / 32)%nat) in *. unfold slice at 1. rewrite drop_app_ge by lia.
  replace (k * 32 - length pre)%nat with 0%nat by lia. rewrite drop_0. f_equal.
  assert (length (pre ++ take 32 rest) = (32 * S k)%nat) as Hl by (rewrite length_app, length_take; lia).
  assert (length (pre ++ take 32 rest) / 32 = S k)%nat as Hk by (rewrite Hl, Nat.mul_comm; by apply Nat.div_mul).
  rewrite <- (IH (pre ++ take 32 rest) (drop 32 rest)); [|by rewrite Hk|rewrite length_drop; lia].
  by rewrite Hk, <- app_assoc, take_drop.
Qed.
Lemma hmacs_from_all data n : length data = (32 * n)%nat -> CodeHmacs.hmacs_from data 0 n = hash_slice n data.
Proof. intros Hl. exact (hmacs_from_app n [] data eq_refl Hl). Qed.

(** The client's file of HMACs: loading a file for a V-App and an instance of the app
    gives a list of HMACs exactly when the file is the one that saving this list for them
    writes; so no other file, and no file of another V-App or device, is accepted. *)
Theorem hmac_file_exact file vapp_hash app_id hmacs : length vapp_hash = 32%nat -> length app_id = 32%nat ->
  CodeHmacs.load (Some file) vapp_hash app_id = Ok hmacs <->
  Forall (fun h => length h = 32%nat) hmacs /\ file = CodeHmacs.save hmacs vapp_hash app_id.
Proof.
  intros Hv Ha. unfold CodeHmacs.load, CodeHmacs.save, guard_err. cbn [ok_or mbind outcome_mbind outcome_bind].
  set (magic := CodeHmacs.HMAC_FILE_MAGIC). assert (length magic = 10%nat) as Hm by done. clearbody magic. split.
  - destruct (Nat.ltb_spec (length file) 74) as [|Hl]; [done|]. cbn [mbind outcome_mbind outcome_bind].
    destruct (bool_decide_reflect (slice 0 10 file = magic)) as [E1|]; [|done].
    destruct (bool_decide_reflect (slice 10 32 file = vapp_hash)) as [E2|]; [|done].
    destruct (bool_decide_reflect (slice 42 32 file = app_id)) as [E3|]; [|done]. cbn [negb mbind outcome_mbind outcome_bind].
    destruct (Nat.eqb_spec (length (drop 74 file) mod 32) 0) as [E0|]; [|done]. cbn [negb mbind outcome_mbind outcome_bind].
    intros Hh. assert (length (drop 74 file) = (32 * (length (drop 74 file) / 32))%nat) as Hd
      by (pose proof (Nat.div_mod_eq (length (drop 74 file)) 32); lia).
    rewrite hmacs_from_all in Hh by done. assert (hash_slice (length (drop 74 file) / 32) (drop 74 file) = hmacs) as <- by congruence.
    split; [apply hash_slice_length; lia|].
    rewrite concat_hash_slice by done. subst magic vapp_hash app_id. unfold slice.
    rewrite <- (take_drop 10 file) at 1. rewrite <- (take_drop 32 (drop 10 file)) at 1.
    rewrite drop_drop. rewrite <- (take_drop 32 (drop (10 + 32) file)) at 1. rewrite drop_drop. done.
  - intros [Hh ->]. assert (length (concat hmacs) = 32 * length hmacs)%nat as Hc by by apply length_concat_hashes.
    rewrite !length_app, (proj2 (Nat.ltb_ge _ _)) by lia. cbn [mbind outcome_mbind outcome_bind].
    rewrite (slice_at [] magic _ _ 0 10), (slice_at magic vapp_hash _ _ 10 32),
      (slice_at (magic ++ vapp_hash) app_id _ _ 42 32) by (rewrite ?length_app, <- ?app_assoc; done || (cbn; lia)).
    rewrite !bool_decide_eq_true_2 by done. cbn [negb mbind outcome_mbind outcome_bind].
    assert (drop 74 (magic ++ vapp_hash ++ app_id ++ concat hmacs) = concat hmacs) as ->
      by (rewrite !app_assoc; apply drop_app_length'; rewrite !length_app; lia).
    rewrite Hc, Nat.mul_comm, Nat.Div0.mod_mul, Nat.div_mul by lia. cbn [negb Nat.eqb mbind outcome_mbind outcome_bind].
    rewrite hmacs_from_all by lia. f_equal. rewrite <- (app_nil_r (concat hmacs)). by apply hash_slice_concat.
Qed.
Lemma hmac_file_exact_witness :
  CodeHmacs.load (Some (CodeHmacs.save [replicate 32 7; replicate 32 8] (replicate 32 1) (replicate 32 2)))
    (replicate 32 1) (replicate 32 2) = Ok [replicate 32 7; replicate 32 8].
Proof. apply (hmac_file_exact _ (replicate 32 1) (replicate 32 2)); [done|done|]. split; [by repeat constructor|done]. Defined.
