(* ===== verification/PreloadSpec.v ===== *)
(** * Preloading a V-App

    The VM gives the key that decrypts the HMACs of the code pages only to a host whose page
    hashes are those of the manifest's code; it ends whatever the host does; and with the
    client of the repository the host ends with the HMACs of its pages. *)

From S2P Require Import Prelude Memory MemorySpec Accumulator AccumulatorSpec ClientCommands ClientCommandsSpec Evict Aes Auth History Concrete ClientMemory ClientMemorySpec OutsourcedMem OutsourcedSpec OutsourcedRefine Manifest ManifestSpec Ecall StartVapp VanadiumClient Accesses VappRefine EcallFrame Handlers ClientApp.

(** ** Trees over leaf hashes *)

Section trees.
Context {H : Type} `{HL : HasherLaws H OUTPUT_SIZE}.

(** The tree over the leaf hashes, as [new] builds it. *)
Definition tree_over (leaves : list HashOutput) : list HashOutput :=
  match build_loop (H:=H) (length leaves - 1) (replicate (length leaves - 1) [] ++ leaves) with
  | Ok t => t | _ => [] end.
Definition tree_messages (leaves : list HashOutput) : list (list Z) :=
  node_message (tree_over leaves) <$> seq 0 (length leaves - 1).

Lemma tree_over_ok leaves : (0 < length leaves)%nat -> tree_ok leaves (tree_over leaves).
Proof.
  intros Hp. unfold tree_over. set (n := length leaves) in *.
  destruct (build_loop_spec (H:=H) n (n - 1) (replicate (n - 1) [] ++ leaves)) as (t & -> & Hl & Hge & Hn);
    [rewrite length_app, length_replicate; fold n; lia|lia|].
  split; fold n; [done|rewrite Hl, length_app, length_replicate; fold n; lia| |].
  - intros i Hi. rewrite Hge by lia. rewrite lookup_app_r by (rewrite length_replicate; lia).
    rewrite length_replicate. by replace (n - 1 + i - (n - 1))%nat with i by lia.
  - intros i Hi. by apply Hn.
Qed.

(** Two trees with the same root and no collision have the same leaves. *)
Lemma same_root_nodes l1 l2 t1 t2 n : tree_ok l1 t1 -> tree_ok l2 t2 -> length l1 = n -> length l2 = n ->
  Forall (fun h => length h = OUTPUT_SIZE) l1 -> Forall (fun h => length h = OUTPUT_SIZE) l2 ->
  at_ t1 0 = at_ t2 0 ->
  collision_free ((node_message t1 <$> seq 0 (n - 1)) ++ (node_message t2 <$> seq 0 (n - 1))) ->
  forall i, (i < 2 * n - 1)%nat -> at_ t1 i = at_ t2 i.
Proof.
  intros T1 T2 E1 E2 F1 F2 Er Hc i. induction i as [i IH] using lt_wf_ind. intros Hi.
  destruct (decide (i = 0)%nat) as [->|Hi0]; [done|]. pose proof (parent_lt i ltac:(lia)) as Hp.
  assert (parent i < n - 1)%nat as Hpn by (destruct (parent_cases i ltac:(lia)); lia).
  assert (forall t, node_message t (parent i) ∈ node_message t <$> seq 0 (n - 1)) as Hin.
  { intros t. apply list_elem_of_fmap. exists (parent i). split; [done|]. apply elem_of_seq. lia. }
  assert (node_message t1 (parent i) = node_message t2 (parent i)) as Em.
  { apply Hc; [apply elem_of_app; by left|apply elem_of_app; by right|].
    pose proof (tk_nodes _ _ T1 (parent i)) as N1. pose proof (tk_nodes _ _ T2 (parent i)) as N2.
    unfold node in *. unfold node_message. rewrite <- N1, <- N2 by lia. apply IH; lia. }
  injection Em as Em. apply app_inj_length in Em as [Ea Eb].
  - destruct (parent_cases i ltac:(lia)) as [(E & _)|(E & _)]; rewrite E; assumption.
  - rewrite (tree_hash_ok l1 t1), (tree_hash_ok l2 t2); try done; rewrite ?E1, ?E2; lia.
Qed.
Lemma same_root_leaves l1 l2 t1 t2 : tree_ok l1 t1 -> tree_ok l2 t2 -> length l1 = length l2 ->
  Forall (fun h => length h = OUTPUT_SIZE) l1 -> Forall (fun h => length h = OUTPUT_SIZE) l2 ->
  at_ t1 0 = at_ t2 0 ->
  collision_free ((node_message t1 <$> seq 0 (length l1 - 1)) ++ (node_message t2 <$> seq 0 (length l1 - 1))) ->
  l1 = l2.
Proof.
  intros T1 T2 El F1 F2 Er Hc. apply list_eq_same_length with (n := length l1); [done..|].
  intros i x y Hi Hx Hy. pose proof (tk_leaves _ _ T1 i Hi) as L1. pose proof (tk_leaves _ _ T2 i ltac:(lia)) as L2.
  rewrite Hx in L1. rewrite Hy in L2. cbn in L1, L2. rewrite <- L1, <- L2, <- El.
  eapply (same_root_nodes l1 l2 t1 t2 (length l1)); try done. pose proof (tk_pos _ _ T1). lia.
Qed.
End trees.

(** ** The VM *)

Section vm.
Context {H K : Type} `{HL : HasherLaws H 32} `{DV : Device K}.
Context (take_manifest : list Z -> option (Manifest * list Z)) (ephemeral_sk : list Z).

(** The HMAC of a page hash, and what the VM sends of it. *)
Definition page_hmac (vh : list Z) (i : Z) (h : HashOutput) : list Z :=
  default [] (hmac_sha256 (get_vapp_auth_key (H:=H) vh) [TAG_PAGE_HMAC; vh; be_bytes 4 i; h]).
Definition masked_hmac (vh : list Z) (i : Z) (h : HashOutput) : list Z :=
  encrypt_hmac (page_hmac vh i h) (compute_page_hmac_mask (H:=H) ephemeral_sk i).
Definition masked_hmacs (vh : list Z) (i : Z) (hs : list HashOutput) : list (list Z) :=
  imap (fun j h => masked_hmac vh (i + Z.of_nat j) h) hs.
(** The messages that answer the batches, the first of which starts at page [i]. *)
Fixpoint batch_messages (vh : list Z) (i : Z) (batches : list (list HashOutput)) : list (list Z) :=
  match batches with
  | [] => []
  | hs :: rest =>
      let n := i + Z.of_nat (length hs) in
      GetCodePageHashesMessage.ser (GetCodePageHashesMessage.new n (masked_hmacs vh i hs)) ::
      batch_messages vh n rest
  end.

Lemma batch_messages_length vh l : forall i, length (batch_messages vh i l) = length l.
Proof. induction l as [|b l IH]; intros i; cbn; [done|by rewrite IH]. Qed.

(** The computer of the root after some leaf hashes. *)
Definition fed (n : nat) (hs : list HashOutput) : RootComputer :=
  mkRootComputer n (length hs) (stack_of (H:=H) (S n) hs).

Lemma feed_one n hs h rc : root_computer_feed (H:=H) (fed n hs) h = Ok rc ->
  (length hs < n)%nat /\ rc = fed n (hs ++ [h]).
Proof.
  unfold root_computer_feed, fed. cbn [cur_size rc_n hashes]. destruct (Nat.ltb_spec (length hs) n); [|done].
  cbn [assert_or_panic mbind outcome_mbind outcome_bind]. rewrite stack_feed by lia. intros [= <-].
  split; [done|]. f_equal. rewrite length_app. cbn. lia.
Qed.
Lemma feed_one_ok n hs h : (length hs < n)%nat -> root_computer_feed (H:=H) (fed n hs) h = Ok (fed n (hs ++ [h])).
Proof.
  intros Hl. unfold root_computer_feed, fed. cbn [cur_size rc_n hashes].
  rewrite (proj2 (Nat.ltb_lt _ _) Hl). cbn [assert_or_panic mbind outcome_mbind outcome_bind].
  rewrite stack_feed by lia. cbn. rewrite length_app. cbn. by rewrite Nat.add_1_r.
Qed.

Lemma masked_hmacs_cons vh i h hs :
  masked_hmacs vh i (h :: hs) = masked_hmac vh i h :: masked_hmacs vh (i + 1) hs.
Proof.
  unfold masked_hmacs. cbn [imap]. f_equal; [by rewrite Z.add_0_r|].
  apply imap_ext. intros j x _. cbn. f_equal. lia.
Qed.

Lemma batch_loop_spec vh N : Z.of_nat N <= 2 ^ 31 -> forall hs resp done_ r,
  batch_loop (H:=H) ephemeral_sk (get_vapp_auth_key (H:=H) vh) vh hs resp (Z.of_nat (length done_)) (fed N done_) = Ok r ->
  (length done_ <= N)%nat ->
  (length (done_ ++ hs) <= N)%nat /\
  r = (resp ++ masked_hmacs vh (Z.of_nat (length done_)) hs, Z.of_nat (length (done_ ++ hs)), fed N (done_ ++ hs)).
Proof.
  intros HN. induction hs as [|h hs IH]; intros resp done_ r; cbn [batch_loop].
  { intros [= <-] Hd. by rewrite !app_nil_r. }
  intros (mac & Hm & Hr)%outcome_bind_Ok Hd. apply outcome_bind_Ok in Hr as (rc & Hf & Hr).
  apply outcome_map_err_Ok, feed_one in Hf as [Hlt ->].
  assert (page_hmac vh (Z.of_nat (length done_)) h = mac) as Emac.
  { apply outcome_map_err_Ok in Hm. unfold compute_code_page_hmac in Hm. unfold page_hmac.
    destruct (hmac_sha256 _ _); [by injection Hm|done]. }
  assert (u32_add (Z.of_nat (length done_)) 1 = Z.of_nat (length (done_ ++ [h]))) as En.
  { unfold u32_add. rewrite length_app, w32_small by lia. cbn. lia. }
  rewrite En in Hr. apply IH in Hr as [Hl ->]; [|rewrite length_app; cbn; lia].
  rewrite <- (app_assoc done_) in Hl. rewrite <- (app_assoc done_), <- (app_assoc resp). cbn [app] in *.
  split; [done|]. rewrite masked_hmacs_cons. unfold masked_hmac at 1. rewrite Emac.
  rewrite length_app. cbn [length]. by replace (Z.of_nat (length done_ + 1)) with (Z.of_nat (length done_) + 1) by lia.
Qed.

Lemma response_hashes data m : GetCodePageHashesResponse.de data = Ok m ->
  Forall length32 (GetCodePageHashesResponse.code_page_hashes m) /\
  GetCodePageHashesResponse.n_code_pages m = Z.of_nat (length (GetCodePageHashesResponse.code_page_hashes m)).
Proof.
  unfold GetCodePageHashesResponse.de. intros (u & _ & Hr)%outcome_bind_Ok.
  apply outcome_bind_Ok in Hr as (n & _ & Hr). apply outcome_bind_Ok in Hr as (hs & Hh & Hr).
  apply outcome_bind_Ok in Hr as (u2 & Hg & [= <-]).
  cbn [GetCodePageHashesResponse.n_code_pages GetCodePageHashesResponse.code_page_hashes]. unfold hashes_from in Hh.
  apply outcome_bind_Ok in Hh as (u3 & _ & Hh).
  assert (hash_slice ((length data - 4) / 32) (drop 4 data) = hs) as <- by congruence. split.
  - apply hash_slice_length. rewrite length_drop. apply Nat.Div0.mul_div_le.
  - unfold guard_err in Hg. destruct (Z.eqb_spec (Z.of_nat (length (hash_slice ((length data - 4) / 32) (drop 4 data)))) n); [by subst|done].
Qed.

Lemma response_de_ends data : GetCodePageHashesResponse.de data <> Diverge.
Proof.
  unfold GetCodePageHashesResponse.de, expect_min_len, index_u32, index, hashes_from, guard_err, unwrap.
  destruct (_ <? _)%nat; [done|]. cbn [mbind outcome_mbind outcome_bind Nat.add].
  destruct (data !! 0%nat); [|done]. destruct (data !! 1%nat); [|done]. destruct (data !! 2%nat); [|done].
  destruct (data !! 3%nat); [|done]. cbn [mbind outcome_mbind outcome_bind].
  destruct (negb _); [done|]. cbn [mbind outcome_mbind outcome_bind]. by destruct (negb _).
Qed.
Lemma combine_loop_ends d : forall hashes, combine_loop (H:=H) d hashes <> Diverge.
Proof.
  induction d as [|d IH]; intros hashes; cbn [combine_loop]; [done|].
  destruct (vec_pop hashes) as [[r l]|]; [cbn|done]. destruct (vec_pop l) as [[r' l']|]; [cbn; apply IH|done].
Qed.
Lemma batch_loop_ends key vh hs : forall resp n rc, batch_loop (H:=H) ephemeral_sk key vh hs resp n rc <> Diverge.
Proof.
  induction hs as [|h hs IH]; intros resp n rc; cbn [batch_loop]; [done|]. unfold compute_code_page_hmac.
  destruct (hmac_sha256 _ _); [cbn|done]. unfold root_computer_feed. destruct (_ <? _)%nat; [cbn|done].
  pose proof (combine_loop_ends (trailing_zeros (S (cur_size rc))) (hashes rc ++ [h])).
  destruct (combine_loop _ _); cbn; done || apply IH.
Qed.

(** What the loop does from the hashes [done_]: it sends the messages of the batches that it
    takes, none of them empty, and runs out of fuel only when the host does not answer. *)
Definition loop_ends vh N (done_ : list HashOutput) c (r : outcome AppSW.t (Z * RootComputer)) c' : Prop :=
  exists batches, sent c' = sent c ++ batch_messages vh (Z.of_nat (length done_)) batches /\
    Forall (fun b => b <> []) batches /\ (length (done_ ++ concat batches) <= N)%nat /\
    (r = Diverge -> replies c' = []) /\
    forall x, r = Ok x -> Forall length32 (concat batches) /\
      x = (Z.of_nat (length (done_ ++ concat batches)), fed N (done_ ++ concat batches)).
Lemma loop_stops vh N done_ c r : (length done_ <= N)%nat -> r <> Diverge ->
  (forall x, r = Ok x -> x = (Z.of_nat (length done_), fed N done_)) -> loop_ends vh N done_ c r c.
Proof.
  intros Hd Hr Hx. exists []. cbn. rewrite !app_nil_r. split; [done|]. split; [done|]. split; [done|].
  split; [done|]. intros x E. split; [done|]. by apply Hx.
Qed.

Lemma interrupted_step m c : exists o c1, interrupted_preload m c = (o, c1) /\
  sent c1 = sent c ++ [GetCodePageHashesMessage.ser m] /\ (o = Diverge -> replies c1 = []) /\ o <> Panic.
Proof.
  unfold interrupted_preload, interrupt, map_err, mbind, st_mbind, st_bind, get, put.
  destruct (replies c) as [|[| |q1 q2 d] rest]; cbn; try (eexists _, _; split; [reflexivity|]; done).
  destruct (negb _); eexists _, _; (split; [reflexivity|]); done.
Qed.
Lemma preload_loop_spec vh N : Z.of_nat N <= 2 ^ 31 -> forall fuel data done_ c r c',
  preload_loop (H:=H) ephemeral_sk fuel (get_vapp_auth_key (H:=H) vh) vh (Z.of_nat N) data
    (Z.of_nat (length done_)) (fed N done_) c = (r, c') ->
  (length done_ <= N)%nat -> (N - length done_ < fuel)%nat -> loop_ends vh N done_ c r c'.
Proof.
  intros HN. induction fuel as [|fuel IH]; intros data done_ c r c'; [lia|]. cbn [preload_loop].
  intros Hrun Hd Hfuel. unfold mbind, st_mbind, st_bind, lift in Hrun.
  destruct (GetCodePageHashesResponse.de data) as [batch|e| |] eqn:Eb; cbn [outcome_map_err] in Hrun;
    try (injection Hrun as <- <-; by apply loop_stops).
  2: { exfalso. revert Eb. apply response_de_ends. }
  apply response_hashes in Eb as [Hh En]. set (hs := GetCodePageHashesResponse.code_page_hashes batch) in *.
  rewrite En in Hrun. destruct (Z.eqb_spec (Z.of_nat (length hs)) 0) as [E0|E0].
  { injection Hrun as <- <-. apply loop_stops; [done|done|]. by intros x [= <-]. }
  unfold guard_err in Hrun. destruct (_ <? _); [injection Hrun as <- <-; by apply loop_stops|].
  destruct (batch_loop _ _ _ _ _ _ _) as [x|e| |] eqn:Ebl; cbn in Hrun;
    try (injection Hrun as <- <-; by apply loop_stops).
  2: { exfalso. revert Ebl. apply batch_loop_ends. }
  apply (batch_loop_spec vh N HN) in Ebl as [Hl ->]; [|done]. cbn [app] in Hrun.
  set (message := GetCodePageHashesMessage.new _ _) in Hrun.
  destruct (interrupted_step message c) as (o & c1 & Ei & Hs1 & Hd1 & Hp1).
  rewrite Ei in Hrun. assert (hs <> []) as Hne by (intros E; by rewrite E in E0).
  assert (Z.of_nat (length done_) + Z.of_nat (length hs) = Z.of_nat (length (done_ ++ hs))) as El
    by (rewrite length_app; lia).
  assert (batch_messages vh (Z.of_nat (length done_)) [hs] = [GetCodePageHashesMessage.ser message]) as Em.
  { cbn [batch_messages]. by rewrite El. }
  destruct o as [data'|e| |]; [|injection Hrun as <- <-|done|injection Hrun as <- <-].
  2,3: exists [hs]; rewrite Em; split; [done|]; split; [by apply Forall_singleton|];
    cbn [concat]; rewrite app_nil_r; split; [done|]; split; [first [done|by intros _; apply Hd1]|]; by intros x [=].
  apply IH in Hrun as (batches & S1 & S2 & S3 & S4 & S5); [|done|].
  2: { rewrite length_app in *. destruct hs; [done|]. cbn [length] in *. lia. }
  exists (hs :: batches). cbn [batch_messages concat]. rewrite El, S1, Hs1, <- app_assoc. cbn [app].
  split; [done|]. split; [by constructor|]. rewrite <- app_assoc in S3, S5. split; [done|]. split; [done|].
  intros x Hx. destruct (S5 x Hx) as [F ->]. split; [by apply Forall_app|done].
Qed.

Lemma fed_root hs : has_valid_leaf_count (length hs) = true ->
  root_computer_root (fed (length hs) hs) = Ok (at_ (tree_over (H:=H) hs) 0).
Proof.
  intros Hv. pose proof Hv as Hv'. apply valid_count in Hv' as [e He].
  assert (0 < length hs)%nat as Hp by (rewrite He; pose proof (Nat.pow_nonzero 2 e); lia).
  pose proof (root_computer_spec hs (tree_over hs) Hv (tree_over_ok hs Hp)) as Hs. unfold root_computer_new in Hs.
  rewrite Hv in Hs. cbn [assert_or_panic mbind outcome_mbind outcome_bind] in Hs.
  pose proof (feed_all_spec (H:=H) (length hs) hs [] ltac:(cbn; lia)) as Hf.
  rewrite stack_of_nil in Hf. cbn [length app Nat.add] in Hf. by rewrite Hf in Hs.
Qed.
Lemma fed_new N : has_valid_leaf_count N = true -> root_computer_new N = Ok (fed N []).
Proof. intros Hv. unfold root_computer_new, fed. by rewrite Hv, stack_of_nil. Qed.
Lemma rounded_pages n p : n_pages_adjusted n = Ok p ->
  exists N, p = Z.of_nat N /\ Z.of_nat N <= 2 ^ 31 /\ has_valid_leaf_count N = true.
Proof.
  unfold n_pages_adjusted. destruct (checked_next_power_of_two n) as [q|] eqn:E; [|done]. intros [= <-].
  pose proof (next_power_bound _ _ E) as Hb. unfold checked_next_power_of_two in E.
  destruct (_ <? _); [|done]. injection E as <-. pose proof (Z.log2_up_nonneg n).
  exists (2 ^ Z.to_nat (Z.log2_up n))%nat. rewrite Nat2Z.inj_pow, Z2Nat.id by done. split; [done|]. split; [done|].
  apply valid_count. by eexists.
Qed.

(** Everything about a preload whose manifest parses: what is sent, when the VM waits for
    ever, and what it knows when it gives the key. *)
Definition first_request : list Z := GetCodePageHashesMessage.ser (GetCodePageHashesMessage.new 0 []).
Definition preload_ends m c (r : outcome AppSW.t (list Z)) c' : Prop :=
  exists batches,
    sent c' = sent c ++ first_request :: batch_messages (get_vapp_hash (H:=H) m) 0 batches /\
    (r = Diverge -> replies c' = []) /\
    Forall (fun b => b <> []) batches /\
    (forall N, n_pages_adjusted (n_code_pages m) = Ok (Z.of_nat N) -> (length (concat batches) <= N)%nat) /\
    forall k, r = Ok k -> k = ephemeral_sk /\
      n_pages_adjusted (n_code_pages m) = Ok (Z.of_nat (length (concat batches))) /\
      has_valid_leaf_count (length (concat batches)) = true /\ Forall length32 (concat batches) /\
      at_ (tree_over (H:=H) (concat batches)) 0 = code_merkle_root m.
Lemma ends_first m c r c' : sent c' = sent c ++ [first_request] -> (r = Diverge -> replies c' = []) ->
  (forall k, r <> Ok k) -> preload_ends m c r c'.
Proof.
  intros Hs Hd Hk. exists []. split; [done|]. split; [done|]. split; [done|]. split; [cbn; lia|].
  intros k Hr. by destruct (Hk k).
Qed.
Lemma preload_run data_raw c r c' m : handler_preload_vapp (H:=H) take_manifest ephemeral_sk data_raw c = (r, c') ->
  parse_manifest take_manifest data_raw = Ok m -> preload_ends m c r c'.
Proof.
  intros Hrun Hm. unfold handler_preload_vapp, mbind, st_mbind, st_bind, lift in Hrun. rewrite Hm in Hrun.
  destruct (interrupted_step (GetCodePageHashesMessage.new 0 []) c) as (o & c1 & Ei & Hs1 & Hd1 & Hp1).
  rewrite Ei in Hrun.
  destruct o as [data|e| |]; try (injection Hrun as <- <-; apply ends_first; first [done|by intros _; apply Hd1]).
  destruct (n_pages_adjusted (n_code_pages m)) as [p|e| |] eqn:En; cbn [unwrap_ok] in Hrun;
    try (injection Hrun as <- <-; by apply ends_first).
  2: { exfalso. unfold n_pages_adjusted, unwrap in En. by destruct (checked_next_power_of_two _). }
  destruct (rounded_pages _ _ En) as (N & -> & HN & Hv). rewrite Nat2Z.id, (fed_new N Hv) in Hrun.
  cbn [unwrap_ok] in Hrun.
  destruct (preload_loop _ _ _ _ _ _ _ _ _) as [o c2] eqn:El.
  destruct (preload_loop_spec (get_vapp_hash (H:=H) m) N HN _ data [] c1 o c2 El ltac:(cbn; lia) ltac:(cbn; lia))
    as (batches & S1 & S2 & S3 & S4 & S5). cbn [length app] in *.
  assert (forall N', Ok (E:=MemoryError) (Z.of_nat N) = Ok (Z.of_nat N') -> (length (concat batches) <= N')%nat) as SN
    by (by intros N' [= ->%Nat2Z.inj]).
  assert (forall r0, r0 <> Diverge \/ o = Diverge -> (r0, c2) = (r, c') -> (forall k, r = Ok k -> k = ephemeral_sk /\
      Ok (Z.of_nat N) = Ok (E:=MemoryError) (Z.of_nat (length (concat batches))) /\
      has_valid_leaf_count (length (concat batches)) = true /\ Forall length32 (concat batches) /\
      at_ (tree_over (H:=H) (concat batches)) 0 = code_merkle_root m) -> preload_ends m c r c') as Hend.
  { intros r0 Hr0 [= -> <-] Hk. exists batches. rewrite En. split; [by rewrite S1, Hs1, <- app_assoc|].
    split; [intros ->; destruct Hr0; [done|auto]|]. done. }
  destruct o as [[n rc]|e| |]; try (refine (Hend _ _ Hrun _); [by (left + right)|]; by injection Hrun as <- _).
  destruct (S5 _ eq_refl) as [F [= -> ->]]. unfold guard_err in Hrun.
  destruct (Z.eqb_spec (Z.of_nat (length (concat batches))) (Z.of_nat N)) as [EN|]; cbn [negb] in Hrun.
  2: { refine (Hend _ _ Hrun _); [by left|]. by injection Hrun as <- _. }
  apply Nat2Z.inj in EN. subst N. rewrite fed_root in Hrun by done. cbn [unwrap_ok] in Hrun.
  case_bool_decide as Ert; cbn in Hrun; (refine (Hend _ _ Hrun _); [by left|]).
  - unfold mret, st_mret, st_ret in Hrun. injection Hrun as <- _. by intros k [= <-].
  - by injection Hrun as <- _.
Qed.

(** C13. The VM gives the key of a preload only for the pages of the code: whatever the host
    sends, each answer carries the masked HMACs of the page hashes that it received, in
    order, and if the VM ends with the key then these hashes are those of the pages that the
    manifest commits to, unless two different messages of the two trees have the same
    hash. *)
Theorem preload_sound data_raw c r c' m acc :
  parse_manifest take_manifest data_raw = Ok m ->
  handler_preload_vapp (H:=H) take_manifest ephemeral_sk data_raw c = (r, c') ->
  acc_ok acc -> Accumulator.merkle_root acc = Ok (code_merkle_root m) ->
  n_pages_adjusted (n_code_pages m) = Ok (Z.of_nat (length (data acc))) ->
  exists batches,
    sent c' = sent c ++ first_request :: batch_messages (get_vapp_hash (H:=H) m) 0 batches /\
    forall k, r = Ok k -> k = ephemeral_sk /\
      (collision_free (tree_messages (H:=H) (concat batches) ++ acc_messages acc) ->
       concat batches = leaf <$> data acc).
Proof.
  intros Hm Hrun Hacc Hroot Hn. destruct (preload_run _ _ _ _ _ Hrun Hm) as (batches & Hs & _ & _ & _ & Hk).
  exists batches. split; [done|]. intros k Hr. destruct (Hk k Hr) as (-> & Hn' & Hv & F & Ht). split; [done|].
  intros Hc. rewrite Hn in Hn'. injection Hn' as Hl%Nat2Z.inj. rewrite (acc_root _ Hacc) in Hroot.
  injection Hroot as Hroot. pose proof Hacc as [_ Htree].
  apply (same_root_leaves _ _ (tree_over (concat batches)) (tree acc)); try done.
  - apply tree_over_ok. apply valid_count in Hv as [e ->]. pose proof (Nat.pow_nonzero 2 e). lia.
  - by rewrite length_fmap.
  - apply leaves_hash_ok.
  - by rewrite Ht.
  - eapply collision_free_sub; [|exact Hc]. rewrite <- Hl. unfold tree_messages, acc_messages. rewrite <- Hl.
    intros x. rewrite !elem_of_app. tauto.
Qed.

(** C15. A preload ends: the VM answers at most once more than there are pages, and only a
    host that stops answering makes it wait. *)
Theorem preload_terminates data_raw c r c' m N :
  parse_manifest take_manifest data_raw = Ok m -> n_pages_adjusted (n_code_pages m) = Ok (Z.of_nat N) ->
  handler_preload_vapp (H:=H) take_manifest ephemeral_sk data_raw c = (r, c') ->
  (r = Diverge -> replies c' = []) /\ (length (sent c') <= length (sent c) + 1 + N)%nat.
Proof.
  intros Hm Hn Hrun. destruct (preload_run _ _ _ _ _ Hrun Hm) as (batches & Hs & Hd & Hne & Hb & _).
  split; [done|]. rewrite Hs, length_app. cbn [length]. rewrite batch_messages_length.
  specialize (Hb N Hn). assert (length batches <= length (concat batches))%nat; [|lia].
  clear -Hne. induction Hne as [|b l Hb _ IH]; [done|]. cbn. rewrite length_app. destruct b; [done|]. cbn. lia.
Qed.
End vm.

(** ** The client's conversation with the VM *)

Section conversation.
Context {H K : Type} `{HL : HasherLaws H 32} `{DV : Device K}.
Context (take_manifest : list Z -> option (Manifest * list Z)) (ephemeral_sk : list Z).
Context (to_allocvec : Manifest -> option (list Z)).
(** [hmac_sha256] does not fail and fills an array of 32 bytes. *)
Hypothesis hmac_array : forall k ms, exists mac, hmac_sha256 k ms = Some mac /\ length mac = 32%nat.

Definition response (batch : list HashOutput) : list Z :=
  GetCodePageHashesResponse.ser (GetCodePageHashesResponse.mk (Z.of_nat (length batch)) batch).
Definition MAX_BATCH : nat := 18.
Lemma max_batch : GetCodePageHashesResponse.max_hashes = Z.of_nat MAX_BATCH.
Proof. done. Qed.

(** What the client sends of the hashes. *)
Fixpoint batches_of (fuel : nat) (hs : list HashOutput) : list (list HashOutput) :=
  match fuel, hs with
  | S fuel, _ :: _ => take MAX_BATCH hs :: batches_of fuel (drop MAX_BATCH hs)
  | _, _ => []
  end.
Lemma concat_batches fuel : forall hs, (length hs <= fuel)%nat -> concat (batches_of fuel hs) = hs.
Proof.
  induction fuel as [|fuel IH]; intros [|h hs] Hl; cbn [batches_of concat]; try done; [cbn in Hl; lia|].
  rewrite IH, take_drop; [done|]. rewrite length_drop. cbn in *. lia.
Qed.

Record batch_ok (b : list HashOutput) : Prop := {
  bo_some : b <> []; bo_max : (length b <= MAX_BATCH)%nat; bo_hash : Forall length32 b }.
Lemma batches_ok fuel : forall hs, Forall length32 hs -> Forall batch_ok (batches_of fuel hs).
Proof.
  induction fuel as [|fuel IH]; intros [|h hs] Hh; cbn [batches_of]; try constructor.
  - split; [done|rewrite length_take; lia|by apply Forall_take].
  - apply IH. by apply Forall_drop.
Qed.

Lemma de_response b : (length b <= MAX_BATCH)%nat -> Forall length32 b ->
  GetCodePageHashesResponse.de (response b) = Ok (GetCodePageHashesResponse.mk (Z.of_nat (length b)) b).
Proof.
  intros Hl Hb. unfold GetCodePageHashesResponse.de, response, GetCodePageHashesResponse.ser, MAX_BATCH in *.
  cbn [GetCodePageHashesResponse.n_code_pages GetCodePageHashesResponse.code_page_hashes].
  rewrite index_u32_at0 by (split; lia). rewrite hashes_from_app by done. cbn. by rewrite Z.eqb_refl.
Qed.
Lemma de_request n hs : is_u32 n -> Forall length32 hs ->
  GetCodePageHashesMessage.de (GetCodePageHashesMessage.ser (GetCodePageHashesMessage.new n hs)) =
  Ok (GetCodePageHashesMessage.new n hs).
Proof.
  intros Hn Hh. unfold GetCodePageHashesMessage.de, GetCodePageHashesMessage.ser, GetCodePageHashesMessage.new.
  cbn [GetCodePageHashesMessage.command_code GetCodePageHashesMessage.n_prev_batch_pages
    GetCodePageHashesMessage.prev_batch_enc_hmacs].
  rewrite index_u32_at1 by done. rewrite app_assoc, hashes_from_app by done. done.
Qed.

Lemma page_hmac_length vh i h : length (page_hmac (H:=H) vh i h) = 32%nat.
Proof. unfold page_hmac. destruct (hmac_array (get_vapp_auth_key (H:=H) vh) [TAG_PAGE_HMAC; vh; be_bytes 4 i; h]) as (mac & -> & Hl). done. Qed.
Lemma mask_hash i : exists d, compute_page_hmac_mask (H:=H) ephemeral_sk i = hash d.
Proof.
  eexists. unfold compute_page_hmac_mask. apply absorbed_digest.
  apply absorbed_update, absorbed_update, (absorbed_update _ []), absorbed_new.
Qed.
Lemma mask_length i : length (compute_page_hmac_mask (H:=H) ephemeral_sk i) = 32%nat.
Proof. destruct (mask_hash i) as [d ->]. apply hash_length. Qed.
Lemma masked_hmacs_length vh i hs : Forall length32 (masked_hmacs (H:=H) ephemeral_sk vh i hs).
Proof.
  revert i; induction hs as [|h hs IH]; intros i; [by constructor|]. rewrite masked_hmacs_cons.
  constructor; [|apply IH]. unfold masked_hmac, encrypt_hmac. rewrite length_zip_with, page_hmac_length, mask_length. done.
Qed.

(** *** The VM's side *)

Lemma batch_loop_ok vh N : Z.of_nat N <= 2 ^ 31 -> forall hs resp done_, (length (done_ ++ hs) <= N)%nat ->
  batch_loop (H:=H) ephemeral_sk (get_vapp_auth_key (H:=H) vh) vh hs resp (Z.of_nat (length done_)) (fed (H:=H) N done_) =
  Ok (resp ++ masked_hmacs (H:=H) ephemeral_sk vh (Z.of_nat (length done_)) hs, Z.of_nat (length (done_ ++ hs)),
      fed N (done_ ++ hs)).
Proof.
  intros HN. induction hs as [|h hs IH]; intros resp done_ Hl; cbn [batch_loop]; [by rewrite !app_nil_r|].
  rewrite length_app in Hl. cbn [length] in Hl. unfold compute_code_page_hmac.
  destruct (hmac_array (get_vapp_auth_key (H:=H) vh) [TAG_PAGE_HMAC; vh; be_bytes 4 (Z.of_nat (length done_)); h])
    as (mac & Em & Hml). rewrite Em. cbn [ok_or outcome_map_err mbind outcome_mbind outcome_bind].
  rewrite feed_one_ok by lia. cbn [outcome_map_err mbind outcome_mbind outcome_bind].
  assert (u32_add (Z.of_nat (length done_)) 1 = Z.of_nat (length (done_ ++ [h]))) as ->.
  { unfold u32_add. rewrite length_app, w32_small by lia. cbn. lia. }
  rewrite IH by (rewrite !length_app; cbn; lia). rewrite masked_hmacs_cons. unfold masked_hmac at 1, page_hmac at 1.
  rewrite Em. rewrite <- !app_assoc. cbn [app]. rewrite length_app. cbn [length default].
  by replace (Z.of_nat (length done_ + 1)) with (Z.of_nat (length done_) + 1) by lia.
Qed.

Lemma interrupted_continue m d rest s :
  interrupted_preload m (mkComm (Continue 0 0 d :: rest) s) =
  (Ok d, mkComm rest (s ++ [GetCodePageHashesMessage.ser m])).
Proof. done. Qed.
Lemma vm_conversation vh N : Z.of_nat N <= 2 ^ 31 -> forall batches fuel done_ s,
  Forall batch_ok batches -> (length batches < fuel)%nat -> (length (done_ ++ concat batches) <= N)%nat ->
  preload_loop (H:=H) ephemeral_sk fuel (get_vapp_auth_key (H:=H) vh) vh (Z.of_nat N)
    (response (hd [] batches)) (Z.of_nat (length done_)) (fed N done_)
    (mkComm (Continue 0 0 <$> tail (response <$> (batches ++ [[]]))) s) =
  (Ok (Z.of_nat (length (done_ ++ concat batches)), fed N (done_ ++ concat batches)),
   mkComm [] (s ++ batch_messages (H:=H) ephemeral_sk vh (Z.of_nat (length done_)) batches)).
Proof.
  intros HN. induction batches as [|b batches IH]; intros [|fuel] done_ s Hb Hf Hl; cbn [length] in Hf; try lia.
  { cbn. by rewrite !app_nil_r. }
  apply Forall_cons in Hb as [[B1 B2 B3] Hb]. cbn [hd preload_loop concat app] in *.
  assert (Z.of_nat (length done_) + Z.of_nat (length b) = Z.of_nat (length (done_ ++ b))) as El
    by (rewrite length_app; lia).
  rewrite app_assoc in Hl |- *. pose proof Hl as Hl'. rewrite (length_app (done_ ++ b)) in Hl'.
  unfold mbind, st_mbind, st_bind, lift. rewrite de_response by done. cbn [outcome_map_err
    GetCodePageHashesResponse.n_code_pages GetCodePageHashesResponse.code_page_hashes].
  destruct (Z.eqb_spec (Z.of_nat (length b)) 0); [destruct b; [done|cbn in *; lia]|].
  assert (u32_add (Z.of_nat (length done_)) (Z.of_nat (length b)) = Z.of_nat (length (done_ ++ b))) as ->.
  { unfold u32_add. rewrite El, w32_small; lia. }
  rewrite (proj2 (Z.ltb_ge _ _)) by lia. cbn [guard_err]. rewrite batch_loop_ok by lia. cbn [app tail fmap list_fmap].
  destruct batches as [|b' batches]; cbn [app fmap list_fmap tail]; rewrite interrupted_continue.
  - specialize (IH fuel (done_ ++ b) (s ++ [GetCodePageHashesMessage.ser (GetCodePageHashesMessage.new
      (Z.of_nat (length (done_ ++ b))) (masked_hmacs (H:=H) ephemeral_sk vh (Z.of_nat (length done_)) b))]) Hb ltac:(lia) Hl). cbn [hd app fmap list_fmap tail] in IH. rewrite IH.
    cbn [batch_messages]. by rewrite <- El, <- (app_assoc s).
  - specialize (IH fuel (done_ ++ b) (s ++ [GetCodePageHashesMessage.ser (GetCodePageHashesMessage.new
      (Z.of_nat (length (done_ ++ b))) (masked_hmacs (H:=H) ephemeral_sk vh (Z.of_nat (length done_)) b))]) Hb ltac:(lia) Hl). cbn [hd app fmap list_fmap tail] in IH. rewrite IH.
    cbn [batch_messages]. by rewrite <- El, <- (app_assoc s).
Qed.

(** *** The client's side *)

Lemma masked_hmacs_app vh i l1 l2 : masked_hmacs (H:=H) ephemeral_sk vh i (l1 ++ l2) =
  masked_hmacs (H:=H) ephemeral_sk vh i l1 ++ masked_hmacs (H:=H) ephemeral_sk vh (i + Z.of_nat (length l1)) l2.
Proof.
  revert i; induction l1 as [|h l1 IH]; intros i; cbn [app length]; [by rewrite Z.add_0_r|].
  rewrite !masked_hmacs_cons, IH. cbn [app]. do 3 f_equal. lia.
Qed.
Lemma take_batch (prefix rest : list HashOutput) :
  hashes_range (E:=string) (Z.of_nat (length prefix))
    (Z.of_nat (length prefix) + Z.min GetCodePageHashesResponse.max_hashes
       (Z.of_nat (length (prefix ++ rest)) - Z.of_nat (length prefix))) (prefix ++ rest) = Ok (take MAX_BATCH rest) /\
  Z.min GetCodePageHashesResponse.max_hashes (Z.of_nat (length (prefix ++ rest)) - Z.of_nat (length prefix)) =
    Z.of_nat (length (take MAX_BATCH rest)).
Proof.
  rewrite max_batch, length_app, length_take. unfold hashes_range. rewrite !length_app.
  split; [|lia]. rewrite (proj2 (Z.leb_le _ _)), (proj2 (Z.leb_le _ _)) by lia. cbn [andb].
  unfold slice. rewrite Nat2Z.id, drop_app_length. f_equal.
  destruct (Nat.le_ge_cases MAX_BATCH (length rest)); [f_equal; lia|rewrite !take_ge by lia; done].
Qed.
Lemma exchange_reply {E} (e : E) a st d rest cmds :
  transport_exchange e a (mkTransport (DeviceReply st d :: rest) cmds) = (Ok (st, d), mkTransport rest (cmds ++ [a])).
Proof. done. Qed.

Lemma batches_of_step rest f : rest <> [] -> (length rest <= f)%nat ->
  batches_of f rest = take MAX_BATCH rest :: batches_of (f - 1) (drop MAX_BATCH rest) /\
  (length (drop MAX_BATCH rest) <= f - 1)%nat /\ take MAX_BATCH rest <> [].
Proof.
  intros Hr Hf. destruct f as [|f]; destruct rest as [|h rest]; try done; [cbn in Hf; lia|].
  replace (S f - 1)%nat with f by lia. split; [done|]. split; [|done]. rewrite length_drop. cbn [length] in *.
  unfold MAX_BATCH. lia.
Qed.
Lemma client_conversation vh : length ephemeral_sk = 32%nat -> forall fuel rest f prefix enc cmds,
  Forall length32 rest -> (length rest <= f)%nat -> (length (batches_of f rest) < fuel)%nat ->
  Z.of_nat (length (prefix ++ rest)) <= 2 ^ 31 ->
  preload_batches fuel (prefix ++ rest) (Z.of_nat (length (prefix ++ rest))) (Z.of_nat (length prefix)) enc
    (mkTransport ((DeviceReply InterruptedExecution <$>
        batch_messages (H:=H) ephemeral_sk vh (Z.of_nat (length prefix)) (batches_of f rest)) ++
        [DeviceReply StatusOK ephemeral_sk]) cmds) =
  (Ok (ephemeral_sk, enc ++ masked_hmacs (H:=H) ephemeral_sk vh (Z.of_nat (length prefix)) rest),
   mkTransport [] (cmds ++ (apdu_continue <$> (response <$> (batches_of f rest ++ [[]]))))).
Proof.
  intros Hsk. induction fuel as [|fuel IH]; intros rest f prefix enc cmds Hr Hf Hfuel HN; [lia|].
  cbn [preload_batches]. unfold mbind at 1, st_mbind, st_bind, lift. destruct (take_batch prefix rest) as [-> ->].
  destruct (decide (rest = [])) as [->|Hne].
  { replace (batches_of f []) with ([] : list (list HashOutput)) by by destruct f.
    rewrite take_nil. cbn [batch_messages fmap list_fmap app]. unfold mbind at 1, st_mbind, st_bind.
    rewrite exchange_reply. cbn. rewrite Hsk. cbn. unfold masked_hmacs. cbn [imap]. by rewrite (app_nil_r enc). }
  destruct (batches_of_step rest f Hne Hf) as (Eb & Hlt & Hbne). rewrite Eb in Hfuel |- *.
  set (b := take MAX_BATCH rest) in *. set (tl := drop MAX_BATCH rest) in *.
  assert (rest = b ++ tl) as Er by (symmetry; apply take_drop).
  assert (length b <= MAX_BATCH)%nat as Hbl by (unfold b; rewrite length_take; lia).
  assert (Forall length32 b /\ Forall length32 tl) as [Hb Htl] by (apply Forall_app; by rewrite <- Er).
  assert (Z.of_nat (length prefix) + Z.of_nat (length b) = Z.of_nat (length (prefix ++ b))) as El
    by (rewrite length_app; lia).
  assert (prefix ++ rest = (prefix ++ b) ++ tl) as Ep by (by rewrite <- app_assoc, <- Er).
  assert (Z.of_nat (length (prefix ++ b)) <= 2 ^ 31) as Hpb by (rewrite Ep, length_app in HN; lia).
  cbn [batch_messages fmap list_fmap app length] in *. unfold mbind at 1, st_mbind, st_bind.
  rewrite (w32_small (Z.of_nat (length b))) by (unfold MAX_BATCH in Hbl; lia).
  rewrite exchange_reply, El. rewrite bool_decide_eq_false_2 by done.
  unfold is_interrupted. rewrite bool_decide_eq_true_2 by done.
  set (m := GetCodePageHashesMessage.new (Z.of_nat (length (prefix ++ b))) (masked_hmacs (H:=H) ephemeral_sk vh (Z.of_nat (length prefix)) b)).
  assert (GetCodePageHashesMessage.de (GetCodePageHashesMessage.ser m) = Ok m) as Hde.
  { apply de_request; [split; lia|apply masked_hmacs_length]. }
  change (GetCodePageHashesMessage.ser m) with (7 :: drop 1 (GetCodePageHashesMessage.ser m)) at 1.
  unfold mbind, st_mbind, st_bind, lift. cbn [command_code_of ok_or negb guard_err].
  rewrite bool_decide_eq_true_2 by done. cbn [negb guard_err]. rewrite Hde. cbn [outcome_map_err].
  specialize (IH tl (f - 1)%nat (prefix ++ b) (enc ++ masked_hmacs (H:=H) ephemeral_sk vh (Z.of_nat (length prefix)) b)
    (cmds ++ [apdu_continue (response b)]) Htl Hlt ltac:(lia)). rewrite <- Ep in IH.
  unfold m at 1. cbn [GetCodePageHashesMessage.new GetCodePageHashesMessage.prev_batch_enc_hmacs].
  etransitivity; [exact (IH HN)|]. rewrite <- !app_assoc, Er, masked_hmacs_app, El. done.
Qed.

Lemma leaf_hashes_all acc : acc_ok (H:=H) acc -> forall n i pre, (i + n = length (data acc))%nat ->
  Z.of_nat (length (data acc)) <= 2 ^ 31 ->
  leaf_hashes_loop (H:=H) (mkClientSegment acc) (Z.of_nat i) n pre = Ok (pre ++ (leaf <$> drop i (data acc))).
Proof.
  intros Hok. induction n as [|n IH]; intros i pre Hi Hl; cbn [leaf_hashes_loop].
  { by rewrite drop_ge, app_nil_r by lia. }
  destruct (lookup_lt_is_Some_2 (data acc) i ltac:(lia)) as [x Hx].
  unfold client_get_page, merkle_get. cbn [ClientMemory.content]. rewrite (w32_small (Z.of_nat i)), Nat2Z.id, Hx by lia.
  rewrite (prove_spec acc i Hok) by lia. cbn [ok_or acc_err outcome_map_err mbind outcome_mbind outcome_bind].
  replace (Z.of_nat i + 1) with (Z.of_nat (S i)) by lia. rewrite IH by lia.
  rewrite (drop_S _ _ _ Hx). cbn [fmap list_fmap]. rewrite <- app_assoc. cbn [app]. repeat f_equal.
  unfold leaf_hash. apply absorbed_digest, (absorbed_update _ [0]), (absorbed_update _ []), absorbed_new.
Qed.
Lemma xor_masked (l k : list Z) : (length l <= length k)%nat -> zip_with Z.lxor (zip_with Z.lxor l k) k = l.
Proof.
  revert k; induction l as [|x l IH]; intros [|y k] Hl; cbn in *; try done; [lia|].
  rewrite IH by lia. by rewrite Z.lxor_assoc, Z.lxor_nilpotent, Z.lxor_0_r.
Qed.
Definition code_hmacs (vh : list Z) (hs : list HashOutput) : list (list Z) :=
  imap (fun i h => page_hmac (H:=H) vh (Z.of_nat i) h) hs.
Lemma decrypt_masked vh hs : Z.of_nat (length hs) <= 2 ^ 31 ->
  decrypt_hmacs (H:=H) ephemeral_sk (masked_hmacs (H:=H) ephemeral_sk vh 0 hs) = code_hmacs vh hs.
Proof.
  intros Hl. apply list_eq. intros i. unfold decrypt_hmacs, masked_hmacs, code_hmacs. rewrite !list_lookup_imap.
  destruct (hs !! i) as [h|] eqn:Eh; cbn; [|done]. apply lookup_lt_Some in Eh. f_equal.
  unfold page_sk, masked_hmac, encrypt_hmac, compute_page_hmac_mask. rewrite w32_small by lia.
  rewrite xor_masked; [done|]. rewrite page_hmac_length.
  by rewrite <- (mask_length (Z.of_nat i)) at 1.
Qed.

Lemma code_pages_rounded manifest code client : validate manifest = Ok tt ->
  section_ok (H:=H) (code_start manifest) (code_end manifest) (code_merkle_root manifest) code client ->
  let N := initial_size (code_start manifest) code in
  n_pages_adjusted (n_code_pages manifest) = Ok (Z.of_nat N) /\
  usize_next_power_of_two (Z.to_nat (n_code_pages manifest)) = Some N /\ Z.of_nat N <= 2 ^ 24.
Proof.
  intros Hv [S1 S2 S3 S4 _ _ _] N. pose proof (validate_entry manifest Hv) as He.
  assert (code <> []) as Hne by (intros ->; cbn in S4; lia).
  pose proof (initial_n_pages (code_start manifest) code S1 ltac:(lia) Hne (code_end manifest) ltac:(lia)) as Hn.
  pose proof (initial_size_bounds (code_start manifest) code S1 ltac:(lia)) as [_ Hmax]. fold N in Hn, Hmax.
  unfold n_pages_adjusted, n_code_pages. rewrite Hn. split; [done|]. split; [|done].
  unfold checked_next_power_of_two in Hn. destruct (_ <? _); [|done]. injection Hn as Hn.
  assert (0 <= n_pages_of (code_start manifest) (code_end manifest)) by (unfold n_pages_of, u32_add, w32; dlia).
  set (n := n_pages_of _ _) in *. unfold usize_next_power_of_two.
  assert (2 ^ Nat.log2_up (Z.to_nat n) = N)%nat as ->.
  { apply Nat2Z.inj. rewrite Nat2Z.inj_pow, <- log2_up_of_nat, Z2Nat.id by lia. done. }
  rewrite (proj2 (Z.ltb_lt _ _)) by lia. done.
Qed.

(** C14. The client of the repository preloads a V-App: for a manifest whose code section is
    the one of the ELF file, the client and the VM have a conversation, each message of which
    is the answer to the one before, in which the VM gives the key and the client ends with
    the HMACs of the pages of the code. *)
Theorem preload_round_trip manifest raw code client :
  to_allocvec manifest = Some raw -> parse_manifest take_manifest raw = Ok manifest ->
  length ephemeral_sk = 32%nat ->
  section_ok (H:=H) (code_start manifest) (code_end manifest) (code_merkle_root manifest) code client ->
  let vapp_hash := get_vapp_hash (H:=H) manifest in
  exists asked given,
    handler_preload_vapp (H:=H) take_manifest ephemeral_sk raw (mkComm (Continue 0 0 <$> given) []) =
      (Ok ephemeral_sk, mkComm [] asked) /\
    preload_vapp (H:=H) to_allocvec manifest (code_start manifest) code
      (mkTransport ((DeviceReply InterruptedExecution <$> asked) ++ [DeviceReply StatusOK ephemeral_sk]) []) =
      (Ok (code_hmacs vapp_hash (leaf <$> data (ClientMemory.content client))),
       mkTransport [] (apdu_preload_vapp raw :: (apdu_continue <$> given))).
Proof.
  intros Hto Hparse Hsk Hsec vh. destruct (code_pages_rounded _ _ _ (parsed_valid take_manifest raw manifest Hparse) Hsec) as (Hn & Hun & Hmax).
  destruct Hsec as [S1 S2 S3 S4 S5 S6 S7].
  destruct (client_new_spec (H:=H) (code_start manifest) code S1 ltac:(lia)) as (acc & Hnew & Hok & Hd).
  rewrite S6 in Hnew. injection Hnew as ->. cbn [ClientMemory.content] in *.
  assert (length (data acc) = initial_size (code_start manifest) code) as Hlen.
  { rewrite Hd. unfold initial_pages. by rewrite !length_map, length_seq. }
  assert (acc_root_is : at_ (tree acc) 0 = code_merkle_root manifest).
  { unfold get_content_root in S7. cbn [ClientMemory.content] in S7. rewrite (acc_root _ Hok) in S7. by injection S7. }
  rewrite <- Hlen in Hn, Hun, Hmax. set (hs := leaf <$> data acc) in *. set (N := length (data acc)) in *.
  assert (length hs = N) as Ehs by (unfold hs; by rewrite length_fmap).
  assert (Forall length32 hs) as Hhs by apply leaves_hash_ok.
  assert (has_valid_leaf_count N = true) as Hv by exact (proj1 Hok).
  set (batches := batches_of N hs). pose proof (batches_ok N hs Hhs) as Hb. fold batches in Hb.
  assert (concat batches = hs) as Ec by (apply concat_batches; lia).
  assert (length batches <= N)%nat as Hbl.
  { rewrite <- Ehs, <- Ec. clear -Hb. induction Hb as [|b l [B _ _] _ IH]; [done|]. cbn. rewrite length_app.
    destruct b; [done|]. cbn. lia. }
  assert (response <$> (batches ++ [[]]) = response (hd [] batches) :: tail (response <$> (batches ++ [[]]))) as Eg
    by by destruct batches.
  exists (first_request :: batch_messages (H:=H) ephemeral_sk vh 0 batches), (response <$> (batches ++ [[]])).
  split.
  - unfold handler_preload_vapp, mbind, st_mbind, st_bind, lift. rewrite Hparse. cbn [outcome_map_err].
    rewrite Eg. cbn [fmap list_fmap]. rewrite interrupted_continue. fold vh.
    rewrite Hn. cbn [unwrap_ok]. rewrite Nat2Z.id, (fed_new N Hv). cbn [unwrap_ok app].
    pose proof (vm_conversation vh N ltac:(lia) batches (N + 2) [] [first_request] Hb ltac:(lia)
      ltac:(cbn [app]; rewrite Ec; lia)) as Hc. cbn [length app] in Hc. rewrite Ec, Ehs in Hc. cbn [app] in Hc.
    change (Z.of_nat 0) with 0 in Hc. fold first_request. rewrite Hc.
    rewrite Z.eqb_refl. cbn [negb guard_err]. rewrite <- Ehs at 1. rewrite fed_root by by rewrite Ehs.
    cbn [unwrap_ok]. rewrite <- acc_root_is.
    rewrite (tree_ok_unique hs (tree_over hs) (tree acc)); [|apply tree_over_ok|apply Hok].
    + rewrite bool_decide_eq_true_2 by done. done.
    + rewrite Ehs. apply valid_count in Hv as [e ->]. pose proof (Nat.pow_nonzero 2 e). lia.
  - unfold preload_vapp, mbind, st_mbind, st_bind, lift. rewrite Hto, S6. cbn [ok_or]. rewrite Hun. cbn [ok_or].
    pose proof (leaf_hashes_all acc Hok N 0 [] ltac:(lia) ltac:(lia)) as Hlv. change (Z.of_nat 0) with 0 in Hlv.
    rewrite Hlv. cbn [app]. rewrite fmap_cons. cbn [app]. rewrite exchange_reply.
    unfold is_interrupted. rewrite bool_decide_eq_true_2 by done. cbn [negb guard_err].
    assert (GetCodePageHashesMessage.de first_request = Ok (GetCodePageHashesMessage.new 0 [])) as ->
      by (apply de_request; [by split|constructor]). cbn [outcome_map_err]. unfold get.
    pose proof (client_conversation vh Hsk (S (length ((DeviceReply InterruptedExecution <$>
      batch_messages (H:=H) ephemeral_sk vh 0 batches) ++ [DeviceReply StatusOK ephemeral_sk])))
      hs N [] [] [apdu_preload_vapp raw] Hhs ltac:(lia)) as Hc. cbn [app length] in Hc. rewrite Ehs in Hc.
    fold batches in Hc. change (Z.of_nat 0) with 0 in Hc. cbn [device_replies].
    rewrite drop_0. fold hs. cbn [app]. rewrite Hc; [| |lia].
    + unfold masked_hmacs at 1. rewrite length_imap, Ehs, Nat.eqb_refl. cbn [negb guard_err].
      unfold mret, st_mret, st_ret. by rewrite decrypt_masked by lia.
    + rewrite length_app, length_fmap, batch_messages_length. cbn. lia.
Qed.
End conversation.

(** ** A preload

    The code of the manifest has three pages, and a fourth that rounds them up. *)

Definition preload_code : list Z := map (fun i => Z.of_nat i mod 256) (seq 0 600).
Definition preload_client : ClientSegment :=
  match client_new (H:=Logged Toy32) 0x10000 preload_code with
  | Ok s => s | _ => mkClientSegment (mkMerkleAccumulator [] []) end.
Definition preload_root : HashOutput := match get_content_root preload_client with Ok r => r | _ => [] end.
Definition preload_manifest : Manifest :=
  mkManifest 0 [84; 101; 115; 116] [49; 46; 48] 0x10000 0x10000 0x10258 preload_root
    0x30000 0x30004 (replicate 32 1) 0x20000 0x20100 (replicate 32 2) 0.
Definition preload_take (_ : list Z) : option (Manifest * list Z) := Some (preload_manifest, []).
Definition preload_key : list Z := map Z.of_nat (seq 100 32).
Definition preload_tape : Comm :=
  mkComm (Continue 0 0 <$> (response <$> [leaf_hash (H:=Logged Toy32) <$> data (ClientMemory.content preload_client); []])) [].

Lemma preload_section : section_ok (H:=Logged Toy32) (code_start preload_manifest) (code_end preload_manifest)
  (code_merkle_root preload_manifest) preload_code preload_client.
Proof.
  split; try (vm_compute; (reflexivity || discriminate)).
  apply (bytes_tape_of (mkComm [Continue 0 0 preload_code] []) ltac:(vm_compute; reflexivity) 0 0). left.
Qed.
Lemma preload_parses : parse_manifest preload_take [] = Ok preload_manifest.
Proof. vm_compute. reflexivity. Qed.
Lemma toy_hmac_array (k : list Z) ms : exists mac, hmac_sha256 (Device:=toy_device) k ms = Some mac /\ length mac = 32%nat.
Proof. eexists. split; [reflexivity|]. done. Qed.

Lemma preload_round_trip_witness : exists asked given hmacs,
  handler_preload_vapp (H:=Logged Toy32) preload_take preload_key [] (mkComm (Continue 0 0 <$> given) []) =
    (Ok preload_key, mkComm [] asked) /\
  fst (preload_vapp (H:=Logged Toy32) (fun _ => Some []) preload_manifest 0x10000 preload_code
    (mkTransport ((DeviceReply InterruptedExecution <$> asked) ++ [DeviceReply StatusOK preload_key]) [])) = Ok hmacs.
Proof.
  destruct (preload_round_trip (H:=Logged Toy32) preload_take preload_key (fun _ => Some []) toy_hmac_array
    preload_manifest [] preload_code preload_client eq_refl preload_parses eq_refl preload_section)
    as (asked & given & Hv & Hc).
  exists asked, given. eexists. split; [exact Hv|]. exact (f_equal fst Hc).
Defined.

Abbreviation preload_handler :=
  (handler_preload_vapp (H:=Logged Toy32) preload_take preload_key [] preload_tape).
(** The VM gives the key. *)
Lemma preload_runs : exists c', preload_handler = (Ok preload_key, c').
Proof.
  assert (match fst preload_handler with Ok k => bool_decide (k = preload_key) | _ => false end = true) as E
    by (vm_compute; reflexivity).
  destruct preload_handler as [[k|e| |] c']; try discriminate E. apply bool_decide_eq_true in E as ->. by exists c'.
Qed.
Lemma preload_acc_ok : acc_ok (H:=Logged Toy32) (ClientMemory.content preload_client).
Proof.
  destruct (client_new_spec (H:=Logged Toy32) 0x10000 preload_code ltac:(lia) ltac:(vm_compute; discriminate))
    as (acc & Hn & Hok & _).
  assert (preload_client = mkClientSegment acc) as -> by (unfold preload_client; by rewrite Hn). exact Hok.
Qed.
Lemma preload_rounded :
  n_pages_adjusted (n_code_pages preload_manifest) = Ok (Z.of_nat (length (data (ClientMemory.content preload_client)))).
Proof. vm_compute. reflexivity. Qed.
Lemma preload_root_is : Accumulator.merkle_root (ClientMemory.content preload_client) = Ok (code_merkle_root preload_manifest).
Proof. vm_compute. reflexivity. Qed.
Lemma preload_sound_witness : exists c' batches, preload_handler = (Ok preload_key, c') /\
  sent c' = first_request ::
    batch_messages (H:=Logged Toy32) preload_key (get_vapp_hash (H:=Logged Toy32) preload_manifest) 0 batches.
Proof.
  destruct preload_runs as [c' Hr].
  destruct (preload_sound (H:=Logged Toy32) preload_take preload_key [] preload_tape (Ok preload_key) c' preload_manifest
    (ClientMemory.content preload_client) preload_parses Hr preload_acc_ok preload_root_is preload_rounded)
    as (batches & Hs & _).
  exists c', batches. split; [exact Hr|exact Hs].
Defined.
Lemma preload_pages : n_pages_adjusted (n_code_pages preload_manifest) = Ok (Z.of_nat 4).
Proof. vm_compute. reflexivity. Qed.
Lemma preload_terminates_witness : exists c', preload_handler = (Ok preload_key, c') /\ (length (sent c') <= 5)%nat.
Proof.
  destruct preload_runs as [c' Hr]. exists c'. split; [exact Hr|].
  exact (proj2 (preload_terminates (H:=Logged Toy32) preload_take preload_key [] preload_tape (Ok preload_key) c'
    preload_manifest 4 preload_parses preload_pages Hr)).
Defined.
