(* ===== verification/Framing.v ===== *)
(** * Messages between a V-App and its client ([common/src/comm.rs], [app-sdk/src/comm.rs],
    [client-sdk/src/comm.rs])

    Messages with a length prefix, in chunks of at most 256 bytes that the other end
    acknowledges. A V-App has a [Port]: the buffers that it receives next and those that it
    sent; the receiving ECALL waits for ever when there is none, and ends the V-App when the
    buffer is too small. The client has a [VAppTransport]: the answers that it gets next and
    the messages that it sent. *)

From S2P Require Import Prelude.

Definition ACK : list Z := [0x42].
Definition CHUNK_LENGTH : nat := 256.

(** ** The V-App *)

Record Port : Type := mkPort { incoming : list (list Z); outgoing : list (list Z) }.
Inductive MessageError : Type :=
| NoMessage | InvalidLength | TooManyBytesReceived | FailedToReadMessage | FailedToReadLength.

Definition xsend {E} (buffer : list Z) : ST Port E unit :=
  modify (fun p => mkPort (incoming p) (outgoing p ++ [buffer])).
(** The bytes that [xrecv_to] writes at the start of a buffer of [max] bytes. *)
Definition xrecv_to {E} (max : nat) : ST Port E (list Z) :=
  p ← get;
  match incoming p with
  | [] => diverge
  | b :: rest =>
      put (mkPort rest (outgoing p));;
      if (max <? length b)%nat then panic else mret b
  end.

(** The loop that skips empty chunks. *)
Fixpoint next_chunk (fuel : nat) : ST Port MessageError (list Z) :=
  match fuel with
  | O => diverge
  | S fuel =>
      chunk ← xrecv_to CHUNK_LENGTH;
      if negb (length chunk =? 0)%nat then mret chunk else next_chunk fuel
  end.
Fixpoint receive_loop (fuel : nat) (length_ : nat) (result : list Z) : ST Port MessageError (list Z) :=
  if (length result <? length_)%nat then
    match fuel with
    | O => diverge
    | S fuel =>
        xsend ACK;;
        p ← get;
        chunk ← next_chunk (S (length (incoming p)));
        if (length chunk =? 0)%nat then fail FailedToReadMessage
        else if (length_ - length result <? length chunk)%nat then fail TooManyBytesReceived
        else receive_loop fuel length_ (result ++ chunk)
    end
  else mret result.
(** A round takes a buffer. *)
Definition receive_message : ST Port MessageError (list Z) :=
  chunk ← xrecv_to CHUNK_LENGTH;
  if (length chunk =? 0)%nat then fail NoMessage
  else if (length chunk <? 4)%nat then fail FailedToReadLength
  else
    let length_ := Z.to_nat (be_value (take 4 chunk)) in
    if (4 + length_ <? length chunk)%nat then fail TooManyBytesReceived
    else p ← get; receive_loop (S (length (incoming p))) length_ (drop 4 chunk).

Fixpoint send_loop (fuel : nat) (msg : list Z) (total_bytes_sent : nat) : ST Port Empty_set unit :=
  if (total_bytes_sent <? length msg)%nat then
    match fuel with
    | O => diverge
    | S fuel =>
        acc_chunk ← xrecv_to 1;
        (if bool_decide (acc_chunk = ACK) then mret tt else panic);;
        let end_idx := Nat.min (total_bytes_sent + CHUNK_LENGTH) (length msg) in
        xsend (slice total_bytes_sent (end_idx - total_bytes_sent) msg);;
        send_loop fuel msg end_idx
    end
  else mret tt.
(** A round sends a byte at least. *)
Definition send_message (msg : list Z) : ST Port Empty_set unit :=
  let length_be := be_bytes 4 (w32 (Z.of_nat (length msg))) in
  let first_chunk_msg_bytes := Nat.min (CHUNK_LENGTH - 4) (length msg) in
  xsend (length_be ++ take first_chunk_msg_bytes msg);;
  send_loop (length msg) msg first_chunk_msg_bytes.

(** ** The client *)

Module Client.
Section client.
Context {VAppExecutionError : Type}.
Inductive SendMessageError : Type :=
| NotAckReceived
| VAppError (e : VAppExecutionError)
| ResponseTooShort.
Record VAppTransport : Type := mkVAppTransport {
  answers : list (VAppExecutionError + list Z); messages : list (list Z) }.

(** [transport.send_message(chunk).await.map_err(SendMessageError::VAppExecutionError)?]. *)
Definition transport_send (chunk : list Z) : ST VAppTransport SendMessageError (list Z) :=
  t ← get;
  let sent := messages t ++ [chunk] in
  match answers t with
  | [] => put (mkVAppTransport [] sent);; diverge
  | inl e :: rest => put (mkVAppTransport rest sent);; fail (VAppError e)
  | inr d :: rest => put (mkVAppTransport rest sent);; mret d
  end.

(** [slice.chunks(n)]. *)
Fixpoint chunks (fuel n : nat) (l : list Z) : list (list Z) :=
  match fuel, l with
  | S fuel, _ :: _ => take n l :: chunks fuel n (drop n l)
  | _, _ => []
  end.
Fixpoint send_chunks (cs : list (list Z)) (resp : list Z) : ST VAppTransport SendMessageError (list Z) :=
  match cs with
  | [] => mret resp
  | chunk :: cs =>
      (if bool_decide (resp = ACK) then mret tt else fail NotAckReceived);;
      resp ← transport_send chunk;
      send_chunks cs resp
  end.
Fixpoint collect (fuel : nat) (response_data_len : Z) (response_data : list Z)
    : ST VAppTransport SendMessageError (list Z) :=
  if Z.of_nat (length response_data) <? response_data_len then
    match fuel with
    | O => diverge
    | S fuel => resp ← transport_send ACK; collect fuel response_data_len (response_data ++ resp)
    end
  else mret response_data.
(** A round takes an answer. *)
Definition send_message (message : list Z) : ST VAppTransport SendMessageError (list Z) :=
  let full_message := be_bytes 4 (w32 (Z.of_nat (length message))) ++ message in
  resp ← send_chunks (chunks (length full_message) CHUNK_LENGTH full_message) ACK;
  if (length resp <? 4)%nat then fail ResponseTooShort
  else
    let response_data_len := be_value (take 4 resp) in
    t ← get;
    collect (S (length (answers t))) response_data_len (drop 4 resp).
End client.
Arguments SendMessageError VAppExecutionError : clear implicits.
Arguments VAppTransport VAppExecutionError : clear implicits.
End Client.
