(* ===== verification/FramingSpec.v ===== *)
(** * A V-App and its client exchange whole messages

    [conversation]: the client's [send_message] and the V-App's [receive_message] and
    [send_message] hand over both messages. [receive_safe]: what a V-App receives, whatever
    the client sends. *)

From S2P Require Import Prelude Framing.
Import Client.

Lemma be_value_prefix n r : Z.of_nat n < 2 ^ 32 -> be_value (take 4 (be_bytes 4 (w32 (Z.of_nat n)) ++ r)) = Z.of_nat n.
Proof.
  intros Hn. rewrite take_app_le by (rewrite length_be_bytes; lia). rewrite take_ge by (rewrite length_be_bytes; lia).
  rewrite w32_small by lia. apply be_value_bytes. cbn. lia.
Qed.
Lemma drop_prefix n r : drop 4 (be_bytes 4 n ++ r) = r.
Proof. rewrite drop_app_ge by (rewrite length_be_bytes; lia). by rewrite length_be_bytes. Qed.

(** *** Chunks *)

Section chunks.
Context (n : nat) (Hn : (0 < n)%nat).
Lemma chunks_none f : chunks f n [] = [].
Proof. by destruct f. Qed.
Lemma chunks_step f l : l <> [] -> (length l <= f)%nat ->
  chunks f n l = take n l :: chunks (f - 1) n (drop n l) /\ (length (drop n l) <= f - 1)%nat /\
  (0 < length (take n l) <= n)%nat.
Proof using Hn.
  intros Hl Hf. destruct f as [|f]; destruct l as [|x l]; try done; [cbn in Hf; lia|].
  replace (S f - 1)%nat with f by lia. split; [done|]. rewrite length_drop, length_take. cbn [length] in *. lia.
Qed.
End chunks.

(** *** The V-App *)

Lemma next_chunk_full fuel c rest o : (0 < length c <= CHUNK_LENGTH)%nat ->
  next_chunk (S fuel) (mkPort (c :: rest) o) = (Ok c, mkPort rest o).
Proof.
  intros Hc. cbn [next_chunk]. unfold xrecv_to, mbind, st_mbind, st_bind, get, put. cbn [incoming outgoing].
  rewrite (proj2 (Nat.ltb_ge _ _)) by lia. cbn. destruct c; [cbn in Hc; lia|done].
Qed.
Lemma receive_loop_chunks fuel : forall f result remaining rest o msg,
  msg = result ++ remaining -> (length remaining <= f)%nat -> (length (chunks f CHUNK_LENGTH remaining) < fuel)%nat ->
  receive_loop fuel (length msg) result (mkPort (chunks f CHUNK_LENGTH remaining ++ rest) o) =
  (Ok msg, mkPort rest (o ++ replicate (length (chunks f CHUNK_LENGTH remaining)) ACK)).
Proof.
  induction fuel as [|fuel IH]; intros f result remaining rest o msg Em Hf Hfuel; [lia|]. cbn [receive_loop].
  assert (length msg = length result + length remaining)%nat as El by (subst msg; apply length_app).
  destruct (decide (remaining = [])) as [->|Hne].
  { rewrite chunks_none in *. cbn [length app replicate] in *. rewrite (proj2 (Nat.ltb_ge _ _)) by lia.
    rewrite app_nil_r in *. by subst msg. }
  destruct (chunks_step CHUNK_LENGTH ltac:(unfold CHUNK_LENGTH; lia) f remaining Hne Hf) as (Ec & Hd & Ht).
  rewrite Ec in Hfuel |- *. set (c := take CHUNK_LENGTH remaining) in *. set (tl := drop CHUNK_LENGTH remaining) in *.
  assert (remaining = c ++ tl) as Er by (symmetry; apply take_drop).
  assert (length remaining = length c + length tl)%nat as Elr by (rewrite Er at 1; apply length_app).
  rewrite (proj2 (Nat.ltb_lt _ _)) by lia. unfold mbind, st_mbind, st_bind, xsend, modify, get. cbn [app incoming outgoing].
  rewrite next_chunk_full by done. rewrite (proj2 (Nat.eqb_neq _ _)), (proj2 (Nat.ltb_ge _ _)) by lia.
  rewrite (IH (f - 1)%nat (result ++ c) tl rest (o ++ [ACK]) msg); [|by rewrite Em, Er, app_assoc|done|cbn [length] in Hfuel; lia].
  cbn [length replicate]. by rewrite <- (app_assoc o).
Qed.

Lemma send_loop_chunks fuel : forall f msg total rest o, (total <= length msg)%nat -> (length msg - total <= f)%nat ->
  (length msg - total <= fuel)%nat ->
  send_loop fuel msg total (mkPort (replicate (length (chunks f CHUNK_LENGTH (drop total msg))) ACK ++ rest) o) =
  (Ok tt, mkPort rest (o ++ chunks f CHUNK_LENGTH (drop total msg))).
Proof.
  induction fuel as [|fuel IH]; intros f msg total rest o Ht Hf Hfuel.
  { rewrite drop_ge, chunks_none, app_nil_r by lia. cbn [send_loop]. by rewrite (proj2 (Nat.ltb_ge _ _)) by lia. }
  cbn [send_loop]. destruct (Nat.ltb_spec total (length msg)) as [Hlt|].
  2: { rewrite drop_ge, chunks_none, app_nil_r by lia. done. }
  assert (length (drop total msg) = length msg - total)%nat as Hl by apply length_drop.
  destruct (chunks_step CHUNK_LENGTH ltac:(unfold CHUNK_LENGTH; lia) f (drop total msg)) as (Ec & Hd & Hc);
    [intros E; rewrite E in Hl; cbn in Hl; lia|lia|].
  rewrite Ec. cbn [length replicate app]. unfold xrecv_to, xsend, modify, get, put, mbind, st_mbind, st_bind.
  cbn [incoming outgoing]. change (1 <? length ACK)%nat with false. unfold mret, st_mret, st_ret.
  rewrite bool_decide_eq_true_2 by done.
  rewrite drop_drop in Hd |- *. rewrite length_drop in Hd.
  set (e := Nat.min (total + CHUNK_LENGTH) (length msg)).
  assert (drop (total + CHUNK_LENGTH) msg = drop e msg) as ->.
  { destruct (Nat.le_ge_cases (total + CHUNK_LENGTH) (length msg)); [f_equal; lia|]. by rewrite !drop_ge by lia. }
  cbn [incoming outgoing]. rewrite (IH (f - 1)%nat msg e) by lia. do 2 f_equal. rewrite <- app_assoc. cbn [app]. do 2 f_equal.
  unfold slice. destruct (Nat.le_ge_cases (total + CHUNK_LENGTH) (length msg)); [f_equal; lia|].
  rewrite !take_ge; [done|lia..].
Qed.

(** *** The client *)

Section client.
Context {E : Type}.
Abbreviation answer l := ((inr <$> l) : list (E + list Z)).

Lemma send_chunks_acked cs : forall c r rest m,
  send_chunks (c :: cs) ACK (mkVAppTransport (answer (replicate (length cs) ACK) ++ inr r :: rest) m) =
  (Ok r, mkVAppTransport rest (m ++ c :: cs)).
Proof.
  induction cs as [|c' cs IH]; intros c r rest m; [done|]. cbn [length replicate fmap list_fmap app].
  cbn [send_chunks] in IH |- *. unfold mbind at 1, st_mbind, st_bind. rewrite bool_decide_eq_true_2 by done.
  unfold mbind at 1, st_mbind, st_bind. cbn [mret st_mret st_ret]. unfold transport_send at 1, mbind at 1, st_mbind, st_bind.
  cbn. specialize (IH c' r rest (m ++ [c])). rewrite <- app_assoc in IH. exact IH.
Qed.
Lemma collect_chunks fuel : forall f data remaining rest m n,
  n = Z.of_nat (length data + length remaining) -> (length remaining <= f)%nat ->
  (length (chunks f CHUNK_LENGTH remaining) < fuel)%nat ->
  collect fuel n data (mkVAppTransport (answer (chunks f CHUNK_LENGTH remaining) ++ rest) m) =
  (Ok (data ++ remaining), mkVAppTransport rest (m ++ replicate (length (chunks f CHUNK_LENGTH remaining)) ACK)).
Proof.
  induction fuel as [|fuel IH]; intros f data remaining rest m n En Hf Hfuel; [lia|]. cbn [collect].
  destruct (decide (remaining = [])) as [->|Hne].
  { rewrite chunks_none in *. cbn [length app replicate fmap list_fmap] in *. rewrite (proj2 (Z.ltb_ge _ _)) by lia.
    by rewrite !app_nil_r. }
  destruct (chunks_step CHUNK_LENGTH ltac:(unfold CHUNK_LENGTH; lia) f remaining Hne Hf) as (Ec & Hd & Ht).
  rewrite Ec in Hfuel |- *. set (c := take CHUNK_LENGTH remaining) in *. set (tl := drop CHUNK_LENGTH remaining) in *.
  assert (remaining = c ++ tl) as Er by (symmetry; apply take_drop).
  assert (length remaining = length c + length tl)%nat as Elr by (rewrite Er at 1; apply length_app).
  rewrite (proj2 (Z.ltb_lt _ _)) by lia. rewrite fmap_cons. cbn [app length replicate] in *.
  unfold transport_send, get, put, mbind, st_mbind, st_bind. cbn [answers messages mret st_mret st_ret].
  unfold mret, st_mret, st_ret. rewrite (IH (f - 1)%nat (data ++ c) tl rest (m ++ [ACK]) n); [|rewrite length_app; lia|done|lia].
  by rewrite Er, <- !app_assoc.
Qed.

(** C24. The client and a V-App exchange messages of any length: there are the buffers that
    they exchange, as many one way as the other, such that the V-App that receives a message
    and then sends one receives what the client sends and ends, and the client that sends a
    message returns what the V-App sends. *)
Theorem conversation msg resp : Z.of_nat (length msg) < 2 ^ 32 -> Z.of_nat (length resp) < 2 ^ 32 ->
  exists to_app from_app p,
    receive_message (mkPort to_app []) = (Ok msg, p) /\
    Framing.send_message resp p = (Ok tt, mkPort [] from_app) /\
    Client.send_message (VAppExecutionError:=E) msg (mkVAppTransport (answer from_app) []) =
      (Ok resp, mkVAppTransport [] to_app) /\
    length to_app = length from_app.
Proof.
  intros Hm Hr. set (full := be_bytes 4 (w32 (Z.of_nat (length msg))) ++ msg).
  assert (length full = 4 + length msg)%nat as Hfl by (unfold full; by rewrite length_app, length_be_bytes).
  destruct (chunks_step CHUNK_LENGTH ltac:(unfold CHUNK_LENGTH; lia) (length full) full) as (Ef & Hd & Hc);
    [intros E0; rewrite E0 in Hfl; cbn in Hfl; lia|lia|].
  set (c := take CHUNK_LENGTH full) in *. set (cs := chunks (length full - 1) CHUNK_LENGTH (drop CHUNK_LENGTH full)) in *.
  set (k := Nat.min (CHUNK_LENGTH - 4) (length resp)).
  set (first := be_bytes 4 (w32 (Z.of_nat (length resp))) ++ take k resp).
  set (rs := chunks (length resp) CHUNK_LENGTH (drop k resp)).
  assert (take 4 c = be_bytes 4 (w32 (Z.of_nat (length msg)))) as Hpre.
  { unfold c, full. rewrite take_take. change (4 `min` CHUNK_LENGTH)%nat with 4%nat. by rewrite take_app_length' by (symmetry; apply length_be_bytes). }
  assert (drop 4 c ++ drop CHUNK_LENGTH full = msg) as Hmsg.
  { transitivity (drop 4 (c ++ drop CHUNK_LENGTH full)); [|unfold c; rewrite take_drop; apply drop_prefix].
    rewrite drop_app_le; [done|]. unfold c. rewrite length_take. unfold CHUNK_LENGTH. lia. }
  assert (4 <= length c)%nat as Hc4 by (unfold c; rewrite length_take; unfold CHUNK_LENGTH; lia).
  exists ((c :: cs) ++ replicate (length rs) ACK), (replicate (length cs) ACK ++ first :: rs),
    (mkPort (replicate (length rs) ACK) (replicate (length cs) ACK)).
  split; [|split; [|split]].
  - unfold receive_message, xrecv_to, get, put, mbind, st_mbind, st_bind. cbn [app incoming outgoing].
    rewrite (proj2 (Nat.ltb_ge _ _)) by lia. unfold mret, st_mret, st_ret.
    rewrite (proj2 (Nat.eqb_neq _ _)), (proj2 (Nat.ltb_ge _ _)) by lia. rewrite Hpre, w32_small by lia.
    rewrite be_value_bytes, Nat2Z.id by (cbn; lia). rewrite (proj2 (Nat.ltb_ge _ _)).
    2: { unfold c. rewrite length_take. lia. }
    rewrite (receive_loop_chunks _ (length full - 1) (drop 4 c) (drop CHUNK_LENGTH full)); [done|done|done|].
    fold cs. cbn [incoming]. rewrite length_app. lia.
  - unfold Framing.send_message, mbind, st_mbind, st_bind, xsend, modify. cbn [incoming outgoing]. fold k first.
    pose proof (send_loop_chunks (length resp) (length resp) resp k [] (replicate (length cs) ACK ++ [first])
      ltac:(unfold k; lia) ltac:(lia) ltac:(lia)) as Hs. fold rs in Hs. rewrite app_nil_r in Hs. rewrite Hs.
    by rewrite <- app_assoc.
  - unfold Client.send_message, mbind, st_mbind, st_bind, get. fold full. rewrite Ef, fmap_app, fmap_cons.
    rewrite send_chunks_acked. assert (4 <= length first)%nat as Hf4 by (unfold first; rewrite length_app, length_be_bytes; lia).
    rewrite (proj2 (Nat.ltb_ge _ _)) by lia. cbn [answers]. unfold first at 1 2. rewrite be_value_prefix, drop_prefix by done.
    pose proof (collect_chunks (S (length (answer rs))) (length resp) (take k resp) (drop k resp) [] ([] ++ c :: cs)
      (Z.of_nat (length resp))) as Hcol. fold rs in Hcol. rewrite app_nil_r, take_drop in Hcol. rewrite Hcol; [done|..].
    + rewrite length_take, length_drop. lia.
    + rewrite length_drop. lia.
    + rewrite length_fmap. lia.
  - rewrite !length_app, !length_replicate. cbn. lia.
Qed.
End client.

(** A conversation in which both messages take several chunks. *)
Lemma conversation_witness : exists to_app from_app p,
  receive_message (mkPort to_app []) = (Ok (replicate 600 7), p) /\
  Framing.send_message (replicate 300 8) p = (Ok tt, mkPort [] from_app) /\
  Client.send_message (VAppExecutionError:=unit) (replicate 600 7) (mkVAppTransport (inr <$> from_app) []) =
    (Ok (replicate 300 8), mkVAppTransport [] to_app).
Proof.
  destruct (conversation (E:=unit) (replicate 600 7) (replicate 300 8) ltac:(vm_compute; reflexivity)
    ltac:(vm_compute; reflexivity)) as (t & f & p & H1 & H2 & H3 & _).
  exists t, f, p. split; [exact H1|]. split; [exact H2|exact H3].
Defined.

(** *** What a V-App receives *)

Definition small (l : list (list Z)) : Prop := Forall (fun b => (length b <= CHUNK_LENGTH)%nat /\ bytes_ok b) l.

Lemma next_chunk_safe fuel : forall inc o r p', small inc -> (length inc < fuel)%nat ->
  next_chunk fuel (mkPort inc o) = (r, p') ->
  exists taken, inc = taken ++ incoming p' /\ r <> Panic /\ (r = Diverge -> incoming p' = []) /\
    (forall e, r <> Err e) /\ forall c, r = Ok c -> (0 < length c)%nat /\ concat taken = c.
Proof.
  induction fuel as [|fuel IH]; intros inc o r p' Hs Hf; [lia|]. cbn [next_chunk].
  unfold xrecv_to, get, put, mbind, st_mbind, st_bind. cbn [incoming outgoing].
  destruct inc as [|b inc]; [intros [= <- <-]; by exists []|]. apply Forall_cons in Hs as [[Hb _] Hs].
  rewrite (proj2 (Nat.ltb_ge _ _)) by lia. unfold mret, st_mret, st_ret. cbn [length] in Hf.
  destruct (Nat.eqb_spec (length b) 0) as [E|E]; cbn [negb].
  - intros Hr. destruct (IH inc o r p' Hs ltac:(lia) Hr) as (tk & -> & T1 & T2 & T3 & T4). exists (b :: tk).
    split; [done|]. split; [done|]. split; [done|]. split; [done|]. intros c Hc. destruct b; [by apply T4|done].
  - intros [= <- <-]. exists [b]. split; [done|]. split; [done|]. split; [done|]. split; [done|].
    intros c [= <-]. split; [lia|]. cbn. apply app_nil_r.
Qed.
Lemma receive_loop_safe fuel : forall n inc o data r p', small inc -> (length inc < fuel)%nat -> (length data <= n)%nat ->
  receive_loop fuel n data (mkPort inc o) = (r, p') ->
  exists taken, inc = taken ++ incoming p' /\ r <> Panic /\ (r = Diverge -> incoming p' = []) /\
    forall m, r = Ok m -> length m = n /\ m = data ++ concat taken.
Proof.
  induction fuel as [|fuel IH]; intros n inc o data r p' Hs Hf Hd; [lia|]. cbn [receive_loop].
  destruct (Nat.ltb_spec (length data) n) as [Hlt|].
  2: { intros [= <- <-]. exists []. split; [done|]. split; [done|]. split; [done|]. intros m [= <-].
       rewrite app_nil_r. split; [lia|done]. }
  unfold xsend, modify, get, mbind, st_mbind, st_bind. cbn [incoming outgoing].
  destruct (next_chunk _ _) as [c [inc1 o1]] eqn:En.
  destruct (next_chunk_safe _ _ _ _ _ Hs (Nat.lt_succ_diag_r _) En) as (tk & -> & T1 & T2 & T3 & T4). cbn [incoming] in *.
  apply Forall_app in Hs as [_ Hs]. rewrite length_app in Hf.
  destruct c as [c|e| |]; [|by destruct (T3 e)|done|].
  2: { intros [= <- <-]. exists tk. split; [done|]. split; [done|]. split; [by intros _; apply T2|]. done. }
  destruct (T4 c eq_refl) as [Hc Ec]. rewrite (proj2 (Nat.eqb_neq _ _)) by lia.
  destruct (Nat.ltb_spec (n - length data) (length c)).
  { intros [= <- <-]. exists tk. done. }
  intros Hr. assert (0 < length tk)%nat by (destruct tk; [by subst c|cbn; lia]).
  destruct (IH n inc1 o1 (data ++ c) r p' Hs ltac:(lia) ltac:(rewrite length_app; lia) Hr) as (tk' & -> & S1 & S2 & S3).
  exists (tk ++ tk'). rewrite app_assoc. split; [done|]. split; [done|]. split; [done|]. intros m Hm.
  destruct (S3 m Hm) as [Hl ->]. split; [done|]. by rewrite concat_app, Ec, <- app_assoc.
Qed.

(** C25. What a V-App receives, whatever the client sends in buffers that fit: it does not
    panic, it waits for ever only for a client that stops sending, and a message that it
    returns is, with its length before it, exactly the bytes of the buffers that it took. *)
Theorem receive_safe inc o r p' : small inc -> receive_message (mkPort inc o) = (r, p') ->
  exists taken, inc = taken ++ incoming p' /\ r <> Panic /\ (r = Diverge -> incoming p' = []) /\
    forall m, r = Ok m -> concat taken = be_bytes 4 (Z.of_nat (length m)) ++ m.
Proof.
  intros Hs. unfold receive_message, xrecv_to, get, put, mbind, st_mbind, st_bind. cbn [incoming outgoing].
  destruct inc as [|b inc]; [intros [= <- <-]; by exists []|]. apply Forall_cons in Hs as [[Hb Hok] Hs].
  rewrite (proj2 (Nat.ltb_ge _ _)) by lia. unfold mret, st_mret, st_ret.
  assert (forall e : MessageError, (Err e, mkPort inc o) = (r, p') -> exists taken, b :: inc = taken ++ incoming p' /\
    r <> Panic /\ (r = Diverge -> incoming p' = []) /\
    forall m, r = Ok m -> concat taken = be_bytes 4 (Z.of_nat (length m)) ++ m) as Herr.
  { intros e [= <- <-]. by exists [b]. }
  destruct (Nat.eqb_spec (length b) 0); [apply Herr|]. destruct (Nat.ltb_spec (length b) 4) as [|H4]; [apply Herr|].
  destruct (Nat.ltb_spec (4 + Z.to_nat (be_value (take 4 b))) (length b)) as [|Hn]; [apply Herr|].
  intros Hr. assert (length (drop 4 b) <= Z.to_nat (be_value (take 4 b)))%nat as Hdl by (rewrite length_drop; lia).
  destruct (receive_loop_safe _ _ inc o _ r p' Hs (Nat.lt_succ_diag_r _) Hdl Hr)
    as (tk & -> & T1 & T2 & T3).
  exists (b :: tk). split; [done|]. split; [done|]. split; [done|]. intros m Hm. destruct (T3 m Hm) as [Hl Em].
  assert (bytes_ok (take 4 b)) as Ht by by apply Forall_take.
  assert (length (take 4 b) = 4%nat) as Hl4 by (rewrite length_take; lia).
  pose proof (be_value_range _ Ht) as Hrange. rewrite Hl, Z2Nat.id by lia.
  pose proof (be_bytes_value _ Ht) as Hv. rewrite Hl4 in Hv. rewrite Hv, Em. cbn [concat].
  by rewrite app_assoc, take_drop.
Qed.
Lemma receive_safe_witness : exists p',
  receive_message (mkPort [[0; 0; 0; 3; 1]; []; [2; 3]] []) = (Ok [1; 2; 3], p') /\
  exists taken, [[0; 0; 0; 3; 1]; []; [2; 3]] = taken ++ incoming p' /\ concat taken = [0; 0; 0; 3; 1; 2; 3].
Proof.
  assert (receive_message (mkPort [[0; 0; 0; 3; 1]; []; [2; 3]] []) = (Ok [1; 2; 3], mkPort [] [ACK])) as Hr
    by (vm_compute; reflexivity).
  exists (mkPort [] [ACK]). split; [exact Hr|].
  destruct (receive_safe [[0; 0; 0; 3; 1]; []; [2; 3]] [] (Ok [1; 2; 3]) (mkPort [] [ACK])
    ltac:(unfold small; repeat constructor; cbn; lia) Hr) as (tk & Ht & _ & _ & Hm).
  exists tk. split; [exact Ht|]. exact (Hm _ eq_refl).
Defined.
