(* ===== verification/Text.v ===== *)
(** * Text: UTF-8 strings, numbers in decimal and hexadecimal

    What the Bitcoin application uses of Rust's strings and of the parsing and printing of
    integers. A string is the list of its UTF-8 bytes. A slice of a string panics when an
    end is not on the boundary of a character. *)

From S2P Require Import Prelude.
From Stdlib Require Import Ascii.

(** A literal of the source. *)
Definition ch (a : Ascii.ascii) : Z := Z.of_nat (Ascii.nat_of_ascii a).
Definition lit (s : string) : list Z := map ch (String.list_ascii_of_string s).

(** ** Slices *)

Fixpoint starts_with (p s : list Z) : bool :=
  match p, s with
  | [], _ => true
  | a :: p, b :: s => (a =? b) && starts_with p s
  | _ :: _, [] => false
  end.

Definition is_continuation (b : Z) : bool := (128 <=? b) && (b <? 192).
(** [str::is_char_boundary]. *)
Definition is_char_boundary (n : nat) (s : list Z) : bool :=
  (n =? 0)%nat || match s !! n with Some b => negb (is_continuation b) | None => (n =? length s)%nat end.
(** [&s[n..]], [&s[..n]]. *)
Definition str_from {E} (n : nat) (s : list Z) : outcome E (list Z) :=
  if is_char_boundary n s then Ok (drop n s) else Panic.
Definition str_to {E} (n : nat) (s : list Z) : outcome E (list Z) :=
  if is_char_boundary n s then Ok (take n s) else Panic.

(** [s.bytes().position(p)]; [find] is [str::find] of an ASCII character. *)
Fixpoint position (p : Z -> bool) (s : list Z) : option nat :=
  match s with
  | [] => None
  | b :: s => if p b then Some 0%nat else S <$> position p s
  end.
Definition find (c : Z) (s : list Z) : option nat := position (Z.eqb c) s.

(** [s.split(c)] for an ASCII character: there is always a first part. *)
Fixpoint split (c : Z) (s : list Z) : list Z * list (list Z) :=
  match s with
  | [] => ([], [])
  | b :: s => let '(part, parts) := split c s in if b =? c then ([], part :: parts) else (b :: part, parts)
  end.

(** ** Characters *)

Definition is_ascii_digit (b : Z) : bool := (48 <=? b) && (b <=? 57).
Definition is_ascii_alphabetic (b : Z) : bool := ((65 <=? b) && (b <=? 90)) || ((97 <=? b) && (b <=? 122)).

(** ** Integers *)

(** [from_str_radix] of an unsigned type of [w] bits: an optional sign, then digits, with
    the overflow checked after each. *)
Definition digit_value (radix b : Z) : option Z :=
  let d := if is_ascii_digit b then b - 48
           else if (97 <=? b) && (b <=? 122) then b - 87
           else if (65 <=? b) && (b <=? 90) then b - 55 else radix in
  if d <? radix then Some d else None.
Fixpoint digits_value (w radix acc : Z) (s : list Z) : option Z :=
  match s with
  | [] => Some acc
  | b :: s =>
      match digit_value radix b with
      | None => None
      | Some d => if acc * radix + d <? 2 ^ w then digits_value w radix (acc * radix + d) s else None
      end
  end.
Definition from_str_radix (w radix : Z) (s : list Z) : option Z :=
  let digits := match s with b :: rest => if b =? ch "+"%char then rest else s | [] => [] end in
  match digits with [] => None | _ => digits_value w radix 0 digits end.
(** [str::parse::<u32>]. *)
Definition parse_u32 (s : list Z) : option Z := from_str_radix 32 10 s.

(** [Display] of an unsigned integer, and [{:0n}]: padded with zeros to [n] characters. *)
Fixpoint decimal_loop (fuel : nat) (n : Z) : list Z :=
  match fuel with
  | O => []
  | S fuel => if n <? 10 then [48 + n] else decimal_loop fuel (n / 10) ++ [48 + n mod 10]
  end.
Definition decimal (n : Z) : list Z := decimal_loop 20 n.
Definition padded (n : nat) (s : list Z) : list Z := replicate (n - length s) 48 ++ s.
(** [{:08x}] of a [u32]. *)
Definition hex_digit (d : Z) : Z := if d <? 10 then 48 + d else 87 + d.
Definition hex8 (n : Z) : list Z :=
  map (fun i => hex_digit (Z.shiftr n (4 * i) mod 16)) [7; 6; 5; 4; 3; 2; 1; 0].

(** ** UTF-8

    [String::from_utf8]: the well-formed sequences of the Unicode standard, table 3-7. *)

Definition in_range (lo hi b : Z) : bool := (lo <=? b) && (b <=? hi).
Fixpoint utf8_ok (s : list Z) : bool :=
  match s with
  | [] => true
  | a :: s1 =>
      if a <? 128 then utf8_ok s1
      else match s1 with
      | [] => false
      | b :: s2 =>
          if in_range 194 223 a then in_range 128 191 b && utf8_ok s2
          else match s2 with
          | [] => false
          | c :: s3 =>
              if in_range 224 239 a then
                in_range (if a =? 224 then 160 else 128) (if a =? 237 then 159 else 191) b &&
                in_range 128 191 c && utf8_ok s3
              else match s3 with
              | [] => false
              | d :: s4 =>
                  in_range 240 244 a &&
                  in_range (if a =? 240 then 144 else 128) (if a =? 244 then 143 else 191) b &&
                  in_range 128 191 c && in_range 128 191 d && utf8_ok s4
              end
          end
      end
  end.

(** ** Lemmas *)

Abbreviation ascii_ok := (Forall (fun b : Z => 0 <= b < 128)).

(** [ascii_ok] of a concrete list. *)
Ltac solve_ascii := repeat (apply Forall_cons; split; [split; vm_compute; done|]); apply Forall_nil; done.

Lemma ascii_boundary n s : ascii_ok s -> (n <= length s)%nat -> is_char_boundary n s = true.
Proof.
  intros Hs Hn. unfold is_char_boundary. destruct (Nat.eqb_spec n 0) as [|Hn0]; [done|]. cbn [orb].
  destruct (s !! n) as [b|] eqn:E.
  - pose proof (Forall_lookup_1 _ _ _ _ Hs E) as Hb. cbv beta in Hb. unfold is_continuation.
    by rewrite (proj2 (Z.leb_gt _ _)) by lia.
  - apply lookup_ge_None in E. apply Nat.eqb_eq. lia.
Qed.
Lemma str_from_ascii {E} n s : ascii_ok s -> (n <= length s)%nat -> str_from (E:=E) n s = Ok (drop n s).
Proof. intros Hs Hn. unfold str_from. by rewrite ascii_boundary. Qed.
Lemma str_to_ascii {E} n s : ascii_ok s -> (n <= length s)%nat -> str_to (E:=E) n s = Ok (take n s).
Proof. intros Hs Hn. unfold str_to. by rewrite ascii_boundary. Qed.
Lemma str_from_app {E} p s : ascii_ok (p ++ s) -> str_from (E:=E) (length p) (p ++ s) = Ok s.
Proof. intros Hs. rewrite str_from_ascii by (try done; rewrite length_app; lia). by rewrite drop_app_length. Qed.
Lemma str_to_app {E} p s : ascii_ok (p ++ s) -> str_to (E:=E) (length p) (p ++ s) = Ok p.
Proof. intros Hs. rewrite str_to_ascii by (try done; rewrite length_app; lia). by rewrite take_app_length. Qed.
Lemma str_from_app2 {E} p q s :
  ascii_ok (p ++ q ++ s) -> str_from (E:=E) (length p + length q) (p ++ q ++ s) = Ok s.
Proof. intros Ha. rewrite app_assoc in *. rewrite <- length_app. by apply str_from_app. Qed.
Lemma str_from_cons {E} c s : ascii_ok (c :: s) -> str_from (E:=E) 1 (c :: s) = Ok s.
Proof. apply (str_from_app [c]). Qed.
Lemma str_from_Ok {E} n s s' : str_from (E:=E) n s = Ok s' -> s' = drop n s.
Proof. unfold str_from. destruct (is_char_boundary n s); congruence. Qed.
Lemma str_from_total {E} n s : ascii_ok s -> (n <= length s)%nat ->
  exists s', str_from (E:=E) n s = Ok s' /\ ascii_ok s' /\ length s = (n + length s')%nat.
Proof.
  intros Hs Hn. exists (drop n s). split; [by apply str_from_ascii|]. split; [by apply Forall_drop|].
  rewrite length_drop. lia.
Qed.

Lemma starts_with_length p s : starts_with p s = true -> (length p <= length s)%nat.
Proof.
  revert s; induction p as [|a p IH]; intros [|b s] H; cbn in *; try lia.
  apply andb_prop in H as [_ H]. apply IH in H. lia.
Qed.
Lemma starts_with_app p s : starts_with p (p ++ s) = true.
Proof. induction p as [|a p IH]; cbn; [done|]. by rewrite Z.eqb_refl. Qed.

Lemma position_app p (s : list Z) c rest :
  Forall (fun b => p b = false) s -> p c = true -> position p (s ++ c :: rest) = Some (length s).
Proof. intros Hs Hc. induction Hs as [|b s Hb Hs IH]; cbn; [by rewrite Hc|]. by rewrite Hb, IH. Qed.
Lemma position_all_false p (s : list Z) : Forall (fun b => p b = false) s -> position p s = None.
Proof. intros Hs. induction Hs as [|b s Hb Hs IH]; cbn; [done|]. by rewrite Hb, IH. Qed.
Lemma position_le p s n : position p s = Some n -> (n < length s)%nat.
Proof.
  revert n; induction s as [|b s IH]; intros n H; cbn in *; [done|].
  destruct (p b); [injection H as <-; lia|]. destruct (position p s) as [m|]; [|done]. cbn in H.
  specialize (IH _ eq_refl). simplify_eq. lia.
Qed.

(** ** Numbers *)

Definition no_digit (s : list Z) : Prop := match s with [] => True | b :: _ => is_ascii_digit b = false end.

Lemma is_ascii_digit_true b : is_ascii_digit b = true <-> 48 <= b <= 57.
Proof. unfold is_ascii_digit. rewrite andb_true_iff, !Z.leb_le. done. Qed.

Lemma default_position f p rest :
  Forall (fun b => f b = false) p -> match rest with [] => True | b :: _ => f b = true end ->
  default (length (p ++ rest)) (position f (p ++ rest)) = length p.
Proof.
  intros Hp Hr. destruct rest as [|b rest].
  - rewrite app_nil_r. by rewrite position_all_false.
  - by rewrite position_app.
Qed.

Lemma digits_value_snoc w r acc s b :
  digits_value w r acc (s ++ [b]) =
    match digits_value w r acc s, digit_value r b with
    | Some v, Some d => if v * r + d <? 2 ^ w then Some (v * r + d) else None
    | _, _ => None
    end.
Proof.
  revert acc; induction s as [|c s IH]; intros acc; cbn [app digits_value].
  - destruct (digit_value r b) as [d|]; [|done]. by destruct (acc * r + d <? 2 ^ w).
  - destruct (digit_value r c) as [d|]; [|done]. by destruct (acc * r + d <? 2 ^ w).
Qed.

Lemma digit_value_10 d : 0 <= d < 10 -> digit_value 10 (48 + d) = Some d.
Proof.
  intros Hd. unfold digit_value. rewrite (proj2 (is_ascii_digit_true (48 + d))) by lia.
  replace (48 + d - 48) with d by lia. by rewrite (proj2 (Z.ltb_lt _ _)) by lia.
Qed.

Section decimal.
Implicit Types (fuel : nat) (n : Z).

Lemma decimal_loop_digits fuel n : 0 <= n -> Forall (fun b => is_ascii_digit b = true) (decimal_loop fuel n).
Proof.
  revert n; induction fuel as [|fuel IH]; intros n Hn; cbn; [done|].
  destruct (Z.ltb_spec n 10); [apply Forall_singleton, is_ascii_digit_true; lia|].
  apply Forall_app; split; [apply IH; dlia|]. apply Forall_singleton, is_ascii_digit_true. dlia.
Qed.

Lemma decimal_loop_value fuel w n :
  0 <= n < 2 ^ w -> n < 10 ^ Z.of_nat fuel -> (0 < fuel)%nat ->
  digits_value w 10 0 (decimal_loop fuel n) = Some n.
Proof.
  revert n; induction fuel as [|fuel IH]; intros n Hn Hf Hp; [lia|]. cbn [decimal_loop].
  destruct (Z.ltb_spec n 10).
  - cbn [digits_value]. rewrite digit_value_10 by lia. by rewrite (proj2 (Z.ltb_lt _ _)) by lia.
  - rewrite Nat2Z.inj_succ, Z.pow_succ_r in Hf by lia.
    assert (0 < fuel)%nat by (destruct fuel; cbn in *; lia).
    rewrite digits_value_snoc, IH, digit_value_10 by (try lia; dlia).
    replace (n / 10 * 10 + n mod 10) with n by dlia. by rewrite (proj2 (Z.ltb_lt _ _)) by lia.
Qed.

Lemma decimal_loop_head fuel n :
  0 < n < 10 ^ Z.of_nat fuel -> exists b s, decimal_loop fuel n = b :: s /\ 49 <= b <= 57.
Proof.
  revert n; induction fuel as [|fuel IH]; intros n Hn; [cbn in Hn; lia|]. cbn [decimal_loop].
  destruct (Z.ltb_spec n 10); [eexists _, _; split; [done|lia]|].
  rewrite Nat2Z.inj_succ, Z.pow_succ_r in Hn by lia.
  destruct (IH (n / 10)) as (b & s & -> & Hb); [dlia|]. eexists _, _. split; [done|lia].
Qed.
End decimal.

Lemma decimal_digits n : 0 <= n -> Forall (fun b => is_ascii_digit b = true) (decimal n).
Proof. apply decimal_loop_digits. Qed.
Lemma decimal_ascii n : 0 <= n -> ascii_ok (decimal n).
Proof.
  intros Hn. eapply Forall_impl; [by apply decimal_digits|]. intros b Hb%is_ascii_digit_true. lia.
Qed.
Lemma decimal_value n : is_u32 n -> digits_value 32 10 0 (decimal n) = Some n.
Proof. intros Hn. apply decimal_loop_value; [done| |lia]. unfold is_u in Hn. change (10 ^ Z.of_nat 20) with 100000000000000000000. lia. Qed.
Lemma decimal_cons n : is_u32 n -> exists b s, decimal n = b :: s /\ 48 <= b <= 57 /\ (b = 48 -> s = []).
Proof.
  intros Hn. unfold is_u in Hn. destruct (decide (n = 0)) as [->|Hz]; [by exists 48, []|].
  destruct (decimal_loop_head 20 n) as (b & s & E & Hb).
  { change (10 ^ Z.of_nat 20) with 100000000000000000000. lia. }
  exists b, s. split; [done|]. split; lia.
Qed.
Lemma parse_decimal n : is_u32 n -> parse_u32 (decimal n) = Some n.
Proof.
  intros Hn. unfold parse_u32, from_str_radix. pose proof (decimal_value n Hn) as Hv.
  destruct (decimal_cons n Hn) as (b & s & E & Hb & _). rewrite E in *.
  change (ch "+") with 43. by rewrite (proj2 (Z.eqb_neq _ _)) by lia.
Qed.

Lemma digit_value_nonneg r b d : digit_value r b = Some d -> 0 <= d.
Proof.
  unfold digit_value. intros H. destruct (_ <? r) eqn:Hl in H; [|done]. injection H as <-.
  destruct (is_ascii_digit b) eqn:E1; [apply is_ascii_digit_true in E1; lia|].
  destruct ((97 <=? b) && (b <=? 122)) eqn:E2; [apply andb_prop in E2 as [?%Z.leb_le ?]; lia|].
  destruct ((65 <=? b) && (b <=? 90)) eqn:E3; [apply andb_prop in E3 as [?%Z.leb_le ?]; lia|].
  by rewrite Z.ltb_irrefl in Hl.
Qed.
Lemma digits_value_range w r acc s n :
  0 <= r -> 0 <= acc < 2 ^ w -> digits_value w r acc s = Some n -> 0 <= n < 2 ^ w.
Proof.
  intros Hr. revert acc; induction s as [|b s IH]; intros acc Ha; cbn [digits_value]; [congruence|].
  destruct (digit_value r b) as [d|] eqn:Hd; [|done]. apply digit_value_nonneg in Hd.
  destruct (Z.ltb_spec (acc * r + d) (2 ^ w)); [|done]. apply IH. nia.
Qed.
Lemma parse_u32_range s n : parse_u32 s = Some n -> is_u32 n.
Proof.
  unfold parse_u32, from_str_radix. case_match; [done|]. apply digits_value_range; lia.
Qed.
