(* ===== verification/Bip388.v ===== *)
(** * Descriptor templates of wallet policies ([apps/bitcoin/bip388/src/lib.rs])

    [DescriptorTemplate] with its parser, its [Display], and the iterators over its leaves
    and its key placeholders. A template is a string of UTF-8 bytes; every slice of it
    checks the boundary of a character, as Rust's do.

    The parser's [depth] counts up to [MAX_PARSE_DEPTH]; here [levels] is the number of
    levels that are left, on which the recursion is structural. The constructors of the wrappers
    are [W_a] for the source's [A], and so on. The [hex] crate is the class [HexCrate]. *)

From S2P Require Import Prelude Text.
From Stdlib Require Import Ascii.

Definition HARDENED_INDEX : Z := 2147483648.
Definition MAX_OLDER_AFTER : Z := 2147483647.
Definition MAX_KEYS_MULTI : Z := 20.
Definition MAX_KEYS_MULTI_A : Z := 999.
Definition MAX_PARSE_DEPTH : nat := 64.

Inductive ParseError : Type :=
| EmptyInput | TrailingInput | InvalidSyntax | InvalidHex | InvalidKey | NumberOutOfRange
| InvalidLength | UnrecognizedFragment | TooFewKeyExpressions | ThreshExceedsScripts
| InvalidKeyIndex | InvalidTopLevelPolicy | FormatError | InvalidScriptContext | TooManyKeys
| InvalidMultisigQuorum | NestingTooDeep.

Inductive ParseContext : Type := TopLevel | Legacy | Segwit | WrappedSegwit | Taproot.
Definition musig_allowed (ctx : ParseContext) : bool := match ctx with Taproot => true | _ => false end.
Definition sh_allowed (ctx : ParseContext) : bool := match ctx with TopLevel => true | _ => false end.
Definition wpkh_allowed (ctx : ParseContext) : bool :=
  match ctx with TopLevel | Legacy => true | _ => false end.
Definition wsh_allowed (ctx : ParseContext) : bool :=
  match ctx with TopLevel | Legacy => true | _ => false end.
Definition tr_allowed (ctx : ParseContext) : bool := match ctx with TopLevel => true | _ => false end.

Inductive KeyExpressionType : Type := PlainKey (index : Z) | Musig (indices : list Z).
Record KeyExpression : Type := { key_type : KeyExpressionType; num1 : Z; num2 : Z }.
Definition plain (key_index num1 num2 : Z) : KeyExpression :=
  {| key_type := PlainKey key_index; num1 := num1; num2 := num2 |}.
Definition musig (key_indices : list Z) (num1 num2 : Z) : KeyExpression :=
  {| key_type := Musig key_indices; num1 := num1; num2 := num2 |}.

#[warnings="-register-all"]
Inductive DescriptorTemplate : Type :=
| Sh (d : DescriptorTemplate)
| Wsh (d : DescriptorTemplate)
| Pkh (k : KeyExpression)
| Wpkh (k : KeyExpression)
| Sortedmulti (k : Z) (keys : list KeyExpression)
| Sortedmulti_a (k : Z) (keys : list KeyExpression)
| Tr (k : KeyExpression) (tree : option TapTree)
| Zero
| One
| Pk (k : KeyExpression)
| Pk_k (k : KeyExpression)
| Pk_h (k : KeyExpression)
| Older (n : Z)
| After (n : Z)
| Sha256 (h : list Z)
| Ripemd160 (h : list Z)
| Hash256 (h : list Z)
| Hash160 (h : list Z)
| Andor (x y z : DescriptorTemplate)
| And_v (x y : DescriptorTemplate)
| And_b (x y : DescriptorTemplate)
| And_n (x y : DescriptorTemplate)
| Or_b (x y : DescriptorTemplate)
| Or_c (x y : DescriptorTemplate)
| Or_d (x y : DescriptorTemplate)
| Or_i (x y : DescriptorTemplate)
| Thresh (k : Z) (ds : list DescriptorTemplate)
| Multi (k : Z) (keys : list KeyExpression)
| Multi_a (k : Z) (keys : list KeyExpression)
| W_a (d : DescriptorTemplate)
| W_s (d : DescriptorTemplate)
| W_c (d : DescriptorTemplate)
| W_t (d : DescriptorTemplate)
| W_d (d : DescriptorTemplate)
| W_v (d : DescriptorTemplate)
| W_j (d : DescriptorTemplate)
| W_n (d : DescriptorTemplate)
| W_l (d : DescriptorTemplate)
| W_u (d : DescriptorTemplate)
with TapTree : Type :=
| Script (d : DescriptorTemplate)
| Branch (l r : TapTree).

(** ** Iterators

    A [Vec] used as a stack is a list whose head is the top. [next] returns the next item
    and the iterator; a loop pops one node per turn, and has the number of nodes of the
    stack as fuel. *)

(** [for x in l.rev() { stack.push(x) }]. *)
Definition push_rev {A} (l stack : list A) : list A := fold_left (fun st x => x :: st) (rev l) stack.

Fixpoint tree_nodes (t : TapTree) : nat :=
  match t with Script _ => 1 | Branch l r => S (tree_nodes l + tree_nodes r) end.
Fixpoint tapleaves_next (fuel : nat) (stack : list TapTree) : option (DescriptorTemplate * list TapTree) :=
  match fuel, stack with
  | S fuel, Script descriptor :: stack => Some (descriptor, stack)
  | S fuel, Branch l r :: stack => tapleaves_next fuel (l :: r :: stack)
  | _, _ => None
  end.
Fixpoint collect_leaves (fuel : nat) (stack : list TapTree) : list DescriptorTemplate :=
  match fuel with
  | O => []
  | S fuel' =>
      match tapleaves_next fuel stack with
      | None => []
      | Some (leaf, stack) => leaf :: collect_leaves fuel' stack
      end
  end.
Definition tapleaves (t : TapTree) : list DescriptorTemplate := collect_leaves (tree_nodes t) [t].

Fixpoint nodes (d : DescriptorTemplate) : nat :=
  match d with
  | Sh d | Wsh d | W_a d | W_s d | W_c d | W_t d | W_d d | W_v d | W_j d | W_n d | W_l d | W_u d =>
      S (nodes d)
  | Andor x y z => S (nodes x + nodes y + nodes z)
  | And_v x y | And_b x y | And_n x y | Or_b x y | Or_c x y | Or_d x y | Or_i x y =>
      S (nodes x + nodes y)
  | Thresh _ ds => S (list_sum (map nodes ds))
  | Tr _ (Some t) => S (tree_size t)
  | _ => 1
  end
with tree_size (t : TapTree) : nat :=
  match t with Script d => nodes d | Branch l r => tree_size l + tree_size r end.

Definition Leaf : Type := option DescriptorTemplate.
Record DescriptorTemplateIter : Type := {
  fragments : list (DescriptorTemplate * Leaf);
  placeholders : list (KeyExpression * Leaf)
}.
Definition iter_from (desc : DescriptorTemplate) : DescriptorTemplateIter :=
  {| fragments := [(desc, None)]; placeholders := [] |}.

(** One turn of the loop of [next] on a fragment: an item to return, or the new stacks. *)
Definition visit (frag : DescriptorTemplate) (leaf : Leaf) (fs : list (DescriptorTemplate * Leaf)) :
    (KeyExpression * Leaf) + list (DescriptorTemplate * Leaf) * list (KeyExpression * Leaf) :=
  match frag with
  | Sh sub | Wsh sub | W_a sub | W_s sub | W_c sub | W_t sub | W_d sub | W_v sub | W_j sub | W_n sub
  | W_l sub | W_u sub => inr ((sub, leaf) :: fs, [])
  | Andor sub1 sub2 sub3 => inr ((sub1, leaf) :: (sub2, leaf) :: (sub3, leaf) :: fs, [])
  | Or_b sub1 sub2 | Or_c sub1 sub2 | Or_d sub1 sub2 | Or_i sub1 sub2 | And_v sub1 sub2
  | And_b sub1 sub2 | And_n sub1 sub2 => inr ((sub1, leaf) :: (sub2, leaf) :: fs, [])
  | Tr key tree =>
      inr (match tree with
           | None => fs
           | Some t => fold_left (fun st l => (l, Some l) :: st) (rev (tapleaves t)) fs
           end, [(key, None)])
  | Pkh key | Wpkh key | Pk key | Pk_k key | Pk_h key => inl (key, leaf)
  | Sortedmulti _ keys | Sortedmulti_a _ keys | Multi _ keys | Multi_a _ keys =>
      inr (fs, fold_left (fun st key => (key, leaf) :: st) (rev keys) [])
  | Thresh _ descs => inr (fold_left (fun st desc => (desc, leaf) :: st) (rev descs) fs, [])
  | Zero | One | Older _ | After _ | Sha256 _ | Ripemd160 _ | Hash256 _ | Hash160 _ => inr (fs, [])
  end.
Fixpoint next (fuel : nat) (it : DescriptorTemplateIter) :
    option ((KeyExpression * Leaf) * DescriptorTemplateIter) :=
  match placeholders it, fragments it with
  | item :: ps, fs => Some (item, {| fragments := fs; placeholders := ps |})
  | [], (frag, leaf) :: fs =>
      match fuel with
      | O => None
      | S fuel =>
          match visit frag leaf fs with
          | inl item => Some (item, {| fragments := fs; placeholders := [] |})
          | inr (fs, ps) => next fuel {| fragments := fs; placeholders := ps |}
          end
      end
  | [], [] => None
  end.
Definition iter_fuel (it : DescriptorTemplateIter) : nat :=
  list_sum (map (fun f => nodes (fst f)) (fragments it)).
(** [it.collect()], for an iterator that yields at most [n] items. *)
Fixpoint collect (n : nat) (it : DescriptorTemplateIter) : list (KeyExpression * Leaf) :=
  match n with
  | O => []
  | S n =>
      match next (iter_fuel it) it with
      | None => []
      | Some (item, it) => item :: collect n it
      end
  end.

(** ** Printing *)

Class HexCrate := {
  hex_encode : list Z -> list Z;
  from_hex : nat -> list Z -> option (list Z);
}.

Fixpoint display_indices (first : bool) (l : list Z) : list Z :=
  match l with
  | [] => []
  | idx :: l => (if first then [] else lit ",") ++ lit "@" ++ decimal idx ++ display_indices false l
  end.
Definition display_suffix (k : KeyExpression) : list Z :=
  if (num1 k =? 0) && (num2 k =? 1) then lit "/**"
  else lit "/<" ++ decimal (num1 k) ++ lit ";" ++ decimal (num2 k) ++ lit ">/*".
Definition display_key (k : KeyExpression) : list Z :=
  match key_type k with
  | PlainKey key_index => lit "@" ++ decimal key_index ++ display_suffix k
  | Musig key_indices => lit "musig(" ++ display_indices true key_indices ++ lit ")" ++ display_suffix k
  end.

Definition is_wrapper (d : DescriptorTemplate) : bool :=
  match d with
  | W_a _ | W_s _ | W_c _ | W_t _ | W_d _ | W_v _ | W_j _ | W_n _ | W_l _ | W_u _ => true
  | _ => false
  end.

(** [for x in l { write!(f, ",{}", x) }]. *)
Definition comma_each {A} (f : A -> list Z) (l : list A) : list Z := concat (map (fun x => lit "," ++ f x) l).

Section display.
Context `{HexCrate}.

Definition fragment (name : string) (body : list Z) : list Z := lit name ++ lit "(" ++ body ++ lit ")".
Fixpoint display (d : DescriptorTemplate) : list Z :=
  let write_display_wrapper (c : string) (inner : DescriptorTemplate) :=
    lit c ++ (if is_wrapper inner then [] else lit ":") ++ display inner in
  match d with
  | Sh inner => fragment "sh" (display inner)
  | Wsh inner => fragment "wsh" (display inner)
  | Pkh kp => fragment "pkh" (display_key kp)
  | Wpkh kp => fragment "wpkh" (display_key kp)
  | Sortedmulti k kps => fragment "sortedmulti" (decimal k ++ comma_each display_key kps)
  | Sortedmulti_a k kps => fragment "sortedmulti_a" (decimal k ++ comma_each display_key kps)
  | Tr kp None => fragment "tr" (display_key kp)
  | Tr kp (Some tree) => fragment "tr" (display_key kp ++ lit "," ++ display_tree tree)
  | Zero => lit "0"
  | One => lit "1"
  | Pk kp => fragment "pk" (display_key kp)
  | Pk_k kp => fragment "pk_k" (display_key kp)
  | Pk_h kp => fragment "pk_h" (display_key kp)
  | Older n => fragment "older" (decimal n)
  | After n => fragment "after" (decimal n)
  | Sha256 hash => fragment "sha256" (hex_encode hash)
  | Ripemd160 hash => fragment "ripemd160" (hex_encode hash)
  | Hash256 hash => fragment "hash256" (hex_encode hash)
  | Hash160 hash => fragment "hash160" (hex_encode hash)
  | Andor x y z => fragment "andor" (display x ++ lit "," ++ display y ++ lit "," ++ display z)
  | And_v x y => fragment "and_v" (display x ++ lit "," ++ display y)
  | And_b x y => fragment "and_b" (display x ++ lit "," ++ display y)
  | And_n x y => fragment "and_n" (display x ++ lit "," ++ display y)
  | Or_b x y => fragment "or_b" (display x ++ lit "," ++ display y)
  | Or_c x y => fragment "or_c" (display x ++ lit "," ++ display y)
  | Or_d x y => fragment "or_d" (display x ++ lit "," ++ display y)
  | Or_i x y => fragment "or_i" (display x ++ lit "," ++ display y)
  | Thresh k descs => fragment "thresh" (decimal k ++ comma_each display descs)
  | Multi k kps => fragment "multi" (decimal k ++ comma_each display_key kps)
  | Multi_a k kps => fragment "multi_a" (decimal k ++ comma_each display_key kps)
  | W_a inner => write_display_wrapper "a" inner
  | W_s inner => write_display_wrapper "s" inner
  | W_c inner => write_display_wrapper "c" inner
  | W_t inner => write_display_wrapper "t" inner
  | W_d inner => write_display_wrapper "d" inner
  | W_v inner => write_display_wrapper "v" inner
  | W_j inner => write_display_wrapper "j" inner
  | W_n inner => write_display_wrapper "n" inner
  | W_l inner => write_display_wrapper "l" inner
  | W_u inner => write_display_wrapper "u" inner
  end
with display_tree (t : TapTree) : list Z :=
  match t with
  | Script desc => display desc
  | Branch l r => lit "{" ++ display_tree l ++ lit "," ++ display_tree r ++ lit "}"
  end.
End display.

(** ** Parsing *)

Abbreviation ParseResult A := (outcome ParseError (list Z * A)).

(** A character that must come next; it is consumed. *)
Definition expect (c : string) (input : list Z) : outcome ParseError (list Z) :=
  guard_err (negb (starts_with (lit c) input)) InvalidSyntax;;
  str_from (length (lit c)) input.

Definition parse_number_up_to (input : list Z) (max : Z) : ParseResult Z :=
  guard_err (match input with [] => true | b :: _ => negb (is_ascii_digit b) end) InvalidSyntax;;
  guard_err (match input with b :: c :: _ => (b =? 48) && is_ascii_digit c | _ => false end)
    NumberOutOfRange;;
  let end_ := default (length input) (position (fun b => negb (is_ascii_digit b)) input) in
  digits ← str_to end_ input;
  num ← ok_or (parse_u32 digits) NumberOutOfRange;
  guard_err (max <? num) NumberOutOfRange;;
  rest ← str_from end_ input;
  Ok (rest, num).

Definition parse_derivation_step_number (input : list Z) : ParseResult Z :=
  '(rest, num) ← parse_number_up_to input (HARDENED_INDEX - 1);
  if starts_with (lit "'") rest then
    rest ← str_from 1 rest;
    Ok (rest, u32_add num HARDENED_INDEX)
  else Ok (rest, num).

Definition parse_derivation_suffix (input : list Z) : ParseResult (Z * Z) :=
  rest ← expect "/" input;
  if starts_with (lit "**") rest then
    rest ← str_from 2 rest;
    Ok (rest, (0, 1))
  else if starts_with (lit "<") rest then
    rest ← str_from 1 rest;
    '(rest, num1) ← parse_derivation_step_number rest;
    rest ← expect ";" rest;
    '(rest, num2) ← parse_derivation_step_number rest;
    rest ← expect ">/*" rest;
    Ok (rest, (num1, num2))
  else Err InvalidSyntax.

(** Each turn of the loop consumes a character. *)
Fixpoint musig_loop (fuel : nat) (rest : list Z) (key_indices : list Z) : ParseResult (list Z) :=
  match fuel with
  | O => Diverge
  | S fuel =>
      rest ← expect "@" rest;
      '(rest, idx) ← parse_number_up_to rest u32_max;
      guard_err (bool_decide (idx ∈ key_indices)) InvalidKey;;
      let key_indices := key_indices ++ [idx] in
      if starts_with (lit ",") rest then
        rest ← str_from 1 rest;
        musig_loop fuel rest key_indices
      else Ok (rest, key_indices)
  end.
Definition parse_musig_key_expression (input : list Z) : ParseResult KeyExpression :=
  rest ← str_from 6 input;
  '(rest, key_indices) ← musig_loop (S (length rest)) rest [];
  guard_err (length key_indices <? 2)%nat TooFewKeyExpressions;;
  rest ← expect ")" rest;
  '(rest, (num1, num2)) ← parse_derivation_suffix rest;
  Ok (rest, musig key_indices num1 num2).

Definition parse_key_expression (input : list Z) (ctx : ParseContext) : ParseResult KeyExpression :=
  if starts_with (lit "musig(") input then
    guard_err (negb (musig_allowed ctx)) InvalidScriptContext;;
    parse_musig_key_expression input
  else
    rest ← expect "@" input;
    '(rest, key_index) ← parse_number_up_to rest u32_max;
    '(rest, (num1, num2)) ← parse_derivation_suffix rest;
    Ok (rest, plain key_index num1 num2).

Definition parse_kp_fragment (input : list Z) (name : string) (constructor : KeyExpression -> DescriptorTemplate)
    (ctx : ParseContext) : ParseResult DescriptorTemplate :=
  rest ← str_from (length (lit name)) input;
  rest ← str_from 1 rest;
  '(rest, kp) ← parse_key_expression rest ctx;
  rest ← expect ")" rest;
  Ok (rest, constructor kp).

Definition parse_num_fragment (input : list Z) (name : string) (max : Z) (constructor : Z -> DescriptorTemplate) :
    ParseResult DescriptorTemplate :=
  rest ← str_from (length (lit name)) input;
  rest ← str_from 1 rest;
  '(rest, num) ← parse_number_up_to rest max;
  rest ← expect ")" rest;
  Ok (rest, constructor num).

(** [parse_hex20_fragment] and [parse_hex32_fragment] are this for 20 and 32. *)
Definition parse_hex_fragment `{HexCrate} (n : nat) (input : list Z) (name : string)
    (constructor : list Z -> DescriptorTemplate) : ParseResult DescriptorTemplate :=
  rest ← str_from (length (lit name) + 1) input;
  guard_err (length rest <? 2 * n)%nat InvalidLength;;
  digits ← str_to (2 * n) rest;
  bytes ← ok_or (from_hex n digits) InvalidHex;
  rest ← str_from (2 * n) rest;
  rest ← expect ")" rest;
  Ok (rest, constructor bytes).
Definition parse_hex20_fragment `{HexCrate} := parse_hex_fragment 20.
Definition parse_hex32_fragment `{HexCrate} := parse_hex_fragment 32.

(** The loop consumes a comma per turn; a key that does not parse ends it. *)
Fixpoint keys_loop (fuel : nat) (ctx : ParseContext) (max_keys : Z) (rest : list Z)
    (keys : list KeyExpression) : ParseResult (list KeyExpression) :=
  if starts_with (lit ",") rest then
    match fuel with
    | O => Diverge
    | S fuel =>
        guard_err (max_keys <=? Z.of_nat (length keys)) TooManyKeys;;
        input ← str_from 1 rest;
        match parse_key_expression input ctx with
        | Ok (r, kp) => keys_loop fuel ctx max_keys r (keys ++ [kp])
        | Err InvalidScriptContext => Err InvalidScriptContext
        | Err _ => Ok (rest, keys)
        | Panic => Panic
        | Diverge => Diverge
        end
    end
  else Ok (rest, keys).
Definition parse_threshold_kp_fragment (input : list Z) (name : string)
    (constructor : Z -> list KeyExpression -> DescriptorTemplate) (ctx : ParseContext) (max_keys : Z) :
    ParseResult DescriptorTemplate :=
  rest ← str_from (length (lit name) + 1) input;
  '(rest, threshold) ← parse_number_up_to rest u32_max;
  '(rest, keys) ← keys_loop (length rest) ctx max_keys rest [];
  guard_err (length keys <? 2)%nat TooFewKeyExpressions;;
  guard_err ((threshold =? 0) || (Z.of_nat (length keys) <? threshold)) InvalidMultisigQuorum;;
  rest ← expect ")" rest;
  Ok (rest, constructor threshold keys).

Section parser.
Context `{HexCrate}.

(** The calls of [parse_descriptor] and [parse_tap_tree] at the next depth. *)
Section level.
Context (parse_descriptor : list Z -> ParseContext -> ParseResult DescriptorTemplate).
Context (parse_tap_tree : list Z -> ParseResult TapTree).

Fixpoint subscripts_loop (n : nat) (rest : list Z) (ctx : ParseContext) : ParseResult (list DescriptorTemplate) :=
  match n with
  | O => Ok (rest, [])
  | S n =>
      '(rest, desc) ← parse_descriptor rest ctx;
      match n with
      | O => Ok (rest, [desc])
      | S _ =>
          rest ← expect "," rest;
          '(rest, descs) ← subscripts_loop n rest ctx;
          Ok (rest, desc :: descs)
      end
  end.
Definition parse_n_subscripts (n : nat) (input : list Z) (ctx : ParseContext) :
    ParseResult (list DescriptorTemplate) :=
  '(rest, scripts) ← subscripts_loop n input ctx;
  rest ← expect ")" rest;
  Ok (rest, scripts).

Fixpoint thresh_loop (fuel : nat) (ctx : ParseContext) (rest : list Z) (scripts : list DescriptorTemplate) :
    ParseResult (list DescriptorTemplate) :=
  if starts_with (lit ",") rest then
    match fuel with
    | O => Diverge
    | S fuel =>
        input ← str_from 1 rest;
        match parse_descriptor input ctx with
        | Ok (r, desc) => thresh_loop fuel ctx r (scripts ++ [desc])
        | Err NestingTooDeep => Err NestingTooDeep
        | Err _ => Ok (rest, scripts)
        | Panic => Panic
        | Diverge => Diverge
        end
    end
  else Ok (rest, scripts).
Definition parse_thresh (input : list Z) (ctx : ParseContext) : ParseResult DescriptorTemplate :=
  input ← str_from 7 input;
  '(rest, k) ← parse_number_up_to input u32_max;
  rest ← expect "," rest;
  '(rest, first) ← parse_descriptor rest ctx;
  '(rest, scripts) ← thresh_loop (length rest) ctx rest [first];
  guard_err (k =? 0) InvalidMultisigQuorum;;
  guard_err (Z.of_nat (length scripts) <? k) ThreshExceedsScripts;;
  rest ← expect ")" rest;
  Ok (rest, Thresh k scripts).

Definition parse_tr (input : list Z) : ParseResult DescriptorTemplate :=
  input ← str_from 3 input;
  '(rest, key_placeholder) ← parse_key_expression input Taproot;
  '(rest, tree) ← (if starts_with (lit ",") rest then
                     rest ← str_from 1 rest;
                     '(rest, tree) ← parse_tap_tree rest;
                     Ok (rest, Some tree)
                   else Ok (rest, None));
  rest ← expect ")" rest;
  Ok (rest, Tr key_placeholder tree).

(** [let (rest, [x]) = parse_n_subscripts(&input[skip..], ctx, depth)?], and the same for two
    and three scripts. *)
Definition one_script (skip : nat) (input : list Z) (ctx : ParseContext)
    (constructor : DescriptorTemplate -> DescriptorTemplate) : ParseResult DescriptorTemplate :=
  input ← str_from skip input;
  '(rest, scripts) ← parse_n_subscripts 1 input ctx;
  match scripts with [x] => Ok (rest, constructor x) | _ => Panic end.
Definition two_scripts (skip : nat) (input : list Z) (ctx : ParseContext)
    (constructor : DescriptorTemplate -> DescriptorTemplate -> DescriptorTemplate) :
    ParseResult DescriptorTemplate :=
  input ← str_from skip input;
  '(rest, scripts) ← parse_n_subscripts 2 input ctx;
  match scripts with [x; y] => Ok (rest, constructor x y) | _ => Panic end.
Definition three_scripts (skip : nat) (input : list Z) (ctx : ParseContext)
    (constructor : DescriptorTemplate -> DescriptorTemplate -> DescriptorTemplate -> DescriptorTemplate) :
    ParseResult DescriptorTemplate :=
  input ← str_from skip input;
  '(rest, scripts) ← parse_n_subscripts 3 input ctx;
  match scripts with [x; y; z] => Ok (rest, constructor x y z) | _ => Panic end.

Definition parse_inner_descriptor (input : list Z) (ctx : ParseContext) : ParseResult DescriptorTemplate :=
  let on keyword := starts_with (lit keyword) input in
  if on "sortedmulti_a(" then parse_threshold_kp_fragment input "sortedmulti_a" Sortedmulti_a ctx MAX_KEYS_MULTI_A
  else if on "sortedmulti(" then parse_threshold_kp_fragment input "sortedmulti" Sortedmulti ctx MAX_KEYS_MULTI
  else if on "multi_a(" then parse_threshold_kp_fragment input "multi_a" Multi_a ctx MAX_KEYS_MULTI_A
  else if on "multi(" then parse_threshold_kp_fragment input "multi" Multi ctx MAX_KEYS_MULTI
  else if on "thresh(" then parse_thresh input ctx
  else if on "wsh(" then
    guard_err (negb (wsh_allowed ctx)) InvalidScriptContext;;
    match ctx with
    | TopLevel => one_script 4 input Segwit Wsh
    | Legacy => one_script 4 input WrappedSegwit Wsh
    | _ => Err InvalidScriptContext
    end
  else if on "sh(" then
    guard_err (negb (sh_allowed ctx)) InvalidScriptContext;;
    one_script 3 input Legacy Sh
  else if on "wpkh(" then
    guard_err (negb (wpkh_allowed ctx)) InvalidScriptContext;;
    parse_kp_fragment input "wpkh" Wpkh ctx
  else if on "pkh(" then parse_kp_fragment input "pkh" Pkh ctx
  else if on "tr(" then
    guard_err (negb (tr_allowed ctx)) InvalidScriptContext;;
    parse_tr input
  else if on "pk_k(" then parse_kp_fragment input "pk_k" Pk_k ctx
  else if on "pk_h(" then parse_kp_fragment input "pk_h" Pk_h ctx
  else if on "pk(" then parse_kp_fragment input "pk" Pk ctx
  else if on "older(" then parse_num_fragment input "older" MAX_OLDER_AFTER Older
  else if on "after(" then parse_num_fragment input "after" MAX_OLDER_AFTER After
  else if on "sha256(" then parse_hex32_fragment input "sha256" Sha256
  else if on "hash256(" then parse_hex32_fragment input "hash256" Hash256
  else if on "ripemd160(" then parse_hex20_fragment input "ripemd160" Ripemd160
  else if on "hash160(" then parse_hex20_fragment input "hash160" Hash160
  else if on "andor(" then three_scripts 6 input ctx Andor
  else if on "and_b(" then two_scripts 6 input ctx And_b
  else if on "and_v(" then two_scripts 6 input ctx And_v
  else if on "and_n(" then two_scripts 6 input ctx And_n
  else if on "or_b(" then two_scripts 5 input ctx Or_b
  else if on "or_c(" then two_scripts 5 input ctx Or_c
  else if on "or_d(" then two_scripts 5 input ctx Or_d
  else if on "or_i(" then two_scripts 5 input ctx Or_i
  else if on "0" then rest ← str_from 1 input; Ok (rest, Zero)
  else if on "1" then rest ← str_from 1 input; Ok (rest, One)
  else Err UnrecognizedFragment.
End level.

Definition wrapper_of (c : Z) : option (DescriptorTemplate -> DescriptorTemplate) :=
  if c =? ch "a" then Some W_a
  else if c =? ch "s" then Some W_s
  else if c =? ch "c" then Some W_c
  else if c =? ch "t" then Some W_t
  else if c =? ch "d" then Some W_d
  else if c =? ch "v" then Some W_v
  else if c =? ch "j" then Some W_j
  else if c =? ch "n" then Some W_n
  else if c =? ch "l" then Some W_l
  else if c =? ch "u" then Some W_u
  else None.
(** The loop over the wrappers, already reversed. *)
Fixpoint apply_wrappers (wrappers : list Z) (result : DescriptorTemplate) :
    outcome ParseError DescriptorTemplate :=
  match wrappers with
  | [] => Ok result
  | c :: wrappers =>
      w ← ok_or (wrapper_of c) InvalidSyntax;
      apply_wrappers wrappers (w result)
  end.
(** The prefix of wrappers, and what follows it. *)
Definition split_wrappers (input : list Z) : outcome ParseError (list Z * list Z) :=
  let alpha_end := default (length input) (position (fun b => negb (is_ascii_alphabetic b)) input) in
  if (0 <? alpha_end)%nat && bool_decide (input !! alpha_end = Some (ch ":")) then
    wrappers ← str_to alpha_end input;
    input ← str_from (alpha_end + 1) input;
    Ok (input, wrappers)
  else Ok (input, []).

Fixpoint parse_descriptor (levels : nat) (input : list Z) (ctx : ParseContext) : ParseResult DescriptorTemplate :=
  match levels with
  | O => Err NestingTooDeep
  | S levels =>
      '(input, wrappers) ← split_wrappers input;
      '(input, inner) ← parse_inner_descriptor (parse_descriptor levels) (parse_tap_tree levels) input ctx;
      result ← apply_wrappers (rev wrappers) inner;
      Ok (input, result)
  end
with parse_tap_tree (levels : nat) (input : list Z) : ParseResult TapTree :=
  match levels with
  | O => Err NestingTooDeep
  | S levels =>
      if starts_with (lit "{") input then
        input ← str_from 1 input;
        '(rest, l) ← parse_tap_tree levels input;
        rest ← expect "," rest;
        '(rest, r) ← parse_tap_tree levels rest;
        rest ← expect "}" rest;
        Ok (rest, Branch l r)
      else
        '(rest, desc) ← parse_descriptor levels input Taproot;
        Ok (rest, Script desc)
  end.

(** [DescriptorTemplate::from_str]. *)
Definition parse_descriptor_template (input : list Z) : outcome ParseError DescriptorTemplate :=
  '(rest, descriptor) ← parse_descriptor MAX_PARSE_DEPTH input TopLevel;
  match rest with [] => Ok descriptor | _ => Err TrailingInput end.
End parser.
