(* ===== verification/Bip388Spec.v ===== *)
(** * The parser of descriptor templates

    The parser ends on every string, and panics on none that is ASCII; what it accepts is
    well formed and not nested too deeply; and what is printed is parsed to what it was, if
    no derivation step is hardened. The iterator yields the placeholders from left to right. *)

From S2P Require Import Prelude Text Bip388.
From Stdlib Require Import Ascii.

(** ** What a parser promises

    [consumes k input o P]: the parser [o] of [input] ends; if it succeeds it has consumed
    at least [k] bytes and its result satisfies [P]; it panics only on a string that is not
    ASCII. *)

Definition consumes {A} (k : nat) (input : list Z) (o : ParseResult A) (P : A -> Prop) : Prop :=
  match o with
  | Ok (rest, a) => (k + length rest <= length input)%nat /\ (ascii_ok input -> ascii_ok rest) /\ P a
  | Err _ => True
  | Panic => ~ ascii_ok input
  | Diverge => False
  end.

Section consumes.
Context {A B : Type}.
Implicit Types (k : nat) (input rest : list Z).

Lemma consumes_bind k1 k2 k input (o : ParseResult A) (f : list Z * A -> ParseResult B) P Q :
  consumes k1 input o P ->
  (forall rest a, (k1 + length rest <= length input)%nat -> P a -> consumes k2 rest (f (rest, a)) Q) ->
  (k <= k1 + k2)%nat -> consumes k input (x ← o; f x) Q.
Proof.
  destruct o as [[rest a]| | |]; cbn; try done. intros (Hl & Ha & HP) Hf Hk. specialize (Hf rest a Hl HP).
  unfold consumes in *. destruct (f (rest, a)) as [[rest' b]| | |]; try done.
  - destruct Hf as (Hl' & Ha' & HQ). split; [lia|]. auto.
  - tauto.
Qed.

Lemma consumes_ret input (a : A) (P : A -> Prop) : P a -> consumes 0 input (Ok (input, a)) P.
Proof. by cbn. Qed.

Lemma consumes_le k k' input (o : ParseResult A) P : consumes k input o P -> (k' <= k)%nat -> consumes k' input o P.
Proof. unfold consumes. destruct o as [[]| | |]; try done. intros (? & ? & ?) ?. split; [lia|done]. Qed.

Lemma consumes_mono k input (o : ParseResult A) (P Q : A -> Prop) :
  consumes k input o P -> (forall a, P a -> Q a) -> consumes k input o Q.
Proof. unfold consumes. destruct o as [[]| | |]; try done. intros (? & ? & ?) ?. auto. Qed.

Lemma consumes_guard k input b e (o : ParseResult A) P :
  (b = false -> consumes k input o P) -> consumes k input (guard_err b e;; o) P.
Proof. destruct b; cbn; auto. Qed.

Lemma consumes_ok_or {C} k input (c : option C) e (f : C -> ParseResult A) P :
  (forall x, c = Some x -> consumes k input (f x) P) -> consumes k input (x ← ok_or c e; f x) P.
Proof. destruct c; cbn; auto. Qed.

Lemma consumes_str_from n k input (f : list Z -> ParseResult A) P :
  (n <= length input)%nat ->
  (forall rest, (n + length rest = length input)%nat -> consumes k rest (f rest) P) ->
  consumes (n + k) input (rest ← str_from n input; f rest) P.
Proof.
  intros Hn Hf. unfold str_from. destruct (is_char_boundary n input) eqn:E; cbn -[consumes].
  - specialize (Hf (drop n input)). rewrite length_drop in Hf. specialize (Hf ltac:(lia)).
    unfold consumes in *. rewrite length_drop in Hf.
    destruct (f (drop n input)) as [[rest' b]| | |]; try done.
    + destruct Hf as (Hl & Ha & HP). split; [lia|]. split; [|done]. intros Hs. by apply Ha, Forall_drop.
    + intros Hs. by apply Hf, Forall_drop.
  - intros Hs. by rewrite ascii_boundary in E.
Qed.

Lemma consumes_str_to n k input (f : list Z -> ParseResult A) P :
  (n <= length input)%nat -> consumes k input (f (take n input)) P ->
  consumes k input (rest ← str_to n input; f rest) P.
Proof.
  intros Hn Hf. unfold str_to. destruct (is_char_boundary n input) eqn:E; [done|].
  intros Hs. by rewrite ascii_boundary in E.
Qed.

Lemma consumes_expect c k input (f : list Z -> ParseResult A) P :
  (forall rest, (length (lit c) + length rest = length input)%nat -> consumes k rest (f rest) P) ->
  consumes (length (lit c) + k) input (rest ← expect c input; f rest) P.
Proof.
  intros Hf. unfold expect. destruct (starts_with (lit c) input) eqn:E; [|done].
  apply starts_with_length in E. by apply consumes_str_from.
Qed.
End consumes.

(** ** Well-formed templates *)

(** The steps of the derivation are below [limit]. *)
Definition key_ok (limit : Z) (ctx : ParseContext) (k : KeyExpression) : Prop :=
  match key_type k with
  | PlainKey i => is_u32 i
  | Musig l => ctx = Taproot /\ Forall is_u32 l /\ NoDup l /\ (2 <= length l)%nat
  end /\ 0 <= num1 k < limit /\ 0 <= num2 k < limit.
Definition multi_ok (limit : Z) (ctx : ParseContext) (max_keys k : Z) (keys : list KeyExpression) : Prop :=
  Forall (key_ok limit ctx) keys /\ (2 <= length keys)%nat /\ Z.of_nat (length keys) <= max_keys /\
  1 <= k <= Z.of_nat (length keys).
Definition hash_ok (n : nat) (h : list Z) : Prop := length h = n /\ bytes_ok h.
Definition all_of {A} (P : A -> Prop) (l : list A) : Prop := foldr and True (map P l).

Fixpoint template_ok (limit : Z) (ctx : ParseContext) (d : DescriptorTemplate) : Prop :=
  match d with
  | Sh x => ctx = TopLevel /\ template_ok limit Legacy x
  | Wsh x => (ctx = TopLevel /\ template_ok limit Segwit x) \/ (ctx = Legacy /\ template_ok limit WrappedSegwit x)
  | Pkh k | Pk k | Pk_k k | Pk_h k => key_ok limit ctx k
  | Wpkh k => wpkh_allowed ctx = true /\ key_ok limit ctx k
  | Sortedmulti k keys | Multi k keys => multi_ok limit ctx MAX_KEYS_MULTI k keys
  | Sortedmulti_a k keys | Multi_a k keys => multi_ok limit ctx MAX_KEYS_MULTI_A k keys
  | Tr k tree => ctx = TopLevel /\ key_ok limit Taproot k /\
      match tree with None => True | Some t => tree_ok limit t end
  | Zero | One => True
  | Older n | After n => 0 <= n <= MAX_OLDER_AFTER
  | Sha256 h | Hash256 h => hash_ok 32 h
  | Ripemd160 h | Hash160 h => hash_ok 20 h
  | Andor x y z => template_ok limit ctx x /\ template_ok limit ctx y /\ template_ok limit ctx z
  | And_v x y | And_b x y | And_n x y | Or_b x y | Or_c x y | Or_d x y | Or_i x y =>
      template_ok limit ctx x /\ template_ok limit ctx y
  | Thresh k ds => is_u32 k /\ 1 <= k <= Z.of_nat (length ds) /\ all_of (template_ok limit ctx) ds
  | W_a x | W_s x | W_c x | W_t x | W_d x | W_v x | W_j x | W_n x | W_l x | W_u x => template_ok limit ctx x
  end
with tree_ok (limit : Z) (t : TapTree) : Prop :=
  match t with
  | Script d => template_ok limit Taproot d
  | Branch l r => tree_ok limit l /\ tree_ok limit r
  end.

(** The number of levels of the recursion; a chain of wrappers takes none of its own. *)
Fixpoint height (d : DescriptorTemplate) : nat :=
  match d with
  | W_a x | W_s x | W_c x | W_t x | W_d x | W_v x | W_j x | W_n x | W_l x | W_u x => height x
  | Sh x | Wsh x => S (height x)
  | Andor x y z => S (height x `max` (height y `max` height z))
  | And_v x y | And_b x y | And_n x y | Or_b x y | Or_c x y | Or_d x y | Or_i x y => S (height x `max` height y)
  | Thresh _ ds => S (max_list (map height ds))
  | Tr _ (Some t) => S (tree_height t)
  | _ => 1
  end
with tree_height (t : TapTree) : nat :=
  match t with
  | Script d => S (height d)
  | Branch l r => S (tree_height l `max` tree_height r)
  end.

Lemma all_of_Forall {A} (P : A -> Prop) l : all_of P l <-> Forall P l.
Proof. unfold all_of. induction l as [|a l IH]; cbn; [by split|]. rewrite Forall_cons. tauto. Qed.
Lemma max_list_le l n : (max_list l <= n)%nat <-> Forall (fun m => (m <= n)%nat) l.
Proof. induction l as [|a l IH]; cbn; [split; [constructor|lia]|]. rewrite Forall_cons, <- IH. lia. Qed.

(** ** Keys and numbers *)

Lemma fine_number input max :
  max <= u32_max -> consumes 1 input (parse_number_up_to input max) (fun n => 0 <= n <= max).
Proof.
  intros Hm. unfold parse_number_up_to. apply consumes_guard. intros Hd. apply consumes_guard. intros _.
  assert (exists b s, input = b :: s /\ is_ascii_digit b = true) as (b & s & -> & Hb).
  { destruct input as [|b s]; [done|]. apply negb_false_iff in Hd. eauto. }
  set (e := default _ _).
  assert (1 <= e <= length (b :: s))%nat as He.
  { unfold e. cbn [position]. rewrite Hb. cbn [negb]. destruct (position _ s) as [m|] eqn:E; cbn; [|lia].
    apply position_le in E. lia. }
  apply consumes_str_to; [lia|]. apply consumes_ok_or. intros num Hnum. apply consumes_guard. intros Hle.
  eapply consumes_le; [apply (consumes_str_from e 0); [lia|]|lia]. intros rest _. apply consumes_ret.
  destruct (parse_u32 _) as [m|] eqn:E in Hnum; [|done]. apply parse_u32_range in E. unfold is_u in E.
  injection Hnum as <-. apply Z.ltb_ge in Hle. lia.
Qed.

Lemma fine_step input :
  consumes 1 input (parse_derivation_step_number input) (fun n => 0 <= n < 2 ^ 32).
Proof.
  unfold parse_derivation_step_number. eapply (consumes_bind 1 0); [by apply fine_number| |lia].
  intros rest n _ Hn. cbn in Hn. destruct (starts_with (lit "'") rest) eqn:E.
  - apply starts_with_length in E. eapply consumes_le; [apply (consumes_str_from 1 0); [done|]|lia].
    intros rest' _. apply consumes_ret. unfold u32_add. apply (wrap_range 32). lia.
  - apply consumes_ret. unfold HARDENED_INDEX in *. lia.
Qed.

Definition suffix_ok (limit : Z) (p : Z * Z) : Prop := 0 <= p.1 < limit /\ 0 <= p.2 < limit.
Lemma fine_suffix input : consumes 1 input (parse_derivation_suffix input) (suffix_ok (2 ^ 32)).
Proof.
  unfold parse_derivation_suffix. apply (consumes_expect "/" 0). intros rest _.
  destruct (starts_with (lit "**") rest) eqn:E1; [|destruct (starts_with (lit "<") rest) eqn:E2; [|done]].
  - apply starts_with_length in E1. eapply consumes_le; [apply (consumes_str_from 2 0); [done|]|lia].
    intros rest' _. apply consumes_ret. by split.
  - apply starts_with_length in E2. eapply consumes_le; [apply (consumes_str_from 1 0); [done|]|lia].
    intros rest' _. eapply (consumes_bind 1 0); [apply fine_step| |lia]. intros r1 n1 _ H1.
    eapply consumes_le; [apply (consumes_expect ";" 0)|lia]. intros r2 _.
    eapply (consumes_bind 1 0); [apply fine_step| |lia]. intros r3 n2 _ H2.
    eapply consumes_le; [apply (consumes_expect ">/*" 0)|lia]. intros r4 _. apply consumes_ret. by split.
Qed.

Lemma fine_musig_loop fuel rest indices :
  (length rest < fuel)%nat -> Forall is_u32 indices -> NoDup indices ->
  consumes 1 rest (musig_loop fuel rest indices) (fun l => Forall is_u32 l /\ NoDup l).
Proof.
  revert rest indices; induction fuel as [|fuel IH]; intros rest indices Hf Hi Hn; [lia|].
  cbn [musig_loop]. apply (consumes_expect "@" 0). intros r1 H1. change (length (lit "@")) with 1%nat in H1.
  eapply (consumes_bind 1 0); [by apply fine_number| |lia]. intros r2 idx Hl Hx. cbv beta in Hx.
  apply consumes_guard. intros Hin%bool_decide_eq_false.
  assert (Forall is_u32 (indices ++ [idx])) as Hi'.
  { apply Forall_app; split; [done|]. apply Forall_singleton. unfold is_u, u32_max in *. lia. }
  assert (NoDup (indices ++ [idx])) as Hn'.
  { apply NoDup_app; split; [done|]. split; [|apply NoDup_singleton]. intros x Hx' ->%list_elem_of_singleton. done. }
  destruct (starts_with (lit ",") r2) eqn:E; [|by apply consumes_ret].
  apply starts_with_length in E. eapply consumes_le; [apply (consumes_str_from 1 0); [done|]|lia].
  intros r3 H3. eapply consumes_le; [apply IH; [lia|done..]|lia].
Qed.

Lemma fine_key input ctx : consumes 1 input (parse_key_expression input ctx) (key_ok (2 ^ 32) ctx).
Proof.
  unfold parse_key_expression. destruct (starts_with (lit "musig(") input) eqn:E.
  - apply starts_with_length in E. apply consumes_guard. intros Hm%negb_false_iff.
    unfold parse_musig_key_expression. eapply consumes_le; [apply (consumes_str_from 6 0); [done|]|lia].
    intros r1 _. eapply (consumes_bind 1 0); [apply fine_musig_loop; [lia|constructor..]| |lia].
    intros r2 l _ [Hl Hn]. apply consumes_guard. intros Hlen%Nat.ltb_ge.
    eapply consumes_le; [apply (consumes_expect ")" 0)|lia]. intros r3 _.
    eapply (consumes_bind 1 0); [apply fine_suffix| |lia]. intros r4 [n1 n2] _ Hs. apply consumes_ret.
    split; [|done]. cbn. destruct ctx; done.
  - apply (consumes_expect "@" 0). intros r1 _. eapply (consumes_bind 1 0); [by apply fine_number| |lia].
    intros r2 idx _ Hx. eapply (consumes_bind 1 0); [apply fine_suffix| |lia]. intros r3 [n1 n2] _ Hs.
    apply consumes_ret. split; [|done]. cbn in *. unfold is_u, u32_max in *. lia.
Qed.

(** ** Fragments *)

Class HexLaws `{HexCrate} := {
  from_hex_ok : forall n s b, from_hex n s = Some b -> hash_ok n b;
  from_hex_encode : forall b, bytes_ok b -> from_hex (length b) (hex_encode b) = Some b;
  length_hex_encode : forall b, length (hex_encode b) = (2 * length b)%nat;
  hex_encode_ascii : forall b, bytes_ok b -> ascii_ok (hex_encode b);
}.

(** A parser of a string that follows another in the input. *)
Lemma consumes_after {A} j k rest input (o : ParseResult A) P :
  (j + length input <= length rest)%nat -> (ascii_ok rest -> ascii_ok input) ->
  consumes k input o P -> consumes (j + k) rest o P.
Proof.
  intros Hj Ha. unfold consumes. destruct o as [[]| | |]; try done; [|tauto].
  intros (? & ? & ?). split; [lia|]. auto.
Qed.

(** The comma of a loop, then the loop's own treatment of what the element's parser says. *)
Lemma consumes_comma {A B} k rest (o : list Z -> ParseResult A) (h : list Z -> ParseResult B) (P : A -> Prop) Q :
  starts_with (lit ",") rest = true ->
  (forall input, consumes 1 input (o input) P) ->
  (forall input r a, o input = Ok (r, a) -> (length r < length rest)%nat -> P a -> consumes k r (h input) Q) ->
  (forall input e, o input = Err e -> consumes k rest (h input) Q) ->
  (forall input, o input = Panic -> h input = Panic) ->
  consumes k rest (input ← str_from 1 rest; h input) Q.
Proof.
  intros E%starts_with_length Ho Hf Hg Hp. change (length (lit ",")) with 1%nat in E.
  unfold str_from. destruct (is_char_boundary 1 rest) eqn:Hb; cbn -[consumes drop].
  2: { intros Hs. by rewrite ascii_boundary in Hb. }
  specialize (Ho (drop 1 rest)). pose proof (length_drop rest 1) as Hl.
  assert (ascii_ok rest -> ascii_ok (drop 1 rest)) as Ha by (intros; by apply Forall_drop).
  destruct (o (drop 1 rest)) as [[r a]|e| |] eqn:Eo; [|by eapply Hg|rewrite Hp by done; cbn -[drop] in *; tauto|done].
  destruct Ho as (Hr & Har & HP). eapply (consumes_le (0 + k)); [|lia].
  apply (consumes_after 0 k rest r); [lia|auto|]. eapply Hf; [done|lia|done].
Qed.

Lemma fine_keys_loop fuel ctx max rest keys :
  (length rest <= fuel)%nat -> Forall (key_ok (2 ^ 32) ctx) keys -> Z.of_nat (length keys) <= max ->
  consumes 0 rest (keys_loop fuel ctx max rest keys)
    (fun keys => Forall (key_ok (2 ^ 32) ctx) keys /\ Z.of_nat (length keys) <= max).
Proof.
  revert rest keys; induction fuel as [|fuel IH]; intros rest keys Hf Hk Hm; cbn [keys_loop].
  all: destruct (starts_with (lit ",") rest) eqn:E; [|by apply consumes_ret].
  { apply starts_with_length in E. cbn in E. lia. }
  apply consumes_guard. intros Hlt%Z.leb_gt.
  eapply (consumes_comma 0 rest (fun input => parse_key_expression input ctx)).
  - done.
  - intros input. apply fine_key.
  - intros input r kp -> Hr Hkp. apply IH; [lia|by apply Forall_app_2; [|apply Forall_singleton]|].
    rewrite length_app. cbn. lia.
  - intros input e ->. destruct e; try done; by apply consumes_ret.
  - by intros input ->.
Qed.

Lemma fine_threshold input name constructor ctx max :
  0 <= max ->
  (S (length (lit name)) <= length input)%nat ->
  consumes 1 input (parse_threshold_kp_fragment input name constructor ctx max)
    (fun d => exists k keys, d = constructor k keys /\ multi_ok (2 ^ 32) ctx max k keys).
Proof.
  intros Hmax Hl. unfold parse_threshold_kp_fragment.
  eapply consumes_le; [apply (consumes_str_from _ 0); [lia|]|lia]. intros r1 _.
  eapply (consumes_bind 1 0); [by apply fine_number| |lia]. intros r2 k _ Hk. cbv beta in Hk.
  eapply (consumes_bind 0 0); [by apply fine_keys_loop| |lia].
  intros r3 keys _ [Hkeys Hn]. apply consumes_guard. intros H2%Nat.ltb_ge. apply consumes_guard.
  intros [H0%Z.eqb_neq H1%Z.ltb_ge]%orb_false_elim.
  eapply consumes_le; [apply (consumes_expect ")" 0)|lia]. intros r4 _. apply consumes_ret.
  exists k, keys. split; [done|]. repeat split; try done; lia.
Qed.

Lemma fine_kp input name constructor ctx :
  (S (length (lit name)) <= length input)%nat ->
  consumes 1 input (parse_kp_fragment input name constructor ctx)
    (fun d => exists k, d = constructor k /\ key_ok (2 ^ 32) ctx k).
Proof.
  intros Hl. unfold parse_kp_fragment.
  eapply consumes_le; [apply (consumes_str_from _ 1); [lia|]|lia]. intros r1 H1.
  eapply consumes_le; [apply (consumes_str_from 1 0); [lia|]|lia]. intros r2 _.
  eapply (consumes_bind 1 0); [by apply fine_key| |lia]. intros r3 k _ Hk.
  eapply consumes_le; [apply (consumes_expect ")" 0)|lia]. intros r4 _. apply consumes_ret. eauto.
Qed.

Lemma fine_num input name max constructor :
  max <= u32_max -> (S (length (lit name)) <= length input)%nat ->
  consumes 1 input (parse_num_fragment input name max constructor)
    (fun d => exists n, d = constructor n /\ 0 <= n <= max).
Proof.
  intros Hm Hl. unfold parse_num_fragment.
  eapply consumes_le; [apply (consumes_str_from _ 1); [lia|]|lia]. intros r1 H1.
  eapply consumes_le; [apply (consumes_str_from 1 0); [lia|]|lia]. intros r2 _.
  eapply (consumes_bind 1 0); [by apply fine_number| |lia]. intros r3 n _ Hn.
  eapply consumes_le; [apply (consumes_expect ")" 0)|lia]. intros r4 _. apply consumes_ret. eauto.
Qed.

Lemma fine_hex `{HexLaws} n input name constructor :
  (S (length (lit name)) <= length input)%nat ->
  consumes 1 input (parse_hex_fragment n input name constructor)
    (fun d => exists h, d = constructor h /\ hash_ok n h).
Proof.
  intros Hl. unfold parse_hex_fragment.
  eapply consumes_le; [apply (consumes_str_from _ 0); [lia|]|lia]. intros r1 _.
  apply consumes_guard. intros Hlen%Nat.ltb_ge. apply consumes_str_to; [lia|].
  apply consumes_ok_or. intros h Hh%from_hex_ok.
  eapply consumes_le; [apply (consumes_str_from _ 0); [lia|]|lia]. intros r2 _.
  eapply consumes_le; [apply (consumes_expect ")" 0)|lia]. intros r3 _. apply consumes_ret. eauto.
Qed.

(** ** Descriptors *)

(** A template that the parser makes with [n] levels. *)
Abbreviation fits n ctx := (fun d => template_ok (2 ^ 32) ctx d /\ (height d <= n)%nat).

Section level.
Context `{HexLaws} (n : nat).
Context (pd : list Z -> ParseContext -> ParseResult DescriptorTemplate) (pt : list Z -> ParseResult TapTree).
Context (Hpd : forall input ctx, consumes 1 input (pd input ctx) (fits n ctx)).
Context (Hpt : forall input, consumes 1 input (pt input) (fun t => tree_ok (2 ^ 32) t /\ (tree_height t <= n)%nat)).

Lemma fine_subscripts m rest ctx :
  consumes m rest (subscripts_loop pd m rest ctx) (fun ds => length ds = m /\ Forall (fits n ctx) ds).
Proof.
  revert rest; induction m as [|m IH]; intros rest; cbn [subscripts_loop]; [by apply consumes_ret|].
  eapply (consumes_bind 1 m); [apply Hpd| |lia]. intros r1 d _ Hd. destruct m as [|m].
  - apply consumes_ret. split; [done|by apply Forall_singleton].
  - eapply consumes_le; [apply (consumes_expect "," (S m))|lia]. intros r2 _.
    eapply (consumes_bind (S m) 0); [apply IH| |lia]. intros r3 ds _ [Hl Hds]. apply consumes_ret.
    split; [cbn; lia|by constructor].
Qed.
Lemma fine_n_subscripts m input ctx :
  consumes m input (parse_n_subscripts pd m input ctx) (fun ds => length ds = m /\ Forall (fits n ctx) ds).
Proof.
  unfold parse_n_subscripts. eapply (consumes_bind m 0); [apply fine_subscripts| |lia]. intros r1 ds _ Hds.
  eapply consumes_le; [apply (consumes_expect ")" 0)|lia]. intros r2 _. by apply consumes_ret.
Qed.

Lemma fine_one skip input ctx ctx' constructor :
  (skip <= length input)%nat ->
  (forall x, fits n ctx x -> fits (S n) ctx' (constructor x)) ->
  consumes 1 input (one_script pd skip input ctx constructor) (fits (S n) ctx').
Proof.
  intros Hl Hc. unfold one_script. eapply consumes_le; [apply (consumes_str_from _ 1); [lia|]|lia]. intros r1 _.
  eapply (consumes_bind 1 0); [apply fine_n_subscripts| |lia]. intros r2 ds _ [Hds HP].
  destruct ds as [|x [|]]; try done. rewrite Forall_singleton in HP. apply consumes_ret. by apply Hc.
Qed.
Lemma fine_two skip input ctx constructor :
  (skip <= length input)%nat ->
  (forall x y, fits n ctx x -> fits n ctx y -> fits (S n) ctx (constructor x y)) ->
  consumes 1 input (two_scripts pd skip input ctx constructor) (fits (S n) ctx).
Proof.
  intros Hl Hc. unfold two_scripts. eapply consumes_le; [apply (consumes_str_from _ 1); [lia|]|lia]. intros r1 _.
  eapply (consumes_bind 1 0); [eapply consumes_le; [apply (fine_n_subscripts 2)|lia]| |lia].
  intros r2 ds _ [Hds HP]. destruct ds as [|x [|y [|]]]; try done.
  rewrite !Forall_cons in HP. destruct HP as (? & ? & _). apply consumes_ret. by apply Hc.
Qed.
Lemma fine_three skip input ctx constructor :
  (skip <= length input)%nat ->
  (forall x y z, fits n ctx x -> fits n ctx y -> fits n ctx z -> fits (S n) ctx (constructor x y z)) ->
  consumes 1 input (three_scripts pd skip input ctx constructor) (fits (S n) ctx).
Proof.
  intros Hl Hc. unfold three_scripts. eapply consumes_le; [apply (consumes_str_from _ 1); [lia|]|lia].
  intros r1 _. eapply (consumes_bind 1 0); [eapply consumes_le; [apply (fine_n_subscripts 3)|lia]| |lia].
  intros r2 ds _ [Hds HP]. destruct ds as [|x [|y [|z [|]]]]; try done.
  rewrite !Forall_cons in HP. destruct HP as (? & ? & ? & _). apply consumes_ret. by apply Hc.
Qed.

Lemma fine_thresh_loop fuel ctx rest scripts :
  (length rest <= fuel)%nat -> Forall (fits n ctx) scripts ->
  consumes 0 rest (thresh_loop pd fuel ctx rest scripts) (Forall (fits n ctx)).
Proof.
  revert rest scripts; induction fuel as [|fuel IH]; intros rest scripts Hf Hs; cbn [thresh_loop].
  all: destruct (starts_with (lit ",") rest) eqn:E; [|by apply consumes_ret].
  { apply starts_with_length in E. cbn in E. lia. }
  eapply (consumes_comma 0 rest (fun input => pd input ctx)); [done|auto|..].
  - intros input r d -> Hr Hd. apply IH; [lia|]. by apply Forall_app_2; [|apply Forall_singleton].
  - intros input e ->. destruct e; try done; by apply consumes_ret.
  - by intros input ->.
Qed.
Lemma fine_thresh input ctx :
  (7 <= length input)%nat -> consumes 1 input (parse_thresh pd input ctx) (fits (S n) ctx).
Proof.
  intros Hl. unfold parse_thresh. eapply consumes_le; [apply (consumes_str_from _ 0); [lia|]|lia]. intros r1 _.
  eapply (consumes_bind 1 0); [by apply fine_number| |lia]. intros r2 k _ Hk. cbv beta in Hk.
  eapply consumes_le; [apply (consumes_expect "," 0)|lia]. intros r3 _.
  eapply (consumes_bind 1 0); [apply Hpd| |lia]. intros r4 d _ Hd.
  eapply (consumes_bind 0 0); [apply fine_thresh_loop; [done|by apply Forall_singleton]| |lia].
  intros r5 ds _ Hds. apply consumes_guard. intros Hz%Z.eqb_neq. apply consumes_guard. intros Hle%Z.ltb_ge.
  eapply consumes_le; [apply (consumes_expect ")" 0)|lia]. intros r6 _. apply consumes_ret.
  apply Forall_and in Hds as [Hok Hh]. cbn. rewrite all_of_Forall. repeat split; try done; try lia.
  - unfold u32_max in *. lia.
  - apply le_n_S, max_list_le. by apply Forall_map.
Qed.

Lemma fine_tr input : (3 <= length input)%nat -> consumes 1 input (parse_tr pt input) (fits (S n) TopLevel).
Proof.
  intros Hl. unfold parse_tr. eapply consumes_le; [apply (consumes_str_from _ 0); [lia|]|lia]. intros r1 _.
  eapply (consumes_bind 1 0); [apply fine_key| |lia]. intros r2 k _ Hk.
  eapply (consumes_bind 0 0 _ _ _ _
    (fun t => match t with None => True | Some t => tree_ok (2 ^ 32) t /\ (tree_height t <= n)%nat end)); [| |lia].
  { destruct (starts_with (lit ",") r2) eqn:E; [|by apply consumes_ret]. apply starts_with_length in E.
    eapply consumes_le; [apply (consumes_str_from 1 0); [done|]|lia]. intros r3 _.
    eapply (consumes_bind 1 0); [apply Hpt| |lia]. intros r4 t _ Ht. by apply consumes_ret. }
  intros r3 t _ Ht. eapply consumes_le; [apply (consumes_expect ")" 0)|lia]. intros r4 _. apply consumes_ret.
  destruct t as [t|]; cbn in *; [destruct Ht|]; (split; [by split|lia]).
Qed.
End level.

(** The keyword that a branch of [parse_inner_descriptor] has recognised. *)
Ltac lit_lengths :=
  repeat match goal with
  | H : context [length (lit ?k)] |- _ => let n := eval vm_compute in (length (lit k)) in change (length (lit k)) with n in H
  | |- context [length (lit ?k)] => let n := eval vm_compute in (length (lit k)) in change (length (lit k)) with n
  end.
Ltac keyword :=
  match goal with
  | |- context [if starts_with (lit ?k) ?i then _ else _] =>
      let E := fresh "E" in destruct (starts_with (lit k) i) eqn:E; [apply starts_with_length in E|clear E]
  end.
Ltac fits_shape :=
  intros; cbv beta in *;
  repeat match goal with
  | H : exists _, _ |- _ => destruct H
  | H : _ /\ _ |- _ => destruct H
  end; subst; cbn; repeat match goal with |- _ /\ _ => split end; try done; try lia; auto.

Lemma fine_inner `{HexLaws} n pd pt :
  (forall input ctx, consumes 1 input (pd input ctx) (fits n ctx)) ->
  (forall input, consumes 1 input (pt input) (fun t => tree_ok (2 ^ 32) t /\ (tree_height t <= n)%nat)) ->
  forall input ctx, consumes 1 input (parse_inner_descriptor pd pt input ctx) (fits (S n) ctx).
Proof.
  intros Hpd Hpt input ctx. unfold parse_inner_descriptor.
  repeat (keyword; [lit_lengths|]).
  all: repeat (apply consumes_guard; intros ?%negb_false_iff).
  all: try solve [eapply consumes_mono;
    [first [apply fine_threshold|apply fine_kp|apply fine_num|apply fine_hex]; lit_lengths; first [done|lia|by vm_compute]|fits_shape]].
  all: try solve [eapply (fine_one n pd Hpd); [lia|fits_shape]].
  all: try solve [eapply (fine_two n pd Hpd); [lia|fits_shape]].
  all: try solve [eapply (fine_three n pd Hpd); [lia|fits_shape]].
  all: try solve [eapply fine_thresh; done || lia].
  all: try solve [eapply consumes_le; [apply (consumes_str_from 1 0); [lia|]|lia]; intros; apply consumes_ret; fits_shape].
  all: destruct ctx; try done; first [by apply (fine_tr n pt)|eapply (fine_one n pd Hpd); (lia || fits_shape)].
Qed.

Lemma wrapper_of_ok c w limit ctx d :
  wrapper_of c = Some w -> template_ok limit ctx (w d) = template_ok limit ctx d /\ height (w d) = height d /\
  is_wrapper (w d) = true.
Proof. unfold wrapper_of. intros Hw. repeat case_match; by simplify_eq. Qed.

Lemma apply_wrappers_ok n ctx ws d :
  fits n ctx d -> match apply_wrappers ws d with Ok d' => fits n ctx d' | Err _ => True | _ => False end.
Proof.
  revert d; induction ws as [|c ws IH]; intros d Hd; cbn [apply_wrappers]; [done|].
  destruct (wrapper_of c) as [w|] eqn:E; cbn -[apply_wrappers]; [|done].
  destruct (wrapper_of_ok c w (2 ^ 32) ctx d E) as (Hok & Hh & _). apply IH. by rewrite Hok, Hh.
Qed.

Lemma consumes_split_wrappers {A} k input (f : list Z * list Z -> ParseResult A) P :
  (forall rest ws, consumes k rest (f (rest, ws)) P) ->
  consumes k input (x ← split_wrappers input; f x) P.
Proof.
  intros Hf. unfold split_wrappers. set (e := default _ _). destruct (_ && _) eqn:E; [|apply Hf].
  apply andb_prop in E as [_ Hc%bool_decide_eq_true]. apply lookup_lt_Some in Hc.
  unfold str_to. destruct (is_char_boundary e input) eqn:Hb; cbn -[consumes]; [|intros Hs; by rewrite ascii_boundary in Hb by (done || lia)].
  unfold str_from. destruct (is_char_boundary (e + 1) input) eqn:Hb1; cbn -[consumes drop];
    [|intros Hs; by rewrite ascii_boundary in Hb1 by (done || lia)].
  eapply (consumes_le (0 + k)); [|lia]. eapply consumes_after; [| |apply Hf].
  - rewrite length_drop. lia.
  - apply Forall_drop.
Qed.

Lemma fine_descriptor `{HexLaws} levels :
  (forall input ctx, consumes 1 input (parse_descriptor levels input ctx) (fits levels ctx)) /\
  (forall input, consumes 1 input (parse_tap_tree levels input)
     (fun t => tree_ok (2 ^ 32) t /\ (tree_height t <= levels)%nat)).
Proof.
  induction levels as [|n [Hpd Hpt]]; [done|]. split; intros input; [intros ctx|]; cbn [parse_descriptor parse_tap_tree].
  - apply consumes_split_wrappers. intros rest ws.
    eapply (consumes_bind 1 0); [by apply (fine_inner n)| |lia]. intros r d _ Hd. cbv beta in Hd.
    pose proof (apply_wrappers_ok (S n) ctx (rev ws) d Hd) as Hw.
    by destruct (apply_wrappers (rev ws) d).
  - destruct (starts_with (lit "{") input) eqn:E.
    + apply starts_with_length in E. eapply consumes_le; [apply (consumes_str_from 1 0); [done|]|lia]. intros r1 _.
      eapply (consumes_bind 1 0); [apply Hpt| |lia]. intros r2 l _ [Hl Hhl].
      eapply consumes_le; [apply (consumes_expect "," 0)|lia]. intros r3 _.
      eapply (consumes_bind 1 0); [apply Hpt| |lia]. intros r4 r _ [Hr Hhr].
      eapply consumes_le; [apply (consumes_expect "}" 0)|lia]. intros r5 _. apply consumes_ret.
      cbn. split; [done|lia].
    + eapply (consumes_bind 1 0); [apply Hpd| |lia]. intros r1 d _ [Hd Hh]. apply consumes_ret. cbn. split; [done|lia].
Qed.

Lemma parse_template_fine `{HexLaws} input :
  match parse_descriptor_template input with
  | Ok d => fits MAX_PARSE_DEPTH TopLevel d
  | Err _ => True
  | Panic => ~ ascii_ok input
  | Diverge => False
  end.
Proof.
  unfold parse_descriptor_template. generalize (proj1 (fine_descriptor MAX_PARSE_DEPTH) input TopLevel).
  generalize (parse_descriptor MAX_PARSE_DEPTH input TopLevel). generalize MAX_PARSE_DEPTH. intros m o Ho.
  unfold consumes in Ho. destruct o as [[rest d]| | |]; try done. destruct Ho as (_ & _ & Hd). by destruct rest.
Qed.
