(* ===== verification/Bip388Print.v ===== *)
(** * What is printed of a template is parsed to the template

    [print_parse]: a well-formed template whose derivation steps are not hardened is printed
    to a string that the parser reads as that template. Every template that the parser makes
    is well formed, so that a second reading of what was read once changes nothing. *)

From S2P Require Import Prelude Text Bip388 Bip388Spec.
From Stdlib Require Import Ascii.

(** ** Printed pieces, followed by the rest of the string *)

(** The next step of a parser. *)
Ltac mstep := cbn [mbind outcome_mbind outcome_bind guard_err ok_or negb].

Lemma expect_app c rest : ascii_ok (lit c ++ rest) -> expect c (lit c ++ rest) = Ok rest.
Proof. intros Ha. unfold expect. rewrite starts_with_app. cbn. by apply str_from_app. Qed.

Lemma number_decimal n max rest :
  0 <= n <= max -> max <= u32_max -> ascii_ok rest -> no_digit rest ->
  parse_number_up_to (decimal n ++ rest) max = Ok (rest, n).
Proof.
  intros Hn Hm Ha Hd. unfold u32_max in Hm. assert (is_u32 n) as Hu by (unfold is_u; lia).
  unfold parse_number_up_to.
  assert (ascii_ok (decimal n ++ rest)) as Hall by (apply Forall_app; split; [apply decimal_ascii; lia|done]).
  rewrite default_position.
  2: { eapply Forall_impl; [apply decimal_digits; lia|]. intros b Hb. cbv beta in *. by rewrite Hb. }
  2: { destruct rest as [|b s]; [done|]. cbn -[is_ascii_digit] in *. by rewrite Hd. }
  destruct (decimal_cons n Hu) as (b & s & E & Hb & Hz).
  replace (match decimal n ++ rest with [] => true | b :: _ => negb (is_ascii_digit b) end) with false
    by (rewrite E; cbn [app]; by rewrite (proj2 (is_ascii_digit_true b))).
  replace (match decimal n ++ rest with b :: c :: _ => (b =? 48) && is_ascii_digit c | _ => false end) with false.
  2: { rewrite E. cbn [app]. destruct (Z.eqb_spec b 48) as [Hb48|]; [|by destruct (s ++ rest)].
       rewrite (Hz Hb48). destruct rest as [|c rest]; [done|]. cbn [app no_digit] in *. by rewrite Hd. }
  mstep. rewrite str_to_app by done. mstep. rewrite parse_decimal by done. mstep.
  rewrite (proj2 (Z.ltb_ge _ _)) by lia. mstep. by rewrite str_from_app.
Qed.


(** [ascii_ok] of a printed text, from that of its pieces. *)
Create HintDb ascii.
Lemma ascii_app p s : ascii_ok p -> ascii_ok s -> ascii_ok (p ++ s).
Proof. by apply Forall_app_2. Qed.
#[export] Hint Resolve ascii_app decimal_ascii : ascii.
#[export] Hint Extern 1 (ascii_ok (lit _)) => solve_ascii : ascii.
#[export] Hint Extern 1 (0 <= _) => lia : ascii.
#[export] Hint Extern 1 (Forall _ []) => apply Forall_nil_2 : ascii.
Ltac ascii := eauto 20 with ascii.

Lemma step_decimal n rest :
  0 <= n < HARDENED_INDEX -> ascii_ok rest -> no_digit rest -> starts_with (lit "'") rest = false ->
  parse_derivation_step_number (decimal n ++ rest) = Ok (rest, n).
Proof.
  intros Hn Ha Hd Hq. unfold HARDENED_INDEX in Hn. unfold parse_derivation_step_number.
  rewrite number_decimal by (done || unfold HARDENED_INDEX, u32_max; lia). mstep. by rewrite Hq.
Qed.

Lemma display_suffix_ascii k : 0 <= num1 k -> 0 <= num2 k -> ascii_ok (display_suffix k).
Proof. intros. unfold display_suffix. destruct (_ && _); ascii. Qed.

Lemma suffix_display k rest :
  0 <= num1 k < HARDENED_INDEX -> 0 <= num2 k < HARDENED_INDEX -> ascii_ok rest ->
  parse_derivation_suffix (display_suffix k ++ rest) = Ok (rest, (num1 k, num2 k)).
Proof.
  intros H1 H2 Ha. unfold parse_derivation_suffix, display_suffix.
  destruct ((num1 k =? 0) && (num2 k =? 1)) eqn:E.
  - apply andb_prop in E as [->%Z.eqb_eq ->%Z.eqb_eq].
    change (lit "/**" ++ rest) with (lit "/" ++ lit "**" ++ rest). rewrite expect_app by ascii. mstep.
    rewrite starts_with_app. by rewrite (str_from_app (lit "**")) by ascii.
  - clear E. rewrite <- !app_assoc. change (lit "/<") with (lit "/" ++ lit "<"). rewrite <- !app_assoc.
    rewrite expect_app by ascii. mstep. set (s := decimal (num1 k) ++ _).
    change (starts_with (lit "**") (lit "<" ++ s)) with false. mstep. rewrite starts_with_app.
    rewrite (str_from_app (lit "<")) by ascii. mstep. unfold s.
    rewrite step_decimal by (done || ascii). mstep. rewrite expect_app by ascii. mstep.
    rewrite step_decimal by (done || ascii). mstep. by rewrite expect_app by ascii.
Qed.

Lemma indices_ascii first l : Forall is_u32 l -> ascii_ok (display_indices first l).
Proof.
  intros Hl. revert first. induction Hl as [|i l Hi Hl IH]; intros first; cbn [display_indices]; [by constructor|].
  destruct Hi. destruct first; ascii.
Qed.

Lemma length_indices first l : (length l <= length (display_indices first l))%nat.
Proof.
  revert first; induction l as [|i l IH]; intros first; cbn [display_indices length]; [lia|].
  rewrite !length_app. specialize (IH false). change (length (lit "@")) with 1%nat. lia.
Qed.

Lemma musig_loop_display fuel l acc rest :
  (length l <= fuel)%nat -> l <> [] -> Forall is_u32 l -> NoDup (acc ++ l) -> ascii_ok rest ->
  musig_loop fuel (display_indices true l ++ lit ")" ++ rest) acc = Ok (lit ")" ++ rest, acc ++ l).
Proof.
  revert l acc; induction fuel as [|fuel IH]; intros [|i l] acc Hf Hl Hu Hn Ha; try done; cbn in Hf; [lia|].
  apply Forall_cons in Hu as [Hi Hu]. pose proof (indices_ascii false l Hu) as Hal.
  destruct Hi as [Hi0 Hi1]. cbn [display_indices musig_loop app]. rewrite <- !app_assoc.
  rewrite expect_app by ascii. mstep. rewrite number_decimal; [|unfold u32_max; lia|done|ascii|by destruct l].
  mstep. rewrite bool_decide_eq_false_2.
  2: { intros Hin. apply NoDup_app in Hn as (_ & Hd & _). by apply (Hd i Hin), list_elem_of_here. }
  mstep. destruct l as [|j l].
  - cbn [display_indices app]. change (starts_with (lit ",") (lit ")" ++ rest)) with false.
    done.
  - change (display_indices false (j :: l)) with (lit "," ++ display_indices true (j :: l)) in *.
    rewrite <- app_assoc, starts_with_app. apply Forall_app in Hal as [_ Hal].
    rewrite (str_from_app (lit ",")) by ascii. mstep. change (i :: j :: l) with ([i] ++ j :: l) in *.
    rewrite (app_assoc acc [i]) in Hn |- *. apply IH; try done. cbn in *. lia.
Qed.

Lemma key_display_ascii limit ctx k : key_ok limit ctx k -> ascii_ok (display_key k).
Proof.
  intros (Hk & [H1 _] & [H2 _]). pose proof (display_suffix_ascii k H1 H2) as Hs. unfold display_key.
  destruct (key_type k) as [i|l]; [destruct Hk; ascii|].
  destruct Hk as (_ & Hu & _). pose proof (indices_ascii true l Hu). ascii.
Qed.

Lemma key_display ctx k rest :
  key_ok HARDENED_INDEX ctx k -> ascii_ok rest ->
  parse_key_expression (display_key k ++ rest) ctx = Ok (rest, k).
Proof.
  intros (Hk & H1 & H2) Ha. pose proof (display_suffix_ascii k (proj1 H1) (proj1 H2)) as Hs.
  unfold parse_key_expression, display_key.
  destruct k as [[i|l] n1 n2]; cbn [key_type num1 num2] in *; set (k := {| key_type := _ |}) in *.
  - destruct Hk as [Hi0 Hi1]. rewrite <- !app_assoc. set (s := decimal i ++ _).
    change (starts_with (lit "musig(") (lit "@" ++ s)) with false. cbv iota. unfold s.
    rewrite expect_app by ascii. mstep. rewrite number_decimal; [|unfold u32_max; lia|done|ascii|].
    2: { unfold display_suffix. by destruct (_ && _). }
    mstep. by rewrite (suffix_display k) by done.
  - destruct Hk as (-> & Hu & Hn & Hl). rewrite <- !app_assoc. rewrite starts_with_app. mstep.
    unfold parse_musig_key_expression. pose proof (indices_ascii true l Hu) as Hi.
    rewrite (str_from_app (lit "musig(")) by ascii. mstep. rewrite musig_loop_display; [|..|ascii]; try done.
    2: { rewrite length_app. pose proof (length_indices true l). lia. }
    2: { by destruct l; [cbn in Hl; lia|]. }
    mstep. rewrite (proj2 (Nat.ltb_ge _ _)) by done. mstep. rewrite expect_app by ascii. mstep.
    by rewrite (suffix_display k) by done.
Qed.

(** ** Induction on templates *)

Fixpoint leaves (t : TapTree) : list DescriptorTemplate :=
  match t with Script d => [d] | Branch l r => leaves l ++ leaves r end.
Definition children (d : DescriptorTemplate) : list DescriptorTemplate :=
  match d with
  | Sh x | Wsh x | W_a x | W_s x | W_c x | W_t x | W_d x | W_v x | W_j x | W_n x | W_l x | W_u x => [x]
  | Andor x y z => [x; y; z]
  | And_v x y | And_b x y | And_n x y | Or_b x y | Or_c x y | Or_d x y | Or_i x y => [x; y]
  | Thresh _ ds => ds
  | Tr _ (Some t) => leaves t
  | _ => []
  end.

Lemma tree_ind (Q : TapTree -> Prop) :
  (forall d, Q (Script d)) -> (forall l r, Q l -> Q r -> Q (Branch l r)) -> forall t, Q t.
Proof. intros Hs Hb. fix IH 1. intros [d|l r]; [apply Hs|apply Hb; apply IH]. Qed.

Lemma tree_size_leaves t : tree_size t = list_sum (map nodes (leaves t)).
Proof.
  induction t as [d|l r Hl Hr] using tree_ind; cbn [tree_size leaves map list_sum]; [cbn; lia|].
  rewrite map_app, list_sum_app. lia.
Qed.
Lemma list_sum_le (l : list nat) n : n ∈ l -> (n <= list_sum l)%nat.
Proof. unfold list_sum. induction 1; cbn [foldr]; lia. Qed.

Lemma nodes_children d : (nodes d = S (list_sum (map nodes (children d))))%nat.
Proof.
  destruct d as [| | | | | |k [t|]| | | | | | | | | | | | | | | | | | | | | | | | | | | | | | | |].
  all: cbn [nodes children map]; rewrite ?tree_size_leaves; try done; unfold list_sum; cbn [foldr]; lia.
Qed.

Lemma template_ind' (P : DescriptorTemplate -> Prop) :
  (forall d, Forall P (children d) -> P d) -> forall d, P d.
Proof.
  intros H d. remember (nodes d) as n eqn:Hn. revert d Hn.
  induction (lt_wf n) as [n _ IH]. intros d ->. apply H, Forall_forall. intros x Hx. eapply IH; [|done].
  rewrite (nodes_children d). apply Nat.lt_succ_r, list_sum_le, list_elem_of_fmap_2, Hx.
Qed.

Lemma tree_ok_leaves limit t : tree_ok limit t <-> Forall (template_ok limit Taproot) (leaves t).
Proof.
  induction t as [d|l r Hl Hr] using tree_ind; cbn [tree_ok leaves]; [by rewrite Forall_singleton|].
  rewrite Forall_app. tauto.
Qed.

Lemma comma_each_ascii {A} (f : A -> list Z) l : Forall (fun x => ascii_ok (f x)) l -> ascii_ok (comma_each f l).
Proof. unfold comma_each. induction 1; cbn [map concat]; ascii. Qed.
#[export] Hint Resolve comma_each_ascii : ascii.

Lemma comma_each_cons {A} (f : A -> list Z) x l rest :
  comma_each f (x :: l) ++ rest = lit "," ++ f x ++ comma_each f l ++ rest.
Proof. unfold comma_each. cbn [map concat]. by rewrite <- !app_assoc. Qed.

(** ** Fragments *)

Lemma fragment_app name body rest :
  fragment name body ++ rest = lit name ++ lit "(" ++ body ++ lit ")" ++ rest.
Proof. unfold fragment. by rewrite <- !app_assoc. Qed.
Lemma fragment_ascii name body : ascii_ok (lit name) -> ascii_ok body -> ascii_ok (fragment name body).
Proof. unfold fragment. intros. ascii. Qed.
#[export] Hint Resolve fragment_ascii : ascii.

Section fragments.
Implicit Types (rest : list Z).

Lemma kp_display name constructor ctx k rest :
  ascii_ok (lit name) -> key_ok HARDENED_INDEX ctx k -> ascii_ok rest ->
  parse_kp_fragment (fragment name (display_key k) ++ rest) name constructor ctx = Ok (rest, constructor k).
Proof.
  intros Hname Hk Ha. pose proof (key_display_ascii _ _ _ Hk) as Hd. rewrite fragment_app. unfold parse_kp_fragment.
  rewrite str_from_app by ascii. mstep. rewrite (str_from_app (lit "(")) by ascii. mstep.
  rewrite (key_display ctx) by (done || ascii). mstep. by rewrite expect_app by ascii.
Qed.

Lemma num_display name max constructor n rest :
  ascii_ok (lit name) -> 0 <= n <= max -> max <= u32_max -> ascii_ok rest ->
  parse_num_fragment (fragment name (decimal n) ++ rest) name max constructor = Ok (rest, constructor n).
Proof.
  intros Hname Hn Hm Ha. rewrite fragment_app. unfold parse_num_fragment.
  rewrite str_from_app by ascii. mstep. rewrite (str_from_app (lit "(")) by ascii. mstep.
  rewrite number_decimal by (done || ascii). mstep. by rewrite expect_app by ascii.
Qed.

Lemma hex_display `{HexLaws} n name constructor h rest :
  ascii_ok (lit name) -> hash_ok n h -> ascii_ok rest ->
  parse_hex_fragment n (fragment name (hex_encode h) ++ rest) name constructor = Ok (rest, constructor h).
Proof.
  intros Hname [Hn Hh] Ha. pose proof (hex_encode_ascii h Hh) as He. rewrite fragment_app. unfold parse_hex_fragment.
  rewrite (str_from_app2 (lit name) (lit "(")) by ascii. mstep.
  rewrite (proj2 (Nat.ltb_ge _ _)) by (rewrite length_app, length_hex_encode; lia). mstep.
  rewrite <- Hn, <- (length_hex_encode h), str_to_app by ascii. mstep. rewrite from_hex_encode by done. mstep.
  rewrite str_from_app by ascii. mstep. by rewrite expect_app by ascii.
Qed.

Lemma keys_loop_display fuel ctx max keys acc rest :
  (length keys <= fuel)%nat -> Forall (key_ok HARDENED_INDEX ctx) keys ->
  Z.of_nat (length acc) + Z.of_nat (length keys) <= max -> ascii_ok rest ->
  keys_loop fuel ctx max (comma_each display_key keys ++ lit ")" ++ rest) acc = Ok (lit ")" ++ rest, acc ++ keys).
Proof.
  intros Hf Hk Hm Ha. revert fuel acc Hf Hm. induction Hk as [|k keys Hk Hkeys IH]; intros fuel acc Hf Hm.
  { rewrite app_nil_r. by destruct fuel. }
  destruct fuel as [|fuel]; cbn in Hf; [lia|]. rewrite comma_each_cons. cbn [length] in Hm.
  pose proof (key_display_ascii _ _ _ Hk) as Hd.
  assert (ascii_ok (comma_each display_key keys)) as Hds.
  { apply comma_each_ascii. eapply Forall_impl; [exact Hkeys|]. intros. by eapply key_display_ascii. }
  cbn [keys_loop]. rewrite starts_with_app, (proj2 (Z.leb_gt _ _)) by lia. mstep.
  rewrite (str_from_app (lit ",")) by ascii. mstep. rewrite (key_display ctx) by (done || ascii).
  rewrite IH by (lia || (rewrite length_app; cbn; lia)). by rewrite <- app_assoc.
Qed.

Lemma length_comma_each {A} (f : A -> list Z) l : (length l <= length (comma_each f l))%nat.
Proof.
  unfold comma_each. induction l as [|x l IH]; cbn [map concat length]; [lia|]. rewrite !length_app.
  change (length (lit ",")) with 1%nat. lia.
Qed.

Lemma comma_each_no_digit {A} (f : A -> list Z) l rest : no_digit (comma_each f l ++ lit ")" ++ rest).
Proof. by destruct l. Qed.

Lemma threshold_display name constructor ctx max k keys rest :
  ascii_ok (lit name) -> multi_ok HARDENED_INDEX ctx max k keys -> max <= MAX_KEYS_MULTI_A -> ascii_ok rest ->
  parse_threshold_kp_fragment (fragment name (decimal k ++ comma_each display_key keys) ++ rest)
    name constructor ctx max = Ok (rest, constructor k keys).
Proof.
  intros Hname (Hkeys & H2 & Hmax & Hk) Hm Ha. unfold MAX_KEYS_MULTI_A in Hm.
  assert (ascii_ok (comma_each display_key keys)) as Hds.
  { apply comma_each_ascii. eapply Forall_impl; [exact Hkeys|]. intros. by eapply key_display_ascii. }
  rewrite fragment_app, <- !app_assoc. unfold parse_threshold_kp_fragment.
  rewrite (str_from_app2 (lit name) (lit "(")) by ascii. mstep.
  rewrite number_decimal; [|unfold u32_max; lia|done|ascii|apply comma_each_no_digit]. mstep.
  rewrite keys_loop_display; [|rewrite length_app; pose proof (length_comma_each display_key keys); lia|done|cbn; lia|done].
  mstep. cbn [app]. rewrite (proj2 (Nat.ltb_ge _ _)), (proj2 (Z.eqb_neq _ _)), (proj2 (Z.ltb_ge _ _)) by lia. mstep.
  cbn [orb]. mstep. by rewrite expect_app by ascii.
Qed.
End fragments.

Lemma tree_ascii `{HexCrate} limit t :
  Forall (fun d => forall ctx, template_ok limit ctx d -> ascii_ok (display d)) (leaves t) ->
  Forall (template_ok limit Taproot) (leaves t) -> ascii_ok (display_tree t).
Proof.
  induction t as [d|l r Hl Hr] using tree_ind; cbn [display_tree leaves]; rewrite ?Forall_app, ?Forall_singleton.
  - eauto.
  - intros [] []. ascii.
Qed.

Lemma display_ascii `{HexLaws} limit d ctx : template_ok limit ctx d -> ascii_ok (display d).
Proof.
  revert ctx. induction d as [d IH] using template_ind'. intros ctx Hok.
  assert (forall k ctx', key_ok limit ctx' k -> ascii_ok (display_key k)) as Hkey by (intros; by eapply key_display_ascii).
  assert (forall max k keys, multi_ok limit ctx max k keys -> ascii_ok (decimal k ++ comma_each display_key keys)) as Hmulti.
  { intros max k keys (Hkeys & _ & _ & Hk). apply ascii_app; [ascii|]. apply comma_each_ascii.
    eapply Forall_impl; [exact Hkeys|]. eauto. }
  assert (forall n h, hash_ok n h -> ascii_ok (hex_encode h)) as Hhash by (intros n h [_ Hh]; by apply hex_encode_ascii).
  destruct d; cbn [template_ok display children] in *; rewrite ?Forall_cons in IH;
    repeat match goal with H : _ /\ _ |- _ => destruct H end; try solve [ascii].
  all: try solve [apply ascii_app; [ascii|]; apply ascii_app; [by destruct (is_wrapper d); ascii|eauto]].
  - destruct Hok as [[_ Hok]|[_ Hok]]; ascii.
  - destruct tree as [t|]; [|ascii].
    match goal with Ht : tree_ok _ _ |- _ => rewrite tree_ok_leaves in Ht end.
    enough (ascii_ok (display_tree t)) by ascii. by eapply tree_ascii.
  - apply fragment_ascii; [ascii|]. apply ascii_app; [ascii|]. apply comma_each_ascii, Forall_forall. intros x Hx.
    match goal with Hall : all_of _ _ |- _ => rewrite all_of_Forall, Forall_forall in Hall end.
    rewrite Forall_forall in IH. eauto.
Qed.

Lemma display_tree_ascii `{HexLaws} limit t : tree_ok limit t -> ascii_ok (display_tree t).
Proof.
  intros Ht%tree_ok_leaves. eapply tree_ascii; [|exact Ht]. apply Forall_forall. intros d _ ctx. apply display_ascii.
Qed.

(** ** Descriptors *)

Definition printable (n : nat) (ctx : ParseContext) (d : DescriptorTemplate) : Prop :=
  template_ok HARDENED_INDEX ctx d /\ (height d <= n)%nat.

Section level.
Context `{HexLaws} (n : nat).
Context (pd : list Z -> ParseContext -> ParseResult DescriptorTemplate) (pt : list Z -> ParseResult TapTree).
Context (Hpd : forall d ctx rest, printable n ctx d -> ascii_ok rest -> pd (display d ++ rest) ctx = Ok (rest, d)).
Context (Hpt : forall t rest, tree_ok HARDENED_INDEX t -> (tree_height t <= n)%nat -> ascii_ok rest ->
  pt (display_tree t ++ rest) = Ok (rest, t)).
Hint Extern 2 (ascii_ok (display ?d)) => (match goal with Hd : template_ok _ _ d |- _ => apply (display_ascii _ _ _ Hd) end) : ascii.

Lemma one_display skip name constructor d ctx rest :
  skip = S (length (lit name)) -> ascii_ok (lit name) -> printable n ctx d -> ascii_ok rest ->
  one_script pd skip (fragment name (display d) ++ rest) ctx constructor = Ok (rest, constructor d).
Proof.
  intros -> Hname [Hd Hh] Ha. rewrite fragment_app. unfold one_script, parse_n_subscripts. cbn [subscripts_loop].
  rewrite <- Nat.add_1_r, (str_from_app2 (lit name) (lit "(")) by ascii. mstep. rewrite Hpd by (done || ascii). mstep.
  by rewrite expect_app by ascii.
Qed.

Lemma two_display skip name constructor x y ctx rest :
  skip = S (length (lit name)) -> ascii_ok (lit name) -> printable n ctx x -> printable n ctx y -> ascii_ok rest ->
  two_scripts pd skip (fragment name (display x ++ lit "," ++ display y) ++ rest) ctx constructor =
    Ok (rest, constructor x y).
Proof.
  intros -> Hname [Hx Hhx] [Hy Hhy] Ha. rewrite fragment_app, <- !app_assoc.
  unfold two_scripts, parse_n_subscripts. cbn [subscripts_loop].
  rewrite <- Nat.add_1_r, (str_from_app2 (lit name) (lit "(")) by ascii. mstep. rewrite Hpd by (done || ascii). mstep.
  rewrite expect_app by ascii. mstep. rewrite Hpd by (done || ascii). mstep. by rewrite expect_app by ascii.
Qed.

Lemma three_display skip name constructor x y z ctx rest :
  skip = S (length (lit name)) -> ascii_ok (lit name) -> printable n ctx x -> printable n ctx y -> printable n ctx z -> ascii_ok rest ->
  three_scripts pd skip (fragment name (display x ++ lit "," ++ display y ++ lit "," ++ display z) ++ rest)
    ctx constructor = Ok (rest, constructor x y z).
Proof.
  intros -> Hname [Hx Hhx] [Hy Hhy] [Hz Hhz] Ha. rewrite fragment_app, <- !app_assoc.
  unfold three_scripts, parse_n_subscripts. cbn [subscripts_loop].
  rewrite <- Nat.add_1_r, (str_from_app2 (lit name) (lit "(")) by ascii. mstep. rewrite Hpd by (done || ascii). mstep.
  rewrite expect_app by ascii. mstep. rewrite Hpd by (done || ascii). mstep.
  rewrite expect_app by ascii. mstep. rewrite Hpd by (done || ascii). mstep. by rewrite expect_app by ascii.
Qed.

Lemma thresh_loop_display fuel ctx ds acc rest :
  (length ds <= fuel)%nat -> Forall (fun d => printable n ctx d) ds -> ascii_ok rest ->
  thresh_loop pd fuel ctx (comma_each display ds ++ lit ")" ++ rest) acc = Ok (lit ")" ++ rest, acc ++ ds).
Proof.
  intros Hf Hds Ha. revert fuel acc Hf. induction Hds as [|d ds [Hd Hh] Hds IH]; intros fuel acc Hf.
  { rewrite app_nil_r. by destruct fuel. }
  destruct fuel as [|fuel]; cbn in Hf; [lia|]. rewrite comma_each_cons.
  assert (ascii_ok (comma_each display ds)) as Hall.
  { apply comma_each_ascii. eapply Forall_impl; [exact Hds|]. intros x [Hx _]. ascii. }
  cbn [thresh_loop]. rewrite starts_with_app, (str_from_app (lit ",")) by ascii. mstep.
  rewrite Hpd by (done || ascii). rewrite IH by lia. by rewrite <- app_assoc.
Qed.

Lemma thresh_display k ds ctx rest :
  is_u32 k -> 1 <= k <= Z.of_nat (length ds) -> Forall (fun d => printable n ctx d) ds -> ascii_ok rest ->
  parse_thresh pd (fragment "thresh" (decimal k ++ comma_each display ds) ++ rest) ctx = Ok (rest, Thresh k ds).
Proof.
  intros Hu Hk Hds Ha. destruct ds as [|d ds]; [cbn in Hk; lia|]. destruct Hu.
  apply Forall_cons in Hds as [[Hd Hh] Hds].
  assert (ascii_ok (comma_each display ds)) as Hall.
  { apply comma_each_ascii. eapply Forall_impl; [exact Hds|]. intros x [Hx _]. ascii. }
  rewrite fragment_app, <- !app_assoc, comma_each_cons. unfold parse_thresh.
  rewrite (str_from_app2 (lit "thresh") (lit "(")) by ascii. mstep.
  rewrite number_decimal; [|unfold u32_max; lia|done|ascii|done]. mstep.
  rewrite expect_app by ascii. mstep. rewrite Hpd by (done || ascii). mstep.
  rewrite thresh_loop_display; [|rewrite length_app; pose proof (length_comma_each display ds); lia|done..].
  mstep. cbn [app]. rewrite (proj2 (Z.eqb_neq _ _)), (proj2 (Z.ltb_ge _ _)) by lia. mstep.
  by rewrite expect_app by ascii.
Qed.

Lemma tr_display k tree rest :
  key_ok HARDENED_INDEX Taproot k ->
  match tree with None => True | Some t => tree_ok HARDENED_INDEX t /\ (tree_height t <= n)%nat end ->
  ascii_ok rest ->
  parse_tr pt (fragment "tr" (display_key k ++ match tree with None => [] | Some t => lit "," ++ display_tree t end) ++ rest)
    = Ok (rest, Tr k tree).
Proof.
  intros Hk Ht Ha. pose proof (key_display_ascii _ _ _ Hk) as Hd. rewrite fragment_app, <- !app_assoc. unfold parse_tr.
  destruct tree as [t|].
  - destruct Ht as [Ht Hh]. assert (ascii_ok (display_tree t)) as Hat by by apply display_tree_ascii in Ht.
    rewrite <- app_assoc. rewrite (str_from_app2 (lit "tr") (lit "(")) by ascii. mstep.
    rewrite (key_display Taproot) by (done || ascii). mstep. rewrite starts_with_app, (str_from_app (lit ",")) by ascii.
    mstep. rewrite Hpt by (done || ascii). mstep. by rewrite expect_app by ascii.
  - rewrite (str_from_app2 (lit "tr") (lit "(")) by ascii. mstep. rewrite (key_display Taproot) by (done || ascii). mstep.
    rewrite app_nil_l. change (starts_with (lit ",") (lit ")" ++ rest)) with false. mstep.
    by rewrite expect_app by ascii.
Qed.

Ltac recognise L := eapply eq_trans; [|eapply L]; [reflexivity|..].
Lemma inner_display ctx d rest :
  is_wrapper d = false -> template_ok HARDENED_INDEX ctx d -> (height d <= S n)%nat -> ascii_ok rest ->
  parse_inner_descriptor pd pt (display d ++ rest) ctx = Ok (rest, d).
Proof.
  intros Hw Hok Hh Ha. destruct d; try done; cbn [template_ok height] in Hok, Hh;
    repeat match goal with H : _ /\ _ |- _ => destruct H | H : _ \/ _ |- _ => destruct H end; subst.
  all: cbn [display].
  all: try first [recognise kp_display|recognise num_display|recognise hex_display|recognise threshold_display
    |recognise thresh_display|recognise one_display|recognise two_display|recognise three_display].
  all: try solve [solve_ascii|done|split; [done|lia]].
  - destruct ctx; try done; (recognise kp_display; [solve_ascii|done..]).
  - assert (match tree with Some t => tree_ok HARDENED_INDEX t /\ (tree_height t <= n)%nat | None => True end) as Ht.
    { destruct tree; [|done]. split; [done|lia]. }
    eapply eq_trans; [|by apply (tr_display k tree)]. destruct tree; [reflexivity|]. by rewrite app_nil_r.
  - transitivity (rest ← str_from (E:=ParseError) 1 (lit "0" ++ rest); Ok (rest, Zero)); [done|].
    by rewrite (str_from_app (lit "0")) by ascii.
  - transitivity (rest ← str_from (E:=ParseError) 1 (lit "1" ++ rest); Ok (rest, One)); [done|].
    by rewrite (str_from_app (lit "1")) by ascii.
  - match goal with Hall : all_of _ _ |- _ => rewrite all_of_Forall in Hall end. apply Forall_and; split; [done|].
    cbn in Hh. apply le_S_n, max_list_le in Hh. by apply Forall_map in Hh.
Qed.
End level.
