(* ===== verification/Bip388RoundTrip.v ===== *)
(** * Templates round-trip

    The wrappers in front of a fragment, and the theorem: what is printed of a template is
    parsed to it. [hex_codec] is an implementation of the [hex] crate that keeps its laws. *)

From S2P Require Import Prelude Text Bip388 Bip388Spec Bip388Print.
From Stdlib Require Import Ascii.

(** ** Wrappers *)

Definition is_alphabetic_all (ws : list Z) : Prop := Forall (fun b => is_ascii_alphabetic b = true) ws.

Record chain `{HexCrate} (d : DescriptorTemplate) (ws : list Z) (core : DescriptorTemplate) : Prop := {
  chain_core : is_wrapper core = false;
  chain_apply : apply_wrappers (rev ws) core = Ok d;
  chain_display : display d = (if is_wrapper d then ws ++ lit ":" else []) ++ display core;
  chain_letters : is_alphabetic_all ws;
  chain_nil : is_wrapper d = true -> ws <> [];
  chain_nil' : is_wrapper d = false -> ws = [];
  chain_ok : forall limit ctx, template_ok limit ctx d -> template_ok limit ctx core;
  chain_height : height core = height d;
}.

Lemma apply_wrappers_app ws ws' d :
  apply_wrappers (ws ++ ws') d = (d ← apply_wrappers ws d; apply_wrappers ws' d).
Proof. revert d; induction ws as [|c ws IH]; intros d; cbn [app apply_wrappers]; [done|]. destruct (wrapper_of c); cbn; [apply IH|done]. Qed.

Lemma wrapper_letter c w : wrapper_of c = Some w -> is_ascii_alphabetic c = true.
Proof.
  unfold wrapper_of. intros Hw. repeat case_match; simplify_eq.
  all: try match goal with H : (_ =? _) = true |- _ => apply Z.eqb_eq in H as -> end; done.
Qed.

Lemma chain_wrap `{HexCrate} c w x ws core :
  wrapper_of c = Some w ->
  display (w x) = [c] ++ (if is_wrapper x then [] else lit ":") ++ display x ->
  chain x ws core -> chain (w x) (c :: ws) core.
Proof.
  intros Hw Hd [H1 H2 H3 H4 H5 H5' H6 H7]. pose proof (wrapper_of_ok c w) as Hok.
  assert (is_wrapper (w x) = true) as Hwx by apply (Hok 0 TopLevel x Hw).
  split; try done.
  - cbn [rev]. rewrite apply_wrappers_app, H2. cbn. by rewrite Hw.
  - rewrite Hd, Hwx, H3. destruct (is_wrapper x); cbn [app]; [done|]. by rewrite H5'.
  - constructor; [by eapply wrapper_letter|done].
  - by rewrite Hwx.
  - intros limit ctx. destruct (Hok limit ctx x Hw) as (-> & _). apply H6.
  - rewrite H7. symmetry. apply (Hok 0 TopLevel x Hw).
Qed.

Lemma chain_exists `{HexCrate} d : exists ws core, chain d ws core.
Proof.
  induction d as [d IH] using template_ind'. destruct (is_wrapper d) eqn:Hd.
  2: { exists [], d. split; try done; [by rewrite Hd|constructor|by rewrite Hd]. }
  destruct d; try done; cbn [children] in IH; rewrite Forall_singleton in IH; destruct IH as (ws & core & Hc);
    eexists _, core; (eapply chain_wrap; [|reflexivity|exact Hc]; reflexivity).
Qed.

Lemma split_wrappers_letters ws rest :
  is_alphabetic_all ws -> ws <> [] -> ascii_ok ws -> ascii_ok rest ->
  split_wrappers (ws ++ lit ":" ++ rest) = Ok (rest, ws).
Proof.
  intros Hl Hn Hw Ha. unfold split_wrappers. rewrite default_position; [|..|done].
  2: { eapply Forall_impl; [exact Hl|]. intros b Hb. cbv beta in *. by rewrite Hb. }
  rewrite (proj2 (Nat.ltb_lt _ _)) by (destruct ws; [done|cbn; lia]).
  rewrite bool_decide_eq_true_2 by by apply (list_lookup_middle ws rest (ch ":")).
  cbn [andb]. rewrite str_to_app by ascii. mstep. change 1%nat with (length (lit ":")).
  by rewrite str_from_app2 by ascii.
Qed.

Lemma split_wrappers_none `{HexCrate} core rest :
  is_wrapper core = false -> split_wrappers (display core ++ rest) = Ok (display core ++ rest, []).
Proof. intros Hc. destruct core as [| | | | | |k [t|]| | | | | | | | | | | | | | | | | | | | | | | | | | | | | | | |]; try done; reflexivity. Qed.

(** ** Descriptors *)

Lemma height_pos d : (1 <= height d)%nat.
Proof. induction d as [d IH] using template_ind'. destruct d as [| | | | | |k [t|]| | | | | | | | | | | | | | | | | | | | | | | | | | | | | | | |]; cbn [height children] in *; rewrite ?Forall_singleton in IH; lia. Qed.

Lemma display_no_brace `{HexCrate} d rest : starts_with (lit "{") (display d ++ rest) = false.
Proof. by destruct d as [| | | | | |k [t|]| | | | | | | | | | | | | | | | | | | | | | | | | | | | | | | |]. Qed.

Lemma descriptor_display `{HexLaws} levels :
  (forall d ctx rest, printable levels ctx d -> ascii_ok rest ->
     parse_descriptor levels (display d ++ rest) ctx = Ok (rest, d)) /\
  (forall t rest, tree_ok HARDENED_INDEX t -> (tree_height t <= levels)%nat -> ascii_ok rest ->
     parse_tap_tree levels (display_tree t ++ rest) = Ok (rest, t)).
Proof.
  induction levels as [|n [Hpd Hpt]].
  { split; [intros d ctx rest [_ Hh]; pose proof (height_pos d); lia|]. intros [] rest _ Hh; cbn in Hh; lia. }
  split.
  - intros d ctx rest [Hok Hh] Ha. destruct (chain_exists d) as (ws & core & [H1 H2 H3 H4 H5 H5' H6 H7]).
    apply H6 in Hok. rewrite <- H7 in Hh. pose proof (display_ascii _ _ _ Hok) as Hcore.
    cbn [parse_descriptor].
    assert (split_wrappers (display d ++ rest) = Ok (display core ++ rest, ws)) as ->.
    { rewrite H3. destruct (is_wrapper d).
      - rewrite <- !app_assoc. apply split_wrappers_letters; [done|by apply H5| |by apply ascii_app].
        eapply Forall_impl; [exact H4|]. intros b Hb. unfold is_ascii_alphabetic in Hb. lia.
      - rewrite (H5' eq_refl). by apply split_wrappers_none. }
    mstep. rewrite (inner_display n) by done. mstep. by rewrite H2.
  - intros [d|l r] rest Hok Hh Ha; cbn [tree_ok tree_height display_tree parse_tap_tree] in *.
    + rewrite display_no_brace. rewrite Hpd; [done|split; [done|lia]|done].
    + destruct Hok as [Hl Hr]. pose proof (display_tree_ascii _ _ Hl) as Hal. pose proof (display_tree_ascii _ _ Hr) as Har.
      rewrite <- !app_assoc. rewrite starts_with_app, (str_from_app (lit "{")) by ascii. mstep.
      rewrite Hpt by (done || lia || ascii). mstep. rewrite expect_app by ascii. mstep.
      rewrite Hpt by (done || lia || ascii). mstep. by rewrite expect_app by ascii.
Qed.

(** ** The placeholders of a template *)

Fixpoint keys_of (leaf : Leaf) (d : DescriptorTemplate) : list (KeyExpression * Leaf) :=
  match d with
  | Pkh k | Wpkh k | Pk k | Pk_k k | Pk_h k => [(k, leaf)]
  | Sortedmulti _ keys | Sortedmulti_a _ keys | Multi _ keys | Multi_a _ keys => map (fun k => (k, leaf)) keys
  | Tr k None => [(k, None)]
  | Tr k (Some t) => (k, None) :: keys_of_tree t
  | Sh x | Wsh x | W_a x | W_s x | W_c x | W_t x | W_d x | W_v x | W_j x | W_n x | W_l x | W_u x =>
      keys_of leaf x
  | Andor x y z => keys_of leaf x ++ keys_of leaf y ++ keys_of leaf z
  | And_v x y | And_b x y | And_n x y | Or_b x y | Or_c x y | Or_d x y | Or_i x y =>
      keys_of leaf x ++ keys_of leaf y
  | Thresh _ ds => concat (map (keys_of leaf) ds)
  | Zero | One | Older _ | After _ | Sha256 _ | Ripemd160 _ | Hash256 _ | Hash160 _ => []
  end
with keys_of_tree (t : TapTree) : list (KeyExpression * Leaf) :=
  match t with
  | Script d => keys_of (Some d) d
  | Branch l r => keys_of_tree l ++ keys_of_tree r
  end.

(** No derivation step of a key is hardened. *)
Definition soft_key (k : KeyExpression) : Prop := num1 k < HARDENED_INDEX /\ num2 k < HARDENED_INDEX.
Definition soft (d : DescriptorTemplate) : Prop := Forall (fun p => soft_key p.1) (keys_of None d).

Lemma key_ok_soft limit ctx k : key_ok limit ctx k -> soft_key k -> key_ok HARDENED_INDEX ctx k.
Proof. intros (Hk & H1 & H2) [Hs1 Hs2]. split; [done|]. split; lia. Qed.

Lemma keys_of_tree_leaves t : keys_of_tree t = concat (map (fun d => keys_of (Some d) d) (leaves t)).
Proof.
  induction t as [d|l r Hl Hr] using tree_ind; cbn [keys_of_tree leaves map concat]; [by rewrite app_nil_r|].
  by rewrite map_app, concat_app, Hl, Hr.
Qed.

Lemma Forall_pairs {A B} (P : A -> Prop) (b : B) l :
  Forall (fun p => P p.1) (map (fun a => (a, b)) l) -> Forall P l.
Proof. induction l as [|a l IH]; cbn [map]; [constructor|]. intros [? ?]%Forall_cons. constructor; auto. Qed.

Lemma Forall_concat_impl {A B} (f : A -> list B) (R : B -> Prop) (P Q : A -> Prop) l :
  Forall (fun a => P a -> Forall R (f a) -> Q a) l -> Forall P l -> Forall R (concat (map f l)) -> Forall Q l.
Proof.
  induction 1 as [|a l Ha Hl IH]; cbn [map concat]; [done|].
  rewrite Forall_app, !Forall_cons. intros [] []. auto.
Qed.

Lemma template_ok_soft limit d : forall leaf ctx,
  template_ok limit ctx d -> Forall (fun p => soft_key p.1) (keys_of leaf d) -> template_ok HARDENED_INDEX ctx d.
Proof.
  induction d as [d IH] using template_ind'. intros leaf ctx Hok Hs.
  assert (forall max k keys, multi_ok limit ctx max k keys ->
    Forall (fun p : KeyExpression * Leaf => soft_key p.1) (map (fun k => (k, leaf)) keys) ->
    multi_ok HARDENED_INDEX ctx max k keys) as Hmulti.
  { intros max k keys (Hkeys & Hrest) Hsoft. split; [|done]. apply Forall_pairs in Hsoft.
    pose proof (conj Hkeys Hsoft) as Hboth. apply Forall_and in Hboth.
    eapply Forall_impl; [exact Hboth|]. intros x [Hx1 Hx2]. by eapply key_ok_soft. }
  destruct d as [| | | | | |k [t|]| | | | | | | | | | | | | | | | | | | | | | | | | | | | | | | |];
    cbn [template_ok keys_of children] in *;
    repeat match goal with
    | H : Forall _ (_ :: _) |- _ => rewrite Forall_cons in H
    | H : Forall _ (_ ++ _) |- _ => rewrite Forall_app in H
    | H : _ /\ _ |- _ => destruct H
    | H : _ \/ _ |- _ => destruct H
    | |- _ /\ _ => split
    end; try done; eauto using key_ok_soft.
  - match goal with Hok : tree_ok _ _, Hs : Forall _ (keys_of_tree _) |- _ =>
      rewrite tree_ok_leaves in Hok |- *; rewrite keys_of_tree_leaves in Hs;
      eapply Forall_concat_impl; [|exact Hok|exact Hs]
    end.
    eapply Forall_impl; [exact IH|]. cbv beta. eauto.
  - match goal with Hok : all_of _ _ |- _ => rewrite all_of_Forall in Hok |- *; eapply Forall_concat_impl; [|exact Hok|exact Hs] end.
    eapply Forall_impl; [exact IH|]. cbv beta. eauto.
Qed.

(** ** An implementation of the [hex] crate *)

Definition hex_encode_byte (b : Z) : list Z := [hex_digit (b / 16); hex_digit (b mod 16)].
Fixpoint hex_decode (s : list Z) : option (list Z) :=
  match s with
  | [] => Some []
  | [_] => None
  | a :: b :: s =>
      match digit_value 16 a, digit_value 16 b, hex_decode s with
      | Some x, Some y, Some rest => Some (x * 16 + y :: rest)
      | _, _, _ => None
      end
  end.
Definition hex_codec : HexCrate := {|
  hex_encode l := concat (map hex_encode_byte l);
  from_hex n s := if (length s =? 2 * n)%nat then hex_decode s else None;
|}.

Lemma hex_digit_value d : 0 <= d < 16 -> digit_value 16 (hex_digit d) = Some d /\ 0 <= hex_digit d < 128.
Proof.
  intros Hd. unfold hex_digit, digit_value, is_ascii_digit.
  destruct (Z.ltb_spec d 10).
  - rewrite !(proj2 (Z.leb_le _ _)) by lia. cbn [andb]. replace (48 + d - 48) with d by lia.
    rewrite (proj2 (Z.ltb_lt _ _)) by lia. split; [done|lia].
  - rewrite (proj2 (Z.leb_gt (87 + d) 57)), !(proj2 (Z.leb_le _ _)) by lia. cbn [andb].
    replace (87 + d - 87) with d by lia. rewrite (proj2 (Z.ltb_lt _ _)) by lia. split; [done|lia].
Qed.

#[export] Instance hex_codec_laws : @HexLaws hex_codec.
Proof.
  assert (forall n s b, (length s <= n)%nat -> hex_decode s = Some b -> (2 * length b = length s)%nat /\ bytes_ok b) as Hdec.
  { induction n as [|n IH]; intros [|a [|c s]] b Hn Hb; cbn in Hn, Hb; try done; try lia; simplify_eq; try by split.
    destruct (digit_value 16 a) as [x|] eqn:Ea, (digit_value 16 c) as [y|] eqn:Ec, (hex_decode s) as [rest|] eqn:Es; simplify_eq.
    destruct (IH s rest ltac:(lia) Es) as [Hl Hr]. split; [cbn; lia|]. constructor; [|done].
    pose proof (digit_value_nonneg _ _ _ Ea). pose proof (digit_value_nonneg _ _ _ Ec).
    unfold digit_value in *. unfold is_u. repeat case_match; simplify_eq; lia. }
  assert (forall b, is_u8 b -> digit_value 16 (hex_digit (b / 16)) = Some (b / 16) /\ digit_value 16 (hex_digit (b mod 16)) = Some (b mod 16)
    /\ ascii_ok (hex_encode_byte b)) as Hbyte.
  { intros b Hb. unfold is_u in Hb. change (2 ^ 8) with 256 in Hb.
    destruct (hex_digit_value (b / 16)) as [H1 H2]; [dlia|]. destruct (hex_digit_value (b mod 16)) as [H3 H4]; [dlia|].
    split; [done|]. split; [done|]. do 2 (apply Forall_cons; split; [done|]). constructor. }
  split; cbn.
  - intros n s b Hb. destruct (Nat.eqb_spec (length s) (n + (n + 0))) as [Hl|]; [|done].
    destruct (Hdec _ _ _ (le_n _) Hb) as [Hl2 Hok]. split; [lia|done].
  - intros b Hb. assert (hex_decode (concat (map hex_encode_byte b)) = Some b /\ length (concat (map hex_encode_byte b)) = (2 * length b)%nat) as [-> ->].
    { induction Hb as [|a b Ha Hb [IH IHl]]; [done|]. destruct (Hbyte a Ha) as (H1 & H2 & _).
      cbn [map concat hex_encode_byte app hex_decode]. rewrite H1, H2, IH. split; [|cbn in *; lia].
      do 2 f_equal. dlia. }
    by rewrite Nat.eqb_refl.
  - intros b. induction b as [|a b IH]; cbn in *; [done|lia].
  - intros b Hb. induction Hb as [|a b Ha Hb IH]; cbn [map concat]; [constructor|].
    apply ascii_app; [|done]. by apply Hbyte.
Qed.

(** ** The theorems *)

(** C37. What the parser makes of a string is well formed and not nested too deeply, and the
    parser ends on every ASCII string with a template or an error: it does not panic. *)
Theorem parse_template_total `{HexLaws} s :
  ascii_ok s ->
  (exists d, parse_descriptor_template s = Ok d /\ template_ok (2 ^ 32) TopLevel d /\ (height d <= MAX_PARSE_DEPTH)%nat) \/
  (exists e, parse_descriptor_template s = Err e).
Proof.
  intros Ha. pose proof (parse_template_fine s) as Hs. revert Hs. generalize (parse_descriptor_template s).
  intros o Ho. destruct o as [d|e| |]; [left; eauto|right; eauto|done..].
Qed.

Lemma parse_template_total_witness :
  exists d, parse_descriptor_template (H:=hex_codec) (lit "wsh(pk(@0/**))") = Ok d.
Proof.
  destruct (@parse_template_total hex_codec _ (lit "wsh(pk(@0/**))")) as [(d & Hd & _)|[e He]]; [solve_ascii|by exists d|].
  vm_compute in He. discriminate.
Defined.

(** C36. Printing and parsing: a template that the parser made, with no hardened derivation
    step, is printed to a string that is parsed to the same template. *)
Theorem template_round_trip `{HexLaws} s d :
  parse_descriptor_template s = Ok d -> soft d -> parse_descriptor_template (display d) = Ok d.
Proof.
  intros Hp Hs. pose proof (parse_template_fine s) as Hf. rewrite Hp in Hf. destruct Hf as [Hok Hh].
  pose proof (template_ok_soft _ _ _ _ Hok Hs) as Hok'.
  pose proof (proj1 (descriptor_display MAX_PARSE_DEPTH) d TopLevel [] (conj Hok' Hh) ltac:(constructor)) as Hd.
  rewrite app_nil_r in Hd. unfold parse_descriptor_template. by rewrite Hd.
Qed.

Definition example_template : string := "wsh(andor(pk(@0/**),older(12960),and_v(v:pk(@1/<2;3>/*),after(7))))".
Definition example_parsed : DescriptorTemplate :=
  Wsh (Andor (Pk (plain 0 0 1)) (Older 12960) (And_v (W_v (Pk (plain 1 2 3))) (After 7))).
Lemma example_parses : parse_descriptor_template (H:=hex_codec) (lit example_template) = Ok example_parsed.
Proof. by vm_compute. Qed.
Lemma template_round_trip_witness :
  parse_descriptor_template (H:=hex_codec) (display (H:=hex_codec) example_parsed) = Ok example_parsed.
Proof.
  apply (@template_round_trip hex_codec _ (lit example_template)); [exact example_parses|]. by repeat constructor.
Defined.

(** ** The iterators *)

Lemma fold_push {A B} (f : A -> B) (l : list A) st :
  fold_left (fun st x => f x :: st) (rev l) st = map f l ++ st.
Proof.
  revert st; induction l as [|x l IH]; intros st; cbn [rev map app]; [done|].
  rewrite fold_left_app. cbn. by rewrite IH.
Qed.

Lemma tapleaves_next_spec fuel stack :
  (list_sum (map tree_nodes stack) <= fuel)%nat ->
  match tapleaves_next fuel stack with
  | None => stack = []
  | Some (leaf, stack') =>
      concat (map leaves stack) = leaf :: concat (map leaves stack') /\
      (list_sum (map tree_nodes stack') < list_sum (map tree_nodes stack))%nat
  end.
Proof.
  unfold list_sum. revert stack; induction fuel as [|fuel IH]; intros [|[d|l r] stack] Hf; cbn [tapleaves_next map foldr tree_nodes] in *; try done; try lia.
  - split; [done|lia].
  - specialize (IH (l :: r :: stack)). cbn [map foldr] in IH. specialize (IH ltac:(lia)).
    destruct (tapleaves_next fuel (l :: r :: stack)) as [[leaf stack']|]; [|done].
    destruct IH as [He Hl]. split; [|lia]. cbn [map concat leaves] in *. by rewrite <- app_assoc.
Qed.

Lemma collect_leaves_spec fuel stack :
  (list_sum (map tree_nodes stack) <= fuel)%nat -> collect_leaves fuel stack = concat (map leaves stack).
Proof.
  revert stack; induction fuel as [|fuel IH]; intros stack Hf; cbn [collect_leaves].
  - destruct stack as [|[] stack]; cbn in Hf; [done|lia..].
  - pose proof (tapleaves_next_spec (S fuel) stack Hf) as Hn.
    destruct (tapleaves_next (S fuel) stack) as [[leaf stack']|]; [|by subst].
    destruct Hn as [-> Hl]. f_equal. apply IH. lia.
Qed.

Lemma tapleaves_leaves t : tapleaves t = leaves t.
Proof. unfold tapleaves. rewrite collect_leaves_spec by (cbn; lia). cbn. apply app_nil_r. Qed.

(** What an iterator has still to yield. *)
Definition pending (fs : list (DescriptorTemplate * Leaf)) : list (KeyExpression * Leaf) :=
  concat (map (fun f => keys_of f.2 f.1) fs).
Definition pending_nodes (fs : list (DescriptorTemplate * Leaf)) : nat := list_sum (map (fun f => nodes f.1) fs).

Lemma pending_map {A} (f : A -> DescriptorTemplate * Leaf) (l : list A) fs :
  pending (map f l ++ fs) = concat (map (fun a => keys_of (f a).2 (f a).1) l) ++ pending fs.
Proof. unfold pending. by rewrite map_app, concat_app, map_map. Qed.
Lemma pending_nodes_map {A} (f : A -> DescriptorTemplate * Leaf) (l : list A) fs :
  pending_nodes (map f l ++ fs) = (list_sum (map (fun a => nodes (f a).1) l) + pending_nodes fs)%nat.
Proof. unfold pending_nodes. by rewrite map_app, list_sum_app, map_map. Qed.

Lemma visit_spec frag leaf fs :
  match visit frag leaf fs with
  | inl item => keys_of leaf frag = [item]
  | inr (fs', ps) => keys_of leaf frag ++ pending fs = ps ++ pending fs' /\
      (pending_nodes fs' < nodes frag + pending_nodes fs)%nat
  end.
Proof.
  destruct frag as [| | | | | |k [t|]| | | | | | | | | | | | | | | | | | | | | | | | | | | | | | | |];
    cbn [visit keys_of nodes]; rewrite ?fold_push, ?app_nil_r; try done.
  all: try (split; [by unfold pending; cbn [map concat fst snd]; rewrite <- ?app_assoc|
    unfold pending_nodes, list_sum; cbn [map foldr fst]; lia]).
  - rewrite tapleaves_leaves, pending_map, pending_nodes_map, keys_of_tree_leaves, tree_size_leaves. cbn [fst snd]. split; [done|].
    change (map (fun a => nodes a) (leaves t)) with (map nodes (leaves t)). lia.
  - rewrite pending_map, pending_nodes_map. cbn [fst snd]. split; [done|]. change (map (fun a => nodes a) ds) with (map nodes ds). lia.
Qed.

Definition remaining (it : DescriptorTemplateIter) : list (KeyExpression * Leaf) :=
  placeholders it ++ pending (fragments it).

Lemma next_spec fuel it :
  (iter_fuel it <= fuel)%nat ->
  match next fuel it with
  | None => remaining it = []
  | Some (item, it') => remaining it = item :: remaining it'
  end.
Proof.
  revert it; induction fuel as [|fuel IH]; intros [fs [|p ps]] Hf; unfold iter_fuel, remaining in *;
    cbn [next placeholders fragments] in *; try done.
  - destruct fs as [|[frag leaf] fs]; [done|]. change (nodes frag + pending_nodes fs <= 0)%nat in Hf.
    pose proof (nodes_children frag). lia.
  - destruct fs as [|[frag leaf] fs]; [done|]. pose proof (visit_spec frag leaf fs) as Hv.
    change (pending ((frag, leaf) :: fs)) with (keys_of leaf frag ++ pending fs).
    destruct (visit frag leaf fs) as [item|[fs' ps]]; cbn [app placeholders fragments].
    + by rewrite Hv.
    + destruct Hv as [-> Hl]. specialize (IH {| fragments := fs'; placeholders := ps |}). cbn [fragments placeholders] in IH.
      apply IH. change (nodes frag + pending_nodes fs <= S fuel)%nat in Hf.
      change (pending_nodes fs' <= fuel)%nat. lia.
Qed.

(** The iterator over the placeholders of a template yields the keys of the template, from
    left to right, those of a Taproot leaf with the leaf they are in; and then it ends. *)
Theorem placeholders_in_order d n : collect n (iter_from d) = take n (keys_of None d).
Proof.
  assert (forall it, collect n it = take n (remaining it)) as Hc.
  { induction n as [|n IH]; intros it; cbn [collect]; [done|].
    pose proof (next_spec (iter_fuel it) it (le_n _)) as Hn.
    destruct (next (iter_fuel it) it) as [[item it']|]; rewrite Hn; [|done]. cbn [take]. by rewrite IH. }
  rewrite Hc. unfold remaining, pending, iter_from. cbn. by rewrite app_nil_r.
Qed.

(** ** Strings that are not what they seem *)

(** A string of hexadecimal digits that ends in a character of two bytes: the slice of the
    digits ends inside of it. *)
Example hex_slice_panics :
  let s := lit "hash160(" ++ replicate 39 48 ++ [195; 169] ++ lit ")" in
  utf8_ok s = true /\ parse_descriptor_template (H:=hex_codec) s = Panic.
Proof. by vm_compute. Qed.

(** A hardened step is accepted, and printed as a number that is not. *)
Example hardened_not_reparsed :
  exists d, parse_descriptor_template (H:=hex_codec) (lit "pkh(@0/<0';1>/*)") = Ok d /\
    parse_descriptor_template (H:=hex_codec) (display (H:=hex_codec) d) = Err NumberOutOfRange.
Proof. exists (Pkh (plain 0 2147483648 1)). by vm_compute. Qed.
