(* ===== verification/WalletPolicy.v ===== *)
(** * Wallet policies ([apps/bitcoin/bip388/src/lib.rs])

    Keys with their origins, the instantiation of a template with keys ([to_descriptor]), and
    [WalletPolicy] with its serialization. What the [bitcoin] crate provides is the class
    [BitcoinCrate]: child numbers and extended public keys with their texts and encodings, and
    the integers of variable length. A reader is the list of the bytes that it has still to
    give. *)

From S2P Require Import Prelude Text Bip388.
From Stdlib Require Import Ascii.

Definition MAX_SERIALIZED_DESCRIPTORTEMPLATE_LEN : Z := 4096.
Definition MAX_SERIALIZED_KEY_COUNT : Z := MAX_KEYS_MULTI_A.
Definition MAX_BIP32_DERIVATION_PATH_LEN : Z := 32.

(** [encode::Error]: [ParseFailed], and the errors of readers and of the crate itself. *)
Inductive EncodeError : Type := ParseFailed (message : string) | OtherError.

Class BitcoinCrate := {
  ChildNumber : Type;
  child_from : Z -> ChildNumber;
  child_into : ChildNumber -> Z;
  child_display : ChildNumber -> list Z;
  child_from_str : list Z -> option ChildNumber;
  Xpub : Type;
  xpub_encode : Xpub -> list Z;
  xpub_decode : list Z -> option Xpub;
  xpub_display : Xpub -> list Z;
  xpub_from_str : list Z -> option Xpub;
  varint_encode : Z -> list Z;
  varint_decode : list Z -> outcome EncodeError (Z * list Z);
}.

Section policy.
Context `{BitcoinCrate}.

Record KeyOrigin : Type := { fingerprint : Z; derivation_path : list ChildNumber }.
Record KeyInformation : Type := { pubkey : Xpub; origin_info : option KeyOrigin }.

(** ** Texts of keys *)

Definition display_origin (o : KeyOrigin) : list Z :=
  hex8 (fingerprint o) ++ concat (map (fun step => lit "/" ++ child_display step) (derivation_path o)).
Definition display_info (k : KeyInformation) : list Z :=
  match origin_info k with
  | Some o => lit "[" ++ display_origin o ++ lit "]" ++ xpub_display (pubkey k)
  | None => xpub_display (pubkey k)
  end.

Fixpoint parse_path (parts : list (list Z)) : outcome ParseError (list ChildNumber) :=
  match parts with
  | [] => Ok []
  | x :: parts =>
      c ← ok_or (child_from_str x) InvalidKey;
      path ← parse_path parts;
      Ok (c :: path)
  end.
Definition parse_origin (s : list Z) : outcome ParseError KeyOrigin :=
  guard_err (bool_decide (s = [])) EmptyInput;;
  let '(part0, parts) := split (ch "/") s in
  guard_err (negb (length part0 =? 8)%nat) InvalidLength;;
  fingerprint ← ok_or (from_str_radix 32 16 part0) InvalidKey;
  derivation_path ← parse_path parts;
  Ok {| fingerprint := fingerprint; derivation_path := derivation_path |}.
Definition parse_info (s : list Z) : outcome ParseError KeyInformation :=
  guard_err (bool_decide (s = [])) EmptyInput;;
  '(origin_info, pubkey_pos) ← (if starts_with (lit "[") s then
                                  end_ ← ok_or (find (ch "]") s) InvalidKey;
                                  inner ← str_to end_ s;
                                  inner ← str_from 1 inner;
                                  origin ← parse_origin inner;
                                  Ok (Some origin, (end_ + 1)%nat)
                                else Ok (None, 0%nat));
  rest ← str_from pubkey_pos s;
  pubkey ← ok_or (xpub_from_str rest) InvalidKey;
  Ok {| pubkey := pubkey; origin_info := origin_info |}.

(** ** Descriptors

    [write_to] appends to a [String]; here it returns what is appended. An error discards
    it. *)

Context `{HexCrate}.
Section to_descriptor.
Context (key_information : list KeyInformation) (is_change : bool) (address_index : Z).

Definition get_key (key_index : Z) : outcome ParseError KeyInformation :=
  ok_or (key_information !! Z.to_nat key_index) InvalidKeyIndex.
Fixpoint write_musig_keys (first : bool) (key_indices : list Z) : outcome ParseError (list Z) :=
  match key_indices with
  | [] => Ok []
  | key_index :: key_indices =>
      key_info ← get_key key_index;
      rest ← write_musig_keys false key_indices;
      Ok ((if first then [] else lit ",") ++ display_info key_info ++ rest)
  end.
Definition write_key_expression (kp : KeyExpression) : outcome ParseError (list Z) :=
  let change_step := if is_change then num2 kp else num1 kp in
  match key_type kp with
  | PlainKey key_index =>
      key_info ← get_key key_index;
      Ok (display_info key_info ++ lit "/" ++ decimal change_step ++ lit "/" ++ decimal address_index)
  | Musig key_indices =>
      keys ← write_musig_keys true key_indices;
      Ok (lit "musig(" ++ keys ++ lit ")/" ++ decimal change_step ++ lit "/" ++ decimal address_index)
  end.
Fixpoint write_key_expressions (first : bool) (kps : list KeyExpression) : outcome ParseError (list Z) :=
  match kps with
  | [] => Ok []
  | kp :: kps =>
      k ← write_key_expression kp;
      rest ← write_key_expressions false kps;
      Ok ((if first then [] else lit ",") ++ k ++ rest)
  end.

Fixpoint write_to (d : DescriptorTemplate) : outcome ParseError (list Z) :=
  let wrap name (body : outcome ParseError (list Z)) := b ← body; Ok (lit name ++ lit "(" ++ b ++ lit ")") in
  let key name kp := wrap name (write_key_expression kp) in
  let multi name threshold kps :=
    wrap name (keys ← write_key_expressions true kps; Ok (decimal threshold ++ lit "," ++ keys)) in
  let two name x y := wrap name (x ← write_to x; y ← write_to y; Ok (x ++ lit "," ++ y)) in
  let write_wrapper name inner :=
    i ← write_to inner; Ok (lit name ++ (if is_wrapper inner then [] else lit ":") ++ i) in
  match d with
  | Sh inner => wrap "sh" (write_to inner)
  | Wsh inner => wrap "wsh" (write_to inner)
  | Pkh kp => key "pkh" kp
  | Wpkh kp => key "wpkh" kp
  | Sortedmulti threshold kps => multi "sortedmulti" threshold kps
  | Sortedmulti_a threshold kps => multi "sortedmulti_a" threshold kps
  | Tr kp tap_tree =>
      wrap "tr" (k ← write_key_expression kp;
                 match tap_tree with
                 | None => Ok k
                 | Some tree => t ← write_tree tree; Ok (k ++ lit "," ++ t)
                 end)
  | Zero => Ok (lit "0")
  | One => Ok (lit "1")
  | Pk kp => key "pk" kp
  | Pk_k kp => key "pk_k" kp
  | Pk_h kp => key "pk_h" kp
  | Older n => wrap "older" (Ok (decimal n))
  | After n => wrap "after" (Ok (decimal n))
  | Sha256 hash => wrap "sha256" (Ok (hex_encode hash))
  | Ripemd160 hash => wrap "ripemd160" (Ok (hex_encode hash))
  | Hash256 hash => wrap "hash256" (Ok (hex_encode hash))
  | Hash160 hash => wrap "hash160" (Ok (hex_encode hash))
  | Andor x y z =>
      wrap "andor" (x ← write_to x; y ← write_to y; z ← write_to z; Ok (x ++ lit "," ++ y ++ lit "," ++ z))
  | And_v x y => two "and_v" x y
  | And_b x y => two "and_b" x y
  | And_n x y => two "and_n" x y
  | Or_b x y => two "or_b" x y
  | Or_c x y => two "or_c" x y
  | Or_d x y => two "or_d" x y
  | Or_i x y => two "or_i" x y
  | Thresh k sub_templates =>
      wrap "thresh"
        (subs ← foldr (fun template rest => t ← template; r ← rest; Ok (lit "," ++ t ++ r)) (Ok [])
           (map write_to sub_templates);
         Ok (decimal k ++ subs))
  | Multi threshold kps => multi "multi" threshold kps
  | Multi_a threshold kps => multi "multi_a" threshold kps
  | W_a inner => write_wrapper "a" inner
  | W_s inner => write_wrapper "s" inner
  | W_c inner => write_wrapper "c" inner
  | W_t inner => write_wrapper "t" inner
  | W_d inner => write_wrapper "d" inner
  | W_v inner => write_wrapper "v" inner
  | W_j inner => write_wrapper "j" inner
  | W_n inner => write_wrapper "n" inner
  | W_l inner => write_wrapper "l" inner
  | W_u inner => write_wrapper "u" inner
  end
with write_tree (t : TapTree) : outcome ParseError (list Z) :=
  match t with
  | Script desc => write_to desc
  | Branch l r =>
      l ← write_tree l;
      r ← write_tree r;
      Ok (lit "{" ++ l ++ lit "," ++ r ++ lit "}")
  end.
End to_descriptor.
Definition to_descriptor (d : DescriptorTemplate) (key_information : list KeyInformation) (is_change : bool)
    (address_index : Z) : outcome ParseError (list Z) :=
  write_to key_information is_change address_index d.

(** ** Policies *)

Record WalletPolicy : Type := {
  descriptor_template : DescriptorTemplate;
  key_information : list KeyInformation;
  descriptor_template_raw : list Z
}.
Definition policy_new (descriptor_template_str : list Z) (key_information : list KeyInformation) :
    outcome ParseError WalletPolicy :=
  descriptor_template ← parse_descriptor_template descriptor_template_str;
  Ok {| descriptor_template := descriptor_template; key_information := key_information;
        descriptor_template_raw := descriptor_template_str |}.

Inductive SegwitVersion : Type := SegwitLegacy | SegwitV0 | SegwitTaproot.
Definition get_segwit_version (p : WalletPolicy) : outcome ParseError SegwitVersion :=
  match descriptor_template p with
  | Tr _ _ => Ok SegwitTaproot
  | Pkh _ => Ok SegwitLegacy
  | Wpkh _ | Wsh _ => Ok SegwitV0
  | Sh inner => match inner with Wpkh _ | Wsh _ => Ok SegwitV0 | _ => Ok SegwitLegacy end
  | _ => Err InvalidTopLevelPolicy
  end.

Definition serialize_info (key_info : KeyInformation) : list Z :=
  match origin_info key_info with
  | None => [0]
  | Some k =>
      [1] ++ be_bytes 4 (fingerprint k) ++ varint_encode (Z.of_nat (length (derivation_path k))) ++
      concat (map (fun step => le_bytes 4 (child_into step)) (derivation_path k))
  end ++ xpub_encode (pubkey key_info).
Definition serialize_policy (p : WalletPolicy) : list Z :=
  varint_encode (Z.of_nat (length (descriptor_template_raw p))) ++ descriptor_template_raw p ++
  varint_encode (Z.of_nat (length (key_information p))) ++
  concat (map serialize_info (key_information p)).

(** [r.read_exact(&mut buf)] for a buffer of [n] bytes. *)
Definition read_exact (n : nat) (r : list Z) : outcome EncodeError (list Z * list Z) :=
  if (n <=? length r)%nat then Ok (take n r, drop n r) else Err OtherError.
Fixpoint read_path (n : nat) (r : list Z) : outcome EncodeError (list ChildNumber * list Z) :=
  match n with
  | O => Ok ([], r)
  | S n =>
      '(step_bytes, r) ← read_exact 4 r;
      '(path, r) ← read_path n r;
      Ok (child_from (le_value step_bytes) :: path, r)
  end.
Definition read_info (r : list Z) : outcome EncodeError (KeyInformation * list Z) :=
  '(flag, r) ← read_exact 1 r;
  '(origin_info, r) ←
    (if bool_decide (flag = [0]) then Ok (None, r)
     else if bool_decide (flag = [1]) then
       '(fp_buf, r) ← read_exact 4 r;
       '(dp_len, r) ← varint_decode r;
       guard_err (MAX_BIP32_DERIVATION_PATH_LEN - 2 <? dp_len) (ParseFailed "Derivation path too long");;
       '(derivation_path, r) ← read_path (Z.to_nat dp_len) r;
       Ok (Some {| fingerprint := be_value fp_buf; derivation_path := derivation_path |}, r)
     else Err (ParseFailed "Invalid key information flag"));
  '(xpub_bytes, r) ← read_exact 78 r;
  pubkey ← ok_or (xpub_decode xpub_bytes) (ParseFailed "Invalid xpub");
  Ok ({| pubkey := pubkey; origin_info := origin_info |}, r).
Fixpoint read_infos (n : nat) (r : list Z) : outcome EncodeError (list KeyInformation * list Z) :=
  match n with
  | O => Ok ([], r)
  | S n =>
      '(key_info, r) ← read_info r;
      '(infos, r) ← read_infos n r;
      Ok (key_info :: infos, r)
  end.
Definition deserialize_policy (r : list Z) : outcome EncodeError WalletPolicy :=
  '(desc_len, r) ← varint_decode r;
  guard_err (MAX_SERIALIZED_DESCRIPTORTEMPLATE_LEN <? desc_len) (ParseFailed "Descriptor template too long");;
  '(desc_bytes, r) ← read_exact (Z.to_nat desc_len) r;
  guard_err (negb (utf8_ok desc_bytes)) (ParseFailed "Invalid UTF-8 in descriptor");;
  '(key_count, r) ← varint_decode r;
  guard_err (MAX_SERIALIZED_KEY_COUNT <? key_count) (ParseFailed "Too many keys");;
  '(key_information, r) ← read_infos (Z.to_nat key_count) r;
  guard_err (match r with [] => false | _ => true end)
    (ParseFailed "Extra data after deserializing WalletPolicy");;
  outcome_map_err (fun _ => ParseFailed "Invalid descriptor template or key information")
    (policy_new desc_bytes key_information).
End policy.
