(* ===== verification/WalletPolicySpec.v ===== *)
(** * Wallet policies round-trip, and descriptors are rendered templates

    [policy_round_trip]: a policy within the limits of the format is read back from its
    serialization. [to_descriptor_renders]: the descriptor is the text of the template with
    every placeholder replaced by its key, and exists exactly if the keys do. *)

From S2P Require Import Prelude Text Bip388 Bip388Spec Bip388Print Bip388RoundTrip WalletPolicy.
From Stdlib Require Import Ascii.

(** What the [bitcoin] crate promises. *)
Class BitcoinLaws `{BitcoinCrate} := {
  child_range : forall c, is_u32 (child_into c);
  child_from_into : forall c, child_from (child_into c) = c;
  child_parse : forall c, child_from_str (child_display c) = Some c;
  child_text : forall c, Forall (fun b => 0 <= b < 128 /\ b <> ch "/" /\ b <> ch "]") (child_display c);
  length_xpub : forall x, length (xpub_encode x) = 78%nat;
  xpub_decode_encode : forall x, xpub_decode (xpub_encode x) = Some x;
  xpub_parse : forall x, xpub_from_str (xpub_display x) = Some x;
  xpub_text : forall x, ascii_ok (xpub_display x) /\ exists b s, xpub_display x = b :: s /\ b <> ch "[";
  varint_decode_encode : forall n rest, 0 <= n < 2 ^ 64 -> varint_decode (varint_encode n ++ rest) = Ok (n, rest);
}.

Section laws.
Context `{BitcoinLaws} `{HL : HexLaws}.

(** ** Serialization *)

Definition origin_ok (o : KeyOrigin) : Prop :=
  is_u32 (fingerprint o) /\ Z.of_nat (length (derivation_path o)) <= MAX_BIP32_DERIVATION_PATH_LEN - 2.
Definition info_ok (k : KeyInformation) : Prop :=
  match origin_info k with None => True | Some o => origin_ok o end.
(** A policy that [policy_new] makes, within the limits of the format. *)
Record policy_ok (p : WalletPolicy) : Prop := {
  policy_parsed : policy_new (descriptor_template_raw p) (key_information p) = Ok p;
  policy_utf8 : utf8_ok (descriptor_template_raw p) = true;
  policy_raw : Z.of_nat (length (descriptor_template_raw p)) <= MAX_SERIALIZED_DESCRIPTORTEMPLATE_LEN;
  policy_keys : Z.of_nat (length (key_information p)) <= MAX_SERIALIZED_KEY_COUNT;
  policy_infos : Forall info_ok (key_information p);
}.

Lemma read_exact_app l r : read_exact (length l) (l ++ r) = Ok (l, r).
Proof.
  unfold read_exact. rewrite length_app, (proj2 (Nat.leb_le _ _)) by lia.
  by rewrite take_app_length, drop_app_length.
Qed.
Lemma read_exact_app' n l r : length l = n -> read_exact n (l ++ r) = Ok (l, r).
Proof. intros <-. apply read_exact_app. Qed.

Lemma read_path_app path r :
  read_path (length path) (concat (map (fun step => le_bytes 4 (child_into step)) path) ++ r) = Ok (path, r).
Proof.
  induction path as [|c path IH]; cbn [length read_path map concat]; [done|]. rewrite <- app_assoc.
  rewrite read_exact_app' by apply length_le_bytes. mstep. rewrite IH. mstep.
  by rewrite le_value_bytes, child_from_into by apply child_range.
Qed.

Lemma read_info_app k r : info_ok k -> read_info (serialize_info k ++ r) = Ok (k, r).
Proof.
  unfold info_ok, serialize_info, read_info. destruct k as [x [o|]]; cbn [origin_info pubkey]; rewrite <- !app_assoc.
  - intros [Hf Hp]. unfold MAX_BIP32_DERIVATION_PATH_LEN in *.
    rewrite (read_exact_app' 1 [1]) by done. mstep. rewrite bool_decide_eq_false_2 by done.
    rewrite bool_decide_eq_true_2 by done. rewrite read_exact_app' by apply length_be_bytes. mstep.
    rewrite varint_decode_encode by lia. mstep. rewrite (proj2 (Z.ltb_ge _ _)) by lia. mstep.
    rewrite Nat2Z.id, read_path_app. mstep. rewrite read_exact_app' by apply length_xpub. mstep.
    rewrite xpub_decode_encode. mstep. rewrite be_value_bytes by done. by destruct o.
  - intros _. rewrite (read_exact_app' 1 [0]) by done. mstep. rewrite bool_decide_eq_true_2 by done. mstep.
    rewrite read_exact_app' by apply length_xpub. mstep. by rewrite xpub_decode_encode.
Qed.

Lemma read_infos_app ks r : Forall info_ok ks -> read_infos (length ks) (concat (map serialize_info ks) ++ r) = Ok (ks, r).
Proof.
  induction 1 as [|k ks Hk Hks IH]; cbn [length read_infos map concat]; [done|]. rewrite <- app_assoc.
  rewrite read_info_app by done. mstep. by rewrite IH.
Qed.

Lemma policy_decodes p : policy_ok p -> deserialize_policy (serialize_policy p) = Ok p.
Proof.
  intros [Hp Hu Hr Hk Hi]. unfold deserialize_policy, serialize_policy.
  unfold MAX_SERIALIZED_DESCRIPTORTEMPLATE_LEN, MAX_SERIALIZED_KEY_COUNT, MAX_KEYS_MULTI_A in *.
  rewrite varint_decode_encode by lia. mstep. rewrite (proj2 (Z.ltb_ge _ _)) by lia. mstep.
  rewrite Nat2Z.id, read_exact_app. mstep. rewrite Hu. mstep. rewrite varint_decode_encode by lia. mstep.
  rewrite (proj2 (Z.ltb_ge _ _)) by lia. mstep. rewrite Nat2Z.id.
  rewrite <- (app_nil_r (concat _)), read_infos_app by done. mstep. by rewrite Hp.
Qed.

(** A wallet policy that was made from its text, within the limits of the format, is
    deserialized from its serialization. *)
Theorem policy_round_trip p : policy_ok p -> deserialize_policy (serialize_policy p) = Ok p.
Proof. apply policy_decodes. Qed.
End laws.

(** ** Descriptors *)

Section render.
Context `{HexCrate} (key_text : KeyExpression -> list Z).

(** The text of a template in which a key [k] is written [key_text k]. *)
Fixpoint render (d : DescriptorTemplate) : list Z :=
  let wrapper c x := lit c ++ (if is_wrapper x then [] else lit ":") ++ render x in
  let two name x y := fragment name (render x ++ lit "," ++ render y) in
  let multi name k keys := fragment name (decimal k ++ comma_each key_text keys) in
  match d with
  | Sh x => fragment "sh" (render x)
  | Wsh x => fragment "wsh" (render x)
  | Pkh k => fragment "pkh" (key_text k)
  | Wpkh k => fragment "wpkh" (key_text k)
  | Sortedmulti k keys => multi "sortedmulti" k keys
  | Sortedmulti_a k keys => multi "sortedmulti_a" k keys
  | Tr k None => fragment "tr" (key_text k)
  | Tr k (Some t) => fragment "tr" (key_text k ++ lit "," ++ render_tree t)
  | Zero => lit "0"
  | One => lit "1"
  | Pk k => fragment "pk" (key_text k)
  | Pk_k k => fragment "pk_k" (key_text k)
  | Pk_h k => fragment "pk_h" (key_text k)
  | Older n => fragment "older" (decimal n)
  | After n => fragment "after" (decimal n)
  | Sha256 h => fragment "sha256" (hex_encode h)
  | Ripemd160 h => fragment "ripemd160" (hex_encode h)
  | Hash256 h => fragment "hash256" (hex_encode h)
  | Hash160 h => fragment "hash160" (hex_encode h)
  | Andor x y z => fragment "andor" (render x ++ lit "," ++ render y ++ lit "," ++ render z)
  | And_v x y => two "and_v" x y
  | And_b x y => two "and_b" x y
  | And_n x y => two "and_n" x y
  | Or_b x y => two "or_b" x y
  | Or_c x y => two "or_c" x y
  | Or_d x y => two "or_d" x y
  | Or_i x y => two "or_i" x y
  | Thresh k ds => fragment "thresh" (decimal k ++ comma_each render ds)
  | Multi k keys => multi "multi" k keys
  | Multi_a k keys => multi "multi_a" k keys
  | W_a x => wrapper "a" x
  | W_s x => wrapper "s" x
  | W_c x => wrapper "c" x
  | W_t x => wrapper "t" x
  | W_d x => wrapper "d" x
  | W_v x => wrapper "v" x
  | W_j x => wrapper "j" x
  | W_n x => wrapper "n" x
  | W_l x => wrapper "l" x
  | W_u x => wrapper "u" x
  end
with render_tree (t : TapTree) : list Z :=
  match t with
  | Script d => render d
  | Branch l r => lit "{" ++ render_tree l ++ lit "," ++ render_tree r ++ lit "}"
  end.
End render.

Lemma comma_each_ext {A} (f g : A -> list Z) l : Forall (fun x => f x = g x) l -> comma_each f l = comma_each g l.
Proof. unfold comma_each. induction 1 as [|x l Hx Hl IH]; cbn [map concat]; [done|]. by rewrite Hx, IH. Qed.

(** The text of a template is its rendering with the text of its keys. *)
Lemma display_render `{HexCrate} d : display d = render display_key d.
Proof.
  induction d as [d IH] using template_ind'.
  assert (forall t, Forall (fun d => display d = render display_key d) (leaves t) ->
    display_tree t = render_tree display_key t) as Htree.
  { intros t. induction t as [x|l r Hl Hr] using tree_ind; cbn [leaves display_tree render_tree];
      rewrite ?Forall_singleton, ?Forall_app; [done|]. intros [? ?]. by rewrite Hl, Hr. }
  destruct d as [| | | | | |k [t|]| | | | | | | | | | | | | | | | | | | | | | | | | | | | | | | |];
    cbn [children display render] in *; rewrite ?Forall_cons in IH;
    repeat match goal with H : _ /\ _ |- _ => destruct H end; try congruence.
  - by rewrite Htree.
  - by rewrite (comma_each_ext display (render display_key)).
Qed.

Section to_descriptor.
Context `{BitcoinCrate} `{HexCrate} (key_information : list KeyInformation) (is_change : bool) (address_index : Z).

Definition key_indices (k : KeyExpression) : list Z :=
  match key_type k with PlainKey i => [i] | Musig l => l end.
(** The keys that a key expression names are there. *)
Definition known_index (i : Z) : bool := (Z.to_nat i <? length key_information)%nat.
Definition known (k : KeyExpression) : bool := forallb known_index (key_indices k).
Definition info_text (i : Z) : list Z :=
  match key_information !! Z.to_nat i with Some k => display_info k | None => [] end.
Fixpoint join (l : list (list Z)) : list Z :=
  match l with [] => [] | [x] => x | x :: l => x ++ lit "," ++ join l end.
(** The text of a key in a descriptor: the key itself, then the steps of the address. *)
Definition key_text (k : KeyExpression) : list Z :=
  let steps := decimal (if is_change then num2 k else num1 k) ++ lit "/" ++ decimal address_index in
  match key_type k with
  | PlainKey i => info_text i ++ lit "/" ++ steps
  | Musig l => lit "musig(" ++ join (map info_text l) ++ lit ")/" ++ steps
  end.

(** A text that exists if the keys are there. *)
Definition if_known (b : bool) (t : list Z) : outcome ParseError (list Z) :=
  if b then Ok t else Err InvalidKeyIndex.

Lemma get_key_known i :
  get_key key_information i =
    match key_information !! Z.to_nat i with Some k => Ok k | None => Err InvalidKeyIndex end /\
  known_index i = match key_information !! Z.to_nat i with Some _ => true | None => false end.
Proof.
  unfold get_key, known_index. destruct (key_information !! Z.to_nat i) eqn:E.
  - split; [done|]. apply Nat.ltb_lt. by eapply lookup_lt_Some.
  - split; [done|]. by apply Nat.ltb_ge, lookup_ge_None.
Qed.

Definition comma (first : bool) : list Z := if first then [] else lit ",".
Lemma join_cons (x : list Z) l : join (x :: l) = x ++ match l with [] => [] | _ => lit "," ++ join l end.
Proof. destruct l; [by rewrite app_nil_r|done]. Qed.

Lemma write_musig_keys_spec first l :
  write_musig_keys key_information first l =
    if_known (forallb known_index l) (match l with [] => [] | _ => comma first ++ join (map info_text l) end).
Proof.
  revert first; induction l as [|i l IH]; intros first; cbn [write_musig_keys forallb map]; [done|].
  destruct (get_key_known i) as [-> ->]. rewrite join_cons. unfold info_text at 1.
  destruct (key_information !! Z.to_nat i); [|done]. cbn [mbind outcome_mbind outcome_bind andb].
  rewrite IH. unfold if_known. destruct (forallb known_index l); [|done].
  cbn [mbind outcome_mbind outcome_bind]. do 3 f_equal. by destruct l.
Qed.

Lemma write_key_spec k :
  write_key_expression key_information is_change address_index k = if_known (known k) (key_text k).
Proof.
  unfold write_key_expression, known, key_text, key_indices. destruct (key_type k) as [i|l].
  - destruct (get_key_known i) as [-> E]. cbn [forallb]. rewrite E. unfold info_text.
    by destruct (key_information !! Z.to_nat i).
  - rewrite write_musig_keys_spec. unfold if_known. destruct (forallb known_index l); [|done].
    cbn [mbind outcome_mbind outcome_bind comma app]. do 3 f_equal. by destruct l.
Qed.

Lemma write_keys_spec first keys :
  write_key_expressions key_information is_change address_index first keys =
    if_known (forallb known keys) (match keys with [] => [] | _ => comma first ++ join (map key_text keys) end).
Proof.
  revert first; induction keys as [|k keys IH]; intros first; cbn [write_key_expressions forallb map]; [done|].
  rewrite write_key_spec, join_cons, IH. unfold if_known. destruct (known k); [|done].
  cbn [mbind outcome_mbind outcome_bind andb]. destruct (forallb known keys); [|done].
  cbn [mbind outcome_mbind outcome_bind]. do 3 f_equal. by destruct keys.
Qed.

Lemma join_comma_each {A} (f : A -> list Z) l : l <> [] -> lit "," ++ join (map f l) = comma_each f l.
Proof.
  unfold comma_each. induction l as [|x l IH]; [done|]. intros _. cbn [map]. rewrite join_cons.
  cbn [concat]. rewrite <- app_assoc. do 2 f_equal. destruct l; [done|]. by apply IH.
Qed.

Definition all_known (ks : list (KeyExpression * Leaf)) : bool := forallb (fun p => known p.1) ks.

Lemma all_known_map leaf keys : all_known (map (fun k => (k, leaf)) keys) = forallb known keys.
Proof. unfold all_known. induction keys as [|k keys IH]; cbn; [done|]. by rewrite IH. Qed.

Lemma write_all_spec limit ds leaf ctx :
  Forall (fun d => forall leaf ctx, template_ok limit ctx d ->
    write_to key_information is_change address_index d = if_known (all_known (keys_of leaf d)) (render key_text d)) ds ->
  Forall (template_ok limit ctx) ds ->
  foldr (fun template rest => t ← template; r ← rest; Ok (lit "," ++ t ++ r)) (Ok [])
    (map (write_to key_information is_change address_index) ds) =
  if_known (all_known (concat (map (keys_of leaf) ds))) (comma_each (render key_text) ds).
Proof.
  induction 1 as [|d ds Hd Hds IH]; cbn [map concat foldr]; [done|]. intros [Hok Hall]%Forall_cons.
  rewrite (Hd leaf ctx Hok), IH by done. unfold all_known, comma_each. rewrite forallb_app. unfold if_known.
  by do 2 (destruct (forallb _ _); cbn; rewrite <- ?app_assoc).
Qed.

Lemma write_to_spec limit d : forall leaf ctx,
  template_ok limit ctx d ->
  write_to key_information is_change address_index d = if_known (all_known (keys_of leaf d)) (render key_text d).
Proof.
  induction d as [d IH] using template_ind'. intros leaf ctx Hok.
  assert (forall max k keys, multi_ok limit ctx max k keys ->
    (keys ← write_key_expressions key_information is_change address_index true keys; Ok (decimal k ++ lit "," ++ keys))
      = if_known (forallb known keys) (decimal k ++ comma_each key_text keys)) as Hmulti.
  { intros max k keys (_ & Hl & _). rewrite write_keys_spec. unfold if_known.
    destruct (forallb known keys); [|done]. cbn [mbind outcome_mbind outcome_bind]. do 2 f_equal.
    rewrite <- join_comma_each by (by destruct keys; [cbn in Hl; lia|]). by destruct keys. }
  assert (forall t, tree_ok limit t ->
    Forall (fun d => forall leaf ctx, template_ok limit ctx d ->
      write_to key_information is_change address_index d = if_known (all_known (keys_of leaf d)) (render key_text d)) (leaves t) ->
    write_tree key_information is_change address_index t = if_known (all_known (keys_of_tree t)) (render_tree key_text t)) as Htree.
  { intros t. induction t as [x|l r Hl Hr] using tree_ind; cbn [leaves tree_ok write_tree render_tree keys_of_tree];
      rewrite ?Forall_singleton, ?Forall_app; [eauto|]. intros [] []. rewrite Hl, Hr by done. unfold all_known.
    rewrite forallb_app. unfold if_known. by do 2 (destruct (forallb _ (keys_of_tree _))). }
  destruct d as [| | | | | |k [t|]| | | | | | | | | | | | | | | | | | | | | | | | | | | | | | | |];
    cbn [children template_ok write_to write_tree keys_of keys_of_tree render render_tree] in *; rewrite ?Forall_cons in IH;
    repeat match goal with H : _ /\ _ |- _ => destruct H | H : _ \/ _ |- _ => destruct H end; try done.
  all: rewrite ?write_key_spec, ?Htree by done.
  all: repeat match goal with
    | IH : forall leaf ctx, template_ok _ _ ?x -> _, H : template_ok _ _ ?x |- _ => rewrite (IH leaf _ H) in *; clear IH
    end.
  all: try (erewrite Hmulti by eassumption; rewrite all_known_map).
  all: try match goal with Hall : all_of _ _ |- _ => rewrite (write_all_spec limit ds leaf ctx) by (done || by apply all_of_Forall) end.
  all: unfold all_known; rewrite ?forallb_app; cbn [forallb fst]; rewrite ?andb_true_r.
  all: unfold if_known; repeat (match goal with |- context [if ?b then _ else _] => destruct b end; try done).
Qed.

(** The descriptor of a template that the parser makes exists exactly if the template names
    only keys that are there, and is then the text of the template with the text of the key,
    at the address, in place of each placeholder; [display] is the same with the placeholders
    themselves. *)
Theorem to_descriptor_renders limit ctx d :
  template_ok limit ctx d ->
  to_descriptor d key_information is_change address_index =
    (if forallb (fun p => known p.1) (keys_of None d) then Ok (render key_text d) else Err InvalidKeyIndex) /\
  display d = render display_key d.
Proof. intros Hok. split; [by apply (write_to_spec limit d None ctx)|apply display_render]. Qed.
End to_descriptor.

(** ** Texts of keys *)

(** [k - 1], down to 0. *)
Fixpoint down (k : nat) : list Z := match k with O => [] | S k => Z.of_nat k :: down k end.
Lemma hex_digits_value n k :
  is_u32 n -> digits_value 32 16 (n / 16 ^ Z.of_nat k) (map (fun i => hex_digit (Z.shiftr n (4 * i) mod 16)) (down k)) = Some n.
Proof.
  intros Hn. unfold is_u in Hn. induction k as [|k IH]; cbn [down map digits_value].
  { by rewrite Z.div_1_r. }
  pose proof (Z.mod_pos_bound (Z.shiftr n (4 * Z.of_nat k)) 16 eq_refl) as Hd.
  rewrite (proj1 (hex_digit_value _ Hd)). clear Hd.
  rewrite Z.shiftr_div_pow2 by lia. rewrite Z.pow_mul_r by lia. change (2 ^ 4) with 16.
  replace (n / 16 ^ Z.of_nat (S k) * 16 + (n / 16 ^ Z.of_nat k) mod 16) with (n / 16 ^ Z.of_nat k).
  - rewrite (proj2 (Z.ltb_lt _ _)); [exact IH|]. pose proof (Z.pow_pos_nonneg 16 (Z.of_nat k)).
    apply Z.div_lt_upper_bound; nia.
  - replace (16 ^ Z.of_nat (S k)) with (16 ^ Z.of_nat k * 16) by (rewrite Nat2Z.inj_succ, Z.pow_succ_r by lia; lia).
    rewrite <- Z.div_div by (try apply Z.pow_nonzero; lia).
    pose proof (Z.div_mod (n / 16 ^ Z.of_nat k) 16 ltac:(done)). lia.
Qed.
Lemma hex8_value n : is_u32 n -> digits_value 32 16 0 (hex8 n) = Some n.
Proof.
  intros Hn. pose proof (hex_digits_value n 8 Hn) as Hv. unfold is_u in Hn. rewrite Z.div_small in Hv; [exact Hv|].
  change (16 ^ Z.of_nat 8) with 4294967296. lia.
Qed.
Lemma hex_digit_text d : 0 <= d < 16 -> 48 <= hex_digit d < 128 /\ hex_digit d <> ch "]".
Proof. intros Hd. unfold hex_digit. change (ch "]") with 93. destruct (Z.ltb_spec d 10); lia. Qed.
Lemma hex8_text n : Forall (fun b => 48 <= b < 128 /\ b <> ch "]") (hex8 n).
Proof. unfold hex8. repeat (constructor; [apply hex_digit_text, Z.mod_pos_bound; lia|]). constructor. Qed.
Lemma parse_hex8 n : is_u32 n -> from_str_radix 32 16 (hex8 n) = Some n.
Proof.
  intros Hn. unfold from_str_radix. pose proof (hex8_value n Hn) as Hv. pose proof (hex8_text n) as Ht.
  unfold hex8 in *. cbn [map] in *. inversion_clear Ht as [|? ? [Hb _] _].
  change (ch "+") with 43. by rewrite (proj2 (Z.eqb_neq _ _)) by lia.
Qed.

Lemma split_parts c a parts :
  Forall (fun b => b <> c) a -> Forall (Forall (fun b => b <> c)) parts ->
  split c (a ++ concat (map (fun p => c :: p) parts)) = (a, parts).
Proof.
  intros Ha Hp. revert a Ha; induction Hp as [|p parts Hp Hps IH]; intros a Ha.
  - cbn [map concat]. rewrite app_nil_r. induction Ha as [|b a Hb Ha IHa]; cbn [split]; [done|].
    rewrite IHa. by rewrite (proj2 (Z.eqb_neq _ _)).
  - induction Ha as [|b a Hb Ha IHa]; cbn [map concat app split].
    + rewrite (IH p Hp). by rewrite Z.eqb_refl.
    + cbn [map concat app] in IHa. rewrite IHa. by rewrite (proj2 (Z.eqb_neq _ _)).
Qed.

Section texts.
Context `{BitcoinLaws}.

Lemma parse_path_display path : parse_path (map child_display path) = Ok path.
Proof. induction path as [|c path IH]; cbn [map parse_path]; [done|]. rewrite child_parse. mstep. by rewrite IH. Qed.

Lemma display_origin_split o :
  display_origin o = hex8 (fingerprint o) ++ concat (map (fun p => ch "/" :: p) (map child_display (derivation_path o))).
Proof. unfold display_origin. by rewrite map_map. Qed.

Lemma parse_origin_display o : is_u32 (fingerprint o) -> parse_origin (display_origin o) = Ok o.
Proof.
  intros Ho. unfold parse_origin. rewrite bool_decide_eq_false_2 by done. mstep.
  rewrite display_origin_split, split_parts.
  - change (length (hex8 (fingerprint o)) =? 8)%nat with true. mstep. rewrite parse_hex8 by done. mstep. rewrite parse_path_display. mstep.
    by destruct o.
  - eapply Forall_impl; [apply hex8_text|]. cbv beta. intros b [Hb _]. change (ch "/") with 47. lia.
  - apply Forall_map, Forall_true. intros c. eapply Forall_impl; [apply child_text|]. by intros b (_ & Hb & _).
Qed.

Lemma origin_text o : Forall (fun b => 0 <= b < 128 /\ b <> ch "]") (display_origin o).
Proof.
  unfold display_origin. apply Forall_app; split.
  - eapply Forall_impl; [apply hex8_text|]. cbv beta. intros b [Hb Hn]. split; [lia|done].
  - induction (derivation_path o) as [|c path IH]; cbn [map concat]; [constructor|].
    apply Forall_app; split; [|done]. constructor; [by split|]. eapply Forall_impl; [apply child_text|].
    by intros b (Hb & _ & Hn).
Qed.

(** The text of a key, with its origin or without, is parsed to the key. *)
Theorem key_information_round_trip k :
  match origin_info k with None => True | Some o => is_u32 (fingerprint o) end ->
  parse_info (display_info k) = Ok k.
Proof.
  destruct (xpub_text (pubkey k)) as (Hx & b & s & Hbs & Hb). unfold parse_info, display_info.
  destruct k as [x [o|]]; cbn [origin_info pubkey] in *; intros Ho.
  - rewrite bool_decide_eq_false_2 by done. mstep. rewrite starts_with_app.
    pose proof (origin_text o) as Ht. assert (ascii_ok (display_origin o)) as Ha.
    { eapply Forall_impl; [exact Ht|]. by intros c [Hc _]. }
    rewrite (app_assoc (lit "[") (display_origin o)).
    assert (find (ch "]") ((lit "[" ++ display_origin o) ++ lit "]" ++ xpub_display x) = Some (length (lit "[" ++ display_origin o))) as ->.
    { apply position_app; [|done]. constructor; [done|]. eapply Forall_impl; [exact Ht|]. cbv beta. intros c [_ Hc].
      apply Z.eqb_neq. congruence. }
    mstep. rewrite str_to_app by ascii. mstep. rewrite (str_from_app (lit "[")) by ascii. mstep.
    rewrite parse_origin_display by done. mstep. change 1%nat with (length (lit "]")).
    rewrite str_from_app2 by ascii. mstep. by rewrite xpub_parse.
  - rewrite bool_decide_eq_false_2 by (by rewrite Hbs). mstep.
    replace (starts_with (lit "[") (xpub_display x)) with false.
    2: { rewrite Hbs. change (starts_with (lit "[") (b :: s)) with ((ch "[" =? b) && true).
         by rewrite (proj2 (Z.eqb_neq _ _)) by congruence. }
    mstep. unfold str_from. cbn [is_char_boundary Nat.eqb orb]. mstep. rewrite drop_0, xpub_parse. done.
Qed.
End texts.

(** ** A concrete crate, and examples

    Child numbers and keys are bytes; an integer is its 8 bytes. *)

Definition byte_value (b : Byte.byte) : Z := Z.of_N (Byte.to_N b).
Definition byte_of (z : Z) : Byte.byte := default Byte.x00 (Byte.of_N (Z.to_N z)).
Definition toy_bitcoin : BitcoinCrate := {|
  ChildNumber := Byte.byte;
  child_from := byte_of;
  child_into := byte_value;
  child_display c := decimal (byte_value c);
  child_from_str s := byte_of <$> parse_u32 s;
  Xpub := Byte.byte;
  xpub_encode x := byte_value x :: replicate 77 0;
  xpub_decode s := match s with b :: _ => Some (byte_of b) | [] => None end;
  xpub_display x := lit "x" ++ decimal (byte_value x);
  xpub_from_str s := byte_of <$> parse_u32 (drop 1 s);
  varint_encode n := le_bytes 8 n;
  varint_decode s := if (8 <=? length s)%nat then Ok (le_value (take 8 s), drop 8 s) else Err OtherError;
|}.

Lemma byte_value_range b : 0 <= byte_value b < 256.
Proof. pose proof (Byte.to_N_bounded b). unfold byte_value. lia. Qed.
Lemma byte_of_value b : byte_of (byte_value b) = b.
Proof. unfold byte_of, byte_value. by rewrite N2Z.id, Byte.of_to_N. Qed.
Lemma byte_value_u32 b : is_u32 (byte_value b).
Proof. pose proof (byte_value_range b). unfold is_u. lia. Qed.

#[export] Instance toy_bitcoin_laws : @BitcoinLaws toy_bitcoin.
Proof.
  split; cbn -[parse_u32 decimal le_bytes le_value take drop lit].
  - apply byte_value_u32.
  - apply byte_of_value.
  - intros c. rewrite parse_decimal by apply byte_value_u32. cbn. by rewrite byte_of_value.
  - intros c. eapply Forall_impl; [apply decimal_digits, byte_value_range|]. intros b Hb%is_ascii_digit_true.
    change (ch "/") with 47. change (ch "]") with 93. lia.
  - done.
  - intros x. by rewrite byte_of_value.
  - intros x. change (drop 1 (lit "x" ++ decimal (byte_value x))) with (decimal (byte_value x)).
    rewrite parse_decimal by apply byte_value_u32. cbn. by rewrite byte_of_value.
  - intros x. split; [|by eexists _, _].
    apply ascii_app; [solve_ascii|]. apply decimal_ascii, byte_value_range.
  - intros n rest Hn. pose proof (length_le_bytes 8 n) as Hl.
    change (match length (le_bytes 8 n ++ rest) with S (S (S (S (S (S (S (S _))))))) => true | _ => false end)
      with (8 <=? length (le_bytes 8 n ++ rest))%nat.
    rewrite (proj2 (Nat.leb_le _ _)) by (rewrite length_app; lia).
    rewrite take_app_length', drop_app_length' by done. by rewrite le_value_bytes.
Qed.

Definition toy_key (with_origin : bool) (b : Byte.byte) : @KeyInformation toy_bitcoin :=
  @Build_KeyInformation toy_bitcoin b
    (if with_origin then Some (@Build_KeyOrigin toy_bitcoin 1983014510 [Byte.x30; Byte.x01]) else None).
Definition toy_keys : list (@KeyInformation toy_bitcoin) := [toy_key true Byte.x07; toy_key false Byte.x08].
Definition toy_policy : @WalletPolicy toy_bitcoin :=
  @Build_WalletPolicy toy_bitcoin example_parsed toy_keys (lit example_template).

Lemma toy_policy_ok : @policy_ok toy_bitcoin hex_codec toy_policy.
Proof.
  split.
  - unfold policy_new. change (descriptor_template_raw toy_policy) with (lit example_template).
    by rewrite example_parses.
  - change (utf8_ok (lit example_template) = true). by vm_compute.
  - change (Z.of_nat (length (lit example_template)) <= 4096). by vm_compute.
  - done.
  - repeat constructor; done.
Qed.
Lemma policy_round_trip_witness :
  @deserialize_policy toy_bitcoin hex_codec (@serialize_policy toy_bitcoin toy_policy) = Ok toy_policy.
Proof. apply (@policy_round_trip toy_bitcoin toy_bitcoin_laws hex_codec), toy_policy_ok. Defined.

Lemma to_descriptor_renders_witness :
  @to_descriptor toy_bitcoin hex_codec example_parsed toy_keys true 5 =
    Ok (lit "wsh(andor(pk([7632666e/48/1]x7/1/5),older(12960),and_v(v:pk(x8/3/5),after(7))))").
Proof.
  etransitivity.
  - apply (@to_descriptor_renders toy_bitcoin hex_codec toy_keys true 5 (2 ^ 32) TopLevel example_parsed).
    cbn. unfold key_ok, is_u, MAX_OLDER_AFTER. cbn. intuition lia.
  - by vm_compute.
Defined.

Lemma key_information_round_trip_witness :
  @parse_info toy_bitcoin (lit "[7632666e/48/1]x7") = Ok (toy_key true Byte.x07).
Proof.
  change (lit "[7632666e/48/1]x7") with (@display_info toy_bitcoin (toy_key true Byte.x07)).
  apply (@key_information_round_trip toy_bitcoin toy_bitcoin_laws). by vm_compute.
Defined.
