(* ===== verification/UtcTime.v ===== *)
(** * Dates and durations ([apps/bitcoin/bip388/src/time.rs])

    The texts in which time locks are shown, and their parsers. [None] is [Err tt]. The
    arithmetic on [u32] and [i64] wraps like the release build's. What is shown for a time lock is
    parsed to the time lock, for every 32-bit value: the date of a timestamp, with its time of the
    day unless that is midnight, and the duration in days, hours, minutes and seconds. *)

From S2P Require Import Prelude Text Bip388Print.
From Stdlib Require Import Ascii.

(** [i64] arithmetic. *)
Definition i64 (z : Z) : Z := as_signed 64 (w64 z).
(** Division that truncates, as Rust's. *)
Definition i64_div (a b : Z) : Z := Z.quot a b.

Definition none {A} : outcome unit A := Err tt.
Definition some_or {A} (o : option A) : outcome unit A := ok_or o tt.

(** [str::parse::<i64>]. *)
Definition parse_i64 (s : list Z) : option Z :=
  match s with
  | [] => None
  | b :: rest =>
      if b =? ch "-" then
        match rest with
        | [] => None
        | _ => match digits_value 64 10 0 rest with
               | Some n => if n <=? 2 ^ 63 then Some (- n) else None
               | None => None
               end
        end
      else
        match from_str_radix 64 10 s with
        | Some n => if n <? 2 ^ 63 then Some n else None
        | None => None
        end
  end.

(** [s.splitn(n, c)] for an ASCII character. *)
Fixpoint splitn (n : nat) (c : Z) (s : list Z) : list (list Z) :=
  match n with
  | O => []
  | S O => [s]
  | S n =>
      match find c s with
      | None => [s]
      | Some i => take i s :: splitn n c (drop (i + 1) s)
      end
  end.

Definition is_ascii_whitespace (b : Z) : bool := bool_decide (b ∈ [32; 9; 10; 12; 13]).
(** [s.split_ascii_whitespace()]; [cur] is the word read so far. *)
Fixpoint words (cur s : list Z) : list (list Z) :=
  match s with
  | [] => match cur with [] => [] | _ => [cur] end
  | b :: s =>
      if is_ascii_whitespace b then
        match cur with [] => words [] s | _ => cur :: words [] s end
      else words (cur ++ [b]) s
  end.

(** ** Dates *)

Definition civil_from_days (days : Z) : Z * Z * Z :=
  let z := days + 719468 in
  let era := i64_div (if 0 <=? z then z else z - 146096) 146097 in
  let doe := w32 (z - era * 146097) in
  let yoe := u32_sub (u32_add (u32_sub doe (doe / 1460)) (doe / 36524)) (doe / 146096) / 365 in
  let y := yoe + era * 400 in
  let doy := u32_sub doe (u32_sub (u32_add (u32_mul 365 yoe) (yoe / 4)) (yoe / 100)) in
  let mp := u32_add (u32_mul 5 doy) 2 / 153 in
  let d := u32_add (u32_sub doy (u32_add (u32_mul 153 mp) 2 / 5)) 1 in
  let m := if mp <? 10 then u32_add mp 3 else u32_sub mp 9 in
  let y := if m <=? 2 then y + 1 else y in
  (y, m, d).
Definition format_utc_date (timestamp : Z) : list Z :=
  let days := timestamp / 86400 in
  let time_of_day := timestamp mod 86400 in
  let '(y, m, d) := civil_from_days days in
  let date := padded 4 (decimal y) ++ lit "-" ++ padded 2 (decimal m) ++ lit "-" ++ padded 2 (decimal d) in
  if time_of_day =? 0 then date
  else
    let h := time_of_day / 3600 in
    let min := time_of_day mod 3600 / 60 in
    let sec := time_of_day mod 60 in
    date ++ lit " " ++ padded 2 (decimal h) ++ lit ":" ++ padded 2 (decimal min) ++ lit ":" ++ padded 2 (decimal sec).

Definition days_from_civil (y m d : Z) : Z :=
  let y := if m <=? 2 then i64 (y - 1) else y in
  let era := i64_div (if 0 <=? y then y else i64 (y - 399)) 400 in
  let yoe := w32 (i64 (y - i64 (era * 400))) in
  let doy := u32_sub (u32_add (u32_add (u32_mul 153 (if 2 <? m then u32_sub m 3 else u32_add m 9)) 2 / 5) d) 1 in
  let doe := u32_add (u32_sub (u32_add (u32_mul yoe 365) (yoe / 4)) (yoe / 100)) doy in
  i64 (i64 (i64 (era * 146097) + doe) - 719468).

(** [checked_mul] and [checked_add] of [i64]. *)
Definition i64_checked (z : Z) : option Z := if (- 2 ^ 63 <=? z) && (z <? 2 ^ 63) then Some z else None.

Definition parse_utc_date_to_timestamp (s : list Z) : outcome unit Z :=
  '(date_str, time_str) ← match find (ch " ") s with
                          | Some pos => date ← str_to pos s; time ← str_from (pos + 1) s; Ok (date, Some time)
                          | None => Ok (s, None)
                          end;
  match splitn 3 (ch "-") date_str with
  | [dp0; dp1; dp2] =>
      y ← some_or (parse_i64 dp0);
      m ← some_or (parse_u32 dp1);
      d ← some_or (parse_u32 dp2);
      guard_err ((m <? 1) || (12 <? m) || (d <? 1) || (31 <? d)) tt;;
      time_of_day ← match time_str with
                    | Some t =>
                        match splitn 3 (ch ":") t with
                        | [tp0; tp1; tp2] =>
                            h ← some_or (parse_u32 tp0);
                            min ← some_or (parse_u32 tp1);
                            sec ← some_or (parse_u32 tp2);
                            guard_err ((24 <=? h) || (60 <=? min) || (60 <=? sec)) tt;;
                            Ok (h * 3600 + min * 60 + sec)
                        | _ => none
                        end
                    | None => Ok 0
                    end;
      let days := days_from_civil y m d in
      product ← some_or (i64_checked (days * 86400));
      timestamp ← some_or (i64_checked (product + time_of_day));
      guard_err ((timestamp <? 0) || (u32_max <? timestamp)) tt;;
      guard_err (negb (bool_decide (format_utc_date timestamp = s))) tt;;
      Ok timestamp
  | _ => none
  end.

(** ** Durations *)

(** [parts.join(sep)]. *)
Fixpoint join_with (sep : list Z) (parts : list (list Z)) : list Z :=
  match parts with [] => [] | [p] => p | p :: parts => p ++ sep ++ join_with sep parts end.
Definition duration_part (n : Z) (unit : string) : list (list Z) := if 0 <? n then [decimal n ++ lit unit] else [].
Definition format_seconds (secs : Z) : list Z :=
  let parts := duration_part (secs / 86400) "d" ++ duration_part (secs mod 86400 / 3600) "h" ++
               duration_part (secs mod 3600 / 60) "m" ++ duration_part (secs mod 60) "s" in
  match parts with [] => lit "0s" | _ => join_with (lit " ") parts end.

(** The unit's rank, and its seconds. *)
Definition time_unit (b : Z) : option (Z * Z) :=
  if b =? ch "d" then Some (1, 86400)
  else if b =? ch "h" then Some (2, 3600)
  else if b =? ch "m" then Some (3, 60)
  else if b =? ch "s" then Some (4, 1)
  else None.
Definition u32_checked (z : Z) : option Z := if z <? 2 ^ 32 then Some z else None.
Fixpoint tokens_loop (tokens : list (list Z)) (total last_unit : Z) : outcome unit (Z * Z) :=
  match tokens with
  | [] => Ok (total, last_unit)
  | token :: tokens =>
      unit_byte ← some_or (last token);
      '(unit, factor) ← some_or (time_unit unit_byte);
      guard_err (unit <=? last_unit) tt;;
      num_str ← str_to (length token - 1) token;
      n ← some_or (parse_u32 num_str);
      secs ← some_or (u32_checked (n * factor));
      total ← some_or (u32_checked (total + secs));
      tokens_loop tokens total unit
  end.
Definition parse_relative_time_to_seconds (s : list Z) : outcome unit Z :=
  guard_err (bool_decide (s = [])) tt;;
  '(total, last_unit) ← tokens_loop (words [] s) 0 0;
  guard_err (last_unit =? 0) tt;;
  Ok total.

(** ** The calendar *)

Lemma civil_core doe :
  0 <= doe <= 146096 ->
  let yoe := (doe - doe / 1460 + doe / 36524 - doe / 146096) / 365 in
  let doy := doe - (365 * yoe + yoe / 4 - yoe / 100) in
  0 <= yoe <= 399 /\ 0 <= doy <= 365.
Proof.
  intros H yoe doy. unfold doy. assert (0 <= yoe <= 399) as Hy by (unfold yoe; dlia). split; [done|].
  assert (exists b, yoe / 100 = b /\ 0 <= b <= 3) as (b & Hb & Hb') by (exists (yoe / 100); dlia).
  assert (exists a, doe / 36524 = a /\ 0 <= a <= 4) as (a & Ha & Ha') by (exists (doe / 36524); dlia).
  assert (exists c, doe / 146096 = c /\ 0 <= c <= 1) as (c & Hc & Hc') by (exists (doe / 146096); dlia).
  unfold yoe in *. rewrite Ha, Hb, Hc in *.
  assert (a = 0 \/ a = 1 \/ a = 2 \/ a = 3 \/ a = 4) as [->|[->|[->|[->| ->]]]] by lia;
    assert (b = 0 \/ b = 1 \/ b = 2 \/ b = 3) as [->|[->|[->| ->]]] by lia; dlia.
Qed.

Lemma i64_small z : - 2 ^ 63 <= z < 2 ^ 63 -> i64 z = z.
Proof. intros Hz. unfold i64. by apply (as_signed_wrap 64). Qed.
Lemma u32_add_small a b : 0 <= a + b < 2 ^ 32 -> u32_add a b = a + b.
Proof. apply (wrap_small 32). Qed.
Lemma u32_sub_small a b : 0 <= a - b < 2 ^ 32 -> u32_sub a b = a - b.
Proof. apply (wrap_small 32). Qed.
Lemma u32_mul_small a b : 0 <= a * b < 2 ^ 32 -> u32_mul a b = a * b.
Proof. apply (wrap_small 32). Qed.

(** The date of a day counted from the start of the era [e], the year of which begins in
    March: [mp] is the month. *)
Lemma civil_of_era days era doe :
  days + 719468 = era * 146097 + doe -> 0 <= days <= 49710 -> 0 <= doe <= 146096 ->
  let yoe := (doe - doe / 1460 + doe / 36524 - doe / 146096) / 365 in
  let doy := doe - (365 * yoe + yoe / 4 - yoe / 100) in
  let mp := (5 * doy + 2) / 153 in
  let m := if mp <? 10 then mp + 3 else mp - 9 in
  civil_from_days days =
    (yoe + era * 400 + (if m <=? 2 then 1 else 0), m, doy - (153 * mp + 2) / 5 + 1).
Proof.
  intros He Hd Hdoe yoe doy mp m. destruct (civil_core doe Hdoe) as [Hyoe Hdoy].
  fold yoe in Hyoe, Hdoy. fold doy in Hdoy. unfold civil_from_days.
  rewrite (proj2 (Z.leb_le 0 (days + 719468))) by lia. unfold i64_div. rewrite Z.quot_div_nonneg by lia.
  replace ((days + 719468) / 146097) with era by dlia.
  replace (days + 719468 - era * 146097) with doe by lia. rewrite (w32_small doe) by lia.
  rewrite (u32_sub_small doe (doe / 1460)), (u32_add_small (doe - doe / 1460)),
    (u32_sub_small (doe - doe / 1460 + doe / 36524)) by dlia. fold yoe.
  rewrite (u32_mul_small 365 yoe), (u32_add_small (365 * yoe)), (u32_sub_small (365 * yoe + yoe / 4)) by dlia.
  rewrite (u32_sub_small doe (365 * yoe + yoe / 4 - yoe / 100)) by (fold doy; lia). fold doy.
  rewrite (u32_mul_small 5 doy), (u32_add_small (5 * doy)) by lia. fold mp.
  assert (0 <= mp <= 11) as Hmp by (unfold mp; dlia).
  rewrite (u32_mul_small 153 mp), (u32_add_small (153 * mp)) by lia.
  rewrite (u32_sub_small doy), (u32_add_small (doy - _)), (u32_add_small mp) by (unfold mp; dlia).
  assert ((if mp <? 10 then mp + 3 else u32_sub mp 9) = m) as ->.
  { unfold m. destruct (Z.ltb_spec mp 10); [done|]. by rewrite u32_sub_small by lia. }
  f_equal. f_equal. destruct (m <=? 2); lia.
Qed.

Lemma days_of_era era yoe mp doy :
  0 <= era <= 10 -> 0 <= yoe <= 399 -> 0 <= mp <= 11 -> 0 <= doy <= 365 -> 0 <= doy - (153 * mp + 2) / 5 <= 30 ->
  let m := if mp <? 10 then mp + 3 else mp - 9 in
  days_from_civil (yoe + era * 400 + (if m <=? 2 then 1 else 0)) m (doy - (153 * mp + 2) / 5 + 1) =
    era * 146097 + (yoe * 365 + yoe / 4 - yoe / 100 + doy) - 719468.
Proof.
  intros Hera Hyoe Hmp Hdoy Hd m. unfold days_from_civil.
  assert (1 <= m <= 12) as Hm by (unfold m; destruct (Z.ltb_spec mp 10); lia).
  assert ((if m <=? 2 then i64 (yoe + era * 400 + (if m <=? 2 then 1 else 0) - 1)
           else yoe + era * 400 + (if m <=? 2 then 1 else 0)) = yoe + era * 400) as ->.
  { destruct (m <=? 2); [rewrite i64_small by lia|]; lia. }
  rewrite (proj2 (Z.leb_le 0 (yoe + era * 400))) by lia. unfold i64_div. rewrite Z.quot_div_nonneg by lia.
  replace ((yoe + era * 400) / 400) with era by dlia. rewrite (i64_small (era * 400)) by lia.
  rewrite (i64_small (yoe + era * 400 - era * 400)) by lia. rewrite w32_small by lia.
  replace (yoe + era * 400 - era * 400) with yoe by lia.
  assert ((if 2 <? m then u32_sub m 3 else u32_add m 9) = mp) as ->.
  { unfold m. destruct (Z.ltb_spec mp 10).
    - rewrite (proj2 (Z.ltb_lt 2 _)), u32_sub_small by lia. lia.
    - rewrite (proj2 (Z.ltb_ge 2 _)), u32_add_small by lia. lia. }
  rewrite (u32_mul_small 153), (u32_add_small (153 * mp)) by lia.
  rewrite (u32_add_small ((153 * mp + 2) / 5)) by lia.
  rewrite (u32_sub_small ((153 * mp + 2) / 5 + _)) by lia.
  replace ((153 * mp + 2) / 5 + (doy - (153 * mp + 2) / 5 + 1) - 1) with doy by lia.
  rewrite (u32_mul_small yoe), (u32_add_small (yoe * 365)), (u32_sub_small (yoe * 365 + _)), (u32_add_small _ doy) by dlia.
  rewrite (i64_small (era * 146097)) by lia. rewrite (i64_small (era * 146097 + _)) by dlia. apply i64_small. dlia.
Qed.

(** Every day of the timestamps has a date, from which the day is computed. *)
Lemma date_of_day days :
  0 <= days <= 49710 ->
  exists y m d, civil_from_days days = (y, m, d) /\ 1600 <= y <= 2400 /\ 1 <= m <= 12 /\ 1 <= d <= 31 /\
    days_from_civil y m d = days.
Proof.
  intros Hd. set (era := (days + 719468) / 146097). set (doe := (days + 719468) mod 146097).
  assert (days + 719468 = era * 146097 + doe) as He by (unfold era, doe; dlia).
  assert (0 <= doe <= 146096) as Hdoe by (unfold doe; dlia). assert (4 <= era <= 5) as Hera by (unfold era; dlia).
  pose proof (civil_of_era days era doe He Hd Hdoe) as Hc. destruct (civil_core doe Hdoe) as [Hyoe Hdoy].
  cbv zeta in Hc, Hyoe, Hdoy. set (yoe := (doe - doe / 1460 + doe / 36524 - doe / 146096) / 365) in *.
  set (doy := doe - (365 * yoe + yoe / 4 - yoe / 100)) in *. set (mp := (5 * doy + 2) / 153) in *.
  assert (0 <= mp <= 11) as Hmp by (unfold mp; dlia).
  assert (0 <= doy - (153 * mp + 2) / 5 <= 30) as Hday by (unfold mp; dlia).
  eexists _, _, _. split; [exact Hc|].
  split; [destruct (_ <=? 2); lia|]. split; [destruct (Z.ltb_spec mp 10); lia|]. split; [lia|].
  rewrite (days_of_era era yoe mp doy) by (lia || done). unfold doy. lia.
Qed.

(** ** Texts of numbers *)

Definition digits (s : list Z) : Prop := Forall (fun b => is_ascii_digit b = true) s.

Lemma padded_digits k n : 0 <= n -> digits (padded k (decimal n)).
Proof. intros Hn. apply Forall_app; split; [by apply Forall_replicate|by apply decimal_digits]. Qed.
Lemma digits_ascii s : digits s -> ascii_ok s.
Proof. intros Hs. eapply Forall_impl; [exact Hs|]. intros b Hb%is_ascii_digit_true. lia. Qed.

Lemma padded_value w k n :
  0 <= w -> 0 <= n < 2 ^ w -> n < 10 ^ 20 -> digits_value w 10 0 (padded k (decimal n)) = Some n.
Proof.
  intros Hw Hn H20. unfold padded. induction (k - length (decimal n))%nat as [|j IH]; cbn [replicate app].
  - by apply decimal_loop_value; [|change (Z.of_nat 20) with 20|lia].
  - cbn [digits_value]. change (digit_value 10 48) with (Some 0). cbv iota beta. by rewrite (proj2 (Z.ltb_lt _ _)) by lia.
Qed.
Lemma padded_cons k n : is_u32 n -> exists b s, padded k (decimal n) = b :: s /\ is_ascii_digit b = true.
Proof.
  intros Hn. destruct (decimal_cons n Hn) as (b & s & E & Hb & _). unfold padded.
  destruct (k - length (decimal n))%nat; cbn [replicate app]; [|by eexists _, _].
  rewrite E. eexists _, _. split; [done|by apply is_ascii_digit_true].
Qed.
Lemma parse_padded w k n :
  0 <= w -> is_u32 n -> n < 2 ^ w -> from_str_radix w 10 (padded k (decimal n)) = Some n.
Proof.
  intros Hw Hn Hlt. unfold is_u in *. destruct (padded_cons k n Hn) as (b & s & E & Hb%is_ascii_digit_true).
  pose proof (padded_value w k n Hw ltac:(lia) ltac:(lia)) as Hv. rewrite E in *. unfold from_str_radix.
  change (ch "+") with 43. by rewrite (proj2 (Z.eqb_neq _ _)) by lia.
Qed.
Lemma parse_u32_padded k n : is_u32 n -> parse_u32 (padded k (decimal n)) = Some n.
Proof. intros Hn. apply parse_padded; [lia|done|apply Hn]. Qed.
Lemma parse_i64_padded k n : is_u32 n -> parse_i64 (padded k (decimal n)) = Some n.
Proof.
  intros Hn. pose proof (parse_padded 64 k n ltac:(lia) Hn ltac:(unfold is_u in Hn; lia)) as Hp.
  destruct (padded_cons k n Hn) as (b & s & E & Hb%is_ascii_digit_true). rewrite E in *. unfold parse_i64.
  change (ch "-") with 45. rewrite (proj2 (Z.eqb_neq _ _)) by lia. rewrite Hp. unfold is_u in Hn.
  by rewrite (proj2 (Z.ltb_lt _ _)) by lia.
Qed.

(** Digits have none of the separators. *)
Lemma digits_no c s : digits s -> is_ascii_digit c = false -> Forall (fun b => (c =? b) = false) s.
Proof.
  intros Hs Hc. eapply Forall_impl; [exact Hs|]. intros b Hb. apply Z.eqb_neq. intros ->. congruence.
Qed.

Lemma drop_separator {A} (a : list A) c rest : drop (length a + 1) (a ++ c :: rest) = rest.
Proof.
  change (a ++ c :: rest) with (a ++ [c] ++ rest). rewrite app_assoc.
  apply drop_app_length'. by rewrite length_app.
Qed.
Lemma splitn_parts c a b d :
  Forall (fun x => (c =? x) = false) a -> Forall (fun x => (c =? x) = false) b ->
  splitn 3 c (a ++ c :: b ++ c :: d) = [a; b; d].
Proof.
  intros Ha Hb. cbn [splitn]. unfold find. rewrite (position_app _ a c) by (done || apply Z.eqb_refl).
  rewrite take_app_length, drop_separator, (position_app _ b c) by (done || apply Z.eqb_refl).
  by rewrite take_app_length, drop_separator.
Qed.

(** ** The round trip of dates *)

Definition date_text (y m d : Z) : list Z :=
  padded 4 (decimal y) ++ lit "-" ++ padded 2 (decimal m) ++ lit "-" ++ padded 2 (decimal d).
Definition clock_text (h min sec : Z) : list Z :=
  padded 2 (decimal h) ++ lit ":" ++ padded 2 (decimal min) ++ lit ":" ++ padded 2 (decimal sec).

Lemma date_parts y m d :
  0 <= y -> 0 <= m ->
  splitn 3 (ch "-") (date_text y m d) = [padded 4 (decimal y); padded 2 (decimal m); padded 2 (decimal d)].
Proof. intros Hy Hm. apply (splitn_parts (ch "-")); apply digits_no; (done || by apply padded_digits). Qed.
Lemma clock_parts h min sec :
  0 <= h -> 0 <= min ->
  splitn 3 (ch ":") (clock_text h min sec) = [padded 2 (decimal h); padded 2 (decimal min); padded 2 (decimal sec)].
Proof. intros Hh Hmin. apply (splitn_parts (ch ":")); apply digits_no; (done || by apply padded_digits). Qed.

Lemma Forall_three {A} (P : A -> Prop) a b c sep :
  Forall P a -> Forall P b -> Forall P c -> Forall P sep -> Forall P (a ++ sep ++ b ++ sep ++ c).
Proof. intros. by repeat (apply Forall_app_2; [done|]). Qed.
Lemma date_no_space y m d : 0 <= y -> 0 <= m -> 0 <= d -> Forall (fun b => (ch " " =? b) = false) (date_text y m d).
Proof. intros. apply Forall_three; try (apply digits_no; [by apply padded_digits|done]). by repeat constructor. Qed.
Lemma date_ascii y m d : 0 <= y -> 0 <= m -> 0 <= d -> ascii_ok (date_text y m d).
Proof. intros. apply Forall_three; try by apply digits_ascii, padded_digits. solve_ascii. Qed.
Lemma clock_ascii h min sec : 0 <= h -> 0 <= min -> 0 <= sec -> ascii_ok (clock_text h min sec).
Proof. intros. apply Forall_three; try by apply digits_ascii, padded_digits. solve_ascii. Qed.

(** The end of the parser, once the fields are read. *)
Lemma finish_date s days tod t :
  0 <= days -> 0 <= tod -> t = days * 86400 + tod -> is_u32 t -> format_utc_date t = s ->
  (product ← some_or (i64_checked (days * 86400));
   timestamp ← some_or (i64_checked (product + tod));
   guard_err ((timestamp <? 0) || (u32_max <? timestamp)) tt;;
   guard_err (negb (bool_decide (format_utc_date timestamp = s))) tt;;
   Ok timestamp) = Ok t.
Proof.
  intros Hd Htod Ht Hu Hs. unfold is_u in Hu. unfold i64_checked, some_or.
  rewrite (proj2 (Z.leb_le _ (days * 86400))), (proj2 (Z.ltb_lt (days * 86400) _)) by lia. cbn [andb]. mstep.
  rewrite <- Ht, (proj2 (Z.leb_le _ t)), (proj2 (Z.ltb_lt t _)) by lia. cbn [andb]. mstep.
  unfold u32_max. rewrite (proj2 (Z.ltb_ge t 0)), (proj2 (Z.ltb_ge _ t)) by lia. cbn [andb orb]. mstep.
  by rewrite bool_decide_eq_true_2.
Qed.

Section parse.
Context (y m d t : Z) (Hy : 1600 <= y <= 2400) (Hm : 1 <= m <= 12) (Hd : 1 <= d <= 31) (Ht : is_u32 t).
Context (Hdays : 0 <= days_from_civil y m d).

Ltac date_fields :=
  rewrite date_parts by lia;
  rewrite parse_i64_padded, !parse_u32_padded by (unfold is_u; lia); mstep;
  rewrite (proj2 (Z.ltb_ge m 1)), (proj2 (Z.ltb_ge 12 m)), (proj2 (Z.ltb_ge d 1)), (proj2 (Z.ltb_ge 31 d)) by lia; cbn [orb]; mstep.

Lemma parse_date :
  t = days_from_civil y m d * 86400 -> format_utc_date t = date_text y m d ->
  parse_utc_date_to_timestamp (date_text y m d) = Ok t.
Proof.
  intros Heq Hf. unfold parse_utc_date_to_timestamp, find at 1.
  rewrite position_all_false by (apply date_no_space; lia). mstep. unfold some_or. date_fields.
  apply finish_date; try done; lia.
Qed.

Lemma parse_date_clock h min sec :
  0 <= h < 24 -> 0 <= min < 60 -> 0 <= sec < 60 ->
  t = days_from_civil y m d * 86400 + (h * 3600 + min * 60 + sec) ->
  format_utc_date t = date_text y m d ++ lit " " ++ clock_text h min sec ->
  parse_utc_date_to_timestamp (date_text y m d ++ lit " " ++ clock_text h min sec) = Ok t.
Proof.
  intros Hh Hmin Hsec Heq Hf. pose proof (date_ascii y m d ltac:(lia) ltac:(lia) ltac:(lia)) as Ha.
  pose proof (clock_ascii h min sec ltac:(lia) ltac:(lia) ltac:(lia)) as Hb.
  unfold parse_utc_date_to_timestamp, find at 1.
  assert (position (Z.eqb (ch " ")) (date_text y m d ++ lit " " ++ clock_text h min sec) = Some (length (date_text y m d))) as ->.
  { apply position_app; [apply date_no_space; lia|done]. }
  mstep.
  rewrite str_to_app by ascii. mstep. rewrite (str_from_app2 (date_text y m d) (lit " ")) by ascii. mstep.
  unfold some_or. date_fields. rewrite clock_parts by lia.
  rewrite !parse_u32_padded by (unfold is_u; lia). mstep.
  rewrite (proj2 (Z.leb_gt 24 h)), (proj2 (Z.leb_gt 60 min)), (proj2 (Z.leb_gt 60 sec)) by lia. cbn [orb]. mstep.
  apply finish_date; try done; lia.
Qed.
End parse.

(** The text of a timestamp is parsed to the timestamp. *)
Theorem utc_date_round_trip t : is_u32 t -> parse_utc_date_to_timestamp (format_utc_date t) = Ok t.
Proof.
  intros Ht. pose proof Ht as Hu. unfold is_u in Hu. change (2 ^ 32) with 4294967296 in Hu.
  destruct (date_of_day (t / 86400)) as (y & m & d & Hc & Hy & Hm & Hd & Hdays); [dlia|].
  assert (0 <= days_from_civil y m d) by (rewrite Hdays; dlia).
  pose proof (eq_refl (format_utc_date t)) as Hf. unfold format_utc_date in Hf at 2. rewrite Hc in Hf.
  destruct (Z.eqb_spec (t mod 86400) 0).
  - rewrite Hf. apply parse_date; (done || (rewrite Hdays; dlia)).
  - assert (format_utc_date t = date_text y m d ++ lit " " ++
      clock_text (t mod 86400 / 3600) (t mod 86400 mod 3600 / 60) (t mod 86400 mod 60)) as Hf'.
    { rewrite Hf. unfold date_text, clock_text. by rewrite <- !app_assoc. }
    rewrite Hf'. apply parse_date_clock; try done; try dlia; rewrite Hdays; dlia.
Qed.

Lemma utc_date_round_trip_witness :
  parse_utc_date_to_timestamp (lit "2106-02-07 06:28:15") = Ok 4294967295.
Proof.
  change (lit "2106-02-07 06:28:15") with (id (lit "2106-02-07 06:28:15")).
  replace (id (lit "2106-02-07 06:28:15")) with (format_utc_date 4294967295) by by vm_compute.
  by apply utc_date_round_trip.
Defined.

(** ** Durations *)

Definition word_ok (w : list Z) : Prop := w <> [] /\ Forall (fun b => is_ascii_whitespace b = false) w.

Lemma words_app cur w s :
  Forall (fun b => is_ascii_whitespace b = false) w -> words cur (w ++ s) = words (cur ++ w) s.
Proof.
  intros Hw. revert cur. induction Hw as [|b w Hb Hw IH]; intros cur; cbn [app]; [by rewrite app_nil_r|].
  cbn [words]. rewrite Hb, IH. by rewrite <- app_assoc.
Qed.
Lemma words_join parts : Forall word_ok parts -> words [] (join_with (lit " ") parts) = parts.
Proof.
  induction 1 as [|p parts [Hn Hp] Hps IH]; [done|]. destruct parts as [|q parts].
  - cbn [join_with]. rewrite <- (app_nil_r p) at 1. rewrite words_app by done. cbn. by destruct p.
  - change (join_with (lit " ") (p :: q :: parts)) with (p ++ lit " " ++ join_with (lit " ") (q :: parts)).
    rewrite words_app by done. cbn [app]. change (lit " " ++ ?s) with (ch " " :: s).
    cbn [words]. change (is_ascii_whitespace (ch " ")) with true. cbv iota. destruct p; [done|]. by rewrite IH.
Qed.

Lemma digits_no_whitespace s : digits s -> Forall (fun b => is_ascii_whitespace b = false) s.
Proof.
  intros Hs. eapply Forall_impl; [exact Hs|]. intros b Hb%is_ascii_digit_true. unfold is_ascii_whitespace.
  apply bool_decide_eq_false_2. rewrite !elem_of_cons, elem_of_nil. lia.
Qed.

(** A unit, its rank and its seconds. *)
Definition is_unit (u : string) (rank factor : Z) : Prop :=
  exists b, lit u = [b] /\ time_unit b = Some (rank, factor) /\ 0 <= b < 128 /\ is_ascii_whitespace b = false.

Lemma part_words n u rank factor : is_unit u rank factor -> 0 <= n -> Forall word_ok (duration_part n u).
Proof.
  intros (b & Hu & _ & _ & Hb) Hn. unfold duration_part. destruct (0 <? n); [|constructor].
  apply Forall_singleton. rewrite Hu. split; [by destruct (decimal n)|].
  apply Forall_app; split; [apply digits_no_whitespace, decimal_digits, Hn|by apply Forall_singleton].
Qed.

Lemma tokens_part n u rank factor tokens total last_unit :
  is_unit u rank factor -> is_u32 n -> 0 <= total -> 0 < factor -> total + n * factor < 2 ^ 32 -> last_unit < rank ->
  tokens_loop (duration_part n u ++ tokens) total last_unit =
    tokens_loop tokens (total + n * factor) (if 0 <? n then rank else last_unit).
Proof.
  intros (b & Hu & Hb & Hb7 & _) Hn Ht Hf Hlt Hr. unfold duration_part. pose proof Hn as [Hn0 Hn1].
  destruct (Z.ltb_spec 0 n) as [Hpos|]; [|cbn [app]; f_equal; lia].
  cbn [app tokens_loop]. rewrite Hu, last_snoc. unfold some_or. mstep. rewrite Hb. mstep.
  rewrite (proj2 (Z.leb_gt rank last_unit)) by lia. mstep.
  rewrite length_app. cbn [length]. rewrite Nat.add_sub.
  rewrite str_to_app by (apply ascii_app; [by apply decimal_ascii|by apply Forall_singleton]). mstep.
  rewrite parse_decimal by done. mstep. unfold u32_checked.
  rewrite (proj2 (Z.ltb_lt (n * factor) _)) by nia. mstep. by rewrite (proj2 (Z.ltb_lt (total + _) _)) by lia.
Qed.

(** The text of a duration is parsed to the number of seconds. *)
Theorem duration_round_trip t : is_u32 t -> parse_relative_time_to_seconds (format_seconds t) = Ok t.
Proof.
  intros Ht. pose proof Ht as [H0 H1]. change (2 ^ 32) with 4294967296 in *.
  assert (is_unit "d" 1 86400 /\ is_unit "h" 2 3600 /\ is_unit "m" 3 60 /\ is_unit "s" 4 1) as (Ud & Uh & Um & Us).
  { repeat split; eexists; (split; [reflexivity|]); by vm_compute. }
  unfold format_seconds.
  set (days := t / 86400). set (hours := t mod 86400 / 3600). set (mins := t mod 3600 / 60). set (secs := t mod 60).
  assert (is_u32 days /\ is_u32 hours /\ is_u32 mins /\ is_u32 secs) as (Hd & Hh & Hm & Hs).
  { unfold is_u, days, hours, mins, secs. change (2 ^ 32) with 4294967296. repeat split; dlia. }
  assert (t = days * 86400 + hours * 3600 + mins * 60 + secs) as Hsum by (unfold days, hours, mins, secs; dlia).
  set (parts := duration_part days "d" ++ _).
  assert (Forall word_ok parts) as Hwords.
  { repeat apply Forall_app_2; eapply part_words; (eassumption || apply Hd || apply Hh || apply Hm || apply Hs). }
  assert (tokens_loop parts 0 0 = Ok (t, if 0 <? secs then 4 else if 0 <? mins then 3 else
    if 0 <? hours then 2 else if 0 <? days then 1 else 0)) as Htok.
  { unfold parts, is_u in *. rewrite (tokens_part _ _ _ _ _ _ _ Ud) by (unfold is_u; lia).
    rewrite (tokens_part _ _ _ _ _ _ _ Uh) by (unfold is_u; try lia; destruct (0 <? days); lia).
    rewrite (tokens_part _ _ _ _ _ _ _ Um) by (unfold is_u; try lia; destruct (0 <? hours), (0 <? days); lia).
    rewrite <- (app_nil_r (duration_part secs "s")).
    rewrite (tokens_part _ _ _ _ _ _ _ Us) by (unfold is_u; try lia; destruct (0 <? mins), (0 <? hours), (0 <? days); lia).
    cbn [tokens_loop]. do 2 f_equal. lia. }
  assert (days <= 0 -> hours <= 0 -> mins <= 0 -> secs <= 0 -> parts = []) as Hnil.
  { intros. unfold parts, duration_part. by rewrite !(proj2 (Z.ltb_ge 0 _)) by done. }
  clearbody parts. destruct parts as [|p parts]; [|set (text := join_with _ _)].
  { injection Htok as Hz _. rewrite <- Hz. by vm_compute. }
  unfold parse_relative_time_to_seconds. rewrite bool_decide_eq_false_2.
  2: { unfold text. apply Forall_cons in Hwords as [[Hne _] _]. destruct parts; cbn [join_with]; [done|].
       by destruct p. }
  mstep. unfold text. rewrite words_join by done. rewrite Htok. mstep.
  destruct (Z.ltb_spec 0 secs), (Z.ltb_spec 0 mins), (Z.ltb_spec 0 hours), (Z.ltb_spec 0 days); cbn [Z.eqb guard_err]; try done.
  by discriminate Hnil.
Qed.

Lemma duration_round_trip_witness :
  parse_relative_time_to_seconds (lit "49710d 6h 28m 15s") = Ok 4294967295.
Proof.
  change (lit "49710d 6h 28m 15s") with (id (lit "49710d 6h 28m 15s")).
  replace (id (lit "49710d 6h 28m 15s")) with (format_seconds 4294967295) by by vm_compute.
  by apply duration_round_trip.
Defined.
