(* ===== verification/Psbt.v ===== *)
(** * PSBTs ([apps/bitcoin/common/src/fastpsbt.rs])

    The parser of partially signed transactions of version 2, the lookups in their maps, the
    transaction that they describe and the message to sign of an input. A closure that
    captures variables is a function on their values; the captured variables of a parse that
    fails are gone. [usize] has 32 bits, as on the device.

    What the [bitcoin] crate does is the class [SighashCrate]: the classification of scripts,
    the decoding of transactions and the signature hashes. *)

From S2P Require Import Prelude.

Definition usize_max : Z := 2 ^ 32 - 1.

Inductive PsbtError : Type :=
| InvalidMagic | UnexpectedEof | InvalidCompactSize | MapTerminatorMissing | DuplicateKey
| UnsortedKeys | BadValue | MissingCounts | MissingOutputIndex | MissingRedeemScript
| MissingWitnessScript | CountsTooLarge | NotAllowed | OutOfRange | UnknownOutputType | Unsupported.

(** ** The cursor *)

Record Cursor : Type := { buf : list Z; pos : Z }.
Definition remaining (c : Cursor) : Z := sat_sub (Z.of_nat (length (buf c))) (pos c).

(** [&s[start..end]]. *)
Definition range (start end_ : Z) (s : list Z) : outcome PsbtError (list Z) :=
  if (start <=? end_) && (end_ <=? Z.of_nat (length s)) then
    Ok (slice (Z.to_nat start) (Z.to_nat (end_ - start)) s)
  else Panic.

Definition cursor_take (n : Z) : ST Cursor PsbtError (list Z) :=
  r ← gets remaining;
  if r <? n then fail UnexpectedEof
  else
    start ← gets pos;
    modify (fun c => {| buf := buf c; pos := pos c + n |});;
    b ← gets buf;
    lift (range start (start + n) b).

Definition read_compact_size : ST Cursor PsbtError Z :=
  s ← cursor_take 1;
  b ← lift (unwrap (head s));
  if b <=? 252 then mret b
  else if b =? 253 then s ← cursor_take 2; mret (le_value s)
  else if b =? 254 then s ← cursor_take 4; mret (le_value s)
  else s ← cursor_take 8; mret (le_value s).

Definition read_len_prefixed : ST Cursor PsbtError (list Z) :=
  len ← read_compact_size;
  r ← gets remaining;
  if (len <=? usize_max) && (len <=? r) then cursor_take len else fail UnexpectedEof.

Definition u64_from_compact_size (data : list Z) : outcome PsbtError Z :=
  let '(res, cur) := read_compact_size {| buf := data; pos := 0 |} in
  if 0 <? remaining cur then Err InvalidCompactSize else res.

(** ** Maps *)

Record MapPair : Type := { key_type : Z; key_data : list Z; value : list Z }.
Record ParsedMap : Type := { pairs : list MapPair }.

(** The order of slices of bytes, and [Ordering::then_with]. *)
Fixpoint cmp_bytes (a b : list Z) : comparison :=
  match a, b with
  | [], [] => Eq
  | [], _ :: _ => Lt
  | _ :: _, [] => Gt
  | x :: a, y :: b => match x ?= y with Eq => cmp_bytes a b | c => c end
  end.
Definition then_with (c d : comparison) : comparison := match c with Eq => d | _ => c end.
Definition is_lt (c : comparison) : bool := match c with Lt => true | _ => false end.
Definition is_eq (c : comparison) : bool := match c with Eq => true | _ => false end.

Definition check_order (last : option MapPair) (key_type' : Z) (key_data' : list Z) : outcome PsbtError unit :=
  match last with
  | None => Ok tt
  | Some last =>
      guard_err ((key_type' <? key_type last) ||
                 ((key_type' =? key_type last) && is_lt (cmp_bytes key_data' (key_data last)))) UnsortedKeys;;
      guard_err ((key_type' =? key_type last) && is_eq (cmp_bytes key_data' (key_data last))) DuplicateKey
  end.

(** The loop of [from_cursor] consumes at least a byte per turn: [from_cursor] has the bytes
    that remain as fuel. [f] handles a pair, given the variables that it captures. *)
Section from_cursor.
Context {T : Type} (f : MapPair -> T -> outcome PsbtError T).

Fixpoint from_cursor_loop (fuel : nat) (pairs : list MapPair) (t : T) :
    ST Cursor PsbtError (ParsedMap * T) :=
  match fuel with
  | O => diverge
  | S fuel =>
      key_len ← read_compact_size;
      if key_len =? 0 then mret ({| pairs := pairs |}, t)
      else
        lift (guard_err (usize_max <? key_len) InvalidCompactSize);;
        key_full ← cursor_take key_len;
        key_type ← lift (unwrap (head key_full));
        let key_data := drop 1 key_full in
        lift (check_order (last pairs) key_type key_data);;
        value ← read_len_prefixed;
        let pair := {| key_type := key_type; key_data := key_data; value := value |} in
        t ← lift (f pair t);
        from_cursor_loop fuel (pairs ++ [pair]) t
  end.
Definition from_cursor (t : T) : ST Cursor PsbtError (ParsedMap * T) :=
  r ← gets remaining;
  from_cursor_loop (S (Z.to_nat r)) [] t.
End from_cursor.

(** [slice::binary_search_by] of the standard library; [f] compares an element with what is
    looked for. The loop halves [size], which is its fuel. [partition_point] is the library's
    search for the first element that does not satisfy [p]. *)
Section search.
Context {A : Type}.

Fixpoint search_loop (f : A -> comparison) (l : list A) (fuel size base : nat) : nat :=
  match fuel with
  | O => base
  | S fuel =>
      if (1 <? size)%nat then
        let half := (size / 2)%nat in
        let mid := (base + half)%nat in
        let base := match f <$> l !! mid with Some Gt => base | _ => mid end in
        search_loop f l fuel (size - half) base
      else base
  end.
Definition binary_search_by (f : A -> comparison) (l : list A) : nat + nat :=
  match l with
  | [] => inr 0%nat
  | _ =>
      let base := search_loop f l (length l) (length l) 0 in
      match f <$> l !! base with
      | Some Eq => inl base
      | Some Lt => inr (S base)
      | _ => inr base
      end
  end.
Definition partition_point (p : A -> bool) (l : list A) : nat :=
  match binary_search_by (fun x => if p x then Lt else Gt) l with inl i | inr i => i end.
End search.

Definition cmp_key (t : Z) (d : list Z) (p : MapPair) : comparison :=
  then_with (key_type p ?= t) (cmp_bytes (key_data p) d).
Definition map_get (m : ParsedMap) (t : Z) (d : list Z) : option (list Z) :=
  match binary_search_by (cmp_key t d) (pairs m) with
  | inl idx => value <$> pairs m !! idx
  | inr _ => None
  end.
Definition map_iter_keys (m : ParsedMap) (t : Z) : list MapPair :=
  let start := partition_point (fun p => key_type p <? t) (pairs m) in
  let end_ := (start + partition_point (fun p => Z.eqb (key_type p) t) (drop start (pairs m)))%nat in
  slice start (end_ - start) (pairs m).
Definition iter_keys (m : ParsedMap) (t : Z) : list (list Z * list Z) :=
  map (fun p => (key_data p, value p)) (map_iter_keys m t).

(** ** Fields *)

Definition PSBT_GLOBAL_UNSIGNED_TX : Z := 0x00.
Definition PSBT_GLOBAL_TX_VERSION : Z := 0x02.
Definition PSBT_GLOBAL_FALLBACK_LOCKTIME : Z := 0x03.
Definition PSBT_GLOBAL_INPUT_COUNT : Z := 0x04.
Definition PSBT_GLOBAL_OUTPUT_COUNT : Z := 0x05.
Definition PSBT_GLOBAL_TX_MODIFIABLE : Z := 0x06.
Definition PSBT_GLOBAL_VERSION : Z := 0xFB.
Definition PSBT_IN_NON_WITNESS_UTXO : Z := 0x00.
Definition PSBT_IN_WITNESS_UTXO : Z := 0x01.
Definition PSBT_IN_SIGHASH_TYPE : Z := 0x03.
Definition PSBT_IN_REDEEM_SCRIPT : Z := 0x04.
Definition PSBT_IN_WITNESS_SCRIPT : Z := 0x05.
Definition PSBT_IN_BIP32_DERIVATION : Z := 0x06.
Definition PSBT_IN_FINAL_SCRIPTSIG : Z := 0x07.
Definition PSBT_IN_FINAL_SCRIPTWITNESS : Z := 0x08.
Definition PSBT_IN_PREVIOUS_TXID : Z := 0x0E.
Definition PSBT_IN_OUTPUT_INDEX : Z := 0x0F.
Definition PSBT_IN_SEQUENCE : Z := 0x10.
Definition PSBT_IN_REQUIRED_TIME_LOCKTIME : Z := 0x11.
Definition PSBT_IN_REQUIRED_HEIGHT_LOCKTIME : Z := 0x12.
Definition PSBT_IN_MUSIG2_PARTICIPANT_PUBKEYS : Z := 0x1A.
Definition PSBT_IN_MUSIG2_PUB_NONCE : Z := 0x1B.
Definition PSBT_IN_MUSIG2_PARTIAL_SIG : Z := 0x1C.
Definition PSBT_OUT_REDEEM_SCRIPT : Z := 0x00.
Definition PSBT_OUT_WITNESS_SCRIPT : Z := 0x01.
Definition PSBT_OUT_BIP32_DERIVATION : Z := 0x02.
Definition PSBT_OUT_AMOUNT : Z := 0x03.
Definition PSBT_OUT_SCRIPT : Z := 0x04.
Definition PSBT_OUT_MUSIG2_PARTICIPANT_PUBKEYS : Z := 0x08.

(** A value that must have [n] bytes: an integer in little-endian order, or the bytes. *)
Definition le_field (n : nat) (v : list Z) : outcome PsbtError Z :=
  if (length v =? n)%nat then Ok (le_value v) else Err BadValue.
Definition bytes_field (n : nat) (v : list Z) : outcome PsbtError (list Z) :=
  if (length v =? n)%nat then Ok v else Err BadValue.

(** What the closure of [Psbt::parse] collects from the global map. *)
Record GlobalFields : Type := {
  psbt_version : option Z;
  g_tx_version : option Z;
  g_fallback_locktime : option Z;
  n_inputs : option Z;
  n_outputs : option Z;
  g_tx_modifiable : option Z
}.
Definition no_global : GlobalFields := Build_GlobalFields None None None None None None.
Definition global_field (pair : MapPair) (g : GlobalFields) : outcome PsbtError GlobalFields :=
  let '(Build_GlobalFields ver txv fb ni no md) := g in
  if negb (bool_decide (key_data pair = [])) then Ok g
  else if key_type pair =? PSBT_GLOBAL_UNSIGNED_TX then Err NotAllowed
  else if key_type pair =? PSBT_GLOBAL_TX_VERSION then
    v ← le_field 4 (value pair); Ok (Build_GlobalFields ver (Some (as_i32 v)) fb ni no md)
  else if key_type pair =? PSBT_GLOBAL_FALLBACK_LOCKTIME then
    v ← le_field 4 (value pair); Ok (Build_GlobalFields ver txv (Some v) ni no md)
  else if key_type pair =? PSBT_GLOBAL_INPUT_COUNT then
    v ← u64_from_compact_size (value pair); Ok (Build_GlobalFields ver txv fb (Some v) no md)
  else if key_type pair =? PSBT_GLOBAL_OUTPUT_COUNT then
    v ← u64_from_compact_size (value pair); Ok (Build_GlobalFields ver txv fb ni (Some v) md)
  else if key_type pair =? PSBT_GLOBAL_TX_MODIFIABLE then
    v ← le_field 1 (value pair); Ok (Build_GlobalFields ver txv fb ni no (Some v))
  else if key_type pair =? PSBT_GLOBAL_VERSION then
    v ← le_field 4 (value pair); Ok (Build_GlobalFields (Some v) txv fb ni no md)
  else Ok g.

Record InputFields : Type := {
  non_witness_utxo : option (list Z);
  witness_utxo : option (list Z);
  sighash_type : option Z;
  redeem_script : option (list Z);
  witness_script : option (list Z);
  final_scriptsig : option (list Z);
  final_scriptwitness : option (list Z);
  previous_txid : option (list Z);
  output_index : option Z;
  sequence : option Z;
  required_time_locktime : option Z;
  required_height_locktime : option Z
}.
Definition no_input : InputFields :=
  Build_InputFields None None None None None None None None None None None None.
Definition input_field (pair : MapPair) (i : InputFields) : outcome PsbtError InputFields :=
  let '(Build_InputFields nwu wu st rs ws fs fw txid oi sq tl hl) := i in
  let v := value pair in
  if negb (bool_decide (key_data pair = [])) then Ok i
  else if key_type pair =? PSBT_IN_NON_WITNESS_UTXO then
    Ok (Build_InputFields (Some v) wu st rs ws fs fw txid oi sq tl hl)
  else if key_type pair =? PSBT_IN_WITNESS_UTXO then
    Ok (Build_InputFields nwu (Some v) st rs ws fs fw txid oi sq tl hl)
  else if key_type pair =? PSBT_IN_SIGHASH_TYPE then
    n ← le_field 4 v; Ok (Build_InputFields nwu wu (Some n) rs ws fs fw txid oi sq tl hl)
  else if key_type pair =? PSBT_IN_REDEEM_SCRIPT then
    Ok (Build_InputFields nwu wu st (Some v) ws fs fw txid oi sq tl hl)
  else if key_type pair =? PSBT_IN_WITNESS_SCRIPT then
    Ok (Build_InputFields nwu wu st rs (Some v) fs fw txid oi sq tl hl)
  else if key_type pair =? PSBT_IN_FINAL_SCRIPTSIG then
    Ok (Build_InputFields nwu wu st rs ws (Some v) fw txid oi sq tl hl)
  else if key_type pair =? PSBT_IN_FINAL_SCRIPTWITNESS then
    Ok (Build_InputFields nwu wu st rs ws fs (Some v) txid oi sq tl hl)
  else if key_type pair =? PSBT_IN_PREVIOUS_TXID then
    n ← bytes_field 32 v; Ok (Build_InputFields nwu wu st rs ws fs fw (Some n) oi sq tl hl)
  else if key_type pair =? PSBT_IN_OUTPUT_INDEX then
    n ← le_field 4 v; Ok (Build_InputFields nwu wu st rs ws fs fw txid (Some n) sq tl hl)
  else if key_type pair =? PSBT_IN_SEQUENCE then
    n ← le_field 4 v; Ok (Build_InputFields nwu wu st rs ws fs fw txid oi (Some n) tl hl)
  else if key_type pair =? PSBT_IN_REQUIRED_TIME_LOCKTIME then
    n ← le_field 4 v; Ok (Build_InputFields nwu wu st rs ws fs fw txid oi sq (Some n) hl)
  else if key_type pair =? PSBT_IN_REQUIRED_HEIGHT_LOCKTIME then
    n ← le_field 4 v; Ok (Build_InputFields nwu wu st rs ws fs fw txid oi sq tl (Some n))
  else Ok i.

Record OutputFields : Type := {
  out_redeem_script : option (list Z);
  out_witness_script : option (list Z);
  amount : option Z;
  script : option (list Z)
}.
Definition no_output : OutputFields := Build_OutputFields None None None None.
Definition output_field (pair : MapPair) (o : OutputFields) : outcome PsbtError OutputFields :=
  let '(Build_OutputFields rs ws am sc) := o in
  let v := value pair in
  if negb (bool_decide (key_data pair = [])) then Ok o
  else if key_type pair =? PSBT_OUT_REDEEM_SCRIPT then Ok (Build_OutputFields (Some v) ws am sc)
  else if key_type pair =? PSBT_OUT_WITNESS_SCRIPT then Ok (Build_OutputFields rs (Some v) am sc)
  else if key_type pair =? PSBT_OUT_AMOUNT then
    n ← le_field 8 v; Ok (Build_OutputFields rs ws (Some n) sc)
  else if key_type pair =? PSBT_OUT_SCRIPT then Ok (Build_OutputFields rs ws am (Some v))
  else Ok o.

(** ** PSBTs *)

(** Transactions of the [bitcoin] crate, without the parts that are always empty here:
    signature scripts and witnesses. *)
Record TxIn : Type := { txid : list Z; vout : Z; tx_sequence : Z }.
Record TxOut : Type := { tx_value : Z; script_pubkey : list Z }.
Record Transaction : Type := { tx_ver : Z; lock_time : Z; tx_input : list TxIn; tx_output : list TxOut }.

Record Input : Type := {
  in_map : ParsedMap;
  in_fields : InputFields;
  cached_witness_utxo : option TxOut;
  cached_non_witness_utxo : option Transaction
}.
Record Output : Type := { out_map : ParsedMap; out_fields : OutputFields }.
Record Psbt : Type := {
  raw_psbt : list Z;
  global_map : ParsedMap;
  inputs : list Input;
  outputs : list Output;
  version : Z;
  tx_version : Z;
  fallback_locktime : option Z;
  tx_modifiable : option Z;
  cached_unsigned_tx : option Transaction
}.

Definition input_from_cursor : ST Cursor PsbtError Input :=
  '(m, fields) ← from_cursor input_field no_input;
  mret {| in_map := m; in_fields := fields; cached_witness_utxo := None; cached_non_witness_utxo := None |}.
Definition output_from_cursor : ST Cursor PsbtError Output :=
  '(m, fields) ← from_cursor output_field no_output;
  mret {| out_map := m; out_fields := fields |}.

(** [(0..n).map(|_| m).collect::<Result<Vec<_>, _>>()]. A map takes at least a byte: the fuel
    is the number of bytes that remain. *)
Fixpoint collect_loop {A} (m : ST Cursor PsbtError A) (fuel : nat) (n : Z) : ST Cursor PsbtError (list A) :=
  if n <=? 0 then mret []
  else
    match fuel with
    | O => diverge
    | S fuel =>
        x ← m;
        xs ← collect_loop m fuel (n - 1);
        mret (x :: xs)
    end.
Definition collect {A} (m : ST Cursor PsbtError A) (n : Z) : ST Cursor PsbtError (list A) :=
  r ← gets remaining;
  collect_loop m (S (Z.to_nat r)) n.

Definition MAGIC : list Z := [112; 115; 98; 116; 255].
Definition parse_maps (raw : list Z) : ST Cursor PsbtError Psbt :=
  '(global_map, g) ← from_cursor global_field no_global;
  n_inputs ← lift (ok_or (n_inputs g) MissingCounts);
  n_outputs ← lift (ok_or (n_outputs g) MissingCounts);
  psbt_version ← lift (ok_or (psbt_version g) MissingCounts);
  tx_version ← lift (ok_or (g_tx_version g) MissingCounts);
  lift (guard_err (negb (psbt_version =? 2)) NotAllowed);;
  lift (guard_err (usize_max <? n_inputs) CountsTooLarge);;
  lift (guard_err (usize_max <? n_outputs) CountsTooLarge);;
  inputs ← collect input_from_cursor n_inputs;
  outputs ← collect output_from_cursor n_outputs;
  r ← gets remaining;
  lift (guard_err (0 <? r) UnexpectedEof);;
  mret {| raw_psbt := raw; global_map := global_map; inputs := inputs; outputs := outputs;
          version := psbt_version; tx_version := tx_version;
          fallback_locktime := g_fallback_locktime g; tx_modifiable := g_tx_modifiable g;
          cached_unsigned_tx := None |}.
Definition parse (raw : list Z) : outcome PsbtError Psbt :=
  guard_err ((Z.of_nat (length raw) <? 5) || negb (bool_decide (take 5 raw = MAGIC))) InvalidMagic;;
  fst (parse_maps raw {| buf := raw; pos := 5 |}).

(** ** The transaction *)

(** [opt.map_or(h, |m| m.max(h))] over the inputs. *)
Definition max_required (sel : InputFields -> option Z) (ins : list Input) : option Z :=
  fold_left (fun req inp =>
    match sel (in_fields inp) with
    | Some h => Some (match req with None => h | Some m => Z.max m h end)
    | None => req
    end) ins None.

Definition LOCKTIME_THRESHOLD : Z := 500000000.
Definition determine_lock_time (p : Psbt) : outcome PsbtError Z :=
  let req_height := max_required required_height_locktime (inputs p) in
  let req_time := max_required required_time_locktime (inputs p) in
  guard_err (bool_decide (is_Some req_height) && bool_decide (is_Some req_time)) BadValue;;
  let lock_time := default 0 (fallback_locktime p) in
  lock_time ← match req_height with
              | Some h => guard_err (LOCKTIME_THRESHOLD <=? h) BadValue;; Ok (Z.max lock_time h)
              | None => Ok lock_time
              end;
  match req_time with
  | Some t => guard_err (t <? LOCKTIME_THRESHOLD) BadValue;; Ok (Z.max lock_time t)
  | None => Ok lock_time
  end.

Fixpoint build_inputs (ins : list Input) : outcome PsbtError (list TxIn) :=
  match ins with
  | [] => Ok []
  | inp :: ins =>
      txid ← ok_or (previous_txid (in_fields inp)) BadValue;
      vout ← ok_or (output_index (in_fields inp)) BadValue;
      rest ← build_inputs ins;
      Ok ({| txid := txid; vout := vout; tx_sequence := default 0xFFFFFFFF (sequence (in_fields inp)) |} :: rest)
  end.
Fixpoint build_outputs (outs : list Output) : outcome PsbtError (list TxOut) :=
  match outs with
  | [] => Ok []
  | out :: outs =>
      amt ← ok_or (amount (out_fields out)) BadValue;
      spk_bytes ← ok_or (script (out_fields out)) BadValue;
      rest ← build_outputs outs;
      Ok ({| tx_value := amt; script_pubkey := spk_bytes |} :: rest)
  end.
Definition build_unsigned_tx (p : Psbt) : outcome PsbtError Transaction :=
  lock_time ← determine_lock_time p;
  ins ← build_inputs (inputs p);
  outs ← build_outputs (outputs p);
  Ok {| tx_ver := tx_version p; lock_time := lock_time; tx_input := ins; tx_output := outs |}.

Definition set_cached_unsigned_tx (tx : Transaction) (p : Psbt) : Psbt :=
  {| raw_psbt := raw_psbt p; global_map := global_map p; inputs := inputs p; outputs := outputs p;
     version := version p; tx_version := tx_version p; fallback_locktime := fallback_locktime p;
     tx_modifiable := tx_modifiable p; cached_unsigned_tx := Some tx |}.
(** A method that fills a cache through a shared reference is a computation on the owner. *)
Definition unsigned_tx : ST Psbt PsbtError Transaction :=
  c ← gets cached_unsigned_tx;
  match c with
  | Some tx => mret tx
  | None =>
      p ← get;
      tx ← lift (build_unsigned_tx p);
      modify (set_cached_unsigned_tx tx);;
      c ← gets cached_unsigned_tx;
      lift (unwrap c)
  end.

(** ** Lookups *)

Definition get_global (p : Psbt) (t : Z) (d : list Z) : option (list Z) := map_get (global_map p) t d.
Definition input_get (i : Input) (t : Z) (d : list Z) : option (list Z) := map_get (in_map i) t d.
Definition output_get (o : Output) (t : Z) (d : list Z) : option (list Z) := map_get (out_map o) t d.
Definition input_bip32_derivations (i : Input) : list (list Z * list Z) :=
  iter_keys (in_map i) PSBT_IN_BIP32_DERIVATION.
Definition output_bip32_derivations (o : Output) : list (list Z * list Z) :=
  iter_keys (out_map o) PSBT_OUT_BIP32_DERIVATION.

Definition write_musig2_input_key (participant_pk agg_pk : list Z) (leaf_hash : option (list Z)) : list Z :=
  participant_pk ++ agg_pk ++ match leaf_hash with Some lh => lh | None => [] end.
Definition musig2_lookup_input_part_pks (m : ParsedMap) (agg_pk : list Z) (leaf_hash : option (list Z)) :
    option (list Z) :=
  map_get m PSBT_IN_MUSIG2_PARTICIPANT_PUBKEYS
    (agg_pk ++ match leaf_hash with Some lh => lh | None => [] end).
Definition get_fixed_value (n : nat) (m : ParsedMap) (t : Z) (participant_pk agg_pk : list Z)
    (leaf_hash : option (list Z)) : outcome PsbtError (option (list Z)) :=
  match map_get m t (write_musig2_input_key participant_pk agg_pk leaf_hash) with
  | None => Ok None
  | Some value => if negb (length value =? n)%nat then Err BadValue else Ok (Some value)
  end.

(** [chunks_exact(33)]. *)
Fixpoint chunks_exact_33 (fuel : nat) (value : list Z) : list (list Z) :=
  match fuel with
  | O => []
  | S fuel => if (length value <? 33)%nat then [] else take 33 value :: chunks_exact_33 fuel (drop 33 value)
  end.
Definition decode_participant_pubkeys (value : list Z) : outcome PsbtError (list (list Z)) :=
  if bool_decide (value = []) || negb (length value mod 33 =? 0)%nat then Err BadValue
  else Ok (chunks_exact_33 (length value) value).
Definition decoded (o : option (list Z)) : outcome PsbtError (option (list (list Z))) :=
  match o with
  | None => Ok None
  | Some value => pks ← decode_participant_pubkeys value; Ok (Some pks)
  end.
Definition get_musig2_participant_pubkeys (i : Input) (agg_pk : list Z) (leaf_hash : option (list Z)) :
    outcome PsbtError (option (list (list Z))) :=
  decoded (musig2_lookup_input_part_pks (in_map i) agg_pk leaf_hash).
Definition get_musig2_pub_nonce (i : Input) (participant_pk agg_pk : list Z) (leaf_hash : option (list Z)) :=
  get_fixed_value 66 (in_map i) PSBT_IN_MUSIG2_PUB_NONCE participant_pk agg_pk leaf_hash.
Definition get_musig2_partial_sig (i : Input) (participant_pk agg_pk : list Z) (leaf_hash : option (list Z)) :=
  get_fixed_value 32 (in_map i) PSBT_IN_MUSIG2_PARTIAL_SIG participant_pk agg_pk leaf_hash.
Definition out_get_musig2_participant_pubkeys (o : Output) (agg_pk : list Z) :
    outcome PsbtError (option (list (list Z))) :=
  decoded (map_get (out_map o) PSBT_OUT_MUSIG2_PARTICIPANT_PUBKEYS agg_pk).

(** ** The output that an input spends, and the message to sign *)

(** What [rust-bitcoin] provides. [SighashCache] is its cache, which a signature hash may
    fill; a hash fails if the input is not one of the transaction. *)
Class SighashCrate := {
  is_witness_program : list Z -> bool;
  is_p2sh : list Z -> bool;
  is_p2wpkh : list Z -> bool;
  is_p2wsh : list Z -> bool;
  deserialize_tx : list Z -> option Transaction;
  SighashCache : Type;
  legacy_signature_hash : nat -> list Z -> Z -> SighashCache -> option (list Z) * SighashCache;
  p2wpkh_signature_hash : nat -> list Z -> Z -> Z -> SighashCache -> option (list Z) * SighashCache;
  p2wsh_signature_hash : nat -> list Z -> Z -> Z -> SighashCache -> option (list Z) * SighashCache;
}.

Section sighash.
Context `{SighashCrate}.

Definition get_witness_utxo : ST Input PsbtError (option TxOut) :=
  c ← gets cached_witness_utxo;
  match c with
  | Some txout => mret (Some txout)
  | None =>
      w ← gets (fun i => witness_utxo (in_fields i));
      match w with
      | None => mret None
      | Some wutxo =>
          if (Z.of_nat (length wutxo) <? 9) || (252 <? wutxo !!! 8%nat)
             || negb (Z.of_nat (length wutxo) =? 9 + wutxo !!! 8%nat) then fail BadValue
          else
            let script_len := wutxo !!! 8%nat in
            script_pubkey ← lift (range 9 (9 + script_len) wutxo);
            let txout := {| tx_value := le_value (take 8 wutxo); script_pubkey := script_pubkey |} in
            modify (fun i => {| in_map := in_map i; in_fields := in_fields i; cached_witness_utxo := Some txout;
                                cached_non_witness_utxo := cached_non_witness_utxo i |});;
            gets cached_witness_utxo
      end
  end.
Definition get_non_witness_utxo : ST Input PsbtError (option Transaction) :=
  c ← gets cached_non_witness_utxo;
  match c with
  | Some tx => mret (Some tx)
  | None =>
      t ← gets (fun i => non_witness_utxo (in_fields i));
      match t with
      | None => mret None
      | Some tx =>
          tx ← lift (ok_or (deserialize_tx tx) BadValue);
          modify (fun i => {| in_map := in_map i; in_fields := in_fields i;
                              cached_witness_utxo := cached_witness_utxo i; cached_non_witness_utxo := Some tx |});;
          gets cached_non_witness_utxo
      end
  end.

(** A method of [self.inputs[index]]. *)
Definition with_input {A} (index : nat) (m : ST Input PsbtError A) : ST Psbt PsbtError A := fun p =>
  match inputs p !! index with
  | None => (Panic, p)
  | Some i =>
      let '(o, i) := m i in
      (o, {| raw_psbt := raw_psbt p; global_map := global_map p; inputs := <[index := i]> (inputs p);
             outputs := outputs p; version := version p; tx_version := tx_version p;
             fallback_locktime := fallback_locktime p; tx_modifiable := tx_modifiable p;
             cached_unsigned_tx := cached_unsigned_tx p |})
  end.

Definition spend_utxo (input_index : nat) : ST Psbt PsbtError TxOut :=
  p ← get;
  if (length (inputs p) <=? input_index)%nat then fail OutOfRange
  else
    wutxo ← with_input input_index get_witness_utxo;
    match wutxo with
    | Some wutxo => mret wutxo
    | None =>
        nwutxo ← with_input input_index get_non_witness_utxo;
        match nwutxo with
        | Some nwutxo =>
            vout ← with_input input_index (gets (fun i => output_index (in_fields i)));
            vout ← lift (ok_or vout MissingOutputIndex);
            if Z.of_nat (length (tx_output nwutxo)) <=? vout then fail OutOfRange
            else lift (unwrap (tx_output nwutxo !! Z.to_nat vout))
        | None => fail BadValue
        end
    end.

Inductive OutputType : Type := Bare | Wpkh | Wsh | ShWpkh | ShWsh | Sh.
Definition EcdsaSighashType_All : Z := 1.

Definition output_type (spk : list Z) (redeem_script : option (list Z)) : outcome PsbtError OutputType :=
  let redeem_is (test : list Z -> bool) := match redeem_script with Some s => test s | None => false end in
  if negb (is_witness_program spk || is_p2sh spk) then Ok Bare
  else if is_p2wpkh spk then Ok Wpkh
  else if is_p2wsh spk then Ok Wsh
  else if is_p2sh spk then
    if redeem_is is_p2wpkh then Ok ShWpkh
    else if redeem_is is_p2wsh then Ok ShWsh
    else Ok Sh
  else Err UnknownOutputType.

(** [legacy_signature_hash(...).expect(...)], and the others with [map_err]. *)
Definition on_cache {A} (f : SighashCache -> A * SighashCache) : ST (Psbt * SighashCache) PsbtError A :=
  fun '(p, cache) => let '(a, cache) := f cache in (Ok a, (p, cache)).
Definition on_psbt {A} (m : ST Psbt PsbtError A) : ST (Psbt * SighashCache) PsbtError A :=
  zoom fst (fun p s => (p, snd s)) m.

Definition sighash_ecdsa (input_index : nat) : ST (Psbt * SighashCache) PsbtError (list Z * Z) :=
  '(p, _) ← get;
  if (length (inputs p) <=? input_index)%nat then fail OutOfRange
  else
    input ← on_psbt (with_input input_index get);
    utxo ← on_psbt (spend_utxo input_index);
    let spk := script_pubkey utxo in
    let redeem_script := redeem_script (in_fields input) in
    output_type ← lift (output_type spk redeem_script);
    let hash_ty := EcdsaSighashType_All in
    match output_type with
    | Bare =>
        sighash ← on_cache (legacy_signature_hash input_index spk hash_ty);
        sighash ← lift (unwrap sighash);
        mret (sighash, hash_ty)
    | Sh =>
        script_code ← lift (ok_or redeem_script MissingRedeemScript);
        sighash ← on_cache (legacy_signature_hash input_index script_code hash_ty);
        sighash ← lift (unwrap sighash);
        mret (sighash, hash_ty)
    | Wpkh =>
        sighash ← on_cache (p2wpkh_signature_hash input_index spk (tx_value utxo) hash_ty);
        sighash ← lift (ok_or sighash BadValue);
        mret (sighash, hash_ty)
    | ShWpkh =>
        redeem_script ← lift (unwrap redeem_script);
        sighash ← on_cache (p2wpkh_signature_hash input_index redeem_script (tx_value utxo) hash_ty);
        sighash ← lift (ok_or sighash BadValue);
        mret (sighash, hash_ty)
    | Wsh | ShWsh =>
        witness_script ← lift (ok_or (witness_script (in_fields input)) MissingWitnessScript);
        sighash ← on_cache (p2wsh_signature_hash input_index witness_script (tx_value utxo) hash_ty);
        sighash ← lift (ok_or sighash BadValue);
        mret (sighash, hash_ty)
    end.
End sighash.
