(* ===== verification/PsbtSpec.v ===== *)
(** * The grammar of PSBTs, and the parser

    [parses] relates a parser to a grammar: the parser ends on every input, without a panic;
    what it accepts is in the grammar, and it accepts what is. [parse_iff] is this for whole
    PSBTs. A map is sorted, hence the lookups by bisection find what is there. *)

From S2P Require Import Prelude Psbt.
From Stdlib Require Import Sorted.

(** ** Parsers and grammars *)

Definition rest (c : Cursor) : list Z := drop (Z.to_nat (pos c)) (buf c).
Definition advance (k : nat) (c : Cursor) : Cursor := {| buf := buf c; pos := pos c + Z.of_nat k |}.

Record good (c : Cursor) : Prop := {
  good_pos : 0 <= pos c <= Z.of_nat (length (buf c));
  good_bytes : bytes_ok (buf c);
  good_size : Z.of_nat (length (buf c)) < 2 ^ 32;
}.

(** [N] bounds what remains; loops have it as fuel. *)
Definition parses {A} (N : nat) (m : ST Cursor PsbtError A) (G : A -> list Z -> Prop) : Prop :=
  forall c, good c -> (length (rest c) < N)%nat ->
    match m c with
    | (Ok a, c') => exists bs r, rest c = bs ++ r /\ G a bs /\ c' = advance (length bs) c
    | (Err _, _) => True
    | _ => False
    end /\
    (forall a bs r, rest c = bs ++ r -> G a bs -> m c = (Ok a, advance (length bs) c)).

Lemma remaining_rest c : good c -> remaining c = Z.of_nat (length (rest c)).
Proof.
  intros [Hp _ _]. unfold remaining, rest, sat_sub. rewrite length_drop. lia.
Qed.
Lemma rest_advance c k : good c -> rest (advance k c) = drop k (rest c).
Proof.
  intros [Hp _ _]. unfold rest, advance. cbn. rewrite drop_drop. f_equal. lia.
Qed.
Lemma good_advance c k : good c -> (k <= length (rest c))%nat -> good (advance k c).
Proof.
  intros Hc Hk. pose proof (remaining_rest c Hc) as Hr. destruct Hc as [Hp Hb Hs].
  unfold remaining, sat_sub in Hr. split; cbn; [lia|done|done].
Qed.
Lemma advance_advance c j k : advance j (advance k c) = advance (k + j) c.
Proof. unfold advance. cbn. f_equal. lia. Qed.
Lemma advance_0 c : advance 0 c = c.
Proof. destruct c. unfold advance. cbn. f_equal. lia. Qed.
Lemma rest_app c bs r : good c -> rest c = bs ++ r ->
  rest (advance (length bs) c) = r /\ good (advance (length bs) c).
Proof.
  intros Hc E. split; [rewrite rest_advance, E by done; apply drop_app_length|].
  apply good_advance; [done|]. rewrite E, length_app. lia.
Qed.
Lemma good_rest c : good c -> bytes_ok (rest c).
Proof. intros [_ Hb _]. by apply Forall_drop. Qed.
Lemma rest_size c : good c -> Z.of_nat (length (rest c)) < 2 ^ 32.
Proof. intros [_ _ Hs]. unfold rest. rewrite length_drop. lia. Qed.

(** What is true of every part of the input. *)
Definition fits (bs : list Z) : Prop := bytes_ok bs /\ Z.of_nat (length bs) < 2 ^ 32.
Lemma fits_app bs r : fits (bs ++ r) <-> (fits bs /\ bytes_ok r /\ Z.of_nat (length bs + length r) < 2 ^ 32).
Proof. unfold fits. rewrite Forall_app, length_app. intuition lia. Qed.
Lemma good_fits c : good c -> fits (rest c).
Proof. intros Hc. split; [by apply good_rest|by apply rest_size]. Qed.
Lemma part_fits c bs r : good c -> rest c = bs ++ r -> fits bs.
Proof. intros Hc E. pose proof (good_fits c Hc) as Hf. rewrite E in Hf. by apply fits_app in Hf as (? & _). Qed.

(** Sequencing: the first part takes at least [k] bytes. *)
Lemma parses_bind {A B} k N (m : ST Cursor PsbtError A) (f : A -> ST Cursor PsbtError B) G H :
  parses N m G -> (forall a bs, G a bs -> (k <= length bs)%nat) ->
  (forall a bs, fits bs -> G a bs -> parses (N - k) (f a) (H a)) ->
  parses N (x ← m; f x) (fun b bs => exists a b1 b2, bs = b1 ++ b2 /\ G a b1 /\ H a b b2).
Proof.
  intros Hm Hk Hf c Hc HN. destruct (Hm c Hc HN) as [Hs Hcomp]. split.
  - unfold mbind, st_mbind, st_bind. destruct (m c) as [[a|e| |] c']; try done.
    destruct Hs as (bs & r & E & Hg & ->). destruct (rest_app _ _ _ Hc E) as [Er Hc'].
    pose proof (Hk _ _ Hg) as Hlen.
    assert (length (rest (advance (length bs) c)) < N - k)%nat as HN'
      by (rewrite Er; rewrite E, length_app in HN; lia).
    destruct (Hf a bs (part_fits _ _ _ Hc E) Hg _ Hc' HN') as [Hs2 _].
    destruct (f a _) as [[b|e| |] c2]; try done.
    destruct Hs2 as (b2 & r2 & E2 & Hh & ->). exists (bs ++ b2), r2. split_and!.
    + rewrite E, <- app_assoc. f_equal. by rewrite <- Er.
    + by exists a, bs, b2.
    + by rewrite advance_advance, length_app.
  - intros b bs r E (a & b1 & b2 & -> & Hg & Hh). rewrite <- app_assoc in E.
    unfold mbind, st_mbind, st_bind. rewrite (Hcomp _ _ _ E Hg).
    destruct (rest_app _ _ _ Hc E) as [Er Hc']. pose proof (Hk _ _ Hg) as Hlen.
    assert (length (rest (advance (length b1) c)) < N - k)%nat as HN'
      by (rewrite Er; rewrite E, length_app in HN; lia).
    destruct (Hf a b1 (part_fits _ _ _ Hc E) Hg _ Hc' HN') as [_ Hc2]. rewrite (Hc2 _ _ _ Er Hh).
    by rewrite advance_advance, length_app.
Qed.

Lemma parses_iff {A} N (m : ST Cursor PsbtError A) G H :
  parses N m G -> (forall a bs, fits bs -> (G a bs <-> H a bs)) -> parses N m H.
Proof.
  intros Hm HGH c Hc HN. destruct (Hm c Hc HN) as [Hs Hcomp]. split.
  - destruct (m c) as [[a|e| |] c']; try done. destruct Hs as (bs & r & E & Hg & ->).
    exists bs, r. split_and!; [done| |done]. apply HGH; [by eapply part_fits|done].
  - intros a bs r E Hh. apply (Hcomp _ _ r E). apply HGH; [by eapply part_fits|done].
Qed.
Lemma parses_weaken {A} N N' (m : ST Cursor PsbtError A) G : (N' <= N)%nat -> parses N m G -> parses N' m G.
Proof. intros HN Hm c Hc Hl. apply Hm; [done|lia]. Qed.

(** A pure step takes no bytes. *)
Lemma parses_lift {A} N (o : outcome PsbtError A) :
  match o with Ok _ | Err _ => True | _ => False end -> parses N (lift o) (fun a bs => o = Ok a /\ bs = []).
Proof.
  intros Ho c Hc _. unfold lift. split.
  - destruct o as [a|e| |]; try done. exists [], (rest c). by rewrite advance_0.
  - intros a bs r _ [-> ->]. by rewrite advance_0.
Qed.
Lemma parses_ret {A} N (a : A) : parses N (mret a) (fun b bs => b = a /\ bs = []).
Proof.
  eapply parses_iff; [exact (parses_lift N (Ok a) I)|]. intros b bs _. split; intros [Hb ->]; split; congruence.
Qed.
Lemma parses_fail {A} N e : parses N (fail e : ST Cursor PsbtError A) (fun _ _ => False).
Proof. intros c Hc _. split; [done|]. by intros. Qed.
(** A step before it, where the rest does not depend on bytes. *)
Lemma parses_lift_bind {A B} N (o : outcome PsbtError A) (f : A -> ST Cursor PsbtError B) H :
  match o with Ok _ | Err _ => True | _ => False end -> (forall a, o = Ok a -> parses N (f a) (H a)) ->
  parses N (x ← lift o; f x) (fun b bs => exists a, o = Ok a /\ H a b bs).
Proof.
  intros Ho Hf c Hc HN. unfold mbind, st_mbind, st_bind, lift. destruct o as [a|e| |]; try done.
  - destruct (Hf a eq_refl c Hc HN) as [Hs Hcomp]. split.
    + destruct (f a c) as [[b|e| |] c']; try done. destruct Hs as (bs & r & E & Hh & ->). by eauto 8.
    + intros b bs r E (a' & [= <-] & Hh). by eapply Hcomp.
  - split; [done|]. by intros b bs r E (a' & ? & _).
Qed.
(** A step that reads the cursor. *)
Lemma parses_gets {A B} N (g : Cursor -> B) (f : B -> ST Cursor PsbtError A) G :
  (forall c, good c -> (length (rest c) < N)%nat -> parses (S (length (rest c))) (f (g c)) G) ->
  parses N (x ← gets g; f x) G.
Proof. intros Hf c Hc HN. apply Hf; [done..|lia]. Qed.

Lemma parses_take N n : 0 <= n -> parses N (cursor_take n) (fun a bs => a = bs /\ Z.of_nat (length bs) = n).
Proof.
  intros Hn c Hc HN. pose proof (remaining_rest c Hc) as Hr. pose proof Hc as [Hp _ _].
  assert (length (rest c) = length (buf c) - Z.to_nat (pos c))%nat as Hl by apply length_drop.
  unfold cursor_take, mbind, st_mbind, st_bind, gets, modify, lift, fail. cbn beta iota. rewrite Hr.
  destruct (Z.ltb_spec (Z.of_nat (length (rest c))) n) as [Hlt|Hge].
  - split; [done|]. intros a bs r E [_ Hb]. rewrite E, length_app in Hlt. lia.
  - cbn beta iota. unfold range. cbn [buf pos].
    rewrite (proj2 (Z.leb_le _ _)), (proj2 (Z.leb_le _ _)) by lia. cbn [andb].
    replace (pos c + n - pos c) with n by lia.
    change (slice (Z.to_nat (pos c)) (Z.to_nat n) (buf c)) with (take (Z.to_nat n) (rest c)).
    split.
    + exists (take (Z.to_nat n) (rest c)), (drop (Z.to_nat n) (rest c)).
      rewrite length_take, Nat.min_l by lia. split_and!; [by rewrite take_drop|done|lia|].
      unfold advance. f_equal. lia.
    + intros a bs r E [-> Hb]. rewrite E. replace (Z.to_nat n) with (length bs) by lia.
      rewrite take_app_length. unfold advance. by rewrite Hb.
Qed.

(** ** Sizes and prefixed byte strings *)

(** The encodings of a size; the parser does not ask for the shortest. *)
Inductive compact : Z -> list Z -> Prop :=
| compact_1 n : n <= 252 -> compact n [n]
| compact_3 v : length v = 2%nat -> compact (le_value v) (253 :: v)
| compact_5 v : length v = 4%nat -> compact (le_value v) (254 :: v)
| compact_9 v : length v = 8%nat -> compact (le_value v) (255 :: v).

Lemma compact_pos n bs : compact n bs -> (1 <= length bs)%nat.
Proof. destruct 1; cbn; lia. Qed.
Lemma compact_nonneg n bs : bytes_ok bs -> compact n bs -> 0 <= n.
Proof.
  intros Hb. destruct 1 as [n _|v _|v _|v _].
  { apply Forall_cons in Hb as [[? ?] _]. lia. }
  all: apply Forall_cons in Hb as [_ Hb]; by apply le_value_range.
Qed.

(** What follows the first byte. *)
Lemma parses_more N n : parses N (s ← cursor_take (Z.of_nat n); mret (le_value s))
  (fun a bs => a = le_value bs /\ length bs = n).
Proof.
  eapply parses_iff.
  - eapply (parses_bind 0); [apply parses_take; lia|intros; lia|]. intros a bs _ _. apply parses_ret.
  - cbn beta. intros a bs _. split.
    + intros (s & b1 & b2 & -> & [-> Hn] & -> & ->). rewrite app_nil_r. split; [done|lia].
    + intros [-> Hl]. exists bs, bs, []. rewrite app_nil_r. split_and!; try done. lia.
Qed.

Definition size_tail (b a : Z) (bs : list Z) : Prop :=
  if b <=? 252 then a = b /\ bs = []
  else a = le_value bs /\ length bs = (if (b =? 253)%Z then 2 else if (b =? 254)%Z then 4 else 8)%nat.
Lemma compact_cons (b a : Z) bs : is_u8 b -> compact a (b :: bs) <-> size_tail b a bs.
Proof.
  intros Hb. change (is_u8 b) with (0 <= b < 256) in Hb. unfold size_tail. split.
  - inversion 1; subst; [by rewrite (proj2 (Z.leb_le _ _)) by lia|done..].
  - destruct (Z.leb_spec b 252) as [Hlt|Hgt]; [intros [-> ->]; by apply compact_1|]. intros [-> Hl].
    destruct (Z.eqb_spec b 253) as [->|]; [by apply compact_3|].
    destruct (Z.eqb_spec b 254) as [->|]; [by apply compact_5|].
    replace b with 255 by lia. by apply compact_9.
Qed.

Lemma parses_compact N : parses N read_compact_size compact.
Proof.
  eapply parses_iff.
  - eapply (parses_bind 0 _ _ _ _ (fun s n bs => exists b, unwrap (E:=PsbtError) (head s) = Ok b /\ size_tail b n bs));
      [apply parses_take; lia|intros; lia|]. intros s bs _ [-> Hs].
    apply (parses_lift_bind _ _ _ size_tail); [destruct bs; [cbn in Hs; lia|done]|].
    intros b Hb. unfold size_tail.
    destruct (b <=? 252); [apply parses_ret|].
    destruct (b =? 253); [apply (parses_more _ 2)|]. destruct (b =? 254); [apply (parses_more _ 4)|apply (parses_more _ 8)].
  - cbn beta. intros n bs [Hbs _]. split.
    + intros (s & b1 & b2 & -> & [-> Hl] & b & Hb & Ht). destruct b1 as [|b' [|? ?]]; cbn in *; try lia.
      injection Hb as ->. apply Forall_cons in Hbs as [? _]. by apply compact_cons.
    + intros Hc. destruct bs as [|b bs]; [by inversion Hc|]. apply Forall_cons in Hbs as [? _].
      apply compact_cons in Hc; [|done]. exists [b], [b], bs. split_and!; try done. by exists b.
Qed.

Lemma parses_prefixed N : parses N read_len_prefixed
  (fun a bs => exists size, bs = size ++ a /\ compact (Z.of_nat (length a)) size).
Proof.
  intros c Hc HN. destruct (parses_compact N c Hc HN) as [Hs Hcomp].
  unfold read_len_prefixed, mbind, st_mbind, st_bind. split.
  - destruct (read_compact_size c) as [[n|e| |] c']; try done. destruct Hs as (bs & r & E & Hn & ->).
    destruct (rest_app _ _ _ Hc E) as [Er Hc']. unfold gets at 1. cbn beta iota.
    destruct (_ && _) eqn:Hcond; [|done]. apply andb_prop in Hcond as [_ Hle].
    apply Z.leb_le in Hle. pose proof (compact_nonneg _ _ (proj1 (part_fits _ _ _ Hc E)) Hn) as Hn0.
    destruct (parses_take (S (length (rest (advance (length bs) c)))) n Hn0 _ Hc' ltac:(lia)) as [Ht _].
    destruct (cursor_take n _) as [[a|e| |] c2]; try done. destruct Ht as (bs2 & r2 & E2 & [-> Hl] & ->).
    exists (bs ++ bs2), r2. split_and!.
    + rewrite E, <- app_assoc. f_equal. congruence.
    + exists bs. split; [done|]. by rewrite Hl.
    + by rewrite advance_advance, length_app.
  - intros a bs r E (size & -> & Hsize). rewrite <- app_assoc in E.
    rewrite (Hcomp _ _ _ E Hsize). destruct (rest_app _ _ _ Hc E) as [Er Hc']. unfold gets at 1. cbn beta iota.
    rewrite remaining_rest by done. rewrite Er, length_app.
    pose proof (rest_size _ Hc') as Hlt. rewrite Er, length_app in Hlt.
    rewrite (proj2 (Z.leb_le _ usize_max)), (proj2 (Z.leb_le _ _)) by (unfold usize_max; lia). cbn [andb].
    destruct (parses_take (S (length (rest (advance (length size) c)))) (Z.of_nat (length a)) ltac:(lia) _ Hc' ltac:(lia)) as [_ Ht].
    rewrite (Ht a a r Er) by done. by rewrite advance_advance, length_app.
Qed.

Lemma u64_compact data : fits data ->
  match u64_from_compact_size data with Ok _ | Err _ => True | _ => False end /\
  forall n, u64_from_compact_size data = Ok n <-> compact n data.
Proof.
  intros [Hb Hl]. set (c := {| buf := data; pos := 0 |}).
  assert (good c) as Hc by (split; cbn; [lia|done|done]).
  assert (rest c = data) as Hr by done.
  destruct (parses_compact (S (length data)) c Hc ltac:(rewrite Hr; lia)) as [Hs Hcomp].
  unfold u64_from_compact_size. fold c. split.
  { destruct (read_compact_size c) as [o c']. destruct (0 <? remaining c'); [done|]. by destruct o. }
  intros n. split.
  - destruct (read_compact_size c) as [o c'].
    destruct (Z.ltb_spec 0 (remaining c')) as [|Hrem]; [done|]. intros ->.
    destruct Hs as (bs & r & E & Hn & ->). destruct (rest_app _ _ _ Hc E) as [Er Hc'].
    rewrite remaining_rest, Er in Hrem by done. destruct r; [|cbn in Hrem; lia].
    rewrite Hr, app_nil_r in E. by rewrite E.
  - intros Hn. rewrite (Hcomp n data []) by (by rewrite ?app_nil_r).
    destruct (rest_app c data [] Hc) as [Er Hc']; [by rewrite app_nil_r|].
    by rewrite remaining_rest, Er by done.
Qed.

(** ** Maps *)

(** [a < b] of keys: the type first, then the data. *)
Definition key_lt (a b : MapPair) : Prop :=
  key_type a < key_type b \/ (key_type a = key_type b /\ cmp_bytes (key_data a) (key_data b) = Lt).
Definition after (last : option MapPair) (p : MapPair) : Prop :=
  match last with None => True | Some q => key_lt q p end.
Fixpoint ordered (last : option MapPair) (ps : list MapPair) : Prop :=
  match ps with [] => True | p :: ps => after last p /\ ordered (Some p) ps end.

Definition pair_text (p : MapPair) (bs : list Z) : Prop :=
  exists ks vs, bs = ks ++ (key_type p :: key_data p) ++ vs ++ value p /\
    compact (1 + Z.of_nat (length (key_data p))) ks /\ compact (Z.of_nat (length (value p))) vs.
Inductive map_text : list MapPair -> list Z -> Prop :=
| map_text_end bs : compact 0 bs -> map_text [] bs
| map_text_pair p ps b1 b2 : pair_text p b1 -> map_text ps b2 -> map_text (p :: ps) (b1 ++ b2).

Lemma map_text_pos ps bs : map_text ps bs -> (1 <= length bs)%nat.
Proof.
  destruct 1 as [bs Hc|p ps b1 b2 (ks & vs & -> & Hc & _) _]; [by eapply compact_pos|].
  apply compact_pos in Hc. rewrite !length_app. lia.
Qed.

Lemma cmp_bytes_eq a b : cmp_bytes a b = Eq <-> a = b.
Proof.
  revert b; induction a as [|x a IH]; intros [|y b]; cbn; try done.
  destruct (Z.compare_spec x y) as [->|H|H]; [rewrite IH; split; congruence|split; [done|]; intros [= -> _]; lia..].
Qed.
Lemma cmp_bytes_antisym a b : cmp_bytes b a = CompOpp (cmp_bytes a b).
Proof.
  revert b; induction a as [|x a IH]; intros [|y b]; cbn; try done.
  rewrite (Z.compare_antisym x y). destruct (x ?= y); cbn; auto.
Qed.
Lemma cmp_bytes_trans a b c : cmp_bytes a b = Lt -> cmp_bytes b c = Lt -> cmp_bytes a c = Lt.
Proof.
  revert b c; induction a as [|x a IH]; intros [|y b] [|z c]; cbn; try done.
  destruct (Z.compare_spec x y) as [->|H|H]; try done; destruct (Z.compare_spec y z) as [->|H'|H']; try done.
  - apply IH.
  - rewrite (proj2 (Z.compare_lt_iff _ _)) by lia. done.
  - rewrite (proj2 (Z.compare_lt_iff _ _)) by lia. done.
Qed.
#[export] Instance key_lt_trans : Transitive key_lt.
Proof.
  intros a b c [Hab|[Eab Hab]] [Hbc|[Ebc Hbc]]; [left; lia..|right].
  split; [congruence|by eapply cmp_bytes_trans].
Qed.
Lemma key_lt_irrefl a b : key_type a = key_type b -> key_data a = key_data b -> ~ key_lt a b.
Proof. intros Ht Hd [H|[_ H]]; [lia|]. rewrite Hd in H. by rewrite (proj2 (cmp_bytes_eq _ _) eq_refl) in H. Qed.

Lemma check_order_after last t d v :
  check_order last t d = Ok tt <-> after last {| key_type := t; key_data := d; value := v |}.
Proof.
  destruct last as [q|]; [|done]. cbn [check_order after]. unfold guard_err, key_lt. cbn [key_type key_data].
  rewrite (cmp_bytes_antisym (key_data q)).
  destruct (Z.ltb_spec t (key_type q)), (Z.eqb_spec t (key_type q)); cbn [andb orb]; try lia.
  all: destruct (cmp_bytes (key_data q) d); cbn; split; try done; try (intros [|[? ?]]; (lia || done)).
  all: intros _; (left; lia) || (right; done).
Qed.
Lemma check_order_total last t d : match check_order last t d with Ok _ | Err _ => True | _ => False end.
Proof.
  destruct last as [q|]; [|done]. cbn. unfold guard_err. by repeat case_match; simplify_eq.
Qed.

(** What the closure makes of the pairs. *)
Fixpoint collects {T} (f : MapPair -> T -> outcome PsbtError T) (t : T) (ps : list MapPair) : outcome PsbtError T :=
  match ps with [] => Ok t | p :: ps => t ← f p t; collects f t ps end.
Definition total_on_fits {T} (f : MapPair -> T -> outcome PsbtError T) : Prop :=
  forall p t, fits (value p) -> match f p t with Ok _ | Err _ => True | _ => False end.

Section loop.
Context {T : Type} (f : MapPair -> T -> outcome PsbtError T).

(** The grammar of the loop, and of the parts of a turn. *)
Definition loop_text (ps : list MapPair) (t : T) (r : ParsedMap * T) (bs : list Z) : Prop :=
  exists new, pairs (fst r) = ps ++ new /\ map_text new bs /\ ordered (last ps) new /\
    collects f t new = Ok (snd r).
Definition after_value (ps : list MapPair) (t : T) (k : Z) (d v : list Z) (r : ParsedMap * T) (bs : list Z) : Prop :=
  exists t', f (Build_MapPair k d v) t = Ok t' /\ loop_text (ps ++ [Build_MapPair k d v]) t' r bs.
Definition after_key (ps : list MapPair) (t : T) (key : list Z) (r : ParsedMap * T) (bs : list Z) : Prop :=
  exists k, unwrap (E:=PsbtError) (head key) = Ok k /\ exists u, check_order (last ps) k (drop 1 key) = Ok u /\
  exists v b1 b2, bs = b1 ++ b2 /\ (exists size, b1 = size ++ v /\ compact (Z.of_nat (length v)) size) /\
    after_value ps t k (drop 1 key) v r b2.
Definition after_size (ps : list MapPair) (t : T) (n : Z) (r : ParsedMap * T) (bs : list Z) : Prop :=
  if n =? 0 then r = ({| pairs := ps |}, t) /\ bs = []
  else
    exists u, guard_err (usize_max <? n) InvalidCompactSize = Ok u /\
    exists key b1 b2, bs = b1 ++ b2 /\ (key = b1 /\ Z.of_nat (length b1) = n) /\ after_key ps t key r b2.

Lemma turn_text ps t r bs : fits bs ->
  (exists n b1 b2, bs = b1 ++ b2 /\ compact n b1 /\ after_size ps t n r b2) <-> loop_text ps t r bs.
Proof.
  intros Hf. unfold after_size, after_key, after_value. split.
  - intros (n & kb & b2 & -> & Hn & Hb2). destruct (Z.eqb_spec n 0) as [->|Hn0].
    + destruct Hb2 as [-> ->]. exists []. rewrite !app_nil_r. cbn. split_and!; try done. by apply map_text_end.
    + destruct Hb2 as (_ & _ & key & b1 & b3 & -> & [-> Hl] & k & Hk & u & Ho & v & b4 & b5 & -> & Hv & t' & Ht & Hloop).
      destruct Hv as (vb & -> & Hvb). destruct b1 as [|k' d]; [done|]. cbn in Hk. injection Hk as ->.
      change (drop 1 (k :: d)) with d in *. destruct Hloop as (new & Hps & Htxt & Hord & Hcol).
      exists (Build_MapPair k d v :: new). rewrite last_snoc in Hord. split_and!.
      * by rewrite Hps, <- app_assoc.
      * rewrite !app_assoc. apply map_text_pair; [|done]. exists kb, vb. cbn [key_type key_data value].
        split_and!; [by rewrite <- !app_assoc| |done]. cbn in Hl. by replace (1 + Z.of_nat (length d)) with n by lia.
      * destruct u. by apply (check_order_after _ _ _ v) in Ho.
      * cbn. by rewrite Ht.
  - intros (new & Hps & Htxt & Hord & Hcol). destruct Htxt as [bs Hc|p ps' b1 b2 Hp Htxt].
    + exists 0, bs, []. rewrite app_nil_r. split_and!; try done. cbn in *. injection Hcol as ->. rewrite app_nil_r in Hps.
      split; [|done]. destruct r as [[l] t']. cbn in *. by subst.
    + destruct Hp as (kb & vb & -> & Hk & Hv). destruct p as [k d v]. cbn [key_type key_data value] in *.
      cbn in Hord, Hcol. destruct Hord as [Ha Hord]. destruct (f _ t) as [t'|e| |] eqn:Ht; try done. cbn in Hcol.
      exists (1 + Z.of_nat (length d)), kb, ((k :: d) ++ (vb ++ v) ++ b2). rewrite <- !app_assoc.
      split_and!; [done..|]. destruct (Z.eqb_spec (1 + Z.of_nat (length d)) 0) as [|_]; [lia|].
      exists tt. split.
      { unfold guard_err. rewrite (proj2 (Z.ltb_ge _ _)); [done|]. destruct Hf as [_ Hf].
        rewrite !length_app in Hf. cbn in Hf. unfold usize_max. lia. }
      exists (k :: d), (k :: d), (vb ++ v ++ b2). split_and!; [done|done|cbn; lia|].
      exists k. split; [done|]. exists tt. change (drop 1 (k :: d)) with d. split; [by apply (check_order_after _ _ _ v)|].
      exists v, (vb ++ v), b2. rewrite <- app_assoc. split_and!; [done|by exists vb|].
      exists t'. split; [done|]. exists ps'. rewrite last_snoc. split_and!; try done.
      by rewrite Hps, <- app_assoc.
Qed.

Lemma parses_loop fuel ps t : total_on_fits f -> parses fuel (from_cursor_loop f fuel ps t) (loop_text ps t).
Proof.
  intros Hf. revert ps t; induction fuel as [|fuel IH]; intros ps t; [intros c _ HN; lia|].
  cbn [from_cursor_loop]. eapply parses_iff; [|intros r bs Hb; by apply turn_text].
  apply (parses_bind 1); [apply parses_compact|intros; by eapply compact_pos|]. intros n bs [Hbs _] Hn.
  apply (compact_nonneg _ _ Hbs) in Hn. replace (S fuel - 1)%nat with fuel by lia.
  unfold after_size. destruct (Z.eqb_spec n 0) as [->|Hn0]; [apply parses_ret|].
  apply parses_lift_bind; [unfold guard_err; by destruct (_ <? _)|]. intros u _.
  apply (parses_bind 0); [by apply parses_take|intros; lia|]. intros key kb _ [-> Hl]. rewrite Nat.sub_0_r.
  apply parses_lift_bind; [destruct kb; [cbn in Hl; lia|done]|]. intros k _.
  apply parses_lift_bind; [apply check_order_total|]. intros _ _.
  apply (parses_bind 0); [apply parses_prefixed|intros; lia|]. intros v vb Hfit (size & -> & _). rewrite Nat.sub_0_r.
  apply parses_lift_bind; [|intros t' _; apply IH].
  apply Hf. cbn [value]. destruct Hfit as [Hb Hsz]. rewrite length_app in Hsz. apply Forall_app in Hb as [_ ?].
  split; [done|lia].
Qed.

Lemma parses_map N t : total_on_fits f ->
  parses N (from_cursor f t) (fun r bs => map_text (pairs (fst r)) bs /\ ordered None (pairs (fst r)) /\
    collects f t (pairs (fst r)) = Ok (snd r)).
Proof.
  intros Hf. unfold from_cursor. apply parses_gets. intros c Hc _. rewrite remaining_rest, Nat2Z.id by done.
  eapply parses_iff; [by apply parses_loop|]. intros r bs _. unfold loop_text. cbn [app last]. split.
  - by intros (new & -> & ?).
  - by exists (pairs (fst r)).
Qed.
End loop.

(** ** Several maps *)

Definition texts {A} (G : A -> list Z -> Prop) (xs : list A) (bs : list Z) : Prop :=
  exists bss, bs = concat bss /\ Forall2 G xs bss.

Lemma parses_collect_loop {A} (m : ST Cursor PsbtError A) G fuel n :
  (forall N, parses N m G) -> (forall a bs, G a bs -> (1 <= length bs)%nat) -> 0 <= n ->
  parses fuel (collect_loop m fuel n) (fun xs bs => Z.of_nat (length xs) = n /\ texts G xs bs).
Proof.
  intros Hm Hpos. revert n; induction fuel as [|fuel IH]; intros n Hn; [intros c _ HN; lia|].
  cbn [collect_loop]. destruct (Z.leb_spec n 0) as [Hle|Hgt].
  - eapply parses_iff; [apply parses_ret|]. intros xs bs _. split.
    + intros [-> ->]. split; [cbn; lia|]. exists []. by split.
    + intros [Hl (bss & -> & HG)]. destruct xs; [|cbn in Hl; lia]. apply Forall2_nil_inv_l in HG as ->. done.
  - eapply parses_iff.
    + apply (parses_bind 1 _ _ _ G (fun x xs bs => exists xs' b1 b2, bs = b1 ++ b2 /\
        (Z.of_nat (length xs') = n - 1 /\ texts G xs' b1) /\ xs = x :: xs' /\ b2 = [])); [apply Hm|done|].
      intros x bs _ _. replace (S fuel - 1)%nat with fuel by lia.
      apply (parses_bind 0); [apply IH; lia|intros; lia|]. intros xs' bs' _ _. apply parses_ret.
    + cbn beta. intros xs bs _. split.
      * intros (x & b1 & ? & -> & Hx & xs' & b2 & ? & -> & [Hl (bss & -> & HG)] & -> & ->). rewrite app_nil_r.
        split; [cbn; lia|]. exists (b1 :: bss). split; [done|]. by constructor.
      * intros [Hl (bss & -> & HG)]. destruct xs as [|x xs]; [cbn in Hl; lia|].
        destruct bss as [|b1 bss]; [by inversion HG|]. apply Forall2_cons in HG as [Hx HG].
        exists x, b1, (concat bss). split_and!; try done. exists xs, (concat bss), []. rewrite app_nil_r.
        split_and!; try done; [cbn in Hl; lia|by exists bss].
Qed.
Lemma parses_collect {A} N (m : ST Cursor PsbtError A) G n :
  (forall N, parses N m G) -> (forall a bs, G a bs -> (1 <= length bs)%nat) -> 0 <= n ->
  parses N (collect m n) (fun xs bs => Z.of_nat (length xs) = n /\ texts G xs bs).
Proof.
  intros Hm Hpos Hn. unfold collect. apply parses_gets. intros c Hc _. rewrite remaining_rest, Nat2Z.id by done.
  by apply parses_collect_loop.
Qed.

(** ** Fields

    The value of the key of a type that has no data, and the fields as such values. *)

Definition is_entry (ty : Z) (p : MapPair) : bool := (key_type p =? ty) && bool_decide (key_data p = []).
Definition entry (ty : Z) (ps : list MapPair) : option (list Z) :=
  fold_left (fun acc p => if is_entry ty p then Some (value p) else acc) ps None.
Definition int_entry (ty : Z) (ps : list MapPair) : option Z := le_value <$> entry ty ps.

Definition input_of (ps : list MapPair) : InputFields := {|
  non_witness_utxo := entry PSBT_IN_NON_WITNESS_UTXO ps;
  witness_utxo := entry PSBT_IN_WITNESS_UTXO ps;
  sighash_type := int_entry PSBT_IN_SIGHASH_TYPE ps;
  redeem_script := entry PSBT_IN_REDEEM_SCRIPT ps;
  witness_script := entry PSBT_IN_WITNESS_SCRIPT ps;
  final_scriptsig := entry PSBT_IN_FINAL_SCRIPTSIG ps;
  final_scriptwitness := entry PSBT_IN_FINAL_SCRIPTWITNESS ps;
  previous_txid := entry PSBT_IN_PREVIOUS_TXID ps;
  output_index := int_entry PSBT_IN_OUTPUT_INDEX ps;
  sequence := int_entry PSBT_IN_SEQUENCE ps;
  required_time_locktime := int_entry PSBT_IN_REQUIRED_TIME_LOCKTIME ps;
  required_height_locktime := int_entry PSBT_IN_REQUIRED_HEIGHT_LOCKTIME ps;
|}.
Definition output_of (ps : list MapPair) : OutputFields := {|
  out_redeem_script := entry PSBT_OUT_REDEEM_SCRIPT ps;
  out_witness_script := entry PSBT_OUT_WITNESS_SCRIPT ps;
  amount := int_entry PSBT_OUT_AMOUNT ps;
  script := entry PSBT_OUT_SCRIPT ps;
|}.

(** The widths that values must have. *)
Definition width_ok (widths : list (Z * nat)) (p : MapPair) : bool :=
  forallb (fun w => negb (is_entry w.1 p) || (length (value p) =? w.2)%nat) widths.
Definition input_ok : MapPair -> bool := width_ok
  [(PSBT_IN_SIGHASH_TYPE, 4%nat); (PSBT_IN_PREVIOUS_TXID, 32%nat); (PSBT_IN_OUTPUT_INDEX, 4%nat);
   (PSBT_IN_SEQUENCE, 4%nat); (PSBT_IN_REQUIRED_TIME_LOCKTIME, 4%nat); (PSBT_IN_REQUIRED_HEIGHT_LOCKTIME, 4%nat)].
Definition output_ok : MapPair -> bool := width_ok [(PSBT_OUT_AMOUNT, 8%nat)].

Lemma entry_snoc ty ps p : entry ty (ps ++ [p]) = if is_entry ty p then Some (value p) else entry ty ps.
Proof. unfold entry. by rewrite fold_left_app. Qed.
Lemma int_entry_snoc ty ps p :
  int_entry ty (ps ++ [p]) = if is_entry ty p then Some (le_value (value p)) else int_entry ty ps.
Proof. unfold int_entry. rewrite entry_snoc. by case_match. Qed.

Lemma collects_snoc {T} (f : MapPair -> T -> outcome PsbtError T) t ps p :
  collects f t (ps ++ [p]) = (t ← collects f t ps; f p t).
Proof.
  revert t; induction ps as [|q ps IH]; intros t; cbn; [by destruct (f p t)|].
  destruct (f q t) as [t'|e| |]; cbn; [apply IH|done..].
Qed.

(** One case per type of key. *)
Ltac field_cases p :=
  repeat match goal with
  | |- context [Z.eqb (key_type p) ?k] => destruct (Z.eqb_spec (key_type p) k) as [Hty|];
      [rewrite Hty in *; cbn -[entry int_entry] | ]
  end.

Lemma input_step p ps :
  input_field p (input_of ps) = if input_ok p then Ok (input_of (ps ++ [p])) else Err BadValue.
Proof.
  unfold input_ok, width_ok, input_of. cbn [forallb fst snd].
  rewrite !entry_snoc, !int_entry_snoc. unfold input_field, is_entry.
  destruct (bool_decide (key_data p = [])); cbn [negb]; [|by rewrite !andb_false_r].
  rewrite !andb_true_r.
  unfold le_field, bytes_field.
  field_cases p.
  all: try done; by destruct (_ =? _)%nat.
Qed.
Lemma output_step p ps :
  output_field p (output_of ps) = if output_ok p then Ok (output_of (ps ++ [p])) else Err BadValue.
Proof.
  unfold output_ok, width_ok, output_of. cbn [forallb fst snd].
  rewrite !entry_snoc, !int_entry_snoc. unfold output_field, is_entry.
  destruct (bool_decide (key_data p = [])); cbn [negb]; [|by rewrite !andb_false_r].
  rewrite !andb_true_r. unfold le_field. field_cases p.
  all: try done; by destruct (_ =? _)%nat.
Qed.

(** The global map: the counts are sizes. *)
Definition size_value (v : list Z) : option Z :=
  match u64_from_compact_size v with Ok n => Some n | _ => None end.
Definition global_of (ps : list MapPair) : GlobalFields := {|
  psbt_version := int_entry PSBT_GLOBAL_VERSION ps;
  g_tx_version := as_i32 <$> int_entry PSBT_GLOBAL_TX_VERSION ps;
  g_fallback_locktime := int_entry PSBT_GLOBAL_FALLBACK_LOCKTIME ps;
  n_inputs := entry PSBT_GLOBAL_INPUT_COUNT ps ≫= size_value;
  n_outputs := entry PSBT_GLOBAL_OUTPUT_COUNT ps ≫= size_value;
  g_tx_modifiable := int_entry PSBT_GLOBAL_TX_MODIFIABLE ps;
|}.
Definition is_size (v : list Z) : bool := match size_value v with Some _ => true | None => false end.
Definition global_ok (p : MapPair) : bool :=
  negb (is_entry PSBT_GLOBAL_UNSIGNED_TX p) &&
  width_ok [(PSBT_GLOBAL_VERSION, 4%nat); (PSBT_GLOBAL_TX_VERSION, 4%nat);
            (PSBT_GLOBAL_FALLBACK_LOCKTIME, 4%nat); (PSBT_GLOBAL_TX_MODIFIABLE, 1%nat)] p &&
  (negb (is_entry PSBT_GLOBAL_INPUT_COUNT p) || is_size (value p)) &&
  (negb (is_entry PSBT_GLOBAL_OUTPUT_COUNT p) || is_size (value p)).

Lemma size_value_compact v n : fits v -> size_value v = Some n <-> compact n v.
Proof.
  intros Hv. destruct (u64_compact v Hv) as [_ Hn]. rewrite <- Hn. unfold size_value.
  destruct (u64_from_compact_size v); split; congruence.
Qed.

Lemma global_step p ps : fits (value p) ->
  if global_ok p then global_field p (global_of ps) = Ok (global_of (ps ++ [p]))
  else exists e, global_field p (global_of ps) = Err e.
Proof.
  intros Hv. destruct (u64_compact _ Hv) as [Htot _].
  unfold global_ok, width_ok, is_size, size_value, global_of. cbn [forallb fst snd].
  rewrite !entry_snoc, !int_entry_snoc. unfold global_field, is_entry.
  destruct (bool_decide (key_data p = [])); cbn [negb]; [|by rewrite !andb_false_r].
  rewrite !andb_true_r. unfold le_field.
  field_cases p.
  all: repeat case_match; try done; cbn in *; simplify_eq; eauto.
  all: unfold size_value; by rewrite H.
Qed.

(** The fields are a view of the pairs, if every pair is right. *)
Lemma collects_view {T} (f : MapPair -> T -> outcome PsbtError T) (view : list MapPair -> T) (ok : MapPair -> bool) ps :
  (forall p qs, fits (value p) ->
    if ok p then f p (view qs) = Ok (view (qs ++ [p])) else exists e, f p (view qs) = Err e) ->
  Forall (fun p => fits (value p)) ps ->
  forall t, collects f (view []) ps = Ok t <-> (forallb ok ps = true /\ t = view ps).
Proof.
  intros Hf. induction ps as [|p ps IH] using rev_ind; intros Hps t.
  { cbn. split; [intros [= <-]|intros [_ ->]]; done. }
  apply Forall_app in Hps as [Hps Hp]. apply Forall_inv in Hp. specialize (IH Hps).
  rewrite collects_snoc, forallb_app. cbn [forallb]. rewrite andb_true_r.
  specialize (Hf p ps Hp). destruct (forallb ok ps).
  - rewrite (proj2 (IH (view ps))) by done. cbn. destruct (ok p).
    + rewrite Hf. split; [intros [= <-]|intros [_ ->]]; done.
    + destruct Hf as [e ->]. split; [done|]. by intros [? _].
  - split; [|by intros [? _]]. destruct (collects f (view []) ps) as [t'|e| |]; try done.
    destruct (proj1 (IH t') eq_refl) as [? _]. done.
Qed.

Lemma map_text_fits ps bs : fits bs -> map_text ps bs -> Forall (fun p => fits (value p)) ps.
Proof.
  intros Hf. induction 1 as [|p ps b1 b2 (ks & vs & -> & _) _ IH]; [by constructor|].
  unfold fits in *. rewrite !length_app, !Forall_app in *. cbn [length] in *.
  destruct Hf as [((_ & _ & _ & ?) & ?) ?]. constructor; [split; [done|lia]|]. apply IH. split; [done|lia].
Qed.

(** ** A whole PSBT *)

(** The pairs of a map in order, each of them right, and their text. *)
Definition map_is (ok : MapPair -> bool) (m : ParsedMap) (bs : list Z) : Prop :=
  map_text (pairs m) bs /\ ordered None (pairs m) /\ forallb ok (pairs m) = true.
Definition input_is (i : Input) (bs : list Z) : Prop :=
  map_is input_ok (in_map i) bs /\ in_fields i = input_of (pairs (in_map i)) /\
  cached_witness_utxo i = None /\ cached_non_witness_utxo i = None.
Definition output_is (o : Output) (bs : list Z) : Prop :=
  map_is output_ok (out_map o) bs /\ out_fields o = output_of (pairs (out_map o)).

Definition counts (ty : Z) (ps : list MapPair) (n : nat) : Prop :=
  exists v, entry ty ps = Some v /\ compact (Z.of_nat n) v.
Record header (p : Psbt) : Prop := {
  header_version : int_entry PSBT_GLOBAL_VERSION (pairs (global_map p)) = Some 2 /\ version p = 2;
  header_tx_version : as_i32 <$> int_entry PSBT_GLOBAL_TX_VERSION (pairs (global_map p)) = Some (tx_version p);
  header_locktime : int_entry PSBT_GLOBAL_FALLBACK_LOCKTIME (pairs (global_map p)) = fallback_locktime p;
  header_modifiable : int_entry PSBT_GLOBAL_TX_MODIFIABLE (pairs (global_map p)) = tx_modifiable p;
  header_inputs : counts PSBT_GLOBAL_INPUT_COUNT (pairs (global_map p)) (length (inputs p));
  header_outputs : counts PSBT_GLOBAL_OUTPUT_COUNT (pairs (global_map p)) (length (outputs p));
  header_cache : cached_unsigned_tx p = None;
}.
Definition psbt_text (raw : list Z) (p : Psbt) : Prop :=
  raw_psbt p = raw /\ header p /\ exists g ins outs, raw = MAGIC ++ g ++ ins ++ outs /\
    map_is global_ok (global_map p) g /\ texts input_is (inputs p) ins /\ texts output_is (outputs p) outs.

Lemma parses_fields {T} N (f : MapPair -> T -> outcome PsbtError T) view (ok : MapPair -> bool) :
  (forall p qs, fits (value p) ->
    if ok p then f p (view qs) = Ok (view (qs ++ [p])) else exists e, f p (view qs) = Err e) ->
  total_on_fits f ->
  parses N (from_cursor f (view [])) (fun r bs => map_is ok (fst r) bs /\ snd r = view (pairs (fst r))).
Proof.
  intros Hf Ht. eapply parses_iff; [by apply parses_map|]. intros r bs Hb. unfold map_is. split.
  - intros (Htxt & Hord & Hcol). apply (collects_view f view ok) in Hcol as [? ?]; [done..|].
    by eapply map_text_fits.
  - intros ((Htxt & Hord & Hok) & Hr). split_and!; try done. apply (collects_view f view ok); [done| |done].
    by eapply map_text_fits.
Qed.

Lemma input_total : total_on_fits input_field.
Proof.
  intros p [] _. unfold input_field, le_field, bytes_field. field_cases p.
  all: destruct (negb _); try done; by destruct (_ =? _)%nat.
Qed.
Lemma output_total : total_on_fits output_field.
Proof.
  intros p [] _. unfold output_field, le_field. field_cases p.
  all: destruct (negb _); try done; by destruct (_ =? _)%nat.
Qed.
Lemma global_total : total_on_fits global_field.
Proof.
  intros p [] Hp. destruct (u64_compact _ Hp) as [Htot _]. unfold global_field, le_field. field_cases p.
  all: destruct (negb _); try done; try (by destruct (_ =? _)%nat).
  all: by destruct (u64_from_compact_size _).
Qed.

Lemma parses_input N : parses N input_from_cursor input_is.
Proof.
  eapply parses_iff.
  - unfold input_from_cursor.
    eapply (parses_bind 0 _ _ _ _ (fun r i bs => i = {| in_map := r.1; in_fields := r.2;
      cached_witness_utxo := None; cached_non_witness_utxo := None |} /\ bs = [])).
    + apply (parses_fields _ _ input_of input_ok); [|apply input_total].
      intros p qs _. rewrite input_step. destruct (input_ok p); eauto.
    + intros; lia.
    + intros [m fields] bs _ _. apply parses_ret.
  - cbn beta. intros i bs _. unfold input_is. split.
    + intros ([m fields] & b1 & b2 & -> & [Hm Hfields] & -> & ->). rewrite app_nil_r. done.
    + intros (Hm & Hfields & Hw & Hn). destruct i as [m fields cw cn]. cbn in *. subst.
      exists (m, input_of (pairs m)), bs, []. rewrite app_nil_r. done.
Qed.
Lemma parses_output N : parses N output_from_cursor output_is.
Proof.
  eapply parses_iff.
  - unfold output_from_cursor.
    eapply (parses_bind 0 _ _ _ _ (fun r o bs => o = {| out_map := r.1; out_fields := r.2 |} /\ bs = [])).
    + apply (parses_fields _ _ output_of output_ok); [|apply output_total].
      intros p qs _. rewrite output_step. destruct (output_ok p); eauto.
    + intros; lia.
    + intros [m fields] bs _ _. apply parses_ret.
  - cbn beta. intros o bs _. unfold output_is. split.
    + intros ([m fields] & b1 & b2 & -> & [Hm Hfields] & -> & ->). rewrite app_nil_r. done.
    + intros (Hm & Hfields). destruct o as [m fields]. cbn in *. subst.
      exists (m, output_of (pairs m)), bs, []. rewrite app_nil_r. done.
Qed.

(** ** The parser of PSBTs

    [parses_all]: the grammar of all of the rest of the input. *)

Definition parses_all {A} (m : ST Cursor PsbtError A) (G : A -> list Z -> Prop) : Prop :=
  forall c, good c ->
    match m c with (Ok a, _) => G a (rest c) | (Err _, _) => True | _ => False end /\
    (forall a, G a (rest c) -> fst (m c) = Ok a).

Lemma parses_all_bind {A B} (m : ST Cursor PsbtError A) (f : A -> ST Cursor PsbtError B) G H :
  (forall N, parses N m G) -> (forall a bs, fits bs -> G a bs -> parses_all (f a) (H a)) ->
  parses_all (x ← m; f x) (fun b bs => exists a b1 b2, bs = b1 ++ b2 /\ G a b1 /\ H a b b2).
Proof.
  intros Hm Hf c Hc. destruct (Hm (S (length (rest c))) c Hc ltac:(lia)) as [Hs Hcomp].
  unfold mbind, st_mbind, st_bind. split.
  - destruct (m c) as [[a|e| |] c']; try done. destruct Hs as (bs & r & E & Hg & ->).
    destruct (rest_app _ _ _ Hc E) as [Er Hc'].
    destruct (Hf a bs (part_fits _ _ _ Hc E) Hg _ Hc') as [Hs2 _].
    destruct (f a _) as [[b|e| |] c2]; try done. exists a, bs, r. rewrite E. split_and!; [done..|]. by rewrite <- Er.
  - intros b (a & b1 & b2 & E & Hg & Hh). rewrite (Hcomp _ _ _ E Hg).
    destruct (rest_app _ _ _ Hc E) as [Er Hc'].
    destruct (Hf a b1 (part_fits _ _ _ Hc E) Hg _ Hc') as [_ Hc2]. apply Hc2. by rewrite Er.
Qed.
Lemma parses_all_lift {A B} (o : outcome PsbtError A) (f : A -> ST Cursor PsbtError B) H :
  match o with Ok _ | Err _ => True | _ => False end -> (forall a, o = Ok a -> parses_all (f a) (H a)) ->
  parses_all (x ← lift o; f x) (fun b bs => exists a, o = Ok a /\ H a b bs).
Proof.
  intros Ho Hf c Hc. unfold mbind, st_mbind, st_bind, lift. destruct o as [a|e| |]; try done.
  - destruct (Hf a eq_refl c Hc) as [Hs Hcomp]. split.
    + destruct (f a c) as [[b|e| |] c']; try done. by exists a.
    + intros b (a' & [= <-] & Hh). by apply Hcomp.
  - split; [done|]. by intros b (a' & ? & _).
Qed.
Lemma parses_all_end {A} (x : A) e :
  parses_all (r ← gets remaining; lift (guard_err (0 <? r) e);; mret x) (fun a bs => a = x /\ bs = []).
Proof.
  intros c Hc. unfold mbind, st_mbind, st_bind, gets, lift. rewrite remaining_rest by done.
  unfold guard_err. destruct (rest c) as [|b r]; cbn; [split; [done|]; by intros a [-> _]|].
  split; [done|]. by intros a [_ ?].
Qed.

Lemma map_is_pos ok m bs : map_is ok m bs -> (1 <= length bs)%nat.
Proof. intros [H _]. by eapply map_text_pos. Qed.

(** What follows the global map. *)
Definition made (raw : list Z) (gm : ParsedMap) (g : GlobalFields) (ver txv : Z) (ins : list Input)
    (outs : list Output) : Psbt :=
  {| raw_psbt := raw; global_map := gm; inputs := ins; outputs := outs; version := ver; tx_version := txv;
     fallback_locktime := g_fallback_locktime g; tx_modifiable := g_tx_modifiable g; cached_unsigned_tx := None |}.
Definition after_global (raw : list Z) (gm : ParsedMap) (g : GlobalFields) (p : Psbt) (bs : list Z) : Prop :=
  exists ni, ok_or (n_inputs g) MissingCounts = Ok ni /\ exists no, ok_or (n_outputs g) MissingCounts = Ok no /\
  exists ver, ok_or (psbt_version g) MissingCounts = Ok ver /\
  exists txv, ok_or (g_tx_version g) MissingCounts = Ok txv /\
  exists u1, guard_err (negb (ver =? 2)) NotAllowed = Ok u1 /\
  exists u2, guard_err (usize_max <? ni) CountsTooLarge = Ok u2 /\
  exists u3, guard_err (usize_max <? no) CountsTooLarge = Ok u3 /\
  exists ins b1 b2, bs = b1 ++ b2 /\ (Z.of_nat (length ins) = ni /\ texts input_is ins b1) /\
  exists outs b3 b4, b2 = b3 ++ b4 /\ (Z.of_nat (length outs) = no /\ texts output_is outs b3) /\
    p = made raw gm g ver txv ins outs /\ b4 = [].

Lemma ok_or_total {E A} (o : option A) (e : E) : match ok_or o e with Ok _ | Err _ => True | _ => False end.
Proof. by destruct o. Qed.
Lemma guard_total {E} b (e : E) : match guard_err b e with Ok _ | Err _ => True | _ => False end.
Proof. by destruct b. Qed.

Lemma size_value_nonneg v n : fits v -> size_value v = Some n -> 0 <= n.
Proof. intros Hf Hn. apply size_value_compact in Hn; [|done]. by eapply compact_nonneg, Hn; destruct Hf. Qed.
Lemma entry_in ty ps v : entry ty ps = Some v -> exists p, p ∈ ps /\ value p = v /\ is_entry ty p = true.
Proof.
  induction ps as [|p ps IH] using rev_ind; [done|]. rewrite entry_snoc. destruct (is_entry ty p) eqn:E.
  - intros [= <-]. exists p. split_and!; [|done..]. apply elem_of_app. right. by apply list_elem_of_singleton.
  - intros Hv. destruct (IH Hv) as (q & Hq & ?). exists q. split; [|done]. apply elem_of_app. by left.
Qed.
Lemma entry_fits ty ps bs v : fits bs -> map_text ps bs -> entry ty ps = Some v -> fits v.
Proof.
  intros Hf Ht (p & Hp & <- & _)%entry_in. pose proof (map_text_fits _ _ Hf Ht) as Hall.
  rewrite Forall_forall in Hall. by apply Hall.
Qed.
Lemma count_nonneg ty ps bs n : fits bs -> map_text ps bs -> entry ty ps ≫= size_value = Some n -> 0 <= n.
Proof.
  intros Hf Ht. destruct (entry ty ps) as [v|] eqn:E; [|done]. cbn. apply size_value_nonneg. by eapply entry_fits.
Qed.

Lemma counts_size ty ps bs n : fits bs -> map_text ps bs ->
  counts ty ps n <-> entry ty ps ≫= size_value = Some (Z.of_nat n).
Proof.
  intros Hf Ht. unfold counts. destruct (entry ty ps) as [v|] eqn:E; cbn.
  - rewrite size_value_compact by by eapply entry_fits. split; [by intros (? & [= <-] & ?)|eauto].
  - split; [by intros (? & ? & _)|done].
Qed.
Lemma texts_length {A} (G : A -> list Z -> Prop) xs bs :
  (forall a bs, G a bs -> (1 <= length bs)%nat) -> texts G xs bs -> (length xs <= length bs)%nat.
Proof.
  intros Hpos (bss & -> & HG). induction HG as [|x b xs bss Hx HG IH]; cbn; [lia|].
  apply Hpos in Hx. rewrite length_app. lia.
Qed.
Lemma input_is_pos i bs : input_is i bs -> (1 <= length bs)%nat.
Proof. intros [H _]. by eapply map_is_pos. Qed.
Lemma output_is_pos o bs : output_is o bs -> (1 <= length bs)%nat.
Proof. intros [H _]. by eapply map_is_pos. Qed.

Definition body_is (raw : list Z) (p : Psbt) (bs : list Z) : Prop :=
  raw_psbt p = raw /\ header p /\ exists g ins outs, bs = g ++ ins ++ outs /\
    map_is global_ok (global_map p) g /\ texts input_is (inputs p) ins /\ texts output_is (outputs p) outs.

Lemma body_text raw p bs : fits bs ->
  (exists r b1 b2, bs = b1 ++ b2 /\ (map_is global_ok r.1 b1 /\ r.2 = global_of (pairs r.1)) /\
     after_global raw r.1 r.2 p b2) <-> body_is raw p bs.
Proof.
  intros Hf. unfold after_global, body_is. split.
  - intros ([gm g] & gb & b2 & -> & [Hm Hg] & ni & Hni & no & Hno & ver & Hver & txv & Htxv & u1 & H2 & _ & _ & _ & _
      & ins & b3 & b4 & -> & [Hil Hi] & outs & b5 & b6 & -> & [Hol Ho] & -> & ->). cbn [fst snd] in *. subst g.
    apply fits_app in Hf as [Hf _]. pose proof (proj1 Hm) as Ht.
    rewrite ok_or_Ok in Hni, Hno, Hver, Htxv. rewrite guard_Ok in H2. apply negb_false_iff, Z.eqb_eq in H2 as ->.
    cbn in Hni, Hno, Hver, Htxv. split_and!; [done| |].
    + split; cbn; try done; apply (counts_size _ _ gb); congruence.
    + exists gb, b3, b5. by rewrite app_nil_r.
  - intros (Hraw & Hh & gb & ins & outs & -> & Hm & Hi & Ho). destruct p as [raw' gm ii os ver txv fl md c].
    destruct Hh as [Hv Htx Hfl Hmd Hci Hco Hc]. cbn in *. subst raw' c fl md. destruct Hv as [Hv ->].
    pose proof (proj2 Hf) as Hlen. rewrite !length_app in Hlen.
    pose proof (texts_length _ _ _ input_is_pos Hi). pose proof (texts_length _ _ _ output_is_pos Ho).
    apply fits_app in Hf as [Hf _]. pose proof (proj1 Hm) as Ht.
    apply (counts_size _ _ gb) in Hci; [|done..]. apply (counts_size _ _ gb) in Hco; [|done..].
    exists (gm, global_of (pairs gm)), gb, (ins ++ outs). split_and!; [done..|]. cbn [fst snd].
    exists (Z.of_nat (length ii)). rewrite ok_or_Ok. split; [done|].
    exists (Z.of_nat (length os)). rewrite ok_or_Ok. split; [done|].
    exists 2. rewrite ok_or_Ok. split; [done|]. exists txv. rewrite ok_or_Ok. split; [done|].
    exists tt. split; [done|]. exists tt. rewrite guard_Ok. split; [unfold usize_max; lia|].
    exists tt. rewrite guard_Ok. split; [unfold usize_max; lia|].
    exists ii, ins, outs. split_and!; [done..|]. exists os, outs, []. by rewrite app_nil_r.
Qed.

Lemma parse_maps_fits raw c : good c ->
  match parse_maps raw c with (Ok p, _) => body_is raw p (rest c) | (Err _, _) => True | _ => False end /\
  (forall p, body_is raw p (rest c) -> fst (parse_maps raw c) = Ok p).
Proof.
  intros Hc. pose proof (good_fits c Hc) as Hfit.
  enough (parses_all (parse_maps raw) (fun p bs => exists r b1 b2, bs = b1 ++ b2 /\
    (map_is global_ok r.1 b1 /\ r.2 = global_of (pairs r.1)) /\ after_global raw r.1 r.2 p b2)) as Hall.
  { destruct (Hall c Hc) as [Hs Hcomp]. split.
    - destruct (parse_maps raw c) as [[p|e| |] c']; try done. by apply body_text.
    - intros p Hp. apply Hcomp. by apply body_text. }
  unfold parse_maps. apply parses_all_bind.
  - intros N. apply (parses_fields _ _ global_of global_ok); [apply global_step|apply global_total].
  - intros [gm g] bs Hbs [Hm Hg]. cbn [fst snd] in *. unfold after_global.
    apply parses_all_lift; [apply ok_or_total|]. intros ni Hni.
    apply parses_all_lift; [apply ok_or_total|]. intros no Hno.
    do 2 (apply parses_all_lift; [apply ok_or_total|]; intros ? _).
    do 3 (apply parses_all_lift; [apply guard_total|]; intros ? _).
    rewrite ok_or_Ok in Hni, Hno. subst g. cbn in Hni, Hno.
    apply (count_nonneg _ _ bs) in Hni; [|done|apply Hm]. apply (count_nonneg _ _ bs) in Hno; [|done|apply Hm].
    apply parses_all_bind.
    { intros N. apply parses_collect; [intros; apply parses_input|apply input_is_pos|done]. }
    intros ins ? _ _. apply parses_all_bind.
    { intros N. apply parses_collect; [intros; apply parses_output|apply output_is_pos|done]. }
    intros outs ? _ _. apply parses_all_end.
Qed.

(** The parser ends on every input, without a panic, and accepts the texts of PSBTs. *)
Lemma parse_text raw : fits raw ->
  match parse raw with Ok p => psbt_text raw p | Err _ => True | _ => False end /\
  (forall p, psbt_text raw p -> parse raw = Ok p).
Proof.
  intros [Hb Hl]. unfold parse. destruct (_ || _) eqn:E; cbn.
  - split; [done|]. intros p (_ & _ & g & ins & outs & -> & _). rewrite bool_decide_true in E by done.
    rewrite orb_false_r in E. apply Z.ltb_lt in E. rewrite length_app in E. cbn in E. lia.
  - apply orb_false_iff in E as [H5 Hm]. apply Z.ltb_ge in H5. apply negb_false_iff, bool_decide_eq_true in Hm.
    set (c := {| buf := raw; pos := 5 |}). assert (good c) as Hc by (split; cbn; [lia|done|done]).
    assert (raw = MAGIC ++ rest c) as Hraw by (rewrite <- Hm; symmetry; apply (take_drop 5 raw)).
    destruct (parse_maps_fits raw c Hc) as [Hs Hcomp]. split.
    + destruct (parse_maps raw c) as [[p|e| |] c']; try done. cbn. destruct Hs as (Hr & Hh & g & ins & outs & E & ?).
      split_and!; [done..|]. exists g, ins, outs. by rewrite <- E.
    + intros p (Hr & Hh & g & ins & outs & E & ?). apply Hcomp. split_and!; [done..|]. exists g, ins, outs.
      split; [|done]. rewrite Hraw in E at 1. by apply (app_inv_head MAGIC) in E.
Qed.
