(* ===== verification/PsbtLookup.v ===== *)
(** * Lookups in the maps of a PSBT, and its transaction

    The library's bisection finds what is there ([binary_search_spec]); a map that was parsed
    is sorted, so that a lookup is membership, the pairs of a type are those that a filter
    gives, and the fields of an input are lookups. *)

From S2P Require Import Prelude Psbt PsbtSpec.
From Stdlib Require Import Sorted.

(** ** Bisection *)

Section search.
Context {A : Type} (f : A -> comparison) (l : list A).

(** What is too small comes first, what is too big last. *)
Definition monotone : Prop := forall i j x y, (i < j)%nat -> l !! i = Some x -> l !! j = Some y ->
  (f x = Gt -> f y = Gt) /\ (f y = Lt -> f x = Lt).
Definition big (i : nat) : Prop := f <$> l !! i = Some Gt.

Lemma big_later i j : monotone -> (i <= j < length l)%nat -> big i -> big j.
Proof.
  intros Hm Hij. unfold big. destruct (decide (i = j)) as [->|Hne]; [done|].
  destruct (lookup_lt_is_Some_2 l i) as [x Hx]; [lia|]. destruct (lookup_lt_is_Some_2 l j) as [y Hy]; [lia|].
  rewrite Hx, Hy. cbn. intros [= Hg]. f_equal. destruct (Hm i j x y ltac:(lia) Hx Hy) as [H1 _]. auto.
Qed.

(** The window that is left: nothing before [base] is too big, all after the window is. *)
Definition window (base size : nat) : Prop :=
  (1 <= size)%nat /\ (base + size <= length l)%nat /\ (base = 0%nat \/ ~ big base) /\
  (base + size = length l \/ big (base + size))%nat.

Lemma search_window fuel size base : monotone -> (size <= fuel)%nat -> window base size ->
  window (search_loop f l fuel size base) 1.
Proof.
  intros Hm. revert size base; induction fuel as [|fuel IH]; intros size base Hf Hw;
    pose proof Hw as (Hs & Hl & Hb & He); [lia|].
  cbn [search_loop]. destruct (Nat.ltb_spec 1 size) as [Hgt|Hle]; [|by replace size with 1%nat in Hw by lia].
  pose proof (Nat.div_mod_eq size 2) as Hd. pose proof (Nat.mod_upper_bound size 2 ltac:(lia)) as Hr.
  set (half := (size / 2)%nat) in *. apply IH; [lia|].
  destruct (lookup_lt_is_Some_2 l (base + half)) as [x Hx]; [lia|]. rewrite Hx. cbn [fmap option_fmap option_map].
  destruct (f x) eqn:Hfx; split_and!; try lia.
  - right. unfold big. rewrite Hx. cbn. congruence.
  - replace (base + half + (size - half))%nat with (base + size)%nat by lia. done.
  - right. unfold big. rewrite Hx. cbn. congruence.
  - replace (base + half + (size - half))%nat with (base + size)%nat by lia. done.
  - done.
  - right. apply (big_later (base + half)); [done|lia|]. unfold big. rewrite Hx. cbn. by rewrite Hfx.
Qed.

Lemma binary_search_spec : monotone ->
  match binary_search_by f l with
  | inl i => exists x, l !! i = Some x /\ f x = Eq
  | inr i => (i <= length l)%nat /\ forall j x, l !! j = Some x -> f x = if (j <? i)%nat then Lt else Gt
  end.
Proof.
  intros Hm. unfold binary_search_by. destruct l as [|a l'] eqn:El; [by split|]. rewrite <- El in *. clear a l' El.
  destruct (decide (length l = 0)%nat) as [Hz|Hz].
  { apply length_zero_iff_nil in Hz. rewrite Hz. cbn. done. }
  assert (window (search_loop f l (length l) (length l) 0) 1) as (_ & Hb & Hlo & Hhi)
    by (apply search_window; [done|lia|]; split_and!; [lia|lia|by left|by left]).
  set (base := search_loop f l (length l) (length l) 0) in *.
  destruct (lookup_lt_is_Some_2 l base) as [x Hx]; [lia|]. rewrite Hx. cbn [fmap option_fmap option_map].
  destruct (f x) eqn:Hfx.
  - by exists x.
  - split; [lia|]. intros j y Hy. destruct (Nat.ltb_spec j (S base)) as [Hj|Hj].
    + destruct (decide (j = base)) as [->|]; [congruence|]. destruct (Hm j base y x ltac:(lia) Hy Hx) as [_ H1]. auto.
    + pose proof (lookup_lt_Some _ _ _ Hy). destruct Hhi as [|Hhi]; [lia|].
      apply (big_later _ j) in Hhi; [|done|lia]. unfold big in Hhi. rewrite Hy in Hhi. cbn in Hhi. congruence.
  - split; [lia|]. destruct Hlo as [H0|Hlo]; [|unfold big in Hlo; rewrite Hx in Hlo; cbn in Hlo; congruence].
    intros j y Hy. rewrite H0 in *. cbn. pose proof (lookup_lt_Some _ _ _ Hy).
    assert (big j) as Hj by (apply (big_later 0); [done|lia|]; unfold big; rewrite Hx; cbn; by rewrite Hfx).
    unfold big in Hj. rewrite Hy in Hj. cbn in Hj. congruence.
Qed.
End search.

(** A predicate that holds of a prefix. *)
Lemma partition_point_spec {A} (p : A -> bool) (l : list A) :
  (forall i j x y, (i < j)%nat -> l !! i = Some x -> l !! j = Some y -> p y = true -> p x = true) ->
  let k := partition_point p l in
  (k <= length l)%nat /\ forall j x, l !! j = Some x -> p x = (j <? k)%nat.
Proof.
  intros Hp. unfold partition_point.
  assert (monotone (fun x => if p x then Lt else Gt) l) as Hm.
  { intros i j x y Hij Hx Hy. specialize (Hp i j x y Hij Hx Hy).
    destruct (p x), (p y); split; try done; by specialize (Hp eq_refl). }
  pose proof (binary_search_spec _ _ Hm) as Hs.
  destruct (binary_search_by _ l) as [i|i].
  - destruct Hs as (x & _ & Hx). by destruct (p x).
  - destruct Hs as [Hl Hs]. split; [done|]. intros j x Hx. specialize (Hs j x Hx).
    destruct (p x), (j <? i)%nat; done.
Qed.

(** ** Sorted maps *)

Lemma ordered_sorted last ps : ordered last ps ->
  StronglySorted key_lt ps /\ match last with Some q => Forall (key_lt q) ps | None => True end.
Proof.
  revert last; induction ps as [|p ps IH]; intros last H; [split; [constructor|by destruct last; [constructor|]]|].
  destruct H as [Ha Ho]. destruct (IH _ Ho) as [Hs Hp]. split; [by constructor|].
  destruct last as [q|]; [|done]. cbn in Ha. constructor; [done|].
  eapply Forall_impl; [exact Hp|]. intros r Hr. by transitivity p.
Qed.
Lemma sorted_lookup ps i j a b : StronglySorted key_lt ps -> (i < j)%nat ->
  ps !! i = Some a -> ps !! j = Some b -> key_lt a b.
Proof.
  intros Hs. revert i j; induction Hs as [|p ps Hs IH Hp]; intros i j Hij Ha Hb; [done|].
  destruct j as [|j]; [lia|]. cbn in Hb. destruct i as [|i].
  - injection Ha as ->. rewrite Forall_lookup in Hp. by eapply Hp.
  - eapply (IH i j); [lia|done..].
Qed.

Lemma cmp_key_spec t d p : match cmp_key t d p with
  | Eq => key_type p = t /\ key_data p = d
  | Lt => key_lt p (Build_MapPair t d [])
  | Gt => key_lt (Build_MapPair t d []) p
  end.
Proof.
  unfold cmp_key, key_lt. cbn. destruct (Z.compare_spec (key_type p) t) as [He|He|He]; cbn; [|by left..].
  destruct (cmp_bytes (key_data p) d) eqn:E; [by apply cmp_bytes_eq in E|by right|].
  right. split; [done|]. by rewrite cmp_bytes_antisym, E.
Qed.
Lemma key_lt_eq_l a a' b : key_type a = key_type a' -> key_data a = key_data a' -> key_lt a b -> key_lt a' b.
Proof. unfold key_lt. by intros -> ->. Qed.
Lemma key_lt_irr a : ~ key_lt a a.
Proof. by apply key_lt_irrefl. Qed.

Lemma cmp_key_monotone t d ps : StronglySorted key_lt ps -> monotone (cmp_key t d) ps.
Proof.
  intros Hs i j x y Hij Hx Hy. pose proof (sorted_lookup _ _ _ _ _ Hs Hij Hx Hy) as Hlt.
  pose proof (cmp_key_spec t d x) as Sx. pose proof (cmp_key_spec t d y) as Sy. split; intros E; rewrite E in *.
  - destruct (cmp_key t d y); [|exfalso|done].
    + destruct Sy as [Ht Hd]. exfalso. apply (key_lt_irr x). transitivity y; [done|].
      eapply key_lt_eq_l; [..|exact Sx]; done.
    + apply (key_lt_irr x). transitivity y; [done|]. by transitivity (Build_MapPair t d []).
  - destruct (cmp_key t d x); [exfalso|done|exfalso].
    + destruct Sx as [Ht Hd]. apply (key_lt_irr y). transitivity (Build_MapPair t d []); [done|].
      eapply key_lt_eq_l; [..|exact Hlt]; done.
    + apply (key_lt_irr x). transitivity y; [done|]. by transitivity (Build_MapPair t d []).
Qed.

Lemma map_get_in m t d v : ordered None (pairs m) -> map_get m t d = Some v <-> Build_MapPair t d v ∈ pairs m.
Proof.
  intros [Hs _]%ordered_sorted. pose proof (binary_search_spec _ _ (cmp_key_monotone t d _ Hs)) as Hb.
  unfold map_get. destruct (binary_search_by _ _) as [i|i].
  - destruct Hb as ([t' d' v'] & Hi & Hc). pose proof (cmp_key_spec t d (Build_MapPair t' d' v')) as Sx.
    rewrite Hc in Sx. cbn in Sx. destruct Sx as [-> ->]. rewrite Hi. cbn. split.
    + intros [= ->]. by eapply list_elem_of_lookup_2.
    + intros [j Hj]%list_elem_of_lookup_1. destruct (Nat.lt_trichotomy i j) as [Hlt|[->|Hlt]]; [|congruence|].
      * pose proof (sorted_lookup _ _ _ _ _ Hs Hlt Hi Hj) as H. by apply key_lt_irrefl in H.
      * pose proof (sorted_lookup _ _ _ _ _ Hs Hlt Hj Hi) as H. by apply key_lt_irrefl in H.
  - destruct Hb as [_ Hb]. split; [done|]. intros [j Hj]%list_elem_of_lookup_1. apply Hb in Hj.
    pose proof (cmp_key_spec t d (Build_MapPair t d v)) as Sx. rewrite Hj in Sx.
    destruct (_ <? _)%nat; by apply key_lt_irrefl in Sx.
Qed.

Lemma filter_all_true {A} (P : A -> Prop) `{!forall x, Decision (P x)} l : Forall P l -> filter P l = l.
Proof. induction 1 as [|x l Hx Hl IH]; [done|]. by rewrite filter_cons_True, IH. Qed.
Lemma filter_all_false {A} (P : A -> Prop) `{!forall x, Decision (P x)} l :
  Forall (fun x => ~ P x) l -> filter P l = [].
Proof. induction 1 as [|x l Hx Hl IH]; [done|]. by rewrite filter_cons_False. Qed.

Lemma sorted_types ps i j a b : StronglySorted key_lt ps -> (i < j)%nat ->
  ps !! i = Some a -> ps !! j = Some b -> key_type a <= key_type b.
Proof. intros Hs Hij Ha Hb. destruct (sorted_lookup _ _ _ _ _ Hs Hij Ha Hb) as [|[? _]]; lia. Qed.

Lemma map_iter_keys_filter m t : ordered None (pairs m) ->
  map_iter_keys m t = filter (fun p => key_type p = t) (pairs m).
Proof.
  intros [Hs _]%ordered_sorted. unfold map_iter_keys. set (ps := pairs m) in *.
  destruct (partition_point_spec (fun p => key_type p <? t) ps) as [Hk Hlt].
  { intros i j x y Hij Hx Hy Hp%Z.ltb_lt. apply Z.ltb_lt. pose proof (sorted_types _ _ _ _ _ Hs Hij Hx Hy). lia. }
  set (k := partition_point _ ps) in *.
  assert (forall j x, drop k ps !! j = Some x -> t <= key_type x) as Hge.
  { intros j x Hx. rewrite lookup_drop in Hx. specialize (Hlt _ _ Hx).
    rewrite (proj2 (Nat.ltb_ge _ _)) in Hlt by lia. by apply Z.ltb_ge in Hlt. }
  destruct (partition_point_spec (fun p => Z.eqb (key_type p) t) (drop k ps)) as [Hn Heq].
  { intros i j x y Hij Hx Hy Hp%Z.eqb_eq. apply Z.eqb_eq. specialize (Hge _ _ Hx).
    rewrite lookup_drop in Hx, Hy. pose proof (sorted_types _ (k + i) (k + j) _ _ Hs ltac:(lia) Hx Hy). lia. }
  set (n := partition_point _ (drop k ps)) in *.
  replace (k + n - k)%nat with n by lia. unfold slice.
  rewrite <- (take_drop k ps) at 2. rewrite <- (take_drop n (drop k ps)) at 2. rewrite !filter_app.
  rewrite (filter_all_false _ (take k ps)), (filter_all_true _ (take n _)), (filter_all_false _ (drop n _)).
  - by rewrite app_nil_r.
  - apply Forall_lookup. intros j x Hx. rewrite lookup_drop in Hx. specialize (Heq _ _ Hx).
    rewrite (proj2 (Nat.ltb_ge _ _)) in Heq by lia. by apply Z.eqb_neq.
  - apply Forall_lookup. intros j x [Hx Hj]%lookup_take_Some. specialize (Heq _ _ Hx).
    rewrite (proj2 (Nat.ltb_lt _ _)) in Heq by lia. by apply Z.eqb_eq.
  - apply Forall_lookup. intros j x [Hx Hj]%lookup_take_Some. specialize (Hlt _ _ Hx).
    rewrite (proj2 (Nat.ltb_lt _ _)) in Hlt by lia. apply Z.ltb_lt in Hlt. lia.
Qed.

(** ** Fields are lookups *)

Lemma entry_some ty ps p : p ∈ ps -> is_entry ty p = true -> is_Some (entry ty ps).
Proof.
  intros Hp He. induction ps as [|q ps IH] using rev_ind; [by apply not_elem_of_nil in Hp|].
  rewrite entry_snoc. destruct (is_entry ty q) eqn:Hq; [by eexists|].
  apply elem_of_app in Hp as [Hp|Hp%list_elem_of_singleton]; [by apply IH|congruence].
Qed.
Lemma entry_get ty m : ordered None (pairs m) -> entry ty (pairs m) = map_get m ty [].
Proof.
  intros Ho. destruct (entry ty (pairs m)) as [v|] eqn:E.
  - apply entry_in in E as ([t d v'] & Hp & <- & He). symmetry. apply map_get_in; [done|].
    unfold is_entry in He. apply andb_prop in He as [Ht%Z.eqb_eq Hd%bool_decide_eq_true]. cbn in *. by subst.
  - destruct (map_get m ty []) as [v|] eqn:G; [|done]. apply map_get_in in G; [|done].
    apply (entry_some ty) in G as [v' ?]; [congruence|]. unfold is_entry. cbn. by rewrite Z.eqb_refl.
Qed.

Definition input_view (i : Input) : InputFields := {|
  non_witness_utxo := input_get i 0x00 [];
  witness_utxo := input_get i 0x01 [];
  sighash_type := le_value <$> input_get i 0x03 [];
  redeem_script := input_get i 0x04 [];
  witness_script := input_get i 0x05 [];
  final_scriptsig := input_get i 0x07 [];
  final_scriptwitness := input_get i 0x08 [];
  previous_txid := input_get i 0x0E [];
  output_index := le_value <$> input_get i 0x0F [];
  sequence := le_value <$> input_get i 0x10 [];
  required_time_locktime := le_value <$> input_get i 0x11 [];
  required_height_locktime := le_value <$> input_get i 0x12 [];
|}.
Definition output_view (o : Output) : OutputFields := {|
  out_redeem_script := output_get o 0x00 [];
  out_witness_script := output_get o 0x01 [];
  amount := le_value <$> output_get o 0x03 [];
  script := output_get o 0x04 [];
|}.

Lemma input_of_view i bs : input_is i bs -> in_fields i = input_view i.
Proof.
  intros ([_ [Ho _]] & -> & _). unfold input_of, input_view, int_entry, input_get. by rewrite !entry_get.
Qed.
Lemma output_of_view o bs : output_is o bs -> out_fields o = output_view o.
Proof.
  intros ([_ [Ho _]] & ->). unfold output_of, output_view, int_entry, output_get. by rewrite !entry_get.
Qed.

Lemma texts_in {A} (G : A -> list Z -> Prop) xs bs x : texts G xs bs -> x ∈ xs -> exists b, G x b.
Proof.
  intros (bss & _ & HG) [i Hi]%list_elem_of_lookup_1. destruct (Forall2_lookup_l _ _ _ _ _ HG Hi) as (b & _ & ?).
  by exists b.
Qed.

(** The maps of a PSBT. *)
Definition maps (p : Psbt) : list ParsedMap :=
  global_map p :: map in_map (inputs p) ++ map out_map (outputs p).
Lemma maps_ordered raw p m : psbt_text raw p -> m ∈ maps p -> ordered None (pairs m).
Proof.
  intros (_ & _ & g & ins & outs & _ & Hg & Hi & Ho) Hm. unfold maps in Hm.
  apply elem_of_cons in Hm as [->|[Hm|Hm]%elem_of_app]; [apply Hg| |].
  - apply list_elem_of_fmap in Hm as (i & -> & Hin). destruct (texts_in _ _ _ _ Hi Hin) as [b Hb]. apply Hb.
  - apply list_elem_of_fmap in Hm as (o & -> & Hin). destruct (texts_in _ _ _ _ Ho Hin) as [b Hb]. apply Hb.
Qed.

(** ** The lock time *)

Definition heights (p : Psbt) : list Z := omap (fun i => required_height_locktime (in_fields i)) (inputs p).
Definition times (p : Psbt) : list Z := omap (fun i => required_time_locktime (in_fields i)) (inputs p).
(** The greatest of a list and [d]. *)
Definition greatest (d : Z) (l : list Z) : Z := foldr Z.max d l.

Lemma fold_max (sel : InputFields -> option Z) ins acc :
  fold_left (fun req inp =>
    match sel (in_fields inp) with
    | Some h => Some (match req with None => h | Some m => Z.max m h end)
    | None => req
    end) ins (Some acc) = Some (greatest acc (omap (fun i => sel (in_fields i)) ins)).
Proof.
  revert acc; induction ins as [|i ins IH]; intros acc; cbn; [done|].
  destruct (sel (in_fields i)) as [h|]; cbn; [|apply IH]. rewrite IH. f_equal. clear. unfold greatest.
  induction (omap _ ins) as [|x l IH]; cbn in *; lia.
Qed.
Lemma max_required_spec sel ins :
  max_required sel ins = match omap (fun i => sel (in_fields i)) ins with [] => None | h :: l => Some (greatest h l) end.
Proof.
  unfold max_required. induction ins as [|i ins IH]; cbn; [done|].
  destruct (sel (in_fields i)) as [h|]; cbn; [apply fold_max|exact IH].
Qed.
Lemma greatest_le d l n : greatest d l <= n <-> d <= n /\ Forall (fun x => x <= n) l.
Proof.
  induction l as [|x l IH]; cbn; [split; [by intros; split; [|constructor]|by intros [? _]]|].
  rewrite Forall_cons. rewrite Z.max_lub_iff, IH. tauto.
Qed.
Lemma greatest_shift d h l : Z.max d (greatest h l) = greatest d (h :: l).
Proof. unfold greatest. induction l as [|x l IH]; cbn in *; lia. Qed.

Lemma greatest_lt n d l : (greatest d l <? n) = negb (existsb (fun x => n <=? x) (d :: l)).
Proof.
  unfold greatest. cbn [existsb]. induction l as [|x l IH]; cbn [foldr existsb];
    [|rewrite orb_assoc, (orb_comm (n <=? d)), <- orb_assoc, negb_orb, <- IH]; lia.
Qed.
Lemma greatest_ge n d l : (n <=? greatest d l) = negb (forallb (fun x => x <? n) (d :: l)).
Proof.
  unfold greatest. cbn [forallb]. induction l as [|x l IH]; cbn [foldr forallb];
    [|rewrite andb_assoc, (andb_comm (d <? n)), <- andb_assoc, negb_andb, <- IH]; lia.
Qed.

(** ** What the methods leave as it is: all but the caches *)

Definition uncached_input (i : Input) : Input := {|
  in_map := in_map i; in_fields := in_fields i; cached_witness_utxo := None; cached_non_witness_utxo := None |}.
Definition uncached (p : Psbt) : Psbt := {|
  raw_psbt := raw_psbt p; global_map := global_map p; inputs := map uncached_input (inputs p);
  outputs := outputs p; version := version p; tx_version := tx_version p;
  fallback_locktime := fallback_locktime p; tx_modifiable := tx_modifiable p; cached_unsigned_tx := None |}.

Lemma parsed_uncached raw p : psbt_text raw p -> uncached p = p.
Proof.
  intros (_ & Hh & g & ins & outs & _ & _ & Hi & _). pose proof (header_cache _ Hh) as Hc.
  assert (map uncached_input (inputs p) = inputs p) as Hins.
  2: { destruct p. unfold uncached. cbn in *. by rewrite Hins, Hc. }
  destruct Hi as (bss & _ & HG). induction HG as [|i b ii bss Hib HG IH]; cbn; [done|]. f_equal; [|done].
  destruct Hib as (_ & _ & Hw & Hn). destruct i. unfold uncached_input. cbn in *. by subst.
Qed.

(** The transaction is that of the parsed PSBT, and stays it. *)
Definition tx_cached (p : Psbt) : Prop := forall tx, cached_unsigned_tx p = Some tx -> build_unsigned_tx p = Ok tx.
Lemma build_cached p tx : build_unsigned_tx (set_cached_unsigned_tx tx p) = build_unsigned_tx p.
Proof. done. Qed.
Lemma unsigned_tx_spec p : tx_cached p ->
  fst (unsigned_tx p) = build_unsigned_tx p /\ tx_cached (snd (unsigned_tx p)) /\
  uncached (snd (unsigned_tx p)) = uncached p.
Proof.
  intros Hc. unfold unsigned_tx, mbind, st_mbind, st_bind, gets, get, modify, lift.
  destruct (cached_unsigned_tx p) as [tx|] eqn:E; cbn.
  - split_and!; [symmetry; by apply Hc|done|done].
  - destruct (build_unsigned_tx p) as [tx|e| |] eqn:B; cbn; try done.
    split_and!; [done| |done]. intros tx' [= <-]. by rewrite build_cached.
Qed.

Section sighash.
Context `{SighashCrate}.

Lemma wp_with_input {A} t index (m : ST Input PsbtError A) p i (Q : A -> Psbt -> Prop) :
  inputs p !! index = Some i ->
  wp t m i (fun a i' => uncached_input i' = uncached_input i /\
    forall p', uncached p' = uncached p -> Q a p') ->
  wp t (with_input index m) p Q.
Proof.
  intros Hi. unfold wp, with_input. rewrite Hi. destruct (m i) as [[a|e| |] i']; try done.
  intros [Hu HQ]. apply HQ. unfold uncached. cbn. f_equal. rewrite list_fmap_insert, Hu.
  apply list_insert_id. by rewrite list_lookup_fmap, Hi.
Qed.

Lemma witness_utxo_safe i : wp Safe get_witness_utxo i (fun _ i' => uncached_input i' = uncached_input i).
Proof.
  unfold get_witness_utxo. apply wp_bind, wp_gets. destruct (cached_witness_utxo i); [by apply wp_ret|].
  apply wp_bind, wp_gets. destruct (witness_utxo (in_fields i)) as [w|]; [|by apply wp_ret].
  destruct (_ || _) eqn:E; [by apply wp_fail|].
  apply orb_false_iff in E as [[H9 _]%orb_false_iff Hl]. apply Z.ltb_ge in H9. apply negb_false_iff, Z.eqb_eq in Hl.
  apply wp_bind. unfold range. rewrite (proj2 (Z.leb_le _ _)), (proj2 (Z.leb_le _ _)) by lia. cbn [andb].
  apply wp_lift, wp_bind, wp_modify. by apply wp_gets.
Qed.
Lemma non_witness_utxo_safe i : wp Safe get_non_witness_utxo i (fun _ i' => uncached_input i' = uncached_input i).
Proof.
  unfold get_non_witness_utxo. apply wp_bind, wp_gets. destruct (cached_non_witness_utxo i); [by apply wp_ret|].
  apply wp_bind, wp_gets. destruct (non_witness_utxo (in_fields i)) as [w|]; [|by apply wp_ret].
  apply wp_bind. destruct (deserialize_tx w); [|done]. apply wp_lift, wp_bind, wp_modify. by apply wp_gets.
Qed.

(** The index of the output that an input spends is not negative. *)
Definition indexed (p : Psbt) : Prop := forall i v, i ∈ inputs p -> output_index (in_fields i) = Some v -> 0 <= v.
Lemma uncached_length p p' : uncached p' = uncached p -> length (inputs p') = length (inputs p).
Proof. intros E. apply (f_equal (fun q => length (inputs q))) in E. cbn in E. by rewrite !length_map in E. Qed.
Lemma indexed_uncached p p' : uncached p' = uncached p -> indexed p -> indexed p'.
Proof.
  intros E Hp i v Hi Hv. apply (f_equal inputs) in E. cbn in E.
  assert (uncached_input i ∈ map uncached_input (inputs p)) as Hin by (rewrite <- E; by apply list_elem_of_fmap_2).
  apply list_elem_of_fmap in Hin as (j & Ej & Hj). apply (Hp j v Hj).
  apply (f_equal in_fields) in Ej. cbn in Ej. by rewrite <- Ej.
Qed.

Lemma spend_utxo_safe p index : indexed p -> wp Safe (spend_utxo index) p (fun _ p' => uncached p' = uncached p).
Proof.
  intros Hx. unfold spend_utxo. apply wp_bind, wp_get.
  destruct (Nat.leb_spec (length (inputs p)) index) as [|Hlt]; [by apply wp_fail|].
  destruct (lookup_lt_is_Some_2 _ _ Hlt) as [i Hi]. apply wp_bind, (wp_with_input _ _ _ _ _ _ Hi).
  eapply wp_mono; [apply witness_utxo_safe|]. intros [wutxo|] i' Hu; (split; [done|]); intros p1 E1; [by apply wp_ret|].
  pose proof (uncached_length _ _ E1) as L1. destruct (lookup_lt_is_Some_2 (inputs p1) index) as [i1 Hi1]; [lia|].
  apply wp_bind, (wp_with_input _ _ _ _ _ _ Hi1). eapply wp_mono; [apply non_witness_utxo_safe|].
  intros [tx|] i2 Hu2; (split; [done|]); intros p2 E2; [|by apply wp_fail].
  pose proof (uncached_length _ _ E2) as L2. destruct (lookup_lt_is_Some_2 (inputs p2) index) as [i3 Hi3]; [lia|].
  apply wp_bind, (wp_with_input _ _ _ _ _ _ Hi3), wp_gets. split; [done|]. intros p3 E3. apply wp_bind.
  destruct (output_index (in_fields i3)) as [vout|] eqn:Hv; [|done]. apply wp_lift.
  assert (0 <= vout).
  { apply (indexed_uncached p p2 ltac:(congruence) Hx i3); [by eapply list_elem_of_lookup_2|done]. }
  destruct (Z.leb_spec (Z.of_nat (length (tx_output tx))) vout); [by apply wp_fail|].
  destruct (lookup_lt_is_Some_2 (tx_output tx) (Z.to_nat vout)) as [o Ho]; [lia|]. rewrite Ho. apply wp_lift. congruence.
Qed.

Lemma output_type_redeem spk rs : match output_type spk rs with
  | Ok ShWpkh => is_Some rs | Ok _ | Err _ => True | _ => False end.
Proof. unfold output_type. repeat case_match; simplify_eq; eauto. Qed.

Lemma wp_on_psbt {A} t (m : ST Psbt PsbtError A) p c (Q : A -> Psbt * SighashCache -> Prop) :
  wp t m p (fun a p' => Q a (p', c)) -> wp t (on_psbt m) (p, c) Q.
Proof. unfold wp, on_psbt, zoom. cbn. by destruct (m p) as [[] ?]. Qed.
Lemma wp_on_cache {A} t (f : SighashCache -> A * SighashCache) p c (Q : A -> Psbt * SighashCache -> Prop) :
  Q (fst (f c)) (p, snd (f c)) -> wp t (on_cache f) (p, c) Q.
Proof. unfold wp, on_cache. by destruct (f c). Qed.

Lemma output_index_parsed raw p : bytes_ok raw -> Z.of_nat (length raw) < 2 ^ 32 -> psbt_text raw p -> indexed p.
Proof.
  intros Hb Hl (_ & _ & g & ins & outs & -> & _ & (bss & -> & HG) & _) i v [k Hk]%list_elem_of_lookup_1 Hv.
  destruct (Forall2_lookup_l _ _ _ _ _ HG Hk) as (b & Hbk & (Ht & _) & Hf & _). rewrite Hf in Hv. cbn in Hv.
  unfold int_entry in Hv. destruct (entry PSBT_IN_OUTPUT_INDEX _) as [x|] eqn:E; [|done]. injection Hv as <-.
  apply le_value_range. eapply entry_fits; [|exact Ht|exact E].
  assert (fits (concat bss)) as Hc by (unfold fits; rewrite !Forall_app, !length_app in *; split; [tauto|lia]).
  rewrite <- (take_drop_middle _ _ _ Hbk), concat_app in Hc. cbn in Hc. unfold fits in *.
  rewrite !Forall_app, !length_app in Hc. split; [tauto|lia].
Qed.
End sighash.

(** ** The theorems *)

(** C31. The parser of PSBTs accepts exactly the texts of the grammar and returns what they
    describe; it ends on every input, with a PSBT or an error, and does not panic. *)
Theorem parse_exact raw : bytes_ok raw -> Z.of_nat (length raw) < 2 ^ 32 ->
  (forall p, parse raw = Ok p <-> psbt_text raw p) /\
  ((exists p, parse raw = Ok p) \/ exists e, parse raw = Err e).
Proof.
  intros Hb Hl. destruct (parse_text raw (conj Hb Hl)) as [Hs Hc]. split.
  - intros p. split; [|apply Hc]. intros E. by rewrite E in Hs.
  - destruct (parse raw) as [p|e| |]; [left; by exists p|right; by exists e|done..].
Qed.

(** In every map of a PSBT that was parsed, a lookup by bisection finds the value of
    exactly the keys that are there, and the pairs of a type are all of them, in order; the
    fields of inputs and outputs are lookups of the keys of their types. *)
Theorem lookups_exact raw p : bytes_ok raw -> Z.of_nat (length raw) < 2 ^ 32 -> parse raw = Ok p ->
  (forall m, m ∈ maps p ->
    (forall t d v, map_get m t d = Some v <-> Build_MapPair t d v ∈ pairs m) /\
    (forall t, map_iter_keys m t = filter (fun q => key_type q = t) (pairs m))) /\
  (forall i, i ∈ inputs p -> in_fields i = input_view i) /\
  (forall o, o ∈ outputs p -> out_fields o = output_view o).
Proof.
  intros Hb Hl E. destruct (parse_text raw (conj Hb Hl)) as [Hs _]. rewrite E in Hs. split_and!.
  - intros m Hm. pose proof (maps_ordered _ _ _ Hs Hm). split; intros; [by apply map_get_in|by apply map_iter_keys_filter].
  - intros i Hi. destruct Hs as (_ & _ & g & ins & outs & _ & _ & Hin & _).
    destruct (texts_in _ _ _ _ Hin Hi) as [b Hib]. by eapply input_of_view.
  - intros o Ho. destruct Hs as (_ & _ & g & ins & outs & _ & _ & _ & Hout).
    destruct (texts_in _ _ _ _ Hout Ho) as [b Hob]. by eapply output_of_view.
Qed.

(** C35. The lock time of the transaction: inputs may require heights, or times, but not both;
    it is the greatest that is required, or the fallback if that is greater. *)
Theorem lock_time_exact p : determine_lock_time p =
  let fallback := default 0 (fallback_locktime p) in
  match heights p, times p with
  | [], [] => Ok fallback
  | hs, [] => if forallb (fun h => h <? LOCKTIME_THRESHOLD) hs then Ok (greatest fallback hs) else Err BadValue
  | [], ts => if existsb (fun t => LOCKTIME_THRESHOLD <=? t) ts then Ok (greatest fallback ts) else Err BadValue
  | _, _ => Err BadValue
  end.
Proof.
  unfold determine_lock_time. rewrite !max_required_spec. fold (heights p) (times p).
  destruct (heights p) as [|h hs], (times p) as [|t ts]; try done; cbn [default option_map is_Some guard_err].
  - cbn -[greatest LOCKTIME_THRESHOLD existsb]. rewrite greatest_lt, greatest_shift.
    by destruct (existsb _ _).
  - cbn -[greatest LOCKTIME_THRESHOLD forallb]. rewrite greatest_ge, greatest_shift.
    by destruct (forallb _ _).
Qed.

(** The message to sign of an input never makes the device panic, whatever the PSBT, if the
    cache is for a transaction with its inputs; the PSBT changes in its caches only. *)
Theorem sighash_safe `{SighashCrate} (cache_inputs : SighashCache -> nat)
  (Hlegacy : forall index spk ty c, (index < cache_inputs c)%nat -> is_Some (fst (legacy_signature_hash index spk ty c)))
  raw p0 p c index :
  bytes_ok raw -> Z.of_nat (length raw) < 2 ^ 32 -> parse raw = Ok p0 -> uncached p = p0 ->
  cache_inputs c = length (inputs p) ->
  wp Safe (sighash_ecdsa index) (p, c) (fun r s => snd r = EcdsaSighashType_All /\ uncached (fst s) = p0).
Proof.
  intros Hb Hl Hp <- Hc. destruct (parse_text raw (conj Hb Hl)) as [Hs _]. rewrite Hp in Hs.
  assert (indexed p) as Hx.
  { eapply (indexed_uncached (uncached p)); [by rewrite (parsed_uncached _ _ Hs)|by eapply output_index_parsed]. }
  unfold sighash_ecdsa. apply wp_bind, wp_get.
  destruct (Nat.leb_spec (length (inputs p)) index) as [|Hlt]; [by apply wp_fail|].
  destruct (lookup_lt_is_Some_2 _ _ Hlt) as [i Hi].
  apply wp_bind, wp_on_psbt, (wp_with_input _ _ _ _ _ _ Hi), wp_get. split; [done|]. intros p1 E1.
  apply wp_bind, wp_on_psbt. eapply wp_mono; [by apply spend_utxo_safe, (indexed_uncached p)|].
  intros utxo p2 E2. pose proof (output_type_redeem (script_pubkey utxo) (redeem_script (in_fields i))) as Hty.
  assert (uncached p2 = uncached p) as E3 by congruence.
  apply wp_bind. destruct (output_type _ _) as [ty|e| |]; try done. apply wp_lift.
  assert (forall spk, is_Some (fst (legacy_signature_hash index spk EcdsaSighashType_All c))) as Hleg
    by (intros spk; apply Hlegacy; lia).
  destruct ty.
  all: repeat first
    [ apply wp_bind, wp_on_cache
    | apply wp_bind; match goal with
        | |- context [lift (ok_or ?o _)] => destruct o; [apply wp_lift|done]
        | |- context [lift (unwrap (fst (legacy_signature_hash _ ?spk _ _)))] =>
            destruct (Hleg spk) as [? ->]; apply wp_lift
        | |- context [lift (unwrap (redeem_script _))] => destruct Hty as [? ->]; apply wp_lift
        end
    | by apply wp_ret ].
Qed.

(** ** A PSBT *)

(** A text with one input, which has a witness output, an outpoint, a lookup key with data and
    a required height, and one output. *)
Definition sample : list Z :=
  MAGIC ++
  [1; 0x02; 4; 2; 0; 0; 0] ++ [1; 0x03; 4; 0; 0xC3; 0xC3; 35] ++ [1; 0x04; 1; 1] ++ [1; 0x05; 1; 1] ++
  [1; 0xFB; 4; 2; 0; 0; 0] ++ [0] ++
  [1; 0x01; 11; 16; 39; 0; 0; 0; 0; 0; 0; 2; 81; 82] ++ [3; 0x06; 7; 8; 1; 9] ++
  [1; 0x0E; 32] ++ replicate 32 7 ++ [1; 0x0F; 4; 0; 0; 0; 0] ++ [1; 0x12; 4; 100; 0; 0; 0] ++ [0] ++
  [1; 0x03; 8; 15; 39; 0; 0; 0; 0; 0; 0] ++ [1; 0x04; 2; 81; 82] ++ [0].
Definition sample_psbt : Psbt :=
  Eval vm_compute in match parse sample with Ok p => p | _ => made [] {| pairs := [] |} no_global 0 0 [] [] end.
Lemma sample_parse : parse sample = Ok sample_psbt.
Proof. vm_compute. reflexivity. Qed.
Lemma sample_bytes : bytes_ok sample.
Proof. solve_bytes. Qed.

(** Toy scripts: the kind is the first byte. The cache is the number of inputs. *)
#[export] Instance toy_sighash : SighashCrate := {
  is_witness_program s := match s with b :: _ => b <? 2 | [] => false end;
  is_p2sh s := match s with b :: _ => b =? 2 | [] => false end;
  is_p2wpkh s := match s with b :: _ => b =? 0 | [] => false end;
  is_p2wsh s := match s with b :: _ => b =? 1 | [] => false end;
  deserialize_tx _ := None;
  SighashCache := nat;
  legacy_signature_hash i s ty c := (if (i <? c)%nat then Some s else None, c);
  p2wpkh_signature_hash i s v ty c := (if (i <? c)%nat then Some (v :: s) else None, c);
  p2wsh_signature_hash i s v ty c := (if (i <? c)%nat then Some (v :: s) else None, c);
}.

Lemma parse_exact_witness : psbt_text sample sample_psbt.
Proof. apply (parse_exact sample sample_bytes); [by vm_compute|exact sample_parse]. Defined.
Lemma lookups_exact_witness :
  exists i, inputs sample_psbt = [i] /\ in_fields i = input_view i /\
    input_get i 0x06 [7; 8] = Some [9] /\ input_get i 0x06 [7] = None.
Proof.
  destruct (lookups_exact sample sample_psbt sample_bytes ltac:(by vm_compute) sample_parse) as (_ & Hi & _).
  eexists. split; [reflexivity|]. split; [apply Hi; by left|]. split; by vm_compute.
Defined.
Lemma sighash_safe_witness :
  wp Safe (sighash_ecdsa 0) (sample_psbt, 1%nat) (fun r s => snd r = EcdsaSighashType_All /\ uncached (fst s) = sample_psbt).
Proof.
  apply (sighash_safe (H:=toy_sighash) (fun c : nat => c)) with (raw := sample);
    [|exact sample_bytes|by vm_compute|exact sample_parse|reflexivity|reflexivity].
  intros index spk ty c Hlt. apply Nat.ltb_lt in Hlt. exists spk. cbn [legacy_signature_hash toy_sighash fst]. by rewrite Hlt.
Defined.
(** It is the legacy hash of the script of the witness output. *)
Example sample_sighash : fst (sighash_ecdsa 0 (sample_psbt, 1%nat)) = Ok ([81; 82], 1).
Proof. vm_compute. reflexivity. Qed.

(** The only input requires the height 100, and the fallback is the time 600032000: the lock
    time is the fallback, which has no part in it according to BIP-370. *)
Example fallback_wins :
  heights sample_psbt = [100] /\ determine_lock_time sample_psbt = Ok 600032000.
Proof. by vm_compute. Qed.
