(* ===== verification/Musig.v ===== *)
(** * MuSig2 ([apps/bitcoin/common/src/musig])

    Key aggregation, nonces, tweaks and partial signatures of BIP-327. What the SDK of V-Apps
    promises of points of the curve is the class [Curve]; its numbers modulo the order [N] of
    the curve are [Z] below [N] here. The hashes of the [bitcoin_hashes] crate are the class
    [TaggedHash]. Secrets are not wiped here. *)

From S2P Require Import Prelude.

(** The order of the curve. *)
Definition N : Z := 0xfffffffffffffffffffffffffffffffebaaedce6af48a03bbfd25e8cd0364141.

(** [BigNumMod<32, N>]. *)
Definition bn_from_be_bytes (b : list Z) : Z := be_value b mod N.
Definition bn_to_be_bytes (z : Z) : list Z := be_bytes 32 z.
Definition bn_from_u32 (z : Z) : Z := z mod N.
Definition bn_add (a b : Z) : Z := (a + b) mod N.
Definition bn_mul (a b : Z) : Z := (a * b) mod N.
Definition bn_neg (a : Z) : Z := (bn_from_u32 0 - a) mod N.

Inductive MusigError : Type :=
| InvalidPoint | EmptyPubkeyList | KeyAggInfinity | NonceGenFailed | InvalidContribution (signer : nat)
| TweakOutOfRange | TweakInfinity | PubkeyNotInList | NonceOutOfRange | SecretKeyOutOfRange
| PubkeyMismatch | DerivationFailed | InvalidPartialSignature.

(** Points of the curve: [Point<Secp256k1, 32>] and [EcfpPublicKey]. *)
Class Curve := {
  Point : Type;
  pt_zero : Point;
  pt_add : Point -> Point -> Point;
  pt_mul : Point -> list Z -> Point;
  get_generator : Point;
  pt_x : Point -> list Z;
  pt_y : Point -> list Z;
  from_compressed : list Z -> option Point;
  to_compressed : Point -> list Z;
}.
Class TaggedHash := { tagged_hash : string -> list Z -> list Z }.

Definition zeros (n : nat) : list Z := replicate n 0.
(** The scalar 1. *)
Definition one32 : list Z := zeros 31 ++ [1].

Section musig.
Context `{Curve} `{TaggedHash}.

Definition is_zero (p : Point) : bool := bool_decide (pt_x p = zeros 32) && bool_decide (pt_y p = zeros 32).
Definition cpoint (pk : list Z) : outcome MusigError Point := ok_or (from_compressed pk) InvalidPoint.
Definition cpoint_ext (pk : list Z) : outcome MusigError Point :=
  if forallb (Z.eqb 0) pk then Ok pt_zero else cpoint pk.
Definition has_even_y (p : Point) : bool := Z.land (pt_y p !!! 31%nat) 1 =? 0.

(** ** Key aggregation *)

Fixpoint first_other (first : list Z) (pks : list (list Z)) : list Z :=
  match pks with
  | [] => zeros 33
  | pk :: pks => if negb (bool_decide (pk = first)) then pk else first_other first pks
  end.
Definition second_key (pubkeys : list (list Z)) : outcome MusigError (list Z) :=
  match pubkeys with [] => Panic | first :: rest => Ok (first_other first rest) end.
Definition hash_keys (pubkeys : list (list Z)) : list Z := tagged_hash "KeyAgg list" (concat pubkeys).
Definition key_agg_coeff_internal (pubkeys : list (list Z)) (pk_ pk2 : list Z) : list Z :=
  if bool_decide (pk_ = pk2) then one32
  else bn_to_be_bytes (bn_from_be_bytes (tagged_hash "KeyAgg coefficient" (hash_keys pubkeys ++ pk_))).
Definition key_agg_coeff (pubkeys : list (list Z)) (pk_ : list Z) : outcome MusigError (list Z) :=
  pk2 ← second_key pubkeys;
  Ok (key_agg_coeff_internal pubkeys pk_ pk2).

Record KeyAggContext : Type := { q : Point; gacc : list Z; tacc : list Z }.
Fixpoint key_agg_loop (pubkeys : list (list Z)) (pk2 : list Z) (q : Point) (pks : list (list Z)) :
    outcome MusigError Point :=
  match pks with
  | [] => Ok q
  | pk :: pks =>
      p ← cpoint pk;
      let a_i := key_agg_coeff_internal pubkeys pk pk2 in
      key_agg_loop pubkeys pk2 (pt_add q (pt_mul p a_i)) pks
  end.
Definition key_agg (pubkeys : list (list Z)) : outcome MusigError KeyAggContext :=
  guard_err (match pubkeys with [] => true | _ => false end) EmptyPubkeyList;;
  pk2 ← second_key pubkeys;
  q ← key_agg_loop pubkeys pk2 pt_zero pubkeys;
  guard_err (is_zero q) KeyAggInfinity;;
  Ok {| q := q; gacc := one32; tacc := zeros 32 |}.

(** ** Nonces *)

Record SecNonce : Type := { k1 : list Z; k2 : list Z; pk : list Z }.
Definition nonce_hash (rand pk aggpk : list Z) (i : Z) (msg_prefixed extra_in : list Z) : list Z :=
  tagged_hash "MuSig/nonce"
    (rand ++ [33] ++ pk ++ [32] ++ aggpk ++ msg_prefixed ++ be_bytes 4 (Z.of_nat (length extra_in)) ++ extra_in ++ [i]).
Definition nonce_gen (rand pk aggpk : list Z) : outcome MusigError (SecNonce * list Z) :=
  let msg := [0] in
  let k1 := bn_to_be_bytes (bn_from_be_bytes (nonce_hash rand pk aggpk 0 msg [])) in
  let k2 := bn_to_be_bytes (bn_from_be_bytes (nonce_hash rand pk aggpk 1 msg [])) in
  guard_err (bool_decide (k1 = zeros 32) || bool_decide (k2 = zeros 32)) NonceGenFailed;;
  let g := get_generator in
  let r_s1 := pt_mul g k1 in
  let r_s2 := pt_mul g k2 in
  guard_err (is_zero r_s1 || is_zero r_s2) NonceGenFailed;;
  Ok ({| k1 := k1; k2 := k2; pk := pk |}, to_compressed r_s1 ++ to_compressed r_s2).

(** The sum of the [j]-th points of the nonces. *)
Fixpoint nonce_sum (j i : nat) (acc : Point) (pubnonces : list (list Z)) : outcome MusigError Point :=
  match pubnonces with
  | [] => Ok acc
  | pn :: pubnonces =>
      r_ij ← outcome_map_err (fun _ => InvalidContribution i) (cpoint (slice (j * 33) 33 pn));
      nonce_sum j (S i) (pt_add acc r_ij) pubnonces
  end.
Definition encode_ext (acc : Point) : list Z := if is_zero acc then zeros 33 else to_compressed acc.
Definition nonce_agg (pubnonces : list (list Z)) : outcome MusigError (list Z) :=
  guard_err (match pubnonces with [] => true | _ => false end) EmptyPubkeyList;;
  acc0 ← nonce_sum 0 0 pt_zero pubnonces;
  acc1 ← nonce_sum 1 0 pt_zero pubnonces;
  Ok (encode_ext acc0 ++ encode_ext acc1).

(** ** Tweaks and sessions *)

(** [1], or [n - 1]. *)
Definition sign_scalar (even : bool) : list Z :=
  if even then one32 else bn_to_be_bytes (bn_neg (bn_from_u32 1)).
Definition apply_tweak (ctx : KeyAggContext) (tweak : list Z) (is_xonly : bool) : outcome MusigError KeyAggContext :=
  let g := sign_scalar (negb (is_xonly && negb (has_even_y (q ctx)))) in
  guard_err (negb (bool_decide (bn_to_be_bytes (bn_from_be_bytes tweak) = tweak))) TweakOutOfRange;;
  let q' := pt_add (pt_mul (q ctx) g) (pt_mul get_generator tweak) in
  guard_err (is_zero q') TweakInfinity;;
  let g_mod := bn_from_be_bytes g in
  Ok {| q := q';
        gacc := bn_to_be_bytes (bn_mul g_mod (bn_from_be_bytes (gacc ctx)));
        tacc := bn_to_be_bytes (bn_add (bn_mul g_mod (bn_from_be_bytes (tacc ctx))) (bn_from_be_bytes tweak)) |}.

Record SessionContext : Type := {
  aggnonce : list Z;
  pubkeys : list (list Z);
  tweaks : list (list Z);
  is_xonly : list bool;
  msg : list Z
}.
Record SessionValues : Type := { v_q : Point; v_gacc : list Z; v_tacc : list Z; v_b : list Z; v_r : Point; v_e : list Z }.

Definition noncecoef (aggnonce q_x msg : list Z) : list Z := tagged_hash "MuSig/noncecoef" (aggnonce ++ q_x ++ msg).
Definition final_nonce (aggnonce b : list Z) : outcome MusigError Point :=
  r1 ← cpoint_ext (take 33 aggnonce);
  r2 ← cpoint_ext (drop 33 aggnonce);
  let r := pt_add r1 (pt_mul r2 b) in
  Ok (if is_zero r then get_generator else r).
Fixpoint apply_tweaks (keyagg : KeyAggContext) (tweaks : list (list Z * bool)) : outcome MusigError KeyAggContext :=
  match tweaks with
  | [] => Ok keyagg
  | (tweak, is_xonly) :: tweaks => keyagg ← apply_tweak keyagg tweak is_xonly; apply_tweaks keyagg tweaks
  end.
Definition challenge (r_x q_x msg : list Z) : list Z := tagged_hash "BIP0340/challenge" (r_x ++ q_x ++ msg).
Definition get_session_values (ctx : SessionContext) : outcome MusigError SessionValues :=
  keyagg ← key_agg (pubkeys ctx);
  keyagg ← apply_tweaks keyagg (combine (tweaks ctx) (is_xonly ctx));
  let b := noncecoef (aggnonce ctx) (pt_x (q keyagg)) (msg ctx) in
  r ← final_nonce (aggnonce ctx) b;
  let e := challenge (pt_x r) (pt_x (q keyagg)) (msg ctx) in
  Ok {| v_q := q keyagg; v_gacc := gacc keyagg; v_tacc := tacc keyagg; v_b := b; v_r := r; v_e := e |}.
Definition get_session_key_agg_coeff (ctx : SessionContext) (pubkey : list Z) : outcome MusigError (list Z) :=
  guard_err (negb (existsb (fun pk => bool_decide (pk = pubkey)) (pubkeys ctx))) PubkeyNotInList;;
  key_agg_coeff (pubkeys ctx) pubkey.

(** ** Partial signatures *)

(** Whether [0 < s < n] for the number that [s] encodes. *)
Definition scalar_ok (s : list Z) : bool :=
  bool_decide (bn_to_be_bytes (bn_from_be_bytes s) = s) && negb (bool_decide (s = zeros 32)).
Definition sign (secnonce : SecNonce) (sk : list Z) (ctx : SessionContext) : outcome MusigError (list Z) :=
  let '(Build_SecNonce k1 k2 expected_pk) := secnonce in
  values ← get_session_values ctx;
  let k1_reduced := bn_from_be_bytes k1 in
  let k2_reduced := bn_from_be_bytes k2 in
  guard_err (negb (scalar_ok k1)) NonceOutOfRange;;
  guard_err (negb (scalar_ok k2)) NonceOutOfRange;;
  let '(k1, k2) := if negb (has_even_y (v_r values)) then
                     (bn_to_be_bytes (bn_neg k1_reduced), bn_to_be_bytes (bn_neg k2_reduced))
                   else (k1, k2) in
  let sk_reduced := bn_from_be_bytes sk in
  guard_err (negb (scalar_ok sk)) SecretKeyOutOfRange;;
  let pubkey_point := pt_mul get_generator sk in
  let computed_pk := to_compressed pubkey_point in
  guard_err (negb (bool_decide (computed_pk = expected_pk))) PubkeyMismatch;;
  a ← get_session_key_agg_coeff ctx computed_pk;
  let g := sign_scalar (has_even_y (v_q values)) in
  let d := bn_to_be_bytes (bn_mul (bn_mul (bn_from_be_bytes g) (bn_from_be_bytes (v_gacc values))) sk_reduced) in
  let bk2 := bn_to_be_bytes (bn_mul (bn_from_be_bytes (v_b values)) (bn_from_be_bytes k2)) in
  let ead := bn_to_be_bytes (bn_mul (bn_mul (bn_from_be_bytes (v_e values)) (bn_from_be_bytes a)) (bn_from_be_bytes d)) in
  Ok (bn_to_be_bytes (bn_add (bn_add (bn_from_be_bytes k1) (bn_from_be_bytes bk2)) (bn_from_be_bytes ead))).

Fixpoint sum_psigs (s : Z) (psigs : list (list Z)) : outcome MusigError Z :=
  match psigs with
  | [] => Ok s
  | psig :: psigs =>
      let reduced := bn_from_be_bytes psig in
      guard_err (negb (bool_decide (bn_to_be_bytes reduced = psig))) InvalidPartialSignature;;
      sum_psigs (bn_add s reduced) psigs
  end.
Definition partial_sig_agg (ctx : SessionContext) (psigs : list (list Z)) : outcome MusigError (list Z) :=
  guard_err (negb (length psigs =? length (pubkeys ctx))%nat) InvalidPartialSignature;;
  values ← get_session_values ctx;
  s ← sum_psigs (bn_from_u32 0) psigs;
  let e := bn_from_be_bytes (v_e values) in
  let tacc := bn_from_be_bytes (v_tacc values) in
  let g := bn_from_be_bytes (sign_scalar (has_even_y (v_q values))) in
  let s := bn_add s (bn_mul e (bn_mul g tacc)) in
  Ok (pt_x (v_r values) ++ bn_to_be_bytes s).
End musig.
