(* ===== verification/MusigSpec.v ===== *)
(** * MuSig2 makes Schnorr signatures

    [musig_correct]: if every party signs with the nonce that [nonce_gen] made for it, and the
    nonces do not cancel each other, the aggregate of the partial signatures is a signature of
    the message for the aggregate key, as BIP-340 verifies it, after any tweaks.
    The laws of the group are the class [CurveLaws]; the toy curve is the group of the
    numbers modulo the order, so that the laws can be seen to hold. *)

From S2P Require Import Prelude Musig.

(** ** Congruence modulo the order *)

Definition eqn (a b : Z) : Prop := a mod N = b mod N.
Infix "≡ₙ" := eqn (at level 70).
#[export] Instance eqn_equiv : Equivalence eqn.
Proof. split; unfold eqn; [done|by intros ? ? ->|by intros ? ? ? -> ->]. Qed.
#[export] Instance eqn_add : Proper (eqn ==> eqn ==> eqn) Z.add.
Proof. intros a a' Ha b b' Hb. unfold eqn in *. by rewrite Z.add_mod, Ha, Hb, <- Z.add_mod. Qed.
#[export] Instance eqn_mul : Proper (eqn ==> eqn ==> eqn) Z.mul.
Proof. intros a a' Ha b b' Hb. unfold eqn in *. by rewrite Z.mul_mod, Ha, Hb, <- Z.mul_mod. Qed.
Lemma eqn_mod a : a mod N ≡ₙ a.
Proof. apply Z.mod_mod. done. Qed.
Lemma mod_range z : 0 <= z mod N < N.
Proof. by apply Z.mod_pos_bound. Qed.

(** ** Scalars in bytes *)

Abbreviation scalar32 b := (bytes_ok b /\ length b = 32%nat).
Lemma bn_to_value z : 0 <= z < N -> be_value (bn_to_be_bytes z) = z.
Proof. intros Hz. apply be_value_bytes. unfold N in *. change (256 ^ Z.of_nat 32) with (2 ^ 256). lia. Qed.
Lemma bn_to_scalar z : scalar32 (bn_to_be_bytes z).
Proof. split; [apply be_bytes_ok|apply length_be_bytes]. Qed.
Lemma bn_from_range b : 0 <= bn_from_be_bytes b < N.
Proof. apply mod_range. Qed.
Lemma bn_from_to z : 0 <= z < N -> bn_from_be_bytes (bn_to_be_bytes z) = z.
Proof. intros Hz. unfold bn_from_be_bytes. rewrite bn_to_value by done. by apply Z.mod_small. Qed.
Lemma bn_from_eqn b : bn_from_be_bytes b ≡ₙ be_value b.
Proof. apply eqn_mod. Qed.
Lemma bn_neg_eqn a : bn_neg a ≡ₙ -1 * a.
Proof. unfold bn_neg. rewrite eqn_mod. apply eq_subrelation; [apply _|]. change (bn_from_u32 0) with 0. ring. Qed.
Lemma one32_value : be_value one32 = 1.
Proof. by vm_compute. Qed.
Lemma one32_scalar : scalar32 one32.
Proof. split; [solve_bytes|done]. Qed.
Lemma zeros32_value : be_value (zeros 32) = 0.
Proof. by vm_compute. Qed.
Lemma zeros32_scalar : scalar32 (zeros 32).
Proof. split; [solve_bytes|done]. Qed.

(** [1] or [-1]. *)
Definition unit_of (even : bool) : Z := if even then 1 else -1.
Lemma sign_scalar_value even : be_value (sign_scalar even) ≡ₙ unit_of even.
Proof. destruct even; by vm_compute. Qed.
Lemma sign_scalar_scalar even : scalar32 (sign_scalar even).
Proof. destruct even; [apply one32_scalar|apply bn_to_scalar]. Qed.
Lemma unit_square even : unit_of even * unit_of even = 1.
Proof. by destruct even. Qed.

Lemma scalar_ok_spec s : scalar32 s -> scalar_ok s = true <-> 0 < be_value s < N.
Proof.
  intros [Hb Hl]. pose proof (be_value_range s Hb) as Hr. unfold scalar_ok, bn_from_be_bytes.
  rewrite andb_true_iff, bool_decide_eq_true, negb_true_iff, bool_decide_eq_false. split.
  - intros [Hs Hz]. pose proof (mod_range (be_value s)) as Hm.
    rewrite <- Hs, bn_to_value by done. split; [|lia].
    destruct (Z.eq_dec (be_value s mod N) 0) as [E|]; [|lia]. exfalso. apply Hz. rewrite <- Hs, E. by vm_compute.
  - intros Hs. rewrite Z.mod_small by lia. split.
    + unfold bn_to_be_bytes. rewrite <- Hl. by apply be_bytes_value.
    + intros ->. rewrite zeros32_value in Hs. lia.
Qed.

(** ** What the curve promises: a group of order [N] *)

Class CurveLaws `{Curve} := {
  smul : Z -> Point -> Point;
  pt_mul_smul : forall P k, scalar32 k -> pt_mul P k = smul (be_value k) P;
  pt_add_comm : forall P Q, pt_add P Q = pt_add Q P;
  pt_add_assoc : forall P Q R, pt_add P (pt_add Q R) = pt_add (pt_add P Q) R;
  pt_add_zero : forall P, pt_add pt_zero P = P;
  smul_zero : forall P, smul 0 P = pt_zero;
  smul_one : forall P, smul 1 P = P;
  smul_add : forall a b P, smul (a + b) P = pt_add (smul a P) (smul b P);
  smul_mul : forall a b P, smul a (smul b P) = smul (a * b) P;
  smul_eqn : forall a b P, a ≡ₙ b -> smul a P = smul b P;
  generator_order : forall a, smul a get_generator = pt_zero -> a ≡ₙ 0;
  is_zero_iff : forall P, is_zero P = true <-> P = pt_zero;
  pt_x_scalar : forall P, scalar32 (pt_x P);
  compressed_eq : forall P, P <> pt_zero -> to_compressed P = (if has_even_y P then 2 else 3) :: pt_x P;
  from_to_compressed : forall P, P <> pt_zero -> from_compressed (to_compressed P) = Some P;
  neg_x : forall P, pt_x (smul (-1) P) = pt_x P;
  neg_even : forall P, P <> pt_zero -> has_even_y (smul (-1) P) = negb (has_even_y P);
}.
Class TaggedHashLaws `{TaggedHash} := { tagged_hash_scalar : forall tag m, scalar32 (tagged_hash tag m) }.

(** BIP-340: the point with an even [y], and the verification of a signature. *)
Definition lift_x `{Curve} (x : list Z) : option Point := from_compressed (2 :: x).
Definition schnorr_verify `{CurveLaws} `{TaggedHash} (pk_x msg sig : list Z) : Prop :=
  exists P r s, lift_x pk_x = Some P /\ sig = r ++ s /\ length r = 32%nat /\ scalar32 s /\ be_value s < N /\
    let e := be_value (challenge r pk_x msg) mod N in
    let R := pt_add (smul (be_value s) get_generator) (smul (- e) P) in
    R <> pt_zero /\ has_even_y R = true /\ pt_x R = r.

Section musig.
Context `{CurveLaws} `{TaggedHashLaws}.
Abbreviation G := get_generator.

(** All points are multiples of the generator. *)
Lemma gadd a b : pt_add (smul a G) (smul b G) = smul (a + b) G.
Proof. by rewrite smul_add. Qed.
Lemma gzero : smul 0 G = pt_zero.
Proof. apply smul_zero. Qed.
Lemma pt_mul_gen k b : scalar32 b -> pt_mul (smul k G) b = smul (be_value b * k) G.
Proof. intros Hb. by rewrite pt_mul_smul, smul_mul. Qed.
Lemma gen_mul b : scalar32 b -> pt_mul G b = smul (be_value b) G.
Proof. intros Hb. by rewrite pt_mul_smul. Qed.
Lemma is_zero_false P : is_zero P = false <-> P <> pt_zero.
Proof. rewrite <- is_zero_iff. by destruct (is_zero P). Qed.
Lemma gen_nonzero a : 0 < a < N -> smul a G <> pt_zero.
Proof. intros Ha E. apply generator_order in E. unfold eqn in E. rewrite !Z.mod_small in E; lia. Qed.

(** ** Signers *)

Record signer : Type := { sk : list Z; n1 : list Z; n2 : list Z }.
Definition secret_ok (s : list Z) : Prop := scalar32 s /\ 0 < be_value s < N.
Definition signer_ok (s : signer) : Prop := secret_ok (sk s) /\ secret_ok (n1 s) /\ secret_ok (n2 s).
Definition public_key (s : signer) : list Z := to_compressed (pt_mul G (sk s)).
Definition sec_nonce (s : signer) : SecNonce := {| k1 := n1 s; k2 := n2 s; pk := public_key s |}.
Definition pub_nonce (s : signer) : list Z := to_compressed (pt_mul G (n1 s)) ++ to_compressed (pt_mul G (n2 s)).
Definition sum {A} (f : A -> Z) (l : list A) : Z := foldr (fun x acc => f x + acc) 0 l.

Lemma secret_point s : secret_ok s -> pt_mul G s = smul (be_value s) G /\ smul (be_value s) G <> pt_zero.
Proof. intros [Hs Hr]. split; [by apply gen_mul|by apply gen_nonzero]. Qed.
Lemma compressed_length P : P <> pt_zero -> length (to_compressed P) = 33%nat.
Proof. intros HP. rewrite compressed_eq by done. cbn. f_equal. apply pt_x_scalar. Qed.
Lemma compressed_point s : secret_ok s -> cpoint (to_compressed (pt_mul G s)) = Ok (smul (be_value s) G) /\
  length (to_compressed (pt_mul G s)) = 33%nat.
Proof.
  intros Hs. destruct (secret_point s Hs) as [-> Hz]. unfold cpoint. rewrite from_to_compressed by done.
  split; [done|by apply compressed_length].
Qed.

(** Key aggregation is a linear combination. *)
Lemma key_agg_loop_spec pks pk2 k ss : Forall signer_ok ss ->
  key_agg_loop pks pk2 (smul k G) (map public_key ss) =
    Ok (smul (k + sum (fun s => be_value (key_agg_coeff_internal pks (public_key s) pk2) * be_value (sk s)) ss) G).
Proof.
  intros Hss. revert k; induction Hss as [|s ss Hs Hss IH]; intros k; cbn [map key_agg_loop sum foldr].
  - by rewrite Z.add_0_r.
  - destruct Hs as (Hsk & _). assert (cpoint (public_key s) = Ok (smul (be_value (sk s)) G)) as -> by by apply compressed_point. cbn [mbind outcome_mbind outcome_bind].
    rewrite pt_mul_gen, gadd, IH; [do 2 f_equal; unfold sum; lia|].
    unfold key_agg_coeff_internal. case_bool_decide; [apply one32_scalar|apply bn_to_scalar].
Qed.

(** The coefficient of a signer's key, and the aggregate secret. *)
Definition coeff (pks : list (list Z)) (s : signer) : Z :=
  match second_key pks with
  | Ok pk2 => be_value (key_agg_coeff_internal pks (public_key s) pk2)
  | _ => 0
  end.
Definition agg_secret (ss : list signer) : Z := sum (fun s => coeff (map public_key ss) s * be_value (sk s)) ss.

Lemma key_agg_spec ss ctx : Forall signer_ok ss -> key_agg (map public_key ss) = Ok ctx ->
  q ctx = smul (agg_secret ss) G /\ gacc ctx = one32 /\ tacc ctx = zeros 32.
Proof.
  intros Hss. unfold key_agg, agg_secret, coeff. set (pks := map public_key ss).
  destruct (match pks with [] => true | _ => false end) eqn:E; cbn [guard_err mbind outcome_mbind outcome_bind]; [done|].
  destruct (second_key pks) as [pk2|e| |]; cbn [mbind outcome_mbind outcome_bind]; try done.
  rewrite <- gzero. unfold pks at 2. rewrite key_agg_loop_spec by done. cbn [mbind outcome_mbind outcome_bind].
  destruct (is_zero _); cbn [guard_err mbind outcome_mbind outcome_bind]; [done|]. by intros [= <-].
Qed.

(** A tweaked key: [q = (gacc * x + tacc) * G]. *)
Definition tracks (x : Z) (ctx : KeyAggContext) : Prop :=
  q ctx = smul (be_value (gacc ctx) * x + be_value (tacc ctx)) G /\ scalar32 (gacc ctx) /\ scalar32 (tacc ctx) /\
  q ctx <> pt_zero.

Lemma apply_tweak_spec x ctx t xo ctx' : tracks x ctx -> scalar32 t -> apply_tweak ctx t xo = Ok ctx' -> tracks x ctx'.
Proof.
  intros (Hq & Hg & Ht & _) Hs. unfold apply_tweak. cbv zeta.
  set (g := sign_scalar (negb (xo && negb (has_even_y (q ctx))))).
  assert (scalar32 g) as Hgs by apply sign_scalar_scalar. clearbody g.
  destruct (negb _) eqn:E; cbn [guard_err mbind outcome_mbind outcome_bind]; [done|]. clear E.
  destruct (is_zero _) eqn:E; cbn [guard_err mbind outcome_mbind outcome_bind]; [done|]. intros [= <-].
  apply is_zero_false in E. split; [|split; [apply bn_to_scalar|split; [apply bn_to_scalar|exact E]]]. cbn [q gacc tacc].
  rewrite Hq, pt_mul_gen, gen_mul, gadd by done. apply smul_eqn.
  unfold bn_add, bn_mul. rewrite !bn_to_value by apply mod_range.
  rewrite !eqn_mod, !bn_from_eqn. apply eq_subrelation; [apply _|]. ring.
Qed.
Lemma apply_tweaks_spec x ts ctx ctx' : tracks x ctx -> Forall (fun t => scalar32 t.1) ts ->
  apply_tweaks ctx ts = Ok ctx' -> tracks x ctx'.
Proof.
  intros Hc Hts. revert ctx Hc; induction Hts as [|[t xo] ts Ht Hts IH]; intros ctx Hc; cbn; [by intros [= <-]|].
  destruct (apply_tweak ctx t xo) as [c|e| |] eqn:E; cbn; try done. apply IH. by eapply apply_tweak_spec.
Qed.

(** Nonces add up. *)
Definition nonce1 (ss : list signer) : Z := sum (fun s => be_value (n1 s)) ss.
Definition nonce2 (ss : list signer) : Z := sum (fun s => be_value (n2 s)) ss.

Lemma nonce_sum_spec j (n : signer -> list Z) i k ss :
  (forall s, signer_ok s -> secret_ok (n s) /\ slice (j * 33) 33 (pub_nonce s) = to_compressed (pt_mul G (n s))) ->
  Forall signer_ok ss ->
  nonce_sum j i (smul k G) (map pub_nonce ss) = Ok (smul (k + sum (fun s => be_value (n s)) ss) G).
Proof.
  intros Hn Hss. revert i k; induction Hss as [|s ss Hs Hss IH]; intros i k; cbn [map nonce_sum sum foldr].
  - by rewrite Z.add_0_r.
  - destruct (Hn s Hs) as [Hsec ->]. destruct (compressed_point _ Hsec) as [-> _].
    cbn [outcome_map_err mbind outcome_mbind outcome_bind]. rewrite gadd, IH. do 2 f_equal. unfold sum. lia.
Qed.
Lemma nonce_parts s : signer_ok s ->
  slice (0 * 33) 33 (pub_nonce s) = to_compressed (pt_mul G (n1 s)) /\
  slice (1 * 33) 33 (pub_nonce s) = to_compressed (pt_mul G (n2 s)).
Proof.
  intros (_ & H1' & H2'). destruct (compressed_point _ H1') as [_ L1]. destruct (compressed_point _ H2') as [_ L2].
  unfold pub_nonce, slice. split.
  - change (0 * 33)%nat with 0%nat. rewrite drop_0. apply take_app_length'. lia.
  - change (1 * 33)%nat with 33%nat. rewrite (drop_app_length' _ _ 33) by lia. apply take_ge. lia.
Qed.
Lemma nonce_agg_spec ss agg : Forall signer_ok ss -> nonce_agg (map pub_nonce ss) = Ok agg ->
  agg = encode_ext (smul (nonce1 ss) G) ++ encode_ext (smul (nonce2 ss) G).
Proof.
  intros Hss. unfold nonce_agg. destruct (match map pub_nonce ss with [] => true | _ => false end); [done|].
  cbn [guard_err mbind outcome_mbind outcome_bind]. rewrite <- gzero.
  rewrite (nonce_sum_spec 0 n1), (nonce_sum_spec 1 n2); try done.
  - cbn [mbind outcome_mbind outcome_bind]. by intros [= <-].
  - intros s Hs. split; [apply Hs|]. by apply nonce_parts.
  - intros s Hs. split; [apply Hs|]. by apply nonce_parts.
Qed.

Lemma encode_ext_length P : length (encode_ext P) = 33%nat.
Proof. unfold encode_ext. destruct (is_zero P) eqn:E; [done|]. apply compressed_length. by apply is_zero_false. Qed.
Lemma cpoint_ext_encode P : cpoint_ext (encode_ext P) = Ok P.
Proof.
  unfold cpoint_ext, encode_ext. destruct (is_zero P) eqn:E.
  - apply is_zero_iff in E as ->. by vm_compute (forallb _ _).
  - apply is_zero_false in E. rewrite compressed_eq at 1 by done.
    destruct (has_even_y P); cbn [forallb Z.eqb andb]; unfold cpoint; by rewrite from_to_compressed.
Qed.

(** The sum of the nonces, which is the final nonce unless it is 0. *)
Definition nonce (ss : list signer) (v : SessionValues) : Z := nonce1 ss + be_value (v_b v) * nonce2 ss.

(** What a session has computed, with [y] the secret of the tweaked key. *)
Record session (ss : list signer) (m : list Z) (v : SessionValues) (y : Z) : Prop := {
  session_q : v_q v = smul y G /\ v_q v <> pt_zero;
  session_y : y ≡ₙ be_value (v_gacc v) * agg_secret ss + be_value (v_tacc v);
  session_accs : scalar32 (v_gacc v) /\ scalar32 (v_tacc v);
  session_r : smul (nonce ss v) G <> pt_zero -> v_r v = smul (nonce ss v) G;
  session_b : scalar32 (v_b v);
  session_e : v_e v = challenge (pt_x (v_r v)) (pt_x (v_q v)) m;
}.

Lemma session_values_spec ss ctx v : Forall signer_ok ss -> pubkeys ctx = map public_key ss ->
  nonce_agg (map pub_nonce ss) = Ok (aggnonce ctx) -> Forall (fun t => scalar32 t) (tweaks ctx) ->
  get_session_values ctx = Ok v -> exists y, session ss (msg ctx) v y.
Proof.
  intros Hss Hpk Hagg Htw. apply nonce_agg_spec in Hagg; [|done]. unfold get_session_values. rewrite Hpk.
  destruct (key_agg _) as [c0|e| |] eqn:Hka; cbn [mbind outcome_mbind outcome_bind]; try done.
  assert (tracks (agg_secret ss) c0) as Hc0.
  { destruct (key_agg_spec ss c0 Hss Hka) as (Hq & Hg & Ht). unfold tracks. rewrite Hg, Ht, one32_value, zeros32_value.
    split; [rewrite Hq; f_equal; lia|]. split; [apply one32_scalar|]. split; [apply zeros32_scalar|].
    unfold key_agg in Hka. destruct (match map public_key ss with [] => true | _ => false end); [done|].
    cbn [guard_err mbind outcome_mbind outcome_bind] in Hka.
    destruct (second_key _); cbn [mbind outcome_mbind outcome_bind] in Hka; try done.
    destruct (key_agg_loop _ _ _ _); cbn [mbind outcome_mbind outcome_bind] in Hka; try done.
    destruct (is_zero _) eqn:E; [done|]. cbn [guard_err mbind outcome_mbind outcome_bind] in Hka.
    injection Hka as <-. by apply is_zero_false. }
  destruct (apply_tweaks c0 _) as [c|e| |] eqn:Htweaks; cbn [mbind outcome_mbind outcome_bind]; try done.
  eapply apply_tweaks_spec in Htweaks as (Hq & Hg & Ht & Hz); [|exact Hc0|].
  2: { apply Forall_forall. intros [t xo] Hin%list_elem_of_In%in_combine_l. rewrite Forall_forall in Htw.
       apply Htw. by apply list_elem_of_In. }
  set (b := noncecoef _ _ _). assert (scalar32 b) as Hb by apply tagged_hash_scalar.
  unfold final_nonce. rewrite Hagg.
  rewrite <- (encode_ext_length (smul (nonce1 ss) G)), take_app_length, drop_app_length, !cpoint_ext_encode.
  cbn [mbind outcome_mbind outcome_bind]. rewrite pt_mul_gen, gadd by done. intros [= <-].
  eexists. split; cbn [v_q v_gacc v_tacc v_b v_r v_e nonce]; try done.
  unfold nonce. cbn [v_b]. intros Hnz%is_zero_false. by rewrite Hnz.
Qed.

(** ** Partial signatures *)

Definition partial (pks : list (list Z)) (v : SessionValues) (s : signer) : Z :=
  unit_of (has_even_y (v_r v)) * (be_value (n1 s) + be_value (v_b v) * be_value (n2 s)) +
  be_value (v_e v) * coeff pks s * (unit_of (has_even_y (v_q v)) * be_value (v_gacc v) * be_value (sk s)).

Lemma session_coeff ss ctx s : pubkeys ctx = map public_key ss -> s ∈ ss ->
  exists a, get_session_key_agg_coeff ctx (public_key s) = Ok a /\ be_value a = coeff (map public_key ss) s.
Proof.
  intros Hpk Hs. unfold get_session_key_agg_coeff, coeff, key_agg_coeff. rewrite Hpk.
  assert (existsb (fun pk => bool_decide (pk = public_key s)) (map public_key ss) = true) as ->.
  { apply existsb_exists. exists (public_key s). split; [|by apply bool_decide_eq_true].
    apply in_map. by apply list_elem_of_In. }
  cbn [negb guard_err mbind outcome_mbind outcome_bind].
  destruct ss as [|s0 ss]; [by apply not_elem_of_nil in Hs|]. cbn [map second_key mbind outcome_mbind outcome_bind].
  by eexists.
Qed.

Lemma sign_spec ss ctx v y s : Forall signer_ok ss -> s ∈ ss -> pubkeys ctx = map public_key ss ->
  get_session_values ctx = Ok v -> session ss (msg ctx) v y ->
  exists psig, sign (sec_nonce s) (sk s) ctx = Ok psig /\ scalar32 psig /\ be_value psig < N /\
    be_value psig ≡ₙ partial (map public_key ss) v s.
Proof.
  intros Hss Hin Hpk Hv [_ _ [Hg _] _ Hb _]. rewrite Forall_forall in Hss. pose proof (Hss s Hin) as (Hsk & H1' & H2').
  destruct (session_coeff ss ctx s Hpk Hin) as (a & Ha & Ha'). unfold partial. rewrite <- Ha'.
  unfold sign, sec_nonce. cbv zeta. rewrite Hv. cbn [mbind outcome_mbind outcome_bind].
  rewrite (proj2 (scalar_ok_spec (n1 s) (proj1 H1')) (proj2 H1')), (proj2 (scalar_ok_spec (n2 s) (proj1 H2')) (proj2 H2')).
  cbn [negb guard_err mbind outcome_mbind outcome_bind].
  set (flip := if negb (has_even_y (v_r v)) then _ else _).
  assert (be_value flip.1 ≡ₙ unit_of (has_even_y (v_r v)) * be_value (n1 s) /\
          be_value flip.2 ≡ₙ unit_of (has_even_y (v_r v)) * be_value (n2 s)) as [Hf1 Hf2].
  { unfold flip. destruct (has_even_y (v_r v)); cbn [negb fst snd unit_of].
    { split; apply eq_subrelation; try apply _; ring. }
    rewrite !bn_to_value by apply mod_range. rewrite !bn_neg_eqn, !bn_from_eqn. by split. }
  destruct flip as [f1 f2]. cbn [fst snd] in Hf1, Hf2.
  rewrite (proj2 (scalar_ok_spec (sk s) (proj1 Hsk)) (proj2 Hsk)). cbn [negb guard_err mbind outcome_mbind outcome_bind].
  rewrite bool_decide_true by done. cbn [negb guard_err mbind outcome_mbind outcome_bind].
  change (to_compressed (pt_mul G (sk s))) with (public_key s). rewrite Ha. cbn [mbind outcome_mbind outcome_bind].
  eexists. split; [done|]. split; [apply bn_to_scalar|]. unfold bn_add.
  rewrite bn_to_value by apply mod_range. split; [apply mod_range|].
  unfold bn_mul. rewrite !bn_from_to by apply mod_range. rewrite !eqn_mod, !bn_from_eqn, Hf1, Hf2, sign_scalar_value.
  apply eq_subrelation; [apply _|]. ring.
Qed.

Lemma sum_psigs_spec pks v ss psigs acc : 0 <= acc < N ->
  Forall2 (fun s psig => scalar32 psig /\ be_value psig < N /\ be_value psig ≡ₙ partial pks v s) ss psigs ->
  exists r, sum_psigs acc psigs = Ok r /\ 0 <= r < N /\ r ≡ₙ acc + sum (partial pks v) ss.
Proof.
  intros Hacc H12. revert acc Hacc; induction H12 as [|s psig ss psigs ([Hb Hl] & Hlt & Hval) _ IH]; intros acc Hacc;
    cbn [sum_psigs sum foldr].
  - exists acc. split_and!; [done|lia..|]. by rewrite Z.add_0_r.
  - pose proof (be_value_range psig Hb) as Hr. unfold bn_from_be_bytes. rewrite Z.mod_small by lia.
    rewrite bool_decide_true by (unfold bn_to_be_bytes; rewrite <- Hl; by apply be_bytes_value).
    cbn [negb guard_err mbind outcome_mbind outcome_bind].
    destruct (IH (bn_add acc (be_value psig)) (mod_range _)) as (r & -> & Hrange & Hreq).
    exists r. split_and!; [done|lia..|]. rewrite Hreq. unfold bn_add. rewrite eqn_mod, Hval.
    apply eq_subrelation; [apply _|]. unfold sum. ring.
Qed.

Lemma sum_partial pks v ss : sum (partial pks v) ss =
  unit_of (has_even_y (v_r v)) * nonce ss v +
  be_value (v_e v) * (unit_of (has_even_y (v_q v)) * be_value (v_gacc v) * sum (fun s => coeff pks s * be_value (sk s)) ss).
Proof.
  unfold nonce, nonce1, nonce2, sum. induction ss as [|s ss IH]; cbn [foldr]; [ring|]. rewrite IH. unfold partial. ring.
Qed.

(** Of a point and its opposite, the one with an even [y]. *)
Lemma even_of P : P <> pt_zero -> let P' := smul (unit_of (has_even_y P)) P in
  has_even_y P' = true /\ pt_x P' = pt_x P /\ P' <> pt_zero.
Proof.
  intros HP. cbv zeta. destruct (has_even_y P) eqn:E; cbn [unit_of]; [by rewrite smul_one|].
  rewrite neg_even, neg_x, E by done. split_and!; [done..|]. intros Hz. apply HP.
  rewrite <- (smul_one P). change 1 with (-1 * -1). rewrite <- smul_mul, Hz. rewrite <- (smul_zero P), smul_mul. done.
Qed.
Lemma lift_x_even P : P <> pt_zero -> has_even_y P = true -> lift_x (pt_x P) = Some P.
Proof. intros HP He. unfold lift_x. rewrite <- (from_to_compressed P HP), compressed_eq, He by done. done. Qed.

(** The sum of the partial signatures and of the tweaks' share verifies. *)
Lemma aggregate_verifies ss m v y z : session ss m v y -> smul (nonce ss v) G <> pt_zero -> 0 <= z < N ->
  z ≡ₙ unit_of (has_even_y (v_r v)) * nonce ss v + be_value (v_e v) * (unit_of (has_even_y (v_q v)) * y) ->
  schnorr_verify (pt_x (v_q v)) m (pt_x (v_r v) ++ bn_to_be_bytes z).
Proof.
  intros [[Hq Hqz] _ _ Hr _ He] Hnz Hz Hzv. specialize (Hr Hnz).
  destruct (even_of (v_q v) Hqz) as (Eq & Xq & Nq). assert (v_r v <> pt_zero) as Hrz by by rewrite Hr.
  destruct (even_of (v_r v) Hrz) as (Er & Xr & Nr).
  exists (smul (unit_of (has_even_y (v_q v))) (v_q v)), (pt_x (v_r v)), (bn_to_be_bytes z). split_and!.
  - rewrite <- Xq. by apply lift_x_even.
  - done.
  - apply pt_x_scalar.
  - apply bn_to_scalar.
  - apply bn_to_scalar.
  - rewrite bn_to_value by done. apply Hz.
  - cbv zeta. rewrite <- He, bn_to_value by done.
    assert (pt_add (smul z G) (smul (- (be_value (v_e v) mod N)) (smul (unit_of (has_even_y (v_q v))) (v_q v))) =
            smul (unit_of (has_even_y (v_r v))) (v_r v)) as ->; [|by rewrite Er, Xr].
    rewrite Hq at 2. rewrite Hr at 2. rewrite !smul_mul, gadd. apply smul_eqn. rewrite Hzv.
    replace (- (be_value (v_e v) mod N)) with (-1 * (be_value (v_e v) mod N)) by ring. rewrite eqn_mod.
    apply eq_subrelation; [apply _|]. ring.
Qed.
End musig.

(** What signers with good secrets and nonces make of a session. *)
Lemma signers_sign `{CurveLaws} `{TaggedHashLaws} ss ctx v :
  Forall signer_ok ss -> pubkeys ctx = map public_key ss ->
  nonce_agg (map pub_nonce ss) = Ok (aggnonce ctx) -> Forall (fun t => scalar32 t) (tweaks ctx) ->
  get_session_values ctx = Ok v -> smul (nonce ss v) get_generator <> pt_zero ->
  exists psigs sig, Forall2 (fun s psig => sign (sec_nonce s) (sk s) ctx = Ok psig) ss psigs /\
    partial_sig_agg ctx psigs = Ok sig /\ schnorr_verify (pt_x (v_q v)) (msg ctx) sig.
Proof.
  intros Hss Hpk Hagg Htw Hv Hnz.
  destruct (session_values_spec ss ctx v Hss Hpk Hagg Htw Hv) as [y Hy].
  assert (exists psigs, Forall2 (fun s psig => sign (sec_nonce s) (sk s) ctx = Ok psig /\ scalar32 psig /\
    be_value psig < N /\ be_value psig ≡ₙ partial (map public_key ss) v s) ss psigs) as [psigs Hp].
  { apply Forall_exists_Forall2_l, Forall_forall. intros s Hs. by apply (sign_spec ss ctx v y). }
  assert (length psigs = length ss) as Hl by (symmetry; by eapply Forall2_length).
  pose proof (mod_range 0) as H00.
  destruct (sum_psigs_spec (map public_key ss) v ss psigs (bn_from_u32 0)) as (r & Hr & Hrange & Hreq).
  { apply mod_range. }
  { eapply Forall2_impl; [exact Hp|]. by intros s psig (_ & ?). }
  exists psigs. eexists. split_and!.
  - eapply Forall2_impl; [exact Hp|]. by intros s psig (? & _).
  - unfold partial_sig_agg. rewrite Hpk, length_map, Hl, Nat.eqb_refl. cbn [negb guard_err mbind outcome_mbind outcome_bind].
    rewrite Hv. cbn [mbind outcome_mbind outcome_bind]. rewrite Hr. cbn [mbind outcome_mbind outcome_bind]. done.
  - apply (aggregate_verifies ss (msg ctx) v y); [done..|apply mod_range|].
    unfold bn_add, bn_mul. rewrite !eqn_mod, Hreq, sum_partial, !bn_from_eqn, sign_scalar_value, (session_y _ _ _ _ Hy).
    apply eq_subrelation; [apply _|]. change (bn_from_u32 0) with 0. unfold agg_secret. ring.
Qed.

(** ** Parties, with the nonces that [nonce_gen] makes for them *)

Record party : Type := { secret : list Z; rand : list Z; secnonce : SecNonce; pubnonce : list Z }.
Definition party_key `{Curve} (p : party) : list Z := to_compressed (pt_mul get_generator (secret p)).
Definition party_ok `{CurveLaws} `{TaggedHash} (aggpk : list Z) (p : party) : Prop :=
  secret_ok (secret p) /\ nonce_gen (rand p) (party_key p) aggpk = Ok (secnonce p, pubnonce p).
Definition signer_of (p : party) : signer := {| sk := secret p; n1 := k1 (secnonce p); n2 := k2 (secnonce p) |}.

(** The sum of the aggregate nonce [R1 + b * R2] is the point at infinity. *)
Definition nonces_cancel `{Curve} (ctx : SessionContext) (v : SessionValues) : Prop :=
  exists r1 r2, cpoint_ext (take 33 (aggnonce ctx)) = Ok r1 /\ cpoint_ext (drop 33 (aggnonce ctx)) = Ok r2 /\
    pt_add r1 (pt_mul r2 (v_b v)) = pt_zero.

Section parties.
Context `{CurveLaws} `{TaggedHashLaws}.

Lemma nonzero_secret z : 0 <= z < N -> bn_to_be_bytes z <> zeros 32 -> secret_ok (bn_to_be_bytes z).
Proof.
  intros Hz Hne. split; [apply bn_to_scalar|]. rewrite bn_to_value by done.
  destruct (Z.eq_dec z 0) as [->|]; [|lia]. exfalso. apply Hne. by vm_compute.
Qed.
Lemma nonce_gen_spec aggpk p : party_ok aggpk p ->
  signer_ok (signer_of p) /\ secnonce p = sec_nonce (signer_of p) /\ pubnonce p = pub_nonce (signer_of p).
Proof.
  intros [Hs Hn]. unfold nonce_gen in Hn. cbv zeta in Hn.
  destruct (bool_decide _ || bool_decide _) eqn:E in Hn; [done|]. cbn [guard_err mbind outcome_mbind outcome_bind] in Hn.
  destruct (is_zero _ || is_zero _) in Hn; [done|]. cbn [guard_err mbind outcome_mbind outcome_bind] in Hn.
  apply orb_false_iff in E as [E1 E2]. apply bool_decide_eq_false in E1, E2.
  injection Hn as Esn Epn. unfold signer_ok, sec_nonce, pub_nonce, signer_of. rewrite <- Esn, <- Epn. cbn.
  split_and!; [done|by apply nonzero_secret; [apply bn_from_range|]..|done|done].
Qed.
Definition party_with (s r : list Z) (n : SecNonce * list Z) : party :=
  {| secret := s; rand := r; secnonce := n.1; pubnonce := n.2 |}.
Lemma party_with_ok aggpk s r n : secret_ok s -> nonce_gen r (to_compressed (pt_mul get_generator s)) aggpk = Ok n ->
  party_ok aggpk (party_with s r n).
Proof. intros Hs Hn. split; [done|]. cbn. unfold party_key. cbn. rewrite Hn. by destruct n. Qed.
Lemma parties_signers aggpk ps : Forall (party_ok aggpk) ps -> Forall signer_ok (map signer_of ps) /\
  map party_key ps = map public_key (map signer_of ps) /\ map pubnonce ps = map pub_nonce (map signer_of ps).
Proof.
  intros Hps. split_and!.
  - apply Forall_map. eapply Forall_impl; [exact Hps|]. intros p Hp. by eapply nonce_gen_spec.
  - by rewrite map_map.
  - rewrite map_map. apply map_ext_Forall. eapply Forall_impl; [exact Hps|]. intros p Hp. by eapply nonce_gen_spec.
Qed.
Lemma parties_sign aggpk ps ctx psigs : Forall (party_ok aggpk) ps ->
  Forall2 (fun s psig => sign (sec_nonce s) (sk s) ctx = Ok psig) (map signer_of ps) psigs ->
  Forall2 (fun p psig => sign (secnonce p) (secret p) ctx = Ok psig) ps psigs.
Proof.
  intros Hps. revert psigs. induction Hps as [|p ps Hp _ IH]; intros psigs Hs; inversion Hs; subst; constructor; [|by apply IH].
  destruct (nonce_gen_spec aggpk p Hp) as (_ & -> & _). done.
Qed.
(** Nonces whose sum is 0 cancel. *)
Lemma zero_cancels ss ctx v : Forall signer_ok ss -> nonce_agg (map pub_nonce ss) = Ok (aggnonce ctx) ->
  scalar32 (v_b v) -> smul (nonce ss v) get_generator = pt_zero -> nonces_cancel ctx v.
Proof.
  intros Hss Hagg Hb Hz. apply nonce_agg_spec in Hagg; [|done].
  exists (smul (nonce1 ss) get_generator), (smul (nonce2 ss) get_generator). rewrite Hagg.
  rewrite take_app_length', drop_app_length' by by rewrite encode_ext_length. rewrite !cpoint_ext_encode.
  split_and!; [done..|]. by rewrite pt_mul_gen, gadd by done.
Qed.
End parties.

(** C32. MuSig2: if the keys of a session are those of the parties, its nonce is the aggregate of
    the public nonces that [nonce_gen] returned to them from any randomness, and the points of
    this aggregate nonce do not cancel each other, then every party's [sign] with the secret
    nonce that [nonce_gen] returned succeeds, so does [partial_sig_agg] of the partial
    signatures, and what it returns is a signature of the message, verified as BIP-340 says, for
    the aggregate key after all tweaks. *)
Theorem musig_correct `{CurveLaws} `{TaggedHashLaws} ps aggpk ctx v :
  Forall (party_ok aggpk) ps -> pubkeys ctx = map party_key ps ->
  nonce_agg (map pubnonce ps) = Ok (aggnonce ctx) -> Forall (fun t => scalar32 t) (tweaks ctx) ->
  get_session_values ctx = Ok v -> ~ nonces_cancel ctx v ->
  exists psigs sig, Forall2 (fun p psig => sign (secnonce p) (secret p) ctx = Ok psig) ps psigs /\
    partial_sig_agg ctx psigs = Ok sig /\ schnorr_verify (pt_x (v_q v)) (msg ctx) sig.
Proof.
  intros Hps Hpk Hagg Htw Hv Hnc. destruct (parties_signers aggpk ps Hps) as (Hss & Ek & En).
  rewrite Ek in Hpk. rewrite En in Hagg.
  destruct (session_values_spec _ ctx v Hss Hpk Hagg Htw Hv) as [y Hy].
  destruct (signers_sign (map signer_of ps) ctx v) as (psigs & sig & Hsign & Hsig); [done..| |].
  { intros Hz. apply Hnc. eapply zero_cancels; [done..|apply Hy|done]. }
  exists psigs, sig. split; [by eapply parties_sign|done].
Qed.

(** ** A toy curve

    The numbers modulo [N]; the coordinate [x] of a number and of its opposite is the smaller
    of the two, and the parity of [y] tells which it is. *)

Definition residue : Type := { z : Z | Z.eqb (z mod N) z = true }.
Lemma residue_ok z : Z.eqb ((z mod N) mod N) (z mod N) = true.
Proof. apply Z.eqb_eq. by apply Z.mod_mod. Qed.
Definition res (z : Z) : residue := exist _ (z mod N) (residue_ok z).
Lemma residue_eq (a b : residue) : proj1_sig a = proj1_sig b -> a = b.
Proof.
  destruct a as [a Ha], b as [b Hb]. cbn. intros ->. f_equal. apply Eqdep_dec.UIP_dec. apply Bool.bool_dec.
Qed.
Lemma residue_range (a : residue) : 0 <= proj1_sig a < N.
Proof. destruct a as [a Ha]. cbn. apply Z.eqb_eq in Ha. rewrite <- Ha. apply mod_range. Qed.
Definition toy_x (z : Z) : Z := Z.min z (N - z).
Definition toy_even (z : Z) : bool := 2 * z <? N.

#[export] Instance toy_curve : Curve := {
  Point := residue;
  pt_zero := res 0;
  pt_add a b := res (proj1_sig a + proj1_sig b);
  pt_mul a k := res (be_value k * proj1_sig a);
  get_generator := res 1;
  pt_x a := be_bytes 32 (toy_x (proj1_sig a));
  pt_y a := zeros 31 ++ [if toy_even (proj1_sig a) then 0 else 1];
  from_compressed b :=
    match b with
    | p :: x =>
        if (p =? 2) || (p =? 3) then Some (res (if p =? 2 then be_value x else - be_value x)) else None
    | [] => None
    end;
  to_compressed a := (if toy_even (proj1_sig a) then 2 else 3) :: be_bytes 32 (toy_x (proj1_sig a));
}.
#[export] Instance toy_hash : TaggedHash := {
  tagged_hash tag m := bn_to_be_bytes ((Z.of_nat (String.length tag) + 256 * be_value m) mod N);
}.
#[export] Instance toy_hash_laws : TaggedHashLaws.
Proof. split. intros. apply bn_to_scalar. Qed.

Lemma toy_x_range (a : residue) : 0 <= toy_x (proj1_sig a) < 256 ^ Z.of_nat 32.
Proof.
  pose proof (residue_range a). unfold toy_x. change (256 ^ Z.of_nat 32) with (2 ^ 256). unfold N in *. lia.
Qed.
Lemma toy_even_y (a : residue) : has_even_y (H:=toy_curve) a = toy_even (proj1_sig a).
Proof.
  unfold has_even_y. cbn [pt_y toy_curve]. rewrite list_lookup_total_middle by done. by destruct (toy_even _).
Qed.
Lemma N_odd : N mod 2 = 1.
Proof. done. Qed.
Lemma toy_zero (a : residue) : proj1_sig a = 0 <-> a = res 0.
Proof. split; [intros E; by apply residue_eq|by intros ->]. Qed.
Lemma toy_neg (a : residue) : proj1_sig a <> 0 -> proj1_sig (res (-1 * proj1_sig a)) = N - proj1_sig a.
Proof.
  intros Ha. pose proof (residue_range a). cbn [res proj1_sig].
  rewrite <- (Z.mod_add _ 1) by done. rewrite Z.mod_small; lia.
Qed.
Lemma toy_is_zero (a : residue) : is_zero (H:=toy_curve) a = true <-> a = res 0.
Proof.
  unfold is_zero. cbn [pt_x pt_y toy_curve]. rewrite andb_true_iff, !bool_decide_eq_true. split; [|by intros ->; vm_compute].
  intros [Hx Hy]. apply toy_zero. pose proof (toy_x_range a) as Hr. pose proof (residue_range a).
  apply (f_equal be_value) in Hx. rewrite be_value_bytes, zeros32_value in Hx by done.
  unfold toy_x in Hx. lia.
Qed.
Lemma toy_from_to (a : residue) : a <> res 0 -> from_compressed (Curve:=toy_curve) (to_compressed a) = Some a.
Proof.
  intros Ha. pose proof (toy_x_range a) as Hr. pose proof (residue_range a) as Hr'.
  assert (proj1_sig a <> 0) as Hz by by rewrite toy_zero.
  cbn [from_compressed to_compressed toy_curve]. pose proof N_odd as Ho. unfold toy_even.
  destruct (Z.ltb_spec (2 * proj1_sig a) N) as [Hlt|Hge]; cbn [Z.eqb orb Pos.eqb].
  all: f_equal; apply residue_eq; cbn [res proj1_sig]; rewrite be_value_bytes by done; unfold toy_x.
  - rewrite Z.min_l by lia. by apply Z.mod_small.
  - rewrite Z.min_r by lia. rewrite <- (Z.mod_add _ 1) by done. rewrite Z.mod_small; lia.
Qed.
Lemma toy_neg_x (a : residue) : toy_x (proj1_sig (res (-1 * proj1_sig a))) = toy_x (proj1_sig a).
Proof.
  destruct (Z.eq_dec (proj1_sig a) 0) as [Hz|Hz]; [by apply toy_zero in Hz as ->|].
  rewrite toy_neg by done. unfold toy_x. lia.
Qed.
Lemma toy_neg_even (a : residue) : a <> res 0 ->
  toy_even (proj1_sig (res (-1 * proj1_sig a))) = negb (toy_even (proj1_sig a)).
Proof.
  rewrite <- toy_zero. intros Hz. rewrite toy_neg by done. unfold toy_even. pose proof N_odd.
  pose proof (Z.div_mod N 2). destruct (Z.ltb_spec (2 * proj1_sig a) N), (Z.ltb_spec (2 * (N - proj1_sig a)) N); cbn; lia.
Qed.
#[export] Instance toy_curve_laws : CurveLaws (H:=toy_curve).
Proof.
  refine {| smul := (fun k (a : residue) => res (k * proj1_sig a)) : Z -> @Point toy_curve -> @Point toy_curve |};
    cbn [Point toy_curve pt_mul pt_add pt_zero get_generator pt_x to_compressed from_compressed].
  - done.
  - intros a b. apply residue_eq. cbn. by rewrite Z.add_comm.
  - intros a b c. apply residue_eq. cbn. rewrite Zplus_mod_idemp_r, Zplus_mod_idemp_l. f_equal. lia.
  - intros a. apply residue_eq. cbn. apply Z.mod_small, residue_range.
  - intros a. by apply residue_eq.
  - intros a. apply residue_eq. cbn. rewrite Z.mod_small; [lia|]. pose proof (residue_range a). lia.
  - intros a b P. apply residue_eq. cbn. rewrite <- Z.add_mod by done. f_equal. lia.
  - intros a b P. apply residue_eq. cbn. rewrite Zmult_mod_idemp_r. f_equal. lia.
  - intros a b P Hab. apply residue_eq. cbn. unfold eqn in Hab. by rewrite <- (Zmult_mod_idemp_l a), Hab, Zmult_mod_idemp_l.
  - intros a Ha. apply (f_equal (@proj1_sig _ _)) in Ha. cbn in Ha. unfold eqn. by rewrite Z.mul_1_r in Ha.
  - apply toy_is_zero.
  - intros P. split; [apply be_bytes_ok|apply length_be_bytes].
  - intros P HP. by rewrite toy_even_y.
  - intros P HP. by apply toy_from_to.
  - intros P. by rewrite toy_neg_x.
  - intros P HP. rewrite !toy_even_y. by apply toy_neg_even.
Defined.

(** Two parties, a plain tweak and an x-only tweak. *)
Definition toy_nonce_gen (secret rand : Z) : outcome MusigError (SecNonce * list Z) :=
  nonce_gen (H:=toy_curve) (be_bytes 32 rand)
    (to_compressed (Curve:=toy_curve) (pt_mul get_generator (be_bytes 32 secret))) (zeros 32).
Definition toy_nonce (secret rand : Z) : SecNonce * list Z :=
  match toy_nonce_gen secret rand with Ok n => n | _ => ({| k1 := []; k2 := []; pk := [] |}, []) end.
Definition toy_party (secret rand : Z) : party := party_with (be_bytes 32 secret) (be_bytes 32 rand) (toy_nonce secret rand).
Definition toy_parties : list party := [toy_party 5 11; toy_party (N - 7) 13].
Definition toy_session : SessionContext := {|
  aggnonce := match nonce_agg (H:=toy_curve) (map pubnonce toy_parties) with Ok a => a | _ => [] end;
  pubkeys := map (party_key (H:=toy_curve)) toy_parties;
  tweaks := [be_bytes 32 23; be_bytes 32 29];
  is_xonly := [false; true];
  msg := [1; 2; 3];
|}.
Lemma toy_parties_ok : Forall (party_ok (zeros 32)) toy_parties.
Proof.
  apply Forall_cons; split; [|apply Forall_singleton];
    (apply party_with_ok; [split; [apply bn_to_scalar|by vm_compute]|vm_compute; reflexivity]).
Qed.
Definition sum_nonzero (ctx : SessionContext) (v : SessionValues (H:=toy_curve)) : bool :=
  match cpoint_ext (H:=toy_curve) (take 33 (aggnonce ctx)), cpoint_ext (H:=toy_curve) (drop 33 (aggnonce ctx)) with
  | Ok r1, Ok r2 => negb (proj1_sig (pt_add r1 (pt_mul r2 (v_b v))) =? 0)
  | _, _ => false
  end.
Lemma sum_nonzero_true ctx v : sum_nonzero ctx v = true -> ~ nonces_cancel ctx v.
Proof. intros Hs (r1 & r2 & E1 & E2 & Ez). unfold sum_nonzero in Hs. rewrite E1, E2, Ez in Hs. discriminate Hs. Qed.
Definition toy_nonce_ok : bool :=
  match get_session_values (H:=toy_curve) toy_session with Ok v => sum_nonzero toy_session v | _ => false end.
Lemma toy_nonce_true : toy_nonce_ok = true.
Proof. vm_compute. reflexivity. Qed.
Lemma toy_aggnonce : nonce_agg (map pubnonce toy_parties) = Ok (aggnonce toy_session).
Proof. vm_compute. reflexivity. Qed.

Lemma musig_correct_witness : exists v psigs sig, get_session_values toy_session = Ok v /\
  Forall2 (fun p psig => sign (secnonce p) (secret p) toy_session = Ok psig) toy_parties psigs /\
  partial_sig_agg toy_session psigs = Ok sig /\ schnorr_verify (pt_x (v_q v)) (msg toy_session) sig.
Proof.
  pose proof toy_nonce_true as Hn. unfold toy_nonce_ok in Hn.
  destruct (get_session_values toy_session) as [v|e| |] eqn:E; [|discriminate Hn..].
  exists v. destruct (musig_correct toy_parties (zeros 32) toy_session v) as (psigs & sig & H).
  - exact toy_parties_ok.
  - reflexivity.
  - exact toy_aggnonce.
  - repeat (apply Forall_cons; split); [apply bn_to_scalar..|by apply Forall_nil].
  - exact E.
  - exact (sum_nonzero_true _ _ Hn).
  - exists psigs, sig. split; [reflexivity|exact H].
Defined.
