(* ===== verification/Script.v ===== *)
(** * Scripts of wallet policies ([apps/bitcoin/common/src/script.rs], [taproot.rs])

    The output script of a descriptor template at an address, with the keys that it derives,
    and the hashes of Taproot trees; the aggregate of extended keys ([musig/mod.rs]).
    What the [bitcoin] crate provides is [XpubCrate] for keys and [ScriptCrate] for hashes and
    the builder of scripts, whose operations are applied in the order of the source. *)

From S2P Require Import Prelude Bip388 WalletPolicy Musig.

(** The errors of the application ([errors.rs]). *)
Inductive Error : Type :=
| EInvalidRequest | EInvalidParameter
| EInvalidWalletPolicy | EDefaultAccountsNotSupported | EInvalidProofOfRegistrationLength
| EInvalidProofOfRegistration | EInvalidAccountId | EInvalidKeyIndex | EInvalidScriptContext | ETooManyKeys
| EInvalidMultisigQuorum | EUnsupportedWalletPolicy
| EDerivationPathTooLong | EKeyDerivationFailed | EHardenedDerivationNotSupported | EInvalidKey
| EErrorComputingSighash | ESigningFailed
| EFailedToDeserializePsbt | EFailedToGetAccounts | EExternalInputsNotSupported
| EWitnessUtxoNotAllowedForLegacy | EInvalidNonWitnessUtxo | ENonWitnessUtxoMismatch | ENonWitnessUtxoRequired
| EWitnessUtxoRequiredForSegwit | EInvalidWitnessUtxo | ERedeemScriptMismatchWitness
| EWitnessScriptRequiredForP2WSH | EWitnessScriptMismatchWitness | ERedeemScriptMismatch
| EMissingPreviousOutputIndex | EMissingInputUtxo | EInputScriptMismatch | EOutputScriptMissing
| EOutputAmountMissing | EOutputScriptMismatch | EInputsLessThanOutputs | EFailedUnsignedTransaction
| EAddressFromScriptFailed
| EInvalidIdentitySignature | EIdentityMessageFieldTooLong
| EUnexpectedTaprootPolicy | EUnexpectedSegwitVersion | EStorageError | EUserRejected
| EMissingMusigSession | EMissingMusigPubnonce.

(** ** Aggregate extended keys

    [ckd_pub_tweak] is a step of BIP-32 with its tweak; [synthetic] is the key of depth 0 with
    the given public key and chain code, on the network of another key or on the test network;
    [xpub_x_only] is the [x] coordinate of the public key. *)
Class XpubCrate `{BitcoinCrate} := {
  xpub_public_key : Xpub -> list Z;
  xpub_x_only : Xpub -> list Z;
  derive_pub : Xpub -> list ChildNumber -> option Xpub;
  public_key_valid : list Z -> bool;
  synthetic : option Xpub -> list Z -> list Z -> Xpub;
  ckd_pub_tweak : Xpub -> ChildNumber -> option (list Z * list Z);
  add_exp_tweak : list Z -> list Z -> option (list Z);
  child_xpub : Xpub -> ChildNumber -> list Z -> list Z -> Xpub;
}.
Definition BIP_328_CHAINCODE : list Z :=
  [0x86; 0x80; 0x87; 0xCA; 0x02; 0xA6; 0xF9; 0x74; 0xC4; 0x59; 0x89; 0x24; 0xC3; 0x6B; 0x57; 0x76;
   0x2D; 0x32; 0xCB; 0x45; 0x71; 0x71; 0x67; 0xE3; 0x00; 0x62; 0x2C; 0x71; 0x67; 0xE3; 0x89; 0x65].

(** [a <= b] of byte strings, and [Vec::sort]. *)
Fixpoint bytes_le (a b : list Z) : bool :=
  match a, b with
  | [], _ => true
  | _ :: _, [] => false
  | x :: a, y :: b => (x <? y) || ((x =? y) && bytes_le a b)
  end.
Fixpoint insert_sorted (x : list Z) (l : list (list Z)) : list (list Z) :=
  match l with [] => [x] | y :: l => if bytes_le x y then x :: y :: l else y :: insert_sorted x l end.
Definition sort_keys (l : list (list Z)) : list (list Z) := foldr insert_sorted [] l.

Section xpub.
Context `{XpubCrate} `{Curve} `{TaggedHash}.

Definition aggregate_xpub (participant_xpubs : list Xpub) : outcome MusigError Xpub :=
  let pks := sort_keys (map xpub_public_key participant_xpubs) in
  ctx ← key_agg pks;
  let compressed := (if has_even_y (q ctx) then 2 else 3) :: pt_x (q ctx) in
  guard_err (negb (public_key_valid compressed)) InvalidPoint;;
  Ok (synthetic (head participant_xpubs) compressed BIP_328_CHAINCODE).
Definition ckdpub_with_tweak (parent : Xpub) (child : ChildNumber) : outcome MusigError (Xpub * list Z) :=
  '(tweak_sk, chain_code) ← ok_or (ckd_pub_tweak parent child) DerivationFailed;
  tweaked_pk ← ok_or (add_exp_tweak (xpub_public_key parent) tweak_sk) DerivationFailed;
  Ok (child_xpub parent child tweaked_pk chain_code, tweak_sk).
End xpub.

(** ** Sorting of keys *)

(** [slice::swap] of neighbours. *)
Definition swap_next {A} (j : nat) (a b : A) (l : list A) : list A := <[S j := a]> (<[j := b]> l).
(** The inner loop: [n] comparisons from [j]. *)
Fixpoint bubble_pass {E} (n j : nat) (l : list (list Z)) (swapped : bool) : outcome E (list (list Z) * bool) :=
  match n with
  | O => Ok (l, swapped)
  | S n =>
      a ← unwrap (l !! j);
      b ← unwrap (l !! S j);
      if negb (bytes_le a b) then bubble_pass n (S j) (swap_next j a b l) true
      else bubble_pass n (S j) l swapped
  end.
(** The outer loop, for [i] up to [len]. *)
Fixpoint bubble_loop {E} (n i : nat) (l : list (list Z)) : outcome E (list (list Z)) :=
  match n with
  | O => Ok l
  | S n =>
      '(l, swapped) ← bubble_pass (length l - 1 - i) 0 l false;
      if (swapped : bool) then bubble_loop n (S i) l else Ok l
  end.
Definition bubble_sort {E} (l : list (list Z)) : outcome E (list (list Z)) :=
  if (length l <? 2)%nat then Ok l else bubble_loop (length l) 0 l.

(** ** Scripts *)

Inductive Opcode : Type :=
| OP_0 | OP_PUSHNUM_1 | OP_IF | OP_NOTIF | OP_ELSE | OP_ENDIF | OP_TOALTSTACK | OP_FROMALTSTACK | OP_IFDUP
| OP_DUP | OP_SWAP | OP_SIZE | OP_EQUAL | OP_EQUALVERIFY | OP_0NOTEQUAL | OP_ADD | OP_BOOLAND | OP_BOOLOR
| OP_NUMEQUAL | OP_RIPEMD160 | OP_SHA256 | OP_HASH160 | OP_HASH256 | OP_CHECKSIG | OP_CHECKMULTISIG
| OP_CHECKSIGADD | OP_CLTV | OP_CSV.

Class ScriptCrate := {
  Builder : Type;
  builder_new : Builder;
  push_opcode : Opcode -> Builder -> Builder;
  push_int : Z -> Builder -> Builder;
  push_slice : list Z -> Builder -> Builder;
  push_verify : Builder -> Builder;
  as_bytes : Builder -> list Z;
  hash160 : list Z -> list Z;
  sha256 : list Z -> list Z;
  tapleaf_hash : list Z -> list Z;
  tap_node_hash : list Z -> list Z -> list Z;
  tap_tweak : list Z -> option (list Z) -> list Z;
}.

Inductive ScriptContext : Type := CtxNone | CtxSh | CtxWsh | CtxTr.
#[export] Instance script_context_eq : EqDecision ScriptContext.
Proof. solve_decision. Defined.

Definition MAX_PUBKEYS_PER_MULTISIG : Z := 20.
Definition MAX_PUBKEYS_PER_MULTI_A : Z := 999.

Section to_script.
Context `{XpubCrate} `{Curve} `{TaggedHash} `{ScriptCrate}.
Context (key_information : list KeyInformation) (is_change : bool) (address_index : Z).

Fixpoint participants (indices : list Z) : outcome Error (list Xpub) :=
  match indices with
  | [] => Ok []
  | i :: indices =>
      ki ← ok_or (key_information !! Z.to_nat i) EInvalidKeyIndex;
      xs ← participants indices;
      Ok (pubkey ki :: xs)
  end.
(** The closure [derive]. *)
Definition derive (kp : KeyExpression) : outcome Error Xpub :=
  let change_step := child_from (if is_change then num2 kp else num1 kp) in
  let path := [change_step; child_from address_index] in
  root_xpub ← match key_type kp with
              | PlainKey idx => ki ← ok_or (key_information !! Z.to_nat idx) EInvalidKeyIndex; Ok (pubkey ki)
              | Musig indices =>
                  participant_xpubs ← participants indices;
                  outcome_map_err (fun _ => EInvalidKey) (aggregate_xpub participant_xpubs)
              end;
  ok_or (derive_pub root_xpub path) EInvalidKey.
Fixpoint derive_all (get : Xpub -> list Z) (kps : list KeyExpression) : outcome Error (list (list Z)) :=
  match kps with
  | [] => Ok []
  | kp :: kps => x ← derive kp; keys ← derive_all get kps; Ok (get x :: keys)
  end.
(** The public key that a script of the context has. *)
Definition context_key (ctx : ScriptContext) (x : Xpub) : list Z :=
  if bool_decide (ctx = CtxTr) then xpub_x_only x else xpub_public_key x.

Definition push_keys (keys : list (list Z)) (b : Builder) : Builder := fold_left (fun b key => push_slice key b) keys b.
Fixpoint push_keys_a (idx : nat) (keys : list (list Z)) (b : Builder) : Builder :=
  match keys with
  | [] => b
  | key :: keys =>
      let b := push_slice key b in
      push_keys_a (S idx) keys (if (idx =? 0)%nat then push_opcode OP_CHECKSIG b else push_opcode OP_CHECKSIGADD b)
  end.
(** [OP_SIZE 32 OP_EQUALVERIFY <op> h OP_EQUAL]. *)
Definition push_hash (op : Opcode) (h : list Z) (b : Builder) : Builder :=
  push_opcode OP_EQUAL (push_slice h (push_opcode op (push_opcode OP_EQUALVERIFY (push_int 32 (push_opcode OP_SIZE b))))).
Definition push_multi (sorted : bool) (k : Z) (kps : list KeyExpression) (ctx : ScriptContext) (b : Builder) :
    outcome Error Builder :=
  guard_err (bool_decide (ctx = CtxTr)) EInvalidScriptContext;;
  guard_err (MAX_PUBKEYS_PER_MULTISIG <? Z.of_nat (length kps)) ETooManyKeys;;
  guard_err ((k =? 0) || (Z.of_nat (length kps) <? k)) EInvalidMultisigQuorum;;
  let b := push_int k b in
  keys ← derive_all xpub_public_key kps;
  keys ← (if sorted then bubble_sort keys else Ok keys);
  Ok (push_opcode OP_CHECKMULTISIG (push_int (Z.of_nat (length kps)) (push_keys keys b))).
Definition push_multi_a (sorted : bool) (k : Z) (kps : list KeyExpression) (ctx : ScriptContext) (b : Builder) :
    outcome Error Builder :=
  guard_err (negb (bool_decide (ctx = CtxTr))) EInvalidScriptContext;;
  guard_err (MAX_PUBKEYS_PER_MULTI_A <? Z.of_nat (length kps)) ETooManyKeys;;
  guard_err ((k =? 0) || (Z.of_nat (length kps) <? k)) EInvalidMultisigQuorum;;
  keys ← derive_all xpub_x_only kps;
  keys ← (if sorted then bubble_sort keys else Ok keys);
  Ok (push_opcode OP_NUMEQUAL (push_int k (push_keys_a 0 keys b))).

Fixpoint to_script_inner (d : DescriptorTemplate) (ctx : ScriptContext) (b : Builder) : outcome Error Builder :=
  let op o b : outcome Error Builder := Ok (push_opcode o b) in
  match d with
  | Bip388.Sh inner =>
      guard_err (negb (bool_decide (ctx = CtxNone)) && negb (bool_decide (ctx = CtxWsh))) EInvalidScriptContext;;
      inner_builder ← to_script_inner inner CtxSh builder_new;
      let script_hash := hash160 (as_bytes inner_builder) in
      Ok (push_opcode OP_EQUAL (push_slice script_hash (push_opcode OP_HASH160 b)))
  | Bip388.Wsh inner =>
      guard_err (negb (bool_decide (ctx = CtxNone))) EInvalidScriptContext;;
      inner_builder ← to_script_inner inner CtxWsh builder_new;
      let script_hash := sha256 (as_bytes inner_builder) in
      Ok (push_slice script_hash (push_int 0 b))
  | Pkh kp =>
      key ← derive kp;
      let pubkey_hash := hash160 (context_key ctx key) in
      Ok (push_opcode OP_CHECKSIG (push_opcode OP_EQUALVERIFY (push_slice pubkey_hash
           (push_opcode OP_HASH160 (push_opcode OP_DUP b)))))
  | Bip388.Wpkh kp =>
      guard_err (negb (bool_decide (ctx = CtxNone)) && negb (bool_decide (ctx = CtxSh))) EInvalidScriptContext;;
      key ← derive kp;
      Ok (push_slice (hash160 (xpub_public_key key)) (push_int 0 b))
  | Sortedmulti k kps => push_multi true k kps ctx b
  | Multi k kps => push_multi false k kps ctx b
  | Sortedmulti_a k kps => push_multi_a true k kps ctx b
  | Multi_a k kps => push_multi_a false k kps ctx b
  | Tr k tree =>
      key ← derive k;
      tree_hash ← match tree with
                  | None => Ok None
                  | Some t => h ← outcome_map_err (fun _ => EInvalidKey) (get_taptree_hash t); Ok (Some h)
                  end;
      Ok (push_slice (tap_tweak (xpub_x_only key) tree_hash) (push_int 1 b))
  | Zero => op OP_0 b
  | One => op OP_PUSHNUM_1 b
  | Pk k | W_c (Pk_k k) =>
      key ← derive k;
      op OP_CHECKSIG (push_slice (context_key ctx key) b)
  | Pk_k kp => key ← derive kp; Ok (push_slice (context_key ctx key) b)
  | Pk_h kp =>
      key ← derive kp;
      Ok (push_opcode OP_EQUALVERIFY (push_slice (hash160 (context_key ctx key)) (push_opcode OP_HASH160 (push_opcode OP_DUP b))))
  | Older n => op OP_CSV (push_int n b)
  | After n => op OP_CLTV (push_int n b)
  | Sha256 h => Ok (push_hash OP_SHA256 h b)
  | Hash256 h => Ok (push_hash OP_HASH256 h b)
  | Ripemd160 h => Ok (push_hash OP_RIPEMD160 h b)
  | Hash160 h => Ok (push_hash OP_HASH160 h b)
  | Andor x y z =>
      b ← to_script_inner x ctx b;
      b ← to_script_inner y ctx (push_opcode OP_NOTIF b);
      b ← to_script_inner z ctx (push_opcode OP_ELSE b);
      op OP_ENDIF b
  | And_v x y => b ← to_script_inner x ctx b; to_script_inner y ctx b
  | And_b x y => b ← to_script_inner x ctx b; b ← to_script_inner y ctx b; op OP_BOOLAND b
  | And_n x y =>
      b ← to_script_inner x ctx b;
      b ← to_script_inner y ctx (push_opcode OP_ELSE (push_opcode OP_0 (push_opcode OP_NOTIF b)));
      op OP_ENDIF b
  | Or_b x z => b ← to_script_inner x ctx b; b ← to_script_inner z ctx b; op OP_BOOLOR b
  | Or_c x z => b ← to_script_inner x ctx b; b ← to_script_inner z ctx (push_opcode OP_NOTIF b); op OP_ENDIF b
  | Or_d x z =>
      b ← to_script_inner x ctx b;
      b ← to_script_inner z ctx (push_opcode OP_NOTIF (push_opcode OP_IFDUP b));
      op OP_ENDIF b
  | Or_i x z =>
      b ← to_script_inner x ctx (push_opcode OP_IF b);
      b ← to_script_inner z ctx (push_opcode OP_ELSE b);
      op OP_ENDIF b
  | Thresh k scripts =>
      b ← (fix loop i scripts b :=
             match scripts with
             | [] => Ok b
             | x_i :: scripts =>
                 b ← to_script_inner x_i ctx b;
                 loop (S i) scripts (if (0 <? i)%nat then push_opcode OP_ADD b else b)
             end) 0%nat scripts b;
      op OP_EQUAL (push_int k b)
  | W_a x => b ← to_script_inner x ctx (push_opcode OP_TOALTSTACK b); op OP_FROMALTSTACK b
  | W_s x => to_script_inner x ctx (push_opcode OP_SWAP b)
  | W_c x => b ← to_script_inner x ctx b; op OP_CHECKSIG b
  | W_t x => b ← to_script_inner x ctx b; op OP_PUSHNUM_1 b
  | W_d x => b ← to_script_inner x ctx (push_opcode OP_IF (push_opcode OP_DUP b)); op OP_ENDIF b
  | W_v x => b ← to_script_inner x ctx b; Ok (push_verify b)
  | W_j x =>
      b ← to_script_inner x ctx (push_opcode OP_IF (push_opcode OP_0NOTEQUAL (push_opcode OP_SIZE b)));
      op OP_ENDIF b
  | W_n x => b ← to_script_inner x ctx b; op OP_0NOTEQUAL b
  | W_l x =>
      b ← to_script_inner x ctx (push_opcode OP_ELSE (push_opcode OP_0 (push_opcode OP_IF b)));
      op OP_ENDIF b
  | W_u x =>
      b ← to_script_inner x ctx (push_opcode OP_IF b);
      op OP_ENDIF (push_opcode OP_0 (push_opcode OP_ELSE b))
  end
with get_taptree_hash (t : TapTree) : outcome Error (list Z) :=
  match t with
  | Script leaf_desc =>
      b ← to_script_inner leaf_desc CtxTr builder_new;
      Ok (tapleaf_hash (as_bytes b))
  | Branch l r =>
      l_bytes ← get_taptree_hash l;
      r_bytes ← get_taptree_hash r;
      Ok (tap_node_hash l_bytes r_bytes)
  end.

Definition to_script (d : DescriptorTemplate) (ctx : ScriptContext) : outcome Error (list Z) :=
  b ← to_script_inner d ctx builder_new;
  Ok (as_bytes b).
Definition get_tapleaf_hash (d : DescriptorTemplate) : outcome Error (list Z) :=
  script ← to_script d CtxTr;
  Ok (tapleaf_hash script).
End to_script.

Definition policy_to_script `{XpubCrate} `{Curve} `{TaggedHash} `{ScriptCrate} (p : WalletPolicy) (is_change : bool)
    (address_index : Z) : outcome Error (list Z) :=
  to_script (key_information p) is_change address_index (descriptor_template p) CtxNone.
