(* ===== verification/ScriptSpec.v ===== *)
(** * What the scripts of wallet policies are

    [bubble_sort] is the sorting of the standard library and never fails, so [sortedmulti] and
    [sortedmulti_a] do not depend on the order of their keys. The table of scripts is written
    from the BIPs of the descriptors: a template whose fragments are where the BIPs allow them
    ([placed]) has the script of the table for the template whose [andor] has its last two
    arguments swapped, except that [sh(wsh(X))] has none. *)

From stdpp Require Import sorting.
From S2P Require Import Prelude Text Bip388 Bip388Spec Bip388Print Bip388RoundTrip WalletPolicy WalletPolicySpec Musig MusigSpec Script.

(** ** Sorting *)

Lemma bytes_le_refl a : bytes_le a a = true.
Proof. induction a as [|x a IH]; cbn [bytes_le]; [done|]. rewrite Z.eqb_refl, IH. by rewrite orb_true_r. Qed.
Lemma bytes_le_total a b : bytes_le a b = false -> bytes_le b a = true.
Proof.
  revert b. induction a as [|x a IH]; intros [|y b]; cbn [bytes_le]; try done.
  intros Hab. apply orb_false_iff in Hab as [Hxy Hab]. destruct (Z.eqb_spec x y) as [->|Hne].
  - rewrite (IH b) by done. by rewrite Z.eqb_refl, orb_true_r.
  - by rewrite (proj2 (Z.ltb_lt y x)) by lia.
Qed.
Lemma bytes_le_trans a b c : bytes_le a b = true -> bytes_le b c = true -> bytes_le a c = true.
Proof.
  revert b c. induction a as [|x a IH]; intros [|y b] [|z c]; cbn [bytes_le]; try done.
  rewrite !orb_true_iff, !andb_true_iff, !Z.ltb_lt, !Z.eqb_eq.
  intros [?|[-> Hab]] [?|[-> Hbc]]; [left; lia..|right]. eauto.
Qed.
Lemma bytes_le_antisym a b : bytes_le a b = true -> bytes_le b a = true -> a = b.
Proof.
  revert b. induction a as [|x a IH]; intros [|y b]; cbn [bytes_le]; try done.
  rewrite !orb_true_iff, !andb_true_iff, !Z.ltb_lt, !Z.eqb_eq.
  intros [?|[-> Hab]] [?|[? Hba]]; try lia. f_equal. auto.
Qed.

(** The order of keys, as a relation. *)
Definition key_le (a b : list Z) : Prop := bytes_le a b = true.
#[export] Instance key_le_decision a b : Decision (key_le a b).
Proof. unfold key_le. apply _. Defined.
#[export] Instance key_le_preorder : PreOrder key_le.
Proof. split; [exact bytes_le_refl|exact bytes_le_trans]. Qed.
#[export] Instance key_le_antisymm : AntiSymm (=) key_le.
Proof. exact bytes_le_antisym. Qed.

Lemma insert_sorted_perm x l : insert_sorted x l ≡ₚ x :: l.
Proof.
  induction l as [|y l IH]; cbn [insert_sorted]; [done|]. destruct (bytes_le x y); [done|].
  rewrite IH. apply Permutation_swap.
Qed.
Lemma sort_keys_perm l : sort_keys l ≡ₚ l.
Proof. unfold sort_keys. induction l as [|x l IH]; cbn [foldr]; [done|]. by rewrite insert_sorted_perm, IH. Qed.
Lemma insert_sorted_sorted x l : StronglySorted key_le l -> StronglySorted key_le (insert_sorted x l).
Proof.
  induction 1 as [|y l Hl IH Hy]; cbn [insert_sorted]; [by repeat constructor|].
  destruct (bytes_le x y) eqn:Hxy.
  - constructor; [by constructor|]. constructor; [done|].
    eapply Forall_impl; [exact Hy|]. intros z Hz. by etransitivity.
  - constructor; [done|]. rewrite insert_sorted_perm. constructor; [|done]. by apply bytes_le_total.
Qed.
Lemma sort_keys_sorted l : StronglySorted key_le (sort_keys l).
Proof. unfold sort_keys. induction l; cbn [foldr]; [constructor|]. by apply insert_sorted_sorted. Qed.
Lemma sort_keys_unique l1 l2 : StronglySorted key_le l1 -> l1 ≡ₚ l2 -> l1 = sort_keys l2.
Proof.
  intros Hs Hp. apply (StronglySorted_unique key_le); [done|apply sort_keys_sorted|].
  by rewrite Hp, sort_keys_perm.
Qed.

(** *** One pass

    [pass x l] compares the pair at the head of [x :: l] and moves on with the greater one: the
    values that it leaves behind, the one it ends with and whether it swapped. *)
Fixpoint pass (x : list Z) (l : list (list Z)) : list (list Z) * list Z * bool :=
  match l with
  | [] => ([], x, false)
  | y :: l =>
      if bytes_le x y then let '(r, m, s) := pass y l in (x :: r, m, s)
      else let '(r, m, _) := pass x l in (y :: r, m, true)
  end.

Lemma swap_next_app {A} (p l : list A) a b :
  swap_next (length p) a b (p ++ a :: b :: l) = p ++ b :: a :: l.
Proof.
  unfold swap_next. pose proof (insert_app_r p (a :: b :: l) 0 b) as Hj.
  pose proof (insert_app_r p (b :: b :: l) 1 a) as Hj'. rewrite Nat.add_0_r in Hj. rewrite Nat.add_1_r in Hj'.
  rewrite Hj. exact Hj'.
Qed.
Lemma bubble_pass_pass {E} p x l q s :
  bubble_pass (E := E) (length l) (length p) (p ++ x :: l ++ q) s =
  let '(r, m, s') := pass x l in Ok (p ++ r ++ m :: q, s || s').
Proof.
  revert p x s. induction l as [|y l IH]; intros p x s; cbn [length bubble_pass pass app].
  { by rewrite orb_false_r. }
  assert ((p ++ x :: y :: l ++ q) !! S (length p) = Some y) as ->.
  { rewrite lookup_app_r by lia. by replace (S (length p) - length p)%nat with 1%nat by lia. }
  rewrite (list_lookup_middle p _ x) by reflexivity. cbn [unwrap mbind outcome_mbind outcome_bind].
  assert (forall a b : list Z, S (length p) = length (p ++ [a]) /\ p ++ a :: b :: l ++ q = (p ++ [a]) ++ b :: l ++ q) as Hp.
  { intros a b. rewrite length_app, <- app_assoc. cbn. split; [lia|done]. }
  destruct (bytes_le x y); cbn [negb].
  - destruct (Hp x y) as [-> ->]. setoid_rewrite IH. destruct (pass y l) as [[r m] s']. by rewrite <- app_assoc.
  - rewrite swap_next_app. destruct (Hp y x) as [-> ->]. setoid_rewrite IH.
    destruct (pass x l) as [[r m] s']. rewrite <- app_assoc. cbn. by rewrite orb_true_r.
Qed.

Lemma pass_spec x l r m s :
  pass x l = (r, m, s) ->
  r ++ [m] ≡ₚ x :: l /\ Forall (fun y => key_le y m) r /\ (s = false -> r ++ [m] = x :: l /\ StronglySorted key_le (x :: l)).
Proof.
  revert x r m s. induction l as [|y l IH]; intros x r m s; cbn [pass].
  { intros [= <- <- <-]. repeat split; [done|constructor|by repeat constructor]. }
  destruct (bytes_le x y) eqn:Hxy.
  - destruct (pass y l) as [[r' m'] s'] eqn:Hp. intros [= <- <- <-].
    destruct (IH _ _ _ _ Hp) as (Hperm & Hle & Hs). assert (key_le x m') as Hxm.
    { assert (m' ∈ y :: l) as [->|Hm]%elem_of_cons by (rewrite <- Hperm, elem_of_app, list_elem_of_singleton; by right); [done|].
      transitivity y; [done|]. assert (y ∈ r' ++ [m']) as Hy by (rewrite Hperm; by left).
      apply elem_of_app in Hy as [Hy| ->%list_elem_of_singleton]; [|done].
      by apply (proj1 (Forall_forall _ _) Hle). }
    split; [cbn; by rewrite Hperm|split; [by constructor|]].
    intros Hs'. destruct (Hs Hs') as [Heq Hsort]. cbn. rewrite Heq. split; [done|]. constructor; [done|]. apply StronglySorted_inv in Hsort as [Hsort Hy].
    constructor; [done|]. eapply Forall_impl; [exact Hy|]. intros z Hz. by transitivity y.
  - destruct (pass x l) as [[r' m'] s'] eqn:Hp. intros [= <- <- <-].
    destruct (IH _ _ _ _ Hp) as (Hperm & Hle & _). assert (key_le x m') as Hxm.
    { assert (x ∈ r' ++ [m']) as Hy by (rewrite Hperm; by left).
      apply elem_of_app in Hy as [Hy| ->%list_elem_of_singleton]; [|done].
      by apply (proj1 (Forall_forall _ _) Hle). }
    split; [cbn; rewrite Hperm; apply Permutation_swap|split; [|done]].
    constructor; [|done]. transitivity x; [by apply bytes_le_total|done].
Qed.

Lemma strongly_sorted_app l1 l2 :
  StronglySorted key_le l1 -> StronglySorted key_le l2 -> Forall (fun x => Forall (key_le x) l2) l1 ->
  StronglySorted key_le (l1 ++ l2).
Proof.
  induction 1 as [|x l Hl IH Hx]; intros Hl2 Hall; cbn [app]; [done|].
  apply Forall_cons in Hall as [Hx2 Hall]. constructor; [auto|]. by rewrite Forall_app.
Qed.

(** After [i] passes the last [i] values are sorted and above the others. *)
Lemma bubble_loop_sorts {E} l1 l2 :
  StronglySorted key_le l2 -> Forall (fun x => Forall (key_le x) l2) l1 ->
  bubble_loop (E := E) (length l1) (length l2) (l1 ++ l2) = Ok (sort_keys (l1 ++ l2)).
Proof.
  remember (length l1) as n eqn:Hn. revert l1 l2 Hn. induction n as [|n IH]; intros l1 l2 Hn Hs Hle; cbn [bubble_loop].
  { destruct l1; [|done]. cbn. f_equal. by apply sort_keys_unique. }
  destruct l1 as [|x l]; [done|]. injection Hn as Hn. cbn [app].
  replace (length (x :: l ++ l2) - 1 - length l2)%nat with (length l) by (cbn; rewrite length_app; lia).
  pose proof (bubble_pass_pass (E := E) [] x l l2 false) as Hp. cbn [app length] in Hp. rewrite Hp. clear Hp.
  destruct (pass x l) as [[r m] s] eqn:Hp. destruct (pass_spec _ _ _ _ _ Hp) as (Hperm & Hmax & Hstop).
  assert (sort_keys (x :: l ++ l2) = sort_keys (r ++ m :: l2)) as Hsame.
  { apply sort_keys_unique; [apply sort_keys_sorted|]. rewrite sort_keys_perm.
    change (x :: l ++ l2) with ((x :: l) ++ l2). rewrite <- Hperm, <- app_assoc. done. }
  assert (Forall (fun x => Forall (key_le x) l2) (r ++ [m])) as Hle' by (by rewrite Hperm).
  rewrite Forall_app, Forall_singleton in Hle'. destruct Hle' as [Hr Hm].
  rewrite Hsame. cbn [mbind outcome_mbind outcome_bind orb]. destruct s.
  - assert (length r = n) as <-.
    { apply Permutation_length in Hperm. rewrite length_app in Hperm. cbn in Hperm. lia. }
    apply (IH r (m :: l2)); [done|constructor; [exact Hs|exact Hm]|].
    rewrite Forall_forall in *. intros y Hy. constructor; auto.
  - destruct (Hstop eq_refl) as [Heq Hsort]. f_equal. apply sort_keys_unique; [|done].
    change (m :: l2) with ([m] ++ l2). rewrite app_assoc. apply strongly_sorted_app; [by rewrite Heq|done|].
    rewrite Forall_app, Forall_singleton. done.
Qed.

Lemma bubble_sort_ok {E} l : bubble_sort (E := E) l = Ok (sort_keys l).
Proof.
  unfold bubble_sort. destruct (Nat.ltb_spec (length l) 2) as [Hl|Hl].
  { by destruct l as [|x [|y l]]; [..|cbn in Hl; lia]. }
  pose proof (bubble_loop_sorts (E := E) l []) as Hs. rewrite app_nil_r in Hs. apply Hs; [constructor|].
  apply Forall_forall. intros x _. constructor.
Qed.

(** Sorting of keys: [Vec::bubble_sort] never fails nor indexes out of range, and what it
    leaves is the sorted permutation of the keys, the one that the standard library's sort gives:
    the early exit and the shrinking inner loop lose nothing. *)
Theorem bubble_sort_exact E (l : list (list Z)) :
  bubble_sort (E := E) l = Ok (sort_keys l) /\ StronglySorted key_le (sort_keys l) /\ sort_keys l ≡ₚ l.
Proof.
  split; [apply bubble_sort_ok|split; [apply sort_keys_sorted|apply sort_keys_perm]].
Qed.

(** ** The table of scripts *)

Inductive Item : Type := IOp (o : Opcode) | IInt (n : Z) | ISlice (s : list Z) | IVerify.
(** A fragment is made of items, keys and the scripts of its arguments. *)
Inductive Piece : Type := It (i : Item) | Key (f : list Z -> list Z) (k : KeyExpression) | Sub (d : DescriptorTemplate).
Abbreviation Op o := (It (IOp o)).
Abbreviation Num n := (It (IInt n)).

(** [andor] with its last two arguments swapped, everywhere in a template. *)
Fixpoint swap_andor (d : DescriptorTemplate) : DescriptorTemplate :=
  match d with
  | Sh x => Sh (swap_andor x) | Wsh x => Wsh (swap_andor x)
  | Tr k tree => Tr k (option_map swap_andor_tree tree)
  | Andor x y z => Andor (swap_andor x) (swap_andor z) (swap_andor y)
  | And_v x y => And_v (swap_andor x) (swap_andor y)
  | And_b x y => And_b (swap_andor x) (swap_andor y)
  | And_n x y => And_n (swap_andor x) (swap_andor y)
  | Or_b x y => Or_b (swap_andor x) (swap_andor y)
  | Or_c x y => Or_c (swap_andor x) (swap_andor y)
  | Or_d x y => Or_d (swap_andor x) (swap_andor y)
  | Or_i x y => Or_i (swap_andor x) (swap_andor y)
  | Thresh k ds => Thresh k (map swap_andor ds)
  | W_a x => W_a (swap_andor x) | W_s x => W_s (swap_andor x) | W_c x => W_c (swap_andor x)
  | W_t x => W_t (swap_andor x) | W_d x => W_d (swap_andor x) | W_v x => W_v (swap_andor x)
  | W_j x => W_j (swap_andor x) | W_n x => W_n (swap_andor x) | W_l x => W_l (swap_andor x)
  | W_u x => W_u (swap_andor x)
  | _ => d
  end
with swap_andor_tree (t : TapTree) : TapTree :=
  match t with
  | Bip388.Script d => Bip388.Script (swap_andor d)
  | Branch l r => Branch (swap_andor_tree l) (swap_andor_tree r)
  end.
Definition swap_piece (p : Piece) : Piece := match p with Sub d => Sub (swap_andor d) | _ => p end.

Section table.
Context `{XpubCrate} `{Curve} `{TaggedHash} `{ScriptCrate}.
Context (key_information : list KeyInformation) (is_change : bool) (address_index : Z).
Abbreviation derive := (derive key_information is_change address_index).
Abbreviation derive_all := (derive_all key_information is_change address_index).
Abbreviation to_script_inner := (to_script_inner key_information is_change address_index).
Abbreviation get_taptree_hash := (get_taptree_hash key_information is_change address_index).

Definition push_item (i : Item) (b : Builder) : Builder :=
  match i with
  | IOp o => push_opcode o b | IInt n => push_int n b | ISlice s => push_slice s b | IVerify => push_verify b
  end.
Definition emit (its : list Item) (b : Builder) : Builder := fold_left (fun b i => push_item i b) its b.
Definition bytes_of (its : list Item) : list Z := as_bytes (emit its builder_new).

Definition hash_fragment (o : Opcode) (h : list Z) : list Piece :=
  [Op OP_SIZE; Num 32; Op OP_EQUALVERIFY; Op o; It (ISlice h); Op OP_EQUAL].
Definition thresh_fragment (k : Z) (ds : list DescriptorTemplate) : list Piece :=
  match ds with
  | [] => []
  | d :: ds => Sub d :: concat (map (fun d => [Sub d; Op OP_ADD]) ds)
  end ++ [Num k; Op OP_EQUAL].
(** The rows of the table for the fragments of miniscript. *)
Definition fragment (d : DescriptorTemplate) : option (list Piece) :=
  match d with
  | Zero => Some [Op OP_0]
  | One => Some [Op OP_PUSHNUM_1]
  | Pk_k k => Some [Key id k]
  | Pk_h k => Some [Op OP_DUP; Op OP_HASH160; Key hash160 k; Op OP_EQUALVERIFY]
  | Pk k => Some [Key id k; Op OP_CHECKSIG]
  | Pkh k => Some [Op OP_DUP; Op OP_HASH160; Key hash160 k; Op OP_EQUALVERIFY; Op OP_CHECKSIG]
  | Older n => Some [Num n; Op OP_CSV]
  | After n => Some [Num n; Op OP_CLTV]
  | Sha256 h => Some (hash_fragment OP_SHA256 h)
  | Hash256 h => Some (hash_fragment OP_HASH256 h)
  | Ripemd160 h => Some (hash_fragment OP_RIPEMD160 h)
  | Hash160 h => Some (hash_fragment OP_HASH160 h)
  | Andor x y z => Some [Sub x; Op OP_NOTIF; Sub z; Op OP_ELSE; Sub y; Op OP_ENDIF]
  | And_v x y => Some [Sub x; Sub y]
  | And_b x y => Some [Sub x; Sub y; Op OP_BOOLAND]
  | And_n x y => Some [Sub x; Op OP_NOTIF; Op OP_0; Op OP_ELSE; Sub y; Op OP_ENDIF]
  | Or_b x z => Some [Sub x; Sub z; Op OP_BOOLOR]
  | Or_c x z => Some [Sub x; Op OP_NOTIF; Sub z; Op OP_ENDIF]
  | Or_d x z => Some [Sub x; Op OP_IFDUP; Op OP_NOTIF; Sub z; Op OP_ENDIF]
  | Or_i x z => Some [Op OP_IF; Sub x; Op OP_ELSE; Sub z; Op OP_ENDIF]
  | Thresh k ds => Some (thresh_fragment k ds)
  | W_a x => Some [Op OP_TOALTSTACK; Sub x; Op OP_FROMALTSTACK]
  | W_s x => Some [Op OP_SWAP; Sub x]
  | W_c x => Some [Sub x; Op OP_CHECKSIG]
  | W_t x => Some [Sub x; Op OP_PUSHNUM_1]
  | W_d x => Some [Op OP_DUP; Op OP_IF; Sub x; Op OP_ENDIF]
  | W_v x => Some [Sub x; It IVerify]
  | W_j x => Some [Op OP_SIZE; Op OP_0NOTEQUAL; Op OP_IF; Sub x; Op OP_ENDIF]
  | W_n x => Some [Sub x; Op OP_0NOTEQUAL]
  | W_l x => Some [Op OP_IF; Op OP_0; Op OP_ELSE; Sub x; Op OP_ENDIF]
  | W_u x => Some [Op OP_IF; Sub x; Op OP_ELSE; Op OP_0; Op OP_ENDIF]
  | _ => None
  end.

Definition multi_items (k : Z) (keys : list (list Z)) : list Item :=
  IInt k :: map ISlice keys ++ [IInt (Z.of_nat (length keys)); IOp OP_CHECKMULTISIG].
Definition multi_a_items (k : Z) (keys : list (list Z)) : list Item :=
  match keys with
  | [] => []
  | key :: keys => [ISlice key; IOp OP_CHECKSIG] ++ concat (map (fun key => [ISlice key; IOp OP_CHECKSIGADD]) keys)
  end ++ [IInt k; IOp OP_NUMEQUAL].
Definition quorum (max k : Z) (kps : list KeyExpression) : Prop :=
  Z.of_nat (length kps) <= max /\ k <> 0 /\ k <= Z.of_nat (length kps).
(** The keys of key expressions, in their order or sorted. *)
Definition keys_of (sorted : bool) (get : Xpub -> list Z) (kps : list KeyExpression) (keys : list (list Z)) : Prop :=
  exists ks, Forall2 (fun kp key => exists x, derive kp = Ok x /\ key = get x) kps ks /\
    keys = if sorted then sort_keys ks else ks.

(** Where a descriptor is: at the top, directly in [sh], in [wsh], in a leaf of [tr]. *)
Inductive Place : Type := Top | InSh | InWsh | InTr.
(** Miniscript is for [wsh] and [tr] (BIP-379). *)
Definition miniscript_place (p : Place) : Prop := p = InWsh \/ p = InTr.
Definition fragment_place (p : Place) (d : DescriptorTemplate) : Prop :=
  match d with Pk _ | Pkh _ => True | _ => miniscript_place p end.
Definition key_at (p : Place) (x : Xpub) : list Z := match p with InTr => xpub_x_only x | _ => xpub_public_key x end.

(** [script_of p d its]: in the place [p] the script of [d] is [its]. The places are those of
    BIP-381 ([sh], [pkh]), BIP-382 ([wsh], [wpkh]), BIP-383 ([multi], [sortedmulti]), BIP-386
    ([tr]) and BIP-387 ([multi_a], [sortedmulti_a]). *)
Inductive script_of : Place -> DescriptorTemplate -> list Item -> Prop :=
| script_fragment p d ps its : fragment d = Some ps -> fragment_place p d -> pieces_of p ps its -> script_of p d its
| script_sh d its : script_of InSh d its ->
    script_of Top (Sh d) [IOp OP_HASH160; ISlice (hash160 (bytes_of its)); IOp OP_EQUAL]
| script_wsh p d its : p = Top \/ p = InSh -> script_of InWsh d its ->
    script_of p (Wsh d) [IInt 0; ISlice (sha256 (bytes_of its))]
| script_wpkh p k x : p = Top \/ p = InSh -> derive k = Ok x ->
    script_of p (Wpkh k) [IInt 0; ISlice (hash160 (xpub_public_key x))]
| script_multi p (sorted : bool) k kps keys : p <> InTr -> quorum MAX_PUBKEYS_PER_MULTISIG k kps ->
    keys_of sorted xpub_public_key kps keys ->
    script_of p ((if sorted then Sortedmulti else Multi) k kps) (multi_items k keys)
| script_multi_a (sorted : bool) k kps keys : quorum MAX_PUBKEYS_PER_MULTI_A k kps ->
    keys_of sorted xpub_x_only kps keys ->
    script_of InTr ((if sorted then Sortedmulti_a else Multi_a) k kps) (multi_a_items k keys)
| script_tr_key k x : derive k = Ok x ->
    script_of Top (Tr k None) [IInt 1; ISlice (tap_tweak (xpub_x_only x) None)]
| script_tr k x t h : derive k = Ok x -> tree_hash_of t h ->
    script_of Top (Tr k (Some t)) [IInt 1; ISlice (tap_tweak (xpub_x_only x) (Some h))]
with pieces_of : Place -> list Piece -> list Item -> Prop :=
| pieces_nil p : pieces_of p [] []
| pieces_item p i ps its : pieces_of p ps its -> pieces_of p (It i :: ps) (i :: its)
| pieces_key p f k x ps its : derive k = Ok x -> pieces_of p ps its ->
    pieces_of p (Key f k :: ps) (ISlice (f (key_at p x)) :: its)
| pieces_sub p d its ps its' : script_of p d its -> pieces_of p ps its' -> pieces_of p (Sub d :: ps) (its ++ its')
with tree_hash_of : TapTree -> list Z -> Prop :=
| hash_leaf d its : script_of InTr d its -> tree_hash_of (Bip388.Script d) (tapleaf_hash (bytes_of its))
| hash_branch l r hl hr : tree_hash_of l hl -> tree_hash_of r hr -> tree_hash_of (Branch l r) (tap_node_hash hl hr).

(** The fragments of a template are where the BIPs allow them. *)
Fixpoint placed (p : Place) (d : DescriptorTemplate) : Prop :=
  match d with
  | Sh x => p = Top /\ placed InSh x
  | Wsh x => (p = Top \/ p = InSh) /\ placed InWsh x
  | Wpkh _ => p = Top \/ p = InSh
  | Pk _ | Pkh _ => True
  | Multi _ _ | Sortedmulti _ _ => p <> InTr
  | Multi_a _ _ | Sortedmulti_a _ _ => p = InTr
  | Tr _ t => p = Top /\ match t with None => True | Some t => tree_placed t end
  | Andor x y z => miniscript_place p /\ placed p x /\ placed p y /\ placed p z
  | And_v x y | And_b x y | And_n x y | Or_b x y | Or_c x y | Or_d x y | Or_i x y =>
      miniscript_place p /\ placed p x /\ placed p y
  | Thresh _ ds => miniscript_place p /\ all_of (placed p) ds
  | W_a x | W_s x | W_c x | W_t x | W_d x | W_v x | W_j x | W_n x | W_l x | W_u x =>
      miniscript_place p /\ placed p x
  | _ => miniscript_place p
  end
with tree_placed (t : TapTree) : Prop :=
  match t with
  | Bip388.Script d => placed InTr d
  | Branch l r => tree_placed l /\ tree_placed r
  end.
(** The context of the code for a place, and the templates that it does not refuse there. *)
Definition context_of (p : Place) : ScriptContext :=
  match p with Top => CtxNone | InSh => CtxSh | InWsh => CtxWsh | InTr => CtxTr end.
Definition direct (p : Place) (d : DescriptorTemplate) : Prop :=
  match p, d with Top, Sh (Wsh _) | InSh, Wsh _ => False | _, _ => True end.

(** *** What the code does with the pieces of a fragment *)

Fixpoint run_pieces (ctx : ScriptContext) (ps : list Piece) (b : Builder) : outcome Error Builder :=
  match ps with
  | [] => Ok b
  | It i :: ps => run_pieces ctx ps (push_item i b)
  | Key f k :: ps => x ← derive k; run_pieces ctx ps (push_slice (f (context_key ctx x)) b)
  | Sub d :: ps => b ← to_script_inner d ctx b; run_pieces ctx ps b
  end.
(** The rows of the code. *)
Definition code_pieces (d : DescriptorTemplate) : option (list Piece) :=
  match d with Andor x y z => fragment (Andor x z y) | _ => fragment d end.

Lemma outcome_bind_ret {E A} (o : outcome E A) : (x ← o; Ok x) = o.
Proof. by destruct o. Qed.
Lemma outcome_bind_assoc {E A B C} (o : outcome E A) (f : A -> outcome E B) (g : B -> outcome E C) :
  (y ← (x ← o; f x); g y) = (x ← o; y ← f x; g y).
Proof. by destruct o. Qed.

Lemma run_pieces_app ctx ps qs b : run_pieces ctx (ps ++ qs) b = (b ← run_pieces ctx ps b; run_pieces ctx qs b).
Proof.
  revert b. induction ps as [|[i|f k|d] ps IH]; intros b; cbn [run_pieces app]; [done|apply IH|..].
  - destruct (derive k); [apply IH|done..].
  - destruct (to_script_inner d ctx b); [apply IH|done..].
Qed.

(** The loop of [thresh] from its [i]-th argument. *)
Fixpoint thresh_loop (i : nat) (ds : list DescriptorTemplate) : list Piece :=
  match ds with
  | [] => []
  | d :: ds => Sub d :: (if (0 <? i)%nat then [Op OP_ADD] else []) ++ thresh_loop (S i) ds
  end.
Lemma thresh_loop_pieces ds k : thresh_loop 0 ds ++ [Num k; Op OP_EQUAL] = thresh_fragment k ds.
Proof.
  destruct ds as [|d ds]; [done|]. unfold thresh_fragment. cbn. do 2 f_equal. generalize 0%nat. intros i. revert i.
  induction ds as [|d' ds IH]; intros i; cbn [thresh_loop map concat]; [done|]. cbn. do 2 f_equal. apply IH.
Qed.

Lemma code_pieces_run d ps ctx b : code_pieces d = Some ps -> to_script_inner d ctx b = run_pieces ctx ps b.
Proof.
  destruct d; cbn [code_pieces fragment]; intros [= <-]; try done.
  all: cbn [run_pieces Script.to_script_inner hash_fragment push_item]; rewrite ?outcome_bind_ret; try done.
  all: try (by destruct (derive _)).
  - destruct (to_script_inner d1 ctx b); [|done..]. cbn. by rewrite outcome_bind_ret.
  - rewrite <- thresh_loop_pieces, run_pieces_app. cbn [run_pieces push_item]. f_equal.
    generalize 0%nat at 2 3. revert b. induction ds as [|d ds IH]; intros b i; cbn [thresh_loop run_pieces]; [done|].
    destruct (to_script_inner d ctx b) as [b'| | |]; [|done..].
    cbn -[Nat.ltb]. rewrite run_pieces_app. destruct (0 <? i)%nat; apply IH.
  - destruct d; try done. cbn. by destruct (derive k).
Qed.

Lemma code_pieces_fragment d ps : code_pieces d = Some ps -> fragment (swap_andor d) = Some (map swap_piece ps).
Proof.
  destruct d; cbn [code_pieces fragment swap_andor]; intros [= <-]; try done. f_equal.
  unfold thresh_fragment. rewrite map_app. destruct ds as [|d ds]; [done|]. cbn. do 2 f_equal.
  induction ds as [|d' ds IH]; cbn; congruence.
Qed.
Lemma fragment_code d ps : fragment (swap_andor d) = Some ps -> exists qs, code_pieces d = Some qs /\ ps = map swap_piece qs.
Proof.
  intros Hf. destruct (code_pieces d) as [qs|] eqn:Hc.
  - apply code_pieces_fragment in Hc. exists qs. split; congruence.
  - by destruct d.
Qed.

Definition sub_pieces (ps : list Piece) : list DescriptorTemplate :=
  omap (fun p => match p with Sub d => Some d | _ => None end) ps.
Lemma sub_pieces_children d ps P : code_pieces d = Some ps -> Forall P (children d) -> Forall P (sub_pieces ps).
Proof.
  destruct d; cbn [code_pieces fragment children]; intros [= <-] Hc; unfold sub_pieces; cbn; try done;
    rewrite ?Forall_cons in *; try tauto.
  unfold thresh_fragment. destruct ds as [|d ds]; cbn; [constructor|].
  apply Forall_cons in Hc as [Hd Hc]. constructor; [done|]. induction Hc; cbn; [constructor|]. by constructor.
Qed.

Lemma emit_app is1 is2 b : emit (is1 ++ is2) b = emit is2 (emit is1 b).
Proof. apply fold_left_app. Qed.

(** ** The code and the table *)

Definition returns {E A} (o : outcome E A) : Prop := match o with Ok _ | Err _ => True | _ => False end.
(** What [m] appends is what [S] says, and there is always a result. *)
Definition appends (m : Builder -> outcome Error Builder) (S : list Item -> Prop) : Prop :=
  forall b, (forall its, S its -> m b = Ok (emit its b)) /\
    match m b with Ok _ => exists its, S its | Err _ => True | _ => False end.
Definition script_right (d : DescriptorTemplate) : Prop :=
  forall p, placed p d -> direct p d -> appends (to_script_inner d (context_of p)) (script_of p (swap_andor d)).

Lemma participants_returns l : returns (participants key_information l).
Proof.
  induction l as [|i l IH]; cbn; [done|]. destruct (key_information !! _); [|done]. cbn.
  by destruct (participants _ l).
Qed.
Lemma key_agg_loop_returns pks pk2 q l : returns (key_agg_loop pks pk2 q l).
Proof. revert q. induction l as [|pk l IH]; intros q; cbn; [done|]. unfold cpoint.
  destruct (from_compressed pk); [apply IH|done].
Qed.
Lemma aggregate_xpub_returns l : returns (aggregate_xpub l).
Proof.
  unfold aggregate_xpub, key_agg. destruct (sort_keys _) as [|pk pks]; [done|]. cbn [guard_err mbind outcome_mbind outcome_bind second_key].
  pose proof (key_agg_loop_returns (pk :: pks) (first_other pk pks) pt_zero (pk :: pks)) as Hl.
  destruct (key_agg_loop _ _ _ _) as [q| | |]; try done. cbn. destruct (is_zero q); [done|]. cbn.
  by destruct (public_key_valid _).
Qed.
Lemma derive_returns kp : returns (derive kp).
Proof.
  unfold Script.derive. destruct (key_type kp) as [i|l].
  - destruct (key_information !! _); [|done]. cbn. by destruct (derive_pub _ _).
  - pose proof (participants_returns l) as Hp. destruct (participants _ l) as [xs| | |]; try done. cbn.
    pose proof (aggregate_xpub_returns xs) as Ha. destruct (aggregate_xpub xs); cbn; try done. by destruct (derive_pub _ _).
Qed.

Definition derived (get : Xpub -> list Z) (kp : KeyExpression) (key : list Z) : Prop :=
  exists x, derive kp = Ok x /\ key = get x.
Lemma derive_all_spec get kps :
  returns (derive_all get kps) /\ forall keys, derive_all get kps = Ok keys <-> Forall2 (derived get) kps keys.
Proof.
  induction kps as [|kp kps [Hr IH]]; cbn [Script.derive_all].
  { split; [done|]. intros keys. split; [intros [= <-]; constructor|]. by intros ->%Forall2_nil_inv_l. }
  pose proof (derive_returns kp) as Hd. destruct (derive kp) as [x|e| |] eqn:Hx; try done; cbn.
  - split; [by destruct (derive_all get kps)|]. intros keys. split.
    + destruct (derive_all get kps) as [ks|e| |]; try done. intros [= <-]. constructor; [by exists x|by apply IH].
    + intros Hf. inversion Hf as [|? ? ? ? (x' & Hx' & ->) Hks]; subst. apply IH in Hks. rewrite Hks. cbn. congruence.
  - split; [done|]. intros keys. split; [done|]. intros Hf. inversion Hf as [|? ? ? ? (x & Hx' & _)]; congruence.
Qed.
(** The keys that a multisignature pushes. *)
Definition pushed_keys (sorted : bool) get kps : outcome Error (list (list Z)) :=
  ks ← derive_all get kps; if sorted then bubble_sort ks else Ok ks.
Lemma keys_sorted (sorted : bool) get kps :
  pushed_keys sorted get kps = (ks ← derive_all get kps; Ok (if sorted then sort_keys ks else ks)).
Proof.
  unfold pushed_keys. destruct (derive_all get kps) as [ks| | |]; cbn; [|done..]. destruct sorted; [|done].
  exact (bubble_sort_ok ks).
Qed.
Lemma keys_of_length sorted get kps keys : keys_of sorted get kps keys -> length keys = length kps.
Proof.
  intros (ks & Hf & ->). apply Forall2_length in Hf. destruct sorted; [|done]. by rewrite sort_keys_perm.
Qed.
Lemma keys_of_derive_all sorted get kps keys :
  keys_of sorted get kps keys <-> pushed_keys sorted get kps = Ok keys.
Proof.
  rewrite keys_sorted. destruct (derive_all_spec get kps) as [_ Hd]. split.
  - intros (ks & Hf & ->). apply Hd in Hf. by rewrite Hf.
  - intros Hk. destruct (derive_all get kps) as [ks| | |] eqn:Hks; try done. injection Hk as <-.
    exists ks. split; [by apply Hd|done].
Qed.

Lemma emit_slices keys b : emit (map ISlice keys) b = push_keys keys b.
Proof. unfold emit, push_keys. revert b. induction keys as [|key keys IH]; intros b; cbn; [done|]. apply IH. Qed.
Lemma emit_multi_a k keys b : emit (multi_a_items k keys) b = push_opcode OP_NUMEQUAL (push_int k (push_keys_a 0 keys b)).
Proof.
  unfold multi_a_items. rewrite emit_app. cbn. do 2 f_equal. destruct keys as [|key keys]; [done|]. cbn.
  generalize (push_opcode OP_CHECKSIG (push_slice key b)) as b'. generalize 0%nat as i.
  induction keys as [|key' keys IH]; intros i b'; cbn; [done|]. apply IH.
Qed.

Lemma guard_appends c e m (S : list Item -> Prop) :
  appends m S -> appends (fun b => guard_err c e;; m b) (fun its => c = false /\ S its).
Proof.
  intros Hm b. destruct (Hm b) as [Hs Hr]. destruct c; cbn; [split; [by intros ? [? _]|done]|].
  split; [intros its [_ Hi]; auto|]. destruct (m b); try done. destruct Hr as [its ?]. by exists its.
Qed.
Lemma appends_iff m (S S' : list Item -> Prop) : appends m S -> (forall its, S its <-> S' its) -> appends m S'.
Proof.
  intros Hm Hi b. destruct (Hm b) as [Hs Hr]. split; [intros its ?; apply Hs; by apply Hi|].
  destruct (m b); try done. destruct Hr as [its ?]. exists its. by apply Hi.
Qed.
Lemma appends_ext m m' S : appends m S -> (forall b, m' b = m b) -> appends m' S.
Proof. intros Hm Hb b. rewrite Hb. apply Hm. Qed.
Lemma keys_appends sorted get kps (m : list (list Z) -> Builder -> Builder) (items : list (list Z) -> list Item) :
  (forall keys b, length keys = length kps -> m keys b = emit (items keys) b) ->
  appends (fun b => keys ← pushed_keys sorted get kps; Ok (m keys b))
    (fun its => exists keys, keys_of sorted get kps keys /\ its = items keys).
Proof.
  intros Hm b. split.
  - intros its (keys & Hk & ->). rewrite (proj1 (keys_of_derive_all _ _ _ _) Hk). cbn.
    by rewrite Hm by (by eapply keys_of_length).
  - assert (returns (pushed_keys sorted get kps)) as Hr.
    { rewrite keys_sorted. destruct (derive_all_spec get kps) as [Hr _]. by destruct (derive_all get kps). }
    destruct (pushed_keys sorted get kps) as [keys|e| |] eqn:Hk; try done. cbn.
    exists (items keys), keys. split; [|done]. by apply keys_of_derive_all.
Qed.

Lemma push_multi_appends sorted k kps ctx :
  appends (push_multi key_information is_change address_index sorted k kps ctx)
    (fun its => ctx <> CtxTr /\ quorum MAX_PUBKEYS_PER_MULTISIG k kps /\
       exists keys, keys_of sorted xpub_public_key kps keys /\ its = multi_items k keys).
Proof.
  eapply appends_iff; [eapply appends_ext; [do 3 apply guard_appends;
    apply (keys_appends sorted xpub_public_key kps (fun keys b =>
      push_opcode OP_CHECKMULTISIG (push_int (Z.of_nat (length kps)) (push_keys keys (push_int k b)))) (multi_items k))|]|].
  - intros keys b Hl. unfold multi_items. cbn. by rewrite emit_app, emit_slices, Hl.
  - intros b. unfold push_multi, pushed_keys. by destruct (derive_all _ kps).
  - intros its. cbn beta. rewrite bool_decide_eq_false, orb_false_iff, Z.eqb_neq, !Z.ltb_ge. unfold quorum. tauto.
Qed.
Lemma push_multi_a_appends sorted k kps ctx :
  appends (push_multi_a key_information is_change address_index sorted k kps ctx)
    (fun its => ctx = CtxTr /\ quorum MAX_PUBKEYS_PER_MULTI_A k kps /\
       exists keys, keys_of sorted xpub_x_only kps keys /\ its = multi_a_items k keys).
Proof.
  eapply appends_iff; [eapply appends_ext; [do 3 apply guard_appends;
    apply (keys_appends sorted xpub_x_only kps (fun keys b =>
      push_opcode OP_NUMEQUAL (push_int k (push_keys_a 0 keys b))) (multi_a_items k))|]|].
  - intros keys b _. by rewrite emit_multi_a.
  - intros b. unfold push_multi_a, pushed_keys. by destruct (derive_all _ kps).
  - intros its. cbn beta. rewrite negb_false_iff, bool_decide_eq_true, orb_false_iff, Z.eqb_neq, !Z.ltb_ge. unfold quorum. tauto.
Qed.

Lemma context_key_at p x : context_key (context_of p) x = key_at p x.
Proof. by destruct p. Qed.
Lemma run_pieces_appends p ps :
  Forall (fun d => script_right d /\ placed p d /\ direct p d) (sub_pieces ps) ->
  appends (run_pieces (context_of p) ps) (pieces_of p (map swap_piece ps)).
Proof.
  induction ps as [|pc ps IH]; intros Hsub b; cbn [map swap_piece].
  { split; [|eexists; constructor]. intros its Hi. by inversion Hi. }
  destruct pc as [i|f k|d]; cbn [run_pieces].
  - destruct (IH Hsub (push_item i b)) as [Hs Hr]. split; [intros its Hi; inversion Hi; subst; eauto|].
    destruct (run_pieces _ _ _); try done. destruct Hr as [its ?]. eexists. by constructor.
  - pose proof (derive_returns k) as Hd. destruct (derive k) as [x|e| |] eqn:Hx; try done; cbn.
    + rewrite context_key_at. destruct (IH Hsub (push_slice (f (key_at p x)) b)) as [Hs Hr]. split.
      { intros its Hi. inversion Hi as [| |? ? ? x' ? its' Hx'|]; simplify_eq. rewrite Hx in Hx'. injection Hx' as <-. by apply Hs. }
      destruct (run_pieces _ _ _); try done. destruct Hr as [its ?]. eexists. by constructor.
    + split; [|done]. intros its Hi. inversion Hi. congruence.
  - cbn in Hsub. apply Forall_cons in Hsub as [(Hd & Hp & Hw) Hsub]. destruct (Hd p Hp Hw b) as [Hs Hr]. split.
    { intros its Hi. inversion Hi; simplify_eq. erewrite Hs by eassumption. cbn. rewrite emit_app.
      by apply (IH Hsub (emit _ b)). }
    destruct (to_script_inner d (context_of p) b) as [b'|e| |] eqn:Hb; try done; cbn.
    destruct (IH Hsub b') as [_ Hr']. destruct (run_pieces _ _ _); try done.
    destruct Hr as [its ?], Hr' as [its' ?]. eexists. by constructor.
Qed.

Lemma taptree_leaf d :
  get_taptree_hash (Bip388.Script d) = (b ← to_script_inner d CtxTr builder_new; Ok (tapleaf_hash (as_bytes b))).
Proof. done. Qed.
Lemma taptree_branch l r :
  get_taptree_hash (Branch l r) = (hl ← get_taptree_hash l; hr ← get_taptree_hash r; Ok (tap_node_hash hl hr)).
Proof. done. Qed.

Definition tree_right (t : TapTree) : Prop :=
  (forall h, tree_hash_of (swap_andor_tree t) h -> get_taptree_hash t = Ok h) /\
  match get_taptree_hash t with Ok _ => exists h, tree_hash_of (swap_andor_tree t) h | Err _ => True | _ => False end.
Lemma taptree_right t : Forall script_right (leaves t) -> tree_placed t -> tree_right t.
Proof.
  induction t as [d|l r IHl IHr] using tree_ind; cbn [leaves tree_placed]; rewrite ?Forall_singleton, ?Forall_app; unfold tree_right.
  - intros Hd Hp. destruct (Hd InTr Hp I builder_new) as [Hs Hr]. cbn [context_of] in Hs, Hr. rewrite taptree_leaf. split.
    + intros h Hh. inversion Hh as [? its Hi|]; subst. by rewrite (Hs its Hi).
    + destruct (to_script_inner d CtxTr builder_new); try done. destruct Hr as [its ?]. eexists. by constructor.
  - intros [Hl Hr] [Pl Pr]. apply IHl in Hl as [Hl Rl]; [|done]. apply IHr in Hr as [Hr Rr]; [|done]. rewrite taptree_branch. split.
    + intros h Hh. inversion Hh as [|? ? hl hr Hhl Hhr]; subst. by rewrite (Hl hl Hhl), (Hr hr Hhr).
    + destruct (get_taptree_hash l); try done. cbn. destruct (get_taptree_hash r); try done.
      destruct Rl as [hl ?], Rr as [hr ?]. eexists. by constructor.
Qed.

(** A script within a script, and a key. *)
Lemma inner_appends d p (items : list Z -> list Item) :
  script_right d -> placed p d -> direct p d ->
  appends (fun b => inner ← to_script_inner d (context_of p) builder_new; Ok (emit (items (as_bytes inner)) b))
    (fun its => exists is', script_of p (swap_andor d) is' /\ its = items (bytes_of is')).
Proof.
  intros Hd Hp Hw b. destruct (Hd p Hp Hw builder_new) as [Hs Hr]. split.
  - intros its (is' & Hi & ->). by rewrite (Hs is' Hi).
  - destruct (to_script_inner d (context_of p) builder_new); try done. destruct Hr as [is' ?]. cbn. eauto.
Qed.
Lemma key_appends kp (items : Xpub -> list Item) :
  appends (fun b => x ← derive kp; Ok (emit (items x) b)) (fun its => exists x, derive kp = Ok x /\ its = items x).
Proof.
  intros b. pose proof (derive_returns kp) as Hd. split; [by intros its (x & -> & ->)|].
  destruct (derive kp) as [x| | |]; try done. cbn. eauto.
Qed.

(** The derivations of the script of one constructor. *)
Ltac script_inversion H :=
  inversion H; subst; repeat match goal with E : context [if ?b then _ else _] |- _ => is_var b; destruct b end; simplify_eq/=.

Lemma sh_right d : script_right d -> script_right (Sh d).
Proof.
  intros Hd p [-> Hp] Hw. assert (direct InSh d) as Hw' by (by destruct d).
  eapply appends_iff; [eapply appends_ext; [
    apply (inner_appends d InSh (fun s => [IOp OP_HASH160; ISlice (hash160 s); IOp OP_EQUAL]) Hd Hp Hw')|done]|].
  intros its. cbn [swap_andor]. split.
  - intros (is' & Hi & ->). by constructor.
  - intros Hi. script_inversion Hi; eauto.
Qed.
Lemma wsh_right d : script_right d -> script_right (Wsh d).
Proof.
  intros Hd p [[-> | ->] Hp] Hw; [|done].
  eapply appends_iff; [eapply appends_ext; [
    apply (inner_appends d InWsh (fun s => [IInt 0; ISlice (sha256 s)]) Hd Hp I)|done]|].
  intros its. cbn [swap_andor]. split.
  - intros (is' & Hi & ->). by constructor; [left|].
  - intros Hi. script_inversion Hi; eauto.
Qed.
Lemma wpkh_right k : script_right (Wpkh k).
Proof.
  intros p Hp _. eapply appends_iff; [eapply appends_ext; [
    apply (key_appends k (fun x => [IInt 0; ISlice (hash160 (xpub_public_key x))]))|by destruct Hp as [-> | ->]]|].
  intros its. cbn [swap_andor]. split.
  - intros (x & Hx & ->). by constructor.
  - intros Hi. script_inversion Hi; eauto.
Qed.
Lemma context_tr p : context_of p = CtxTr <-> p = InTr.
Proof. by destruct p. Qed.

Lemma multi_right (sorted : bool) k kps : script_right ((if sorted then Sortedmulti else Multi) k kps).
Proof.
  intros p Hp _. eapply appends_iff; [eapply appends_ext; [apply (push_multi_appends sorted k kps (context_of p))|by destruct sorted]|].
  intros its. cbv beta. rewrite context_tr. split.
  - intros (Hc & Hq & keys & Hk & ->). destruct sorted; [by apply (script_multi p true k kps keys)|by apply (script_multi p false k kps keys)].
  - intros Hi. destruct sorted; cbn [swap_andor] in Hi; script_inversion Hi; eauto 6.
Qed.
Lemma multi_a_right (sorted : bool) k kps : script_right ((if sorted then Sortedmulti_a else Multi_a) k kps).
Proof.
  intros p Hp _. eapply appends_iff; [eapply appends_ext; [apply (push_multi_a_appends sorted k kps (context_of p))|by destruct sorted]|].
  intros its. cbv beta. rewrite context_tr. split.
  - intros (-> & Hq & keys & Hk & ->). destruct sorted; [by apply (script_multi_a true k kps keys)|by apply (script_multi_a false k kps keys)].
  - intros Hi. destruct sorted; cbn [swap_andor] in Hi; script_inversion Hi; eauto 6.
Qed.
Lemma tr_key_right k : script_right (Tr k None).
Proof.
  intros p [-> _] _. eapply appends_iff; [eapply appends_ext; [
    apply (key_appends k (fun x => [IInt 1; ISlice (tap_tweak (xpub_x_only x) None)]))|done]|].
  intros its. cbn [swap_andor option_map]. split.
  - intros (x & Hx & ->). by constructor.
  - intros Hi. script_inversion Hi; eauto.
Qed.
Lemma tr_unfold k t ctx b : to_script_inner (Tr k (Some t)) ctx b =
  (key ← derive k; hash ← (h ← outcome_map_err (fun _ => EInvalidKey) (get_taptree_hash t); Ok (Some h));
   Ok (push_slice (tap_tweak (xpub_x_only key) hash) (push_int 1 b))).
Proof. done. Qed.
Lemma tr_right k t : Forall script_right (leaves t) -> script_right (Tr k (Some t)).
Proof.
  intros Ht p [-> Hp] _ b. destruct (taptree_right t Ht Hp) as [Hs Hr]. rewrite tr_unfold.
  pose proof (derive_returns k) as Hd. cbn [swap_andor option_map]. split.
  - intros its Hi. inversion Hi as [| | | | | | |? x ? h Hx Hh]; subst; [done|..]; try by destruct sorted.
    rewrite Hx. cbn. by rewrite (Hs h Hh).
  - destruct (derive k) as [x| | |] eqn:Hx; try done. cbn. destruct (get_taptree_hash t); try done.
    destruct Hr as [h ?]. cbn. eexists. by eapply script_tr.
Qed.

(** The arguments of a fragment are where it is. *)
Lemma placed_fragment p d ps : code_pieces d = Some ps -> placed p d ->
  fragment_place p (swap_andor d) /\ Forall (fun x => placed p x /\ direct p x) (sub_pieces ps).
Proof.
  intros Hps Hp. assert (miniscript_place p -> forall x, placed p x -> placed p x /\ direct p x) as Hm
    by (by intros [-> | ->]).
  destruct d; cbn [code_pieces fragment] in Hps; simplify_eq; cbn [placed] in Hp; unfold sub_pieces; cbn; try done;
    repeat match goal with H : _ /\ _ |- _ => destruct H end; (split; [done|]); rewrite ?Forall_cons; auto 10.
  unfold thresh_fragment. rewrite all_of_Forall in *. destruct ds as [|d ds]; cbn; [constructor|].
  match goal with H : Forall _ (_ :: _) |- _ => apply Forall_cons in H as [Hd Hds] end.
  constructor; [auto|]. induction Hds; cbn; [constructor|]. constructor; auto.
Qed.

Lemma script_right_all d : script_right d.
Proof.
  induction d as [d IH] using template_ind'. destruct (code_pieces d) as [ps|] eqn:Hps.
  - intros p Hp Hw. destruct (placed_fragment p d ps Hps Hp) as [Hf Hsub].
    pose proof (sub_pieces_children d ps _ Hps IH) as Hright. pose proof (conj Hright Hsub) as Hboth. apply Forall_and in Hboth.
    eapply appends_iff; [eapply appends_ext; [exact (run_pieces_appends p ps Hboth)|intros b; by apply code_pieces_run]|].
    intros its. apply code_pieces_fragment in Hps. split; [by apply script_fragment|].
    intros Hi. destruct Hi; simplify_eq; try done; by destruct sorted.
  - destruct d as [| | | | | |k [t|]| | | | | | | | | | | | | | | | | | | | | | | | | | | | | | | |];
      try done; cbn [children] in IH; rewrite ?Forall_singleton in IH.
    + by apply sh_right. + by apply wsh_right. + apply wpkh_right.
    + apply (multi_right true). + apply (multi_a_right true). + by apply tr_right. + apply tr_key_right.
    + apply (multi_right false). + apply (multi_a_right false).
Qed.

(** *** There is always a result *)

Lemma returns_bind {E A B} (o : outcome E A) (f : A -> outcome E B) :
  returns o -> (forall a, returns (f a)) -> returns (x ← o; f x).
Proof. by destruct o; cbn; auto. Qed.
Lemma returns_guard {E} c (e : E) : returns (guard_err c e).
Proof. by destruct c. Qed.
Lemma appends_returns m S b : appends m S -> returns (m b).
Proof. intros Hm. destruct (Hm b) as [_ Hr]. by destruct (m b). Qed.
Lemma run_pieces_returns ctx ps b : Forall (fun d => forall ctx b, returns (to_script_inner d ctx b)) (sub_pieces ps) ->
  returns (run_pieces ctx ps b).
Proof.
  revert b. induction ps as [|[i|f k|d] ps IH]; intros b Hs; cbn [run_pieces]; [done|by apply IH|..].
  - apply returns_bind; [apply derive_returns|]. intros x. by apply IH.
  - cbn in Hs. apply Forall_cons in Hs as [Hd Hs]. apply returns_bind; [apply Hd|]. intros b'. by apply IH.
Qed.
Lemma taptree_returns t : Forall (fun d => forall ctx b, returns (to_script_inner d ctx b)) (leaves t) -> returns (get_taptree_hash t).
Proof.
  induction t as [d|l r IHl IHr] using tree_ind; cbn [leaves]; rewrite ?Forall_singleton, ?Forall_app.
  - intros Hd. rewrite taptree_leaf. by apply returns_bind.
  - intros [Hl Hr]. rewrite taptree_branch. apply returns_bind; [auto|]. intros hl. apply returns_bind; [auto|done].
Qed.
Lemma to_script_returns d : forall ctx b, returns (to_script_inner d ctx b).
Proof.
  induction d as [d IH] using template_ind'. destruct (code_pieces d) as [ps|] eqn:Hps.
  - intros ctx b. rewrite (code_pieces_run _ _ _ _ Hps). apply run_pieces_returns. by apply (sub_pieces_children d).
  - intros ctx b. destruct d as [| | | | | |k [t|]| | | | | | | | | | | | | | | | | | | | | | | | | | | | | | | |];
      try done; cbn [children] in IH; rewrite ?Forall_singleton in IH.
    1-3: cbn [Script.to_script_inner]; (apply returns_bind; [apply returns_guard|intros _]);
      (apply returns_bind; [first [apply IH|apply derive_returns]|done]).
    + apply (appends_returns _ _ b (push_multi_appends true _ _ ctx)).
    + apply (appends_returns _ _ b (push_multi_a_appends true _ _ ctx)).
    + rewrite tr_unfold. apply returns_bind; [apply derive_returns|]. intros x. apply taptree_returns in IH.
      apply returns_bind; [by destruct (get_taptree_hash t)|done].
    + apply returns_bind; [apply derive_returns|done].
    + apply (appends_returns _ _ b (push_multi_appends false _ _ ctx)).
    + apply (appends_returns _ _ b (push_multi_a_appends false _ _ ctx)).
Qed.

Abbreviation to_script := (to_script key_information is_change address_index).


Lemma keys_of_perm get kps kps' keys : kps ≡ₚ kps' -> keys_of true get kps keys -> keys_of true get kps' keys.
Proof.
  intros Hp (ks & Hf & ->).
  assert (exists ks', Forall2 (derived get) kps' ks' /\ ks' ≡ₚ ks) as (ks' & Hf' & Hks).
  { revert ks Hf. induction Hp as [|x l l' Hp IH|x y l|l l' l'' H1' IH1 H2' IH2]; intros ks Hf.
    - exists ks. done.
    - apply Forall2_cons_inv_l in Hf as (k & ks0 & Hk & Hf & ->). destruct (IH ks0 Hf) as (ks' & ? & ?).
      exists (k :: ks'). split; [by constructor|by constructor].
    - apply Forall2_cons_inv_l in Hf as (k & ks0 & Hk & Hf & ->).
      apply Forall2_cons_inv_l in Hf as (k' & ks' & Hk' & Hf & ->).
      exists (k' :: k :: ks'). split; [by repeat constructor|constructor].
    - destruct (IH1 ks Hf) as (ks1 & Hf1 & E1). destruct (IH2 ks1 Hf1) as (ks2 & Hf2 & E2).
      exists ks2. split; [done|by etransitivity]. }
  exists ks'. split; [done|]. apply sort_keys_unique; [apply sort_keys_sorted|]. by rewrite sort_keys_perm.
Qed.

(** C34. The script of [sortedmulti] and of [sortedmulti_a] does not depend on the order of
    the keys of the policy: where one order has a script, any other has the same. *)
Theorem sortedmulti_order k kps kps' ctx s :
  kps ≡ₚ kps' ->
  (to_script (Sortedmulti k kps) ctx = Ok s -> to_script (Sortedmulti k kps') ctx = Ok s) /\
  (to_script (Sortedmulti_a k kps) ctx = Ok s -> to_script (Sortedmulti_a k kps') ctx = Ok s).
Proof.
  intros Hp. unfold Script.to_script.
  assert (forall max, quorum max k kps -> quorum max k kps') as Hq by (unfold quorum; by rewrite (Permutation_length Hp)).
  destruct (push_multi_appends true k kps ctx builder_new) as [Hs Hr].
  destruct (push_multi_a_appends true k kps ctx builder_new) as [Hs' Hr']. cbn [Script.to_script_inner]. split.
  - destruct (push_multi _ _ _ _ _ _ _ _) as [b| | |]; try done. destruct Hr as (its & Hc & Hk & keys & Hkeys & ->).
    injection (Hs (multi_items k keys) ltac:(eauto)) as ->. intros [= <-].
    rewrite (proj1 (push_multi_appends true k kps' ctx builder_new) (multi_items k keys)); [done|].
    eauto 8 using keys_of_perm.
  - destruct (push_multi_a _ _ _ _ _ _ _ _) as [b| | |]; try done. destruct Hr' as (its & Hc & Hk & keys & Hkeys & ->).
    injection (Hs' (multi_a_items k keys) ltac:(eauto)) as ->. intros [= <-].
    rewrite (proj1 (push_multi_a_appends true k kps' ctx builder_new) (multi_a_items k keys)); [done|].
    eauto 8 using keys_of_perm.
Qed.

(** The code's [andor(X,0,Y)] is the script of [and_n(X,Y)], which stands for [andor(X,Y,0)]. *)
Theorem andor_is_and_n x y ctx : to_script (Andor x Zero y) ctx = to_script (And_n x y) ctx.
Proof. unfold Script.to_script. cbn [Script.to_script_inner]. by destruct (to_script_inner x ctx builder_new). Qed.

(** [sh(wsh(X))] never has a script, whatever [X] is: [wsh] is refused below [sh]. *)
Theorem sh_wsh_has_no_script d : to_script (Sh (Wsh d)) CtxNone = Err EInvalidScriptContext.
Proof. done. Qed.
End table.

(** ... although the parser accepts it. *)
Example sh_wsh_parses : exists d, parse_descriptor_template (H := hex_codec) (lit "sh(wsh(pk(@0/**)))") = Ok (Sh (Wsh d)).
Proof. eexists. by vm_compute. Qed.

(** ** An instance

    Keys and hashes of [toy_bitcoin] are bytes; a script is the list of its bytes. *)
Definition opcode_byte (o : Opcode) : Z :=
  match o with OP_CHECKMULTISIG => 174 | OP_CHECKSIG => 172 | OP_CHECKSIGADD => 186 | OP_NUMEQUAL => 156 | _ => 0 end.
#[local] Instance toy_script : ScriptCrate := {
  Builder := list Z;
  builder_new := [];
  push_opcode o b := b ++ [opcode_byte o];
  push_int n b := b ++ [80 + n];
  push_slice s b := b ++ Z.of_nat (length s) :: s;
  push_verify b := b ++ [105];
  as_bytes b := b;
  hash160 s := take 20 s;
  sha256 s := take 32 s;
  tapleaf_hash s := take 32 s;
  tap_node_hash l r := take 32 (l ++ r);
  tap_tweak k h := take 32 (k ++ default [] h);
}.
Definition toy_xpub : @XpubCrate toy_bitcoin := {|
  xpub_public_key (x : @Xpub toy_bitcoin) := [2; byte_value x];
  xpub_x_only (x : @Xpub toy_bitcoin) := [byte_value x];
  derive_pub (x : @Xpub toy_bitcoin) path := Some (byte_of (byte_value x + foldr Z.add 0 (map byte_value path)));
  public_key_valid _ := true;
  synthetic (o : option (@Xpub toy_bitcoin)) pk _ := default Byte.x00 o;
  ckd_pub_tweak _ _ := None;
  add_exp_tweak _ _ := None;
  child_xpub (x : @Xpub toy_bitcoin) _ _ _ := x;
|}.

Definition toy_info : list (@KeyInformation toy_bitcoin) :=
  map (fun b => @Build_KeyInformation toy_bitcoin b None) [Byte.x07; Byte.x04; Byte.x09].
Definition toy_multi (kps : list KeyExpression) : outcome Error (list Z) :=
  @to_script toy_bitcoin toy_xpub toy_curve toy_hash toy_script toy_info false 5 (Sortedmulti 2 kps) CtxWsh.

Lemma sortedmulti_order_witness :
  toy_multi [plain 0 0 1; plain 1 0 1; plain 2 0 1] = Ok [82; 2; 2; 9; 2; 2; 12; 2; 2; 14; 83; 174] /\
  toy_multi [plain 1 0 1; plain 0 0 1; plain 2 0 1] = Ok [82; 2; 2; 9; 2; 2; 12; 2; 2; 14; 83; 174].
Proof.
  assert (toy_multi [plain 0 0 1; plain 1 0 1; plain 2 0 1] = Ok [82; 2; 2; 9; 2; 2; 12; 2; 2; 14; 83; 174]) as H
    by (by vm_compute).
  split; [exact H|].
  apply (@sortedmulti_order toy_bitcoin toy_xpub toy_curve toy_hash toy_script toy_info false 5 2
    [plain 0 0 1; plain 1 0 1; plain 2 0 1]); [apply Permutation_swap|exact H].
Defined.

Abbreviation toy_script_of := (@to_script toy_bitcoin toy_xpub toy_curve toy_hash toy_script toy_info false 5).
(** [wsh(andor(pk(@0),pk(@1),pk(@2)))]: the table's script has the keys 0, 2, 1 in this order,
    the code's 0, 1, 2. *)
Definition toy_andor : DescriptorTemplate := Andor (Pk (plain 0 0 1)) (Pk (plain 1 0 1)) (Pk (plain 2 0 1)).
Lemma toy_andor_placed : placed Top (Wsh toy_andor).
Proof. cbn. repeat split; by left. Qed.

(** The parser takes Miniscript directly in [sh], where BIP-379 does not allow it, and the code
    has a script for it. *)
Example misplaced_miniscript : exists d s,
  parse_descriptor_template (H := hex_codec) (lit "sh(and_v(pk(@0/**),pk(@1/**)))") = Ok d /\
  ~ placed Top d /\ toy_script_of d CtxNone = Ok s.
Proof.
  eexists _, _. split; [by vm_compute|]. split; [|by vm_compute]. cbn. by intros (_ & [?|?] & _).
Qed.
