(* ===== verification/Account.v ===== *)
(** * Accounts, identities and proofs of registration ([apps/bitcoin/common/src/account.rs],
    [identity.rs], [por.rs])

    An account is a wallet policy with a name; its identifier is a hash, and the proof that it
    was registered is a code of the identifier under a key of the device. Hashes and keys of
    the SDK and the encodings of the [bitcoin] crate are the class [AccountCrate]. *)

From S2P Require Import Prelude Text Bip388 WalletPolicy Musig Script.

(** [u32_decode] and [bool_decode] give what is left of the input. *)
Class AccountCrate := {
  sha256_digest : list Z -> list Z;
  hmac_sha256 : list Z -> list Z -> list Z;
  derive_slip21_key : list (list Z) -> list Z;
  u32_encode : Z -> list Z;
  u32_decode : list Z -> outcome EncodeError (Z * list Z);
  bool_decode : list Z -> outcome EncodeError (bool * list Z);
  address_from_script : list Z -> option (list Z);
}.

(** ** Coordinates *)

Record WalletPolicyCoordinates : Type := { is_change : bool; address_index : Z }.
#[export] Instance coordinates_eq : EqDecision WalletPolicyCoordinates.
Proof. solve_decision. Defined.
Definition serialize_coordinates (c : WalletPolicyCoordinates) : list Z :=
  (if is_change c then 1 else 0) :: le_bytes 4 (address_index c).

Section account.
Context `{AccountCrate}.

Definition deserialize_coordinates (r : list Z) : outcome EncodeError (WalletPolicyCoordinates * list Z) :=
  '(is_change, r) ← bool_decode r;
  '(address_index, r) ← u32_decode r;
  Ok ({| is_change := is_change; address_index := address_index |}, r).

(** ** Accounts *)

Section policies.
Context `{BitcoinCrate}.

Definition ACCOUNT_MAGIC : list Z := 0x0D :: lit "NAMED_ACCOUNT".
Definition ACCOUNT_VERSION : Z := 1.
Definition account_serialize (p : WalletPolicy) : list Z := le_bytes 4 ACCOUNT_VERSION ++ serialize_policy p.
Definition account_deserialize `{HexCrate} (r : list Z) : outcome EncodeError WalletPolicy :=
  '(version, r) ← u32_decode r;
  guard_err (negb (version =? ACCOUNT_VERSION)) (ParseFailed "Unsupported version");;
  deserialize_policy r.
(** What [get_id] hashes. *)
Definition account_message (p : WalletPolicy) (name : list Z) : list Z :=
  ACCOUNT_MAGIC ++ be_bytes 4 ACCOUNT_VERSION ++ varint_encode (Z.of_nat (length name)) ++ name ++ account_serialize p.
Definition get_id (p : WalletPolicy) (name : list Z) : list Z := sha256_digest (account_message p name).

Definition get_address `{!XpubCrate} `{Curve} `{TaggedHash} `{ScriptCrate} (p : WalletPolicy)
    (coords : WalletPolicyCoordinates) : outcome Error (list Z) :=
  script ← policy_to_script p (is_change coords) (address_index coords);
  ok_or (address_from_script script) EAddressFromScriptFailed.
End policies.

(** ** Identities *)

Definition IDENTITY_ROOT_PATH_COMPONENT : Z := Z.lor 1229210958 0x80000000.
Definition SIGN_MAGIC : list Z := 9 :: lit "IDEN/SIGN".
Definition MSG_TYPE_XPUB : list Z := lit "XPUB".
Definition MSG_TYPE_OUTPUT : list Z := lit "OUTPUT".
Definition identity_derivation_path (index : option Z) : list Z :=
  match index with Some i => [IDENTITY_ROOT_PATH_COMPONENT; i] | None => [IDENTITY_ROOT_PATH_COMPONENT] end.
Definition is_identity_path (path : list Z) : option (option Z) :=
  match path with
  | [root] => if root =? IDENTITY_ROOT_PATH_COMPONENT then Some None else None
  | [root; index] => if root =? IDENTITY_ROOT_PATH_COMPONENT then Some (Some index) else None
  | _ => None
  end.

Definition IDENTITY_KEY_MAGIC : list Z := 0x0C :: lit "IDENTITY_KEY".
(** [IdentityKey::new]; the key is an array of 33 bytes. *)
Definition identity_key_new (compressed : list Z) : outcome Error (list Z) :=
  first ← unwrap (head compressed);
  guard_err (negb (first =? 2) && negb (first =? 3)) EInvalidKey;;
  Ok compressed.
Definition identity_message (key name : list Z) : list Z :=
  IDENTITY_KEY_MAGIC ++ [w8 (Z.of_nat (length name))] ++ name ++ key.
Definition identity_get_id (key name : list Z) : list Z := sha256_digest (identity_message key name).

Definition build_identity_message (msg_type object : list Z) : outcome Error (list Z) :=
  guard_err (255 <? Z.of_nat (length msg_type)) EIdentityMessageFieldTooLong;;
  guard_err (255 <? Z.of_nat (length object)) EIdentityMessageFieldTooLong;;
  Ok (SIGN_MAGIC ++ [Z.of_nat (length msg_type)] ++ msg_type ++ [Z.of_nat (length object)] ++ object).

(** ** Proofs of registration: [ProofOfRegistration::new] *)

Definition POR_MAGIC : list Z := lit "Proof of Registration".
Definition por_new (id : list Z) : list Z := hmac_sha256 (derive_slip21_key [POR_MAGIC]) id.
End account.
