(* ===== verification/PsbtAccount.v ===== *)
(** * Accounts and identities in PSBTs ([apps/bitcoin/common/src/psbt])

    The proprietary entries of a PSBT; the accounts, names, proofs and coordinates in them
    ([psbt/account.rs]), and the identities and signatures of outputs ([psbt/id_auth.rs]).
    Readers work on the entries of a map, writers on the sorted map of proprietary keys that
    [rust-bitcoin] has in its [Psbt]. *)

From S2P Require Import Prelude Text Bip388 WalletPolicy Musig Script Account Psbt.

Record ProprietaryEntry : Type := { prefix : list Z; subtype : Z; pkey : list Z; pvalue : list Z }.
#[export] Instance proprietary_entry_eq : EqDecision ProprietaryEntry.
Proof. solve_decision. Defined.

Definition parse_proprietary_key_data (kd value : list Z) : option ProprietaryEntry :=
  if (length kd <? 2)%nat then None
  else
    let prefix_len := kd !!! 0%nat in
    if Z.of_nat (length kd) <? 1 + prefix_len + 1 then None
    else Some {| prefix := slice 1 (Z.to_nat prefix_len) kd;
                 subtype := kd !!! Z.to_nat (1 + prefix_len);
                 pkey := drop (Z.to_nat (1 + prefix_len + 1)) kd;
                 pvalue := value |}.
Definition iter_proprietary (m : ParsedMap) : list ProprietaryEntry :=
  omap (fun '(kd, value) => parse_proprietary_key_data kd value) (iter_keys m 0xFC).

(** ** Accounts *)

Definition PSBT_ACCOUNT_PROPRIETARY_IDENTIFIER : list Z := lit "ACCOUNT".
Definition PSBT_ACCOUNT_GLOBAL_ACCOUNT_DESCRIPTOR : Z := 0x00.
Definition PSBT_ACCOUNT_GLOBAL_ACCOUNT_NAME : Z := 0x01.
Definition PSBT_ACCOUNT_GLOBAL_ACCOUNT_POR : Z := 0x02.
Definition PSBT_ACCOUNT_IN_COORDINATES : Z := 0x00.
Definition PSBT_ACCOUNT_OUT_COORDINATES : Z := 0x00.
Definition MAX_SINGLE_BYTE_COMPACTSIZE : Z := 252.

Inductive PsbtAccountError : Type :=
| EmptyValue | InvalidAccountName | UnknownAccountType | AccountIdTooLarge | InvalidValue | TooManyAccounts
| DeserializeError | AccountUnsupported.

Definition is_valid_account_name (value : list Z) : bool :=
  (1 <=? length value)%nat && (length value <=? 64)%nat
  && negb (value !!! 0%nat =? 32) && negb (value !!! (length value - 1)%nat =? 32)
  && forallb (fun c => (0x20 <=? c) && (c <=? 0x7E)) value.

(** The entry that a reader stops at. *)
Definition is_entry (identifier : list Z) (sub : Z) (key : list Z) (e : ProprietaryEntry) : bool :=
  bool_decide (prefix e = identifier) && (subtype e =? sub) && bool_decide (pkey e = key).
Definition find_entry (identifier : list Z) (sub : Z) (key : list Z) (entries : list ProprietaryEntry) :
    option ProprietaryEntry := List.find (is_entry identifier sub key) entries.

Section accounts.
Context `{AccountCrate}.

(** An account is its wallet policy, the only type that there is. *)
Definition get_account `{BitcoinCrate} `{HexCrate} (entries : list ProprietaryEntry) (id : Z) :
    outcome PsbtAccountError (option WalletPolicy) :=
  match find_entry PSBT_ACCOUNT_PROPRIETARY_IDENTIFIER PSBT_ACCOUNT_GLOBAL_ACCOUNT_DESCRIPTOR (u32_encode id) entries with
  | None => Ok None
  | Some entry =>
      match pvalue entry with
      | [] => Err EmptyValue
      | tag :: rest =>
          if tag =? 0 then
            wp ← outcome_map_err (fun _ => DeserializeError) (deserialize_policy rest);
            Ok (Some wp)
          else Err UnknownAccountType
      end
  end.
Fixpoint get_accounts_loop `{BitcoinCrate} `{HexCrate} (fuel : nat) (entries : list ProprietaryEntry) (id : Z) :
    outcome PsbtAccountError (list WalletPolicy) :=
  match fuel with
  | O => Diverge
  | S fuel =>
      account ← get_account entries id;
      match account with
      | Some account => res ← get_accounts_loop fuel entries (id + 1); Ok (account :: res)
      | None => Ok []
      end
  end.
Definition get_accounts `{BitcoinCrate} `{HexCrate} (entries : list ProprietaryEntry) :
    outcome PsbtAccountError (list WalletPolicy) := get_accounts_loop (S (length entries)) entries 0.

Definition get_account_name (entries : list ProprietaryEntry) (id : Z) : outcome PsbtAccountError (option (list Z)) :=
  match find_entry PSBT_ACCOUNT_PROPRIETARY_IDENTIFIER PSBT_ACCOUNT_GLOBAL_ACCOUNT_NAME (u32_encode id) entries with
  | None => Ok None
  | Some entry =>
      guard_err (negb (is_valid_account_name (pvalue entry))) InvalidAccountName;;
      name ← unwrap (if utf8_ok (pvalue entry) then Some (pvalue entry) else None);
      Ok (Some name)
  end.
Definition get_account_proof_of_registration (entries : list ProprietaryEntry) (id : Z) :
    outcome PsbtAccountError (option (list Z)) :=
  match find_entry PSBT_ACCOUNT_PROPRIETARY_IDENTIFIER PSBT_ACCOUNT_GLOBAL_ACCOUNT_POR (u32_encode id) entries with
  | None => Ok None
  | Some entry => guard_err (bool_decide (pvalue entry = [])) EmptyValue;; Ok (Some (pvalue entry))
  end.

(** [get_account_coordinates] of an input or an output, which differ in the subtype. *)
Definition get_account_coordinates (sub : Z) (entries : list ProprietaryEntry) :
    outcome PsbtAccountError (option (Z * WalletPolicyCoordinates)) :=
  match find_entry PSBT_ACCOUNT_PROPRIETARY_IDENTIFIER sub [] entries with
  | None => Ok None
  | Some entry =>
      match pvalue entry with
      | account_id :: tag :: (_ :: _) as rest =>
          guard_err (MAX_SINGLE_BYTE_COMPACTSIZE <? account_id) AccountIdTooLarge;;
          if tag =? 0 then
            '(coords, _) ← outcome_map_err (fun _ => DeserializeError) (deserialize_coordinates (drop 2 (pvalue entry)));
            Ok (Some (account_id, coords))
          else Err UnknownAccountType
      | _ => Err InvalidValue
      end
  end.
Definition input_account_coordinates (i : Input) :=
  get_account_coordinates PSBT_ACCOUNT_IN_COORDINATES (iter_proprietary (in_map i)).
Definition output_account_coordinates (o : Output) :=
  get_account_coordinates PSBT_ACCOUNT_OUT_COORDINATES (iter_proprietary (out_map o)).

(** *** Writers *)

(** [BTreeMap::insert]: the entries are in the order of their keys. *)
Definition cmp_entry (a b : ProprietaryEntry) : comparison :=
  then_with (cmp_bytes (prefix a) (prefix b)) (then_with (subtype a ?= subtype b) (cmp_bytes (pkey a) (pkey b))).
Fixpoint insert_entry (e : ProprietaryEntry) (l : list ProprietaryEntry) : list ProprietaryEntry :=
  match l with
  | [] => [e]
  | x :: l => match cmp_entry e x with Lt => e :: x :: l | Eq => e :: l | Gt => x :: insert_entry e l end
  end.
Definition account_entry (sub : Z) (key value : list Z) : ProprietaryEntry :=
  {| prefix := PSBT_ACCOUNT_PROPRIETARY_IDENTIFIER; subtype := sub; pkey := key; pvalue := value |}.

Definition set_account `{BitcoinCrate} (l : list ProprietaryEntry) (id : Z) (wp : WalletPolicy) :
    outcome PsbtAccountError (list ProprietaryEntry) :=
  Ok (insert_entry (account_entry PSBT_ACCOUNT_GLOBAL_ACCOUNT_DESCRIPTOR (u32_encode id) (0 :: serialize_policy wp)) l).
Fixpoint set_accounts_from `{BitcoinCrate} (i : Z) (l : list ProprietaryEntry) (accounts : list WalletPolicy) :
    outcome PsbtAccountError (list ProprietaryEntry) :=
  match accounts with
  | [] => Ok l
  | account :: accounts => l ← set_account l i account; set_accounts_from (i + 1) l accounts
  end.
Definition set_accounts `{BitcoinCrate} (l : list ProprietaryEntry) (accounts : list WalletPolicy) :=
  set_accounts_from 0 l accounts.
Definition set_account_name (l : list ProprietaryEntry) (id : Z) (name : list Z) :
    outcome PsbtAccountError (list ProprietaryEntry) :=
  guard_err (negb (is_valid_account_name name)) InvalidAccountName;;
  Ok (insert_entry (account_entry PSBT_ACCOUNT_GLOBAL_ACCOUNT_NAME (u32_encode id) name) l).
Definition set_account_proof_of_registration (l : list ProprietaryEntry) (id : Z) (por : list Z) :
    outcome PsbtAccountError (list ProprietaryEntry) :=
  guard_err (length por <? 1)%nat EmptyValue;;
  Ok (insert_entry (account_entry PSBT_ACCOUNT_GLOBAL_ACCOUNT_POR (u32_encode id) por) l).
(** The error for a large identifier is [AccountIdTooLarge] for inputs, [TooManyAccounts] for outputs. *)
Definition set_account_coordinates (sub : Z) (too_large : PsbtAccountError) (l : list ProprietaryEntry) (id : Z)
    (coordinates : WalletPolicyCoordinates) : outcome PsbtAccountError (list ProprietaryEntry) :=
  guard_err (MAX_SINGLE_BYTE_COMPACTSIZE <? id) too_large;;
  Ok (insert_entry (account_entry sub [] (w8 id :: 0 :: serialize_coordinates coordinates)) l).
Definition input_set_account_coordinates := set_account_coordinates PSBT_ACCOUNT_IN_COORDINATES AccountIdTooLarge.
Definition output_set_account_coordinates := set_account_coordinates PSBT_ACCOUNT_OUT_COORDINATES TooManyAccounts.
End accounts.

(** ** Identities *)

Definition PSBT_IDAUTH_PROPRIETARY_IDENTIFIER : list Z := lit "IDAUTH".
Definition PSBT_IDAUTH_GLOBAL_REGISTERED_IDENTITY_KEY : Z := 0x00.
Definition PSBT_IDAUTH_OUT_SIGNATURE : Z := 0x00.
Definition PSBT_IDAUTH_TAG_IDENTITY : Z := 0x00.

Inductive PsbtIdAuthError : Type := MalformedEntry | InvalidNameLength | IdInvalidUtf8 | InvalidSignatureLength.
Record RegisteredIdentityKey : Type := { rik_pubkey : list Z; rik_name : list Z; rik_por : list Z }.
(** [OutputAuthProof::IdentitySignature]. *)
Record OutputAuthProof : Type := { proof_pubkey : list Z; proof_sig : list Z }.

(** The entries that a loop does not skip. *)
Definition of_subtype (identifier : list Z) (sub : Z) (e : ProprietaryEntry) : bool :=
  bool_decide (prefix e = identifier) && (subtype e =? sub).

Definition registered_identity_key (entry : ProprietaryEntry) : outcome PsbtIdAuthError RegisteredIdentityKey :=
  guard_err (negb (length (pkey entry) =? 33)%nat) MalformedEntry;;
  let value := pvalue entry in
  guard_err (length value <? 1 + 1 + 32)%nat MalformedEntry;;
  let name_len := value !!! 0%nat in
  guard_err (name_len =? 0) MalformedEntry;;
  guard_err (negb (Z.of_nat (length value) =? 1 + name_len + 32)) MalformedEntry;;
  let name := slice 1 (Z.to_nat name_len) value in
  guard_err (negb (utf8_ok name)) IdInvalidUtf8;;
  Ok {| rik_pubkey := pkey entry; rik_name := name; rik_por := slice (Z.to_nat (1 + name_len)) 32 value |}.
Fixpoint get_registered_identity_keys (entries : list ProprietaryEntry) :
    outcome PsbtIdAuthError (list RegisteredIdentityKey) :=
  match entries with
  | [] => Ok []
  | entry :: entries =>
      if of_subtype PSBT_IDAUTH_PROPRIETARY_IDENTIFIER PSBT_IDAUTH_GLOBAL_REGISTERED_IDENTITY_KEY entry then
        key ← registered_identity_key entry;
        keys ← get_registered_identity_keys entries;
        Ok (key :: keys)
      else get_registered_identity_keys entries
  end.

Definition auth_proof (entry : ProprietaryEntry) : outcome PsbtIdAuthError OutputAuthProof :=
  guard_err (negb (length (pkey entry) =? 34)%nat) MalformedEntry;;
  let auth_tag := pkey entry !!! 0%nat in
  guard_err (negb (length (pvalue entry) =? 64)%nat) MalformedEntry;;
  guard_err (negb (auth_tag =? PSBT_IDAUTH_TAG_IDENTITY)) MalformedEntry;;
  Ok {| proof_pubkey := slice 1 33 (pkey entry); proof_sig := pvalue entry |}.
Fixpoint get_auth_proofs (entries : list ProprietaryEntry) : outcome PsbtIdAuthError (list OutputAuthProof) :=
  match entries with
  | [] => Ok []
  | entry :: entries =>
      if of_subtype PSBT_IDAUTH_PROPRIETARY_IDENTIFIER PSBT_IDAUTH_OUT_SIGNATURE entry then
        proof ← auth_proof entry;
        proofs ← get_auth_proofs entries;
        Ok (proof :: proofs)
      else get_auth_proofs entries
  end.

Definition identity_entry (sub : Z) (key value : list Z) : ProprietaryEntry :=
  {| prefix := PSBT_IDAUTH_PROPRIETARY_IDENTIFIER; subtype := sub; pkey := key; pvalue := value |}.
Definition add_registered_identity_key (l : list ProprietaryEntry) (entry : RegisteredIdentityKey) :
    outcome PsbtIdAuthError (list ProprietaryEntry) :=
  guard_err (bool_decide (rik_name entry = []) || (255 <? Z.of_nat (length (rik_name entry)))) InvalidNameLength;;
  Ok (insert_entry (identity_entry PSBT_IDAUTH_GLOBAL_REGISTERED_IDENTITY_KEY (rik_pubkey entry)
        (w8 (Z.of_nat (length (rik_name entry))) :: rik_name entry ++ rik_por entry)) l).
Definition add_auth_proof (l : list ProprietaryEntry) (proof : OutputAuthProof) :
    outcome PsbtIdAuthError (list ProprietaryEntry) :=
  Ok (insert_entry (identity_entry PSBT_IDAUTH_OUT_SIGNATURE (PSBT_IDAUTH_TAG_IDENTITY :: proof_pubkey proof)
        (proof_sig proof)) l).
