(* ===== verification/AccountSpec.v ===== *)
(** * Identifiers of accounts, and accounts in PSBTs

    The identifier that a proof of registration is for determines the account, or the identity;
    what is written into the entries of a PSBT is read from them. *)

From S2P Require Import Prelude Text Bip388 Bip388Spec Bip388Print Bip388RoundTrip WalletPolicy WalletPolicySpec Musig Script Account Psbt PsbtSpec PsbtAccount.

(** ** Identifiers *)

Section identifiers.
Context `{AccountCrate} `{BitcoinLaws} `{HL : HexLaws}.

(** Two messages that are different and have the same hash. *)
Definition collide (x y : list Z) : Prop := x <> y /\ sha256_digest x = sha256_digest y.
Lemma digest_eq x y : sha256_digest x = sha256_digest y -> x = y \/ collide x y.
Proof. intros E. destruct (decide (x = y)); [by left|right]. done. Qed.

Lemma varint_prefix m n r s : 0 <= m < 2 ^ 64 -> 0 <= n < 2 ^ 64 ->
  varint_encode m ++ r = varint_encode n ++ s -> m = n /\ r = s.
Proof.
  intros Hm Hn E. pose proof (varint_decode_encode m r Hm) as D. rewrite E, varint_decode_encode in D by done.
  by injection D as -> ->.
Qed.

(** What the types of a policy say of it, and that [policy_new] made it: vectors and strings
    have lengths of machine words, fingerprints 4 bytes. *)
Definition info_sized (k : KeyInformation) : Prop :=
  match origin_info k with
  | None => True
  | Some o => is_u 32 (fingerprint o) /\ Z.of_nat (length (derivation_path o)) < 2 ^ 64
  end.
Record policy_made (p : WalletPolicy) : Prop := {
  made_parsed : policy_new (descriptor_template_raw p) (key_information p) = Ok p;
  made_raw : Z.of_nat (length (descriptor_template_raw p)) < 2 ^ 64;
  made_keys : Z.of_nat (length (key_information p)) < 2 ^ 64;
  made_infos : Forall info_sized (key_information p);
}.

Lemma length_varint_prefix {A} (l l' : list A) r s : Z.of_nat (length l) < 2 ^ 64 -> Z.of_nat (length l') < 2 ^ 64 ->
  varint_encode (Z.of_nat (length l)) ++ r = varint_encode (Z.of_nat (length l')) ++ s -> length l = length l' /\ r = s.
Proof. intros Hl Hl' [El ->]%varint_prefix; [|lia..]. split; [lia|done]. Qed.
Lemma xpub_prefix x y r s : xpub_encode x ++ r = xpub_encode y ++ s -> x = y /\ r = s.
Proof.
  intros [Ex ->]%app_inj_1; [|by rewrite !length_xpub]. split; [|done].
  apply (f_equal xpub_decode) in Ex. rewrite !xpub_decode_encode in Ex. by injection Ex.
Qed.
Lemma child_into_inj c d : child_into c = child_into d -> c = d.
Proof. intros E. by rewrite <- (child_from_into c), E, child_from_into. Qed.
Lemma path_prefix (l l' : list ChildNumber) r s : length l = length l' ->
  concat (map (fun c => le_bytes 4 (child_into c)) l) ++ r = concat (map (fun c => le_bytes 4 (child_into c)) l') ++ s ->
  l = l' /\ r = s.
Proof.
  revert l'; induction l as [|c l IH]; intros [|d l'] Hl E; cbn in Hl; try done. cbn [map concat] in E.
  rewrite <- !app_assoc in E. apply app_inj_1 in E as [Ec E]; [|by rewrite !length_le_bytes].
  apply (f_equal le_value) in Ec. rewrite !le_value_bytes in Ec by apply child_range.
  apply child_into_inj in Ec as ->. apply IH in E as [-> ->]; [done|lia].
Qed.
Lemma info_prefix k l r s : info_sized k -> info_sized l -> serialize_info k ++ r = serialize_info l ++ s -> k = l /\ r = s.
Proof.
  unfold info_sized, serialize_info. destruct k as [x [[f path]|]], l as [y [[g path']|]]; cbn [origin_info pubkey fingerprint derivation_path].
  all: rewrite <- ?app_assoc; intros Hk Hl E; apply app_inj_1 in E as [Eflag E]; [|done]; try done.
  - destruct Hk as [Hf Hp], Hl as [Hg Hp']. apply app_inj_1 in E as [Ef E]; [|by rewrite !length_be_bytes].
    apply (f_equal be_value) in Ef. rewrite !be_value_bytes in Ef by done. subst g.
    apply length_varint_prefix in E as [El E]; [|done..]. apply path_prefix in E as [-> E]; [|done].
    by apply xpub_prefix in E as [-> ->].
  - by apply xpub_prefix in E as [-> ->].
Qed.
Lemma infos_inj ks ls : Forall info_sized ks -> Forall info_sized ls -> length ks = length ls ->
  concat (map serialize_info ks) = concat (map serialize_info ls) -> ks = ls.
Proof.
  intros Hk. revert ls; induction Hk as [|k ks Hk _ IH]; intros ls Hl El E; destruct Hl as [|l ls Hl Hls]; try done.
  cbn [map concat] in E. apply info_prefix in E as [-> E]; [|done..]. f_equal. apply IH; [done|cbn in El; lia|done].
Qed.
(** The serialization of a policy is injective, also where it is too long to be read. *)
Lemma serialize_policy_inj p q : policy_made p -> policy_made q -> serialize_policy p = serialize_policy q -> p = q.
Proof.
  intros [Hp Hr Hk Hi] [Hq Hr' Hk' Hi'] E. unfold serialize_policy in E.
  apply length_varint_prefix in E as [El E]; [|done..]. apply app_inj_1 in E as [Er E]; [|done].
  apply length_varint_prefix in E as [El' E]; [|done..]. apply infos_inj in E; [|done..].
  rewrite Er, E, Hq in Hp. by injection Hp.
Qed.

Lemma account_message_inj p q m n : policy_made p -> policy_made q ->
  Z.of_nat (length m) < 2 ^ 64 -> Z.of_nat (length n) < 2 ^ 64 ->
  account_message p m = account_message q n -> p = q /\ m = n.
Proof.
  intros Hp Hq Hm Hn E. unfold account_message in E. do 2 apply app_inv_head in E.
  apply length_varint_prefix in E as [El E]; [|done..]. apply app_inj_1 in E as [-> E]; [|done]. split; [|done].
  unfold account_serialize in E. apply app_inv_head in E. by apply serialize_policy_inj.
Qed.
(** The byte for the length of the name wraps around at 256, but the key has 33 bytes. *)
Lemma identity_message_inj k l m n : length k = length l -> identity_message k m = identity_message l n -> k = l /\ m = n.
Proof.
  intros Hk E. unfold identity_message in E. apply app_inv_head in E. apply app_inj_1 in E as [_ E]; [|done].
  by apply app_inj_2 in E as [-> ->].
Qed.

(** C38. The identifier that is registered determines the account, that is its policy and its name,
    or the identity, that is its key and its name; no identifier is that of an account and of
    an identity. Otherwise the two messages that were hashed collide. A policy is any that
    [policy_new] made from a text and keys, of whatever size. *)
Theorem registration_id_identifies p q m n k l u v : policy_made p -> policy_made q ->
  Z.of_nat (length m) < 2 ^ 64 -> Z.of_nat (length n) < 2 ^ 64 -> length k = 33%nat -> length l = 33%nat ->
  (get_id p m = get_id q n -> (p = q /\ m = n) \/ collide (account_message p m) (account_message q n)) /\
  (identity_get_id k u = identity_get_id l v -> (k = l /\ u = v) \/ collide (identity_message k u) (identity_message l v)) /\
  (get_id p m = identity_get_id k u -> collide (account_message p m) (identity_message k u)).
Proof.
  intros Hp Hq Hm Hn Hk Hl. split_and!; intros [E|Hc]%digest_eq; try (by right); try done.
  - left. by apply account_message_inj.
  - left. apply identity_message_inj; [congruence|done].
Qed.
End identifiers.

(** ** Entries *)

Section entries.
Implicit Types (e : ProprietaryEntry) (l : list ProprietaryEntry) (key : list Z).

Lemma cmp_entry_eq e x : cmp_entry e x = Eq <-> prefix e = prefix x /\ subtype e = subtype x /\ pkey e = pkey x.
Proof.
  unfold cmp_entry, then_with. rewrite <- (cmp_bytes_eq (prefix e)), <- (cmp_bytes_eq (pkey e)), <- Z.compare_eq_iff.
  destruct (cmp_bytes (prefix e) _), (_ ?= _); intuition congruence.
Qed.
Lemma is_entry_true i s key e : is_entry i s key e = true <-> prefix e = i /\ subtype e = s /\ pkey e = key.
Proof. unfold is_entry. rewrite !andb_true_iff, !bool_decide_eq_true, Z.eqb_eq. tauto. Qed.

(** The entry of a key. *)
Definition at_key e : list ProprietaryEntry -> option ProprietaryEntry := find_entry (prefix e) (subtype e) (pkey e).
Definition same_key e x : Prop := prefix e = prefix x /\ subtype e = subtype x /\ pkey e = pkey x.
Lemma find_insert_eq e l : at_key e (insert_entry e l) = Some e.
Proof.
  unfold at_key, find_entry. assert (is_entry (prefix e) (subtype e) (pkey e) e = true) as He by by apply is_entry_true.
  induction l as [|x l IH]; cbn [insert_entry List.find]; [by rewrite He|].
  destruct (cmp_entry e x) eqn:E; cbn [List.find]; rewrite ?He; [done|done|].
  destruct (is_entry _ _ _ x) eqn:Ex; [|done]. apply is_entry_true in Ex as (? & ? & ?).
  by rewrite (proj2 (cmp_entry_eq e x)) in E.
Qed.
Lemma find_insert_ne e l i s key : ~ (prefix e = i /\ subtype e = s /\ pkey e = key) ->
  find_entry i s key (insert_entry e l) = find_entry i s key l.
Proof.
  intros Hne. unfold find_entry. assert (is_entry i s key e = false) as He.
  { destruct (is_entry i s key e) eqn:E; [|done]. by apply is_entry_true in E. }
  induction l as [|x l IH]; cbn [insert_entry List.find]; [by rewrite He|].
  destruct (cmp_entry e x) eqn:E; cbn [List.find]; rewrite ?He; [|done|by rewrite IH].
  apply cmp_entry_eq in E as (E1 & E2 & E3). destruct (is_entry i s key x) eqn:Ex; [|done].
  apply is_entry_true in Ex as (? & ? & ?). exfalso. apply Hne. split_and!; congruence.
Qed.
Lemma length_insert_new e l : at_key e l = None -> length (insert_entry e l) = S (length l).
Proof.
  unfold at_key, find_entry. induction l as [|x l IH]; cbn [insert_entry List.find]; [done|].
  destruct (is_entry _ _ _ x) eqn:Ex; [done|]. intros Hf.
  destruct (cmp_entry e x) eqn:E; cbn; [|done|by rewrite IH].
  apply cmp_entry_eq in E as (? & ? & ?). by rewrite (proj2 (is_entry_true _ _ _ _)) in Ex.
Qed.
End entries.

(** ** Accounts *)

(** What the [bitcoin] crate promises of its encodings. *)
Class AccountLaws `{AccountCrate} := {
  u32_encode_le : forall n, is_u 32 n -> u32_encode n = le_bytes 4 n;
  u32_decode_le : forall n r, is_u 32 n -> u32_decode (le_bytes 4 n ++ r) = Ok (n, r);
  bool_decode_byte : forall (b : bool) r, bool_decode ((if b then 1 else 0) :: r) = Ok (b, r);
}.

Section accounts.
Context `{AccountLaws} `{BitcoinLaws} `{HL : HexLaws}.

Lemma u32_encode_inj m n : is_u 32 m -> is_u 32 n -> u32_encode m = u32_encode n -> m = n.
Proof.
  intros Hm Hn E. rewrite !u32_encode_le in E by done. apply (f_equal le_value) in E.
  by rewrite !le_value_bytes in E by done.
Qed.
Definition descriptor_of (id : Z) : list ProprietaryEntry -> option ProprietaryEntry :=
  find_entry PSBT_ACCOUNT_PROPRIETARY_IDENTIFIER PSBT_ACCOUNT_GLOBAL_ACCOUNT_DESCRIPTOR (u32_encode id).
Definition descriptor_entry (id : Z) (p : WalletPolicy) : ProprietaryEntry :=
  account_entry PSBT_ACCOUNT_GLOBAL_ACCOUNT_DESCRIPTOR (u32_encode id) (0 :: serialize_policy p).

Lemma get_account_found l id p : policy_ok p -> descriptor_of id l = Some (descriptor_entry id p) ->
  get_account l id = Ok (Some p).
Proof. intros Hp E. unfold get_account. unfold descriptor_of in E. rewrite E. cbn. by rewrite policy_decodes. Qed.
Lemma get_account_none l id : descriptor_of id l = None -> get_account l id = Ok None.
Proof. unfold descriptor_of, get_account. by intros ->. Qed.

Lemma set_from l i accs : is_u 32 (i + Z.of_nat (length accs)) -> 0 <= i ->
  (forall k, (k < length accs)%nat -> descriptor_of (i + Z.of_nat k) l = None) ->
  exists l', set_accounts_from i l accs = Ok l' /\ length l' = (length l + length accs)%nat /\
    (forall k p, accs !! k = Some p -> descriptor_of (i + Z.of_nat k) l' = Some (descriptor_entry (i + Z.of_nat k) p)) /\
    (forall x s key, (forall k, (k < length accs)%nat ->
        ~ (PSBT_ACCOUNT_PROPRIETARY_IDENTIFIER = x /\ PSBT_ACCOUNT_GLOBAL_ACCOUNT_DESCRIPTOR = s /\ u32_encode (i + Z.of_nat k) = key)) ->
      find_entry x s key l' = find_entry x s key l).
Proof.
  unfold is_u. revert l i; induction accs as [|a accs IH]; intros l i Hr Hi Hn; cbn [set_accounts_from length] in *.
  { exists l. split_and!; [done|lia|by intros k p [=]|done]. }
  unfold set_account. cbn [mbind outcome_mbind outcome_bind]. fold (descriptor_entry i a).
  assert (forall k, (k < length accs)%nat -> u32_encode i <> u32_encode (i + 1 + Z.of_nat k)) as Hne.
  { intros k Hk E. apply u32_encode_inj in E; unfold is_u; lia. }
  set (l1 := insert_entry (descriptor_entry i a) l).
  assert (descriptor_of i l = None) as Hi0 by (specialize (Hn 0%nat ltac:(lia)); by rewrite Z.add_0_r in Hn).
  destruct (IH l1 (i + 1)) as (l' & E & El & Hs & Ho); [lia|lia| |].
  { intros k Hk. unfold descriptor_of, l1. rewrite find_insert_ne.
    - specialize (Hn (S k) ltac:(lia)). by replace (i + 1 + Z.of_nat k) with (i + Z.of_nat (S k)) by lia.
    - intros (_ & _ & Ek). by eapply Hne. }
  exists l'. split_and!; [done| | |].
  - rewrite El. unfold l1. rewrite length_insert_new by exact Hi0. lia.
  - intros [|k] p Hk; cbn in Hk.
    + injection Hk as ->. rewrite Z.add_0_r. unfold descriptor_of. rewrite Ho; [exact (find_insert_eq (descriptor_entry i p) l)|].
      intros k Hk (_ & _ & Ek). by eapply Hne.
    + replace (i + Z.of_nat (S k)) with (i + 1 + Z.of_nat k) by lia. by apply Hs.
  - intros x s key Hx. rewrite Ho.
    + unfold l1. apply find_insert_ne. cbn. specialize (Hx 0%nat ltac:(lia)). by rewrite Z.add_0_r in Hx.
    + intros k Hk. specialize (Hx (S k) ltac:(lia)). by replace (i + 1 + Z.of_nat k) with (i + Z.of_nat (S k)) by lia.
Qed.
Lemma get_loop fuel l i accs : Forall policy_ok accs -> (length accs < fuel)%nat ->
  (forall k p, accs !! k = Some p -> descriptor_of (i + Z.of_nat k) l = Some (descriptor_entry (i + Z.of_nat k) p)) ->
  descriptor_of (i + Z.of_nat (length accs)) l = None ->
  get_accounts_loop fuel l i = Ok accs.
Proof.
  intros Hok. revert fuel i; induction Hok as [|p accs Hp Hok IH]; intros [|fuel] i Hf Hs Hn; cbn in Hf; try lia.
  - cbn [get_accounts_loop length] in *. rewrite Z.add_0_r in Hn. by rewrite get_account_none.
  - cbn [get_accounts_loop length] in *. pose proof (Hs 0%nat p eq_refl) as H0'. rewrite Z.add_0_r in H0'.
    rewrite (get_account_found _ _ _ Hp H0'). cbn [mbind outcome_mbind outcome_bind]. rewrite (IH fuel); [done|lia| |].
    + intros k q Hk. specialize (Hs (S k) q Hk). by replace (i + 1 + Z.of_nat k) with (i + Z.of_nat (S k)) by lia.
    + by replace (i + 1 + Z.of_nat (length accs)) with (i + Z.of_nat (S (length accs))) by lia.
Qed.

(** The accounts that are written into the entries of a PSBT without accounts are those that
    are read from it, in their order, and no other entry changes. *)
Theorem accounts_round_trip l accs : Forall policy_ok accs -> Z.of_nat (length accs) < 2 ^ 32 ->
  (forall key, find_entry PSBT_ACCOUNT_PROPRIETARY_IDENTIFIER PSBT_ACCOUNT_GLOBAL_ACCOUNT_DESCRIPTOR key l = None) ->
  exists l', set_accounts l accs = Ok l' /\ get_accounts l' = Ok accs /\
    forall x s key, (x, s) <> (PSBT_ACCOUNT_PROPRIETARY_IDENTIFIER, PSBT_ACCOUNT_GLOBAL_ACCOUNT_DESCRIPTOR) ->
      find_entry x s key l' = find_entry x s key l.
Proof.
  intros Hok Hl Hn. destruct (set_from l 0 accs) as (l' & E & El & Hs & Ho); [unfold is_u; lia|lia|intros; apply Hn|].
  exists l'. split_and!; [exact E| |].
  - apply get_loop; [done|lia|exact Hs|]. unfold descriptor_of. rewrite Ho; [apply Hn|].
    intros k Hk (_ & _ & Ek). apply u32_encode_inj in Ek; unfold is_u; lia.
  - intros x s key Hx. apply Ho. intros k _ (<- & <- & _). done.
Qed.

(** ** Names, proofs of registration, coordinates *)

Definition coordinates_ok (c : WalletPolicyCoordinates) : Prop := is_u 32 (address_index c).
Lemma utf8_printable s : forallb (fun c => (0x20 <=? c) && (c <=? 0x7E)) s = true -> utf8_ok s = true.
Proof.
  induction s as [|c s IH]; [done|]. cbn [forallb]. intros [[_ Hc%Z.leb_le]%andb_prop Hs]%andb_prop.
  cbn [utf8_ok]. rewrite (proj2 (Z.ltb_lt _ _)) by lia. by apply IH.
Qed.
Lemma find_account_entry sub key v l :
  find_entry PSBT_ACCOUNT_PROPRIETARY_IDENTIFIER sub key (insert_entry (account_entry sub key v) l) = Some (account_entry sub key v).
Proof. exact (find_insert_eq (account_entry sub key v) l). Qed.

(** A name, a proof of registration and the coordinates of an input or an output are read as
    they were written; what is not written is what would not be read. *)
Theorem account_fields_round_trip l id sub e name por c : is_u 32 (address_index c) -> 0 <= id ->
  match set_account_name l id name with
  | Ok l' => is_valid_account_name name = true /\ get_account_name l' id = Ok (Some name)
  | _ => is_valid_account_name name = false
  end /\
  match set_account_proof_of_registration l id por with
  | Ok l' => por <> [] /\ get_account_proof_of_registration l' id = Ok (Some por)
  | _ => por = []
  end /\
  match set_account_coordinates sub e l id c with
  | Ok l' => id <= 252 /\ get_account_coordinates sub l' = Ok (Some (id, c))
  | _ => 252 < id
  end.
Proof.
  intros Hc Hid. split_and!.
  - unfold set_account_name. destruct (is_valid_account_name name) eqn:Ev; [|done]. cbn. split; [done|].
    unfold get_account_name. rewrite find_account_entry. cbn [pvalue account_entry]. rewrite Ev. cbn.
    assert (utf8_ok name = true) as -> by (apply utf8_printable; by apply andb_prop in Ev as [_ ?]). done.
  - unfold set_account_proof_of_registration. destruct por as [|b por]; [done|]. cbn. split; [done|].
    unfold get_account_proof_of_registration. by rewrite find_account_entry.
  - unfold set_account_coordinates, MAX_SINGLE_BYTE_COMPACTSIZE. destruct (Z.ltb_spec 252 id) as [|Hle]; [done|]. cbn.
    split; [done|]. unfold get_account_coordinates. rewrite find_account_entry. cbn [pvalue account_entry].
    rewrite wrap_small by (unfold is_u; lia). unfold serialize_coordinates. cbn [drop].
    unfold MAX_SINGLE_BYTE_COMPACTSIZE. rewrite (proj2 (Z.ltb_ge 252 id)) by lia. cbn [guard_err mbind outcome_mbind outcome_bind].
    unfold deserialize_coordinates. rewrite bool_decode_byte. cbn [mbind outcome_mbind outcome_bind].
    rewrite <- (app_nil_r (le_bytes 4 _)), u32_decode_le by done. by destruct c.
Qed.
End accounts.

(** ** An instance *)

#[local] Instance toy_account : AccountCrate := {
  sha256_digest d := d;
  hmac_sha256 k d := k ++ d;
  derive_slip21_key labels := concat labels;
  u32_encode n := le_bytes 4 n;
  u32_decode s := if (4 <=? length s)%nat then Ok (le_value (take 4 s), drop 4 s) else Err OtherError;
  bool_decode s := match s with b :: s => Ok (negb (b =? 0), s) | [] => Err OtherError end;
  address_from_script s := Some s;
}.
#[local] Instance toy_account_laws : AccountLaws.
Proof.
  split.
  - done.
  - intros n r Hn. unfold u32_decode, toy_account. rewrite (proj2 (Nat.leb_le 4 _)) by (rewrite length_app, length_le_bytes; lia).
    rewrite take_app_length', drop_app_length' by by rewrite length_le_bytes. by rewrite le_value_bytes.
  - by intros [] r.
Qed.

(** A hash with the same value of all messages. *)
Definition constant_account : AccountCrate := {|
  sha256_digest _ := [];
  hmac_sha256 k d := k ++ d;
  derive_slip21_key labels := concat labels;
  u32_encode n := le_bytes 4 n;
  u32_decode s := Err OtherError;
  bool_decode s := Err OtherError;
  address_from_script s := Some s;
|}.
Lemma toy_policy_made : @policy_made toy_bitcoin hex_codec toy_policy.
Proof.
  destruct toy_policy_ok as [Hp _ Hr Hk _]. split; [exact Hp|..].
  - change (Z.of_nat (length (lit example_template)) < 2 ^ 64). by vm_compute.
  - by vm_compute.
  - repeat constructor; by vm_compute.
Qed.
(** If all messages have the same hash, then those of different names do, and those of an
    account and of an identity; if the hash is the message, equal identifiers are those of equal
    accounts. *)
Lemma registration_id_identifies_witness :
  (@get_id toy_account toy_bitcoin toy_policy (lit "a") = @get_id toy_account toy_bitcoin toy_policy [97] /\
    ((toy_policy = toy_policy /\ lit "a" = [97]) \/
     @collide toy_account (@account_message toy_bitcoin toy_policy (lit "a")) (@account_message toy_bitcoin toy_policy [97]))) /\
  (@get_id constant_account toy_bitcoin toy_policy (lit "a") = @get_id constant_account toy_bitcoin toy_policy (lit "b") /\
    @collide constant_account (@account_message toy_bitcoin toy_policy (lit "a")) (@account_message toy_bitcoin toy_policy (lit "b"))) /\
  @collide constant_account (identity_message (replicate 33 2) (replicate 300 117)) (identity_message (replicate 33 3) (replicate 44 117)) /\
  (@get_id constant_account toy_bitcoin toy_policy (lit "a") = @identity_get_id constant_account (replicate 33 2) (replicate 300 117) /\
    @collide constant_account (@account_message toy_bitcoin toy_policy (lit "a")) (identity_message (replicate 33 2) (replicate 300 117))).
Proof.
  destruct (@registration_id_identifies toy_account toy_bitcoin toy_bitcoin_laws hex_codec toy_policy toy_policy (lit "a") [97]
    (replicate 33 2) (replicate 33 3) [] [] toy_policy_made toy_policy_made ltac:(by vm_compute) ltac:(by vm_compute)
    eq_refl eq_refl) as (H1 & _ & _).
  destruct (@registration_id_identifies constant_account toy_bitcoin toy_bitcoin_laws hex_codec toy_policy toy_policy (lit "a") (lit "b")
    (replicate 33 2) (replicate 33 3) (replicate 300 117) (replicate 44 117) toy_policy_made toy_policy_made ltac:(by vm_compute)
    ltac:(by vm_compute) eq_refl eq_refl) as (H2 & H3 & H4).
  split; [|split; [|split; [|split; [reflexivity|apply H4; reflexivity]]]].
  - split; [reflexivity|apply H1; reflexivity].
  - split; [reflexivity|]. destruct (H2 eq_refl) as [[_ E]|Hc]; [discriminate E|exact Hc].
  - destruct (H3 eq_refl) as [[E _]|Hc]; [discriminate E|exact Hc].
Defined.
Lemma accounts_round_trip_witness : exists l', @set_accounts toy_account toy_bitcoin [] [toy_policy; toy_policy] = Ok l' /\
  length l' = 2%nat /\ @get_accounts toy_account toy_bitcoin hex_codec l' = Ok [toy_policy; toy_policy].
Proof.
  destruct (@accounts_round_trip toy_account toy_account_laws toy_bitcoin toy_bitcoin_laws hex_codec [] [toy_policy; toy_policy])
    as (l' & E & G & _); [repeat constructor; apply toy_policy_ok|by vm_compute|done|].
  exists l'. split; [exact E|]. split; [|exact G]. injection E as <-. by vm_compute.
Defined.
Lemma account_fields_round_trip_witness : exists l',
  input_set_account_coordinates [] 7 {| is_change := true; address_index := 70000 |} = Ok l' /\
  get_account_coordinates PSBT_ACCOUNT_IN_COORDINATES l' = Ok (Some (7, {| is_change := true; address_index := 70000 |})).
Proof.
  pose proof (account_fields_round_trip [] 7 PSBT_ACCOUNT_IN_COORDINATES AccountIdTooLarge [] []
    {| is_change := true; address_index := 70000 |} ltac:(by vm_compute) ltac:(lia)) as (_ & _ & Hc).
  eexists. split; [reflexivity|]. apply Hc.
Defined.
