(* ===== verification/MusigSession.v ===== *)
(** * Keys and MuSig2 sessions of the Bitcoin application ([apps/bitcoin/app/src])

    The storage slots of the application and what it keeps there: the seed of the resident keys
    ([resident_key.rs], [bip32.rs]) and the MuSig2 session between the two rounds of a signature
    ([handlers/musig_signing.rs]), with the nonces and partial signatures of the two rounds.
    The curve, the hashes and the random bytes of the SDK are the class [SigningSdk]. *)

From S2P Require Import Prelude Text Bip388 WalletPolicy Musig Script Psbt.

(** [HDPrivNode]: a private key with its chain code. *)
Record HDPrivNode : Type := { privkey : list Z; chaincode : list Z }.

(** [random_bytes n] are the 32 bytes of the [n]-th request; [seed_attempts] is a bound on the
    number of seeds that are tried. *)
Class SigningSdk := {
  sdk_derive_hd_node : list Z -> option HDPrivNode;
  sdk_master_fingerprint : Z;
  ckd_priv : HDPrivNode -> Z -> option HDPrivNode;
  to_public_compressed : list Z -> list Z;
  to_public_bytes : list Z -> list Z;
  pub_fingerprint : list Z -> Z;
  ecdsa_sign_hash : list Z -> list Z -> option (list Z);
  schnorr_sign : list Z -> list Z -> option (list Z);
  schnorr_verify : list Z -> list Z -> list Z -> bool;
  sha512_digest : list Z -> list Z;
  session_sha256 : list Z -> list Z;
  random_bytes : nat -> list Z;
  seed_attempts : nat;
}.

(** ** The application *)

(** A line of a review: its tag and its value. *)
Record TagValue : Type := { tag : list Z; tag_value : list Z }.
Inductive KeyTree : Type := Standard | Resident.
#[export] Instance key_tree_eq : EqDecision KeyTree.
Proof. solve_decision. Defined.
Inductive Screen : Type :=
| ReviewAccount (pairs : list TagValue)
| ReviewIdentity (pairs : list TagValue)
| ReviewAddress (pairs : list TagValue)
| ReviewIdentityKey (index : option Z) (pairs : list TagValue)
| ReviewXpub (tree : KeyTree) (pairs : list TagValue)
| UnverifiedInputs
| HighFee (percent : Z)
| ReviewTransaction (pairs : list TagValue).

(** The storage slots, the number of requests for random bytes that were made, the screens that
    were shown, and the answers that the user will give. *)
Record App : Type := { slots : list (list Z); drawn : nat; shown : list Screen; answers : list bool }.
Definition set_slots (v : list (list Z)) (a : App) : App :=
  {| slots := v; drawn := drawn a; shown := shown a; answers := answers a |}.
Definition set_drawn (v : nat) (a : App) : App :=
  {| slots := slots a; drawn := v; shown := shown a; answers := answers a |}.

Definition read_slot (i : nat) : ST App Error (list Z) := a ← get; lift (ok_or (slots a !! i) EStorageError).
Definition is_slot_empty (i : nat) : ST App Error bool := d ← read_slot i; mret (bool_decide (d = zeros 32)).
Definition write_slot (i : nat) (d : list Z) : ST App Error unit :=
  a ← get;
  if (length (slots a) <=? i)%nat then fail EStorageError
  else modify (set_slots (<[i := d]> (slots a))).
(** A screen that asks for a confirmation. *)
Definition ask (s : Screen) : ST App Error bool := fun a =>
  let a' rest := {| slots := slots a; drawn := drawn a; shown := shown a ++ [s]; answers := rest |} in
  match answers a with
  | [] => (Diverge, a' [])
  | b :: rest => (Ok b, a' rest)
  end.

Section sdk.
Context `{SigningSdk}.

Definition draw : ST App Error (list Z) :=
  n ← gets drawn;
  modify (set_drawn (S n));;
  mret (random_bytes n).

(** ** Resident keys *)

Definition RESIDENT_SEED_SLOT : nat := 0.

(** [HMAC-SHA512], with blocks of 128 bytes. *)
Definition hmac_sha512 (key data : list Z) : list Z :=
  let key_block := if (128 <? length key)%nat then sha512_digest key ++ zeros 64 else key ++ zeros (128 - length key) in
  let ipad_key := map (fun b => Z.lxor 0x36 b) key_block in
  let opad_key := map (fun b => Z.lxor 0x5c b) key_block in
  sha512_digest (opad_key ++ sha512_digest (ipad_key ++ data)).
Definition master_hd_node_from_seed (seed : list Z) : HDPrivNode :=
  let hmac := hmac_sha512 (lit "Bitcoin seed") seed in
  {| privkey := slice 0 32 hmac; chaincode := slice 32 32 hmac |}.
Definition node_fingerprint (node : HDPrivNode) : Z := pub_fingerprint (privkey node).

(** The loop that draws a seed. *)
Fixpoint draw_seed (fuel : nat) (standard_fpr : Z) : ST App Error (list Z) :=
  match fuel with
  | O => diverge
  | S fuel =>
      candidate ← draw;
      if negb (node_fingerprint (master_hd_node_from_seed candidate) =? standard_fpr) then mret candidate
      else draw_seed fuel standard_fpr
  end.
Definition get_or_init_resident_seed : ST App Error (list Z) :=
  empty ← is_slot_empty RESIDENT_SEED_SLOT;
  if empty : bool then
    random_seed ← draw_seed seed_attempts sdk_master_fingerprint;
    write_slot RESIDENT_SEED_SLOT random_seed;;
    mret random_seed
  else read_slot RESIDENT_SEED_SLOT.
Definition get_resident_master_hd_node : ST App Error HDPrivNode :=
  seed ← get_or_init_resident_seed;
  mret (master_hd_node_from_seed seed).
Fixpoint derive_steps (node : HDPrivNode) (path : list Z) : outcome Error HDPrivNode :=
  match path with
  | [] => Ok node
  | step :: path => node ← ok_or (ckd_priv node step) EKeyDerivationFailed; derive_steps node path
  end.
Definition derive_resident_hd_node (path : list Z) : ST App Error HDPrivNode :=
  node ← get_resident_master_hd_node;
  lift (derive_steps node path).
Definition get_resident_master_fingerprint : ST App Error Z :=
  node ← get_resident_master_hd_node;
  mret (node_fingerprint node).

Definition derive_hd_node (tree : KeyTree) (path : list Z) : ST App Error HDPrivNode :=
  match tree with
  | Standard => lift (ok_or (sdk_derive_hd_node path) EKeyDerivationFailed)
  | Resident => derive_resident_hd_node path
  end.
Definition master_fingerprint (tree : KeyTree) : ST App Error Z :=
  match tree with
  | Standard => mret sdk_master_fingerprint
  | Resident => get_resident_master_fingerprint
  end.

(** ** Sessions *)

Definition MUSIG_SESSION_ID_SLOT : nat := 1.
Definition MUSIG_SESSION_RAND_SLOT : nat := 2.

Record PsbtSession : Type := { session_id : list Z; rand_root : list Z }.
Definition no_session : PsbtSession := {| session_id := zeros 32; rand_root := zeros 32 |}.
Definition is_initialized (s : PsbtSession) : bool := negb (bool_decide (session_id s = zeros 32)).
Record MusigSigningState : Type := { round1 : PsbtSession; round2 : PsbtSession }.
Definition no_state : MusigSigningState := {| round1 := no_session; round2 := no_session |}.

Definition compute_rand_i_j (session : PsbtSession) (input_index placeholder_index : Z) : list Z :=
  session_sha256 (rand_root session ++ be_bytes 4 input_index ++ be_bytes 4 placeholder_index).

Definition read_session_from_storage : ST App Error (option PsbtSession) :=
  empty ← is_slot_empty MUSIG_SESSION_ID_SLOT;
  if empty : bool then mret None
  else
    id ← read_slot MUSIG_SESSION_ID_SLOT;
    rand_root ← read_slot MUSIG_SESSION_RAND_SLOT;
    mret (Some {| session_id := id; rand_root := rand_root |}).
Definition write_session_to_storage (session : PsbtSession) : ST App Error unit :=
  write_slot MUSIG_SESSION_ID_SLOT (session_id session);;
  write_slot MUSIG_SESSION_RAND_SLOT (rand_root session).
Definition clear_session_in_storage : ST App Error unit :=
  write_slot MUSIG_SESSION_ID_SLOT (zeros 32);;
  write_slot MUSIG_SESSION_RAND_SLOT (zeros 32).
Definition session_pop (id : list Z) : ST App Error (option PsbtSession) :=
  session ← read_session_from_storage;
  match session with
  | None => mret None
  | Some session =>
      if negb (bool_decide (session_id session = id)) then mret None
      else
        clear_session_in_storage;;
        mret (Some session)
  end.

(** The volatile state of a signing pass is threaded next to the application. *)
Definition round1_initialize (id : list Z) (state : MusigSigningState) :
    ST App Error (PsbtSession * MusigSigningState) :=
  session_pop id;;
  if negb (bool_decide (session_id (round1 state) = id)) then
    rand ← draw;
    (if negb (length rand =? 32)%nat then fail EStorageError else mret tt);;
    let s := {| session_id := id; rand_root := rand |} in
    mret (s, {| round1 := s; round2 := round2 state |})
  else mret (round1 state, state).
Definition round2_initialize (id : list Z) (state : MusigSigningState) :
    ST App Error (option PsbtSession * MusigSigningState) :=
  if negb (bool_decide (session_id (round2 state) = id)) then
    s ← session_pop id;
    match s with
    | Some s => mret (Some s, {| round1 := round1 state; round2 := s |})
    | None => mret (None, state)
    end
  else mret (Some (round2 state), state).
Definition commit (state : MusigSigningState) : ST App Error unit :=
  if is_initialized (round1 state) then write_session_to_storage (round1 state) else mret tt.
End sdk.

(** ** The two rounds *)

Definition MAX_PUBKEYS_PER_MUSIG : nat := 5.
Inductive SpendPath : Type := Keypath (taptree_hash : option (list Z)) | Tapscript (leaf_hash : list Z).
Definition leaf_hash_of (s : SpendPath) : option (list Z) :=
  match s with Keypath _ => None | Tapscript leaf_hash => Some leaf_hash end.
(** [tweaks] and [is_xonly] have the first [n_tweaks] entries of the source's arrays. *)
Record PerInputInfo : Type := {
  keys : list (list Z);
  agg_key_tweaked : list Z;
  tweaks_of : list (list Z);
  xonly_of : list bool
}.
Record MuSig2Pubnonce : Type := {
  n_input_index : Z; pubnonce : list Z; n_participant_pk : list Z; n_aggregate_pubkey : list Z;
  n_leaf_hash : option (list Z)
}.
Record MuSig2PartialSignature : Type := {
  s_input_index : Z; s_signature : list Z; s_participant_pk : list Z; s_aggregate_pubkey : list Z;
  s_leaf_hash : option (list Z)
}.

(** [tap_tweak_hash] is [TapTweakHash::from_key_and_tweak], [tap_tweak_parity] the parity of the
    tweaked key. *)
Class TaprootCrate := {
  tap_tweak_hash : list Z -> option (list Z) -> list Z;
  tap_tweak_parity : list Z -> option (list Z) -> Z;
}.

Section rounds.
Context `{SigningSdk} `{XpubCrate} `{Curve} `{TaggedHash} `{ScriptCrate} `{TaprootCrate}.

Definition compute_psbt_session_id (wallet_id tx_id : list Z) : list Z := tagged_hash "PsbtSessionId" (wallet_id ++ tx_id).

Definition map_musig_err (err : MusigError) : Error :=
  match err with
  | InvalidPoint | EmptyPubkeyList | InvalidContribution _ | PubkeyNotInList | InvalidPartialSignature => EInvalidKey
  | KeyAggInfinity | TweakOutOfRange | TweakInfinity | NonceGenFailed | NonceOutOfRange | SecretKeyOutOfRange
  | PubkeyMismatch | DerivationFailed => ESigningFailed
  end.

Definition compute_per_input_info (key_information : list KeyInformation) (placeholder : KeyExpression)
    (is_change : bool) (address_index : Z) (spend : SpendPath) : outcome Error PerInputInfo :=
  indices ← match Bip388.key_type placeholder with Musig l => Ok l | PlainKey _ => Err EUnsupportedWalletPolicy end;
  guard_err (bool_decide (indices = []) || (MAX_PUBKEYS_PER_MUSIG <? length indices)%nat) ETooManyKeys;;
  let change_step := child_from (if is_change then num2 placeholder else num1 placeholder) in
  let address_step := child_from address_index in
  participant_xpubs ← participants key_information indices;
  let keys := sort_keys (map xpub_public_key participant_xpubs) in
  agg ← outcome_map_err (fun _ => EInvalidKey) (aggregate_xpub participant_xpubs);
  '(child1, t0) ← outcome_map_err (fun _ => EKeyDerivationFailed) (ckdpub_with_tweak agg change_step);
  '(child2, t1) ← outcome_map_err (fun _ => EKeyDerivationFailed) (ckdpub_with_tweak child1 address_step);
  match spend with
  | Tapscript _ =>
      Ok {| keys := keys; agg_key_tweaked := xpub_public_key child2; tweaks_of := [t0; t1]; xonly_of := [false; false] |}
  | Keypath merkle_root =>
      let xonly_internal := xpub_x_only child2 in
      let t2 := tap_tweak_hash xonly_internal merkle_root in
      let out := (2 + tap_tweak_parity xonly_internal merkle_root) :: tap_tweak xonly_internal merkle_root in
      Ok {| keys := keys; agg_key_tweaked := out; tweaks_of := [t0; t1; t2]; xonly_of := [false; false; true] |}
  end.

Definition produce_pubnonce (info : PerInputInfo) (internal_pk : list Z) (session : PsbtSession)
    (input_index placeholder_index : Z) (spend : SpendPath) : outcome Error MuSig2Pubnonce :=
  let rand_i_j := compute_rand_i_j session input_index placeholder_index in
  let aggpk_xonly := drop 1 (agg_key_tweaked info) in
  '(_, pubnonce) ← outcome_map_err map_musig_err (nonce_gen rand_i_j internal_pk aggpk_xonly);
  Ok {| n_input_index := input_index; pubnonce := pubnonce; n_participant_pk := internal_pk;
        n_aggregate_pubkey := agg_key_tweaked info; n_leaf_hash := leaf_hash_of spend |}.

Fixpoint collect_pubnonces (psbt_input : Input) (agg_pk : list Z) (leaf : option (list Z)) (keys : list (list Z)) :
    outcome Error (list (list Z)) :=
  match keys with
  | [] => Ok []
  | participant_pk :: keys =>
      raw ← outcome_map_err (fun _ => EFailedToDeserializePsbt) (get_musig2_pub_nonce psbt_input participant_pk agg_pk leaf);
      raw ← ok_or raw EMissingMusigPubnonce;
      rest ← collect_pubnonces psbt_input agg_pk leaf keys;
      Ok (raw :: rest)
  end.
Definition sign_sighash_musig (info : PerInputInfo) (internal_pk sk sighash : list Z) (session : PsbtSession)
    (input_index placeholder_index : Z) (psbt_input : Input) (spend : SpendPath) : outcome Error MuSig2PartialSignature :=
  let agg_pk := agg_key_tweaked info in
  let leaf := leaf_hash_of spend in
  my ← outcome_map_err (fun _ => EFailedToDeserializePsbt) (get_musig2_pub_nonce psbt_input internal_pk agg_pk leaf);
  ok_or my EMissingMusigPubnonce;;
  pubnonces ← collect_pubnonces psbt_input agg_pk leaf (keys info);
  aggnonce ← outcome_map_err map_musig_err (nonce_agg pubnonces);
  let rand_i_j := compute_rand_i_j session input_index placeholder_index in
  let aggpk_xonly := drop 1 agg_pk in
  '(secnonce, _) ← outcome_map_err map_musig_err (nonce_gen rand_i_j internal_pk aggpk_xonly);
  let ctx := {| aggnonce := aggnonce; pubkeys := keys info; tweaks := tweaks_of info; is_xonly := xonly_of info;
                msg := sighash |} in
  psig ← outcome_map_err map_musig_err (sign secnonce sk ctx);
  Ok {| s_input_index := input_index; s_signature := psig; s_participant_pk := internal_pk;
        s_aggregate_pubkey := agg_pk; s_leaf_hash := leaf |}.
End rounds.
