(* ===== verification/Executor.v ===== *)
(** * The executor of V-Apps ([app-sdk/src/executor.rs], the tasks of [app.rs])

    V-Apps have one thread: background tasks are futures that the executor polls whenever the
    root future is pending. A future is what is left of it, a function from the state that all
    futures share; the futures here end after finitely many polls. A poll that itself runs rounds of
    the executor (a handle taken or dropped inside of a task) is not among them. *)

From S2P Require Import Prelude.

(** ** Futures

    A poll of a future changes what is shared, may spawn tasks, and gives a value or what is left
    of the future. A poll that panics aborts the V-App. *)
Inductive Task (W : Type) : Type :=
| mkTask (poll : W -> outcome Empty_set (list (Task W) * option (Task W)) * W).
Arguments mkTask {W} poll.
Inductive Future (W A : Type) : Type :=
| mkFuture (poll : W -> outcome Empty_set (list (Task W) * (A + Future W A)) * W).
Arguments mkFuture {W A} poll.

Definition poll_task {W} (t : Task W) : ST W Empty_set (list (Task W) * option (Task W)) :=
  match t with mkTask p => p end.
Definition poll {W A} (f : Future W A) : ST W Empty_set (list (Task W) * (A + Future W A)) :=
  match f with mkFuture p => p end.

(** What [async] blocks are made of; [.await] polls on in the same poll. *)
Definition ready {W A} (x : A) : Future W A := mkFuture (fun w => (Ok ([], inl x), w)).
Definition act {W A} (m : ST W Empty_set A) : Future W A := mkFuture (st_bind (fun x => st_ret ([], inl x)) m).
Fixpoint await {W A B} (f : Future W A) (k : A -> Future W B) : Future W B :=
  match f with
  | mkFuture p => mkFuture (fun w =>
      match p w with
      | (Ok (spawned, inl x), w) => st_bind (fun '(more, r) => st_ret (spawned ++ more, r)) (poll (k x)) w
      | (Ok (spawned, inr f), w) => (Ok (spawned, inr (await f k)), w)
      | (Err e, w) => (Err e, w)
      | (Panic, w) => (Panic, w)
      | (Diverge, w) => (Diverge, w)
      end)
  end.
(** [pending_once]: pending at the first poll. *)
Definition yield_now {W} : Future W unit := mkFuture (fun w => (Ok ([], inr (ready tt)), w)).
(** A boxed future without a value. *)
Fixpoint boxed {W} (f : Future W unit) : Task W :=
  match f with
  | mkFuture p => mkTask (fun w =>
      match p w with
      | (Ok (spawned, inl _), w) => (Ok (spawned, None), w)
      | (Ok (spawned, inr f), w) => (Ok (spawned, Some (boxed f)), w)
      | (Err e, w) => (Err e, w)
      | (Panic, w) => (Panic, w)
      | (Diverge, w) => (Diverge, w)
      end)
  end.

(** ** The executor *)

(** [GLOBAL_EXECUTOR], with what the tasks share. *)
Record Executor (W : Type) : Type := mkExecutor { world : W; tasks : list (Task W) }.
Arguments mkExecutor {W} world tasks.
Arguments world {W} e.
Arguments tasks {W} e.

Section executor.
Context {W : Type}.
Implicit Types (t : Task W) (ts : list (Task W)).

Definition set_world (w : W) (g : Executor W) : Executor W := mkExecutor w (tasks g).
Definition set_tasks ts (g : Executor W) : Executor W := mkExecutor (world g) ts.
Definition on_world {A} (m : ST W Empty_set A) : ST (Executor W) Empty_set A := zoom world set_world m.
Definition spawn t : ST (Executor W) Empty_set unit := modify (fun g => set_tasks (tasks g ++ [t]) g).
Definition push_all ts : ST (Executor W) Empty_set unit := modify (fun g => set_tasks (tasks g ++ ts) g).

(** [Vec::swap_remove]: the last element takes the place of the one that is removed. *)
Definition swap_remove (i : nat) ts : list (Task W) :=
  match last ts with
  | Some x => take (length ts - 1) (<[i := x]> ts)
  | None => ts
  end.
(** The loop ends after as many turns as there are tasks. *)
Fixpoint poll_tasks (fuel i : nat) ts : ST (Executor W) Empty_set (list (Task W)) :=
  match fuel with
  | O => mret ts
  | S fuel =>
      match ts !! i with
      | None => mret ts
      | Some t =>
          '(spawned, rest) ← on_world (poll_task t);
          push_all spawned;;
          match rest with
          | None => poll_tasks fuel i (swap_remove i ts)
          | Some t => poll_tasks fuel (S i) (<[i := t]> ts)
          end
      end
  end.
Definition is_empty (g : Executor W) : bool := bool_decide (length (tasks g) = 0%nat).

Definition poll_once : ST (Executor W) Empty_set unit :=
  ts ← gets tasks;
  modify (set_tasks []);;
  ts ← poll_tasks (length ts) 0 ts;
  exec ← get;
  if is_empty exec then modify (set_tasks ts) else push_all ts.

Fixpoint block_on {A} (f : Future W A) : ST (Executor W) Empty_set A :=
  match f with
  | mkFuture p => fun g =>
      match p (world g) with
      | (Ok (spawned, r), w) =>
          let g := mkExecutor w (tasks g ++ spawned) in
          match r with
          | inl val => (Ok val, g)
          | inr f => (poll_once;; block_on f) g
          end
      | (Err e, w) => (Err e, set_world w g)
      | (Panic, w) => (Panic, set_world w g)
      | (Diverge, w) => (Diverge, set_world w g)
      end
  end.
End executor.

(** ** Tasks with a result

    The cells that a task and its handle share: [held] tells that the future still has its clone of
    the counted reference. A handle is the index of its cell. *)
Record Cell (T : Type) : Type := mkCell { result : option T; cancelled : bool; held : bool }.
Arguments mkCell {T} result cancelled held.
Arguments result {T} c.
Arguments cancelled {T} c.
Arguments held {T} c.

Section handles.
Context {T : Type}.
Abbreviation W := (list (Cell T)).

Definition cell_of (id : nat) (w : W) : Cell T := default (mkCell None true false) (w !! id).
Definition set_result (id : nat) (v : option T) : ST W Empty_set unit :=
  modify (fun w => <[id := mkCell v (cancelled (cell_of id w)) (held (cell_of id w))]> w).
Definition set_cancelled (id : nat) : ST W Empty_set unit :=
  modify (fun w => <[id := mkCell (result (cell_of id w)) true (held (cell_of id w))]> w).
Definition release (id : nat) : ST W Empty_set unit :=
  modify (fun w => <[id := mkCell (result (cell_of id w)) (cancelled (cell_of id w)) false]> w).

(** [CancellableFuture::poll]. *)
Fixpoint cancellable (id : nat) (inner : Future W T) : Future W (option T) :=
  match inner with
  | mkFuture p => mkFuture (fun w =>
      if cancelled (cell_of id w) then (Ok ([], inl None), w)
      else
        match p w with
        | (Ok (spawned, inl val), w) => (Ok (spawned, inl (Some val)), w)
        | (Ok (spawned, inr inner), w) => (Ok (spawned, inr (cancellable id inner)), w)
        | (Err e, w) => (Err e, w)
        | (Panic, w) => (Panic, w)
        | (Diverge, w) => (Diverge, w)
        end)
  end.
(** The task that is spawned; at its end the future is dropped. *)
Definition task_future (id : nat) (work : Future W T) : Future W unit :=
  await (cancellable id work) (fun val =>
    act (match val with Some val => set_result id (Some val) | None => mret tt end;; release id)).
Definition spawn_task (work : Future W T) : ST (Executor W) Empty_set nat :=
  id ← on_world (gets length);
  on_world (modify (fun w => w ++ [mkCell None false true]));;
  spawn (boxed (task_future id work));;
  mret id.
Definition is_ready (id : nat) (g : Executor W) : bool := bool_decide (is_Some (result (cell_of id (world g)))).

Fixpoint take_handle (fuel : nat) (id : nat) : ST (Executor W) Empty_set T :=
  match fuel with
  | O => diverge
  | S fuel =>
      val ← gets (fun g => result (cell_of id (world g)));
      match val with
      | Some val => on_world (set_result id None);; mret val
      | None => poll_once;; take_handle fuel id
      end
  end.
(** The loop of [drop]. *)
Fixpoint until_released (fuel : nat) (id : nat) : ST (Executor W) Empty_set unit :=
  match fuel with
  | O => diverge
  | S fuel =>
      strong_count ← gets (fun g => held (cell_of id (world g)));
      if strong_count : bool then poll_once;; until_released fuel id else mret tt
  end.
Definition drop_handle (fuel : nat) (id : nat) : ST (Executor W) Empty_set unit :=
  on_world (set_cancelled id);;
  until_released fuel id.

(** [spin] shows the spinner. *)
Definition await_task (fuel : nat) (spin : ST (Executor W) Empty_set unit) (id : nat) : ST (Executor W) Empty_set T :=
  r ← gets (is_ready id);
  (if negb r then spin else mret tt);;
  take_handle fuel id.
Fixpoint until_ready (fuel : nat) (ids : list nat) : ST (Executor W) Empty_set unit :=
  match fuel with
  | O => diverge
  | S fuel =>
      r ← gets (fun g => forallb (fun id => is_ready id g) ids);
      if negb r then poll_once;; until_ready fuel ids else mret tt
  end.
Definition await_all (fuel : nat) (spin : ST (Executor W) Empty_set unit) (ids : list nat) : ST (Executor W) Empty_set unit :=
  r ← gets (fun g => forallb (fun id => is_ready id g) ids);
  if r : bool then mret tt else spin;; until_ready fuel ids.
End handles.
