(* ===== verification/ExecutorSpec.v ===== *)
(** * The executor: rounds, results and cancellation

    A round of the executor polls every task once; a task that its handle waits for returns, and
    one whose handle is dropped is gone after a round. *)

From S2P Require Import Prelude Executor.

Section rounds.
Context {W : Type}.
Implicit Types (t : Task W) (ts : list (Task W)).

(** A poll of each of the tasks in turn: what they spawn, and what is left of them. *)
Inductive round : list (Task W) -> W -> list (Task W) -> list (Task W) -> W -> Prop :=
| round_nil w : round [] w [] [] w
| round_cons t ts w spawned r w1 more rests w2 :
    poll_task t w = (Ok (spawned, r), w1) -> round ts w1 more rests w2 ->
    round (t :: ts) w (spawned ++ more) (option_list r ++ rests) w2.

Lemma insert_middle ts t us x : <[length ts := x]> (ts ++ t :: us) = ts ++ x :: us.
Proof. by rewrite insert_app_r_alt, Nat.sub_diag by lia. Qed.
Lemma swap_remove_last ts t : swap_remove (length ts) (ts ++ [t]) = ts.
Proof.
  unfold swap_remove. rewrite last_snoc, length_app, Nat.add_sub.
  by rewrite insert_middle, take_app_length.
Qed.
Lemma swap_remove_middle ts t us x : swap_remove (length ts) (ts ++ t :: us ++ [x]) = ts ++ x :: us.
Proof.
  unfold swap_remove. rewrite (app_comm_cons us [x] t), app_assoc, last_snoc.
  rewrite insert_app_l by (rewrite length_app; cbn; lia). rewrite insert_middle.
  rewrite take_app_length' by (rewrite !length_app; cbn; lia). done.
Qed.

Lemma poll_tasks_spec fuel : forall ts us g o g', (length us <= fuel)%nat ->
  poll_tasks fuel (length ts) (ts ++ us) g = (Ok o, g') ->
  exists order spawned rests, order ≡ₚ us /\ round order (world g) spawned rests (world g') /\
    o ≡ₚ ts ++ rests /\ tasks g' = tasks g ++ spawned.
Proof.
  induction fuel as [|fuel IH]; intros ts us g o g' Hf E.
  - destruct us; [|by cbn in Hf; lia]. injection E as <- <-. exists [], [], []. rewrite !app_nil_r.
    split_and!; [done|constructor|done|done].
  - cbn [poll_tasks] in E. destruct us as [|t us].
    { rewrite app_nil_r, lookup_ge_None_2 in E by done. injection E as <- <-. exists [], [], []. rewrite !app_nil_r.
      split_and!; [done|constructor|done|done]. }
    rewrite list_lookup_middle in E by done. unfold on_world, zoom, mbind, st_mbind, st_bind in E.
    destruct (poll_task t (world g)) as [[[spawned r]|e| |] w1] eqn:Ep; try done.
    cbn [push_all modify set_tasks set_world world tasks] in E. cbn in Hf. destruct r as [t'|].
    + rewrite insert_middle, cons_middle, app_assoc in E.
      replace (S (length ts)) with (length (ts ++ [t'])) in E by (rewrite length_app; cbn; lia).
      apply IH in E as (order & more & rests & Ho & Hr & Hp & Hg); [|lia]. exists (t :: order), (spawned ++ more), (t' :: rests).
      split_and!; [by rewrite Ho|by eapply (round_cons _ _ _ _ (Some t'))|by rewrite Hp, <- app_assoc|].
      rewrite Hg. cbn. by rewrite app_assoc.
    + destruct us as [|x us _] using rev_ind.
      * rewrite swap_remove_last in E. rewrite <- (app_nil_r ts) in E at 2.
        apply IH in E as (order & more & rests & Ho & Hr & Hp & Hg); [|cbn; lia].
        exists (t :: order), (spawned ++ more), rests.
        split_and!; [by rewrite Ho|by eapply (round_cons _ _ _ _ None)|done|]. rewrite Hg. cbn. by rewrite app_assoc.
      * rewrite swap_remove_middle in E. rewrite length_app in Hf; cbn in Hf.
        apply IH in E as (order & more & rests & Ho & Hr & Hp & Hg); [|cbn; lia].
        exists (t :: order), (spawned ++ more), rests. split_and!; [|by eapply (round_cons _ _ _ _ None)|done|].
        { rewrite Ho. constructor. by rewrite Permutation_app_comm. }
        rewrite Hg. cbn. by rewrite app_assoc.
Qed.

Lemma poll_once_round (g g' : Executor W) : poll_once g = (Ok tt, g') ->
  exists order spawned rests, order ≡ₚ tasks g /\ round order (world g) spawned rests (world g') /\
    tasks g' ≡ₚ spawned ++ rests.
Proof.
  unfold poll_once, gets, get, modify, mbind, st_mbind, st_bind. cbn [fst snd]. intros E.
  destruct (poll_tasks (length (tasks g)) 0 (tasks g) (set_tasks [] g)) as [[ts|e| |] g1] eqn:Ep; try done.
  apply (poll_tasks_spec _ []) in Ep as (order & spawned & rests & Ho & Hr & Hp & Hg); [|done]. cbn in Hr, Hp, Hg.
  exists order, spawned, rests. unfold is_empty in E. case_bool_decide as Hl.
  - injection E as <-. cbn. rewrite Hg in Hl. destruct spawned; [|done]. done.
  - injection E as <-. cbn. by rewrite Hg, Hp.
Qed.
(** C11. A round of the executor polls every task exactly once, one after the other, in some order;
    those that are pending stay, with those that were spawned, which wait for the next round. *)
Theorem poll_once_fair (g g' : Executor W) : poll_once g = (Ok tt, g') ->
  exists order spawned rests, order ≡ₚ tasks g /\ round order (world g) spawned rests (world g') /\
    tasks g' ≡ₚ spawned ++ rests.
Proof. apply poll_once_round. Qed.
Lemma round_app ts us w spawned rests w' : round (ts ++ us) w spawned rests w' ->
  exists sp1 sp2 re1 re2 w1, round ts w sp1 re1 w1 /\ round us w1 sp2 re2 w' /\ spawned = sp1 ++ sp2 /\ rests = re1 ++ re2.
Proof.
  revert w spawned rests; induction ts as [|t ts IH]; cbn [app]; intros w spawned rests H.
  { exists [], spawned, [], rests, w. split_and!; [constructor|done..]. }
  inversion H as [|t' ts' w0 sp r w1 more re w2 Hp Hr]; subst. apply IH in Hr as (sp1 & sp2 & re1 & re2 & w3 & ? & ? & -> & ->).
  eexists _, sp2, _, re2, w3. split_and!; [by econstructor|done|by rewrite app_assoc|by rewrite app_assoc].
Qed.

End rounds.

(** ** Induction on what is left *)

Section futures.
Context {W : Type}.

Lemma future_ind {A} (P : Future W A -> Prop) :
  (forall p, (forall w spawned f w', p w = (Ok (spawned, inr f), w') -> P f) -> P (mkFuture p)) -> forall f, P f.
Proof.
  intros HP. fix IH 1. intros [p]. apply HP. intros w spawned f w' E.
  destruct (p w) as [[[l [x|f0]]|e| |] w0]; try discriminate. injection E as _ <- _. exact (IH f0).
Qed.

(** The root future may be written with [await]: each of its parts runs to its end under
    [block_on]; and where it yields, a round of the tasks runs. *)
Lemma block_on_await {A B} (f : Future W A) (k : A -> Future W B) g y g' :
  block_on (await f k) g = (Ok y, g') <->
  exists x g1, block_on f g = (Ok x, g1) /\ block_on (k x) g1 = (Ok y, g').
Proof.
  revert g. induction f as [p IH] using future_ind. intros g. cbn [await block_on poll].
  destruct (p (world g)) as [[[l [x|f]]|[]| |] w] eqn:E.
  - trans (block_on (k x) (mkExecutor w (tasks g ++ l)) = (Ok y, g')).
    + unfold st_bind, st_ret. destruct (k x) as [q]. cbn. destruct (q w) as [[[l' r]|[]| |] w1]; cbn; try done.
      by rewrite app_assoc.
    + split; [by eauto|]. by intros (x' & g1 & [= <- <-] & E2).
  - unfold mbind, st_mbind, st_bind. destruct (poll_once _) as [[[]|[]| |] g1]; [|by split; [|intros (?&?&?&?)]..].
    by rewrite (IH _ _ _ _ E).
  - by split; [|intros (?&?&?&?)].
  - by split; [|intros (?&?&?&?)].
Qed.
Lemma block_on_yield (g : Executor W) : block_on yield_now g = poll_once g.
Proof.
  cbn. rewrite app_nil_r. destruct g as [w ts]. unfold mbind, st_mbind, st_bind. cbn.
  destruct (poll_once _) as [[[]|[]| |] [w' ts']]; try done. cbn. by rewrite app_nil_r.
Qed.
Lemma block_on_act {A} (m : ST W Empty_set A) (g : Executor W) : block_on (act m) g = on_world m g.
Proof.
  unfold on_world, zoom. cbn. unfold st_bind, st_ret. destruct g as [w ts]. cbn.
  destruct (m w) as [[x|[]| |] w']; cbn; try done. by rewrite app_nil_r.
Qed.
End futures.

(** ** Tasks that keep what others rely on

    [keep] is what a poll may do to the shared state; with [total] polls do not panic either. *)
Section keeping.
Context {W : Type} (total : bool) (keep : W -> W -> Prop) `{!PreOrder keep}.

Inductive good : Task W -> Prop :=
| good_intro p :
    (forall w spawned r w', p w = (Ok (spawned, r), w') -> keep w w' /\ Forall good spawned /\ forall t, r = Some t -> good t) ->
    (total = true -> forall w, exists x, fst (p w) = Ok x) -> good (mkTask p).
Lemma good_poll t w spawned r w' : good t -> poll_task t w = (Ok (spawned, r), w') ->
  keep w w' /\ Forall good spawned /\ Forall good (option_list r).
Proof.
  intros [p Hp _] E. destruct (Hp _ _ _ _ E) as (Hk & Hs & Hr). split_and!; try done.
  destruct r as [t'|]; [|constructor]. constructor; [by apply Hr|constructor].
Qed.
Lemma round_good ts w spawned rests w' : round ts w spawned rests w' -> Forall good ts ->
  keep w w' /\ Forall good spawned /\ Forall good rests.
Proof.
  induction 1 as [w|t ts w spawned r w1 more rests w2 Hp Hr IH]; intros Hg; [by split_and!|].
  apply Forall_cons in Hg as [Ht Hts]. destruct (good_poll _ _ _ _ _ Ht Hp) as (K1 & S1 & R1).
  destruct (IH Hts) as (K2 & S2 & R2). split_and!; [by etrans|by apply Forall_app|by apply Forall_app].
Qed.
End keeping.

(** Rounds of tasks whose polls do not panic. *)
Section safe.
Context {W : Type} (P : Task W -> Prop).
Hypothesis P_poll : forall t w, P t -> exists spawned r w', poll_task t w = (Ok (spawned, r), w') /\ Forall P (option_list r).
Lemma poll_tasks_total fuel i ts g : Forall P ts -> exists ts' g', poll_tasks fuel i ts g = (Ok ts', g').
Proof.
  revert i ts g; induction fuel as [|fuel IH]; intros i ts g Hg; cbn [poll_tasks]; [by eexists _, _|].
  destruct (ts !! i) as [t|] eqn:Ei; [|by eexists _, _].
  destruct (P_poll t (world g) (Forall_lookup_1 _ _ _ _ Hg Ei)) as (spawned & r & w1 & Ep & Hr).
  unfold on_world, zoom, mbind, st_mbind, st_bind. rewrite Ep. cbn. destruct r as [t'|]; apply IH.
  - apply Forall_insert; [done|]. by inversion Hr.
  - unfold swap_remove. destruct (last ts) as [x|] eqn:El; [|done]. apply Forall_take, Forall_insert; [done|].
    rewrite last_lookup in El. eapply Forall_lookup_1; [exact Hg|exact El].
Qed.
Lemma poll_once_total g : Forall P (tasks g) -> exists g', poll_once g = (Ok tt, g').
Proof.
  intros Hg. unfold poll_once, gets, get, modify, mbind, st_mbind, st_bind. cbn.
  destruct (poll_tasks_total (length (tasks g)) 0 (tasks g) (set_tasks [] g) Hg) as (ts & g1 & ->).
  destruct (is_empty g1); by eexists.
Qed.
End safe.

(** ** Tasks with a handle *)

Section handles.
Context {T : Type} (total : bool) (id : nat).
Abbreviation W := (list (Cell T)).
(** The cell belongs to the task and its handle. *)
Definition keep_cell (w w' : W) : Prop := w' !! id = w !! id.
#[local] Instance keep_cell_preorder : PreOrder keep_cell.
Proof. split; [by intros w|]. unfold keep_cell. intros w1 w2 w3 E1 E2. congruence. Qed.
Abbreviation good := (good total keep_cell).

(** Work that leaves the cell to its task. *)
Inductive workable : Future W T -> Prop :=
| workable_intro p :
    (forall w spawned r w', p w = (Ok (spawned, r), w') ->
      keep_cell w w' /\ Forall good spawned /\ forall f, r = inr f -> workable f) ->
    (total = true -> forall w, exists x, fst (p w) = Ok x) -> workable (mkFuture p).
(** What the work may return, whatever the others do meanwhile. *)
Inductive returns : Future W T -> T -> Prop :=
| returns_now p w spawned v w' : p w = (Ok (spawned, inl v), w') -> returns (mkFuture p) v
| returns_later p w spawned f w' v : p w = (Ok (spawned, inr f), w') -> returns f v -> returns (mkFuture p) v.

Abbreviation task f := (boxed (task_future (T:=T) id f)).
Lemma poll_task_future p w : poll_task (task (mkFuture p)) w =
  if cancelled (cell_of id w) then (Ok ([], None), snd (release id w))
  else match p w with
       | (Ok (spawned, inl v), w) => (Ok (spawned, None), snd ((set_result id (Some v);; release id) w))
       | (Ok (spawned, inr f), w) => (Ok (spawned, Some (task f)), w)
       | (Err e, w) => (Err e, w)
       | (Panic, w) => (Panic, w)
       | (Diverge, w) => (Diverge, w)
       end.
Proof.
  unfold task_future. destruct (cancelled (cell_of id w)) eqn:Ec; cbn; rewrite Ec; cbn; [cbv [st_bind st_ret mret st_mret mbind st_mbind release modify]; by rewrite Ec|].
  destruct (p w) as [[[l [v|f]]|[]| |] w1]; try done.
  cbv [st_bind st_ret mret st_mret mbind st_mbind release set_result modify]. by rewrite app_nil_r.
Qed.

(** The round of a task among others: the others keep the cell, before and after. *)
Lemma round_task t others g g' : tasks g ≡ₚ t :: others -> Forall good others -> poll_once g = (Ok tt, g') ->
  exists w w' spawned r others', keep_cell (world g) w /\ poll_task t w = (Ok (spawned, r), w') /\ keep_cell w' (world g') /\
    tasks g' ≡ₚ spawned ++ option_list r ++ others' /\ Forall good others'.
Proof.
  intros Hp Hg (order & spawned & rests & Ho & Hr & Ht)%poll_once_round. rewrite Hp in Ho.
  assert (t ∈ order) as (l1 & l2 & ->)%list_elem_of_split by (rewrite Ho; left).
  assert (l1 ++ l2 ≡ₚ others) as Hl.
  { apply (Permutation_cons_inv (a := t)). by rewrite Permutation_middle. }
  rewrite <- Hl in Hg. apply Forall_app in Hg as [Hg1 Hg2].
  apply round_app in Hr as (sp1 & sp2 & re1 & re2 & w & Hr1 & Hr2 & -> & ->).
  inversion Hr2 as [|t' ts' w0 sp r w' more re w2 Ep Hr2']; subst.
  destruct (round_good total keep_cell _ _ _ _ _ Hr1 Hg1) as (K1 & S1 & R1).
  destruct (round_good total keep_cell _ _ _ _ _ Hr2' Hg2) as (K2 & S2 & R2).
  exists w, w', sp, r, (sp1 ++ more ++ re1 ++ re). split_and!; try done.
  - rewrite Ht. solve_Permutation.
  - by rewrite !Forall_app.
Qed.
(** A state of the task: it is pending with [f] left, or has its result. *)
Record pending (f : Future W T) (g : Executor W) : Prop := {
  pe_tasks : exists others, tasks g ≡ₚ task f :: others /\ Forall good others;
  pe_work : workable f;
  pe_cell : world g !! id = Some (mkCell None false true);
}.
Record finished (v : T) (g : Executor W) : Prop := {
  fi_tasks : Forall good (tasks g);
  fi_cell : world g !! id = Some (mkCell (Some v) false false);
}.
Lemma cell_some (w : W) c : w !! id = Some c -> cell_of id w = c.
Proof. unfold cell_of. by intros ->. Qed.
Lemma insert_cell (w : W) c c' : w !! id = Some c -> <[id := c']> w !! id = Some c'.
Proof. intros Hc. apply list_lookup_insert_eq. by eapply lookup_lt_Some. Qed.

Lemma pending_round f g g' : pending f g -> poll_once g = (Ok tt, g') ->
  (exists w spawned f' w', poll f w = (Ok (spawned, inr f'), w') /\ pending f' g') \/
  (exists v, returns f v /\ finished v g').
Proof.
  intros [(others & Hp & Hg) Hw Hc] E.
  destruct (round_task _ _ _ _ Hp Hg E) as (w & w' & spawned & r & others' & K1 & Ep & K2 & Ht & Hg').
  destruct Hw as [p Hw _]. rewrite poll_task_future in Ep. unfold keep_cell in K1. rewrite Hc in K1.
  rewrite (cell_some _ _ K1) in Ep. cbn [cancelled] in Ep.
  destruct (p w) as [[[l [v|f']]|[]| |] w1] eqn:E1; try done; destruct (Hw _ _ _ _ E1) as (K & Hs & Hf); injection Ep as <- <- <-.
  - right. exists v. split; [by eapply returns_now|]. split; [rewrite Ht; by apply Forall_app|].
    unfold keep_cell in K, K2. rewrite K2. rewrite K1 in K. cbn.
    rewrite (cell_some _ _ (insert_cell _ _ _ K)). cbn. erewrite insert_cell; [|by eapply insert_cell].
    by rewrite (cell_some _ _ K).
  - left. exists w, l, f', w1. split; [exact E1|]. split; [|by apply Hf|unfold keep_cell in K, K2; congruence].
    exists (l ++ others'). split; [rewrite Ht; cbn; by rewrite Permutation_middle|by apply Forall_app].
Qed.
Lemma finished_round v g g' : finished v g -> poll_once g = (Ok tt, g') -> finished v g'.
Proof.
  intros [Hg Hc] (order & spawned & rests & Ho & Hr & Ht)%poll_once_round. rewrite <- Ho in Hg.
  destruct (round_good total keep_cell _ _ _ _ _ Hr Hg) as (K & S & R). split; [|by unfold keep_cell in K; rewrite K].
  rewrite Ht. by apply Forall_app.
Qed.

(** The task of [work], at any time. *)
Definition running (work : Future W T) (g : Executor W) : Prop :=
  (exists f, pending f g /\ forall v, returns f v -> returns work v) \/ exists v, finished v g /\ returns work v.
Lemma running_round work g g' : running work g -> poll_once g = (Ok tt, g') -> running work g'.
Proof.
  intros [(f & Hf & Hr)|(v & Hv & Hr)] E.
  - destruct (pending_round _ _ _ Hf E) as [(w & l & f' & w' & E1 & Hf')|(v & Hv & Hfin)]; [left|right].
    + exists f'. split; [done|]. intros v Hv. apply Hr. destruct f as [p]. by eapply returns_later.
    + exists v. auto.
  - right. exists v. split; [by eapply finished_round|done].
Qed.

Definition rounds (k : nat) : ST (Executor W) Empty_set unit := Nat.iter k (fun m => poll_once;; m) (mret tt).
Lemma rounds_Ok k g g' (I : Executor W -> Prop) : (forall g g', I g -> poll_once g = (Ok tt, g') -> I g') -> I g ->
  rounds k g = (Ok tt, g') -> I g'.
Proof.
  intros HI. revert g; induction k as [|k IH]; intros g Hg; [by intros [= <-]|]. cbn.
  unfold mbind, st_mbind, st_bind. destruct (poll_once g) as [[[]|[]| |] g1] eqn:E; try done. apply IH. by eapply HI.
Qed.

Lemma take_finished v g fuel : finished v g -> exists g', take_handle (S fuel) id g = (Ok v, g') /\
  tasks g' = tasks g /\ world g' = <[id := mkCell None false false]> (world g).
Proof.
  intros [_ Hc]. cbn [take_handle]. unfold gets, mbind, st_mbind, st_bind. rewrite (cell_some _ _ Hc). cbn.
  rewrite (cell_some _ _ Hc). by eexists.
Qed.
(** What [take] gives is a value that the work returns. *)
Lemma take_Ok fuel work g v g' : running work g -> take_handle fuel id g = (Ok v, g') ->
  returns work v /\ Forall good (tasks g') /\ world g' !! id = Some (mkCell None false false).
Proof.
  revert g; induction fuel as [|fuel IH]; intros g Hr E; [done|]. destruct Hr as [(f & Hf & Hr)|(u & Hu & Hr)].
  - assert (running work g) as Hrun by (left; eauto). cbn [take_handle] in E. unfold gets, mbind, st_mbind, st_bind in E.
    rewrite (cell_some _ _ (pe_cell _ _ Hf)) in E. cbn [result] in E.
    destruct (poll_once g) as [[[]|[]| |] g1] eqn:E1; try done. by eapply IH; [eapply running_round|].
  - destruct (take_finished u g fuel Hu) as (g1 & E1 & Ht & Hw). rewrite E in E1. injection E1 as -> ->.
    split; [done|]. split; [rewrite Ht; apply Hu|]. rewrite Hw. eapply insert_cell, Hu.
Qed.

(** A handle that is dropped. *)
Lemma cancelled_round f others g g' : tasks g ≡ₚ task f :: others -> Forall good others ->
  world g !! id = Some (mkCell None true true) -> poll_once g = (Ok tt, g') ->
  Forall good (tasks g') /\ world g' !! id = Some (mkCell None true false).
Proof.
  intros Hp Hg Hc E. destruct (round_task _ _ _ _ Hp Hg E) as (w & w' & spawned & r & others' & K1 & Ep & K2 & Ht & Hg').
  destruct f as [p]. rewrite poll_task_future in Ep. unfold keep_cell in K1, K2. rewrite Hc in K1.
  rewrite (cell_some _ _ K1) in Ep. injection Ep as <- <- <-. split; [by rewrite Ht|]. rewrite K2. cbn.
  rewrite (cell_some _ _ K1). by eapply insert_cell.
Qed.
Lemma drop_Ok fuel work g g' : running work g -> drop_handle fuel id g = (Ok tt, g') ->
  Forall good (tasks g') /\ exists r, world g' !! id = Some (mkCell r true false).
Proof.
  intros Hr E. unfold drop_handle, on_world, zoom, set_cancelled, modify, mbind, st_mbind, st_bind in E.
  destruct fuel as [|fuel]; [done|]. cbn [until_released] in E. unfold gets, mbind, st_mbind, st_bind in E. cbn in E.
  destruct Hr as [(f & [(others & Hp & Hg) Hw Hc] & _)|(v & [Hg Hc] & _)]; rewrite (cell_some _ _ Hc) in E; cbn in E;
    rewrite (cell_some _ _ (insert_cell _ _ _ Hc)) in E; cbn in E.
  - destruct (poll_once _) as [[[]|[]| |] g1] eqn:E1; try done.
    eapply cancelled_round in E1 as [Hg1 Hc1]; [|exact Hp|exact Hg|by eapply insert_cell].
    destruct fuel as [|fuel]; [done|]. cbn [until_released] in E. unfold gets, mbind, st_mbind, st_bind in E.
    rewrite (cell_some _ _ Hc1) in E. injection E as <-. split; [done|by eexists].
  - injection E as <-. split; [done|]. eexists. by eapply insert_cell.
Qed.

(** ** Results are reached *)

Hypothesis Htotal : total = true.
Lemma running_total f others g : tasks g ≡ₚ task f :: others -> Forall good others -> workable f ->
  exists g', poll_once g = (Ok tt, g').
Proof.
  intros Hp Hg Hw. apply (poll_once_total (fun t => good t \/ exists f, workable f /\ t = task f)).
  - intros t w [Hgt|(f1 & [p Hf Ht] & ->)].
    + destruct Hgt as [p Hf Ht]. destruct (Ht Htotal w) as [[spawned r] Hx]. cbn. destruct (p w) as [o w'] eqn:E. cbn in Hx; subst o.
      eexists spawned, r, w'. split; [done|]. destruct r as [t'|]; constructor; [|constructor]. left. by eapply Hf.
    + rewrite poll_task_future. destruct (cancelled _); [by eexists _, None, _|]. destruct (Ht Htotal w) as [[spawned r] Hx].
      destruct (p w) as [o w'] eqn:E. cbn in Hx; subst o. destruct (Hf _ _ _ _ E) as (_ & _ & Hr).
      destruct r as [v|f']; [by eexists _, None, _|]. eexists _, (Some _), _. split; [done|]. constructor; [|constructor]. right.
      exists f'. split; [by apply Hr|done].
  - rewrite Hp. constructor; [right; by exists f|]. eapply Forall_impl; [exact Hg|]. auto.
Qed.
Lemma running_step work g : running work g -> exists g', poll_once g = (Ok tt, g') /\ running work g'.
Proof.
  intros Hr. assert (exists g', poll_once g = (Ok tt, g')) as [g' E].
  { destruct Hr as [(f & [(others & Hp & Hg) Hw _] & _)|(v & [Hg _] & _)]; [by eapply running_total|].
    apply (poll_once_total good); [|done]. intros t w [p Hf Ht]. destruct (Ht Htotal w) as [[spawned r] Hx]. cbn.
    destruct (p w) as [o w'] eqn:E. cbn in Hx; subst o. eexists spawned, r, w'. split; [done|].
    destruct r as [t'|]; constructor; [|constructor]. by eapply Hf. }
  exists g'. split; [done|]. by eapply running_round.
Qed.
Lemma running_rounds work k g : running work g -> exists g', rounds k g = (Ok tt, g') /\ running work g'.
Proof.
  revert g; induction k as [|k IH]; intros g Hr; [by exists g|]. destruct (running_step _ _ Hr) as (g1 & E1 & Hr1).
  destruct (IH g1 Hr1) as (g' & E & Hr'). exists g'. split; [|done]. cbn. unfold mbind, st_mbind, st_bind. by rewrite E1.
Qed.
Lemma take_pending f g : pending f g -> exists fuel v g', take_handle fuel id g = (Ok v, g').
Proof.
  revert g. induction f as [p IH] using future_ind. intros g Hf.
  destruct (running_step (mkFuture p) g) as (g1 & E1 & _); [left; eauto|].
  assert (exists fuel v g', take_handle fuel id g1 = (Ok v, g')) as (fuel & v & g' & E).
  { destruct (pending_round _ _ _ Hf E1) as [(w & l & f' & w' & E & Hf')|(v & _ & Hv)]; [by eapply IH|].
    destruct (take_finished v g1 0 Hv) as (g' & E & _). by eexists _, _, _. }
  exists (S fuel), v, g'. cbn [take_handle]. unfold gets, mbind, st_mbind, st_bind. rewrite (cell_some _ _ (pe_cell _ _ Hf)). cbn.
  by rewrite E1.
Qed.
Lemma take_total work g : running work g -> exists fuel v g', take_handle fuel id g = (Ok v, g') /\ returns work v.
Proof.
  intros Hr. assert (exists fuel v g', take_handle fuel id g = (Ok v, g')) as (fuel & v & g' & E).
  { destruct Hr as [(f & Hf & _)|(v & Hv & _)]; [by eapply take_pending|].
    destruct (take_finished v g 0 Hv) as (g' & E & _). by eexists _, _, _. }
  exists fuel, v, g'. split; [done|]. by apply (take_Ok _ _ _ _ _ Hr E).
Qed.
Lemma drop_total work g : running work g -> exists g', drop_handle 2 id g = (Ok tt, g').
Proof.
  intros Hr. unfold drop_handle, on_world, zoom, set_cancelled, modify, mbind, st_mbind, st_bind.
  cbn [until_released]. unfold gets, mbind, st_mbind, st_bind. cbn.
  destruct Hr as [(f & [(others & Hp & Hg) Hw Hc] & _)|(v & [Hg Hc] & _)]; rewrite (cell_some _ _ Hc); cbn;
    rewrite (cell_some _ _ (insert_cell _ _ _ Hc)); cbn; [|by eexists].
  destruct (running_total f others (set_world (<[id := mkCell None true true]> (world g)) g) Hp Hg Hw) as [g1 E1].
  rewrite E1. eapply cancelled_round in E1 as [_ Hc1]; [|exact Hp|exact Hg|by eapply insert_cell].
  rewrite (cell_some _ _ Hc1). by eexists.
Qed.
End handles.

Lemma spawned_running {T} total (work : Future (list (Cell T)) T) g g1 id : spawn_task work g = (Ok id, g1) ->
  Forall (good total (keep_cell id)) (tasks g) -> workable total id work -> running total id work g1.
Proof.
  intros [= <- <-] Hg Hw. left. exists work. split; [|done]. split; cbn.
  - exists (tasks g). split; [by rewrite Permutation_app_comm|done].
  - done.
  - by rewrite lookup_app_r, Nat.sub_diag by lia.
Qed.

Lemma spawned_runs {T} (work : Future (list (Cell T)) T) g g1 id k : spawn_task work g = (Ok id, g1) ->
  Forall (good true (keep_cell id)) (tasks g) -> workable true id work ->
  exists g2, rounds k g1 = (Ok tt, g2) /\
    (exists fuel v g3, take_handle fuel id g2 = (Ok v, g3) /\ returns work v /\ Forall (good true (keep_cell id)) (tasks g3)) /\
    (exists g3, drop_handle 2 id g2 = (Ok tt, g3) /\ Forall (good true (keep_cell id)) (tasks g3)).
Proof.
  intros Hs Hg Hw. pose proof (spawned_running true _ _ _ _ Hs Hg Hw) as Hr.
  destruct (running_rounds true id eq_refl _ k _ Hr) as (g2 & E2 & Hr2). exists g2. split; [done|]. split.
  - destruct (take_total true id eq_refl _ _ Hr2) as (fuel & v & g3 & E3 & Hv). exists fuel, v, g3. split_and!; try done.
    by eapply take_Ok.
  - destruct (drop_total true id eq_refl _ _ Hr2) as (g3 & E3). exists g3. split; [done|]. by eapply drop_Ok.
Qed.
Lemma returns_yield {T} (f : Future (list (Cell T)) T) v : returns (await yield_now (fun _ => f)) v -> returns f v.
Proof.
  intros Hr. inversion Hr as [|p w sp f' w' u E Hr' Ep]; subst; [discriminate|]. injection E as _ <- _. destruct f as [q]. clear Hr.
  inversion Hr' as [p w1 sp1 u w2 E Ep|p w1 sp1 f1 w2 u E Hr Ep]; subst; cbv [st_bind st_ret poll] in E;
    destruct (q w1) as [[[l [x|g]]|[]| |] w3] eqn:Eq; try discriminate E; injection E as <- <- <-.
  - by eapply returns_now.
  - by eapply returns_later.
Qed.
Lemma workable_ready {T} total id (v : T) : workable total id (ready v).
Proof. constructor; [|by eexists]. by intros w sp r w' [= <- <- <-]. Qed.
Lemma workable_yield {T} total id (f : Future (list (Cell T)) T) : workable total id f -> workable total id (await yield_now (fun _ => f)).
Proof.
  intros [p Hf Ht]. constructor; [|by eexists]. intros w sp r w' [= <- <- <-]. split_and!; [done..|]. intros f' [= <-].
  constructor.
  - intros w1 sp r w2 E. cbv [st_bind st_ret poll] in E. destruct (p w1) as [[[l r1]|[]| |] w3] eqn:Ep; try discriminate E.
    injection E as <- <- <-. by apply (Hf _ _ _ _ Ep).
  - intros Htt w1. destruct (Ht Htt w1) as [[l r] Hx]. destruct (p w1) as [o w2] eqn:Ep. cbn in Hx. subst o.
    eexists. cbv [st_bind st_ret poll]. rewrite Ep. done.
Qed.
(** C10. A spawned task runs to its end: after any number of rounds, whoever drives them, its handle
    gives in finitely many rounds a value that the work returns; or, when the handle is dropped,
    the task is gone after at most one more round. *)
Theorem task_runs {T} (work : Future (list (Cell T)) T) g g1 id k : spawn_task work g = (Ok id, g1) ->
  Forall (good true (keep_cell id)) (tasks g) -> workable true id work ->
  exists g2, rounds k g1 = (Ok tt, g2) /\
    (exists fuel v g3, take_handle fuel id g2 = (Ok v, g3) /\ returns work v /\ Forall (good true (keep_cell id)) (tasks g3)) /\
    (exists g3, drop_handle 2 id g2 = (Ok tt, g3) /\ Forall (good true (keep_cell id)) (tasks g3)).
Proof. apply spawned_runs. Qed.

(** ** An executor with a task *)

Definition demo_work : Future (list (Cell Z)) Z := await yield_now (fun _ => ready 7).
(** A task that yields and then spawns another one. *)
Definition demo_task : Task (list (Cell Z)) :=
  boxed (await yield_now (fun _ => mkFuture (fun w => (Ok ([boxed (ready tt)], inl tt), w)))).
Definition demo_executor : Executor (list (Cell Z)) := mkExecutor [] [demo_task].
Lemma demo_good : good true (keep_cell 0) demo_task.
Proof.
  assert (good true (keep_cell (T:=Z) 0) (boxed (ready tt))) as Hr.
  { constructor; [|by eexists]. intros w sp r w' [= <- <- <-]. by split_and!. }
  constructor; [|by eexists]. intros w sp r w' [= <- <- <-]. split_and!; [done..|]. intros t [= <-].
  constructor; [|by eexists]. intros w1 sp r w' [= <- <- <-]. split_and!; [done|by apply Forall_singleton|done].
Qed.
Lemma demo_workable : workable true 0 demo_work.
Proof.
  constructor; [|by eexists]. intros w sp r w' [= <- <- <-]. split_and!; [done..|]. intros f [= <-].
  constructor; [|by eexists]. by intros w1 sp r w' [= <- <- <-].
Qed.

Lemma task_runs_witness : exists g2, rounds 1 (snd (spawn_task demo_work demo_executor)) = (Ok tt, g2) /\
  exists fuel v g3, take_handle fuel 0 g2 = (Ok v, g3) /\ returns demo_work v.
Proof.
  destruct (task_runs demo_work demo_executor (snd (spawn_task demo_work demo_executor)) 0 1 eq_refl
    ltac:(by constructor; [exact demo_good|constructor]) demo_workable) as (g2 & E & (fuel & v & g3 & E3 & Hv & _) & _).
  exists g2. split; [exact E|]. exists fuel, v, g3. split; [exact E3|exact Hv].
Defined.
Lemma poll_once_fair_witness : exists order spawned rests, order ≡ₚ [demo_task; demo_task; demo_task] /\
  round order [] spawned rests [] /\ tasks (snd (poll_once (mkExecutor [] [demo_task; demo_task; demo_task]))) ≡ₚ spawned ++ rests.
Proof.
  destruct (poll_once_fair (mkExecutor [] [demo_task; demo_task; demo_task]) _ eq_refl) as (order & spawned & rests & Ho & Hr & Ht).
  exists order, spawned, rests. split; [exact Ho|]. split; [exact Hr|exact Ht].
Defined.
