(* ===== verification/SignPsbt.v ===== *)
(** * Signing of PSBTs ([apps/bitcoin/app/src/handlers/sign_psbt.rs])

    The whole handler: the analysis of the PSBT, the screens, the verification of accounts and
    scripts, and the signatures. The verification is a task in the background
    ([verification_task]); it is awaited before anything is signed and has no effects, so the
    handler computes it there ([verify_transaction]). What [rust-bitcoin] computes is the
    class [SigningCrate]. Spinners and final messages are left out. *)

From S2P Require Import Prelude Executor Text Bip388 WalletPolicy Musig Script Account Psbt PsbtAccount MusigSession.

(** The text of an address is [address_text]; [cache_new] is [SighashCache::new]. *)
Class SigningCrate `{BitcoinCrate} `{SighashCrate} := {
  compute_txid : Transaction -> list Z;
  to_p2sh : list Z -> list Z;
  to_p2wsh : list Z -> list Z;
  xpub_chain_code : Xpub -> list Z;
  address_text : list Z -> option (list Z);
  has_page_api : bool;
  cache_new : Transaction -> SighashCache;
  taproot_script_spend_signature_hash : nat -> list TxOut -> list Z -> SighashCache -> option (list Z) * SighashCache;
  taproot_key_spend_signature_hash : nat -> list TxOut -> SighashCache -> option (list Z) * SighashCache;
  keypair_from_seckey : list Z -> option (list Z);
  tap_tweak_keypair : list Z -> option (list Z) -> list Z;
}.

Definition COIN_TICKER : list Z := lit "TEST".
Definition SATS_PER_BTC : Z := 100000000.
Definition THRESHOLD_WARN_HIGH_FEES_PERCENT : Z := 10.
Definition THRESHOLD_WARN_HIGH_FEES_AMOUNT : Z := 100000.

Definition format_amount (value : Z) (ticker : list Z) : list Z :=
  let whole_part := value / SATS_PER_BTC in
  let fractional_part := value mod SATS_PER_BTC in
  decimal whole_part ++ lit "." ++ padded 8 (decimal fractional_part) ++ lit " " ++ ticker.

(** [i64] arithmetic, and [x as i64] for [x : u64]. *)
Definition as_i64 (z : Z) : Z := as_signed 64 z.
Definition i64_add (a b : Z) : Z := as_i64 (w64 (a + b)).
Definition i64_sub (a b : Z) : Z := as_i64 (w64 (a - b)).

Record ScriptCheck : Type := {
  account_id : Z; check_is_change : bool; check_address_index : Z; expected_script : list Z; is_input : bool
}.

(** The number of placeholders of a template, which bounds the loops over them. *)
Fixpoint key_count (d : DescriptorTemplate) : nat :=
  match d with
  | Bip388.Sh x | Bip388.Wsh x | W_a x | W_s x | W_c x | W_t x | W_d x | W_v x | W_j x | W_n x | W_l x | W_u x =>
      key_count x
  | Andor x y z => key_count x + key_count y + key_count z
  | And_v x y | And_b x y | And_n x y | Or_b x y | Or_c x y | Or_d x y | Or_i x y => key_count x + key_count y
  | Thresh _ ds => list_sum (map key_count ds)
  | Sortedmulti _ ks | Sortedmulti_a _ ks | Multi _ ks | Multi_a _ ks => length ks
  | Tr _ None => 1
  | Tr _ (Some t) => S (tree_key_count t)
  | Pkh _ | Bip388.Wpkh _ | Pk _ | Pk_k _ | Pk_h _ => 1
  | _ => 0
  end
with tree_key_count (t : TapTree) : nat :=
  match t with Bip388.Script d => key_count d | Branch l r => tree_key_count l + tree_key_count r end.

Section sign_psbt.
Context `{BitcoinCrate, SighashCrate, !SigningCrate, !XpubCrate, HexCrate, AccountCrate, Curve, TaggedHash, ScriptCrate,
  SigningSdk, TaprootCrate}.

Record TransactionSummary : Type := {
  accounts : list WalletPolicy;
  account_names : list (option (list Z));
  input_coordinates : list (Z * WalletPolicyCoordinates);
  account_spent_amounts : list Z;
  external_outputs_indexes : list nat;
  external_output_auth_names : list (option (list Z));
  inputs_total_amount : Z;
  outputs_total_amount : Z;
  warn_unverified_inputs : bool
}.
Definition fee (s : TransactionSummary) : Z := w64 (inputs_total_amount s - outputs_total_amount s).

(** ** Analysis *)

Fixpoint read_names_and_proofs (entries : list ProprietaryEntry) (n : nat) (id : Z) :
    outcome Error (list (option (list Z)) * list (list Z)) :=
  match n with
  | O => Ok ([], [])
  | S n =>
      name ← outcome_map_err (fun _ => EInvalidWalletPolicy) (get_account_name entries id);
      por ← outcome_map_err (fun _ => EInvalidWalletPolicy) (get_account_proof_of_registration entries id);
      por ← ok_or por EDefaultAccountsNotSupported;
      guard_err (negb (length por =? 32)%nat) EInvalidProofOfRegistrationLength;;
      '(names, proofs) ← read_names_and_proofs entries n (id + 1);
      Ok (name :: names, por :: proofs)
  end.
(** Registered identities, as keys with their names. *)
Fixpoint check_identities (l : list RegisteredIdentityKey) : outcome Error (list (list Z * list Z)) :=
  match l with
  | [] => Ok []
  | rik :: l =>
      ik ← outcome_map_err (fun _ => EInvalidIdentitySignature) (identity_key_new (rik_pubkey rik));
      let expected_por := por_new (identity_get_id ik (rik_name rik)) in
      guard_err (negb (bool_decide (rik_por rik = expected_por))) EInvalidProofOfRegistration;;
      names ← check_identities l;
      Ok ((rik_pubkey rik, rik_name rik) :: names)
  end.

Fixpoint coordinates_of_inputs (l : list Input) : outcome Error (list (Z * WalletPolicyCoordinates)) :=
  match l with
  | [] => Ok []
  | input :: l =>
      c ← outcome_map_err (fun _ => EFailedToGetAccounts) (input_account_coordinates input);
      c ← ok_or c EExternalInputsNotSupported;
      cs ← coordinates_of_inputs l;
      Ok (c :: cs)
  end.
Fixpoint coordinates_of_outputs (l : list Output) : outcome Error (list (option (Z * WalletPolicyCoordinates))) :=
  match l with
  | [] => Ok []
  | output :: l =>
      c ← outcome_map_err (fun _ => EFailedToGetAccounts) (output_account_coordinates output);
      cs ← coordinates_of_outputs l;
      Ok (c :: cs)
  end.

Definition is_segwit (v : SegwitVersion) : bool := match v with SegwitLegacy => false | _ => true end.
Definition is_legacy (v : SegwitVersion) : bool := match v with SegwitLegacy => true | _ => false end.

(** The output that an input spends, as the analysis takes it. *)
Definition analyzed_tx_out (index : nat) : ST Psbt Error TxOut :=
  fields ← map_err (fun _ => EInvalidWitnessUtxo) (with_input index (gets in_fields));
  wutxo ← map_err (fun _ => EInvalidWitnessUtxo) (with_input index get_witness_utxo);
  match wutxo with
  | Some witness_utxo =>
      script ← lift (match redeem_script fields with
                     | Some redeem_script =>
                         guard_err (negb (bool_decide (script_pubkey witness_utxo = to_p2sh redeem_script)))
                           ERedeemScriptMismatchWitness;;
                         Ok redeem_script
                     | None => Ok (script_pubkey witness_utxo)
                     end);
      (if is_p2wsh script then
         match witness_script fields with
         | Some witness_script =>
             lift (guard_err (negb (bool_decide (script = to_p2wsh witness_script))) EWitnessScriptMismatchWitness)
         | None => fail EWitnessScriptRequiredForP2WSH
         end
       else mret tt);;
      mret witness_utxo
  | None =>
      nwutxo ← map_err (fun _ => EInvalidNonWitnessUtxo) (with_input index get_non_witness_utxo);
      match nwutxo with
      | Some non_witness_utxo =>
          prevout_index ← lift (ok_or (output_index fields) EMissingPreviousOutputIndex);
          match redeem_script fields with
          | Some redeem_script =>
              out ← lift (unwrap (tx_output non_witness_utxo !! Z.to_nat prevout_index));
              lift (guard_err (negb (bool_decide (script_pubkey out = to_p2sh redeem_script))) ERedeemScriptMismatch)
          | None => mret tt
          end;;
          lift (unwrap (tx_output non_witness_utxo !! Z.to_nat prevout_index))
      | None => fail EMissingInputUtxo
      end
  end.

(** What the loops over inputs and outputs accumulate. *)
Record Totals : Type := {
  spent : list Z;
  ext_indexes : list nat;
  ext_names : list (option (list Z));
  in_total : Z;
  out_total : Z;
  warn : bool;
  checks : list ScriptCheck
}.

Definition analyze_input (accs : list WalletPolicy) (index : nat) (c : Z * WalletPolicyCoordinates) (t : Totals) :
    ST Psbt Error Totals :=
  let '(id, coords) := c in
  (if Z.of_nat (length accs) <=? id then fail EInvalidAccountId else mret tt);;
  wallet_policy ← lift (unwrap (accs !! Z.to_nat id));
  segwit_version ← lift (outcome_map_err (fun _ => EInvalidWalletPolicy) (get_segwit_version wallet_policy));
  fields ← map_err (fun _ => EInvalidWitnessUtxo) (with_input index (gets in_fields));
  (if is_legacy segwit_version && bool_decide (is_Some (witness_utxo fields))
   then fail EWitnessUtxoNotAllowedForLegacy else mret tt);;
  warned ← (match segwit_version with
            | SegwitTaproot => mret false
            | _ =>
                tx ← map_err (fun _ => EInvalidNonWitnessUtxo) (with_input index get_non_witness_utxo);
                match tx with
                | Some tx =>
                    if negb (bool_decide (previous_txid fields = Some (compute_txid tx))) then fail ENonWitnessUtxoMismatch
                    else mret false
                | None => if is_legacy segwit_version then fail ENonWitnessUtxoRequired else mret true
                end
            end);
  (if is_segwit segwit_version && negb (bool_decide (is_Some (witness_utxo fields)))
   then fail EWitnessUtxoRequiredForSegwit else mret tt);;
  tx_out ← analyzed_tx_out index;
  let check := {| account_id := id; check_is_change := is_change coords; check_address_index := address_index coords;
                  expected_script := script_pubkey tx_out; is_input := true |} in
  amount ← lift (unwrap (spent t !! Z.to_nat id));
  mret {| spent := <[Z.to_nat id := i64_add amount (as_i64 (tx_value tx_out))]> (spent t);
          ext_indexes := ext_indexes t; ext_names := ext_names t;
          in_total := w64 (in_total t + tx_value tx_out); out_total := out_total t;
          warn := warned || warn t; checks := checks t ++ [check] |}.
Fixpoint analyze_inputs (accs : list WalletPolicy) (index : nat) (cs : list (Z * WalletPolicyCoordinates)) (t : Totals) :
    ST Psbt Error Totals :=
  match cs with
  | [] => mret t
  | c :: cs => t ← analyze_input accs index c t; analyze_inputs accs (S index) cs t
  end.

(** The proofs of an external output, and the first registered name of their keys. *)
Fixpoint check_proofs (identities : list (list Z * list Z)) (script : list Z) (name : option (list Z))
    (proofs : list OutputAuthProof) : outcome Error (option (list Z)) :=
  match proofs with
  | [] => Ok name
  | proof :: proofs =>
      ok_or (from_compressed (proof_pubkey proof)) EInvalidIdentitySignature;;
      msg ← outcome_map_err (fun _ => EInvalidIdentitySignature) (build_identity_message MSG_TYPE_OUTPUT script);
      guard_err (negb (schnorr_verify (proof_pubkey proof) msg (proof_sig proof))) EInvalidIdentitySignature;;
      let name := match name with
                  | Some _ => name
                  | None => snd <$> List.find (fun '(pk, _) => bool_decide (pk = proof_pubkey proof)) identities
                  end in
      check_proofs identities script name proofs
  end.
Definition analyze_output (accs : list WalletPolicy) (identities : list (list Z * list Z)) (index : nat)
    (output : Output) (c : option (Z * WalletPolicyCoordinates)) (t : Totals) : outcome Error Totals :=
  amount ← ok_or (amount (out_fields output)) EOutputAmountMissing;
  match c with
  | Some (id, coords) =>
      guard_err (Z.of_nat (length accs) <=? id) EInvalidAccountId;;
      script ← ok_or (script (out_fields output)) EOutputScriptMissing;
      let check := {| account_id := id; check_is_change := is_change coords; check_address_index := address_index coords;
                      expected_script := script; is_input := false |} in
      a ← unwrap (spent t !! Z.to_nat id);
      Ok {| spent := <[Z.to_nat id := i64_sub a (as_i64 amount)]> (spent t);
            ext_indexes := ext_indexes t; ext_names := ext_names t;
            in_total := in_total t; out_total := w64 (out_total t + amount);
            warn := warn t; checks := checks t ++ [check] |}
  | None =>
      proofs ← outcome_map_err (fun _ => EInvalidIdentitySignature) (get_auth_proofs (iter_proprietary (out_map output)));
      script ← ok_or (script (out_fields output)) EOutputScriptMissing;
      name ← check_proofs identities script None proofs;
      Ok {| spent := spent t; ext_indexes := ext_indexes t ++ [index]; ext_names := ext_names t ++ [name];
            in_total := in_total t; out_total := w64 (out_total t + amount); warn := warn t; checks := checks t |}
  end.
Fixpoint analyze_outputs (accs : list WalletPolicy) (identities : list (list Z * list Z)) (index : nat)
    (outputs : list Output) (cs : list (option (Z * WalletPolicyCoordinates))) (t : Totals) : outcome Error Totals :=
  match outputs, cs with
  | output :: outputs, c :: cs =>
      t ← analyze_output accs identities index output c t;
      analyze_outputs accs identities (S index) outputs cs t
  | _, _ => Ok t
  end.

Definition analyze_transaction : ST Psbt Error (TransactionSummary * list (list Z) * list ScriptCheck) :=
  psbt ← get;
  let entries := iter_proprietary (global_map psbt) in
  accounts ← lift (outcome_map_err (fun _ => EInvalidWalletPolicy) (get_accounts entries));
  '(account_names, account_proofs) ← lift (read_names_and_proofs entries (length accounts) 0);
  registered ← lift (outcome_map_err (fun _ => EInvalidIdentitySignature) (get_registered_identity_keys entries));
  identities ← lift (check_identities registered);
  input_coordinates ← lift (coordinates_of_inputs (inputs psbt));
  let t := {| spent := replicate (length accounts) 0; ext_indexes := []; ext_names := []; in_total := 0; out_total := 0;
              warn := false; checks := [] |} in
  t ← analyze_inputs accounts 0 input_coordinates t;
  output_coordinates ← lift (coordinates_of_outputs (outputs psbt));
  t ← lift (analyze_outputs accounts identities 0 (outputs psbt) output_coordinates t);
  (if in_total t <? out_total t then fail EInputsLessThanOutputs else mret tt);;
  mret ({| accounts := accounts; account_names := account_names; input_coordinates := input_coordinates;
           account_spent_amounts := spent t; external_outputs_indexes := ext_indexes t;
           external_output_auth_names := ext_names t; inputs_total_amount := in_total t;
           outputs_total_amount := out_total t; warn_unverified_inputs := warn t |}, account_proofs, checks t).

(** ** Verification *)

Fixpoint verify_accounts (accounts : list WalletPolicy) (names : list (option (list Z))) (proofs : list (list Z)) :
    outcome Error unit :=
  match accounts, names, proofs with
  | [], _, _ => Ok tt
  | wallet_policy :: accounts, name :: names, por :: proofs =>
      let id := get_id wallet_policy (default [] name) in
      guard_err (negb (bool_decide (por = por_new id))) EInvalidProofOfRegistration;;
      verify_accounts accounts names proofs
  | _, _, _ => Panic
  end.
Fixpoint verify_scripts (accounts : list WalletPolicy) (checks : list ScriptCheck) : outcome Error unit :=
  match checks with
  | [] => Ok tt
  | check :: checks =>
      wallet_policy ← unwrap (accounts !! Z.to_nat (account_id check));
      derived_script ← outcome_map_err (fun _ => EInvalidWalletPolicy)
        (policy_to_script wallet_policy (check_is_change check) (check_address_index check));
      guard_err (negb (bool_decide (derived_script = expected_script check)))
        (if is_input check then EInputScriptMismatch else EOutputScriptMismatch);;
      verify_scripts accounts checks
  end.
Definition verify_transaction (accounts : list WalletPolicy) (names : list (option (list Z))) (proofs : list (list Z))
    (checks : list ScriptCheck) : outcome Error unit :=
  verify_accounts accounts names proofs;;
  verify_scripts accounts checks.

(** The same as the background task that it is: it yields after every account and every script,
    and its result goes to the handle. *)
Definition Verdict : Type := unit + Error.
Definition Verification : Type := Future (list (Cell Verdict)) Verdict.
Definition or_return {A} (o : outcome Error A) (k : A -> Verification) : Verification :=
  match o with
  | Ok x => k x
  | Err e => ready (inr e)
  | Panic => mkFuture (fun w => (Panic, w))
  | Diverge => mkFuture (fun w => (Diverge, w))
  end.
Fixpoint verify_accounts_task (accounts : list WalletPolicy) (names : list (option (list Z))) (proofs : list (list Z))
    (rest : Verification) : Verification :=
  match accounts, names, proofs with
  | [], _, _ => rest
  | wallet_policy :: accounts, name :: names, por :: proofs =>
      let id := get_id wallet_policy (default [] name) in
      or_return (guard_err (negb (bool_decide (por = por_new id))) EInvalidProofOfRegistration) (fun _ =>
      await yield_now (fun _ => verify_accounts_task accounts names proofs rest))
  | _, _, _ => mkFuture (fun w => (Panic, w))
  end.
Fixpoint verify_scripts_task (accounts : list WalletPolicy) (checks : list ScriptCheck) : Verification :=
  match checks with
  | [] => ready (inl tt)
  | check :: checks =>
      or_return (unwrap (accounts !! Z.to_nat (account_id check))) (fun wallet_policy =>
      or_return (outcome_map_err (fun _ => EInvalidWalletPolicy)
        (policy_to_script wallet_policy (check_is_change check) (check_address_index check))) (fun derived_script =>
      or_return (guard_err (negb (bool_decide (derived_script = expected_script check)))
        (if is_input check then EInputScriptMismatch else EOutputScriptMismatch)) (fun _ =>
      await yield_now (fun _ => verify_scripts_task accounts checks))))
  end.
Definition verification_task (accounts : list WalletPolicy) (names : list (option (list Z))) (proofs : list (list Z))
    (checks : list ScriptCheck) : Verification :=
  verify_accounts_task accounts names proofs (verify_scripts_task accounts checks).

(** ** The review *)

Definition line (t v : list Z) : TagValue := {| tag := t; tag_value := v |}.
Definition account_description (name : option (list Z)) : list Z :=
  match name with Some name => lit "account: " ++ name | None => lit "default account" end.
Fixpoint spend_lines (names : list (option (list Z))) (spent : list Z) : outcome Error (list TagValue) :=
  match spent with
  | [] => Ok []
  | a :: spent =>
      name ← unwrap (head names);
      rest ← spend_lines (tail names) spent;
      Ok ((if 0 <=? a then
             [line (lit "Spend from") (account_description name);
              line (lit "Amount") (if 0 <? a then format_amount a COIN_TICKER else lit "0 (self-transfer)")]
           else []) ++ rest)
  end.
Fixpoint receive_lines (names : list (option (list Z))) (spent : list Z) : outcome Error (list TagValue) :=
  match spent with
  | [] => Ok []
  | a :: spent =>
      name ← unwrap (head names);
      rest ← receive_lines (tail names) spent;
      Ok ((if a <? 0 then
             [line (lit "Send to") (account_description name);
              line (lit "Amount") (format_amount (w64 (- a)) COIN_TICKER)]
           else []) ++ rest)
  end.
Fixpoint external_lines (psbt : Psbt) (indexes : list nat) (names : list (option (list Z))) : outcome Error (list TagValue) :=
  match indexes with
  | [] => Ok []
  | index :: indexes =>
      output ← unwrap (outputs psbt !! index);
      script ← ok_or (script (out_fields output)) EOutputScriptMissing;
      amount ← ok_or (amount (out_fields output)) EOutputAmountMissing;
      address ← ok_or (address_text script) EAddressFromScriptFailed;
      name ← unwrap (head names);
      let address_value := match name with
                           | Some name => name ++ (if has_page_api then [10; 10] else lit ":") ++ address
                           | None => address
                           end in
      rest ← external_lines psbt indexes (tail names);
      Ok ([line (lit "Output " ++ decimal (Z.of_nat index)) address_value;
           line (lit "Amount") (format_amount amount COIN_TICKER)] ++ rest)
  end.
Definition build_display_pairs (psbt : Psbt) (s : TransactionSummary) : outcome Error (list TagValue) :=
  from ← spend_lines (account_names s) (account_spent_amounts s);
  to ← receive_lines (account_names s) (account_spent_amounts s);
  external ← external_lines psbt (external_outputs_indexes s) (external_output_auth_names s);
  Ok (from ++ to ++ external ++ [line (lit "Fee") (decimal (fee s) ++ lit " " ++ COIN_TICKER)]).

(** ** Signatures *)

Record KeySource : Type := { tree : KeyTree; path : list Z }.
Record PartialSignature : Type := { p_input_index : Z; p_signature : list Z; p_pubkey : list Z; p_leaf_hash : option (list Z) }.
Record SignedInputs : Type := {
  signatures : list PartialSignature;
  musig_pubnonces : list MuSig2Pubnonce;
  musig_partial_sigs : list MuSig2PartialSignature
}.

(** [.ok()] of a computation. *)
Definition try_ok {A} (m : ST App Error A) : ST App Error (option A) := fun a =>
  match m a with
  | (Ok x, a) => (Ok (Some x), a)
  | (Err _, a) => (Ok None, a)
  | (Panic, a) => (Panic, a)
  | (Diverge, a) => (Diverge, a)
  end.

Definition resolve_private_key (key_source : KeySource) : ST App Error HDPrivNode :=
  derive_hd_node (tree key_source) (path key_source).
Definition resolve_local_key_source (key_info : KeyInformation) (child_steps : option (ChildNumber * ChildNumber))
    (standard_fpr resident_fpr : Z) : ST App Error (option KeySource) :=
  match origin_info key_info with
  | None => mret None
  | Some key_origin =>
      match (if fingerprint key_origin =? standard_fpr then Some Standard
             else if fingerprint key_origin =? resident_fpr then Some Resident else None) with
      | None => mret None
      | Some tree =>
          let master_path := map child_into (derivation_path key_origin) in
          claim_node ← try_ok (derive_hd_node tree master_path);
          match claim_node with
          | None => mret None
          | Some claim_node =>
              if negb (bool_decide (to_public_compressed (privkey claim_node) = xpub_public_key (pubkey key_info)))
                 || negb (bool_decide (chaincode claim_node = xpub_chain_code (pubkey key_info)))
              then mret None
              else
                let path := derivation_path key_origin ++
                            match child_steps with Some (c, a) => [c; a] | None => [] end in
                mret (Some {| tree := tree; path := map child_into path |})
          end
      end
  end.

(** The state of a signing pass. *)
Record Sign : Type := {
  s_app : App;
  s_psbt : Psbt;
  s_cache : SighashCache;
  s_prevouts : option (list TxOut);
  s_musig : MusigSigningState;
  s_out : SignedInputs
}.
Definition with_parts (s : Sign) (app : App) (p : Psbt) (c : SighashCache) (o : option (list TxOut))
    (m : MusigSigningState) (out : SignedInputs) : Sign :=
  {| s_app := app; s_psbt := p; s_cache := c; s_prevouts := o; s_musig := m; s_out := out |}.
Definition on_app {A} (m : ST App Error A) : ST Sign Error A :=
  zoom s_app (fun a s => with_parts s a (s_psbt s) (s_cache s) (s_prevouts s) (s_musig s) (s_out s)) m.
Definition on_sign_psbt {A} (m : ST Psbt Error A) : ST Sign Error A :=
  zoom s_psbt (fun p s => with_parts s (s_app s) p (s_cache s) (s_prevouts s) (s_musig s) (s_out s)) m.
Definition on_sighash {A} (m : ST (Psbt * SighashCache) Error A) : ST Sign Error A :=
  zoom (fun s => (s_psbt s, s_cache s))
    (fun pc s => with_parts s (s_app s) (fst pc) (snd pc) (s_prevouts s) (s_musig s) (s_out s)) m.
Definition set_musig (m : MusigSigningState) (s : Sign) : Sign :=
  with_parts s (s_app s) (s_psbt s) (s_cache s) (s_prevouts s) m (s_out s).
Definition push (f : SignedInputs -> SignedInputs) : ST Sign Error unit :=
  modify (fun s => with_parts s (s_app s) (s_psbt s) (s_cache s) (s_prevouts s) (s_musig s) (f (s_out s))).
Definition push_signature (x : PartialSignature) : ST Sign Error unit :=
  push (fun o => {| signatures := signatures o ++ [x]; musig_pubnonces := musig_pubnonces o;
                    musig_partial_sigs := musig_partial_sigs o |}).
Definition push_pubnonce (x : MuSig2Pubnonce) : ST Sign Error unit :=
  push (fun o => {| signatures := signatures o; musig_pubnonces := musig_pubnonces o ++ [x];
                    musig_partial_sigs := musig_partial_sigs o |}).
Definition push_partial_sig (x : MuSig2PartialSignature) : ST Sign Error unit :=
  push (fun o => {| signatures := signatures o; musig_pubnonces := musig_pubnonces o;
                    musig_partial_sigs := musig_partial_sigs o ++ [x] |}).

Definition compute_taproot_sighash (index : nat) (prevouts : list TxOut) (leaf_hash : option (list Z)) :
    ST Sign Error (list Z) :=
  sighash ← on_sighash (fun '(p, cache) =>
    let '(h, cache) := match leaf_hash with
                       | Some leaf_hash => taproot_script_spend_signature_hash index prevouts leaf_hash cache
                       | None => taproot_key_spend_signature_hash index prevouts cache
                       end in
    (Ok h, (p, cache)));
  lift (ok_or sighash EErrorComputingSighash).

Definition sign_input_ecdsa (index : nat) (key_source : KeySource) : ST Sign Error PartialSignature :=
  '(sighash, sighash_type) ← on_sighash (map_err (fun _ => EErrorComputingSighash) (sighash_ecdsa index));
  hd_node ← on_app (resolve_private_key key_source);
  let pubkey_uncompressed := to_public_bytes (privkey hd_node) in
  let pubkey_compressed := (2 + pubkey_uncompressed !!! 64%nat mod 2) :: slice 1 32 pubkey_uncompressed in
  signature ← lift (ok_or (ecdsa_sign_hash (privkey hd_node) sighash) ESigningFailed);
  mret {| p_input_index := w32 (Z.of_nat index); p_signature := signature ++ [w8 sighash_type];
          p_pubkey := pubkey_compressed; p_leaf_hash := None |}.
Definition sign_input_schnorr (index : nat) (prevouts : list TxOut) (key_source : KeySource)
    (taptree_hash leaf_hash : option (list Z)) : ST Sign Error PartialSignature :=
  sighash ← compute_taproot_sighash index prevouts leaf_hash;
  hd_node ← on_app (resolve_private_key key_source);
  keypair ← lift (ok_or (keypair_from_seckey (privkey hd_node)) EInvalidKey);
  let signing_privkey := match leaf_hash with Some _ => keypair | None => tap_tweak_keypair keypair taptree_hash end in
  signature ← lift (ok_or (schnorr_sign signing_privkey sighash) ESigningFailed);
  mret {| p_input_index := w32 (Z.of_nat index); p_signature := signature;
          p_pubkey := slice 1 32 (to_public_bytes signing_privkey); p_leaf_hash := leaf_hash |}.

(** The witness outputs of all inputs, computed once. *)
Fixpoint collect_prevouts (n index : nat) : ST Psbt Error (list TxOut) :=
  match n with
  | O => mret []
  | S n => fun p =>
      match with_input index get_witness_utxo p with
      | (Ok (Some o), p) => (os ← collect_prevouts n (S index); mret (o :: os)) p
      | (Diverge, p) => (Diverge, p)
      | (_, p) => (Panic, p)
      end
  end.
Definition ensure_prevouts : ST Sign Error (list TxOut) :=
  c ← gets s_prevouts;
  match c with
  | Some l => mret l
  | None =>
      n ← gets (fun s => length (inputs (s_psbt s)));
      l ← on_sign_psbt (collect_prevouts n 0);
      modify (fun s => with_parts s (s_app s) (s_psbt s) (s_cache s) (Some l) (s_musig s) (s_out s));;
      mret l
  end.

Definition taptree_hash_for (wallet_policy : WalletPolicy) (coords : WalletPolicyCoordinates) :
    outcome Error (option (list Z)) :=
  match descriptor_template wallet_policy with
  | Tr _ None => Ok None
  | Tr _ (Some t) =>
      h ← outcome_map_err (fun _ => EInvalidWalletPolicy)
        (get_taptree_hash (key_information wallet_policy) (is_change coords) (address_index coords) t);
      Ok (Some h)
  | _ => Err EUnexpectedTaprootPolicy
  end.
Definition leaf_hash_for (tapleaf_desc : option DescriptorTemplate) (wallet_policy : WalletPolicy)
    (coords : WalletPolicyCoordinates) : outcome Error (option (list Z)) :=
  match tapleaf_desc with
  | None => Ok None
  | Some desc =>
      h ← outcome_map_err (fun _ => EInvalidWalletPolicy)
        (get_tapleaf_hash (key_information wallet_policy) (is_change coords) (address_index coords) desc);
      Ok (Some h)
  end.

(** The keys among the participants that the device controls. *)
Fixpoint our_keys (key_information : list KeyInformation) (indices : list Z) (standard_fpr resident_fpr : Z) :
    ST App Error (list KeySource) :=
  match indices with
  | [] => mret []
  | i :: indices =>
      key_info ← lift (unwrap (key_information !! Z.to_nat i));
      ks ← resolve_local_key_source key_info None standard_fpr resident_fpr;
      rest ← our_keys key_information indices standard_fpr resident_fpr;
      mret (match ks with Some ks => ks :: rest | None => rest end)
  end.

(** [&psbt.inputs[index]]. *)
Definition input_at (index : nat) : ST Sign Error Input :=
  on_sign_psbt (map_err (fun _ => EFailedToDeserializePsbt) (with_input index get)).

(** Where a signature goes: the input, the placeholder and its session. *)
Record Placeholder : Type := {
  ph_input : nat; ph_index : nat; ph_session : list Z; ph_spend : SpendPath; ph_info : PerInputInfo
}.
(** The turn of the loop of [handle_musig_placeholder] for a key of the device. *)
Definition musig_participant (ph : Placeholder) (ks : KeySource) : ST Sign Error unit :=
  let info := ph_info ph in
  let leaf_hash := leaf_hash_of (ph_spend ph) in
  let input_index := w32 (Z.of_nat (ph_input ph)) in
  let placeholder_index := w32 (Z.of_nat (ph_index ph)) in
  hd ← on_app (resolve_private_key ks);
  let internal_pk := to_public_compressed (privkey hd) in
  input ← input_at (ph_input ph);
  mine ← lift (outcome_map_err (fun _ => EFailedToDeserializePsbt)
                 (get_musig2_pub_nonce input internal_pk (agg_key_tweaked info) leaf_hash));
  match mine with
  | None =>
      state ← gets s_musig;
      '(session, state) ← on_app (round1_initialize (ph_session ph) state);
      modify (set_musig state);;
      data ← lift (produce_pubnonce info internal_pk session input_index placeholder_index (ph_spend ph));
      push_pubnonce data
  | Some _ =>
      prev ← ensure_prevouts;
      sighash ← compute_taproot_sighash (ph_input ph) prev leaf_hash;
      state ← gets s_musig;
      '(session, state) ← on_app (round2_initialize (ph_session ph) state);
      modify (set_musig state);;
      session ← lift (ok_or session EMissingMusigSession);
      data ← lift (sign_sighash_musig info internal_pk (privkey hd) sighash session input_index placeholder_index
                     input (ph_spend ph));
      push_partial_sig data
  end.
Fixpoint for_each {A} (f : A -> ST Sign Error unit) (l : list A) : ST Sign Error unit :=
  match l with [] => mret tt | x :: l => f x;; for_each f l end.
Definition handle_musig_placeholder (input_index placeholder_index : nat) (kp : KeyExpression) (indices : list Z)
    (tapleaf_desc : option DescriptorTemplate) (wallet_policy : WalletPolicy) (coords : WalletPolicyCoordinates)
    (session_id : list Z) (standard_fpr resident_fpr : Z) : ST Sign Error unit :=
  taptree_hash ← lift (taptree_hash_for wallet_policy coords);
  leaf_hash ← lift (leaf_hash_for tapleaf_desc wallet_policy coords);
  let spend := match leaf_hash with Some lh => Tapscript lh | None => Keypath taptree_hash end in
  ours ← on_app (our_keys (key_information wallet_policy) indices standard_fpr resident_fpr);
  if bool_decide (length ours = 0%nat) then mret tt
  else
    info ← lift (compute_per_input_info (key_information wallet_policy) kp (is_change coords) (address_index coords) spend);
    for_each (musig_participant {| ph_input := input_index; ph_index := placeholder_index; ph_session := session_id;
                                   ph_spend := spend; ph_info := info |}) ours.

(** The turn of the loop of [sign_all_inputs] for a placeholder with a plain key. *)
Definition sign_plain (input_index : nat) (key_source : KeySource) (leaf : option DescriptorTemplate)
    (wallet_policy : WalletPolicy) (coords : WalletPolicyCoordinates) : ST Sign Error unit :=
  input ← input_at input_index;
  match witness_utxo (in_fields input) with
  | Some _ =>
      match get_segwit_version wallet_policy with
      | Ok SegwitV0 => x ← sign_input_ecdsa input_index key_source; push_signature x
      | Ok SegwitTaproot =>
          taptree_hash ← lift (taptree_hash_for wallet_policy coords);
          leaf_hash ← lift (leaf_hash_for leaf wallet_policy coords);
          prev ← ensure_prevouts;
          x ← sign_input_schnorr input_index prev key_source taptree_hash leaf_hash;
          push_signature x
      | _ => fail EUnexpectedSegwitVersion
      end
  | None => x ← sign_input_ecdsa input_index key_source; push_signature x
  end.
Definition sign_placeholder (input_index : nat) (wallet_policy : WalletPolicy) (coords : WalletPolicyCoordinates)
    (session_id : list Z) (standard_fpr resident_fpr : Z)
    (item : nat * (KeyExpression * option DescriptorTemplate)) : ST Sign Error unit :=
  let '(placeholder_index, (kp, leaf)) := item in
  let change_step := child_from (if negb (is_change coords) then num1 kp else num2 kp) in
  let address_step := child_from (address_index coords) in
  match Bip388.key_type kp with
  | Musig indices =>
      handle_musig_placeholder input_index placeholder_index kp indices leaf wallet_policy coords session_id
        standard_fpr resident_fpr
  | PlainKey key_index =>
      key_info ← lift (unwrap (key_information wallet_policy !! Z.to_nat key_index));
      key_source ← on_app (resolve_local_key_source key_info (Some (change_step, address_step)) standard_fpr resident_fpr);
      match key_source with
      | None => mret tt
      | Some key_source => sign_plain input_index key_source leaf wallet_policy coords
      end
  end.
Definition sign_input (s : TransactionSummary) (tx_id : list Z) (standard_fpr resident_fpr : Z) (input_index : nat) :
    ST Sign Error unit :=
  '(id, coords) ← lift (unwrap (input_coordinates s !! input_index));
  wallet_policy ← lift (unwrap (accounts s !! Z.to_nat id));
  name ← lift (unwrap (account_names s !! Z.to_nat id));
  let wallet_id := get_id wallet_policy (default [] name) in
  let session_id := compute_psbt_session_id wallet_id tx_id in
  let template := descriptor_template wallet_policy in
  for_each (sign_placeholder input_index wallet_policy coords session_id standard_fpr resident_fpr)
    (imap pair (Bip388.collect (key_count template) (iter_from template))).
Definition sign_pass (psbt : Psbt) (s : TransactionSummary) (tx : Transaction) (standard_fpr resident_fpr : Z) :
    ST App Error (SignedInputs * MusigSigningState) := fun app =>
  let start := {| s_app := app; s_psbt := psbt; s_cache := cache_new tx; s_prevouts := None; s_musig := no_state;
                  s_out := {| signatures := []; musig_pubnonces := []; musig_partial_sigs := [] |} |} in
  let '(o, fin) := for_each (sign_input s (compute_txid tx) standard_fpr resident_fpr)
                     (seq 0 (length (inputs psbt))) start in
  (outcome_bind (fun _ => Ok (s_out fin, s_musig fin)) o, s_app fin).
Definition sign_all_inputs (psbt : Psbt) (s : TransactionSummary) : ST App Error (SignedInputs * MusigSigningState) :=
  let '(o, psbt) := unsigned_tx psbt in
  tx ← lift (outcome_map_err (fun _ => EFailedUnsignedTransaction) o);
  resident_fpr ← get_resident_master_fingerprint;
  sign_pass psbt s tx sdk_master_fingerprint resident_fpr.

(** ** The handler *)

Definition confirm (s : Screen) : ST App Error unit :=
  ok ← ask s;
  if (ok : bool) then mret tt else fail EUserRejected.
Definition fee_percent (s : TransactionSummary) : Z := Z.min (fee s * 100) (2 ^ 64 - 1) / inputs_total_amount s.
Definition warn_high_fee (s : TransactionSummary) : bool :=
  (THRESHOLD_WARN_HIGH_FEES_AMOUNT <=? inputs_total_amount s) && (THRESHOLD_WARN_HIGH_FEES_PERCENT <=? fee_percent s).
Definition handle_sign_psbt (raw : list Z) : ST App Error SignedInputs :=
  psbt ← lift (outcome_map_err (fun _ => EFailedToDeserializePsbt) (parse raw));
  let '(analysis, psbt) := analyze_transaction psbt in
  '(summary, account_proofs, script_checks) ← lift analysis;
  (if warn_unverified_inputs summary then confirm UnverifiedInputs else mret tt);;
  (if warn_high_fee summary then confirm (HighFee (fee_percent summary)) else mret tt);;
  pairs ← lift (build_display_pairs psbt summary);
  confirm (ReviewTransaction pairs);;
  lift (verify_transaction (accounts summary) (account_names summary) account_proofs script_checks);;
  '(signed, musig_state) ← sign_all_inputs psbt summary;
  commit musig_state;;
  mret signed.
End sign_psbt.
