(* ===== verification/MusigSessionSpec.v ===== *)
(** * What a signing pass does to the application

    Rules for what holds at every exit of a computation, errors included ([exits]); what a pass
    may change of the application ([during]): it shows nothing, and the stored MuSig2 session
    stays or is cleared; the sessions of the two rounds. Over all inputs of a PSBT, and at every
    exit, a pass takes no answers; the public nonces it gives come from randomness that it drew,
    its partial signatures from the stored session, which is cleared before the first of them. *)

From S2P Require Import Prelude Text Bip388 WalletPolicy Musig Script Account Psbt PsbtAccount MusigSession SignPsbt.

(** ** Every exit *)

(** [P] holds of the state whatever the outcome, [Q] of the result if there is one. *)
Definition exits {S E A} (P : S -> Prop) (m : ST S E A) (s : S) (Q : A -> S -> Prop) : Prop :=
  P (snd (m s)) /\ match m s with (Ok a, s') => Q a s' | _ => True end.

Section exits.
Context {S E : Type} (P : S -> Prop).

Lemma exits_bind {A B} (m : ST S E A) (f : A -> ST S E B) s Q :
  exits P m s (fun a s' => exits P (f a) s' Q) -> exits P (x ← m; f x) s Q.
Proof. unfold exits, mbind, st_mbind, st_bind. destruct (m s) as [[a|e| |] s1]; cbn; tauto. Qed.
Lemma exits_ret {A} (a : A) s (Q : A -> S -> Prop) : P s -> Q a s -> exits P (mret a : ST S E A) s Q.
Proof. done. Qed.
Lemma exits_fail {A} (e : E) s (Q : A -> S -> Prop) : P s -> exits P (fail e) s Q.
Proof. done. Qed.
Lemma exits_diverge {A} s (Q : A -> S -> Prop) : P s -> exits P (diverge : ST S E A) s Q.
Proof. done. Qed.
Lemma exits_gets {A} (f : S -> A) s (Q : A -> S -> Prop) : P s -> Q (f s) s -> exits P (gets f : ST S E A) s Q.
Proof. done. Qed.
Lemma exits_get s (Q : S -> S -> Prop) : P s -> Q s s -> exits P (get : ST S E S) s Q.
Proof. done. Qed.
Lemma exits_modify (f : S -> S) s (Q : unit -> S -> Prop) : P (f s) -> Q tt (f s) -> exits P (modify f : ST S E unit) s Q.
Proof. done. Qed.
Lemma exits_lift {A} (o : outcome E A) s (Q : A -> S -> Prop) :
  P s -> (forall a, o = Ok a -> Q a s) -> exits P (lift o) s Q.
Proof. intros HP HQ. split; [done|]. unfold lift. destruct o; auto. Qed.
Lemma exits_mono {A} (m : ST S E A) s (Q R : A -> S -> Prop) :
  exits P m s Q -> (forall a s', P s' -> Q a s' -> R a s') -> exits P m s R.
Proof. unfold exits. destruct (m s) as [[] ?]; cbn; intuition. Qed.
Lemma exits_ok {A} (m : ST S E A) s (Q : A -> S -> Prop) a s' : exits P m s Q -> m s = (Ok a, s') -> P s' /\ Q a s'.
Proof. unfold exits. intros H Hm. by rewrite Hm in H. Qed.
End exits.
Lemma exits_weaken {S E A} (P P' : S -> Prop) (m : ST S E A) s Q :
  exits P m s Q -> (forall s', P s' -> P' s') -> exits P' m s Q.
Proof. intros [HP HQ] Hw. split; [by apply Hw|done]. Qed.
Lemma exits_zoom {S T E A} (P : S -> Prop) (view : S -> T) (set : T -> S -> S) (m : ST T E A) s (Q : A -> S -> Prop) :
  exits (fun y => P (set y s)) m (view s) (fun a y => Q a (set y s)) -> exits P (zoom view set m) s Q.
Proof. unfold exits, zoom. by destruct (m (view s)) as [[] ?]. Qed.

(** ** The application during a pass *)

Definition stored (a : App) : option (list Z) * option (list Z) :=
  (slots a !! MUSIG_SESSION_ID_SLOT, slots a !! MUSIG_SESSION_RAND_SLOT).
Definition stored_session (a : App) : option PsbtSession :=
  match stored a with
  | (Some id, Some root) => if bool_decide (id = zeros 32) then None else Some {| session_id := id; rand_root := root |}
  | _ => None
  end.
#[global] Arguments stored_session : simpl never.
#[global] Arguments zeros : simpl never.
Definition cleared (a : App) : Prop := slots a !! MUSIG_SESSION_ID_SLOT = Some (zeros 32).

Record during (a a' : App) : Prop := {
  du_shown : shown a' = shown a;
  du_answers : answers a' = answers a;
  du_length : length (slots a') = length (slots a);
  du_drawn : (drawn a <= drawn a')%nat;
  du_stored : stored a' = stored a \/ cleared a';
}.
Lemma cleared_stored a a' : stored a' = stored a -> cleared a -> cleared a'.
Proof. unfold cleared. by intros [= -> _] ?. Qed.
#[export] Instance during_preorder : PreOrder during.
Proof.
  split; [by split; [..|left]|]. intros a b c [] []. split; try congruence; [lia|].
  destruct du_stored1 as [E|]; [|by right]. destruct du_stored0 as [|]; [left; congruence|].
  right. by eapply cleared_stored.
Qed.
Lemma during_cleared a a' : during a a' -> cleared a -> cleared a'.
Proof. intros [_ _ _ _ [|]]; [by apply cleared_stored|done]. Qed.
Lemma cleared_none a : cleared a -> stored_session a = None.
Proof. unfold cleared, stored_session, stored. intros ->. by destruct (slots a !! _). Qed.

(** A computation of a pass. *)
Definition passes {A} (m : ST App Error A) : Prop := forall a, during a (snd (m a)).
Lemma passes_exits {A} (m : ST App Error A) a0 a : passes m -> during a0 a -> exits (during a0) m a (fun _ a' => during a a').
Proof. intros Hm Ha. specialize (Hm a). split; [by etrans|]. by destruct (m a) as [[] ?]. Qed.
Lemma passes_bind {A B} (m : ST App Error A) (f : A -> ST App Error B) :
  passes m -> (forall x, passes (f x)) -> passes (x ← m; f x).
Proof.
  intros Hm Hf a. specialize (Hm a). unfold mbind, st_mbind, st_bind. destruct (m a) as [[x|e| |] a1]; try done.
  etrans; [exact Hm|apply Hf].
Qed.
Lemma passes_ret {A} (x : A) : passes (mret x).
Proof. by intros a. Qed.
Lemma passes_fail {A} e : passes (fail e : ST App Error A).
Proof. by intros a. Qed.
Lemma passes_diverge {A} : passes (diverge : ST App Error A).
Proof. by intros a. Qed.
Lemma passes_gets {A} (f : App -> A) : passes (gets f).
Proof. by intros a. Qed.
Lemma passes_get : passes get.
Proof. by intros a. Qed.
Lemma passes_lift {A} (o : outcome Error A) : passes (lift o).
Proof. by intros a. Qed.

Create HintDb passes.
#[export] Hint Resolve passes_ret passes_fail passes_diverge passes_gets passes_get passes_lift : passes.
Ltac passes := repeat first
  [ solve [auto with passes]
  | apply passes_bind; [|intros]
  | match goal with |- passes (match ?x with _ => _ end) => destruct x end
  | progress intros ].

Lemma passes_read_slot i : passes (read_slot i).
Proof. unfold read_slot. passes. Qed.
Lemma passes_is_slot_empty i : passes (is_slot_empty i).
Proof. unfold is_slot_empty. apply passes_bind; [apply passes_read_slot|passes]. Qed.
#[export] Hint Resolve passes_read_slot passes_is_slot_empty : passes.
(** The seed of the resident keys is not part of the session. *)
Lemma passes_write_seed d : passes (write_slot RESIDENT_SEED_SLOT d).
Proof.
  intros a. unfold write_slot, mbind, st_mbind, st_bind, get. cbn. destruct (_ <=? _)%nat; cbn; [done|].
  split; cbn; try done; [apply length_insert|]. left. unfold stored. cbn. by rewrite !list_lookup_insert_ne.
Qed.
Lemma read_slot_spec (P : App -> Prop) i a Q : P a -> (forall d, slots a !! i = Some d -> Q d a) -> exits P (read_slot i) a Q.
Proof.
  intros HP HQ. unfold read_slot. apply exits_bind, exits_get; [done|]. apply exits_lift; [done|]. intros d.
  destruct (slots a !! i) as [d'|] eqn:E; [|done]. intros [= ->]. by apply HQ.
Qed.
Lemma write_slot_spec (P : App -> Prop) i d a Q : P a ->
  ((i < length (slots a))%nat -> P (set_slots (<[i := d]> (slots a)) a) /\ Q tt (set_slots (<[i := d]> (slots a)) a)) ->
  exits P (write_slot i d) a Q.
Proof.
  intros HP HQ. unfold write_slot. apply exits_bind, exits_get; [done|].
  destruct (Nat.leb_spec (length (slots a)) i); [by apply exits_fail|]. destruct HQ; [lia|]. by apply exits_modify.
Qed.

Section sdk.
Context `{SigningSdk}.

Lemma passes_draw : passes draw.
Proof. intros a. unfold draw, mbind, st_mbind, st_bind, gets, modify. split; cbn; try done; [lia|by left]. Qed.
Hint Resolve passes_draw : passes.
Lemma passes_draw_seed fuel fpr : passes (draw_seed fuel fpr).
Proof. induction fuel as [|fuel IH]; cbn [draw_seed]; passes. Qed.
Hint Resolve passes_draw_seed passes_write_seed : passes.
Lemma passes_derive_hd_node t p : passes (derive_hd_node t p).
Proof.
  unfold derive_hd_node, derive_resident_hd_node, get_resident_master_hd_node, get_or_init_resident_seed. passes.
Qed.
Lemma passes_resident_fingerprint : passes get_resident_master_fingerprint.
Proof. unfold get_resident_master_fingerprint, get_resident_master_hd_node, get_or_init_resident_seed. passes. Qed.

(** ** Sessions *)

Lemma clear_spec a0 a (Q : unit -> App -> Prop) : during a0 a ->
  (forall a', during a a' -> cleared a' -> Q tt a') -> exits (during a0) clear_session_in_storage a Q.
Proof.
  intros Ha HQ. unfold clear_session_in_storage.
  assert (forall d b, during a0 b -> (length (slots b) > 1)%nat -> cleared (set_slots (<[1%nat := zeros 32]> d) b) ->
    length d = length (slots b) -> during b (set_slots (<[1%nat := zeros 32]> d) b)) as Hw.
  { intros d b Hb Hl Hc Hd. split; cbn; try done; [by rewrite length_insert|by right]. }
  apply exits_bind, write_slot_spec; [done|]. intros Hl. unfold MUSIG_SESSION_ID_SLOT in *.
  assert (cleared (set_slots (<[1%nat := zeros 32]> (slots a)) a)) as Hc
    by (apply list_lookup_insert_eq; lia).
  pose proof (Hw (slots a) a Ha Hl Hc eq_refl) as Hd. split; [by etrans|].
  set (b := set_slots _ _) in *. apply write_slot_spec; [by etrans|]. intros Hl2.
  assert (cleared (set_slots (<[MUSIG_SESSION_RAND_SLOT := zeros 32]> (slots b)) b)) as Hc2.
  { unfold cleared in *. cbn. by rewrite list_lookup_insert_ne. }
  assert (during b (set_slots (<[MUSIG_SESSION_RAND_SLOT := zeros 32]> (slots b)) b)) as Hd2.
  { split; try done; [apply length_insert|by right]. }
  split; [etrans; [exact Ha|]; by etrans|]. apply HQ; [by etrans|done].
Qed.

(** What is popped was stored, and is not any more. *)
Lemma session_pop_spec a0 id a : during a0 a ->
  exits (during a0) (session_pop id) a (fun r a' => during a a' /\
    match r with Some s => stored_session a = Some s /\ session_id s = id /\ cleared a' | None => True end).
Proof.
  intros Ha. unfold session_pop, read_session_from_storage, is_slot_empty. apply exits_bind, exits_bind, exits_bind.
  apply read_slot_spec; [done|]. intros i Hi. apply exits_ret; [done|].
  case_bool_decide as Hz; [by repeat apply exits_ret|].
  apply exits_bind, read_slot_spec; [done|]. intros id' Hid. apply exits_bind, read_slot_spec; [done|]. intros root Hr.
  apply exits_ret; [done|]. cbn [session_id].
  assert (id' = i) as -> by congruence. case_bool_decide as He; cbn [negb]; [|by apply exits_ret]. subst.
  apply exits_bind, clear_spec; [done|]. intros a' Hd Hc. apply exits_ret; [by etrans|]. split_and!; try done.
  unfold stored_session, stored. rewrite Hi, Hr. by rewrite bool_decide_eq_false_2.
Qed.

(** Randomness that was drawn since. *)
Definition fresh (a a' : App) (s : PsbtSession) : Prop :=
  exists n, (drawn a <= n < drawn a')%nat /\ rand_root s = random_bytes n.
Lemma fresh_mono a a1 a2 a3 s : during a a1 -> during a2 a3 -> fresh a1 a2 s -> fresh a a3 s.
Proof. intros [] [] (n & Hn & Hs). exists n. split; [lia|done]. Qed.

Lemma round1_spec a0 id st a : during a0 a ->
  exits (during a0) (round1_initialize id st) a (fun r a' => during a a' /\ session_id (fst r) = id /\
    fst r = round1 (snd r) /\ round2 (snd r) = round2 st /\ (snd r = st \/ fresh a a' (fst r))).
Proof.
  intros Ha. unfold round1_initialize. apply exits_bind. eapply exits_mono; [by apply session_pop_spec|].
  intros _ a1 Ha1 [Hd1 _]. case_bool_decide as He; cbn [negb]; [by apply exits_ret; [|cbn; split_and!; auto]|].
  apply exits_bind. unfold draw at 1. apply exits_bind, exits_gets; [done|]. apply exits_bind.
  assert (during a1 (set_drawn (S (drawn a1)) a1)) as Hd2 by (split; cbn; try done; [lia|by left]).
  apply exits_modify; [by etrans|]. apply exits_ret; [by etrans|]. apply exits_bind.
  destruct (negb _); [apply exits_fail; by etrans|]. repeat (apply exits_ret; [by etrans|]). cbn.
  split_and!; try done; [by etrans|]. right. exists (drawn a1). split; [|done]. destruct Hd1. cbn. lia.
Qed.
Lemma round2_spec a0 id st a : during a0 a ->
  exits (during a0) (round2_initialize id st) a (fun r a' => during a a' /\ round1 (snd r) = round1 st /\
    match fst r with
    | Some s => s = round2 (snd r) /\ session_id s = id /\ (snd r = st \/ stored_session a = Some s /\ cleared a')
    | None => snd r = st
    end).
Proof.
  intros Ha. unfold round2_initialize. case_bool_decide as He; cbn [negb]; [by apply exits_ret; [|cbn; split_and!; auto]|].
  apply exits_bind. eapply exits_mono; [by apply session_pop_spec|].
  intros [s|] a1 Ha1 [Hd1 Hs]; apply exits_ret; cbn; try done.
  destruct Hs as (? & ? & ?). split_and!; auto.
Qed.

(** With the three slots of the application, a session of the first round is stored. *)
Lemma commit_spec a st : (2 < length (slots a))%nat ->
  commit st a = (Ok tt,
    if is_initialized (round1 st)
    then set_slots (<[MUSIG_SESSION_RAND_SLOT := rand_root (round1 st)]>
                      (<[MUSIG_SESSION_ID_SLOT := session_id (round1 st)]> (slots a))) a
    else a).
Proof.
  intros Hl. unfold commit. destruct (is_initialized _); [|done].
  unfold write_session_to_storage, write_slot, MUSIG_SESSION_ID_SLOT, MUSIG_SESSION_RAND_SLOT, mbind, st_mbind, st_bind,
    get, modify. rewrite (proj2 (Nat.leb_gt _ _)) by lia. cbn.
  by rewrite length_insert, (proj2 (Nat.leb_gt _ _)) by lia.
Qed.
End sdk.

(** ** Signing passes *)

Section pass.
Context `{BitcoinCrate, SighashCrate, !SigningCrate, !XpubCrate, HexCrate, AccountCrate, Curve, TaggedHash, ScriptCrate,
  SigningSdk, TaprootCrate}.

Definition nonce_of (s : PsbtSession) (x : MuSig2Pubnonce) : Prop :=
  exists info pk i j spend, produce_pubnonce info pk s i j spend = Ok x.
Definition partial_of (s : PsbtSession) (x : MuSig2PartialSignature) : Prop :=
  exists info pk sk sighash i j input spend, sign_sighash_musig info pk sk sighash s i j input spend = Ok x.
(** The session identifier of an account and the transaction, which is a hash, is the mark of an
    empty slot. *)
Definition zero_session (s : TransactionSummary) (tx : Transaction) : Prop :=
  exists i policy name, accounts s !! i = Some policy /\ account_names s !! i = Some name /\
    compute_psbt_session_id (get_id policy (default [] name)) (compute_txid tx) = zeros 32.

Section passing.
Variable zero_id : Prop.

(** A pass that began with [a]. *)
Record passing (a : App) (s : Sign) : Prop := {
  pa_during : during a (s_app s);
  pa_round1 : round1 (s_musig s) = no_session \/ fresh a (s_app s) (round1 (s_musig s));
  pa_round2 : round2 (s_musig s) = no_session \/
    stored_session a = Some (round2 (s_musig s)) /\ cleared (s_app s);
  pa_nonces : Forall (fun x => zero_id \/ exists t, fresh a (s_app s) t /\ nonce_of t x) (musig_pubnonces (s_out s));
  pa_sigs : Forall (fun x => zero_id \/ exists t, stored_session a = Some t /\ cleared (s_app s) /\ partial_of t x)
    (musig_partial_sigs (s_out s));
}.

Lemma passing_app a s b : passing a s -> during (s_app s) b ->
  passing a (with_parts s b (s_psbt s) (s_cache s) (s_prevouts s) (s_musig s) (s_out s)).
Proof.
  intros [Pd P1 P2 Pn Ps] Hb. split; cbn.
  - by etrans.
  - destruct P1 as [?|Hf]; [by left|right]. by eapply fresh_mono; [..|exact Hf].
  - destruct P2 as [?|[? Hc]]; [by left|right]. split; [done|]. by eapply during_cleared.
  - eapply Forall_impl; [exact Pn|]. intros x [?|(t & Hf & ?)]; [by left|right]. exists t. split; [|done].
    by eapply fresh_mono; [..|exact Hf].
  - eapply Forall_impl; [exact Ps|]. intros x [?|(t & ? & Hc & ?)]; [by left|right]. exists t. split_and!; try done.
    by eapply during_cleared.
Qed.
Lemma passing_parts a s p c o : passing a s -> passing a (with_parts s (s_app s) p c o (s_musig s) (s_out s)).
Proof. by intros []. Qed.

(** A computation that keeps [passing]. *)
Definition goes {A} (m : ST Sign Error A) : Prop := forall a s, passing a s -> passing a (snd (m s)).
Lemma goes_exits {A} (m : ST Sign Error A) a s : goes m -> passing a s -> exits (passing a) m s (fun _ s' => passing a s').
Proof. intros Hm Hs. specialize (Hm a s Hs). split; [done|]. by destruct (m s) as [[] ?]. Qed.
Lemma goes_intro {A} (m : ST Sign Error A) :
  (forall a s, passing a s -> exits (passing a) m s (fun _ _ => True)) -> goes m.
Proof. intros Hm a s Hs. by apply Hm. Qed.
Lemma goes_bind {A B} (m : ST Sign Error A) (f : A -> ST Sign Error B) :
  goes m -> (forall x, goes (f x)) -> goes (x ← m; f x).
Proof.
  intros Hm Hf a s Hs. specialize (Hm a s Hs). unfold mbind, st_mbind, st_bind. destruct (m s) as [[x|e| |] s1]; try done.
  by apply Hf.
Qed.
Lemma goes_ret {A} (x : A) : goes (mret x).
Proof. by intros a s. Qed.
Lemma goes_fail {A} e : goes (fail e : ST Sign Error A).
Proof. by intros a s. Qed.
Lemma goes_gets {A} (f : Sign -> A) : goes (gets f).
Proof. by intros a s. Qed.
Lemma goes_lift {A} (o : outcome Error A) : goes (lift o).
Proof. by intros a s. Qed.
Lemma goes_on_app {A} (m : ST App Error A) : passes m -> goes (on_app m).
Proof.
  intros Hm a s Hs. unfold on_app, zoom. specialize (Hm (s_app s)). destruct (m (s_app s)) as [o b]. by apply passing_app.
Qed.
Lemma goes_on_psbt {A} (m : ST Psbt Error A) : goes (on_sign_psbt m).
Proof. intros a s Hs. unfold on_sign_psbt, zoom. destruct (m _). by apply passing_parts. Qed.
Lemma goes_on_sighash {A} (m : ST (Psbt * SighashCache) Error A) : goes (on_sighash m).
Proof. intros a s Hs. unfold on_sighash, zoom. destruct (m _). by apply passing_parts. Qed.
Lemma goes_push_signature x : goes (push_signature x).
Proof. intros a s []. by split. Qed.
Lemma goes_for_each {A} (f : A -> ST Sign Error unit) l : (forall x, goes (f x)) -> goes (for_each f l).
Proof. intros Hf. induction l; cbn [for_each]; [apply goes_ret|by apply goes_bind]. Qed.

Create HintDb goes.
Hint Resolve goes_ret goes_fail goes_gets goes_lift goes_on_app goes_on_psbt goes_on_sighash goes_push_signature : goes.
Hint Resolve passes_derive_hd_node passes_resident_fingerprint passes_draw : passes.
Ltac goes := repeat first
  [ solve [auto with goes passes]
  | apply goes_bind; [|intros]
  | match goal with |- goes (match ?x with _ => _ end) => destruct x end
  | progress intros ].

Lemma passes_try {A} (m : ST App Error A) : passes m -> passes (try_ok m).
Proof. intros Hm a. specialize (Hm a). unfold try_ok. by destruct (m a) as [[] ?]. Qed.
Lemma passes_resolve k : passes (resolve_private_key k).
Proof. apply passes_derive_hd_node. Qed.
Hint Resolve passes_try passes_resolve : passes.
Lemma passes_source k c f r : passes (resolve_local_key_source k c f r).
Proof. unfold resolve_local_key_source. passes. Qed.
Hint Resolve passes_source : passes.
Lemma passes_our_keys ks l f r : passes (our_keys ks l f r).
Proof. induction l as [|i l IH]; cbn [our_keys]; passes. Qed.
Hint Resolve passes_our_keys : passes.

Lemma goes_input_at i : goes (input_at i).
Proof. apply goes_on_psbt. Qed.
Lemma goes_taproot i l h : goes (compute_taproot_sighash i l h).
Proof. unfold compute_taproot_sighash. goes. Qed.
Lemma goes_prevouts : goes ensure_prevouts.
Proof.
  unfold ensure_prevouts. apply goes_bind; [goes|]. intros [l|]; [goes|]. do 2 (apply goes_bind; [goes|intros]).
  apply goes_bind; [|goes]. intros a s Hs. by apply passing_parts.
Qed.
Hint Resolve goes_input_at goes_taproot goes_prevouts : goes.
Lemma goes_ecdsa i k : goes (sign_input_ecdsa i k).
Proof. unfold sign_input_ecdsa. goes. Qed.
Lemma goes_schnorr i l k t h : goes (sign_input_schnorr i l k t h).
Proof. unfold sign_input_schnorr. goes. Qed.
Hint Resolve goes_ecdsa goes_schnorr : goes.
Lemma goes_plain i k l p c : goes (sign_plain i k l p c).
Proof. unfold sign_plain. goes. Qed.
Hint Resolve goes_plain : goes.

(** ** The two rounds *)

Lemma exits_on_app {A} a s (m : ST App Error A) (Q : A -> Sign -> Prop) :
  passing a s ->
  exits (during (s_app s)) m (s_app s) (fun x b => during (s_app s) b -> Q x
    (with_parts s b (s_psbt s) (s_cache s) (s_prevouts s) (s_musig s) (s_out s))) ->
  exits (passing a) (on_app m) s Q.
Proof.
  intros Hs Hm. apply exits_zoom. destruct Hm as [Hd Hm]. split; [by apply passing_app|].
  destruct (m (s_app s)) as [[] ?]; auto.
Qed.

Lemma goes_participant ph ks : (ph_session ph = zeros 32 -> zero_id) -> goes (musig_participant ph ks).
Proof.
  intros Hz. unfold musig_participant. apply goes_bind; [goes|]. intros hd. apply goes_bind; [goes|]. intros input.
  apply goes_bind; [goes|]. intros [mine|].
  - do 2 (apply goes_bind; [goes|intros]). apply goes_intro. intros a s Hs. apply exits_bind, exits_gets; [done|].
    apply exits_bind, exits_on_app; [done|]. eapply exits_mono; [by apply round2_spec|].
    intros [o st] b Hb (_ & E1 & Ho) _. cbn [fst snd] in *.
    assert (passing a (set_musig st (with_parts s b (s_psbt s) (s_cache s) (s_prevouts s) (s_musig s) (s_out s))) /\
      match o with Some t => zero_id \/ stored_session a = Some t /\ cleared b | None => True end) as [Hp Ht].
    { pose proof (passing_app _ _ _ Hs Hb) as [Pd P1 P2 Pn Ps]. cbn in *. destruct o as [t|]; [|by subst].
      destruct Ho as (-> & Hid & [->|[Hst Hc]]).
      - split; [by split|]. destruct P2 as [E|P2]; [|by right]. left. apply Hz. rewrite <- Hid, E. done.
      - assert (stored_session a = Some (round2 st)) as Hst2.
        { destruct (du_stored _ _ (pa_during _ _ Hs)) as [E|Hcl]; [by unfold stored_session in *; rewrite <- E|].
          by rewrite (cleared_none _ Hcl) in Hst. }
        split; [|by right]. split; cbn; rewrite ?E1; auto. }
    apply exits_bind, exits_modify; [done|]. apply exits_bind, exits_lift; [done|]. intros t Hto.
    destruct o as [t'|]; [|done]. injection Hto as ->. apply exits_bind, exits_lift; [done|]. intros sig Hx.
    unfold push_partial_sig, push. split; [|done]. destruct Hp as [Pd P1 P2 Pn Ps]. split; cbn in *; auto.
    apply Forall_app; split; [done|]. constructor; [|done]. destruct Ht as [?|[? ?]]; [by left|right].
    exists t. split_and!; try done. repeat eexists. exact Hx.
  - apply goes_intro. intros a s Hs. apply exits_bind, exits_gets; [done|].
    apply exits_bind, exits_on_app; [done|]. eapply exits_mono; [by apply round1_spec|].
    intros [t st] b Hb (_ & Hid & Et & E2 & Hf) _. cbn [fst snd] in *.
    assert (passing a (set_musig st (with_parts s b (s_psbt s) (s_cache s) (s_prevouts s) (s_musig s) (s_out s))) /\
      (zero_id \/ fresh a b t)) as [Hp Ht].
    { pose proof (passing_app _ _ _ Hs Hb) as [Pd P1 P2 Pn Ps]. cbn in *. subst t. destruct Hf as [->|Hf].
      - split; [by split|]. destruct P1 as [E|P1]; [|by right]. left. apply Hz. rewrite <- Hid, E. done.
      - assert (fresh a b (round1 st)) as Hf2 by (eapply fresh_mono; [exact (pa_during _ _ Hs)|reflexivity|exact Hf]).
        split; [|by right]. split; cbn; rewrite ?E2; auto. }
    apply exits_bind, exits_modify; [done|]. apply exits_bind, exits_lift; [done|]. intros x Hx.
    unfold push_pubnonce, push. split; [|done]. destruct Hp as [Pd P1 P2 Pn Ps]. split; cbn in *; auto.
    apply Forall_app; split; [done|]. constructor; [|done]. destruct Ht as [?|?]; [by left|right].
    exists t. split; [done|]. repeat eexists. exact Hx.
Qed.

Lemma goes_musig i j kp l leaf p c id f r : (id = zeros 32 -> zero_id) ->
  goes (handle_musig_placeholder i j kp l leaf p c id f r).
Proof.
  intros Hz. unfold handle_musig_placeholder. goes. apply goes_for_each. intros ks. by apply goes_participant.
Qed.
Lemma goes_placeholder i p c id f r item : (id = zeros 32 -> zero_id) -> goes (sign_placeholder i p c id f r item).
Proof.
  intros Hz. unfold sign_placeholder. destruct item as [j [kp leaf]]. destruct (Bip388.key_type kp); [goes|].
  by apply goes_musig.
Qed.
End passing.

Lemma unwrap_goes {A} z (o : option A) (f : A -> ST Sign Error unit) :
  (forall x, o = Some x -> goes z (f x)) -> goes z (x ← lift (unwrap o); f x).
Proof. intros Hf. destruct o; [by apply Hf|]. by intros a s. Qed.
Lemma goes_input s tx f r i : goes (zero_session s tx) (sign_input s (compute_txid tx) f r i).
Proof.
  unfold sign_input. apply unwrap_goes. intros [id c] _. do 2 (apply unwrap_goes; intros ??).
  apply goes_for_each. intros item. apply goes_placeholder. intros E. by eexists _, _, _.
Qed.

(** The whole pass. *)
Definition pass_result (z : Prop) (a b : App) (out : SignedInputs) (m : MusigSigningState) : Prop :=
  exists p c o, passing z a {| s_app := b; s_psbt := p; s_cache := c; s_prevouts := o; s_musig := m; s_out := out |}.
Lemma sign_pass_spec psbt s tx f r a :
  exits (during a) (sign_pass psbt s tx f r) a (fun x b => pass_result (zero_session s tx) a b (fst x) (snd x)).
Proof.
  unfold exits, sign_pass. cbv beta zeta. match goal with |- context [for_each _ _ ?x] => set (start := x) end.
  assert (passing (zero_session s tx) a start) as Hs by (split; cbn; auto; reflexivity).
  pose proof (goes_for_each _ _ (seq 0 (length (inputs psbt))) (goes_input s tx f r) a start Hs) as Hf.
  destruct (for_each _ _ _) as [o [b p c po m out]]. cbn in Hf. split; cbn; [apply Hf|].
  destruct o; cbn; try done. by exists p, c, po.
Qed.
Lemma sign_all_spec psbt s a :
  exits (during a) (sign_all_inputs psbt s) a (fun x b => exists tx a1,
    fst (unsigned_tx psbt) = Ok tx /\ during a a1 /\ pass_result (zero_session s tx) a1 b (fst x) (snd x)).
Proof.
  unfold sign_all_inputs. destruct (unsigned_tx psbt) as [o p].
  apply exits_bind, exits_lift; [done|]. intros tx ->%outcome_map_err_Ok.
  apply exits_bind. eapply exits_mono; [apply passes_exits; [apply passes_resident_fingerprint|done]|].
  intros r a1 Ha1 _. eapply exits_weaken; [eapply exits_mono; [apply sign_pass_spec|]|].
  - intros x b _ Hx. by exists tx, a1.
  - intros b Hb. by etrans.
Qed.
End pass.
