(* ===== verification/SignDemo.v ===== *)
(** * A signing device

    Instances of all that the handler of [SignPsbt] relies on, in which keys are the numbers of
    [toy_curve] and derivation adds its steps, and two PSBTs of an account with two MuSig2 keys
    that the device has: with the first it makes public nonces, with the second, which has
    them, partial signatures. *)

From S2P Require Import Prelude Text Bip388 Bip388RoundTrip WalletPolicy Musig MusigSpec Script Account Psbt PsbtAccount MusigSession SignPsbt.

Module Demo.

(** ** The crates *)

Definition point_of (pk : list Z) : residue := match from_compressed (Curve := toy_curve) pk with Some p => p | None => res 0 end.
Definition public (k : Z) : list Z := to_compressed (Curve := toy_curve) (res k).
Definition shift (pk : list Z) (k : Z) : list Z :=
  to_compressed (Curve := toy_curve) (pt_add (Curve := toy_curve) (point_of pk) (res k)).
Definition total (l : list Z) : Z := foldr Z.add 0 l.

#[export] Existing Instances toy_curve toy_hash.
(** An extended key is its compressed key. *)
#[export] Instance bitcoin : BitcoinCrate := {
  ChildNumber := Z;
  child_from z := z;
  child_into c := c;
  child_display := decimal;
  child_from_str := parse_u32;
  Xpub := list Z;
  xpub_encode x := zeros 45 ++ x;
  xpub_decode s := Some (drop 45 s);
  xpub_display x := x;
  xpub_from_str s := Some s;
  varint_encode n := [n];
  varint_decode s := match s with n :: s => Ok (n, s) | [] => Err OtherError end;
}.
#[export] Instance xpubs : XpubCrate := {
  xpub_public_key x := x;
  xpub_x_only x := drop 1 x;
  derive_pub x path := Some (shift x (total path));
  public_key_valid _ := true;
  synthetic o pk _ := pk;
  ckd_pub_tweak x c := Some (be_bytes 32 c, zeros 32);
  add_exp_tweak pk tweak := Some (shift pk (be_value tweak));
  child_xpub _ _ pk _ := pk;
}.
#[export] Instance hex : HexCrate := hex_codec.
Definition tweak_of (x : list Z) (root : option (list Z)) : Z := 3 + total (default [] root).
#[export] Instance taproot : TaprootCrate := {
  tap_tweak_hash x root := be_bytes 32 (tweak_of x root);
  tap_tweak_parity x root := match shift (2 :: x) (tweak_of x root) with p :: _ => p - 2 | [] => 0 end;
}.
#[export] Instance scripts : ScriptCrate := {
  Builder := list Z;
  builder_new := [];
  push_opcode o b := b ++ [0];
  push_int n b := b ++ [80 + n];
  push_slice s b := b ++ Z.of_nat (length s) :: s;
  push_verify b := b ++ [105];
  as_bytes b := b;
  hash160 s := take 20 s;
  sha256 s := take 32 s;
  tapleaf_hash s := be_bytes 32 (total s);
  tap_node_hash l r := be_bytes 32 (total (l ++ r));
  tap_tweak x root := drop 1 (shift (2 :: x) (tweak_of x root));
}.
#[export] Instance hashes : AccountCrate := {
  sha256_digest d := be_bytes 32 (total d);
  hmac_sha256 k d := be_bytes 32 (total (k ++ d));
  derive_slip21_key labels := [1; 2; 3];
  u32_encode n := le_bytes 4 n;
  u32_decode s := if (4 <=? length s)%nat then Ok (le_value (take 4 s), drop 4 s) else Err OtherError;
  bool_decode s := match s with b :: s => Ok (negb (b =? 0), s) | [] => Err OtherError end;
  address_from_script s := Some s;
}.
#[export] Instance sighashes : SighashCrate := {
  is_witness_program _ := true;
  is_p2sh _ := false;
  is_p2wpkh _ := false;
  is_p2wsh _ := false;
  deserialize_tx _ := None;
  SighashCache := unit;
  legacy_signature_hash _ _ _ c := (None, c);
  p2wpkh_signature_hash _ _ _ _ c := (None, c);
  p2wsh_signature_hash _ _ _ _ c := (None, c);
}.
#[export] Instance signing : SigningCrate := {
  compute_txid tx := be_bytes 32 (total (map tx_value (tx_output tx)));
  to_p2sh s := s;
  to_p2wsh s := s;
  xpub_chain_code _ := zeros 32;
  address_text s := Some s;
  has_page_api := false;
  cache_new _ := tt;
  taproot_script_spend_signature_hash i os _ c := (Some (be_bytes 32 (99 + total (map tx_value os))), c);
  taproot_key_spend_signature_hash i os c := (Some (be_bytes 32 (66 + total (map tx_value os))), c);
  keypair_from_seckey k := Some k;
  tap_tweak_keypair k _ := k;
}.
(** A private key is a number; the key of a path is the sum of its steps. *)
#[export] Instance sdk : SigningSdk := {
  sdk_derive_hd_node path := Some {| privkey := be_bytes 32 (1000 + total path); chaincode := zeros 32 |};
  sdk_master_fingerprint := 1000;
  ckd_priv n c := Some {| privkey := be_bytes 32 (be_value (privkey n) + c); chaincode := chaincode n |};
  to_public_compressed k := public (be_value k);
  to_public_bytes k := 4 :: be_bytes 32 (be_value k) ++ be_bytes 32 (be_value k);
  pub_fingerprint k := w32 (be_value k);
  ecdsa_sign_hash k h := Some (take 8 (k ++ h));
  schnorr_sign k h := Some (take 64 (k ++ h));
  schnorr_verify _ _ _ := true;
  sha512_digest d := be_bytes 32 (7 + total d) ++ zeros 32;
  session_sha256 d := be_bytes 32 (1 + total d);
  random_bytes n := be_bytes 32 (4000 + Z.of_nat n);
  seed_attempts := 2%nat;
}.

(** ** The account *)

Definition key (step : Z) : KeyInformation :=
  {| pubkey := public (1000 + step); origin_info := Some {| fingerprint := 1000; derivation_path := [step] |} |}.
Definition policy : WalletPolicy :=
  match policy_new (lit "tr(musig(@0,@1)/**)") [key 48; key 49] with Ok p => p | _ => {| descriptor_template := Zero; key_information := []; descriptor_template_raw := [] |} end.
Example policy_template : descriptor_template policy = Tr {| Bip388.key_type := Musig [0; 1]; num1 := 0; num2 := 1 |} None.
Proof. vm_compute. reflexivity. Qed.
Definition name : list Z := lit "Savings".

(** ** The PSBTs *)

Definition bytes (l : list Z) : list Z := Z.of_nat (length l) :: l.
Definition key_value (ty : Z) (data value : list Z) : list Z := bytes (ty :: data) ++ bytes value.
Definition account_pair (sub : Z) (k value : list Z) : list Z :=
  key_value 0xFC (bytes PSBT_ACCOUNT_PROPRIETARY_IDENTIFIER ++ [sub] ++ k) value.
Definition script_at (change : bool) (i : Z) : list Z := match policy_to_script policy change i with Ok s => s | _ => [] end.
Definition nonce_pair (n : MuSig2Pubnonce) : list Z :=
  key_value 0x1B (n_participant_pk n ++ n_aggregate_pubkey n) (pubnonce n).

(** An input of 100000 of the account; 60000 go to a script, 39000 back to the account. *)
Definition text (nonces : list MuSig2Pubnonce) : list Z :=
  MAGIC ++
  key_value 0x02 [] [2; 0; 0; 0] ++ key_value 0x04 [] [1] ++ key_value 0x05 [] [2] ++ key_value 0xFB [] [2; 0; 0; 0] ++
  account_pair 0 (le_bytes 4 0) (0 :: serialize_policy policy) ++
  account_pair 1 (le_bytes 4 0) name ++
  account_pair 2 (le_bytes 4 0) (por_new (get_id policy name)) ++ [0] ++
  key_value 0x01 [] (le_bytes 8 100000 ++ bytes (script_at false 3)) ++
  key_value 0x0E [] (replicate 32 7) ++ key_value 0x0F [] [0; 0; 0; 0] ++ concat (map nonce_pair nonces) ++
  account_pair 0 [] (0 :: 0 :: serialize_coordinates {| is_change := false; address_index := 3 |}) ++ [0] ++
  key_value 0x03 [] (le_bytes 8 60000) ++ key_value 0x04 [] [81; 82] ++ [0] ++
  key_value 0x03 [] (le_bytes 8 39000) ++ key_value 0x04 [] (script_at true 4) ++
  account_pair 0 [] (0 :: 0 :: serialize_coordinates {| is_change := true; address_index := 4 |}) ++ [0].

(** The first call, with a user that approves. *)
Definition device : App :=
  {| slots := [be_bytes 32 11; zeros 32; zeros 32]; drawn := 0; shown := []; answers := [true; true; true] |}.
Definition result (r : outcome Error SignedInputs * App) : SignedInputs :=
  match fst r with Ok s => s | _ => {| signatures := []; musig_pubnonces := []; musig_partial_sigs := [] |} end.
Definition text1 : list Z := Eval vm_compute in text [].
Definition signed1 : SignedInputs := Eval vm_compute in result (handle_sign_psbt text1 device).
Definition device1 : App := Eval vm_compute in snd (handle_sign_psbt text1 device).
Lemma run1 : handle_sign_psbt text1 device = (Ok signed1, device1).
Proof. vm_compute. reflexivity. Qed.

(** The second call, with the nonces that the first gave. *)
Definition text2 : list Z := Eval vm_compute in text (musig_pubnonces signed1).
Definition signed2 : SignedInputs := Eval vm_compute in result (handle_sign_psbt text2 device1).
Definition device2 : App := Eval vm_compute in snd (handle_sign_psbt text2 device1).
Lemma run2 : handle_sign_psbt text2 device1 = (Ok signed2, device2).
Proof. vm_compute. reflexivity. Qed.
Example two_signatures : (length (musig_pubnonces signed1), length (musig_partial_sigs signed2)) = (2%nat, 2%nat).
Proof. reflexivity. Qed.
(** There is no second signature with the same nonces. *)
Example signed_once : fst (handle_sign_psbt text2 device2) = Err EMissingMusigSession.
Proof. vm_compute. reflexivity. Qed.
(** A user that refuses gets no nonces, and the storage is as it was. *)
Example refused :
  let '(o, app) := handle_sign_psbt text1 {| slots := slots device; drawn := 0; shown := []; answers := [false] |} in
  o = Err EUserRejected /\ slots app = slots device /\ drawn app = 0%nat.
Proof. by vm_compute. Qed.
End Demo.
