(* ===== verification/SignPsbtSpec.v ===== *)
(** * What a signature of the Bitcoin application stands for

    The analysis of a PSBT, on the fields that its maps describe, and the handler: a signature
    needs the approval of every screen, and the screens tell what the PSBT does. *)

From S2P Require Import Prelude Executor ExecutorSpec Text Bip388 WalletPolicy Musig Script Account Psbt PsbtSpec PsbtLookup PsbtAccount MusigSession MusigSessionSpec SignPsbt SignDemo.

(** ** The output that an input spends *)

Section fields.
Context `{SighashCrate}.
Implicit Types (f : InputFields) (p : Psbt).

Definition decode_witness_utxo (w : list Z) : option TxOut :=
  if (Z.of_nat (length w) <? 9) || (252 <? w !!! 8%nat) || negb (Z.of_nat (length w) =? 9 + w !!! 8%nat) then None
  else Some {| tx_value := le_value (take 8 w); script_pubkey := drop 9 w |}.
Definition witness_of f : option TxOut := w ← witness_utxo f; decode_witness_utxo w.
Definition previous_of f : option Transaction := w ← non_witness_utxo f; deserialize_tx w.
Definition spent_output f : option TxOut :=
  match witness_utxo f with
  | Some w => decode_witness_utxo w
  | None => tx ← previous_of f; v ← output_index f; tx_output tx !! Z.to_nat v
  end.

(** The caches hold what the fields describe; the PSBT changes in them only. *)
Definition cache_ok (i : Input) : Prop :=
  (forall o, cached_witness_utxo i = Some o -> witness_of (in_fields i) = Some o) /\
  (forall tx, cached_non_witness_utxo i = Some tx -> previous_of (in_fields i) = Some tx).
Definition caches p : Prop := Forall cache_ok (inputs p).
Definition same p p' : Prop := uncached p' = uncached p /\ caches p'.
Lemma same_trans p p1 p2 : same p p1 -> same p1 p2 -> same p p2.
Proof. intros [E1 _] [E2 C]. split; [congruence|done]. Qed.

Definition at_fields p index f : Prop := exists i, inputs p !! index = Some i /\ in_fields i = f.
Lemma same_input p p' index i : same p p' -> inputs p !! index = Some i ->
  exists i', inputs p' !! index = Some i' /\ uncached_input i' = uncached_input i.
Proof.
  intros [E _] Hi. apply (f_equal (fun q => inputs q !! index)) in E. cbn in E. rewrite !list_lookup_fmap, Hi in E.
  destruct (inputs p' !! index) as [i'|]; [|done]. cbn [fmap option_fmap option_map] in E. injection E as E.
  exists i'. split; [done|]. unfold uncached_input. congruence.
Qed.
Lemma same_fields p p' index f : same p p' -> at_fields p index f -> at_fields p' index f.
Proof.
  intros Hs (i & Hi & <-). destruct (same_input _ _ _ _ Hs Hi) as (i' & Hi' & E). exists i'. split; [done|].
  by apply (f_equal in_fields) in E.
Qed.

Lemma wp_at {F A} (g : PsbtError -> F) index (m : ST Input PsbtError A) p f (Q : A -> Psbt -> Prop) :
  caches p -> at_fields p index f ->
  (forall i, in_fields i = f -> cache_ok i -> wp Partial m i (fun a i' => uncached_input i' = uncached_input i /\
    cache_ok i' /\ forall p', same p p' -> Q a p')) ->
  wp Partial (map_err g (with_input index m)) p Q.
Proof.
  intros Hc (i & Hi & Hf) Hm. apply wp_map_err. specialize (Hm i Hf).
  assert (cache_ok i) as Hok by (eapply Forall_lookup_1; [exact Hc|exact Hi]). specialize (Hm Hok).
  unfold wp, with_input in *. rewrite Hi. destruct (m i) as [[a|e| |] i']; try done.
  destruct Hm as (Hu & Hok' & HQ). apply HQ. split.
  - unfold uncached. cbn. f_equal. rewrite list_fmap_insert, Hu. apply list_insert_id. by rewrite list_lookup_fmap, Hi.
  - by apply Forall_insert.
Qed.
Lemma wp_fields {F} (g : PsbtError -> F) index p f (Q : InputFields -> Psbt -> Prop) :
  caches p -> at_fields p index f -> (forall p', same p p' -> Q f p') ->
  wp Partial (map_err g (with_input index (gets in_fields))) p Q.
Proof. intros Hc Hf HQ. eapply wp_at; [done..|]. intros i <- Hok. by apply wp_gets. Qed.

Lemma wp_witness {F} (g : PsbtError -> F) index p f (Q : option TxOut -> Psbt -> Prop) :
  caches p -> at_fields p index f ->
  (forall o p', same p p' -> match o with Some o => is_Some (witness_utxo f) /\ witness_of f = Some o | None => witness_utxo f = None end ->
    Q o p') ->
  wp Partial (map_err g (with_input index get_witness_utxo)) p Q.
Proof.
  intros Hc Hf HQ. eapply wp_at; [done..|]. intros i <- [Hw Hn]. unfold get_witness_utxo. apply wp_bind, wp_gets.
  destruct (cached_witness_utxo i) as [o|] eqn:E.
  { apply wp_ret. split_and!; [done|by split; rewrite ?E|]. intros p' Hp. apply HQ; [done|]. specialize (Hw o eq_refl).
    split; [|done]. unfold witness_of in Hw. by destruct (witness_utxo (in_fields i)). }
  apply wp_bind, wp_gets. destruct (witness_utxo (in_fields i)) as [w|] eqn:Ew.
  2: { apply wp_ret. split_and!; [done|by split; rewrite ?E|]. intros p' Hp. by apply HQ. }
  destruct (_ || _) eqn:Eb; [by apply wp_fail|].
  assert (witness_of (in_fields i) = Some {| tx_value := le_value (take 8 w); script_pubkey := drop 9 w |}) as Hd
    by (unfold witness_of; rewrite Ew; cbn; unfold decode_witness_utxo; by rewrite Eb).
  apply orb_false_iff in Eb as [[H9 _]%orb_false_iff Hl]. apply Z.ltb_ge in H9. apply negb_false_iff, Z.eqb_eq in Hl.
  apply wp_bind. unfold range. rewrite (proj2 (Z.leb_le _ _)), (proj2 (Z.leb_le _ _)) by lia. cbn [andb].
  apply wp_lift, wp_bind, wp_modify, wp_gets. cbn [cached_witness_utxo].
  assert (slice (Z.to_nat 9) (Z.to_nat (9 + w !!! 8%nat - 9)) w = drop 9 w) as ->.
  { unfold slice. change (Z.to_nat 9) with 9%nat. apply take_ge. rewrite length_drop. lia. }
  split_and!; [done| |].
  - split; cbn; [|done]. by intros o [= <-].
  - intros p' Hp. apply HQ; [done|]. split; [by eexists|done].
Qed.
Lemma wp_previous {F} (g : PsbtError -> F) index p f (Q : option Transaction -> Psbt -> Prop) :
  caches p -> at_fields p index f ->
  (forall o p', same p p' -> match o with Some tx => is_Some (non_witness_utxo f) /\ previous_of f = Some tx | None => non_witness_utxo f = None end ->
    Q o p') ->
  wp Partial (map_err g (with_input index get_non_witness_utxo)) p Q.
Proof.
  intros Hc Hf HQ. eapply wp_at; [done..|]. intros i <- [Hw Hn]. unfold get_non_witness_utxo. apply wp_bind, wp_gets.
  destruct (cached_non_witness_utxo i) as [o|] eqn:E.
  { apply wp_ret. split_and!; [done|by split; rewrite ?E|]. intros p' Hp. apply HQ; [done|]. specialize (Hn o eq_refl).
    split; [|done]. unfold previous_of in Hn. by destruct (non_witness_utxo (in_fields i)). }
  apply wp_bind, wp_gets. destruct (non_witness_utxo (in_fields i)) as [w|] eqn:Ew.
  2: { apply wp_ret. split_and!; [done|by split; rewrite ?E|]. intros p' Hp. by apply HQ. }
  assert (previous_of (in_fields i) = deserialize_tx w) as Hd by (unfold previous_of; by rewrite Ew).
  apply wp_bind. destruct (deserialize_tx w) as [tx|]; [|done]. apply wp_lift, wp_bind, wp_modify, wp_gets.
  cbn [cached_non_witness_utxo]. split_and!; [done| |].
  - split; cbn; [done|]. by intros o [= <-].
  - intros p' Hp. apply HQ; [done|]. split; [by eexists|done].
Qed.
End fields.

(** Wrapping forgets the conversions to [i64]. *)
Lemma w64_as_i64_r a b : w64 (a + as_i64 b) = w64 (a + b) /\ w64 (a - as_i64 b) = w64 (a - b).
Proof.
  unfold as_i64, as_signed, wrap. destruct (_ <? _); [done|]. split.
  - replace (a + (b - 2 ^ 64)) with (a + b + (-1) * 2 ^ 64) by lia. by apply Z_mod_plus_full.
  - replace (a - (b - 2 ^ 64)) with (a - b + 1 * 2 ^ 64) by lia. by apply Z_mod_plus_full.
Qed.
Lemma w64_add_l a b : w64 (w64 a + b) = w64 (a + b).
Proof. unfold wrap. by rewrite Zplus_mod_idemp_l. Qed.
Lemma w64_as_i64_l a b : w64 (as_i64 (w64 a) + b) = w64 (a + b).
Proof. rewrite Z.add_comm, (proj1 (w64_as_i64_r _ _)), Z.add_comm. apply w64_add_l. Qed.

(** ** Amounts *)

(** What flows from the account [k], for a list of accounts with amounts. *)
Definition net (flows : list (Z * Z)) (k : nat) : Z :=
  foldr (fun '(id, v) acc => (if decide (Z.to_nat id = k) then v else 0) + acc) 0 flows.
Definition balances (n : nat) (flows : list (Z * Z)) : list Z :=
  map (fun k => as_i64 (w64 (net flows k))) (seq 0 n).
Lemma net_app l1 l2 k : net (l1 ++ l2) k = net l1 k + net l2 k.
Proof. induction l1 as [|[id v] l1 IH]; cbn [net foldr app] in *; [done|]. fold (net (l1 ++ l2) k) (net l1 k). lia. Qed.
Lemma balances_snoc n flows id v a b :
  balances n flows !! Z.to_nat id = Some a -> w64 b = w64 (a + v) ->
  <[Z.to_nat id := as_i64 (w64 b)]> (balances n flows) = balances n (flows ++ [(id, v)]).
Proof.
  intros Ha ->. apply list_eq. intros k. unfold balances in *. rewrite list_lookup_fmap in Ha |- *.
  destruct (decide (k = Z.to_nat id)) as [->|Hne].
  - rewrite list_lookup_insert_eq by (rewrite length_map, length_seq; apply fmap_Some in Ha as (x & Hx & _);
      by apply lookup_seq in Hx as [_ ?]). apply fmap_Some in Ha as (x & Hx & ->). rewrite Hx. cbn.
    apply lookup_seq in Hx as [-> _]. rewrite net_app. do 2 f_equal. rewrite w64_as_i64_l. cbn [net foldr].
    rewrite decide_True by lia. do 2 f_equal. lia.
  - rewrite list_lookup_insert_ne by done. rewrite list_lookup_fmap. destruct (seq 0 n !! k) as [x|] eqn:Hx; [|done].
    cbn. apply lookup_seq in Hx as [-> _]. rewrite net_app. do 3 f_equal. cbn [net foldr]. rewrite decide_False by lia. lia.
Qed.
Lemma balances_nil n : balances n [] = replicate n 0.
Proof. unfold balances. cbn. generalize 0%nat. induction n as [|n IH]; intros i; cbn; [done|]. by rewrite IH. Qed.
Lemma balances_add n flows id v a : balances n flows !! Z.to_nat id = Some a ->
  <[Z.to_nat id := i64_add a (as_i64 v)]> (balances n flows) = balances n (flows ++ [(id, v)]).
Proof. intros Ha. apply (balances_snoc _ _ _ _ _ _ Ha), w64_as_i64_r. Qed.
Lemma balances_sub n flows id v a : balances n flows !! Z.to_nat id = Some a ->
  <[Z.to_nat id := i64_sub a (as_i64 v)]> (balances n flows) = balances n (flows ++ [(id, - v)]).
Proof. intros Ha. apply (balances_snoc _ _ _ _ _ _ Ha), w64_as_i64_r. Qed.

(** What all accounts spend is what flows. *)
Lemma net_sum n flows : Forall (fun f => (Z.to_nat (fst f) < n)%nat) flows ->
  foldr Z.add 0 (map (net flows) (seq 0 n)) = foldr Z.add 0 (map snd flows).
Proof.
  intros Hf. induction Hf as [|[id v] flows Hid Hf IH].
  { cbn. generalize 0%nat. induction n as [|n IH]; intros i; cbn; [done|]. by rewrite IH. }
  cbn [map foldr snd]. rewrite <- IH. cbn [fst] in Hid. clear IH Hf.
  assert (forall m i, foldr Z.add 0 (map (net ((id, v) :: flows)) (seq i m)) =
    (if decide (i <= Z.to_nat id < i + m)%nat then v else 0) + foldr Z.add 0 (map (net flows) (seq i m))) as Hs.
  { induction m as [|m IH]; intros i; cbn [seq map foldr]; [rewrite decide_False by lia; lia|]. rewrite IH.
    cbn [net foldr]. fold (net flows i). repeat case_decide; lia. }
  rewrite Hs, decide_True by lia. lia.
Qed.
Lemma balances_sum n flows : Forall (fun f => (Z.to_nat (fst f) < n)%nat) flows ->
  w64 (foldr Z.add 0 (balances n flows)) = w64 (foldr Z.add 0 (map snd flows)).
Proof.
  intros Hf. rewrite <- (net_sum n) by done. unfold balances. clear Hf. induction (seq 0 n) as [|k l IH]; cbn [map foldr]; [done|].
  rewrite w64_as_i64_l. rewrite Z.add_comm, <- w64_add_l, IH, w64_add_l. f_equal. lia.
Qed.

(** ** The loop over inputs *)

Lemma wp_lift_ok {S E A} (o : outcome E A) (s : S) (Q : A -> S -> Prop) :
  (forall a, o = Ok a -> Q a s) -> wp Partial (lift o) s Q.
Proof. unfold wp, lift. destruct o; auto. Qed.

Section analysis.
Context `{BitcoinCrate, SighashCrate, !SigningCrate, !XpubCrate, HexCrate, AccountCrate, Curve, TaggedHash, ScriptCrate,
  SigningSdk, TaprootCrate}.

(** The scripts of an input are those that the spent output commits to. *)
Definition scripts_ok (f : InputFields) (o : TxOut) : Prop :=
  let script := default (script_pubkey o) (redeem_script f) in
  (forall redeem, redeem_script f = Some redeem -> script_pubkey o = to_p2sh redeem) /\
  (is_Some (witness_utxo f) -> is_p2wsh script = true ->
   exists witness, witness_script f = Some witness /\ script = to_p2wsh witness).
(** The previous transaction is there, and is the one that the input names. *)
Definition previous_ok (f : InputFields) : Prop :=
  exists tx, previous_of f = Some tx /\ previous_txid f = Some (compute_txid tx).
(** The kind of the account decides which of the two outputs are there. *)
Definition utxo_ok (v : SegwitVersion) (warned : bool) (f : InputFields) : Prop :=
  match v with
  | SegwitTaproot => is_Some (witness_utxo f)
  | SegwitV0 => is_Some (witness_utxo f) /\ (previous_ok f \/ warned = true)
  | SegwitLegacy => witness_utxo f = None /\ previous_ok f
  end.
Definition input_ok (accs : list WalletPolicy) (warned : bool) (f : InputFields) (c : Z * WalletPolicyCoordinates)
    (o : TxOut) : Prop :=
  exists policy v, accs !! Z.to_nat (fst c) = Some policy /\ get_segwit_version policy = Ok v /\
    spent_output f = Some o /\ scripts_ok f o /\ utxo_ok v warned f.
Lemma input_ok_mono accs w w' f c o : (w = true -> w' = true) -> input_ok accs w f c o -> input_ok accs w' f c o.
Proof.
  intros Hw (policy & v & Hp & Hv & Ho & Hs & Hu). exists policy, v. split_and!; try done.
  destruct v; cbn in *; intuition.
Qed.

Definition check_of (is_in : bool) (c : Z * WalletPolicyCoordinates) (script : list Z) : ScriptCheck :=
  {| account_id := fst c; check_is_change := is_change (snd c); check_address_index := address_index (snd c);
     expected_script := script; is_input := is_in |}.
(** The totals for what was seen so far. *)
Definition totals (n : nat) (flows : list (Z * Z)) (exts : list (nat * option (list Z))) (paid received : Z) (w : bool)
    (ck : list ScriptCheck) : Totals :=
  {| spent := balances n flows; ext_indexes := map fst exts; ext_names := map snd exts; in_total := w64 paid;
     out_total := w64 received; warn := w; checks := ck |}.

Lemma tx_out_spec index p f (Q : TxOut -> Psbt -> Prop) : caches p -> at_fields p index f ->
  (forall o p', same p p' -> spent_output f = Some o -> scripts_ok f o -> Q o p') -> wp Partial (analyzed_tx_out index) p Q.
Proof.
  intros Hc Hf HQ. unfold analyzed_tx_out. apply wp_bind, (wp_fields _ _ _ _ _ Hc Hf). intros p1 S1.
  apply wp_bind, (wp_witness _ _ _ f); [apply S1|by eauto using same_fields|]. intros o p2 S2 Ho.
  assert (same p p2) as S by (by eauto using same_trans). destruct o as [o|].
  - destruct Ho as [Hw Hof]. assert (spent_output f = Some o) as Hsp.
    { unfold spent_output. unfold witness_of in Hof. by destruct (witness_utxo f). }
    assert (forall redeem, redeem_script f = Some redeem -> bool_decide (script_pubkey o = to_p2sh redeem) = true ->
      forall r, redeem_script f = Some r -> script_pubkey o = to_p2sh r) as Hred
      by (intros redeem E1 E2%bool_decide_eq_true r E3; congruence).
    apply wp_bind, wp_lift_ok. intros script Hs.
    assert (script = default (script_pubkey o) (redeem_script f) /\
      forall r, redeem_script f = Some r -> script_pubkey o = to_p2sh r) as [-> Hr].
    { destruct (redeem_script f) as [rs|]; [|by injection Hs as <-].
      destruct (bool_decide (script_pubkey o = to_p2sh rs)) eqn:E; cbn in Hs; [|done]. injection Hs as <-. eauto. }
    apply wp_bind. destruct (is_p2wsh _) eqn:Ew.
    + destruct (witness_script f) as [ws|] eqn:Ews; [|by apply wp_fail]. apply wp_lift_ok. intros [] Hg.
      case_bool_decide as E; [|done]. apply wp_ret, HQ; try done. split; [done|]. intros _ _. by exists ws.
    + apply wp_ret, wp_ret, HQ; try done. split; [done|]. intros _ E. cbv zeta in E. congruence.
  - apply wp_bind, (wp_previous _ _ _ f); [apply S|by eauto using same_fields|]. intros tx p3 S3 Ht.
    assert (same p p3) as S' by (by eauto using same_trans). destruct tx as [tx|]; [|by apply wp_fail].
    destruct Ht as [_ Ht]. apply wp_bind, wp_lift_ok. intros v Hv. destruct (output_index f) as [v'|] eqn:Ev; [|done].
    injection Hv as ->. apply wp_bind.
    assert (forall x, tx_output tx !! Z.to_nat v = Some x -> spent_output f = Some x) as Hsp.
    { intros x Hx. unfold spent_output. rewrite Ho, Ht. cbn. by rewrite Ev. }
    assert (forall x, tx_output tx !! Z.to_nat v = Some x ->
      (forall r, redeem_script f = Some r -> script_pubkey x = to_p2sh r) ->
      wp Partial (lift (unwrap (tx_output tx !! Z.to_nat v)) : ST Psbt Error TxOut) p3 Q) as Hend.
    { intros x Hx Hr. rewrite Hx. apply wp_lift, HQ; [done|by apply Hsp|]. split; [done|]. rewrite Ho. by intros [? ?]. }
    destruct (redeem_script f) as [rs|].
    + apply wp_bind, wp_lift_ok. intros x Hx. destruct (tx_output tx !! Z.to_nat v) as [x'|] eqn:Ex; [|done].
      injection Hx as ->. apply wp_lift_ok. intros [] Hg. case_bool_decide as E; [|done]. eapply Hend; [done|].
      by intros r [= <-].
    + apply wp_ret. destruct (tx_output tx !! Z.to_nat v) as [x|] eqn:Ex; [|by apply wp_partial]. by eapply Hend.
Qed.

Lemma input_spec accs index f flows exts paid received w ck c p (Q : Totals -> Psbt -> Prop) :
  caches p -> at_fields p index f ->
  (forall o w' p', same p p' -> (w = true -> w' = true) -> input_ok accs w' f c o ->
    Q (totals (length accs) (flows ++ [(fst c, tx_value o)]) exts (paid + tx_value o) received w'
         (ck ++ [check_of true c (script_pubkey o)])) p') ->
  wp Partial (analyze_input accs index c (totals (length accs) flows exts paid received w ck)) p Q.
Proof.
  intros Hc Hf HQ. unfold analyze_input. destruct c as [id coords]. apply wp_bind.
  destruct (_ <=? _); [by apply wp_fail|]. apply wp_ret, wp_bind, wp_lift_ok. intros policy Hp.
  apply wp_bind, wp_lift_ok. intros v Hv%outcome_map_err_Ok. apply wp_bind, (wp_fields _ _ _ _ _ Hc Hf). intros p1 S1.
  apply wp_bind. destruct (is_legacy v && _) eqn:El; [by apply wp_fail|]. apply wp_ret, wp_bind.
  apply wp_mono with (Q := fun warned p' => same p p' /\
    (match v with SegwitTaproot => True | SegwitV0 => previous_ok f \/ warned = true | SegwitLegacy => previous_ok f end)).
  { assert (at_fields p1 index f) as Hf1 by eauto using same_fields.
    destruct v; [|..]; try (apply wp_ret; by split); (eapply wp_bind, wp_previous; [apply S1|exact Hf1|]);
      intros [tx|] p2 S2 Ht; try (by apply wp_fail); try (apply wp_ret; split; [by eauto using same_trans|by right]);
      (destruct (bool_decide (previous_txid f = _)) eqn:E; cbn [negb]; [|by apply wp_fail]);
      apply bool_decide_eq_true in E; apply wp_ret; (split; [by eauto using same_trans|]).
    - exists tx. by split; [apply Ht|].
    - left. exists tx. by split; [apply Ht|]. }
  intros warned p2 [S2 Hw]. apply wp_bind. destruct (is_segwit v && _) eqn:Es; [by apply wp_fail|]. apply wp_ret, wp_bind.
  apply (tx_out_spec _ _ f); [apply S2|by eauto using same_fields|]. intros o p3 S3 Ho Hs.
  apply wp_bind, wp_lift_ok. intros a Ha. apply wp_ret. cbn [spent totals] in Ha.
  destruct (balances _ _ !! _) as [a'|] eqn:Ea; [|done]. injection Ha as ->.
  assert (input_ok accs (warned || w) f (id, coords) o) as Hok.
  { exists policy, v. cbn [fst]. split_and!; try done.
    - by destruct (accs !! Z.to_nat id); [injection Hp as ->|].
    - destruct v; cbn in El, Es, Hw |- *.
      + apply bool_decide_eq_false in El. split; [|done]. by apply eq_None_not_Some.
      + apply negb_false_iff, bool_decide_eq_true in Es. split; [done|]. destruct Hw as [? | ->]; [by left|by right].
      + by apply negb_false_iff, bool_decide_eq_true in Es. }
  specialize (HQ o (warned || w) p3 ltac:(eauto using same_trans) ltac:(intros ->; apply orb_true_r) Hok).
  unfold totals, check_of in *. cbn [fst snd spent ext_indexes ext_names in_total out_total warn checks] in *.
  rewrite (balances_add _ _ _ _ _ Ea), w64_add_l. exact HQ.
Qed.

(** The inputs from [index] on, with the outputs that they spend. *)
Definition inputs_ok (accs : list WalletPolicy) (w : bool) (p : Psbt) (index : nat) (cs : list (Z * WalletPolicyCoordinates))
    (os : list TxOut) : Prop :=
  length os = length cs /\
  forall j c o, cs !! j = Some c -> os !! j = Some o -> exists f, at_fields p (index + j) f /\ input_ok accs w f c o.
Definition sum (l : list Z) : Z := foldr Z.add 0 l.
Lemma inputs_spec accs exts received cs : forall index flows paid w ck p (Q : Totals -> Psbt -> Prop),
  caches p -> (index + length cs <= length (inputs p))%nat ->
  (forall os w' p', same p p' -> (w = true -> w' = true) -> inputs_ok accs w' p index cs os ->
    Q (totals (length accs) (flows ++ zip_with (fun c o => (fst c, tx_value o)) cs os) exts (paid + sum (map tx_value os))
         received w' (ck ++ zip_with (fun c o => check_of true c (script_pubkey o)) cs os)) p') ->
  wp Partial (analyze_inputs accs index cs (totals (length accs) flows exts paid received w ck)) p Q.
Proof.
  induction cs as [|c cs IH]; intros index flows paid w ck p Q Hc Hl HQ; cbn [analyze_inputs].
  - apply wp_ret. specialize (HQ [] w p). cbn in HQ. rewrite !app_nil_r, Z.add_0_r in HQ. apply HQ; [by split|done|].
    split; [done|]. by intros j c o [=].
  - cbn [length] in Hl. destruct (lookup_lt_is_Some_2 (inputs p) index) as [i Hi]; [lia|].
    assert (at_fields p index (in_fields i)) as Hf by by exists i.
    apply wp_bind, (input_spec _ _ _ _ _ _ _ _ _ _ _ _ Hc Hf). intros o w1 p1 S1 Hw1 Hok.
    apply IH; [apply S1|rewrite (uncached_length p p1) by apply S1; lia|].
    intros os w2 p2 S2 Hw2 [Hlen Hos]. specialize (HQ (o :: os) w2 p2). cbn [zip_with map sum foldr] in HQ.
    rewrite <- !app_assoc, <- Z.add_assoc. apply HQ; [by eauto using same_trans|auto|]. split; [by cbn; lia|].
    intros [|j] c' o' Hcj Hoj; cbn in Hcj, Hoj.
    + simplify_eq. exists (in_fields i). rewrite Nat.add_0_r. split; [done|]. by eapply input_ok_mono.
    + destruct (Hos j c' o' Hcj Hoj) as (f & Hfj & Hfok). exists f. split; [|done].
      replace (index + S j)%nat with (S index + j)%nat by lia. destruct S1 as [E _].
      destruct Hfj as (i' & Hi' & <-). apply (f_equal (fun q => inputs q !! (S index + j)%nat)) in E. cbn -[Nat.add] in E.
      rewrite !list_lookup_fmap, Hi' in E. destruct (inputs p !! (S index + j)%nat) as [i2|] eqn:E2; [|done].
      injection E as _ E. by exists i2.
Qed.

(** ** The loop over outputs *)

(** A name that is shown is registered, and its key signed the script. *)
Definition identity_shown (entries : list ProprietaryEntry) (o : Output) (script name : list Z) : Prop :=
  exists keys rik proofs proof msg,
    get_registered_identity_keys entries = Ok keys /\ rik ∈ keys /\ rik_name rik = name /\
    rik_por rik = por_new (identity_get_id (rik_pubkey rik) name) /\
    get_auth_proofs (iter_proprietary (out_map o)) = Ok proofs /\ proof ∈ proofs /\ proof_pubkey proof = rik_pubkey rik /\
    build_identity_message MSG_TYPE_OUTPUT script = Ok msg /\ schnorr_verify (rik_pubkey rik) msg (proof_sig proof) = true.

Lemma identities_spec l ids pk name : check_identities l = Ok ids -> (pk, name) ∈ ids ->
  exists rik, rik ∈ l /\ rik_pubkey rik = pk /\ rik_name rik = name /\
    rik_por rik = por_new (identity_get_id (rik_pubkey rik) name).
Proof.
  revert ids; induction l as [|rik l IH]; cbn [check_identities]; intros ids Hl Hin.
  { injection Hl as <-. by apply not_elem_of_nil in Hin. }
  parts Hl. injection Hl as <-. unfold identity_key_new in E. parts E. injection E as <-.
  apply elem_of_cons in Hin as [[= -> ->]|Hin].
  - exists rik. split_and!; [by left|done..|]. apply negb_false_iff, bool_decide_eq_true in E0. done.
  - destruct (IH _ E1 Hin) as (rik' & ? & ?). exists rik'. split; [by right|done].
Qed.
Lemma proofs_spec ids sc name0 proofs name : check_proofs ids sc name0 proofs = Ok (Some name) ->
  name0 = Some name \/ exists proof msg, proof ∈ proofs /\ (proof_pubkey proof, name) ∈ ids /\
    build_identity_message MSG_TYPE_OUTPUT sc = Ok msg /\ schnorr_verify (proof_pubkey proof) msg (proof_sig proof) = true.
Proof.
  revert name0; induction proofs as [|proof proofs IH]; intros name0; cbn [check_proofs]; intros Hp.
  { injection Hp as ->. by left. }
  parts Hp. destruct (IH _ Hp) as [Hn|(proof' & msg & Hin & ?)].
  - destruct name0 as [n|]; [by left|right]. destruct (List.find _ ids) as [[pk n]|] eqn:F; [|done]. injection Hn as ->.
    apply find_some in F as [Fin Fp%bool_decide_eq_true]. subst pk. exists proof, v0. apply negb_false_iff in E1.
    split_and!; [by left| |done..]. by apply list_elem_of_In.
  - right. exists proof', msg. split; [by right|done].
Qed.

Definition out_flow (o : Output) : option (Z * Z) :=
  match output_account_coordinates o, amount (out_fields o) with Ok (Some (id, _)), Some a => Some (id, - a) | _, _ => None end.
Definition out_amount (o : Output) : Z := default 0 (amount (out_fields o)).
(** An output is either checked or shown. *)
Definition output_ok (entries : list ProprietaryEntry) (exts : list (nat * option (list Z))) (ck : list ScriptCheck)
    (k : nat) (o : Output) : Prop :=
  exists a sc, amount (out_fields o) = Some a /\ script (out_fields o) = Some sc /\
  match output_account_coordinates o with
  | Ok (Some c) => check_of false c sc ∈ ck
  | Ok None => exists name, (k, name) ∈ exts /\
      match name with Some name => identity_shown entries o sc name | None => True end
  | _ => False
  end.
Definition within (n : nat) (f : Z * Z) : Prop := (Z.to_nat (fst f) < n)%nat.

Lemma output_spec entries accs keys ids index o c flows exts paid received w ck t :
  get_registered_identity_keys entries = Ok keys -> check_identities keys = Ok ids ->
  output_account_coordinates o = Ok c ->
  analyze_output accs ids index o c (totals (length accs) flows exts paid received w ck) = Ok t ->
  exists exts' ck', t = totals (length accs) (flows ++ option_list (out_flow o)) (exts ++ exts') paid
      (received + out_amount o) w (ck ++ ck') /\
    output_ok entries exts' ck' index o /\ Forall (within (length accs)) (option_list (out_flow o)).
Proof.
  intros Hk Hi Hc Ht. unfold analyze_output in Ht. parts Ht. unfold output_ok, out_flow, out_amount. rewrite E, Hc.
  destruct c as [[id coords]|]; parts Ht; injection Ht as <-; cbn [option_list default].
  - exists [], [check_of false (id, coords) v1]. unfold totals in E2. cbn [spent] in E2. split_and!.
    + unfold totals, check_of. cbn [fst snd spent ext_indexes ext_names in_total out_total warn checks].
      by rewrite app_nil_r, w64_add_l, (balances_sub _ _ _ _ _ E2).
    + exists v, v1. split_and!; [done..|]. by left.
    + constructor; [|done]. apply lookup_lt_Some in E2. unfold balances in E2. by rewrite length_map, length_seq in E2.
  - exists [(index, v2)], []. split_and!; [| |done].
    + unfold totals. cbn [spent ext_indexes ext_names in_total out_total warn checks].
      by rewrite !app_nil_r, w64_add_l, !map_app.
    + exists v, v1. split_and!; [done..|]. exists v2. split; [by left|]. destruct v2 as [name|]; [|done].
      apply proofs_spec in E2 as [[=]|(proof & msg & Hin & Hid & Hm & Hs)].
      destruct (identities_spec _ _ _ _ Hi Hid) as (rik & Hrik & Hpk & Hn & Hpor).
      exists keys, rik, v0, proof, msg. split_and!; try done. by rewrite Hpk.
Qed.
Lemma output_ok_mono entries exts exts' ck ck' k o : exts ⊆ exts' -> ck ⊆ ck' ->
  output_ok entries exts ck k o -> output_ok entries exts' ck' k o.
Proof.
  intros He Hc (a & sc & ? & ? & Ho). exists a, sc. split_and!; try done.
  destruct (output_account_coordinates o) as [[c|]| | |]; try done; [by apply Hc|].
  destruct Ho as (name & ? & ?). exists name. split; [by apply He|done].
Qed.
Lemma outputs_spec entries accs keys ids os cs :
  get_registered_identity_keys entries = Ok keys -> check_identities keys = Ok ids ->
  Forall2 (fun o c => output_account_coordinates o = Ok c) os cs ->
  forall index flows exts paid received w ck t,
  analyze_outputs accs ids index os cs (totals (length accs) flows exts paid received w ck) = Ok t ->
  exists exts' ck', t = totals (length accs) (flows ++ omap out_flow os) (exts ++ exts') paid
      (received + sum (map out_amount os)) w (ck ++ ck') /\
    (forall j o, os !! j = Some o -> output_ok entries exts' ck' (index + j) o) /\
    Forall (within (length accs)) (omap out_flow os).
Proof.
  intros Hk Hi. induction 1 as [|o c os cs Hc Hcs IH]; intros index flows exts paid received w ck t; cbn [analyze_outputs].
  - intros [= <-]. exists [], []. cbn. by rewrite !app_nil_r, Z.add_0_r.
  - intros Ht. parts Ht. destruct (output_spec _ _ _ _ _ _ _ _ _ _ _ _ _ _ Hk Hi Hc E) as (e1 & c1 & -> & Ho & Hw).
    destruct (IH _ _ _ _ _ _ _ _ Ht) as (e2 & c2 & -> & Hos & Hws). exists (e1 ++ e2), (c1 ++ c2). split_and!.
    + cbn [map sum foldr]. fold (sum (map out_amount os)). rewrite <- !app_assoc, Z.add_assoc. do 2 f_equal.
      cbn [omap list_omap]. by destruct (out_flow o).
    + intros [|j] o' Hj; cbn in Hj.
      * simplify_eq. rewrite Nat.add_0_r. eapply output_ok_mono; [..|exact Ho]; set_solver.
      * replace (index + S j)%nat with (S index + j)%nat by lia. eapply output_ok_mono; [..|by apply Hos]; set_solver.
    + cbn [omap list_omap]. destruct (out_flow o); [|done]. constructor; [|done]. by inversion Hw.
Qed.

(** ** The whole analysis *)

Lemma inputs_coordinates l cs : coordinates_of_inputs l = Ok cs ->
  Forall2 (fun i c => input_account_coordinates i = Ok (Some c)) l cs.
Proof.
  revert cs; induction l as [|i l IH]; cbn [coordinates_of_inputs]; intros cs Hl; [injection Hl as <-; constructor|].
  parts Hl. injection Hl as <-. constructor; [by rewrite <- E0|by apply IH].
Qed.
Lemma outputs_coordinates l cs : coordinates_of_outputs l = Ok cs ->
  Forall2 (fun o c => output_account_coordinates o = Ok c) l cs.
Proof.
  revert cs; induction l as [|i l IH]; cbn [coordinates_of_outputs]; intros cs Hl; [injection Hl as <-; constructor|].
  parts Hl. injection Hl as <-. constructor; [done|by apply IH].
Qed.
Lemma names_and_proofs entries n id names proofs : read_names_and_proofs entries n id = Ok (names, proofs) ->
  forall k, (k < n)%nat -> exists name por, names !! k = Some name /\ proofs !! k = Some por /\
    get_account_name entries (id + Z.of_nat k) = Ok name /\
    get_account_proof_of_registration entries (id + Z.of_nat k) = Ok (Some por).
Proof.
  revert id names proofs; induction n as [|n IH]; cbn [read_names_and_proofs]; intros id names proofs Hr k Hk; [lia|].
  parts Hr. injection Hr as <- <-. destruct k as [|k].
  - exists v, v1. cbn. rewrite Z.add_0_r. split_and!; try done. by rewrite <- E1.
  - destruct (IH _ _ _ E3 k ltac:(lia)) as (name & por & ? & ? & Hn & Hp). exists name, por.
    replace (id + Z.of_nat (S k)) with (id + 1 + Z.of_nat k) by lia. done.
Qed.

Lemma accounts_verified accs names proofs k policy name por : verify_accounts accs names proofs = Ok tt ->
  accs !! k = Some policy -> names !! k = Some name -> proofs !! k = Some por ->
  por = por_new (get_id policy (default [] name)).
Proof.
  revert names proofs k; induction accs as [|a accs IH]; intros [|n names] [|pr proofs] k; cbn [verify_accounts]; try done.
  intros Hv. parts Hv. destruct k as [|k]; cbn; [|by eauto].
  apply negb_false_iff, bool_decide_eq_true in E. by intros [= ->] [= ->] [= ->].
Qed.
Definition script_ok (accs : list WalletPolicy) (c : Z * WalletPolicyCoordinates) (script : list Z) : Prop :=
  exists policy, accs !! Z.to_nat (fst c) = Some policy /\
    policy_to_script policy (is_change (snd c)) (address_index (snd c)) = Ok script.
Lemma scripts_verified accs ck b c script : verify_scripts accs ck = Ok tt -> check_of b c script ∈ ck ->
  script_ok accs c script.
Proof.
  intros Hv Hin. induction ck as [|x ck IH]; cbn [verify_scripts] in Hv; [by apply not_elem_of_nil in Hin|].
  parts Hv. apply elem_of_cons in Hin as [<-|Hin]; [|by apply IH].
  apply negb_false_iff, bool_decide_eq_true in E1. cbn in *. subst v0. by exists v.
Qed.

(** What a summary says of the PSBT. *)
Definition in_flow (i : Input) : option (Z * Z) :=
  match input_account_coordinates i, spent_output (in_fields i) with
  | Ok (Some (id, _)), Some o => Some (id, tx_value o)
  | _, _ => None
  end.
Definition in_amount (i : Input) : Z := match spent_output (in_fields i) with Some o => tx_value o | None => 0 end.
Definition flows (p : Psbt) : list (Z * Z) := omap in_flow (inputs p) ++ omap out_flow (outputs p).
Definition paid (p : Psbt) : Z := sum (map in_amount (inputs p)).
Definition received (p : Psbt) : Z := sum (map out_amount (outputs p)).

Record analyzed (p : Psbt) (s : TransactionSummary) (proofs : list (list Z)) (ck : list ScriptCheck) : Prop := {
  an_accounts : get_accounts (iter_proprietary (global_map p)) = Ok (accounts s);
  an_names : forall k, (k < length (accounts s))%nat -> exists name por,
    account_names s !! k = Some name /\ proofs !! k = Some por /\
    get_account_name (iter_proprietary (global_map p)) (Z.of_nat k) = Ok name /\
    get_account_proof_of_registration (iter_proprietary (global_map p)) (Z.of_nat k) = Ok (Some por);
  an_inputs : forall i inp, inputs p !! i = Some inp -> exists c o,
    input_account_coordinates inp = Ok (Some c) /\ check_of true c (script_pubkey o) ∈ ck /\
    input_ok (accounts s) (warn_unverified_inputs s) (in_fields inp) c o;
  an_outputs : exists exts, external_outputs_indexes s = map fst exts /\ external_output_auth_names s = map snd exts /\
    forall k out, outputs p !! k = Some out -> output_ok (iter_proprietary (global_map p)) exts ck k out;
  an_spent : account_spent_amounts s = balances (length (accounts s)) (flows p);
  an_within : Forall (within (length (accounts s))) (flows p);
  an_paid : inputs_total_amount s = w64 (paid p);
  an_received : outputs_total_amount s = w64 (received p);
  an_enough : outputs_total_amount s <= inputs_total_amount s;
}.

(** The flows of the inputs, from the outputs that they spend. *)
Lemma input_flows accs w p cs os :
  Forall2 (fun i c => input_account_coordinates i = Ok (Some c)) (inputs p) cs -> inputs_ok accs w p 0 cs os ->
  zip_with (fun c o => (fst c, tx_value o)) cs os = omap in_flow (inputs p) /\
  map tx_value os = map in_amount (inputs p) /\ Forall (within (length accs)) (omap in_flow (inputs p)).
Proof.
  unfold inputs_ok, at_fields. intros Hc [Hlen Hos]. cbn [Nat.add] in Hos.
  revert os Hlen Hos; induction Hc as [|i c ins cs Hi Hcs IH]; intros os Hlen Hos.
  { by destruct os. }
  destruct os as [|o os]; [done|]. cbn [length] in Hlen.
  destruct (Hos 0%nat c o eq_refl eq_refl) as (f & (i' & [= <-] & <-) & (policy & v & Hp & _ & Ho & _)).
  destruct (IH os ltac:(lia)) as (E1 & E2 & E3).
  { intros j c' o' Hj Hj'. destruct (Hos (S j) c' o' Hj Hj') as (f & (i' & Hi' & <-) & Hok). eauto. }
  cbn [zip_with omap list_omap map]. destruct c as [id c]. assert (in_flow i = Some (id, tx_value o)) as Ef
    by (unfold in_flow; by rewrite Hi, Ho). assert (in_amount i = tx_value o) as Ea by (unfold in_amount; by rewrite Ho).
  rewrite Ef, Ea, E1, E2. split_and!; [done..|]. constructor; [|done]. by eapply lookup_lt_Some.
Qed.

Lemma analysis_spec p : caches p ->
  wp Partial analyze_transaction p (fun r p' => same p p' /\ let '(s, proofs, ck) := r in analyzed p s proofs ck).
Proof.
  intros Hc. unfold analyze_transaction. apply wp_bind, wp_get. set (entries := iter_proprietary _).
  apply wp_bind, wp_lift_ok. intros accs Ha%outcome_map_err_Ok. apply wp_bind, wp_lift_ok. intros [names proofs] Hn.
  apply wp_bind, wp_lift_ok. intros keys Hk%outcome_map_err_Ok. apply wp_bind, wp_lift_ok. intros ids Hi.
  apply wp_bind, wp_lift_ok. intros cs Hcs%inputs_coordinates. apply wp_bind.
  match goal with |- context [analyze_inputs _ _ _ ?t] =>
    replace t with (totals (length accs) [] [] 0 0 false []) by (unfold totals; by rewrite balances_nil) end.
  pose proof (Forall2_length _ _ _ Hcs) as Hl.
  apply inputs_spec; [done|cbn; lia|]. intros os w p' Hs _ Hok. cbn [app Z.add].
  apply wp_bind, wp_lift_ok. intros ocs Hocs%outputs_coordinates. apply wp_bind, wp_lift_ok. intros t Ht.
  destruct (outputs_spec _ _ _ _ _ _ Hk Hi Hocs _ _ _ _ _ _ _ _ Ht) as (exts & ck & -> & Ho & Hw).
  destruct (input_flows _ _ _ _ _ Hcs Hok) as (E1 & E2 & E3). apply wp_bind.
  match goal with |- context [if ?b then _ else _] => destruct b eqn:He end; [by apply wp_fail|]. apply Z.ltb_ge in He.
  apply wp_ret, wp_ret. split; [done|]. unfold totals in He |- *. cbn [in_total out_total] in He.
  rewrite E1, E2 in *. destruct Hok as [Hlen Hok]. cbn [spent ext_indexes ext_names in_total out_total warn checks app].
  split; cbn; try done.
  - intros k Hk'. by apply (names_and_proofs _ _ _ _ _ Hn).
  - intros i inp Hinp. destruct (Forall2_lookup_l _ _ _ _ _ Hcs Hinp) as (c & Hci & Hic).
    destruct (lookup_lt_is_Some_2 os i) as [o Hoi]; [apply lookup_lt_Some in Hci; lia|].
    destruct (Hok i c o Hci Hoi) as (f & (i' & Hi' & <-) & Hfok).
    cbn [Nat.add] in Hi'. simplify_eq. exists c, o. split_and!; try done.
    apply elem_of_app. left. apply (list_elem_of_lookup_2 _ i). apply lookup_zip_with_Some. by exists c, o.
  - exists exts. split_and!; try done. intros k out Hout. eapply output_ok_mono; [..|by apply (Ho k)]; set_solver.
  - by apply Forall_app.
Qed.

(** ** The review *)

(** Two lines that follow each other. *)
Definition lines_in (a b : TagValue) (pairs : list TagValue) : Prop := exists pre post, pairs = pre ++ [a; b] ++ post.
Lemma lines_here a b l : lines_in a b ([a; b] ++ l).
Proof. by exists [], l. Qed.
Lemma lines_app a b l1 l2 : lines_in a b l1 \/ lines_in a b l2 -> lines_in a b (l1 ++ l2).
Proof.
  intros [(pre & post & ->)|(pre & post & ->)].
  - exists pre, (post ++ l2). by rewrite <- !app_assoc.
  - exists (l1 ++ pre), post. by rewrite <- !app_assoc.
Qed.

(** The line of an account that spends, or receives. *)
Definition account_line (name : option (list Z)) (a : Z) (pairs : list TagValue) : Prop :=
  if 0 <=? a then
    lines_in (line (lit "Spend from") (account_description name))
      (line (lit "Amount") (if 0 <? a then format_amount a COIN_TICKER else lit "0 (self-transfer)")) pairs
  else
    lines_in (line (lit "Send to") (account_description name)) (line (lit "Amount") (format_amount (w64 (- a)) COIN_TICKER)) pairs.
Lemma spend_shown names spent l k a : spend_lines names spent = Ok l -> spent !! k = Some a ->
  exists name, names !! k = Some name /\ (0 <= a -> account_line name a l).
Proof.
  revert names l k; induction spent as [|x spent IH]; intros names l k; [done|]. cbn [spend_lines]. intros Hl Hk. parts Hl.
  injection Hl as <-. destruct names as [|name names]; [done|]. injection E as ->. destruct k as [|k]; cbn in Hk.
  - injection Hk as ->. exists v. split; [done|]. intros Ha. unfold account_line. rewrite (proj2 (Z.leb_le _ _)) by done.
    apply lines_here.
  - destruct (IH _ _ _ E0 Hk) as (n & ? & Hn). exists n. split; [done|]. intros Ha. specialize (Hn Ha).
    unfold account_line in *. destruct (0 <=? a); apply lines_app; by right.
Qed.
Lemma receive_shown names spent l k a : receive_lines names spent = Ok l -> spent !! k = Some a ->
  exists name, names !! k = Some name /\ (a < 0 -> account_line name a l).
Proof.
  revert names l k; induction spent as [|x spent IH]; intros names l k; [done|]. cbn [receive_lines]. intros Hl Hk. parts Hl.
  injection Hl as <-. destruct names as [|name names]; [done|]. injection E as ->. destruct k as [|k]; cbn in Hk.
  - injection Hk as ->. exists v. split; [done|]. intros Ha. unfold account_line. rewrite (proj2 (Z.leb_gt _ _)) by done.
    rewrite (proj2 (Z.ltb_lt _ _)) by done. apply lines_here.
  - destruct (IH _ _ _ E0 Hk) as (n & ? & Hn). exists n. split; [done|]. intros Ha. specialize (Hn Ha).
    unfold account_line in *. destruct (0 <=? a); apply lines_app; by right.
Qed.
(** The lines of an external output, with the name of an identity or without. *)
Definition output_line (k : nat) (script : list Z) (a : Z) (name : option (list Z)) (pairs : list TagValue) : Prop :=
  exists address, address_text script = Some address /\
    lines_in
      (line (lit "Output " ++ decimal (Z.of_nat k))
         match name with
         | Some name => name ++ (if has_page_api then [10; 10] else lit ":") ++ address
         | None => address
         end)
      (line (lit "Amount") (format_amount a COIN_TICKER)) pairs.
Lemma external_shown p exts l k name o sc a : external_lines p (map fst exts) (map snd exts) = Ok l ->
  (k, name) ∈ exts -> outputs p !! k = Some o -> script (out_fields o) = Some sc -> amount (out_fields o) = Some a ->
  output_line k sc a name l.
Proof.
  intros Hl Hin Ho Hs Ha. revert l Hl; induction exts as [|[k' name'] exts IH]; cbn [map fst snd external_lines]; intros l Hl.
  { by apply not_elem_of_nil in Hin. }
  parts Hl. injection Hl as <-. cbn [head tail] in *. injection E3 as <-. apply elem_of_cons in Hin as [[= -> ->]|Hin].
  - exists v2. simplify_eq. split; [done|]. apply lines_here.
  - destruct (IH Hin _ E4) as (address & ? & Hlines). exists address. split; [done|]. apply (lines_app _ _ [_; _]). by right.
Qed.

(** ** What a signature stands for *)

Definition input_authorized (accs : list WalletPolicy) (warned : bool) (i : Input) : Prop :=
  exists c o, input_account_coordinates i = Ok (Some c) /\ input_ok accs warned (in_fields i) c o /\
    script_ok accs c (script_pubkey o).
Definition output_authorized (entries : list ProprietaryEntry) (accs : list WalletPolicy) (pairs : list TagValue)
    (k : nat) (o : Output) : Prop :=
  exists a sc, amount (out_fields o) = Some a /\ script (out_fields o) = Some sc /\
  match output_account_coordinates o with
  | Ok (Some c) => script_ok accs c sc
  | Ok None => exists name, output_line k sc a name pairs /\
      match name with Some name => identity_shown entries o sc name | None => True end
  | _ => False
  end.
Definition registered (entries : list ProprietaryEntry) (k : nat) (policy : WalletPolicy) (name : option (list Z)) : Prop :=
  get_account_name entries (Z.of_nat k) = Ok name /\
  get_account_proof_of_registration entries (Z.of_nat k) = Ok (Some (por_new (get_id policy (default [] name)))).

(** The lines [pairs] tell what the PSBT does, and what they do not tell was verified. *)
Record authorized (p : Psbt) (accs : list WalletPolicy) (warned : bool) (pairs : list TagValue) : Prop := {
  au_accounts : get_accounts (iter_proprietary (global_map p)) = Ok accs;
  au_registered : forall k policy, accs !! k = Some policy -> exists name,
    registered (iter_proprietary (global_map p)) k policy name /\
    account_line name (as_i64 (w64 (net (flows p) k))) pairs;
  au_inputs : forall i, i ∈ inputs p -> input_authorized accs warned i;
  au_outputs : forall k o, outputs p !! k = Some o -> output_authorized (iter_proprietary (global_map p)) accs pairs k o;
  au_enough : w64 (received p) <= w64 (paid p);
  au_fee : last pairs = Some (line (lit "Fee") (decimal (w64 (paid p - received p)) ++ lit " " ++ COIN_TICKER));
  au_balance : w64 (sum (balances (length accs) (flows p))) = w64 (sum (map snd (flows p)));
}.

Lemma account_line_app name a l1 l2 : account_line name a l1 \/ account_line name a l2 -> account_line name a (l1 ++ l2).
Proof. unfold account_line. destruct (0 <=? a); apply lines_app. Qed.
Lemma output_line_app k sc a name l1 l2 : output_line k sc a name l1 \/ output_line k sc a name l2 ->
  output_line k sc a name (l1 ++ l2).
Proof.
  intros [(address & Ha & Hl)|(address & Ha & Hl)]; exists address; (split; [done|]); apply lines_app; [by left|by right].
Qed.
Lemma w64_fee a b : w64 (w64 a - w64 b) = w64 (a - b).
Proof. unfold wrap. by rewrite <- Zminus_mod. Qed.

Lemma review_spec p p' s proofs ck pairs : same p p' -> analyzed p s proofs ck ->
  build_display_pairs p' s = Ok pairs ->
  verify_transaction (accounts s) (account_names s) proofs ck = Ok tt ->
  authorized p (accounts s) (warn_unverified_inputs s) pairs.
Proof.
  intros [Eu _] [Aa An Ai (exts & Ei & Ex & Ao) As Aw Ap Ar Ae] Hb Hv. unfold build_display_pairs in Hb. parts Hb.
  injection Hb as <-. unfold verify_transaction in Hv. parts Hv. destruct v2. rewrite As in E, E0. rewrite Ei, Ex in E1.
  assert (outputs p' = outputs p) as Eo by (by apply (f_equal outputs) in Eu).
  split; try done.
  - intros k policy Hk. pose proof (lookup_lt_Some _ _ _ Hk) as Hlt.
    destruct (An k Hlt) as (name & por & Hn & Hp & Hgn & Hgp). exists name. split.
    + split; [done|]. by rewrite <- (accounts_verified _ _ _ _ _ _ _ E2 Hk Hn Hp).
    + assert (balances (length (accounts s)) (flows p) !! k = Some (as_i64 (w64 (net (flows p) k)))) as Hbal.
      { unfold balances. rewrite list_lookup_fmap, lookup_seq_lt by done. done. }
      set (b := as_i64 _) in *.
      destruct (spend_shown _ _ _ _ _ E Hbal) as (n1 & Hn1 & Hs). destruct (receive_shown _ _ _ _ _ E0 Hbal) as (n2 & Hn2 & Hr).
      simplify_eq. destruct (Z_lt_le_dec b 0).
      * apply account_line_app; right. apply account_line_app; left. auto.
      * apply account_line_app; left. auto.
  - intros i [j Hj]%list_elem_of_lookup_1. destruct (Ai j i Hj) as (c & o & Hc & Hck & Hok). exists c, o.
    split_and!; try done. by eapply scripts_verified.
  - intros k o Ho. destruct (Ao k o Ho) as (a & sc & Ha & Hs & Hm). exists a, sc. split_and!; try done.
    destruct (output_account_coordinates o) as [[c|]| | |]; try done; [by eapply scripts_verified|].
    destruct Hm as (name & Hin & Hid). exists name. split; [|done].
    apply output_line_app; right. apply output_line_app; right. apply output_line_app; left.
    eapply external_shown; [done..|by rewrite Eo|done|done].
  - by rewrite <- Ap, <- Ar.
  - rewrite !app_assoc, last_snoc. unfold fee. rewrite Ap, Ar, w64_fee. by rewrite <- (app_assoc _ (lit " ")).
  - by apply balances_sum.
Qed.

(** ** The handler *)

Definition screens_of (p : Psbt) (warned : bool) (pairs : list TagValue) : list Screen :=
  let percent := Z.min (w64 (paid p - received p) * 100) (2 ^ 64 - 1) / w64 (paid p) in
  (if warned then [UnverifiedInputs] else []) ++
  (if (THRESHOLD_WARN_HIGH_FEES_AMOUNT <=? w64 (paid p)) && (THRESHOLD_WARN_HIGH_FEES_PERCENT <=? percent)
   then [HighFee percent] else []) ++
  [ReviewTransaction pairs].
(** The screens [l] were shown and approved, and nothing else was done. *)
Definition approved (a : App) (l : list Screen) (a' : App) : Prop :=
  slots a' = slots a /\ drawn a' = drawn a /\ shown a' = shown a ++ l /\
  answers a = replicate (length l) true ++ answers a'.
Lemma approved_app a l1 a1 l2 a2 : approved a l1 a1 -> approved a1 l2 a2 -> approved a (l1 ++ l2) a2.
Proof.
  intros (S1 & D1 & H1' & A1) (S2 & D2 & H2' & A2). split_and!; [congruence|congruence| |].
  - by rewrite H2', H1', app_assoc.
  - by rewrite length_app, replicate_add, A1, A2, app_assoc.
Qed.
(** At every exit, the slots and the randomness are as they were. *)
Definition asking (a a' : App) : Prop := slots a' = slots a /\ drawn a' = drawn a.
Lemma confirm_spec s a0 a (Q : unit -> App -> Prop) : asking a0 a ->
  (forall a', asking a0 a' -> approved a [s] a' -> Q tt a') -> exits (asking a0) (confirm s) a Q.
Proof.
  intros Ha HQ. unfold exits, confirm, ask, mbind, st_mbind, st_bind. destruct (answers a) as [|[] rest] eqn:E; cbn.
  - by split.
  - split; [done|]. apply HQ; [done|]. done.
  - by split.
Qed.
Lemma confirm_if_spec (b : bool) s a0 a (Q : unit -> App -> Prop) : asking a0 a ->
  (forall a', asking a0 a' -> approved a (if b then [s] else []) a' -> Q tt a') ->
  exits (asking a0) (if b then confirm s else mret tt) a Q.
Proof. intros Ha HQ. destruct b; [by apply confirm_spec|]. apply exits_ret; [done|].
  apply HQ; [done|]. by split_and!; rewrite ?app_nil_r. Qed.

(** Between two calls: the stored session stays, is cleared, or has randomness that was drawn since. *)
Record serves (a a' : App) : Prop := {
  se_length : length (slots a') = length (slots a);
  se_drawn : (drawn a <= drawn a')%nat;
  se_stored : stored a' = stored a \/ cleared a' \/ forall t, stored_session a' = Some t -> fresh a a' t;
}.
Lemma asking_serves a a1 a' : asking a a1 -> serves a1 a' -> serves a a'.
Proof.
  intros [S1 D1] [Hl Hd Hs]. split; [by rewrite Hl, S1|by rewrite <- D1|].
  destruct Hs as [E|[?|Hf]]; [left|by right; left|right; right].
  - rewrite E. unfold stored. by rewrite S1.
  - intros t Ht. unfold fresh in *. rewrite <- D1. by apply Hf.
Qed.
Lemma during_serves a a' : during a a' -> serves a a'.
Proof. intros [_ _ Hl Hd Hs]. split; [done|done|]. destruct Hs; auto. Qed.

(** The session identifier of an account of [raw] with its transaction, which is a hash, is zero. *)
Definition zero_id (raw : list Z) : Prop := exists p s proofs ck p' tx, parse raw = Ok p /\
  analyze_transaction p = (Ok (s, proofs, ck), p') /\ fst (unsigned_tx p') = Ok tx /\ zero_session s tx.

Definition nonzero (raw : list Z) : bool :=
  match parse raw with
  | Ok p =>
      match analyze_transaction p with
      | (Ok (s, _, _), p') =>
          match fst (unsigned_tx p') with
          | Ok tx => forallb (fun '(policy, name) =>
              negb (bool_decide (compute_psbt_session_id (get_id policy (default [] name)) (compute_txid tx) = zeros 32)))
              (zip (accounts s) (account_names s))
          | _ => true
          end
      | _ => true
      end
  | _ => true
  end.
Lemma nonzero_id raw : nonzero raw = true -> ~ zero_id raw.
Proof.
  unfold nonzero. intros E (p & s & proofs & ck & p' & tx & Hp & Ha & Htx & i & policy & name & Hpol & Hname & Hz).
  rewrite Hp, Ha, Htx in E. assert ((policy, name) ∈ zip (accounts s) (account_names s)) as Hin%list_elem_of_In.
  { apply list_elem_of_lookup. exists i. apply lookup_zip_with_Some. eauto. }
  rewrite forallb_forall in E. apply E in Hin. apply negb_true_iff, bool_decide_eq_false in Hin. done.
Qed.

(** What is left when the screens were approved. *)
Definition approved_run (raw : list Z) (a : App) (signed : SignedInputs) (a' : App) : Prop :=
  exists p accs warned pairs z a1 a2 a3 m,
    parse raw = Ok p /\ authorized p accs warned pairs /\ approved a (screens_of p warned pairs) a1 /\
    during a1 a2 /\ pass_result z a2 a3 signed m /\ commit m a3 = (Ok tt, a') /\ (z -> zero_id raw).

Lemma parsed_caches raw p : psbt_text raw p -> caches p.
Proof.
  intros Hp. rewrite <- (parsed_uncached _ _ Hp). unfold caches. cbn. apply Forall_map, Forall_forall. by intros i _.
Qed.

(** What the second half of the handler leaves. *)
Lemma commit_stored z a0 a b signed m : (2 < length (slots b))%nat -> during a0 a -> pass_result z a b signed m ->
  snd (commit m b) = b \/ forall t, stored_session (snd (commit m b)) = Some t -> fresh a0 b t.
Proof.
  intros Hl Ha (p & c & o & [Hd P1 _ _ _]). cbn in *. rewrite commit_spec by done. cbn [snd].
  destruct (is_initialized (round1 m)) eqn:Ei; [right|by left]. intros t Ht.
  assert (t = round1 m) as ->.
  { unfold stored_session, stored in Ht. cbn [slots set_slots] in Ht.
    rewrite (list_lookup_insert_ne _ 2 1), !list_lookup_insert_eq in Ht by (rewrite ?length_insert; unfold MUSIG_SESSION_ID_SLOT, MUSIG_SESSION_RAND_SLOT; lia).
    case_bool_decide; [done|]. injection Ht as <-. by destruct (round1 m). }
  destruct P1 as [E|Hf]; [by rewrite E in Ei|]. by eapply fresh_mono; [exact Ha|reflexivity|exact Hf].
Qed.
Lemma commit_serves z a0 a b signed m : (2 < length (slots b))%nat -> during a0 a -> pass_result z a b signed m ->
  serves a0 (snd (commit m b)).
Proof.
  intros Hl Ha Hres. pose proof (commit_stored _ _ _ _ _ _ Hl Ha Hres) as Hst. destruct Hres as (p & c & o & [Hd _ _ _ _]).
  cbn in Hd. assert (during a0 b) as Hb by by etrans. destruct Hst as [->|Hst]; [by apply during_serves|].
  rewrite commit_spec in * by done. cbn [snd] in *. destruct (is_initialized (round1 m)); [|by apply during_serves].
  destruct Hb as [_ _ Ll Ld _]. split; cbn [slots drawn set_slots]; [by rewrite !length_insert|done|by right; right].
Qed.

Lemma handler_spec raw a : bytes_ok raw -> Z.of_nat (length raw) < 2 ^ 32 -> (2 < length (slots a))%nat ->
  exits (serves a) (handle_sign_psbt raw) a (fun signed a' => approved_run raw a signed a').
Proof.
  intros Hb Hl Hslots. unfold handle_sign_psbt.
  assert (forall b, asking a b -> serves a b) as Hask.
  { intros b [S1 D1]. split; [by rewrite S1|by rewrite D1|left]. unfold stored. by rewrite S1. }
  apply exits_bind, exits_lift; [by apply Hask|]. intros p Hp%outcome_map_err_Ok.
  assert (psbt_text raw p) as Htext by (destruct (parse_text raw (conj Hb Hl)) as [Ht _]; by rewrite Hp in Ht).
  pose proof (parsed_caches _ _ Htext) as Hc. pose proof (analysis_spec p Hc) as Han. unfold wp in Han.
  destruct (analyze_transaction p) as [o p'] eqn:Ea. apply exits_bind, exits_lift; [by apply Hask|].
  intros [[s proofs] ck] ->. destruct Han as [Hsame Han].
  apply exits_bind. eapply exits_weaken; [apply (confirm_if_spec _ _ a); [by split|]|exact Hask]. intros a1 Ha1 P1.
  apply exits_bind. eapply exits_weaken; [apply (confirm_if_spec _ _ a); [exact Ha1|]|exact Hask]. intros a2 Ha2 P2.
  apply exits_bind, exits_lift; [by apply Hask|]. intros pairs Hpairs.
  apply exits_bind. eapply exits_weaken; [apply (confirm_spec _ a); [exact Ha2|]|exact Hask]. intros a3 Ha3 P3.
  apply exits_bind, exits_lift; [by apply Hask|]. intros [] Hver.
  pose proof (review_spec _ _ _ _ _ _ Hsame Han Hpairs Hver) as Hauth.
  assert (approved a (screens_of p (warn_unverified_inputs s) pairs) a3) as Happ.
  { unfold screens_of. replace (w64 (paid p - received p)) with (fee s)
      by (unfold fee; by rewrite (an_paid _ _ _ _ Han), (an_received _ _ _ _ Han), w64_fee).
    rewrite <- (an_paid _ _ _ _ Han). eapply approved_app; [exact P1|]. by eapply approved_app. }
  apply exits_bind. eapply exits_weaken; [eapply exits_mono; [apply sign_all_spec|]|].
  2: { intros b Hb'. by eapply asking_serves, during_serves. }
  intros [signed m] a4 Hd4 (tx & a5 & Htx & Hd5 & Hres). cbn [fst snd] in Hres.
  assert (2 < length (slots a4))%nat as Hs4 by (by rewrite (du_length _ _ Hd4), (proj1 Ha3)).
  pose proof (commit_spec a4 m Hs4) as Hcommit.
  assert (serves a (snd (commit m a4))) as Hsrv by (by eapply asking_serves, commit_serves).
  assert (fst (commit m a4) = Ok tt) as Hok by (by rewrite Hcommit). clear Hcommit.
  destruct (commit m a4) as [oc a'] eqn:Ec. cbn in Hsrv, Hok. subst oc.
  unfold exits, mbind, st_mbind, st_bind. rewrite Ec. split; [done|]. cbn.
  exists p, (accounts s), (warn_unverified_inputs s), pairs, (zero_session s tx), a3, a5, a4, m. split_and!; try done.
  intros Hz. by exists p, s, proofs, ck, p', tx.
Qed.

(** ** The theorems *)

(** C5. A PSBT is signed only if the user approved every screen that was shown, and then the
    screens tell what it does: the accounts are registered under their names, every input
    spends an output of its account, which the fields of the input commit to; an output goes to
    its account or is shown with its address and amount, with a name only if the registered
    identity of that name signed the script; for every account the net amount is shown, and the
    fee. An input whose amount is not verified by the previous transaction has a warning. *)
Theorem sign_authorized raw app signed app' :
  bytes_ok raw -> Z.of_nat (length raw) < 2 ^ 32 -> (2 < length (slots app))%nat ->
  handle_sign_psbt raw app = (Ok signed, app') ->
  exists p accs warned pairs, parse raw = Ok p /\ authorized p accs warned pairs /\
    shown app' = shown app ++ screens_of p warned pairs /\
    answers app = replicate (length (screens_of p warned pairs)) true ++ answers app'.
Proof.
  intros Hb Hl Hs Hrun. destruct (exits_ok _ _ _ _ _ _ (handler_spec raw app Hb Hl Hs) Hrun)
    as [_ (p & accs & warned & pairs & z & a1 & a2 & a3 & m & Hp & Ha & (E1 & _ & Hsh & Han) & Hd & (p' & c & o & Hpass) & Hc & _)].
  exists p, accs, warned, pairs. destruct Hpass as [Hd3 _ _ _ _]. cbn in Hd3.
  rewrite commit_spec in Hc by (by rewrite (du_length _ _ Hd3), (du_length _ _ Hd), E1).
  assert (shown app' = shown a3 /\ answers app' = answers a3) as [-> ->]
    by (injection Hc as <-; by destruct (is_initialized _)).
  rewrite (du_shown _ _ Hd3), (du_shown _ _ Hd), (du_answers _ _ Hd3), (du_answers _ _ Hd). done.
Qed.

(** Calls of the handler, whatever they return. *)
Fixpoint serve (raws : list (list Z)) (app : App) : App :=
  match raws with [] => app | raw :: raws => serve raws (snd (handle_sign_psbt raw app)) end.
Lemma Forall_or {A} (P : Prop) (Q : A -> Prop) l : Forall (fun x => P \/ Q x) l -> P \/ Forall Q l.
Proof. induction 1 as [|x l [?|?] Hl [?|IH]]; auto. Qed.
Definition drawn_since (n : nat) (t : PsbtSession) : Prop := exists k, (n <= k)%nat /\ rand_root t = random_bytes k.
Lemma serve_spec n raws app : Forall fits raws -> (2 < length (slots app))%nat -> (n <= drawn app)%nat ->
  (forall t, stored_session app = Some t -> drawn_since n t) ->
  forall t, stored_session (serve raws app) = Some t -> drawn_since n t.
Proof.
  intros Hf. revert app; induction Hf as [|raw raws [Hb Hl] Hf IH]; intros app Hs Hn Ht; [done|].
  destruct (handler_spec raw app Hb Hl Hs) as [[Ll Ld Ls] _]. cbn [serve]. apply IH; [by rewrite Ll|lia|].
  intros t Hst. destruct Ls as [E|[Hc|Hfr]].
  - apply Ht. unfold stored_session in *. by rewrite <- E.
  - by rewrite (cleared_none _ Hc) in Hst.
  - destruct (Hfr t Hst) as (k & Hk & Hr). exists k. split; [lia|done].
Qed.
Lemma stored_before a1 a2 t : during a1 a2 -> stored_session a2 = Some t -> stored_session a1 = Some t.
Proof.
  intros [_ _ _ _ [E|Hc]] Ht; [unfold stored_session in *; by rewrite <- E|]. by rewrite (cleared_none _ Hc) in Ht.
Qed.

(** C6. The randomness of MuSig2 nonces is used once. The public nonces that a call returns are
    made from randomness that it drew, its partial signatures from the session that was stored
    before it; and once a call has returned a partial signature, what is stored for later
    calls, whatever they are and return, is made from randomness that was drawn after the
    call began. (Or the session identifier of an account of the PSBT, which is a hash, is zero.) *)
Theorem musig_nonces_once raw app signed app1 :
  fits raw -> (2 < length (slots app))%nat -> handle_sign_psbt raw app = (Ok signed, app1) ->
  zero_id raw \/
  (Forall (fun x => exists t, fresh app app1 t /\ nonce_of t x) (musig_pubnonces signed) /\
   Forall (fun x => exists t, stored_session app = Some t /\ partial_of t x) (musig_partial_sigs signed) /\
   (musig_partial_sigs signed <> [] -> forall raws t, Forall fits raws ->
      stored_session (serve raws app1) = Some t -> drawn_since (drawn app) t)).
Proof.
  intros [Hb Hl] Hs Hrun. destruct (exits_ok _ _ _ _ _ _ (handler_spec raw app Hb Hl Hs) Hrun)
    as [Hserve (p & accs & warned & pairs & z & a1 & a2 & a3 & m & _ & _ & (E1 & D1 & _ & _) & Hd & Hres & Hc & Hz)].
  pose proof Hres as (p' & c & o & [Hd3 _ _ Pn Ps]). cbn in Hd3, Pn, Ps.
  assert (2 < length (slots a3))%nat as Hs3 by (by rewrite (du_length _ _ Hd3), (du_length _ _ Hd), E1).
  assert (drawn app1 = drawn a3) as D3.
  { rewrite commit_spec in Hc by done. injection Hc as <-. by destruct (is_initialized _). }
  assert (forall t, stored_session a2 = Some t -> stored_session app = Some t) as Hst.
  { intros t Ht. apply (stored_before a1) in Ht; [|done]. unfold stored_session, stored in *. by rewrite <- E1. }
  assert (forall t, fresh a2 a3 t -> fresh app app1 t) as Hfr.
  { intros t (n & Hn & Hr). exists n. split; [|done]. pose proof (du_drawn _ _ Hd). lia. }
  apply Forall_or in Pn as [?|Pn]; [left; auto|]. apply Forall_or in Ps as [?|Ps]; [left; auto|]. right. split_and!.
  - eapply Forall_impl; [exact Pn|]. intros x (t & ? & ?). exists t. auto.
  - eapply Forall_impl; [exact Ps|]. intros x (t & ? & _ & ?). exists t. auto.
  - intros Hne raws t Hf. destruct Hserve as [Ll Ld _]. apply serve_spec; [done|by rewrite Ll|done|].
    intros t' Ht'. destruct (musig_partial_sigs signed) as [|x xs]; [done|].
    apply Forall_inv in Ps as (_ & _ & Hcl & _).
    assert (fresh a2 a3 t') as Hft.
    { pose proof (commit_stored _ a2 a2 a3 _ _ Hs3 ltac:(reflexivity) Hres) as Hcs. rewrite Hc in Hcs. cbn in Hcs.
      destruct Hcs as [->|Hcs]; [|by apply Hcs]. by rewrite (cleared_none _ Hcl) in Ht'. }
    destruct (Hfr t' Hft) as (k & Hk & Hr). exists k. split; [lia|done].
Qed.
End analysis.

(** ** The verification in the background *)

Section background.
Context `{BitcoinCrate, SighashCrate, !SigningCrate, !XpubCrate, HexCrate, AccountCrate, Curve, TaggedHash, ScriptCrate,
  SigningSdk, TaprootCrate}.

Definition verdict (o : outcome Error unit) : option Verdict :=
  match o with Ok _ => Some (inl tt) | Err e => Some (inr e) | _ => None end.
(** The task gives the verdict of the computation, in polls that do not panic. *)
Definition decides (f : Verification) (o : outcome Error unit) : Prop :=
  forall v, verdict o = Some v -> (forall id, workable true id f) /\ forall v', returns f v' -> v' = v.
Lemma decides_ready (v : Verdict) o : verdict o = Some v -> decides (ready v) o.
Proof.
  intros Hv v' Hv'. rewrite Hv in Hv'. injection Hv' as <-. split; [intros id; apply workable_ready|].
  intros v' Hr. by inversion Hr as [? ? ? ? ? E|? ? ? ? ? ? E]; subst; injection E as _ ?.
Qed.
Lemma decides_yield f o : decides f o -> decides (await yield_now (fun _ => f)) o.
Proof.
  intros Hf v Hv. destruct (Hf v Hv) as [Hw Hr]. split; [intros id; by apply workable_yield|].
  intros v' Hv'. by apply Hr, returns_yield.
Qed.
Lemma decides_or_return {A} (o : outcome Error A) k (f : A -> outcome Error unit) :
  (forall x, o = Ok x -> decides (k x) (f x)) -> decides (or_return o k) (x ← o; f x).
Proof. destruct o; intros Hk; [by apply Hk|by apply decides_ready|done..]. Qed.
Lemma verify_scripts_decides accs checks : decides (verify_scripts_task accs checks) (verify_scripts accs checks).
Proof.
  induction checks as [|check checks IH]; cbn [verify_scripts_task verify_scripts]; [by apply decides_ready|].
  do 3 (apply decides_or_return; intros ? _). by apply decides_yield.
Qed.
Lemma verify_accounts_decides accs names proofs rest o : decides rest o ->
  decides (verify_accounts_task accs names proofs rest) (verify_accounts accs names proofs;; o).
Proof.
  intros Hr. revert names proofs; induction accs as [|policy accs IH]; intros [|name names] [|por proofs];
    cbn [verify_accounts_task verify_accounts]; try done.
  unfold guard_err. destruct (negb _); [by apply decides_ready|]. apply decides_yield. cbn [mbind outcome_mbind outcome_bind]. apply IH.
Qed.

(** C9. The verification that runs in the background between the events of the review decides as it
    would in order: whatever the other tasks do, after any number of rounds that the screens ran the
    handle gives the result of [verify_transaction]; and it can be dropped when the user refuses. *)
Theorem verification_in_background accs names proofs checks v (g g1 : Executor (list (Cell Verdict))) id k :
  verdict (verify_transaction accs names proofs checks) = Some v ->
  spawn_task (verification_task accs names proofs checks) g = (Ok id, g1) ->
  Forall (ExecutorSpec.good true (keep_cell id)) (tasks g) ->
  exists g2, rounds k g1 = (Ok tt, g2) /\ (exists fuel g3, take_handle fuel id g2 = (Ok v, g3)) /\
    exists g3, drop_handle 2 id g2 = (Ok tt, g3).
Proof.
  intros Hv Hs Hg. destruct (verify_accounts_decides accs names proofs _ _ (verify_scripts_decides accs checks) v Hv) as [Hw Hr].
  destruct (spawned_runs _ _ _ _ k Hs Hg (Hw id)) as (g2 & E & (fuel & v' & g3 & E3 & Hv' & _) & g4 & E4 & _).
  apply Hr in Hv' as ->. exists g2. split; [done|]. split; [by exists fuel, g3|by exists g4].
Qed.
End background.

(** ** A device *)

Import Demo.

(** The nonces of [text1], which has one screen: an account spends 61000, 60000 go out, the fee
    is 1000. *)
Lemma sign_authorized_witness : exists p accs warned pairs, parse text1 = Ok p /\ authorized p accs warned pairs /\
  shown device1 = screens_of p warned pairs /\ answers device = replicate (length (screens_of p warned pairs)) true ++ [true; true].
Proof.
  destruct (sign_authorized text1 device signed1 device1) as (p & accs & warned & pairs & H);
    [solve_bytes|by vm_compute|by vm_compute|exact run1|].
  exists p, accs, warned, pairs. exact H.
Defined.
Lemma musig_nonces_once_witness : musig_partial_sigs signed2 <> [] /\
  Forall (fun x => exists t, stored_session device1 = Some t /\ partial_of t x) (musig_partial_sigs signed2) /\
  forall raws t, Forall fits raws -> stored_session (serve raws device2) = Some t -> drawn_since (drawn device1) t.
Proof.
  destruct (musig_nonces_once text2 device1 signed2 device2) as [Hz|(_ & Hs & Hl)];
    [split; [solve_bytes|by vm_compute]|by vm_compute|exact run2|by destruct (nonzero_id text2)|].
  assert (musig_partial_sigs signed2 <> []) as Hne by done. split; [exact Hne|]. split; [exact Hs|exact (Hl Hne)].
Defined.
(** The verification of the account of [text1] and of a script of it, while the task of the review
    takes two rounds. *)
Definition demo_checks : list ScriptCheck :=
  [{| account_id := 0; check_is_change := false; check_address_index := 3; expected_script := script_at false 3; is_input := true |}].
Definition demo_verification : Verification := verification_task [policy] [Some name] [por_new (get_id policy name)] demo_checks.
Lemma verification_in_background_witness : exists g2,
  rounds 2 (snd (spawn_task demo_verification (mkExecutor [] []))) = (Ok tt, g2) /\
  exists fuel g3, take_handle fuel 0 g2 = (Ok (inl tt), g3).
Proof.
  destruct (verification_in_background [policy] [Some name] [por_new (get_id policy name)] demo_checks (inl tt) (mkExecutor [] [])
    (snd (spawn_task demo_verification (mkExecutor [] []))) 0 2) as (g2 & E & Ht & _);
    [by vm_compute|reflexivity|constructor|].
  exists g2. split; [exact E|exact Ht].
Defined.
