(* ===== verification/BitcoinHandlers.v ===== *)
(** * The handlers of the Bitcoin application ([apps/bitcoin/app/src])

    Registration of accounts and identity keys, addresses, extended keys, and the dispatch of
    requests ([main.rs]). The codec of messages and the cleartext descriptions of descriptors,
    whose tables the build generates, are the class [HandlerCrate]. *)

From S2P Require Import Prelude Text Bip388 WalletPolicy Musig Script Account Psbt PsbtAccount MusigSession SignPsbt.

(** ** Messages *)

Record IdentitySignature : Type := { identity_pubkey : list Z; identity_sig_bytes : list Z }.
Record RegisteredIdentityEntry : Type := { entry_pubkey : list Z; entry_name : list Z; entry_por : list Z }.
(** [Account] and [AccountCoordinates] have one variant each. *)
Inductive Request `{BitcoinCrate} : Type :=
| GetVersion
| Exit
| GetMasterFingerprint (tree : KeyTree)
| GetExtendedPubkey (tree : KeyTree) (display : bool) (path : list Z) (identity_index : option Z)
| RegisterAccount (name : list Z) (account : WalletPolicy) (registered_identities : option (list RegisteredIdentityEntry))
    (key_signatures : option (list (option IdentitySignature))) (show_cleartext : bool)
| GetAddress (display : bool) (name : option (list Z)) (account : WalletPolicy) (por : list Z)
    (coordinates : WalletPolicyCoordinates) (identity_index : option Z)
| SignPsbt (psbt : list Z)
| RegisterIdentityKey (name pubkey : list Z).
Inductive Response : Type :=
| Version (version : list Z)
| MasterFingerprint (fingerprint : Z)
| ExtendedPubkey (xpub : list Z) (identity_sig : option IdentitySignature)
| AccountRegistered (account_id hmac : list Z)
| Address (address : list Z) (identity_sig : option IdentitySignature)
| PsbtSigned (signed : SignedInputs)
| IdentityKeyRegistered (key_id hmac : list Z)
| ResponseError (error : Error).

(** [decode_request] gives the position that the decoder stops at. *)
Class HandlerCrate `{BitcoinCrate} := {
  decode_request : list Z -> option (Request * nat);
  encode_response : Response -> list Z;
  confusion_score : DescriptorTemplate -> Z;
  to_cleartext : DescriptorTemplate -> list (list Z);
  display_path : list Z -> list Z;
  base58_check : list Z -> list Z;
}.

Definition BIP32_TESTNET_PUBKEY_VERSION : Z := 0x043587CF.
Definition NUMS_COMPRESSED_PUBKEY : list Z :=
  [0x02; 0x50; 0x92; 0x9b; 0x74; 0xc1; 0xa0; 0x49; 0x54; 0xb7; 0x8b; 0x4b; 0x60; 0x35; 0xe9; 0x7a; 0x5e;
   0x07; 0x8a; 0x5a; 0x0f; 0x28; 0xec; 0x96; 0xd5; 0x47; 0xbf; 0xee; 0x9a; 0xce; 0x80; 0x3a; 0xc0].
Definition MAX_CONFUSION_SCORE : Z := 3600.

(** [{:02x}] of every byte. *)
Definition hex_text (l : list Z) : list Z := concat (map (fun b => [hex_digit (Z.shiftr b 4); hex_digit (Z.land b 15)]) l).

Section handlers.
Context `{BitcoinCrate, SighashCrate, !SigningCrate, !XpubCrate, HexCrate, AccountCrate, Curve, TaggedHash, ScriptCrate,
  SigningSdk, TaprootCrate, !HandlerCrate}.

(** [bytes.try_into()] for an array. *)
Definition try_array (n : nat) (e : Error) (l : list Z) : outcome Error (list Z) :=
  if (length l =? n)%nat then Ok l else Err e.
Definition compressed (pubkey_bytes : list Z) : list Z := (pubkey_bytes !!! 64%nat mod 2 + 2) :: slice 1 32 pubkey_bytes.

(** ** Identity signatures *)

Definition compute_identity_signature (msg_type object : list Z) (identity_index : Z) : outcome Error IdentitySignature :=
  let id_path := identity_derivation_path (Some identity_index) in
  id_node ← ok_or (sdk_derive_hd_node id_path) EKeyDerivationFailed;
  let id_pubkey_bytes := to_public_bytes (privkey id_node) in
  msg ← build_identity_message msg_type object;
  signature ← ok_or (schnorr_sign (privkey id_node) msg) ESigningFailed;
  Ok {| identity_pubkey := compressed id_pubkey_bytes; identity_sig_bytes := signature |}.
Definition identity_signature_for (msg_type object : list Z) (identity_index : option Z) :
    outcome Error (option IdentitySignature) :=
  match identity_index with
  | Some i => s ← compute_identity_signature msg_type object i; Ok (Some s)
  | None => Ok None
  end.

(** ** Registration of accounts *)

Fixpoint registered_names (l : list RegisteredIdentityEntry) : outcome Error (list (list Z * list Z)) :=
  match l with
  | [] => Ok []
  | entry :: l =>
      pubkey ← try_array 33 EInvalidIdentitySignature (entry_pubkey entry);
      ik ← outcome_map_err (fun _ => EInvalidIdentitySignature) (identity_key_new pubkey);
      por_bytes ← try_array 32 EInvalidProofOfRegistrationLength (entry_por entry);
      guard_err (negb (bool_decide (por_bytes = por_new (identity_get_id ik (entry_name entry))))) EInvalidProofOfRegistration;;
      names ← registered_names l;
      Ok ((pubkey, entry_name entry) :: names)
  end.
Definition find_name (names : list (list Z * list Z)) (pubkey : list Z) : option (list Z) :=
  snd <$> List.find (fun '(pk, _) => bool_decide (pk = pubkey)) names.
Definition verify_key_signature (names : list (list Z * list Z)) (key_info : KeyInformation) (sig : IdentitySignature) :
    outcome Error (option (list Z)) :=
  identity_pubkey ← try_array 33 EInvalidIdentitySignature (identity_pubkey sig);
  signature ← try_array 64 EInvalidIdentitySignature (identity_sig_bytes sig);
  ok_or (from_compressed identity_pubkey) EInvalidIdentitySignature;;
  msg ← outcome_map_err (fun _ => EInvalidIdentitySignature) (build_identity_message MSG_TYPE_XPUB (xpub_encode (pubkey key_info)));
  guard_err (negb (schnorr_verify identity_pubkey msg signature)) EInvalidIdentitySignature;;
  Ok (find_name names identity_pubkey).
(** The names of the signers of keys, as far as there are signatures. *)
Fixpoint verify_key_signatures (names : list (list Z * list Z)) (keys : list KeyInformation)
    (signatures : list (option IdentitySignature)) : outcome Error (list (option (list Z))) :=
  match keys with
  | [] => Ok []
  | key_info :: keys =>
      name ← match head signatures with
             | Some (Some sig) => verify_key_signature names key_info sig
             | _ => Ok None
             end;
      rest ← verify_key_signatures names keys (tail signatures);
      Ok (name :: rest)
  end.

(** The label of a key that has no name. *)
Definition label_key (standard_fpr resident_fpr : Z) (key_info : KeyInformation) : ST App Error (option (list Z)) :=
  let xpub_bytes := xpub_encode (pubkey key_info) in
  let compressed_pubkey := slice 45 33 xpub_bytes in
  if bool_decide (compressed_pubkey = NUMS_COMPRESSED_PUBKEY) then mret (Some (lit "dummy"))
  else
    match origin_info key_info with
    | None => mret None
    | Some origin =>
        let path := map child_into (derivation_path origin) in
        hd_node ← match (if fingerprint origin =? standard_fpr then Some Standard
                         else if fingerprint origin =? resident_fpr then Some Resident else None) with
                  | Some t => try_ok (derive_hd_node t path)
                  | None => mret None
                  end;
        match hd_node with
        | Some hd_node =>
            if bool_decide (compressed_pubkey = to_public_compressed (privkey hd_node))
               && bool_decide (slice 13 32 xpub_bytes = chaincode hd_node)
            then mret (Some (lit "our key"))
            else mret None
        | None => mret None
        end
    end.
Fixpoint label_keys (standard_fpr resident_fpr : Z) (keys : list KeyInformation) (names : list (option (list Z))) :
    ST App Error (list (option (list Z))) :=
  match keys, names with
  | key_info :: keys, name :: names =>
      label ← match name with Some _ => mret name | None => label_key standard_fpr resident_fpr key_info end;
      rest ← label_keys standard_fpr resident_fpr keys names;
      mret (label :: rest)
  | _, _ => mret []
  end.

Definition key_tag (i : nat) (name : option (list Z)) : list Z :=
  lit "Key @" ++ decimal (Z.of_nat i) ++ match name with Some signer => lit " (" ++ signer ++ lit ")" | None => [] end.
Definition wallet_policy_pairs (name : list Z) (wallet_policy : WalletPolicy) (key_auth_names : list (option (list Z)))
    (show_cleartext : bool) : list TagValue :=
  let template := descriptor_template wallet_policy in
  line (lit "Account") name ::
  (if show_cleartext && (confusion_score template <=? MAX_CONFUSION_SCORE) then
     imap (fun i desc => line (lit "Spending path #" ++ decimal (Z.of_nat i + 1)) desc) (to_cleartext template)
   else [line (lit "Descriptor template") (descriptor_template_raw wallet_policy)]) ++
  imap (fun i key_info => line (key_tag i (default None (key_auth_names !! i))) (display_info key_info))
    (key_information wallet_policy).

Definition handle_register_account (name : list Z) (wallet_policy : WalletPolicy)
    (registered_identities : option (list RegisteredIdentityEntry))
    (key_signatures : option (list (option IdentitySignature))) (show_cleartext : bool) : ST App Error Response :=
  identity_key_names ← lift (registered_names (default [] registered_identities));
  key_auth_names ← lift (verify_key_signatures identity_key_names (key_information wallet_policy) (default [] key_signatures));
  standard_fpr ← master_fingerprint Standard;
  resident_fpr ← master_fingerprint Resident;
  key_auth_names ← label_keys standard_fpr resident_fpr (key_information wallet_policy) key_auth_names;
  confirm (ReviewAccount (wallet_policy_pairs name wallet_policy key_auth_names show_cleartext));;
  let id := get_id wallet_policy name in
  mret (AccountRegistered id (por_new id)).

(** ** Registration of identity keys *)

Definition handle_register_identity_key (name pubkey : list Z) : ST App Error Response :=
  (if bool_decide (name = []) || (255 <? length name)%nat then fail EInvalidRequest else mret tt);;
  compressed ← lift (try_array 33 EInvalidKey pubkey);
  identity_key ← lift (outcome_map_err (fun _ => EInvalidKey) (identity_key_new compressed));
  confirm (ReviewIdentity [line (lit "Name") name; line (lit "Public key") (hex_text identity_key)]);;
  let id := identity_get_id identity_key name in
  mret (IdentityKeyRegistered id (por_new id)).

(** ** Addresses *)

Definition handle_get_address (name : option (list Z)) (wallet_policy : WalletPolicy) (por : list Z)
    (coordinates : WalletPolicyCoordinates) (display : bool) (identity_index : option Z) : ST App Error Response :=
  hmac ← lift (match length por with
               | 0%nat => Ok None
               | 32%nat => Ok (Some por)
               | _ => Err EInvalidProofOfRegistrationLength
               end);
  hmac ← lift (ok_or hmac EDefaultAccountsNotSupported);
  let id := get_id wallet_policy (default [] name) in
  lift (guard_err (negb (bool_decide (hmac = por_new id))) EInvalidProofOfRegistration);;
  address ← lift (outcome_map_err (fun _ => EInvalidWalletPolicy) (get_address wallet_policy coordinates));
  (if display then
     confirm (ReviewAddress (match name with Some name => [line (lit "Account") name] | None => [] end ++
                             [line (lit "Address") address]))
   else mret tt);;
  identity_sig ← lift (match identity_index with
                       | Some i =>
                           script ← outcome_map_err (fun _ => EInvalidWalletPolicy)
                             (policy_to_script wallet_policy (is_change coordinates) (address_index coordinates));
                           identity_signature_for MSG_TYPE_OUTPUT script (Some i)
                       | None => Ok None
                       end);
  mret (Address address identity_sig).

(** ** Extended keys *)

Definition handle_get_master_fingerprint (tree : KeyTree) : ST App Error Response :=
  fpr ← master_fingerprint tree;
  mret (MasterFingerprint fpr).
Definition handle_get_extended_pubkey (tree : KeyTree) (path : list Z) (display : bool) (identity_index : option Z) :
    ST App Error Response :=
  (if (256 <? length path)%nat then fail EDerivationPathTooLong else mret tt);;
  (if bool_decide (is_Some identity_index) && negb (bool_decide (tree = Standard)) then fail EInvalidParameter else mret tt);;
  hd_node ← derive_hd_node tree path;
  let pubkey_bytes := to_public_bytes (privkey hd_node) in
  let depth := w8 (Z.of_nat (length path)) in
  parent_fpr ← match length path with
               | 0%nat => mret 0
               | 1%nat => master_fingerprint tree
               | n =>
                   parent_node ← derive_hd_node tree (take (n - 1) path);
                   mret (pub_fingerprint (privkey parent_node))
               end;
  let child_number := default 0 (last path) in
  let xpub := be_bytes 4 BIP32_TESTNET_PUBKEY_VERSION ++ [depth] ++ be_bytes 4 parent_fpr ++ be_bytes 4 child_number ++
              chaincode hd_node ++ compressed pubkey_bytes in
  (if display then
     let xpub_base58 := base58_check xpub in
     let identity := if bool_decide (tree = Standard) then is_identity_path path else None in
     confirm (match identity with
              | Some None => ReviewIdentityKey None [line (lit "Identity key") xpub_base58]
              | Some (Some i) => ReviewIdentityKey (Some i) [line (lit "Compressed pubkey") (hex_text (compressed pubkey_bytes))]
              | None => ReviewXpub tree [line (lit "Path") (display_path path); line (lit "Public key") xpub_base58]
              end)
   else mret tt);;
  identity_sig ← lift (identity_signature_for MSG_TYPE_XPUB xpub identity_index);
  mret (ExtendedPubkey xpub identity_sig).

(** ** Requests *)

(** [todo!()] panics; [sdk::exit] does not return. *)
Definition handle_request (request : Request) : ST App Error Response :=
  match request with
  | GetVersion => panic
  | Exit => diverge
  | GetMasterFingerprint tree => handle_get_master_fingerprint tree
  | GetExtendedPubkey tree display path identity_index => handle_get_extended_pubkey tree path display identity_index
  | RegisterAccount name account registered_identities key_signatures show_cleartext =>
      handle_register_account name account registered_identities key_signatures show_cleartext
  | RegisterIdentityKey name pubkey => handle_register_identity_key name pubkey
  | GetAddress display name account por coordinates identity_index =>
      handle_get_address name account por coordinates display identity_index
  | SignPsbt psbt => signed ← handle_sign_psbt psbt; mret (PsbtSigned signed)
  end.
(** An error is a response. *)
Definition answer (m : ST App Error Response) : ST App Error Response := fun app =>
  match m app with (Err e, app) => (Ok (ResponseError e), app) | r => r end.
Definition process_message (request : list Z) : ST App Error (list Z) :=
  match decode_request request with
  | None => mret (encode_response (ResponseError EInvalidRequest))
  | Some (decoded_request, position) =>
      if negb (position =? length request)%nat then mret (encode_response (ResponseError EInvalidRequest))
      else
        response ← answer (handle_request decoded_request);
        mret (encode_response response)
  end.
End handlers.
