(* ===== verification/BitcoinHandlersSpec.v ===== *)
(** * What the user approved

    A proof of registration is given only for what a screen showed and the user approved; an
    address or a key that is to be displayed is given only after it was. *)

From S2P Require Import Prelude Text Bip388 WalletPolicy Musig Script Account Psbt PsbtAccount MusigSession MusigSessionSpec SignPsbt SignDemo SignPsbtSpec BitcoinHandlers.

Section responses.
Context `{BitcoinCrate, SighashCrate, !SigningCrate, !XpubCrate, HexCrate, AccountCrate, Curve, TaggedHash, ScriptCrate,
  SigningSdk, TaprootCrate, !HandlerCrate}.

(** The screens [l] were shown and approved. *)
Definition shows (a : App) (l : list Screen) (a' : App) : Prop :=
  shown a' = shown a ++ l /\ answers a = replicate (length l) true ++ answers a'.
Lemma shows_app a l1 a1 l2 a2 : shows a l1 a1 -> shows a1 l2 a2 -> shows a (l1 ++ l2) a2.
Proof.
  intros [S1 A1] [S2 A2]. split; [by rewrite S2, S1, app_assoc|]. by rewrite length_app, replicate_add, A1, A2, app_assoc.
Qed.
Lemma wp_passes {A} (m : ST App Error A) a : passes m -> wp Partial m a (fun _ a' => shows a [] a').
Proof.
  intros Hm. apply wp_partial. intros x a' E. specialize (Hm a). rewrite E in Hm. destruct Hm as [Hs Ha _ _ _]. cbn in Hs, Ha.
  split; [by rewrite app_nil_r|done].
Qed.
Lemma wp_confirm s a : wp Partial (confirm s) a (fun _ a' => shows a [s] a').
Proof.
  apply wp_partial. intros x a' E.
  assert (exits (asking a) (confirm s) a (fun _ a' => approved a [s] a')) as Hc by (apply confirm_spec; [by split|auto]).
  destruct (exits_ok _ _ _ _ _ _ Hc E) as [_ (_ & _ & Hs & Ha)]. by split.
Qed.
Lemma wp_confirm_if (b : bool) s a (Q : unit -> App -> Prop) :
  (forall a', shows a (if b then [s] else []) a' -> Q tt a') -> wp Partial (if b then confirm s else mret tt) a Q.
Proof.
  intros HQ. destruct b; [eapply wp_mono; [apply wp_confirm|]; intros [] a'; apply HQ|]. apply wp_ret, HQ.
  by split; [rewrite app_nil_r|].
Qed.
(** What precedes in a computation shows nothing. *)
Lemma wp_quiet {A B} (m : ST App Error A) (f : A -> ST App Error B) a (Q : B -> App -> Prop) :
  passes m -> (forall x a', shows a [] a' -> wp Partial (f x) a' Q) -> wp Partial (x ← m; f x) a Q.
Proof. intros Hm Hf. apply wp_bind. eapply wp_mono; [by apply wp_passes|]. auto. Qed.

Lemma wp_quiet_eq {A B} (m : ST App Error A) (f : A -> ST App Error B) a (Q : B -> App -> Prop) :
  passes m -> (forall x a', m a = (Ok x, a') -> shows a [] a' -> wp Partial (f x) a' Q) -> wp Partial (x ← m; f x) a Q.
Proof.
  intros Hm Hf. apply wp_bind. eapply wp_mono; [apply wp_and; [by apply wp_passes|]|].
  - apply wp_partial. intros x a' E. exact E.
  - intros x a' [Hs E]. by apply Hf.
Qed.

(** ** Labels of keys *)

(** A registered identity that signed the key. *)
Definition signer (ids : list RegisteredIdentityEntry) (key : KeyInformation) (sig : IdentitySignature) (name : list Z) : Prop :=
  exists entry msg, entry ∈ ids /\ entry_name entry = name /\ entry_pubkey entry = identity_pubkey sig /\
    entry_por entry = por_new (identity_get_id (entry_pubkey entry) name) /\
    build_identity_message MSG_TYPE_XPUB (xpub_encode (pubkey key)) = Ok msg /\
    schnorr_verify (identity_pubkey sig) msg (identity_sig_bytes sig) = true.
(** A key that the device derives. *)
Definition own_key (key : KeyInformation) : Prop :=
  exists origin tree app hd, origin_info key = Some origin /\
    fst (derive_hd_node tree (map child_into (derivation_path origin)) app) = Ok hd /\
    slice 45 33 (xpub_encode (pubkey key)) = to_public_compressed (privkey hd) /\
    slice 13 32 (xpub_encode (pubkey key)) = chaincode hd.
Definition label_ok (ids : list RegisteredIdentityEntry) (sigs : list (option IdentitySignature)) (k : nat)
    (key : KeyInformation) (label : option (list Z)) : Prop :=
  match label with
  | None => True
  | Some l =>
      (exists sig, sigs !! k = Some (Some sig) /\ signer ids key sig l) \/
      (l = lit "dummy" /\ slice 45 33 (xpub_encode (pubkey key)) = NUMS_COMPRESSED_PUBKEY) \/
      (l = lit "our key" /\ own_key key)
  end.

Lemma try_array_Ok n e l l' : try_array n e l = Ok l' -> l' = l.
Proof. unfold try_array. destruct (_ =? _)%nat; by intros [= ->]. Qed.
Lemma registered_spec ids names pk name : registered_names ids = Ok names -> (pk, name) ∈ names ->
  exists entry, entry ∈ ids /\ entry_name entry = name /\ entry_pubkey entry = pk /\
    entry_por entry = por_new (identity_get_id pk name).
Proof.
  revert names; induction ids as [|e ids IH]; cbn [registered_names]; intros names Hn Hin.
  { injection Hn as <-. by apply not_elem_of_nil in Hin. }
  parts Hn. injection Hn as <-. apply try_array_Ok in E as ->, E1 as ->. unfold identity_key_new in E0. parts E0.
  injection E0 as <-. apply elem_of_cons in Hin as [[= -> ->]|Hin].
  - exists e. split_and!; [by left|done|done|]. by apply negb_false_iff, bool_decide_eq_true in E2.
  - destruct (IH _ E3 Hin) as (e' & ? & ?). exists e'. split; [by right|done].
Qed.
Lemma signature_spec ids names key sig name : registered_names ids = Ok names ->
  verify_key_signature names key sig = Ok (Some name) -> signer ids key sig name.
Proof.
  intros Hn Hs. unfold verify_key_signature in Hs. parts Hs. injection Hs as Hf. apply try_array_Ok in E as ->, E0 as ->.
  unfold find_name in Hf. destruct (List.find _ names) as [[pk n]|] eqn:F; [|done]. injection Hf as ->.
  apply find_some in F as [Fin Fp%bool_decide_eq_true]. subst pk. apply list_elem_of_In in Fin.
  destruct (registered_spec _ _ _ _ Hn Fin) as (entry & ? & ? & ? & ?). exists entry, v2. apply negb_false_iff in E3.
  split_and!; try done. congruence.
Qed.
Lemma signatures_spec ids names keys sigs l : registered_names ids = Ok names ->
  verify_key_signatures names keys sigs = Ok l ->
  length l = length keys /\ forall k key name, keys !! k = Some key -> l !! k = Some (Some name) ->
    exists sig, sigs !! k = Some (Some sig) /\ signer ids key sig name.
Proof.
  intros Hn. revert sigs l; induction keys as [|key keys IH]; cbn [verify_key_signatures]; intros sigs l Hl.
  { injection Hl as <-. split; [done|]. by intros k key name [=]. }
  parts Hl. injection Hl as <-. destruct (IH _ _ E0) as [Hlen Hk]. split; [by cbn; rewrite Hlen|].
  intros [|k] key' name; cbn.
  - intros [= <-] [= ->]. destruct sigs as [|[sig|] sigs]; cbn in E; [done| |done]. exists sig. split; [done|].
    by eapply signature_spec.
  - intros Hk1 Hk2. destruct (Hk k key' name Hk1 Hk2) as (sig & Hs & ?). exists sig. split; [|done]. by destruct sigs.
Qed.

Lemma passes_fingerprint t : passes (master_fingerprint t).
Proof. destruct t; [apply passes_ret|apply passes_resident_fingerprint]. Qed.
Hint Resolve passes_fingerprint passes_derive_hd_node passes_try : passes.
Lemma passes_label_key f r key : passes (label_key f r key).
Proof. unfold label_key. passes. Qed.
Hint Resolve passes_label_key : passes.
Lemma passes_label_keys f r keys names : passes (label_keys f r keys names).
Proof. revert names; induction keys as [|key keys IH]; intros [|name names]; cbn [label_keys]; passes. Qed.

Lemma try_ok_Some {A} (m : ST App Error A) a x a' : try_ok m a = (Ok (Some x), a') -> fst (m a) = Ok x.
Proof. unfold try_ok. by destruct (m a) as [[]]; intros [= -> _]. Qed.
Lemma label_key_spec f r key a : wp Partial (label_key f r key) a (fun label _ =>
  match label with
  | None => True
  | Some l => (l = lit "dummy" /\ slice 45 33 (xpub_encode (pubkey key)) = NUMS_COMPRESSED_PUBKEY) \/
              (l = lit "our key" /\ own_key key)
  end).
Proof.
  unfold label_key. case_bool_decide as Hn; [apply wp_ret; by left|].
  destruct (origin_info key) as [origin|] eqn:Eo; [|by apply wp_ret]. apply wp_bind.
  destruct (if fingerprint origin =? f then Some Standard else _) as [t|]; [|by apply wp_ret, wp_ret].
  apply wp_partial. intros [hd|] a1 E; [|by apply wp_ret]. apply try_ok_Some in E.
  destruct (bool_decide _ && bool_decide _) eqn:Eb; [|by apply wp_ret].
  apply andb_prop in Eb as [E1%bool_decide_eq_true E2%bool_decide_eq_true]. apply wp_ret. right. split; [done|].
  by exists origin, t, a, hd.
Qed.
Lemma label_keys_spec f r keys names a : wp Partial (label_keys f r keys names) a (fun labels _ =>
  forall k key label, keys !! k = Some key -> labels !! k = Some (Some label) ->
    names !! k = Some (Some label) \/
    (label = lit "dummy" /\ slice 45 33 (xpub_encode (pubkey key)) = NUMS_COMPRESSED_PUBKEY) \/
    (label = lit "our key" /\ own_key key)).
Proof.
  revert names a; induction keys as [|key keys IH]; intros [|name names] a; cbn [label_keys]; try (by apply wp_ret).
  apply wp_bind. eapply (wp_mono _ _ _ (fun label _ => match label with
    | None => True
    | Some l => name = Some l \/ (l = lit "dummy" /\ slice 45 33 (xpub_encode (pubkey key)) = NUMS_COMPRESSED_PUBKEY) \/
              (l = lit "our key" /\ own_key key)
    end)).
  { destruct name as [n|]; [apply wp_ret; by left|]. eapply wp_mono; [apply label_key_spec|].
    intros [l|] a1 Hl; [by right|done]. }
  intros label a1 Hl. apply wp_bind. eapply wp_mono; [apply IH|]. intros rest a2 Hr. apply wp_ret.
  intros [|k] key' l; cbn; [|apply Hr]. intros [= <-] [= ->]. destruct Hl as [->|Hl]; [by left|by right].
Qed.

(** ** Responses *)

(** The labels of the keys of an account in its review. *)
Definition labels_ok (policy : WalletPolicy) (ids : option (list RegisteredIdentityEntry))
    (sigs : option (list (option IdentitySignature))) (labels : list (option (list Z))) : Prop :=
  forall k key label, key_information policy !! k = Some key -> labels !! k = Some label ->
    label_ok (default [] ids) (default [] sigs) k key label.

(** The fingerprint of the parent of the key at a path, which the device computes from [a]. *)
Definition parent_ok (tree : KeyTree) (path : list Z) (a : App) (fpr : Z) : Prop :=
  match length path with
  | 0%nat => fpr = 0
  | 1%nat => fst (master_fingerprint tree a) = Ok fpr
  | n => exists node, fst (derive_hd_node tree (take (n - 1) path) a) = Ok node /\ fpr = pub_fingerprint (privkey node)
  end.
(** The serialization of an extended key. *)
Definition serialized_xpub (path : list Z) (parent : Z) (node : HDPrivNode) : list Z :=
  be_bytes 4 BIP32_TESTNET_PUBKEY_VERSION ++ [w8 (Z.of_nat (length path))] ++ be_bytes 4 parent ++
  be_bytes 4 (default 0 (last path)) ++ chaincode node ++ compressed (to_public_bytes (privkey node)).
(** What shows it: an identity key as the key, another as text in base 58. *)
Definition xpub_screen (tree : KeyTree) (path : list Z) (node : HDPrivNode) (xpub : list Z) : Screen :=
  match tree, is_identity_path path with
  | Standard, Some None => ReviewIdentityKey None [line (lit "Identity key") (base58_check xpub)]
  | Standard, Some (Some i) =>
      ReviewIdentityKey (Some i) [line (lit "Compressed pubkey") (hex_text (compressed (to_public_bytes (privkey node))))]
  | _, _ => ReviewXpub tree [line (lit "Path") (display_path path); line (lit "Public key") (base58_check xpub)]
  end.

(** What a response to a request means, when the request came in the state [a], with the screens
    that were approved. *)
Definition response_ok (a : App) (request : Request) (response : Response) (l : list Screen) : Prop :=
  match request, response with
  | RegisterAccount name policy ids sigs cleartext, AccountRegistered id hmac =>
      id = get_id policy name /\ hmac = por_new id /\ exists labels, labels_ok policy ids sigs labels /\
        l = [ReviewAccount (wallet_policy_pairs name policy labels cleartext)]
  | RegisterIdentityKey name pubkey, IdentityKeyRegistered id hmac =>
      id = identity_get_id pubkey name /\ hmac = por_new id /\ length pubkey = 33%nat /\ (1 <= length name <= 255)%nat /\
        l = [ReviewIdentity [line (lit "Name") name; line (lit "Public key") (hex_text pubkey)]]
  | GetAddress display name policy por c i, Address address sig =>
      por = por_new (get_id policy (default [] name)) /\
      (exists script, policy_to_script policy (is_change c) (address_index c) = Ok script /\
        address_from_script script = Some address /\ identity_signature_for MSG_TYPE_OUTPUT script i = Ok sig) /\
      l = (if display then
             [ReviewAddress (match name with Some name => [line (lit "Account") name] | None => [] end ++
                             [line (lit "Address") address])]
           else [])
  | GetExtendedPubkey tree display path i, ExtendedPubkey xpub sig =>
      (length path <= 256)%nat /\ (is_Some i -> tree = Standard) /\
      identity_signature_for MSG_TYPE_XPUB xpub i = Ok sig /\
      exists node b parent, derive_hd_node tree path a = (Ok node, b) /\ parent_ok tree path b parent /\
        xpub = serialized_xpub path parent node /\ l = (if display then [xpub_screen tree path node xpub] else [])
  | GetMasterFingerprint tree, MasterFingerprint fpr => fst (master_fingerprint tree a) = Ok fpr /\ l = []
  | SignPsbt _, PsbtSigned _ => True
  | _, _ => False
  end.

Lemma account_spec name policy ids sigs cleartext a :
  wp Partial (handle_register_account name policy ids sigs cleartext) a (fun response a' => exists l,
    shows a l a' /\ response_ok a (RegisterAccount name policy ids sigs cleartext) response l).
Proof.
  unfold handle_register_account. apply wp_bind, wp_lift_ok. intros names Hn. apply wp_bind, wp_lift_ok. intros auth Ha.
  destruct (signatures_spec _ _ _ _ _ Hn Ha) as [_ Hs].
  apply wp_quiet; [auto with passes|]. intros f a1 S1. apply wp_quiet; [auto with passes|]. intros r a2 S2. apply wp_bind.
  eapply wp_mono; [apply wp_and; [apply wp_passes, passes_label_keys|apply label_keys_spec]|].
  intros labels a3 [S3 Hl]. apply wp_bind. eapply wp_mono; [apply wp_confirm|]. intros [] a4 S4. apply wp_ret.
  eexists. split; [exact (shows_app _ _ _ _ _ S1 (shows_app _ _ _ _ _ S2 (shows_app _ _ _ _ _ S3 S4)))|].
  cbn. split; [done|]. split; [done|]. exists labels. split; [|done]. intros k key [label|] Hk Hlab; [|done]. cbn.
  destruct (Hl k key label Hk Hlab) as [Hname|?]; [left|by right]. destruct (Hs k key label Hk Hname) as (sig & ? & ?).
  by exists sig.
Qed.
Lemma identity_spec name pubkey a :
  wp Partial (handle_register_identity_key name pubkey) a (fun response a' => exists l,
    shows a l a' /\ response_ok a (RegisterIdentityKey name pubkey) response l).
Proof.
  unfold handle_register_identity_key. apply wp_bind. destruct (_ || _) eqn:E; [by apply wp_fail|].
  apply orb_false_iff in E as [E1%bool_decide_eq_false E2%Nat.ltb_ge]. apply wp_ret, wp_bind, wp_lift_ok. intros c Hc.
  assert (length pubkey = 33%nat) as Hlen by (unfold try_array in Hc; destruct (Nat.eqb_spec (length pubkey) 33); done).
  apply try_array_Ok in Hc as ->. apply wp_bind, wp_lift_ok. intros k Hk%outcome_map_err_Ok.
  unfold identity_key_new in Hk. parts Hk. injection Hk as ->. apply wp_bind. eapply wp_mono; [apply wp_confirm|].
  intros [] a1 S1. apply wp_ret. eexists. split; [exact S1|]. cbn. split_and!; try done. destruct name; [done|cbn; lia].
Qed.
Lemma address_spec display name policy por c i a :
  wp Partial (handle_get_address name policy por c display i) a (fun response a' => exists l,
    shows a l a' /\ response_ok a (GetAddress display name policy por c i) response l).
Proof.
  unfold handle_get_address. apply wp_bind, wp_lift_ok. intros h Hh. apply wp_bind, wp_lift_ok. intros h' Hh'%ok_or_Ok.
  subst h. assert (h' = por) as -> by (do 33 (destruct por as [|? por]; cbn in Hh; try done); by injection Hh).
  apply wp_bind, wp_lift_ok. intros _ E%guard_Ok. apply negb_false_iff, bool_decide_eq_true in E.
  apply wp_bind, wp_lift_ok. intros address Hadd%outcome_map_err_Ok. unfold get_address in Hadd. parts Hadd.
  apply ok_or_Ok in Hadd. apply wp_bind, wp_confirm_if. intros a1 S1. apply wp_bind, wp_lift_ok. intros sig Hsig. apply wp_ret.
  eexists. split; [exact S1|]. cbn. split; [done|]. split; [|by destruct display]. exists v. split_and!; [done|done|].
  destruct i as [i|]; [|by injection Hsig as <-]. rewrite E0 in Hsig. exact Hsig.
Qed.
Lemma parent_spec tree path a fpr a' :
  match length path with
  | 0%nat => mret 0
  | 1%nat => master_fingerprint tree
  | n => node ← derive_hd_node tree (take (n - 1) path); mret (pub_fingerprint (privkey node))
  end a = (Ok fpr, a') -> parent_ok tree path a fpr.
Proof.
  unfold parent_ok. destruct (length path) as [|[|n]]; [by intros [= <-]|by intros ->|].
  unfold mbind, st_mbind, st_bind. destruct (derive_hd_node _ _ a) as [[node|e| |] b]; try done.
  intros [= <- _]. by exists node.
Qed.
Lemma extended_spec tree path display i a :
  wp Partial (handle_get_extended_pubkey tree path display i) a (fun response a' => exists l,
    shows a l a' /\ response_ok a (GetExtendedPubkey tree display path i) response l).
Proof.
  unfold handle_get_extended_pubkey. apply wp_bind. destruct (Nat.ltb_spec 256 (length path)) as [|Hl]; [by apply wp_fail|].
  apply wp_ret, wp_bind. destruct (bool_decide (is_Some i) && _) eqn:Et; [by apply wp_fail|]. apply wp_ret.
  apply wp_quiet_eq; [auto with passes|]. intros hd a1 Ehd S1. apply wp_quiet_eq.
  { destruct (length path) as [|[|n]]; passes. }
  intros fpr a2 Efpr S2. apply wp_bind, wp_confirm_if. intros a3 S3. apply wp_bind, wp_lift_ok. intros sig Hsig. apply wp_ret.
  eexists. split; [exact (shows_app _ _ _ _ _ S1 (shows_app _ _ _ _ _ S2 S3))|]. cbn. split; [done|]. split; [|split].
  - intros Hi. rewrite bool_decide_eq_true_2 in Et by done. cbn in Et. by apply negb_false_iff, bool_decide_eq_true in Et.
  - exact Hsig.
  - exists hd, a1, fpr. split_and!; [done|by eapply parent_spec|done|]. destruct display; [|done]. unfold xpub_screen.
    by destruct tree, (is_identity_path path) as [[]|].
Qed.

(** C7. A response of the application means what the screens say that the user approved on the
    way: a proof of registration is that of the account or the identity key of the request,
    which a screen showed, with the labels of its keys, where a name is that of a registered
    identity that signed the key, or marks the key of nobody or a key that the device
    derives; an address is that of a registered account at the coordinates, an extended key
    the serialization of the key at the path, and either is displayed first if the request
    says so, and signed by the identity that it names. *)
Theorem responses_approved request app response app' :
  handle_request request app = (Ok response, app') ->
  match request with
  | SignPsbt _ => exists signed, response = PsbtSigned signed
  | _ => exists l, shows app l app' /\ response_ok app request response l
  end.
Proof.
  intros E. assert (wp Partial (handle_request request) app (fun response app' =>
    match request with
    | SignPsbt _ => exists signed, response = PsbtSigned signed
    | _ => exists l, shows app l app' /\ response_ok app request response l
    end)) as Hwp; [|by eapply wp_ok in Hwp; [|exact E]].
  destruct request; cbn [handle_request]; [by apply wp_panic|by apply wp_diverge| | | | | |].
  - unfold handle_get_master_fingerprint. apply wp_quiet_eq; [auto with passes|]. intros fpr a E1 S1. apply wp_ret.
    exists []. split; [done|]. cbn. by rewrite E1.
  - apply extended_spec.
  - apply account_spec.
  - apply address_spec.
  - apply wp_bind, wp_partial. intros signed a _. apply wp_ret. by exists signed.
  - apply identity_spec.
Qed.
End responses.

(** ** A device *)

Import Demo.

#[local] Instance demo_handlers : HandlerCrate := {
  decode_request _ := None;
  encode_response _ := [];
  confusion_score _ := 5000;
  to_cleartext _ := [];
  display_path _ := [];
  base58_check s := s;
}.
Definition demo_request : Request := RegisterAccount Demo.name policy None None true.
Definition demo_pairs : list TagValue :=
  [line (lit "Account") Demo.name; line (lit "Descriptor template") (lit "tr(musig(@0,@1)/**)");
   line (lit "Key @0 (our key)") (display_info (key 48)); line (lit "Key @1 (our key)") (display_info (key 49))].
Definition demo_app : App := {| slots := slots device; drawn := 0; shown := [ReviewAccount demo_pairs]; answers := [true; true] |}.
Lemma demo_response : handle_request demo_request device =
  (Ok (AccountRegistered (get_id policy Demo.name) (por_new (get_id policy Demo.name))), demo_app).
Proof. vm_compute. reflexivity. Qed.

Lemma responses_approved_witness : exists labels, labels_ok policy None None labels /\
  shown demo_app = [ReviewAccount (wallet_policy_pairs Demo.name policy labels true)] /\
  answers device = [true] ++ answers demo_app.
Proof.
  destruct (responses_approved _ _ _ _ demo_response) as (l & [Hs Ha] & _ & _ & labels & Hl & ->).
  exists labels. split; [exact Hl|]. split; [exact Hs|exact Ha].
Defined.
