(* ===== verification/Review.v ===== *)
(** * Screens and reviews of V-Apps ([app-sdk/src/ux.rs], [app.rs], the makers of [build.rs])

    A V-App draws pages or steps and reacts to events. The state has the events that the device
    will give, what was drawn, and the background tasks, which run when a ticker arrives. *)

From S2P Require Import Prelude Text Ux.

(** ** The device *)

Inductive Event : Type := EvTicker | EvAct (action : Action) | EvOther (raw : list Z).
Inductive Drawn : Type := PageRaw (raw : list Z) | StepRaw (raw : list Z).
Inductive View : Type :=
| NoView | HomePage | AppInfoPage | HomeIntroStep | HomeAppInfoStep | HomeQuitStep | AppInfoStep (index : nat).
(** The fields of [App] that change, and the device. *)
Record UxState (B : Type) : Type := mkUx {
  events : list Event;
  drawn_raw : list Drawn;
  current_view : View;
  ux_dirty : bool;
  cleanup_ticks : Z;
  background : B
}.
Arguments mkUx {B}.
Arguments events {B} u.
Arguments drawn_raw {B} u.
Arguments current_view {B} u.
Arguments ux_dirty {B} u.
Arguments cleanup_ticks {B} u.
Arguments background {B} u.

(** What the app is built with. *)
Record AppInfo : Type := { vapp_name : String; version : String; description : option String; developer : option String }.

Definition text (s : string) : String := mkString (lit s).
Definition no_page_icon (content : PageContent) : PageContentInfo := mkPageContentInfo None IconNone content.
Definition review_page (active n : Z) (back : bool) (content : PageContent) : UxPage :=
  GenericPage (Some (mkNavigationInfo (U32 active) (U32 n) None (NavWithButtons back true (Some (text "Reject")))))
    (no_page_icon content).

(** ** The makers *)

Definition page_review_pairs_intro (active n : Z) (intro_text intro_subtext : String) : UxPage :=
  review_page active n false (TextSubtext intro_text intro_subtext).
Definition page_review_pairs_content (active n : Z) (pairs : list TagValue) : UxPage :=
  review_page active n true (TagValueList pairs).
Definition page_review_pairs_final_longpress (active n : Z) (final_text final_button_text : String) : UxPage :=
  review_page active n true (ConfirmationLongPress final_text final_button_text).
Definition page_review_pairs_final_confirmationbutton (active n : Z) (final_text final_button_text : String) : UxPage :=
  review_page active n true (ConfirmationButton final_text final_button_text).
Definition page_home_info (pairs : list TagValue) : UxPage :=
  GenericPage (Some (mkNavigationInfo (U32 0) (U32 1) None (NavWithButtons true false (Some (text "<- Back")))))
    (no_page_icon (TagValueList pairs)).
Definition REGULAR_INFO : u8 := U8 0.
Definition BOLD_TEXT1_INFO : u8 := U8 1.
Definition step_text_subtext (pos : u8) (t subtext : String) : UxStep := StepTextSubtext pos t subtext REGULAR_INFO.
Definition step_btext_subtext (pos : u8) (t subtext : String) : UxStep := StepTextSubtext pos t subtext BOLD_TEXT1_INFO.
Definition step_info_single (t : String) : UxStep := CenteredInfo (U8 0) (Some t) None IconNone BOLD_TEXT1_INFO.
Definition step_centered_info_nosubtext (pos : u8) (t : String) (icon : Icon) : UxStep :=
  CenteredInfo pos (Some t) None icon BOLD_TEXT1_INFO.
Definition step_confirm (pos : u8) : UxStep := CenteredInfo pos (Some (text "Confirm")) None Confirm BOLD_TEXT1_INFO.
Definition step_reject (pos : u8) : UxStep := CenteredInfo pos (Some (text "Reject")) None Reject BOLD_TEXT1_INFO.
Definition step_spinner (t : String) : UxStep := CenteredInfo (U8 0) (Some t) None Processing BOLD_TEXT1_INFO.

(** Whether there is a step to the left and one to the right. *)
Definition step_pos (n_steps cur_step : nat) : u8 :=
  U8 (Z.lor (Z.shiftl (Z.b2z (0 <? cur_step)%nat) 1) (Z.b2z (S cur_step <? n_steps)%nat)).

(** ** Pages of pairs *)

Record PageLayoutMetrics : Type := {
  tag_chars_per_line : Z; tag_line_height_px : Z; value_chars_per_line : Z; value_line_height_px : Z;
  pair_padding_px : Z; content_height_px : Z
}.
Definition page_layout_metrics (device : Z) : option PageLayoutMetrics :=
  if (device =? 0) || (device =? 0x2c970060) then
    Some {| tag_chars_per_line := 20; tag_line_height_px := 28; value_chars_per_line := 17; value_line_height_px := 40;
            pair_padding_px := 20; content_height_px := 448 |}
  else if device =? 0x2c970070 then
    Some {| tag_chars_per_line := 20; tag_line_height_px := 32; value_chars_per_line := 17; value_line_height_px := 40;
            pair_padding_px := 20; content_height_px := 376 |}
  else if device =? 0x2c970080 then
    Some {| tag_chars_per_line := 25; tag_line_height_px := 18; value_chars_per_line := 17; value_line_height_px := 28;
            pair_padding_px := 16; content_height_px := 264 |}
  else None.

Definition text_lines (s : String) (chars_per_line : Z) : Z :=
  w32 (Z.max 1 (w32 (w32 (Z.of_nat (length (as_bytes s)) + chars_per_line) - 1) / chars_per_line)).
Definition estimate_pair_height (metrics : PageLayoutMetrics) (pair_ : TagValue) : Z :=
  let tag_lines := text_lines (tag pair_) (tag_chars_per_line metrics) in
  let value_lines := text_lines (value pair_) (value_chars_per_line metrics) in
  w32 (w32 (w32 (tag_lines * tag_line_height_px metrics) + w32 (value_lines * value_line_height_px metrics))
       + pair_padding_px metrics).
(** The end of the page that holds the pairs before [end_], of this height. *)
Fixpoint fill_page (metrics : PageLayoutMetrics) (height : Z) (end_ : nat) (rest : list TagValue) : nat :=
  match rest with
  | [] => end_
  | pair_ :: rest =>
      let next_height := estimate_pair_height metrics pair_ in
      if content_height_px metrics <? w32 (height + next_height) then end_
      else fill_page metrics (w32 (height + next_height)) (S end_) rest
  end.
(** Every turn of the loop places a pair_. *)
Fixpoint pair_page_ranges (fuel : nat) (metrics : PageLayoutMetrics) (pairs : list TagValue) (start : nat) : list (nat * nat) :=
  match fuel with
  | O => []
  | S fuel =>
      match drop start pairs with
      | [] => []
      | pair_ :: rest =>
          let end_ := fill_page metrics (estimate_pair_height metrics pair_) (S start) rest in
          (start, end_) :: pair_page_ranges fuel metrics pairs end_
      end
  end.
Definition compute_pair_page_ranges (metrics : PageLayoutMetrics) (pairs : list TagValue) : list (nat * nat) :=
  pair_page_ranges (length pairs) metrics pairs 0.

(** ** Events and drawing *)

(** [device] is the property of the device, [poll_once] a round of the background tasks. *)
Section flows.
Context {B E : Type} `{Heap} (device : Z) (poll_once : ST B Empty_set unit).
Abbreviation U := (ST (UxState B) E).

Definition with_events (l : list Event) (u : UxState B) : UxState B :=
  mkUx l (drawn_raw u) (current_view u) (ux_dirty u) (cleanup_ticks u) (background u).
Definition with_drawn (l : list Drawn) (u : UxState B) : UxState B :=
  mkUx (events u) l (current_view u) (ux_dirty u) (cleanup_ticks u) (background u).
Definition with_view (v : View) (u : UxState B) : UxState B :=
  mkUx (events u) (drawn_raw u) v (ux_dirty u) (cleanup_ticks u) (background u).
Definition with_dirty (d : bool) (u : UxState B) : UxState B :=
  mkUx (events u) (drawn_raw u) (current_view u) d (cleanup_ticks u) (background u).
Definition with_ticks (n : Z) (u : UxState B) : UxState B :=
  mkUx (events u) (drawn_raw u) (current_view u) (ux_dirty u) n (background u).
Definition with_background (b : B) (u : UxState B) : UxState B :=
  mkUx (events u) (drawn_raw u) (current_view u) (ux_dirty u) (cleanup_ticks u) b.

Definition on_background {A} (m : ST B Empty_set A) : U A :=
  zoom background with_background (map_err (fun e : Empty_set => match e with end) m).
Definition has_page_api : U bool :=
  if bool_decide (device ∈ [0; 0x2c970060; 0x2c970070; 0x2c970080]) then mret true
  else if bool_decide (device ∈ [0x2c970040; 0x2c970050]) then mret false else panic.
Definition get_page_layout_metrics : U PageLayoutMetrics :=
  match page_layout_metrics device with Some m => mret m | None => panic end.

(** The makers serialize; a text that is too long panics. *)
Definition made {T} `{Codec T} (x : T) : U (list Z) := match serialize x with Ok raw => mret raw | _ => panic end.
Definition show_page_raw (page : list Z) : U unit := modify (fun u => with_drawn (drawn_raw u ++ [PageRaw page]) u).
Definition show_step_raw (step : list Z) : U unit := modify (fun u => with_drawn (drawn_raw u ++ [StepRaw step]) u).
Definition show_page (p : UxPage) : U unit := raw ← made p; show_page_raw raw.
Definition show_step (s : UxStep) : U unit := raw ← made s; show_step_raw raw.

(** [ecalls::get_event] waits when there is no event; a ticker lets the tasks run. *)
Definition get_event : U Event :=
  evs ← gets events;
  match evs with
  | [] => diverge
  | ev :: evs =>
      modify (with_events evs);;
      match ev with EvTicker => on_background poll_once;; mret ev | _ => mret ev end
  end.
(** The turns of the loops below consume an event each. *)
Definition event_fuel : U nat := gets (fun u => S (length (events u))).
Fixpoint wait_loop (fuel : nat) (n_tickers n : Z) : U unit :=
  match fuel with
  | O => diverge
  | S fuel =>
      ev ← get_event;
      match ev with
      | EvTicker => let n_tickers := w32 (n_tickers + 1) in if n <=? n_tickers then mret tt else wait_loop fuel n_tickers n
      | _ => wait_loop fuel n_tickers n
      end
  end.
Definition wait (n : Z) : U unit := fuel ← event_fuel; wait_loop fuel 0 n.
Fixpoint get_action_loop (fuel : nat) : U Action :=
  match fuel with
  | O => diverge
  | S fuel => ev ← get_event; match ev with EvAct a => mret a | _ => get_action_loop fuel end
  end.
Definition get_action : U Action := fuel ← event_fuel; get_action_loop fuel.

(** ** Reviews *)

(** What the events lead to: another page or step, or the end. *)
Inductive Turn : Type := GoTo (n : nat) | Done (result : bool).

Section page_review.
Variables (intro_text intro_subtext : String) (pairs : list TagValue) (final_text final_button_text : String) (long_press : bool).

Fixpoint page_events (fuel n_pages active_page : nat) : U Turn :=
  match fuel with
  | O => diverge
  | S fuel =>
      ev ← get_event;
      match ev with
      | EvAct PreviousPage =>
          if (0 <? active_page)%nat then mret (GoTo (active_page - 1)) else page_events fuel n_pages active_page
      | EvAct NextPage =>
          if (active_page + 1 <? n_pages)%nat then mret (GoTo (active_page + 1)) else page_events fuel n_pages active_page
      | EvAct Quit => mret (Done false)
      | EvAct ActConfirm => mret (Done true)
      | _ => page_events fuel n_pages active_page
      end
  end.
Definition next_page (n_pages : nat) (ranges : list (nat * nat)) (next_page_index : nat) : U UxPage :=
  let i := w32 (Z.of_nat next_page_index) in
  let n := w32 (Z.of_nat n_pages) in
  if (next_page_index =? n_pages - 1)%nat then
    mret (if long_press then page_review_pairs_final_longpress i n final_text final_button_text
          else page_review_pairs_final_confirmationbutton i n final_text final_button_text)
  else
    '(start, end_) ← lift (unwrap (ranges !! (next_page_index - 1)%nat));
    mret (page_review_pairs_content i n (slice start (end_ - start) pairs)).
(** [serialized_pages] grows when the last of them is shown. *)
Fixpoint page_loop (fuel n_pages : nat) (ranges : list (nat * nat)) (serialized_pages : list (list Z)) (active_page : nat) : U bool :=
  match fuel with
  | O => diverge
  | S fuel =>
      page ← lift (unwrap (serialized_pages !! active_page));
      show_page_raw page;;
      serialized_pages ←
        (if (active_page + 1 <? n_pages)%nat && (length serialized_pages =? active_page + 1)%nat then
           p ← next_page n_pages ranges (active_page + 1);
           raw ← made p;
           mret (serialized_pages ++ [raw])
         else mret serialized_pages);
      ev_fuel ← event_fuel;
      turn ← page_events ev_fuel n_pages active_page;
      match turn with
      | GoTo n => page_loop fuel n_pages ranges serialized_pages n
      | Done b => mret b
      end
  end.
Definition page_review_pairs : U bool :=
  metrics ← get_page_layout_metrics;
  let ranges := compute_pair_page_ranges metrics pairs in
  let n_pages := (2 + length ranges)%nat in
  intro ← made (page_review_pairs_intro 0 (w32 (Z.of_nat n_pages)) intro_text intro_subtext);
  fuel ← event_fuel;
  page_loop fuel n_pages ranges [intro] 0.

(** The steps: the introduction, the pairs, the confirmation, the rejection. *)
Definition review_step (n_steps n_pair_steps cur_step : nat) : U UxStep :=
  let pos := step_pos n_steps cur_step in
  if (cur_step =? 0)%nat then mret (step_text_subtext (step_pos n_steps 0) intro_text intro_subtext)
  else if (cur_step <=? n_pair_steps)%nat then
    pair_ ← lift (unwrap (pairs !! (cur_step - 1)%nat));
    mret (step_text_subtext pos (tag pair_) (value pair_))
  else if (cur_step =? n_pair_steps + 1)%nat then mret (step_centered_info_nosubtext pos final_button_text Confirm)
  else if (cur_step =? n_pair_steps + 2)%nat then mret (step_reject pos)
  else panic.
(** [confirm] and [reject] are the steps where the button answers. *)
Fixpoint step_events (fuel n_steps confirm reject cur_step : nat) : U Turn :=
  match fuel with
  | O => diverge
  | S fuel =>
      ev ← get_event;
      match ev with
      | EvAct NextPage =>
          if (cur_step <? n_steps - 1)%nat then mret (GoTo (cur_step + 1)) else step_events fuel n_steps confirm reject cur_step
      | EvAct PreviousPage =>
          if (0 <? cur_step)%nat then mret (GoTo (cur_step - 1)) else step_events fuel n_steps confirm reject cur_step
      | EvAct ActConfirm =>
          if (cur_step =? confirm)%nat then mret (Done true)
          else if (cur_step =? reject)%nat then mret (Done false)
          else step_events fuel n_steps confirm reject cur_step
      | _ => step_events fuel n_steps confirm reject cur_step
      end
  end.
Fixpoint step_loop (fuel n_steps confirm reject : nat) (step : nat -> U UxStep) (cur_step : nat) : U bool :=
  match fuel with
  | O => diverge
  | S fuel =>
      s ← step cur_step;
      show_step s;;
      ev_fuel ← event_fuel;
      turn ← step_events ev_fuel n_steps confirm reject cur_step;
      match turn with
      | GoTo n => step_loop fuel n_steps confirm reject step n
      | Done b => mret b
      end
  end.
Definition step_review_pairs : U bool :=
  let n_pair_steps := length pairs in
  let n_steps := (3 + n_pair_steps)%nat in
  fuel ← event_fuel;
  step_loop fuel n_steps (n_pair_steps + 1) (n_pair_steps + 2) (review_step n_steps n_pair_steps) 0.

Definition ux_review_pairs : U bool :=
  p ← has_page_api;
  if (p : bool) then page_review_pairs else step_review_pairs.
End page_review.

(** ** Confirmations, spinners and notes *)

Fixpoint confirm_events (fuel : nat) : U bool :=
  match fuel with
  | O => diverge
  | S fuel =>
      ev ← get_event;
      match ev with EvAct ActReject => mret false | EvAct ActConfirm => mret true | _ => confirm_events fuel end
  end.
Definition confirm_step (title_ text_ : String) (cur_step : nat) : U UxStep :=
  match cur_step with
  | 0%nat => mret (step_text_subtext (step_pos 3 cur_step) title_ text_)
  | 1%nat => mret (step_confirm (step_pos 3 cur_step))
  | 2%nat => mret (step_reject (step_pos 3 cur_step))
  | _ => panic
  end.
Definition ux_show_confirm_reject (title_ text_ confirm reject : String) : U bool :=
  p ← has_page_api;
  if p : bool then
    show_page (ConfirmReject title_ text_ confirm reject);;
    fuel ← event_fuel;
    confirm_events fuel
  else
    fuel ← event_fuel;
    step_loop fuel 3 1 2 (confirm_step title_ text_) 0.
Definition ux_show_spinner (t : String) : U unit :=
  p ← has_page_api;
  if (p : bool) then show_page (Spinner t) else show_step (step_spinner t).

(** ** The methods of the app *)

Definition set_ux_dirty : U unit := modify (fun u => with_ticks 0 (with_dirty true u)).
Definition review_pairs (intro_text intro_subtext : String) (pairs : list TagValue) (final_text final_button_text : String)
    (long_press : bool) : U bool :=
  set_ux_dirty;;
  ux_review_pairs intro_text intro_subtext pairs final_text final_button_text long_press.
Definition show_confirm_reject (title_ text_ confirm reject : String) : U bool :=
  set_ux_dirty;;
  ux_show_confirm_reject title_ text_ confirm reject.
Definition show_spinner (t : String) : U unit := set_ux_dirty;; ux_show_spinner t.
Definition show_info (icon : Icon) (t : String) : U unit :=
  set_ux_dirty;;
  p ← has_page_api;
  (if (p : bool) then show_page (Info icon t) else show_step (step_info_single t));;
  modify (with_ticks 30).
(** The function of [ux.rs], which waits. *)
Definition ux_show_info (icon : Icon) (t : String) : U unit :=
  p ← has_page_api;
  (if (p : bool) then show_page (Info icon t) else show_step (step_info_single t));;
  wait 20.

(** ** The dashboard *)

Section dashboard.
Variable info : AppInfo.

Definition dashboard_text : String := default (text "Application is ready") (description info).
Definition show_page_home : U unit := show_page (Home dashboard_text);; modify (with_view HomePage).
(** The page is serialized once and kept. *)
Definition home_info_fields : list TagValue :=
  [mkTagValue (text "V-App name") (vapp_name info); mkTagValue (text "Version") (version info)] ++
  match developer info with Some dev => [mkTagValue (text "Developer") dev] | None => [] end.
Definition show_page_app_info : U unit := show_page (page_home_info home_info_fields);; modify (with_view AppInfoPage).
Definition show_step_home_intro : U unit :=
  show_step (step_text_subtext (step_pos 3 0) dashboard_text (text ""));; modify (with_view HomeIntroStep).
Definition show_step_home_app_info : U unit :=
  show_step (step_text_subtext (step_pos 3 1) (text "App Info") (text ""));; modify (with_view HomeAppInfoStep).
Definition show_step_home_quit : U unit :=
  show_step (step_text_subtext (step_pos 3 2) (text "Quit") (text ""));; modify (with_view HomeQuitStep).
Definition n_appinfo_steps : nat := 3 + match developer info with Some _ => 1 | None => 0 end.
Definition app_info_step (index : nat) : U UxStep :=
  let n_steps := n_appinfo_steps in
  let back := if (index =? n_steps - 1)%nat then mret (step_text_subtext (step_pos n_steps (n_steps - 1)) (text "Back") (text ""))
              else panic in
  match index with
  | 0%nat => mret (step_btext_subtext (step_pos n_steps 0) (text "V-App Name") (vapp_name info))
  | 1%nat => mret (step_btext_subtext (step_pos n_steps 1) (text "Version") (version info))
  | 2%nat => match developer info with
             | Some dev => mret (step_btext_subtext (step_pos n_steps 2) (text "Developer") dev)
             | None => back
             end
  | _ => back
  end.
Definition show_step_app_info (index : nat) : U unit :=
  s ← app_info_step index;
  show_step s;;
  modify (with_view (AppInfoStep index)).

(** [exit] does not return. *)
Definition process_ux_events (show_dashboard : bool) : U unit :=
  u ← get;
  (if show_dashboard && ux_dirty u && (cleanup_ticks u =? 0) then
     p ← has_page_api;
     (if p : bool then show_page_home else show_step_home_intro);;
     modify (with_dirty false)
   else mret tt);;
  ev ← get_event;
  v ← gets current_view;
  match v, ev with
  | HomePage, EvAct Quit => diverge
  | HomePage, EvAct TopRight => show_page_app_info
  | AppInfoPage, EvAct Quit => show_page_home
  | HomeIntroStep, EvAct NextPage => show_step_home_app_info
  | HomeAppInfoStep, EvAct PreviousPage => show_step_home_intro
  | HomeAppInfoStep, EvAct ActConfirm => show_step_app_info 0
  | HomeAppInfoStep, EvAct NextPage => show_step_home_quit
  | HomeQuitStep, EvAct PreviousPage => show_step_home_app_info
  | HomeQuitStep, EvAct ActConfirm => diverge
  | AppInfoStep n, EvAct NextPage =>
      if (n + 1 <? n_appinfo_steps)%nat then show_step_app_info (n + 1) else mret tt
  | AppInfoStep n, EvAct ActConfirm =>
      if (n =? n_appinfo_steps - 1)%nat then show_step_home_app_info else mret tt
  | AppInfoStep n, EvAct PreviousPage => if (0 <? n)%nat then show_step_app_info (n - 1) else mret tt
  | _, EvTicker => modify (fun u => if 0 <? cleanup_ticks u then with_ticks (cleanup_ticks u - 1) u else u)
  | _, _ => mret tt
  end.
End dashboard.
End flows.
