(* ===== verification/ReviewSpec.v ===== *)
(** * Reviews show everything

    The pages of a review hold all pairs in their order and are filled as far as they fit; an
    approved review has drawn every one of its screens; a review ends or waits for an event. *)

From S2P Require Import Prelude Text Ux Review.

(** ** Pages of pairs *)

Section ranges.
Context (metrics : PageLayoutMetrics) (pairs : list TagValue).
Abbreviation est := (estimate_pair_height metrics).
Definition height (a b : nat) : Z := foldr (fun tv n => est tv + n) 0 (slice a (b - a) pairs).

Lemma slice_S a b tv : (a <= b)%nat -> pairs !! b = Some tv -> slice a (S b - a) pairs = slice a (b - a) pairs ++ [tv].
Proof.
  intros Hab Hb. unfold slice. replace (S b - a)%nat with (S (b - a)) by lia. apply take_S_r.
  rewrite lookup_drop. by replace (a + (b - a))%nat with b by lia.
Qed.
Lemma foldr_sum l tv : foldr (fun tv n => est tv + n) 0 (l ++ [tv]) = foldr (fun tv n => est tv + n) 0 l + est tv.
Proof. induction l; cbn; lia. Qed.
Lemma drop_next e (tv : TagValue) rest : tv :: rest = drop e pairs -> pairs !! e = Some tv /\ rest = drop (S e) pairs.
Proof.
  intros Hr. split; [by rewrite <- (Nat.add_0_r e), <- lookup_drop, <- Hr|].
  replace (S e) with (e + 1)%nat by lia. by rewrite <- drop_drop, <- Hr.
Qed.
Lemma height_one a tv : pairs !! a = Some tv -> height a (S a) = est tv.
Proof. intros Ha. unfold height. rewrite (slice_S a a tv) by (done || lia). rewrite foldr_sum, Nat.sub_diag. done. Qed.

Lemma fill_page_bounds n e rest : (e <= fill_page metrics n e rest <= e + length rest)%nat.
Proof.
  revert n e; induction rest as [|tv rest IH]; intros n e; cbn [fill_page length]; [lia|].
  case_match; [lia|]. specialize (IH (w32 (n + est tv)) (S e)). lia.
Qed.
Definition partition (rs : list (nat * nat)) (start : nat) : Prop :=
  concat (map (fun '(a, b) => slice a (b - a) pairs) rs) = drop start pairs /\
  Forall (fun '(a, b) => (a < b <= length pairs)%nat) rs.
Lemma ranges_partition fuel start : (length pairs - start <= fuel)%nat -> (start <= length pairs)%nat ->
  partition (pair_page_ranges fuel metrics pairs start) start.
Proof.
  revert start; induction fuel as [|fuel IH]; intros start Hf Hs; cbn [pair_page_ranges].
  { unfold partition. by rewrite drop_ge by lia. }
  assert (length (drop start pairs) = length pairs - start)%nat as Hl by apply length_drop.
  destruct (drop start pairs) as [|tv rest] eqn:E; cbn in Hl. { unfold partition. by rewrite E. }
  pose proof (fill_page_bounds (est tv) (S start) rest). set (e := fill_page _ _ _ _) in *.
  destruct (IH e) as [Hc Ha]; [lia|lia|]. split.
  - cbn [map concat]. rewrite Hc. unfold slice. rewrite <- (take_drop (e - start) (drop start pairs)) at 2.
    rewrite drop_drop. by replace (start + (e - start))%nat with e by lia.
  - constructor; [lia|done].
Qed.

Hypothesis Hest : Forall (fun tv => 0 <= est tv < 2 ^ 31) pairs.
Hypothesis Hcontent : 0 <= content_height_px metrics < 2 ^ 31.

(** A page with several pairs fits, and the next pair would not have. *)
Definition filled (a b : nat) : Prop :=
  (b = S a \/ height a b <= content_height_px metrics) /\ (b = length pairs \/ content_height_px metrics < height a (S b)).
Lemma fill_page_fits a e rest : (a < e <= length pairs)%nat -> rest = drop e pairs -> 0 <= height a e < 2 ^ 31 ->
  let e' := fill_page metrics (height a e) e rest in
  (e' = e \/ height a e' <= content_height_px metrics) /\ (e' = length pairs \/ content_height_px metrics < height a (S e')).
Proof.
  revert e; induction rest as [|tv rest IH]; intros e Ha Hr Hh; cbn [fill_page].
  { split; [by left|]. left. apply (f_equal length) in Hr. rewrite length_drop in Hr. cbn in Hr. lia. }
  apply drop_next in Hr as [Htv Hr]. pose proof (Forall_lookup_1 _ _ _ _ Hest Htv) as Ht. cbn in Ht.
  assert (height a (S e) = height a e + est tv) as HS.
  { unfold height. rewrite (slice_S a e tv) by (done || lia). by rewrite foldr_sum. }
  rewrite (wrap_small 32) by (unfold is_u; lia). destruct (Z.ltb_spec (content_height_px metrics) (height a e + est tv)) as [|Hle].
  { split; [by left|]. right. lia. }
  rewrite <- HS in *. apply lookup_lt_Some in Htv. destruct (IH (S e)) as [Hb Hf]; [lia|done|lia|].
  split; [|done]. right. destruct Hb as [->|?]; lia.
Qed.
Lemma ranges_filled fuel start : Forall (fun '(a, b) => filled a b) (pair_page_ranges fuel metrics pairs start).
Proof.
  revert start; induction fuel as [|fuel IH]; intros start; cbn [pair_page_ranges]; [constructor|].
  destruct (drop start pairs) as [|tv rest] eqn:E; [constructor|]. symmetry in E. apply drop_next in E as [Htv Hr].
  pose proof (Forall_lookup_1 _ _ _ _ Hest Htv) as Ht. cbn in Ht. constructor; [|apply IH].
  rewrite <- (height_one start tv) by done. apply lookup_lt_Some in Htv as Hlt. apply fill_page_fits; [lia|done|].
  rewrite (height_one start tv) by done. lia.
Qed.
End ranges.

Definition short (s : String) : Prop := Z.of_nat (length (as_bytes s)) < 2 ^ 16.
Lemma text_lines_bound s n : short s -> 0 < n < 100 -> 1 <= text_lines s n <= 2 ^ 16.
Proof.
  intros Hs Hn. unfold text_lines, short in *. set (l := Z.of_nat _) in *. assert (0 <= l) by lia.
  rewrite (wrap_small 32 (l + n)) by (unfold is_u; lia). rewrite (wrap_small 32 (l + n - 1)) by (unfold is_u; lia).
  assert (0 <= (l + n - 1) / n <= 2 ^ 16).
  { split; [apply Z.div_pos; lia|]. apply Z.div_le_upper_bound; nia. }
  rewrite wrap_small by (unfold is_u; lia). lia.
Qed.
Lemma estimate_bound device metrics tv : page_layout_metrics device = Some metrics -> short (tag tv) -> short (value tv) ->
  0 <= estimate_pair_height metrics tv < 2 ^ 31 /\ 0 <= content_height_px metrics < 2 ^ 31.
Proof.
  intros Hm Ht Hv. unfold page_layout_metrics in Hm. unfold estimate_pair_height.
  repeat case_match; try discriminate Hm; injection Hm as <-; cbn [tag_chars_per_line tag_line_height_px value_chars_per_line value_line_height_px pair_padding_px content_height_px];
  match goal with |- context [text_lines (tag tv) ?n] => pose proof (text_lines_bound _ n Ht ltac:(lia)) end;
  match goal with |- context [text_lines (value tv) ?n] => pose proof (text_lines_bound _ n Hv ltac:(lia)) end;
  repeat match goal with |- context [wrap 32 ?x] =>
    lazymatch x with context [wrap _ _] => fail | _ => rewrite (wrap_small 32 x) by (unfold is_u; lia) end
  end; lia.
Qed.

(** C30. On every device with pages, the pages of a review hold the pairs in their order, each exactly
    once; no page is empty, a page with several pairs fits on the screen by the estimate, and a page
    ends only where the next pair would not fit. *)
Theorem pages_of_pairs device metrics pairs : page_layout_metrics device = Some metrics ->
  Forall (fun tv => short (tag tv) /\ short (value tv)) pairs ->
  let pages := compute_pair_page_ranges metrics pairs in
  concat (map (fun '(a, b) => slice a (b - a) pairs) pages) = pairs /\
  Forall (fun '(a, b) => (a < b <= length pairs)%nat /\ filled metrics pairs a b) pages.
Proof.
  intros Hm Hp pages. destruct (ranges_partition metrics pairs (length pairs) 0) as [Hc Hb]; [lia|lia|]. split; [exact Hc|].
  destruct pairs as [|tv pairs']; [constructor|]. set (pairs := tv :: pairs') in *.
  assert (Forall (fun tv => 0 <= estimate_pair_height metrics tv < 2 ^ 31) pairs /\ 0 <= content_height_px metrics < 2 ^ 31) as [He Hh].
  { split; [|apply Forall_cons in Hp as [[? ?] _]; by eapply estimate_bound].
    eapply Forall_impl; [exact Hp|]. intros x [? ?]. by eapply estimate_bound. }
  pose proof (ranges_filled metrics pairs He Hh (length pairs) 0) as Hf.
  rewrite Forall_forall in Hb, Hf |- *. intros [a b] Hab. by specialize (Hb _ Hab); specialize (Hf _ Hab).
Qed.
Example pages_of_pairs_witness :
  let m := default (Build_PageLayoutMetrics 0 0 0 0 0 0) (page_layout_metrics 0x2c970080) in
  let pairs := replicate 6 (mkTagValue (text "Amount") (text "0.5")) in
  compute_pair_page_ranges m pairs = [(0, 4); (4, 6)]%nat /\
  concat (map (fun '(a, b) => slice a (b - a) pairs) (compute_pair_page_ranges m pairs)) = pairs.
Proof.
  split; [reflexivity|]. apply (pages_of_pairs 0x2c970080 _ (replicate 6 (mkTagValue (text "Amount") (text "0.5")))); [reflexivity|].
  repeat constructor; done.
Defined.

(** ** What events and drawing do *)

Section runs.
Context {B E : Type} `{Heap} (device : Z) (poll_once : ST B Empty_set unit) (fair : bool).
Hypothesis poll_ends : fair = true -> forall b, fst (poll_once b) <> Diverge.
Abbreviation U := (ST (UxState B) E).

(** A value satisfies [Q]; a computation that does not end waits for an event (with [fair]). *)
Definition runs {A} (m : U A) (u : UxState B) (Q : A -> UxState B -> Prop) : Prop :=
  match m u with
  | (Ok x, u') => Q x u'
  | (Diverge, u') => fair = true -> events u' = []
  | _ => True
  end.
Lemma runs_bind {A A'} (m : U A) (f : A -> U A') u Q : runs m u (fun x u' => runs (f x) u' Q) -> runs (x ← m; f x) u Q.
Proof. unfold runs, mbind, st_mbind, st_bind. by destruct (m u) as [[] ?]. Qed.
Lemma runs_assoc {A A' C} (m : U A) (f : A -> U A') (k : A' -> U C) u Q :
  runs (y ← (x ← m; f x); k y) u Q -> runs (x ← m; y ← f x; k y) u Q.
Proof. unfold runs, mbind, st_mbind, st_bind. by destruct (m u) as [[] ?]. Qed.
Lemma runs_mono {A} (m : U A) u (Q R : A -> UxState B -> Prop) :
  runs m u Q -> (forall x u', Q x u' -> R x u') -> runs m u R.
Proof. unfold runs. destruct (m u) as [[] ?]; auto. Qed.
Lemma runs_made {T} `{Codec T} (x : T) u (Q : list Z -> UxState B -> Prop) :
  (forall raw, serialize x = Ok raw -> Q raw u) -> runs (made x) u Q.
Proof. unfold runs, made. destruct (serialize x); cbn; auto. Qed.
Lemma runs_unwrap {A} (o : option A) u (Q : A -> UxState B -> Prop) :
  (forall x, o = Some x -> Q x u) -> runs (lift (unwrap o)) u Q.
Proof. unfold runs, lift. destruct o; cbn; auto. Qed.
Definition consumes (u u' : UxState B) (ev : Event) : Prop := events u = ev :: events u' /\ drawn_raw u' = drawn_raw u.
Lemma runs_event u : runs (get_event poll_once) u (fun ev u' => consumes u u' ev).
Proof.
  unfold runs, get_event, gets, mbind, st_mbind, st_bind, modify. destruct (events u) as [|ev evs] eqn:Eu; cbn; [done|].
  unfold consumes. destruct ev; cbn; try by rewrite Eu. unfold on_background, zoom, map_err. cbn.
  destruct (poll_once _) as [[x|[]| |] b] eqn:Ep; cbn; [by rewrite Eu| |].
  { done. }
  intros Hf. by destruct (poll_ends Hf (background u)); rewrite Ep.
Qed.

(** ** Events of the reviews *)

(** The device confirms only where the last page is shown: from page [a] of [n]. *)
Fixpoint confirms_last (n a : nat) (evs : list Event) : Prop :=
  match evs with
  | [] => True
  | EvAct ActConfirm :: _ => a = (n - 1)%nat
  | EvAct Quit :: _ => True
  | EvAct PreviousPage :: evs => confirms_last n (a - 1) evs
  | EvAct NextPage :: evs => confirms_last n (if (a + 1 <? n)%nat then a + 1 else a)%nat evs
  | _ :: evs => confirms_last n a evs
  end.

Definition left_by (u u' : UxState B) : Prop := (length (events u') < length (events u))%nat /\ drawn_raw u' = drawn_raw u.
Lemma page_events_spec fuel n a u : (length (events u) < fuel)%nat -> (a < n)%nat ->
  runs (page_events poll_once fuel n a) u (fun turn u' => left_by u u' /\
    match turn with
    | GoTo m => (m < n)%nat /\ (m <= a + 1)%nat /\ (confirms_last n a (events u) -> confirms_last n m (events u'))
    | Done result => result = true -> confirms_last n a (events u) -> a = (n - 1)%nat
    end).
Proof.
  revert u; induction fuel as [|fuel IH]; intros u Hf Ha; [lia|]. cbn [page_events]. apply runs_bind.
  eapply runs_mono; [apply runs_event|]. intros ev u1 [Hev Hd]. unfold left_by. rewrite Hev in *. cbn [length] in *.
  assert (forall evs, (confirms_last n a evs <-> confirms_last n a (events u1)) ->
    runs (page_events poll_once fuel n a) u1 (fun turn u' => ((length (events u') < S (length (events u1)))%nat /\
      drawn_raw u' = drawn_raw u) /\
      match turn with
      | GoTo m => (m < n)%nat /\ (m <= a + 1)%nat /\ (confirms_last n a evs -> confirms_last n m (events u'))
      | Done result => result = true -> confirms_last n a evs -> a = (n - 1)%nat
      end)) as stay.
  { intros evs Hs. eapply runs_mono; [apply IH; [lia|done]|]. intros turn u' [[Hl Hd'] Hturn].
    split; [split; [lia|congruence]|]. destruct turn as [m|r].
    - destruct Hturn as (? & ? & Hc). split_and!; [done..|by rewrite Hs].
    - intros Hr. rewrite Hs. by apply Hturn. }
  assert (forall m : nat, runs (mret m : U nat) u1 (fun _ u' => (length (events u') < S (length (events u1)))%nat /\
    drawn_raw u' = drawn_raw u)) as here by (intros; split; [lia|done]).
  destruct ev as [|[]|]; try (by apply stay).
  - split; [by apply (here 0%nat)|]. cbn. auto.
  - by split; [apply (here 0%nat)|].
  - destruct (Nat.ltb_spec 0 a).
    + split; [apply (here 0%nat)|]. cbn. split_and!; [lia|lia|done].
    + apply stay. cbn. by replace (a - 1)%nat with a by lia.
  - cbn [confirms_last] in *. destruct (Nat.ltb_spec (a + 1) n).
    + split; [apply (here 0%nat)|]. split_and!; [lia|lia|]. intros Hc. cbn in Hc. destruct (Nat.ltb_spec (a + 1) n); [done|lia].
    + apply stay. cbn. by destruct (Nat.ltb_spec (a + 1) n); [lia|].
Qed.

Section pages.
Context (intro_text intro_subtext : String) (pairs : list TagValue) (final_text final_button_text : String) (long_press : bool).
Context (ranges : list (nat * nat)).
Abbreviation n := (2 + length ranges)%nat.
(** Page [i] holds the pairs of its range; the first and the last page hold none. *)
Definition page_at (i : nat) (raw : list Z) : Prop := forall a b, (0 < i)%nat -> ranges !! (i - 1)%nat = Some (a, b) ->
  serialize (page_review_pairs_content (w32 (Z.of_nat i)) (w32 (Z.of_nat n)) (slice a (b - a) pairs)) = Ok raw.
(** The pages before the active one were drawn. *)
Definition pages_drawn (a : nat) (u : UxState B) : Prop :=
  forall i, (i < a)%nat -> exists raw, page_at i raw /\ PageRaw raw ∈ drawn_raw u.
Definition pages_ok (sp : list (list Z)) : Prop := (length sp <= n)%nat /\ forall i raw, sp !! i = Some raw -> page_at i raw.

Lemma next_page_spec i u : (0 < i)%nat -> runs (p ← next_page pairs final_text final_button_text long_press n ranges i; made p) u
  (fun raw u' => u' = u /\ page_at i raw).
Proof.
  intros Hi. apply runs_bind. unfold next_page. destruct (Nat.eqb_spec i (n - 1)) as [->|Hn].
  - apply runs_made. intros raw _. split; [done|]. intros a b _ Hr. apply lookup_lt_Some in Hr. lia.
  - apply runs_bind, runs_unwrap. intros [a b] Hr. apply runs_made. intros raw E0. split; [done|].
    intros a' b' _ Hr'. rewrite Hr in Hr'. by injection Hr' as <- <-.
Qed.
Lemma page_loop_spec fuel sp a u : (length (events u) < fuel)%nat -> pages_ok sp -> pages_drawn a u ->
  runs (page_loop poll_once pairs final_text final_button_text long_press fuel n ranges sp a) u
    (fun result u' => result = true -> confirms_last n a (events u) -> pages_drawn (n - 1) u').
Proof.
  revert sp a u; induction fuel as [|fuel IH]; intros sp a u Hf [Hn Hsp] Hd; [lia|]. cbn [page_loop].
  apply runs_bind, runs_unwrap. intros raw Hraw. apply lookup_lt_Some in Hraw as Ha.
  apply runs_bind. unfold show_page_raw. cbn [runs modify fst snd]. set (u1 := with_drawn _ u).
  assert (pages_drawn (S a) u1) as Hd1.
  { intros i Hi. destruct (decide (i = a)) as [->|]; [exists raw; split; [by apply Hsp|set_solver]|].
    destruct (Hd i) as (r & Hr & Hin); [lia|]. exists r. split; [done|]. cbn. set_solver. }
  apply runs_bind, (runs_mono _ _ (fun sp' u' => u' = u1 /\ pages_ok sp')).
  { destruct (_ && _) eqn:Eb; [|split; [done|by split]]. apply andb_true_iff in Eb as [Eb1%Nat.ltb_lt Eb2%Nat.eqb_eq].
    apply runs_assoc, runs_bind. eapply runs_mono; [apply next_page_spec; lia|]. intros r u' [-> Hr]. split; [done|].
    split; [rewrite length_app; cbn; lia|]. intros i r' [[_ Hi]|[-> ->]]%lookup_snoc_Some; [exact (Hsp _ _ Hi)|].
    rewrite Eb2. exact Hr. }
  intros sp' u' [-> Hsp']. apply runs_bind. cbn [runs event_fuel gets].
  apply runs_bind. eapply runs_mono; [apply page_events_spec; cbn; lia|].
  intros [m|[]] u2 [[Hl Hdr] Ht]; cbn in Hl, Hdr.
  - destruct Ht as (? & ? & Hc). eapply runs_mono; [apply IH; [lia|done|]|].
    + intros i Hi. rewrite Hdr. apply Hd1. lia.
    + intros r u3 Hr Ht Hca. apply Hr; [done|]. by apply Hc.
  - intros _ Hc. rewrite <- (Ht eq_refl Hc). intros i Hi. rewrite Hdr. apply Hd1. lia.
  - done.
Qed.
Lemma page_review_spec u : match page_layout_metrics device with
    | Some metrics => ranges = compute_pair_page_ranges metrics pairs | None => True end ->
  runs (page_review_pairs device poll_once intro_text intro_subtext pairs final_text final_button_text long_press) u
    (fun result u' => result = true -> confirms_last n 0 (events u) -> pages_drawn (n - 1) u').
Proof.
  intros Hr. unfold page_review_pairs, get_page_layout_metrics. destruct (page_layout_metrics device) as [metrics|]; [|done].
  apply runs_bind. cbn [runs mret st_mret st_ret]. rewrite <- Hr. apply runs_bind, runs_made. intros raw _.
  apply runs_bind. cbn [runs event_fuel gets]. apply page_loop_spec; [lia| |intros i Hi; lia].
  split; [cbn; lia|]. intros [|[|i]] raw' Hi; try done. intros a b ?. lia.
Qed.
End pages.

Lemma step_events_spec fuel n confirm reject a u : (length (events u) < fuel)%nat ->
  runs (step_events poll_once fuel n confirm reject a) u (fun turn u' => left_by u u' /\
    match turn with
    | GoTo m => (m <= a + 1)%nat
    | Done result => result = true -> a = confirm
    end).
Proof.
  revert u; induction fuel as [|fuel IH]; intros u Hf; [lia|]. cbn [step_events]. apply runs_bind.
  eapply runs_mono; [apply runs_event|]. intros ev u1 [Hev Hd]. unfold left_by in *. rewrite Hev in *. cbn [length] in *.
  assert (runs (step_events poll_once fuel n confirm reject a) u1 (fun turn u' =>
    ((length (events u') < S (length (events u1)))%nat /\ drawn_raw u' = drawn_raw u) /\
    match turn with GoTo m => (m <= a + 1)%nat | Done result => result = true -> a = confirm end)) as stay.
  { eapply runs_mono; [apply IH; lia|]. intros turn u' [[Hl Hd'] Hturn]. split; [split; [lia|congruence]|done]. }
  assert (((length (events u1) < S (length (events u1)))%nat /\ drawn_raw u1 = drawn_raw u)) as here by (split; [lia|done]).
  destruct ev as [|[]|]; try exact stay.
  - destruct (Nat.eqb_spec a confirm); [by split|]. by destruct (a =? reject)%nat; [split|].
  - destruct (0 <? a)%nat; [|exact stay]. split; [exact here|]. lia.
  - destruct (a <? n - 1)%nat; [|exact stay]. split; [exact here|]. lia.
Qed.
Section steps.
Context (n confirm reject : nat) (step : nat -> U UxStep) (step_at : nat -> list Z -> Prop).
Hypothesis Hstep : forall i u, runs (step i) u (fun s u' => u' = u /\ forall raw, serialize s = Ok raw -> step_at i raw).
Definition steps_drawn (a : nat) (u : UxState B) : Prop :=
  forall i, (i < a)%nat -> exists raw, step_at i raw /\ StepRaw raw ∈ drawn_raw u.
Lemma step_loop_spec fuel a u : (length (events u) < fuel)%nat -> steps_drawn a u ->
  runs (step_loop poll_once fuel n confirm reject step a) u (fun result u' => result = true -> steps_drawn (S confirm) u').
Proof.
  revert a u; induction fuel as [|fuel IH]; intros a u Hf Hd; [lia|]. cbn [step_loop].
  apply runs_bind. eapply runs_mono; [apply Hstep|]. intros s u' [-> Hs].
  apply runs_bind, runs_bind, runs_made. intros raw Hraw. unfold show_step_raw. cbn [runs modify]. set (u1 := with_drawn _ u).
  assert (steps_drawn (S a) u1) as Hd1.
  { intros i Hi. destruct (decide (i = a)) as [->|]; [exists raw; split; [by apply Hs|set_solver]|].
    destruct (Hd i) as (r & Hr & Hin); [lia|]. exists r. split; [done|]. cbn. set_solver. }
  apply runs_bind. cbn [runs event_fuel gets]. apply runs_bind. eapply runs_mono; [apply step_events_spec; lia|].
  intros [m|result] u2 [[Hl Hdr] Ht]; cbn in Hl, Hdr.
  - apply IH; [lia|]. intros i Hi. rewrite Hdr. apply Hd1. lia.
  - intros ->. rewrite <- Ht by done. intros i Hi. rewrite Hdr. by apply Hd1.
Qed.
End steps.

(** The step that shows a pair. *)
Definition pair_step (pairs : list TagValue) (i : nat) (raw : list Z) : Prop := forall tv, pairs !! (i - 1)%nat = Some tv -> (0 < i)%nat ->
  serialize (step_text_subtext (step_pos (3 + length pairs) i) (tag tv) (value tv)) = Ok raw.
Lemma review_step_spec intro_text intro_subtext pairs button i u :
  runs (review_step intro_text intro_subtext pairs button (3 + length pairs) (length pairs) i : U UxStep) u
    (fun s u' => u' = u /\ forall raw, serialize s = Ok raw -> pair_step pairs i raw).
Proof.
  unfold review_step. destruct (Nat.eqb_spec i 0); [split; [done|]; intros ? _ ?; lia|].
  destruct (Nat.leb_spec i (length pairs)).
  - apply runs_bind, runs_unwrap. intros tv Htv. split; [done|]. intros raw Hraw tv' Htv' _. by simplify_eq.
  - assert (forall raw, pair_step pairs i raw) by (intros raw tv Htv%lookup_lt_Some; lia).
    by repeat (destruct (_ =? _)%nat; [by split|]).
Qed.
Lemma step_review_spec intro_text intro_subtext pairs button u :
  runs (step_review_pairs poll_once intro_text intro_subtext pairs button) u
    (fun result u' => result = true -> steps_drawn (pair_step pairs) (S (length pairs)) u').
Proof.
  unfold step_review_pairs. apply runs_bind. cbn [runs event_fuel gets].
  eapply runs_mono; [apply step_loop_spec with (step_at := pair_step pairs); [apply review_step_spec|lia|intros i Hi; lia]|].
  intros result u' Hr Ht i Hi. apply Hr; [done|lia].
Qed.
End runs.

(** ** Approved reviews *)

(** A page or a step that was drawn tells the pair. *)
Definition shows `{Heap} (l : list Drawn) (tv : TagValue) : Prop :=
  (exists raw i n tvs, PageRaw raw ∈ l /\ serialize (page_review_pairs_content i n tvs) = Ok raw /\ tv ∈ tvs) \/
  (exists raw pos, StepRaw raw ∈ l /\ serialize (step_text_subtext pos (tag tv) (value tv)) = Ok raw).

Lemma in_pages metrics pairs i tv : pairs !! i = Some tv ->
  exists k a b, compute_pair_page_ranges metrics pairs !! k = Some (a, b) /\ tv ∈ slice a (b - a) pairs.
Proof.
  intros Htv. destruct (ranges_partition metrics pairs (length pairs) 0) as [Hc _]; [lia|lia|]. rewrite drop_0 in Hc.
  apply list_elem_of_lookup_2 in Htv. rewrite <- Hc in Htv. apply list_elem_of_In, in_concat in Htv as (l & Hl & Hin).
  apply in_map_iff in Hl as ([a b] & <- & Hab). apply list_elem_of_In, list_elem_of_lookup_1 in Hab as [k Hk].
  exists k, a, b. split; [exact Hk|]. by apply list_elem_of_In.
Qed.

Section approved.
Context {B E : Type} `{Heap} (device : Z) (poll_once : ST B Empty_set unit).
Context (intro_text intro_subtext : String) (pairs : list TagValue) (final_text final_button_text : String) (long_press : bool).
Abbreviation review :=
  (review_pairs device poll_once intro_text intro_subtext pairs final_text final_button_text long_press : ST (UxState B) E bool).
Definition n_review_pages (metrics : PageLayoutMetrics) : nat := 2 + length (compute_pair_page_ranges metrics pairs).

Lemma review_runs fair u : (fair = true -> forall b, fst (poll_once b) <> Diverge) ->
  runs fair review u (fun result u' => result = true ->
    (forall metrics, page_layout_metrics device = Some metrics -> confirms_last (n_review_pages metrics) 0 (events u)) ->
    Forall (shows (drawn_raw u')) pairs).
Proof.
  intros Hends. unfold review_pairs, set_ux_dirty. apply runs_bind. cbn [runs modify]. set (u1 := with_ticks _ _).
  unfold ux_review_pairs, has_page_api. apply runs_bind. case_bool_decide as Hp; cbn [runs mret st_mret st_ret].
  - assert (exists metrics, page_layout_metrics device = Some metrics) as [metrics Hm].
    { repeat (apply elem_of_cons in Hp as [->|Hp]; [by eexists|]). by apply elem_of_nil in Hp. }
    eapply runs_mono; [apply (page_review_spec _ _ _ Hends) with (ranges := compute_pair_page_ranges metrics pairs); by rewrite Hm|].
    intros result u' Hr Ht Hc. apply Forall_lookup_2. intros i tv Htv. left.
    apply (in_pages metrics) in Htv as (k & a & b & Hk & Hin). apply lookup_lt_Some in Hk as Hlt.
    destruct (Hr Ht (Hc _ Hm) (S k) ltac:(lia)) as (raw & Hraw & Hd).
    exists raw; do 2 eexists; exists (slice a (b - a) pairs).
    split_and!; [exact Hd|apply (Hraw a b); [lia|]|exact Hin]. by replace (S k - 1)%nat with k by lia.
  - case_bool_decide; [|done]. cbn [runs mret st_mret st_ret].
    eapply runs_mono; [by apply step_review_spec|]. intros result u' Hr Ht _. apply Forall_lookup_2. intros i tv Htv. right.
    apply lookup_lt_Some in Htv as Hlt. destruct (Hr Ht (S i) ltac:(lia)) as (raw & Hraw & Hd). exists raw; eexists.
    split; [exact Hd|]. apply Hraw; [|lia]. by replace (S i - 1)%nat with i by lia.
Qed.

(** C8. A review that is approved has drawn every pair: on a device with steps always, on a device with
    pages provided that the device confirms only where the last page is shown. *)
Theorem review_shows_all u u' : review u = (Ok true, u') ->
  (forall metrics, page_layout_metrics device = Some metrics -> confirms_last (n_review_pages metrics) 0 (events u)) ->
  Forall (shows (drawn_raw u')) pairs.
Proof. intros Hr. pose proof (review_runs false u ltac:(done)) as Hs. unfold runs in Hs. rewrite Hr in Hs. by apply Hs. Qed.

(** C16. A review ends with an answer, panics, or has taken all events and waits for the next one: neither
    its loops nor its pages go on by themselves, whatever the background tasks do. *)
Theorem review_waits u u' : (forall b, fst (poll_once b) <> Diverge) -> review u = (Diverge, u') -> events u' = [].
Proof. intros Hends Hr. pose proof (review_runs true u ltac:(done)) as Hs. unfold runs in Hs. rewrite Hr in Hs. by apply Hs. Qed.
End approved.

(** On a small device: six pairs on two pages, read forth and back and confirmed at the end; the tasks
    count the tickers. *)
#[local] Instance demo_heap : Heap := 65536.
Definition demo_pairs : list TagValue :=
  (fun n => mkTagValue (text "Amount") (mkString [48 + n])) <$> [1; 2; 3; 4; 5; 6].
Definition demo_state (evs : list Event) : UxState nat := mkUx evs [] NoView false 0 0%nat.
Definition demo_review (device : Z) : ST (UxState nat) Empty_set bool :=
  review_pairs device (modify S) (text "Review") (text "payment") demo_pairs (text "Sign") (text "Confirm") false.
Definition next : Event := EvAct NextPage.
Definition demo_events : list Event := [next; EvTicker; next; EvAct PreviousPage; EvOther []; next; next; EvAct ActConfirm].
Definition demo_outcome : outcome Empty_set bool * UxState nat := demo_review 0x2c970080 (demo_state demo_events).
Example review_shows_all_witness :
  fst demo_outcome = Ok true /\ length (drawn_raw (snd demo_outcome)) = 6%nat /\ background (snd demo_outcome) = 1%nat /\
  Forall (shows (drawn_raw (snd demo_outcome))) demo_pairs.
Proof.
  split; [vm_compute; reflexivity|]. split; [vm_compute; reflexivity|]. split; [vm_compute; reflexivity|].
  apply (review_shows_all (E := Empty_set) 0x2c970080 (modify S) (text "Review") (text "payment") demo_pairs (text "Sign") (text "Confirm") false
    (demo_state demo_events)); [vm_compute; reflexivity|].
  intros metrics [= <-]. vm_compute. reflexivity.
Defined.
Example review_waits_witness : exists u, demo_review 0x2c970040 (demo_state [next; EvTicker; EvAct ActConfirm]) = (Diverge, u) /\ events u = [].
Proof.
  eexists. split; [vm_compute; reflexivity|].
  apply (review_waits (E := Empty_set) 0x2c970040 (modify S) (text "Review") (text "payment") demo_pairs (text "Sign") (text "Confirm") false
    (demo_state [next; EvTicker; EvAct ActConfirm])); [by intros b|vm_compute; reflexivity].
Defined.
(** A confirmation that arrives while the first page is shown approves the review: no pair was drawn. *)
Example early_confirmation : exists raw,
  let '(o, u) := demo_review 0x2c970080 (demo_state [EvAct ActConfirm]) in
  o = Ok true /\ drawn_raw u = [PageRaw raw] /\ serialize (page_review_pairs_intro 0 4 (text "Review") (text "payment")) = Ok raw.
Proof. eexists. vm_compute. split_and!; reflexivity. Qed.
