(* ===== verification/Makers.v ===== *)
(** * Makers of pages and steps ([common/src/ux/codec.rs], [types.rs], [macros/src/derive_serializable.rs],
      [app-sdk/build.rs], [app-sdk/build_utils/mod.rs])

    The build script writes a function for every kind of page and step: what is constant is
    serialized when the SDK is built, what is not becomes an argument. *)

From S2P Require Import Prelude Text Ux.

(** ** Wrapped serialization *)

Inductive SerializedPart : Type := Static (vec : list Z) | Runtime (arg_name arg_type : string).
Class WrappedSerializable (W : Type) := serialize_wrapped : W -> outcome string (list SerializedPart).

Inductive MaybeConst (T : Type) : Type := Const (value : T) | RuntimeArg (arg_name arg_type : string).
Arguments Const {T} value.
Arguments RuntimeArg {T} arg_name arg_type.
Inductive MaybeConstStr : Type := ConstStr (value : String) | RuntimeStr (arg_name arg_type : string).
Definition ct {T} (value : T) : MaybeConst T := Const value.
Definition rt {T} (arg_name arg_type : string) : MaybeConst T := RuntimeArg arg_name arg_type.
Definition ct_str (value : string) : MaybeConstStr := ConstStr (mkString (lit value)).
Definition rt_str (arg_name arg_type : string) : MaybeConstStr := RuntimeStr arg_name arg_type.

#[export] Instance maybe_const_wrapped {T} `{Codec T} : WrappedSerializable (MaybeConst T) := fun m =>
  match m with
  | Const value => buf ← serialize value; Ok [Static buf]
  | RuntimeArg arg_name arg_type => Ok [Runtime arg_name arg_type]
  end.
#[export] Instance maybe_const_str_wrapped : WrappedSerializable MaybeConstStr := fun m =>
  match m with
  | ConstStr value =>
      buf ← serialize (U16 (w16 (Z.of_nat (length (as_bytes value)))));
      Ok [Static (buf ++ as_bytes value)]
  | RuntimeStr arg_name arg_type => Ok [Runtime arg_name arg_type]
  end.
#[export] Instance option_wrapped {W} `{WrappedSerializable W} : WrappedSerializable (option W) := fun o =>
  match o with
  | Some value => parts ← serialize_wrapped value; Ok (Static [1] :: parts)
  | None => Ok [Static [0]]
  end.

(** ** The derived instances *)

Definition then_parts (a b : outcome string (list SerializedPart)) : outcome string (list SerializedPart) :=
  x ← a; y ← b; Ok (x ++ y).
Infix "+parts+" := then_parts (at level 60, right associativity).
Definition tagged_parts (discriminant : Z) (fields : outcome string (list SerializedPart)) : outcome string (list SerializedPart) :=
  Ok [Static [discriminant]] +parts+ fields.

Inductive WrappedNavInfo : Type :=
| WrappedNavWithButtons (has_back_button has_page_indicator : MaybeConst bool) (quit_text : option MaybeConstStr).
Record WrappedNavigationInfo : Type := mkWrappedNavigationInfo {
  w_active_page : MaybeConst u32;
  w_n_pages : MaybeConst u32;
  w_skip_text : option MaybeConstStr;
  w_nav_info : WrappedNavInfo
}.
Record WrappedTagValue : Type := mkWrappedTagValue { w_tag : MaybeConstStr; w_value : MaybeConstStr }.
Inductive WrappedPageContent : Type :=
| WrappedTextSubtext (text subtext : MaybeConstStr)
| WrappedTagValueList (l : MaybeConst (list TagValue))
| WrappedConfirmationButton (text button_text : MaybeConstStr)
| WrappedConfirmationLongPress (text long_press_text : MaybeConstStr).
Record WrappedPageContentInfo : Type := mkWrappedPageContentInfo {
  w_title : option MaybeConstStr;
  w_top_right_icon : MaybeConst Icon;
  w_page_content : WrappedPageContent
}.
Inductive WrappedPage : Type :=
| WrappedSpinner (text : MaybeConstStr)
| WrappedInfo (icon : MaybeConst Icon) (text : MaybeConstStr)
| WrappedConfirmReject (title text confirm reject : MaybeConstStr)
| WrappedGenericPage (navigation_info : option WrappedNavigationInfo) (page_content_info : WrappedPageContentInfo)
| WrappedHome (description : MaybeConstStr).
Inductive WrappedStep : Type :=
| WrappedStepTextSubtext (pos : MaybeConst u8) (text subtext : MaybeConstStr) (style : MaybeConst u8)
| WrappedCenteredInfo (pos : MaybeConst u8) (text subtext : option MaybeConstStr) (icon : MaybeConst Icon) (style : MaybeConst u8).

#[export] Instance nav_info_wrapped : WrappedSerializable WrappedNavInfo := fun '(WrappedNavWithButtons b i q) =>
  tagged_parts 0 (serialize_wrapped b +parts+ serialize_wrapped i +parts+ serialize_wrapped q).
#[export] Instance navigation_info_wrapped : WrappedSerializable WrappedNavigationInfo := fun n =>
  serialize_wrapped (w_active_page n) +parts+ serialize_wrapped (w_n_pages n) +parts+
  serialize_wrapped (w_skip_text n) +parts+ serialize_wrapped (w_nav_info n).
#[export] Instance tag_value_wrapped : WrappedSerializable WrappedTagValue := fun t =>
  serialize_wrapped (w_tag t) +parts+ serialize_wrapped (w_value t).

Section wrapped.
Context `{Heap}.
#[export] Instance page_content_wrapped : WrappedSerializable WrappedPageContent := fun c =>
  match c with
  | WrappedTextSubtext a b => tagged_parts 0 (serialize_wrapped a +parts+ serialize_wrapped b)
  | WrappedTagValueList l => tagged_parts 1 (serialize_wrapped l)
  | WrappedConfirmationButton a b => tagged_parts 2 (serialize_wrapped a +parts+ serialize_wrapped b)
  | WrappedConfirmationLongPress a b => tagged_parts 3 (serialize_wrapped a +parts+ serialize_wrapped b)
  end.
#[export] Instance page_content_info_wrapped : WrappedSerializable WrappedPageContentInfo := fun c =>
  serialize_wrapped (w_title c) +parts+ serialize_wrapped (w_top_right_icon c) +parts+ serialize_wrapped (w_page_content c).
#[export] Instance page_wrapped : WrappedSerializable WrappedPage := fun p =>
  match p with
  | WrappedSpinner a => tagged_parts 0 (serialize_wrapped a)
  | WrappedInfo i a => tagged_parts 1 (serialize_wrapped i +parts+ serialize_wrapped a)
  | WrappedConfirmReject a b c d =>
      tagged_parts 2 (serialize_wrapped a +parts+ serialize_wrapped b +parts+ serialize_wrapped c +parts+ serialize_wrapped d)
  | WrappedGenericPage n c => tagged_parts 3 (serialize_wrapped n +parts+ serialize_wrapped c)
  | WrappedHome a => tagged_parts 4 (serialize_wrapped a)
  end.
#[export] Instance step_wrapped : WrappedSerializable WrappedStep := fun s =>
  match s with
  | WrappedStepTextSubtext p a b y =>
      tagged_parts 0 (serialize_wrapped p +parts+ serialize_wrapped a +parts+ serialize_wrapped b +parts+ serialize_wrapped y)
  | WrappedCenteredInfo p a b i y =>
      tagged_parts 1 (serialize_wrapped p +parts+ serialize_wrapped a +parts+ serialize_wrapped b +parts+
        serialize_wrapped i +parts+ serialize_wrapped y)
  end.
End wrapped.

(** ** The tables *)

Definition rt_pos : MaybeConst u8 := rt "pos" "u8".
Definition maker_review_page (has_back_button : bool) (content : WrappedPageContent) : WrappedPage :=
  WrappedGenericPage
    (Some (mkWrappedNavigationInfo (rt "active_page" "u32") (rt "n_pages" "u32") None
      (WrappedNavWithButtons (ct has_back_button) (ct true) (Some (ct_str "Reject")))))
    (mkWrappedPageContentInfo None (ct IconNone) content).
Definition PAGE_MAKERS : list (string * WrappedPage) := [
  ("spinner"%string, WrappedSpinner (rt_str "text" "&str"));
  ("info"%string, WrappedInfo (rt "icon" "Icon") (rt_str "text" "&str"));
  ("confirm_reject"%string,
   WrappedConfirmReject (rt_str "title" "&str") (rt_str "text" "&str") (rt_str "confirm" "&str") (rt_str "reject" "&str"));
  ("review_pairs_intro"%string,
   maker_review_page false (WrappedTextSubtext (rt_str "intro_text" "&str") (rt_str "intro_subtext" "&str")));
  ("review_pairs_content"%string, maker_review_page true (WrappedTagValueList (rt "pairs" "&[TagValue]")));
  ("review_pairs_final_longpress"%string,
   maker_review_page true (WrappedConfirmationLongPress (rt_str "final_text" "&str") (rt_str "final_button_text" "&str")));
  ("review_pairs_final_confirmationbutton"%string,
   maker_review_page true (WrappedConfirmationButton (rt_str "final_text" "&str") (rt_str "final_button_text" "&str")));
  ("home"%string, WrappedHome (rt_str "description" "&str"));
  ("home_info"%string,
   WrappedGenericPage
     (Some (mkWrappedNavigationInfo (ct (U32 0)) (ct (U32 1)) None
       (WrappedNavWithButtons (ct true) (ct false) (Some (ct_str "<- Back")))))
     (mkWrappedPageContentInfo None (ct IconNone) (WrappedTagValueList (rt "pairs" "&[TagValue]"))))].
(** [REGULAR_INFO] is 0, [BOLD_TEXT1_INFO] is 1. *)
Definition STEP_MAKERS : list (string * WrappedStep) := [
  ("text_subtext"%string,
   WrappedStepTextSubtext rt_pos (rt_str "text" "&str") (rt_str "subtext" "&str") (ct (U8 0)));
  ("btext_subtext"%string,
   WrappedStepTextSubtext rt_pos (rt_str "text" "&str") (rt_str "subtext" "&str") (ct (U8 1)));
  ("info_single"%string,
   WrappedCenteredInfo (ct (U8 0)) (Some (rt_str "text" "&str")) None (ct IconNone) (ct (U8 1)));
  ("centered_info_nosubtext"%string,
   WrappedCenteredInfo rt_pos (Some (rt_str "text" "&str")) None (rt "icon" "Icon") (ct (U8 1)));
  ("confirm"%string, WrappedCenteredInfo rt_pos (Some (ct_str "Confirm")) None (ct Confirm) (ct (U8 1)));
  ("reject"%string, WrappedCenteredInfo rt_pos (Some (ct_str "Reject")) None (ct Reject) (ct (U8 1)));
  ("spinner"%string,
   WrappedCenteredInfo (ct (U8 0)) (Some (rt_str "text" "&str")) None (ct Processing) (ct (U8 1)))].

(** ** The functions that are generated *)

Definition merge_static_parts (parts : list SerializedPart) : list SerializedPart :=
  foldl (fun result part =>
    match part, last result with
    | Static vec, Some (Static last_vec) => take (length result - 1) result ++ [Static (last_vec ++ vec)]
    | _, _ => result ++ [part]
    end) [] parts.

(** Their arguments. *)
Inductive Arg : Type := ArgU8 (x : u8) | ArgU32 (x : u32) | ArgIcon (i : Icon) | ArgStr (s : String) | ArgPairs (l : list TagValue).
Definition type_of (a : Arg) : string :=
  match a with
  | ArgU8 _ => "u8" | ArgU32 _ => "u32" | ArgIcon _ => "Icon" | ArgStr _ => "&str" | ArgPairs _ => "&[TagValue]"
  end.

Section makers.
Context `{Heap}.

Definition arg_length (a : Arg) : Z :=
  match a with
  | ArgU8 x => get_serialized_length x | ArgU32 x => get_serialized_length x | ArgIcon x => get_serialized_length x
  | ArgStr x => get_serialized_length x | ArgPairs x => get_serialized_length x
  end.
Definition arg_serialize (a : Arg) : outcome string (list Z) :=
  match a with
  | ArgU8 x => serialize x | ArgU32 x => serialize x | ArgIcon x => serialize x | ArgStr x => serialize x
  | ArgPairs x => serialize x
  end.

(** The parameters of the function are its runtime parts, in order. *)
Definition fn_args (parts : list SerializedPart) : list (string * string) :=
  omap (fun part => match part with Runtime arg_name arg_type => Some (arg_name, arg_type) | Static _ => None end) parts.
Definition Env : Type := list (string * Arg).
Definition env_lookup (env : Env) (arg_name : string) : option Arg :=
  snd <$> List.find (fun p => bool_decide (p.1 = arg_name)) env.
(** A call that the compiler accepts. *)
Definition bind_args (params : list (string * string)) (args : list Arg) : option Env :=
  if bool_decide (type_of <$> args = snd <$> params) then Some (zip (fst <$> params) args) else None.

(** Memory that may not be initialized; what the library forbids (a write outside of it, reading what
    was never written) is a panic. *)
Definition write_bytes (slice : list (option Z)) (cur : nat) (bs : list Z) : outcome string (list (option Z)) :=
  if (cur + length bs <=? length slice)%nat then Ok (take cur slice ++ (Some <$> bs) ++ drop (cur + length bs) slice) else Panic.
Definition assume_init (slice : list (option Z)) : outcome string (list Z) := unwrap (mapM id slice).

Fixpoint total_len (env : Env) (parts : list SerializedPart) : Z :=
  match parts with
  | [] => 0
  | Static vec :: parts => Z.of_nat (length vec) + total_len env parts
  | Runtime arg_name _ :: parts =>
      match env_lookup env arg_name with Some a => arg_length a | None => 0 end + total_len env parts
  end.
Fixpoint write_parts (env : Env) (parts : list SerializedPart) (slice : list (option Z)) (cur : nat) : outcome string (list (option Z)) :=
  match parts with
  | [] => Ok slice
  | Static vec :: parts =>
      slice ← write_bytes slice cur vec;
      write_parts env parts slice (cur + length vec)
  | Runtime arg_name _ :: parts =>
      a ← unwrap (env_lookup env arg_name);
      bs ← arg_serialize a;
      slice ← write_bytes slice cur bs;
      write_parts env parts slice (cur + length bs)
  end.

(** The body of [make_*], which is also the long branch of [show_*]. *)
Definition make_object (env : Env) (parts : list SerializedPart) : outcome string (list Z) :=
  let total_len := total_len env parts in
  assert_or_panic (total_len <=? heap);;
  slice ← write_parts env parts (replicate (Z.to_nat total_len) None) 0;
  assume_init slice.
Definition MAX_STATIC_LEN : Z := 64.
(** What [show_*] draws when there are several parts; the code that is generated for a single part
    uses a variable it does not declare. *)
Definition show_object (env : Env) (parts : list SerializedPart) : outcome string (list Z) :=
  let total_len := total_len env parts in
  if total_len <=? MAX_STATIC_LEN then
    slice ← write_parts env parts (replicate (Z.to_nat MAX_STATIC_LEN) None) 0;
    assume_init (take (Z.to_nat total_len) slice)
  else make_object env parts.

(** A call of the function of a table. *)
Definition maker {W} `{WrappedSerializable W} (table : list (string * W)) (fn_name : string) : outcome string (list SerializedPart) :=
  w ← unwrap (snd <$> List.find (fun p => bool_decide (p.1 = fn_name)) table);
  parts ← serialize_wrapped w;
  Ok (merge_static_parts parts).
Definition call_maker {W} `{WrappedSerializable W} (body : Env -> list SerializedPart -> outcome string (list Z))
    (table : list (string * W)) (fn_name : string) (args : list Arg) : outcome string (list Z) :=
  parts ← maker table fn_name;
  env ← unwrap (bind_args (fn_args parts) args);
  body env parts.
Definition make_page : string -> list Arg -> outcome string (list Z) := call_maker make_object PAGE_MAKERS.
Definition show_page_bytes : string -> list Arg -> outcome string (list Z) := call_maker show_object PAGE_MAKERS.
Definition make_step : string -> list Arg -> outcome string (list Z) := call_maker make_object STEP_MAKERS.
Definition show_step_bytes : string -> list Arg -> outcome string (list Z) := call_maker show_object STEP_MAKERS.
End makers.
