(* ===== verification/MakersSpec.v ===== *)
(** * The makers serialize

    What a maker writes is the serialization of the page or step whose constant fields are filled
    in: the parts of a wrapped value write its value, merged or not, into either buffer. *)

From S2P Require Import Prelude Text Ux UxSpec Makers Review.

Section writes.
Context `{Heap} (env : Env).

(** The parts write these bytes, as many as are counted. *)
Fixpoint writes (parts : list SerializedPart) (bs : list Z) : Prop :=
  match parts with
  | [] => bs = []
  | Static vec :: parts => exists r, bs = vec ++ r /\ writes parts r
  | Runtime arg_name _ :: parts => exists a b r, env_lookup env arg_name = Some a /\ arg_serialize a = Ok b /\
      arg_length a = Z.of_nat (length b) /\ bs = b ++ r /\ writes parts r
  end.
Lemma writes_app p q bs cs : writes p bs -> writes q cs -> writes (p ++ q) (bs ++ cs).
Proof.
  revert bs; induction p as [|[] p IH]; intros bs Hp Hq; [by rewrite Hp| |].
  - destruct Hp as (r & -> & Hp). exists (r ++ cs). split; [by rewrite app_assoc|by apply IH].
  - destruct Hp as (a & b & r & ? & ? & ? & -> & Hp). exists a, b, (r ++ cs). split_and!; [done..|by rewrite app_assoc|by apply IH].
Qed.
Lemma writes_app_inv p q bs : writes (p ++ q) bs -> exists c d, bs = c ++ d /\ writes p c /\ writes q d.
Proof.
  revert bs; induction p as [|[] p IH]; intros bs Hp; [by exists [], bs| |].
  - destruct Hp as (r & -> & Hp). apply IH in Hp as (c & d & -> & Hc & Hd). exists (vec ++ c), d.
    split_and!; [by rewrite app_assoc|by exists c|done].
  - destruct Hp as (a & b & r & ? & ? & ? & -> & Hp). apply IH in Hp as (c & d & -> & Hc & Hd). exists (b ++ c), d.
    split_and!; [by rewrite app_assoc|by exists a, b, c|done].
Qed.

Lemma merge_writes_acc parts acc bs cs : writes acc bs -> writes parts cs ->
  writes (foldl (fun result part => match part, last result with
    | Static vec, Some (Static last_vec) => take (length result - 1) result ++ [Static (last_vec ++ vec)]
    | _, _ => result ++ [part] end) acc parts) (bs ++ cs).
Proof.
  revert acc bs cs; induction parts as [|part parts IH]; intros acc bs cs Ha Hp; [rewrite Hp; by rewrite app_nil_r|].
  change (part :: parts) with ([part] ++ parts) in Hp. apply writes_app_inv in Hp as (c & d & -> & Hc & Hd).
  rewrite app_assoc. cbn [foldl]. apply IH; [|done]. destruct part as [vec|]; [|by apply writes_app].
  destruct (last acc) as [[last_vec|]|] eqn:El; [|by apply writes_app..].
  apply last_Some in El as [pre ->]. rewrite length_app. cbn [length]. replace (length pre + 1 - 1)%nat with (length pre) by lia.
  rewrite take_app_length. apply writes_app_inv in Ha as (a & b & -> & Ha & (r & -> & ->)). destruct Hc as (r' & -> & ->).
  rewrite !app_nil_r, <- app_assoc. apply writes_app; [done|]. exists []. by rewrite app_nil_r.
Qed.
Lemma merge_writes parts bs : writes parts bs -> writes (merge_static_parts parts) bs.
Proof. by apply (merge_writes_acc parts [] []). Qed.

Lemma total_len_writes parts bs : writes parts bs -> total_len env parts = Z.of_nat (length bs).
Proof.
  revert bs; induction parts as [|[] parts IH]; intros bs Hw; cbn [total_len]; [by rewrite Hw| |].
  - destruct Hw as (r & -> & Hr). rewrite (IH r), length_app by done. lia.
  - destruct Hw as (a & b & r & -> & _ & -> & -> & Hr). rewrite (IH r), length_app by done. lia.
Qed.
(** Writing proceeds from the start of the buffer. *)
Lemma write_next (bs r front : list Z) k : (length bs + length r <= k)%nat ->
  write_bytes ((Some <$> front) ++ replicate k None) (length front) bs =
  Ok ((Some <$> (front ++ bs)) ++ replicate (k - length bs) None).
Proof.
  intros Hk. unfold write_bytes. rewrite length_app, length_fmap, length_replicate.
  rewrite (proj2 (Nat.leb_le _ _)) by lia. f_equal. rewrite fmap_app, <- app_assoc.
  rewrite <- (length_fmap Some front) at 1. rewrite take_app_length. f_equal. f_equal.
  rewrite <- (length_fmap Some front), drop_app, drop_ge by lia. cbn.
  rewrite drop_replicate. f_equal. lia.
Qed.
Lemma write_parts_writes parts bs front k : writes parts bs -> (length bs <= k)%nat ->
  write_parts env parts ((Some <$> front) ++ replicate k None) (length front) =
  Ok ((Some <$> (front ++ bs)) ++ replicate (k - length bs) None).
Proof.
  revert bs front k; induction parts as [|[vec|n t] parts IH]; intros bs front k Hw Hk; cbn [write_parts].
  - rewrite Hw. cbn. by rewrite app_nil_r, Nat.sub_0_r.
  - destruct Hw as (r & -> & Hr). rewrite length_app in *. rewrite (write_next vec r) by lia. cbn [mbind outcome_mbind outcome_bind].
    rewrite <- length_app, (IH r) by (done || lia). by rewrite <- app_assoc, Nat.sub_add_distr.
  - destruct Hw as (a & b & r & -> & Hb & _ & -> & Hr). cbn [unwrap mbind outcome_mbind outcome_bind]. rewrite Hb.
    cbn [mbind outcome_mbind outcome_bind].
    rewrite length_app in *. rewrite (write_next b r) by lia. cbn [mbind outcome_mbind outcome_bind].
    rewrite <- length_app, (IH r) by (done || lia). by rewrite <- app_assoc, Nat.sub_add_distr.
Qed.
Lemma write_parts_start parts bs k : writes parts bs -> (length bs <= k)%nat ->
  write_parts env parts (replicate k None) 0 = Ok ((Some <$> bs) ++ replicate (k - length bs) None).
Proof. exact (write_parts_writes parts bs [] k). Qed.
Lemma assume_init_all bs : assume_init (Some <$> bs) = Ok bs.
Proof. unfold assume_init. induction bs as [|b bs IH]; [done|]. cbn. destruct (mapM id _); cbn in *; congruence. Qed.

Lemma make_object_writes parts bs : writes parts bs -> Z.of_nat (length bs) <= heap -> make_object env parts = Ok bs.
Proof.
  intros Hw Hh. unfold make_object. rewrite (total_len_writes _ _ Hw). unfold assert_or_panic.
  rewrite (proj2 (Z.leb_le _ _)) by done. cbn [mbind outcome_mbind outcome_bind]. rewrite Nat2Z.id.
  rewrite (write_parts_start parts bs) by done. cbn [mbind outcome_mbind outcome_bind].
  rewrite Nat.sub_diag, app_nil_r. apply assume_init_all.
Qed.
Lemma show_object_writes parts bs : writes parts bs -> Z.of_nat (length bs) <= heap -> show_object env parts = Ok bs.
Proof.
  intros Hw Hh. unfold show_object. rewrite (total_len_writes _ _ Hw). destruct (Z.leb_spec (Z.of_nat (length bs)) MAX_STATIC_LEN) as [Hl|].
  - unfold MAX_STATIC_LEN in Hl. rewrite (write_parts_start parts bs) by (done || (unfold MAX_STATIC_LEN; lia)).
    cbn [mbind outcome_mbind outcome_bind]. rewrite Nat2Z.id, <- (length_fmap Some bs) at 1. rewrite take_app_length. apply assume_init_all.
  - by apply make_object_writes.
Qed.
End writes.

(** ** The value that a wrapped value stands for *)

Class ArgOf (T : Type) := from_arg : Arg -> option T.
#[export] Instance bool_arg : ArgOf bool := fun _ => None.
#[export] Instance u8_arg : ArgOf u8 := fun a => match a with ArgU8 x => Some x | _ => None end.
#[export] Instance u32_arg : ArgOf u32 := fun a => match a with ArgU32 x => Some x | _ => None end.
#[export] Instance icon_arg : ArgOf Icon := fun a => match a with ArgIcon x => Some x | _ => None end.
#[export] Instance string_arg : ArgOf String := fun a => match a with ArgStr x => Some x | _ => None end.
#[export] Instance pairs_arg : ArgOf (list TagValue) := fun a => match a with ArgPairs x => Some x | _ => None end.

(** [fill env w]: the runtime parts are arguments. *)
Class Fill (W T : Type) := fill : Env -> W -> option T.
#[export] Instance fill_const {T} `{ArgOf T} : Fill (MaybeConst T) T := fun env m =>
  match m with Const v => Some v | RuntimeArg arg_name _ => a ← env_lookup env arg_name; from_arg a end.
#[export] Instance fill_str : Fill MaybeConstStr String := fun env m =>
  match m with ConstStr v => Some v | RuntimeStr arg_name _ => a ← env_lookup env arg_name; from_arg a end.
#[export] Instance fill_option {W T} `{Fill W T} : Fill (option W) (option T) := fun env o =>
  match o with Some w => v ← fill env w; Some (Some v) | None => Some None end.
#[export] Instance fill_nav_info : Fill WrappedNavInfo NavInfo := fun env '(WrappedNavWithButtons b i q) =>
  b ← fill env b; i ← fill env i; q ← fill env q; Some (NavWithButtons b i q).
#[export] Instance fill_navigation_info : Fill WrappedNavigationInfo NavigationInfo := fun env n =>
  a ← fill env (w_active_page n); p ← fill env (w_n_pages n); s ← fill env (w_skip_text n); i ← fill env (w_nav_info n);
  Some (mkNavigationInfo a p s i).
#[export] Instance fill_page_content : Fill WrappedPageContent PageContent := fun env c =>
  match c with
  | WrappedTextSubtext a b => a ← fill env a; b ← fill env b; Some (TextSubtext a b)
  | WrappedTagValueList l => l ← fill env l; Some (TagValueList l)
  | WrappedConfirmationButton a b => a ← fill env a; b ← fill env b; Some (ConfirmationButton a b)
  | WrappedConfirmationLongPress a b => a ← fill env a; b ← fill env b; Some (ConfirmationLongPress a b)
  end.
#[export] Instance fill_page_content_info : Fill WrappedPageContentInfo PageContentInfo := fun env c =>
  t ← fill env (w_title c); i ← fill env (w_top_right_icon c); c ← fill env (w_page_content c);
  Some (mkPageContentInfo t i c).
#[export] Instance fill_page : Fill WrappedPage UxPage := fun env p =>
  match p with
  | WrappedSpinner a => a ← fill env a; Some (Spinner a)
  | WrappedInfo i a => i ← fill env i; a ← fill env a; Some (Info i a)
  | WrappedConfirmReject a b c d =>
      a ← fill env a; b ← fill env b; c ← fill env c; d ← fill env d; Some (ConfirmReject a b c d)
  | WrappedGenericPage n c => n ← fill env n; c ← fill env c; Some (GenericPage n c)
  | WrappedHome a => a ← fill env a; Some (Home a)
  end.
#[export] Instance fill_step : Fill WrappedStep UxStep := fun env s =>
  match s with
  | WrappedStepTextSubtext p a b y =>
      p ← fill env p; a ← fill env a; b ← fill env b; y ← fill env y; Some (StepTextSubtext p a b y)
  | WrappedCenteredInfo p a b i y =>
      p ← fill env p; a ← fill env a; b ← fill env b; i ← fill env i; y ← fill env y; Some (CenteredInfo p a b i y)
  end.

(** ** The parts write the value *)

Section laws.
Context `{Heap}.

Definition correct {W T} `{WrappedSerializable W, CodecLaws T, Fill W T} (env : Env) (w : W) (v : T) : Prop :=
  exists parts bs, serialize_wrapped w = Ok parts /\ serialize v = Ok bs /\ writes env parts bs.
Class MakerLaws (W T : Type) `{WrappedSerializable W, CodecLaws T, Fill W T} :=
  wrapped_correct : forall env (w : W) (v : T), fill env w = Some v -> fits v -> correct env w v.
Class ArgLaws (T : Type) `{CodecLaws T, ArgOf T} :=
  arg_correct : forall a (v : T), from_arg a = Some v -> arg_serialize a = serialize v /\ arg_length a = get_serialized_length v.

#[local] Instance bool_arg_laws : ArgLaws bool. Proof. by intros a v. Qed.
#[local] Instance u8_arg_laws : ArgLaws u8. Proof. by intros [] v [= ->]. Qed.
#[local] Instance u32_arg_laws : ArgLaws u32. Proof. by intros [] v [= ->]. Qed.
#[local] Instance icon_arg_laws : ArgLaws Icon. Proof. by intros [] v [= ->]. Qed.
#[local] Instance string_arg_laws : ArgLaws String. Proof. by intros [] v [= ->]. Qed.
#[local] Instance pairs_arg_laws : ArgLaws (list TagValue). Proof. by intros [] v [= ->]. Qed.

Lemma runtime_writes {T} `{ArgLaws T} env arg_name arg_type (v : T) : (a ← env_lookup env arg_name; from_arg a) = Some v -> fits v ->
  exists bs, serialize v = Ok bs /\ writes env [Runtime arg_name arg_type] bs.
Proof.
  intros (a & Ha & Hv)%bind_Some F. destruct (codec_round_trip v F) as (bs & E & _ & Hl & _).
  apply arg_correct in Hv as [Es El]. exists bs. split; [done|]. exists a, bs, []. rewrite app_nil_r.
  split_and!; [done|by rewrite Es|by rewrite El|done|done].
Qed.
Lemma static_writes env vec : writes env [Static vec] vec.
Proof. exists []. by rewrite app_nil_r. Qed.

#[local] Instance const_laws {T} `{ArgLaws T} : MakerLaws (MaybeConst T) T.
Proof.
  intros env [c|n t] v Hf F.
  - injection Hf as ->. destruct (codec_round_trip v F) as (bs & E & _). exists [Static bs], bs.
    split_and!; [|done|apply static_writes]. unfold serialize_wrapped, maybe_const_wrapped. by rewrite E.
  - destruct (runtime_writes env n t v Hf F) as (bs & E & Hw). by exists [Runtime n t], bs.
Qed.
#[local] Instance const_str_laws : MakerLaws MaybeConstStr String.
Proof.
  intros env [c|n t] v Hf F.
  - injection Hf as ->. destruct (codec_round_trip v F) as (bs & E & _). destruct F as (_ & _ & Hl).
    exists [Static bs], bs. split_and!; [|done|apply static_writes].
    unfold serialize_wrapped, maybe_const_str_wrapped. unfold serialize, string_codec in E. rewrite try_into_fits in E by done.
    cbn [mbind outcome_mbind outcome_bind] in E. rewrite (wrap_small 16) by (unfold is_u; lia).
    destruct (serialize (U16 _)) eqn:Eu; cbn [mbind outcome_mbind outcome_bind] in *; try discriminate E. by injection E as <-.
  - destruct (runtime_writes env n t v Hf F) as (bs & E & Hw). by exists [Runtime n t], bs.
Qed.

(** Fields, one after the other. *)
Definition fields_correct (env : Env) (p : outcome string (list SerializedPart)) (s : outcome string (list Z)) : Prop :=
  exists parts bs, p = Ok parts /\ s = Ok bs /\ writes env parts bs.
Lemma fields_then env p p' s s' : fields_correct env p s -> fields_correct env p' s' -> fields_correct env (p +parts+ p') (s +ser+ s').
Proof.
  intros (parts & bs & -> & -> & Hw) (parts' & bs' & -> & -> & Hw'). exists (parts ++ parts'), (bs ++ bs').
  split_and!; [done|done|by apply writes_app].
Qed.
Lemma fields_tagged env d p s : fields_correct env p s -> fields_correct env (tagged_parts d p) (tagged d s).
Proof. intros Hf. apply fields_then; [|done]. exists [Static [d]], [d]. split_and!; [done|done|apply static_writes]. Qed.
#[local] Instance option_maker_laws {W T} `{MakerLaws W T} : MakerLaws (option W) (option T).
Proof.
  intros env [w|] v Hf F.
  - apply bind_Some in Hf as (x & Hx & [= <-]). destruct (wrapped_correct env w x Hx F) as (parts & bs & Ep & Es & Hw).
    exists (Static [1] :: parts), (1 :: bs). unfold serialize_wrapped, option_wrapped. cbn [serialize option_codec]. rewrite Ep, Es.
    split_and!; [done|done|by exists bs].
  - injection Hf as <-. exists [Static [0]], [0]. split_and!; [done|done|apply static_writes].
Qed.

(** Splits a filled value into its fields and closes each. *)
Ltac maker_split :=
  repeat match goal with
  | Hf : _ ≫= _ = Some _ |- _ =>
      let x := fresh "x" in let Hx := fresh "Hx" in apply bind_Some in Hf as (x & Hx & Hf)
  end;
  match goal with Hf : Some _ = Some _ |- _ => injection Hf as <- end.
Ltac maker_fields := first [by apply wrapped_correct | apply fields_then; [by apply wrapped_correct|maker_fields]].

#[local] Instance nav_info_maker_laws : MakerLaws WrappedNavInfo NavInfo.
Proof. intros env [b i q] v Hf F. unfold fill, fill_nav_info in Hf. maker_split. destruct F as (? & ? & ?). apply (fields_tagged env 0). maker_fields. Qed.
#[local] Instance navigation_info_maker_laws : MakerLaws WrappedNavigationInfo NavigationInfo.
Proof.
  intros env [a n s i] v Hf F. unfold fill, fill_navigation_info in Hf. cbn [w_active_page w_n_pages w_skip_text w_nav_info] in Hf.
  maker_split. destruct F as (? & ? & ? & ?). unfold correct. apply (fields_then env); maker_fields.
Qed.
#[local] Instance page_content_maker_laws : MakerLaws WrappedPageContent PageContent.
Proof.
  intros env [a b|l|a b|a b] v Hf F; unfold fill, fill_page_content in Hf; maker_split.
  1,3,4: destruct F. all: apply (fields_tagged env _); maker_fields.
Qed.
#[local] Instance page_content_info_maker_laws : MakerLaws WrappedPageContentInfo PageContentInfo.
Proof.
  intros env [t i c] v Hf F. unfold fill, fill_page_content_info in Hf. cbn [w_title w_top_right_icon w_page_content] in Hf.
  maker_split. destruct F as (? & ? & ?). apply (fields_then env); maker_fields.
Qed.
#[export] Instance page_maker_laws : MakerLaws WrappedPage UxPage.
Proof.
  intros env [a|i a|a b c d|n c|a] v Hf F; unfold fill, fill_page in Hf; maker_split;
    [|destruct F as (? & ?)|destruct F as (? & ? & ? & ?)|destruct F as (? & ?)|];
    apply (fields_tagged env _); maker_fields.
Qed.
#[export] Instance step_maker_laws : MakerLaws WrappedStep UxStep.
Proof.
  intros env [p a b y|p a b i y] v Hf F; unfold fill, fill_step in Hf; maker_split;
    [destruct F as (? & ? & ? & ?)|destruct F as (? & ? & ? & ? & ?)]; apply (fields_tagged env _); maker_fields.
Qed.

(** The functions of a table, called with arguments that its parts accept. *)
Lemma call_maker_correct {W T} `{MakerLaws W T} (table : list (string * W)) name (w : W) args parts env (v : T) :
  snd <$> List.find (fun p => bool_decide (p.1 = name)) table = Some w ->
  maker table name = Ok parts -> bind_args (fn_args parts) args = Some env ->
  fill env w = Some v -> fits v -> get_serialized_length v <= heap ->
  call_maker make_object table name args = serialize v /\ call_maker show_object table name args = serialize v.
Proof.
  intros Hn Hp Hb Hf F Hl. destruct (wrapped_correct env w v Hf F) as (ps & bs & Ep & Es & Hw).
  destruct (codec_round_trip v F) as (bs' & Es' & _ & Hlen & _). rewrite Es in Es'. injection Es' as <-.
  assert (parts = merge_static_parts ps) as ->.
  { unfold maker in Hp. rewrite Hn in Hp. cbn [unwrap mbind outcome_mbind outcome_bind] in Hp. rewrite Ep in Hp. by injection Hp. }
  apply merge_writes in Hw. unfold call_maker. rewrite Hp. cbn [mbind outcome_mbind outcome_bind]. rewrite Hb, Es.
  cbn [unwrap outcome_bind]. split; [apply make_object_writes|apply show_object_writes]; by rewrite ?Hlen.
Qed.
End laws.

(** ** The functions that the SDK calls *)

Section calls.
Context `{Heap}.

(** The calls of [ux.rs] and [app.rs], and the pages and steps that they mean. *)
Inductive page_call : string -> list Arg -> UxPage -> Prop :=
| call_spinner t : page_call "spinner" [ArgStr t] (Spinner t)
| call_info i t : page_call "info" [ArgIcon i; ArgStr t] (Info i t)
| call_confirm_reject a b c d : page_call "confirm_reject" [ArgStr a; ArgStr b; ArgStr c; ArgStr d] (ConfirmReject a b c d)
| call_intro i n a b :
    page_call "review_pairs_intro" [ArgU32 (U32 i); ArgU32 (U32 n); ArgStr a; ArgStr b] (page_review_pairs_intro i n a b)
| call_content i n l :
    page_call "review_pairs_content" [ArgU32 (U32 i); ArgU32 (U32 n); ArgPairs l] (page_review_pairs_content i n l)
| call_longpress i n a b :
    page_call "review_pairs_final_longpress" [ArgU32 (U32 i); ArgU32 (U32 n); ArgStr a; ArgStr b]
      (page_review_pairs_final_longpress i n a b)
| call_button i n a b :
    page_call "review_pairs_final_confirmationbutton" [ArgU32 (U32 i); ArgU32 (U32 n); ArgStr a; ArgStr b]
      (page_review_pairs_final_confirmationbutton i n a b)
| call_home t : page_call "home" [ArgStr t] (Home t)
| call_home_info l : page_call "home_info" [ArgPairs l] (page_home_info l).
Inductive step_call : string -> list Arg -> UxStep -> Prop :=
| call_text p a b : step_call "text_subtext" [ArgU8 p; ArgStr a; ArgStr b] (step_text_subtext p a b)
| call_btext p a b : step_call "btext_subtext" [ArgU8 p; ArgStr a; ArgStr b] (step_btext_subtext p a b)
| call_single t : step_call "info_single" [ArgStr t] (step_info_single t)
| call_centered p a i : step_call "centered_info_nosubtext" [ArgU8 p; ArgStr a; ArgIcon i] (step_centered_info_nosubtext p a i)
| call_confirm p : step_call "confirm" [ArgU8 p] (step_confirm p)
| call_reject p : step_call "reject" [ArgU8 p] (step_reject p)
| call_step_spinner t : step_call "spinner" [ArgStr t] (step_spinner t).

(** C29. Every function that the build script generates for a page has several parts, for which its code
    compiles; called with its arguments in their order it yields the serialization of the page that the
    call means, whether it builds a vector or draws from the small buffer: nothing is written outside
    of a buffer or read from it uninitialized. *)
Theorem page_makers_serialize name args p : page_call name args p -> fits p -> get_serialized_length p <= heap ->
  make_page name args = serialize p /\ show_page_bytes name args = serialize p /\
  exists parts, maker PAGE_MAKERS name = Ok parts /\ (1 < length parts)%nat.
Proof.
  intros Hc F Hl. apply and_assoc. destruct Hc;
    (split; [eapply call_maker_correct; [reflexivity..|exact F|exact Hl]|eexists; split; [reflexivity|by apply Nat.ltb_lt]]).
Qed.
(** The same of steps. *)
Theorem step_makers_serialize name args s : step_call name args s -> fits s -> get_serialized_length s <= heap ->
  make_step name args = serialize s /\ show_step_bytes name args = serialize s /\
  exists parts, maker STEP_MAKERS name = Ok parts /\ (1 < length parts)%nat.
Proof.
  intros Hc F Hl. apply and_assoc. destruct Hc;
    (split; [eapply call_maker_correct; [reflexivity..|exact F|exact Hl]|eexists; split; [reflexivity|by apply Nat.ltb_lt]]).
Qed.
End calls.

Example page_makers_serialize_witness : exists bs,
  make_page (H := 65536) "review_pairs_intro" [ArgU32 (U32 0); ArgU32 (U32 4); ArgStr (text "Review"); ArgStr (text "payment")] = Ok bs /\
  show_page_bytes (H := 65536) "review_pairs_intro" [ArgU32 (U32 0); ArgU32 (U32 4); ArgStr (text "Review"); ArgStr (text "payment")] = Ok bs /\
  length bs = 43%nat.
Proof.
  destruct (page_makers_serialize (H := 65536) _ _ _ (call_intro 0 4 (text "Review") (text "payment"))) as (-> & -> & _).
  - cbn. unfold is_u. repeat first [split | constructor | lia | done].
  - vm_compute. discriminate.
  - eexists. split; [vm_compute; reflexivity|]. split; [vm_compute; reflexivity|]. reflexivity.
Defined.
